(* ===== verification/_CoqProject ===== *)
-Q . S2P
Prelude.v
GoStd.v
Rand.v
Drbg.v
Framing.v
ProbDist.v
ReplayFilter.v
Packet.v
Ntor.v
Handshake.v
Obfs4.v
DefConn.v
Args.v
Socks5.v
UniformDH.v
Links.v
DefconnLink.v
Randomwt.v
Cells.v
Tamaraw.v
Fifo.v
GoFloat.v
GoText.v
GoAddr.v
GoURL.v
Log.v
Utils.v
TraceLog.v
GoNet.v
Socks4.v
Null.v
PtExtras.v
TermMon.v
CopyLoop.v
ObfsProxy.v
GoCrypto.v
Front.v
Wfgan.v
Regulator.v
RegServer.v
RegClient.v
WalkieTalkie.v
ObfsState.v
DefState.v
MeekArgs.v
Meek.v
TamarawState.v
FrontState.v
WfganState.v
RegulatorState.v
RandomwtState.v
Obfs2.v
Obfs3.v
SsTicket.v
Scramble.v
SsHandshake.v
Field25519.v
Prime25519.v
Const25519.v
EdwardsCurve.v
Edwards25519.v
Scalar25519.v
ScalarMult25519.v
DoubleScalar25519.v
Elligator25519.v
