(* ===== verification/Prelude.v ===== *)
(** * wfdef: a verification development

    wfdef ([src/]) is a fork of obfs4proxy: a pluggable transport proxy for Tor
    with website fingerprinting defenses.  A client speaks SOCKS 5 to the proxy,
    which opens a connection of some transport to a server.  obfs4, and the
    defense transports built on the same link layer, run an ntor handshake
    disguised as random bytes, then exchange sealed frames that carry packets:
    payload, padding, seeds and signals.

    This development models the program in Rocq, function by function, and
    proves what makes each part correct.  Definitions keep the names of the
    code; the files, in dependency order, are:

    - [Prelude.v]: bytes, lists measured in [Z], Go slices and panics, big-endian
      integers, the result type ([Ok], [Err], [Panic]) and the state monad [M] in
      which methods are written (the state survives an error return), fixed-width
      integers, reachability, tactics and hint databases.
    - [GoStd.v]: what the code uses of Go's standard library: encoding/hex,
      strconv, net.IP.String, crypto/sha256 and crypto/hmac (executable);
      [GoText.v]: base64, strings, the parsing and printing of integers and floats,
      JSON documents; [GoAddr.v], [GoURL.v]: addresses and URLs as text;
      [GoNet.v]: a connection as the older transports use it; [GoCrypto.v]: AES,
      the counter mode and base32; [GoFloat.v]: binary64 comparisons and
      conversions, on [SpecFloat].
    - [Rand.v]: math/rand's algorithms over any source, and [common/csrand] over a
      tape of entropy; binary64 numbers are [SpecFloat]s.
    - [Drbg.v]: [common/drbg], the SipHash generator.
    - [Framing.v]: [transports/obfs4/framing]: nonces, length obfuscation, encoder
      and incremental decoder.
    - [ProbDist.v]: [common/probdist]: the alias tables of a weighted distribution.
    - [ReplayFilter.v]: [common/replayfilter].
    - [Packet.v]: the packet format and the read loop that [obfs4/packet.go],
      [defconn/packet.go] and [randomwt/packet.go] share, over a handler.
    - [Ntor.v]: [common/ntor].
    - [Handshake.v]: [obfs4/handshake_ntor.go].
    - [Obfs4.v]: [obfs4/packet.go] and [obfs4/obfs4.go]: Read, Write with its
      inter-arrival-time modes, burst padding, link keys.
    - [DefConn.v]: [transports/defconn]: packets, connection state, and the three
      goroutines of [ReadFrom] as a step machine.
    - [Args.v], [Socks5.v]: [common/socks5].
    - [UniformDH.v]: [common/uniformdh].
    - [Links.v]: the handshake drivers [clientHandshake] and [serverHandshake].
    - [DefconnLink.v]: the link layer of defconn: its copies of the framing and
      handshake files, and its drivers.
    - [Randomwt.v]: [transports/randomwt]: link layer, packets, bursts.
    - [Cells.v]: the pieces that the [ReadFrom] of the defense transports share:
      channels, the sender's batches, the wires, reachability by an event list.
    - [Tamaraw.v]: [transports/tamaraw]: the goroutines of [ReadFrom] as a step
      machine over the packets of defconn.
    - [Fifo.v]: the queue of [wfgan], [front] and [regulator], an interface.
    - [Front.v]: [transports/front]; [Wfgan.v]: [transports/wfgan], both ends;
      [Regulator.v]: the packets, parameters and handler of [transports/regulator],
      with its server's goroutines in [RegServer.v] and its client's in
      [RegClient.v].
    - [WalkieTalkie.v]: the goroutines of [randomwt]'s [ReadFrom], both ends
      composed over two ordered wires.
    - [ObfsState.v], [DefState.v]: certificates, state files, arguments and
      factories of [obfs4] and [defconn], with the readers of [common/utils];
      [TamarawState.v], [FrontState.v], [WfganState.v], [RegulatorState.v],
      [RandomwtState.v]: what the defenses add to them.
    - [Obfs2.v], [Obfs3.v]: [transports/obfs2] and [obfs3]; [SsTicket.v],
      [Scramble.v], [SsHandshake.v]: the ticket store, the connection and the two
      handshakes of [transports/scramblesuit]; [MeekArgs.v], [Meek.v]: the arguments
      and the connection of [transports/meeklite]; [Null.v]: [transports/null].
    - [ObfsProxy.v]: [transports/transports.go] and [obfs4proxy/obfs4proxy.go]:
      set-up, accept loops, handlers and [main]; [CopyLoop.v]: its relay;
      [TermMon.v]: the termination monitor; [PtExtras.v]: [pt_extras.go] and the
      HTTP dialer's own part; [Socks4.v]: the SOCKS 4 dialer.
    - [Log.v]: [common/log]; [Utils.v]: the helpers of [common/utils]; [TraceLog.v]:
      the trace logger of [null] and [randomwt].
    - [Field25519.v]: the field arithmetic of [internal/edwards25519], on int32 and
      int64 limbs; [Prime25519.v]: the field of [2^255 - 19] elements, with a proof
      that this number is prime; [Const25519.v]: the tables of [const.go];
      [EdwardsCurve.v]: the group of the curve, the specification of
      [Edwards25519.v], the group operations; [Scalar25519.v]: arithmetic modulo the
      order; [ScalarMult25519.v]: the table and the digits of [GeScalarMultBase];
      [DoubleScalar25519.v]: [slide] and [GeDoubleScalarMultVartime];
      [Elligator25519.v]: [internal/extra25519].

    ** How state and operations correspond to the code

    A Go struct is a [Record] with the fields that operations read or write; a
    method is a function in [M State Error]; a [panic] or a run-time fault is the
    result [Panic].  Integers are [Z] with the wrap-around written where the code
    can reach it ([u16], [u32], [u64], [i64]); slices out of range panic.  The
    network is a parameter: the list of what successive [Read]s return, and the
    outcome of each [Write]; how much a failing [Write] got out is recorded where a
    theorem speaks of it, in the handshake drivers ([Links.written]).  [None] as the result of a loop over such a list says
    that the call blocks for more.  Reads of the clock are arguments.  What a call to
    the operating system does (a file that cannot be opened, a write cut short) is
    the environment's choice, an argument or part of an event.

    In [DefConn.v] the goroutines of [ReadFrom] have program counters, and every
    load and store of shared state and every channel operation is one step
    ([exec]); the list of events is the schedule together with the environment's
    choices, so that an invariant of [rtc step] holds for every interleaving.
    Channels have the capacities of the code; three history fields ([upstream],
    [queued], [wire]) record what was read, queued and sent.  The machines of the
    other defense transports are built the same way; where a clock is read, its
    value is part of the event and the machine only accepts values that do not go
    back and stay below [2^63] nanoseconds.

    ** Parameters

    Code outside [src/] is a class with the laws that the code relies on:
    [SipHash] (eight bytes of output), [SecretBox] (length, opening what was
    sealed, rejecting what was not), [Curve25519] (commutation of the two scalar
    multiplications), [Hkdf] (output length), [BlockCipher] (output length), [PtArgs]
    and [PtArgsGet] (goptlib's argument map), [Fifo] (what the documentation of the
    queue says).  Each has an instance ([ToySip], [ToyBox], [ToyCurve], [ToyArgs],
    [ToyGet], [ToyCipher], lists) on which the witnesses of the theorems are
    evaluated; AES is an instance of [BlockCipher] as well.  The normalization of
    host names ([idna]) is an argument of [MeekArgs.v].  [Elligator] is the interface
    between [common/ntor] and [internal/extra25519]: [Ntor.v] is proved against it,
    and [Elligator25519.extra25519_laws] proves it of the code, but for the
    agreement of X25519 with the Edwards multiple, which is between two libraries.

    ** Bounds and fuel

    - The read loops of [Packet.v] run with fuel one more than the bytes buffered:
      every iteration consumes at least one byte, so the fuel is enough
      ([Packet.read_loop_total]).
    - Chopping loops ([Obfs4.chop], [Randomwt.chop]) run on the length of the data.
    - [ProbDist.pair_loop] has a proved bound ([pair_loop_done]); rejection loops
      of math/rand ([MathRand.draw], [Float64]) have no bound for an adversarial
      generator, so their fuel shows as the panic [out_of_fuel], which theorems name.
    - [Ntor.keypair_loop] runs on the length of the entropy tape, of which every
      iteration consumes 32 bytes.
    - [Obfs4.iat_loop] is given a number of rounds: the paranoid mode resamples
      until it draws a usable length, so its end depends on the entropy;
      [obfs4_stream] speaks about calls of [Write] that return.
    - [Obfs3.find_loop] and [SsHandshake.response_loop] use up one segment of the
      network in each round, the loops of [Scramble.v] one of [net_rounds];
      [GoAddr.groups6] runs on the length of the text ([groups6_fuel]).
    - The reduction of [Scalar25519.v] is a fixed list of operations.  An interval
      analysis, itself proved sound, computes how far each limb can go.

    ** What the theorems show

    - Link: frames survive any segmentation, nothing but what the peer encoded is
      accepted, nonces never repeat, the decoder is total and stays poisoned
      ([Framing]).
    - Handshake: both sides agree on the keys, replays are rejected within the
      filter's time and capacity, parsers are total on network bytes and accept one
      format only, message sizes are bounded ([Ntor], [Handshake],
      [ReplayFilter] with its refinement of a history specification).
    - Streams: what one side writes or reads from upstream is what the other side
      delivers ([Obfs4.obfs4_stream], [DefConn.peer_receives], and the theorems
      [front_peer_receives], [wfgan_peer_receives], [regulator_client_follows],
      [regulator_server_receives], [tamaraw_peer_receives] and [wt_stream] - for
      burst counts that are not negative - of the other transports), and reading is safe for any input.
    - Defense: every cell of a defended connection has the same size, for every
      interleaving; signals and states agree without the race between ticker and
      main loop, and an explicit schedule exhibits the race ([DefConn]); the two
      ends of Walkie-Talkie are never both talking and alternate by finish packets
      ([WalkieTalkie.wt_half_duplex]).
    - Set-up: the SOCKS conversation, the parameter grammar with its round trip,
      UniformDH agreement, the seed that installs the server's distribution; what a
      server publishes is what its clients need, it comes up as the same server
      after a restart, and is silent to whoever does not get a message accepted
      ([ObfsState.published_args], [state_persists], [silent_failure]).
    - The proxy: a client connection gets one answer to its request and then its
      relay, unless a transport panics on its arguments and the process dies
      ([ObfsProxy.client_connection], [clientSetup_answers]); the relay delivers in
      order, its end closes both sides, and it returns once the closed connections
      stop answering ([CopyLoop]), which those of meek_lite need not do
      ([Meek.closed_read_blocks]); the process exits when
      it is told to and the handlers are done ([TermMon.graceful_exit]), the dialers
      and the configuration do what the servers they talk to expect
      ([Socks4.socks4_dial], [PtExtras.ptGetProxy_ok]).
    - Older transports: [obfs2_delivers], [obfs3_delivers], [scramble_delivers] and
      [meek_stream] are their streams end to end, [ss_agreement] the keys of
      scramblesuit's handshake, [ticket_single_use] its tickets.
    - Traffic shaping: tamaraw's server sends one cell per tick whatever the data,
      its client stops at multiples of the configured length, what is buffered
      drains, what is sent is received ([Tamaraw]).  front's padding is within its
      budget and stops with the connection ([Front]); wfgan's bursts have the number
      of cells the sample asked for ([Wfgan]); regulator's server spends at most
      the budgets that the client's start signals granted, at a decaying pace
      ([RegServer]).
    - Curve: the limb arithmetic, wrap-around included, computes modulo [p] for
      operands within the documented bounds, output is canonical ([Field25519]); [GeScalarMultBase] is the multiple of the base point
      in the group, whose laws are proved, associativity included
      ([EdwardsCurve], [ScalarMult25519]); so is the sum of two multiples
      ([DoubleScalar25519.double_scalar_mult]), and scalars are reduced to the least
      residue ([Scalar25519.scalar_arithmetic]); a key pair's representative maps back to
      its public key, for every private key that has one ([Elligator25519]).
    - Randomness: tables of any seed are well formed and samples in range
      ([ProbDist]); the DRBG's stream ([Drbg]).

    ** Not modelled

    - The generated gRPC code ([pb], [grpc/pb]) and the services behind it: what they
      deliver is an event of the machine that receives it.
    - Drawing from third-party distributions ([gonum]) and [math/rand]'s normal
      numbers: a sample is an event, with the range the code clips it to.
    - HTTP and TLS: the CONNECT request of the HTTP dialer and the round trips of
      meek_lite are made by [net/http] and [utls]; their answers are choices of the
      environment, and what the code makes of them is modelled.
    - The concrete syntax of JSON, which the code only marshals and unmarshals.
    - The goroutines of the trace logger are started by no connection, as
      [traceLogEnabled] is [false]: [TraceLog.v] models them on their own.
    - Accessors of one field, [String] methods that only debug output uses, and
      [EstimateTCPCapacity], a query of the kernel that nothing calls. *)

From Stdlib Require Export ZArith Lia.
From Stdlib Require Strings.Byte Strings.String.
From Corelib Require Init.Byte.
From stdpp Require Export base tactics numbers list option strings relations gmap.

#[global] Set Default Goal Selector "!".
#[global] Open Scope Z_scope.

(** ** Bytes *)

Abbreviation byte := Corelib.Init.Byte.byte.
Abbreviation bytes := (list byte).

#[export] Instance byte_eq_dec : EqDecision byte := Strings.Byte.byte_eq_dec.

Definition b2z (b : byte) : Z := Z.of_N (Strings.Byte.to_N b).

(** Go's [byte(x)]: the low eight bits. *)
Definition z2b (z : Z) : byte :=
  match Strings.Byte.of_N (Z.to_N (z mod 256)) with
  | Some b => b
  | None => Byte.x00
  end.

(** The bytes of a Go string literal. *)
Definition str (s : String.string) : bytes := String.list_byte_of_string s.

Lemma b2z_range b : 0 <= b2z b < 256.
Proof.
  unfold b2z. pose proof (Strings.Byte.to_N_bounded b). lia.
Qed.

Lemma b2z_z2b z : b2z (z2b z) = z mod 256.
Proof.
  unfold b2z, z2b. pose proof (Z.mod_pos_bound z 256 ltac:(lia)).
  destruct (Strings.Byte.of_N _) eqn:E.
  - apply Strings.Byte.to_of_N in E. rewrite E. lia.
  - apply Strings.Byte.of_N_None_iff in E. lia.
Qed.

Lemma z2b_b2z b : z2b (b2z b) = b.
Proof.
  unfold z2b. rewrite Z.mod_small by apply b2z_range. unfold b2z.
  rewrite N2Z.id, Strings.Byte.of_to_N. done.
Qed.
#[export] Instance byte_countable : Countable byte := inj_countable' b2z z2b z2b_b2z.

#[export] Instance b2z_inj : Inj (=) (=) b2z.
Proof. intros x y E. rewrite <- (z2b_b2z x), <- (z2b_b2z y). congruence. Qed.

(** ** Lists addressed by Go integers *)

Definition zlen {A} (l : list A) : Z := Z.of_nat (length l).
Definition ztake {A} (n : Z) (l : list A) : list A := take (Z.to_nat n) l.
Definition zdrop {A} (n : Z) (l : list A) : list A := drop (Z.to_nat n) l.
Definition zrepeat {A} (n : Z) (a : A) : list A := replicate (Z.to_nat n) a.

(** A Go slice expression [l[lo:hi]]: [None] is the run-time panic. *)
Definition gslice {A} (lo hi : Z) (l : list A) : option (list A) :=
  if (0 <=? lo) && (lo <=? hi) && (hi <=? zlen l)
  then Some (ztake (hi - lo) (zdrop lo l)) else None.

Section zlists.
Context {A : Type}.
Implicit Types (l k : list A) (n m : Z).

Lemma zlen_nonneg l : 0 <= zlen l.
Proof. unfold zlen. lia. Qed.
Lemma zlen_nil : zlen (@nil A) = 0.
Proof. done. Qed.
Lemma zlen_cons a l : zlen (a :: l) = 1 + zlen l.
Proof. unfold zlen. simpl. lia. Qed.
Lemma zlen_app l k : zlen (l ++ k) = zlen l + zlen k.
Proof. unfold zlen. rewrite length_app. lia. Qed.
Lemma zlen_ztake n l : zlen (ztake n l) = Z.min (Z.max 0 n) (zlen l).
Proof. unfold zlen, ztake. rewrite length_take. lia. Qed.
Lemma zlen_zdrop n l : zlen (zdrop n l) = Z.max 0 (zlen l - Z.max 0 n).
Proof. unfold zlen, zdrop. rewrite length_drop. lia. Qed.
Lemma zlen_zrepeat n (a : A) : zlen (zrepeat n a) = Z.max 0 n.
Proof. unfold zlen, zrepeat. rewrite length_replicate. lia. Qed.
Lemma zlen_0 l : zlen l = 0 <-> l = [].
Proof. unfold zlen. destruct l; simpl; split; intros; try done; lia. Qed.

Lemma ztake_zdrop n l : ztake n l ++ zdrop n l = l.
Proof. apply take_drop. Qed.
Lemma ztake_ge n l : zlen l <= n -> ztake n l = l.
Proof. unfold zlen, ztake. intros. apply take_ge. lia. Qed.
Lemma zdrop_ge n l : zlen l <= n -> zdrop n l = [].
Proof. unfold zlen, zdrop. intros. apply drop_ge. lia. Qed.
Lemma ztake_0 l : ztake 0 l = [].
Proof. done. Qed.
Lemma zdrop_0 l : zdrop 0 l = l.
Proof. done. Qed.
Lemma ztake_app n l k : n = zlen l -> ztake n (l ++ k) = l.
Proof.
  intros ->. unfold ztake, zlen. rewrite Nat2Z.id. apply take_app_length.
Qed.
Lemma zdrop_app n l k : n = zlen l -> zdrop n (l ++ k) = k.
Proof.
  intros ->. unfold zdrop, zlen. rewrite Nat2Z.id. apply drop_app_length.
Qed.
Lemma ztake_app_le n l k : n <= zlen l -> ztake n (l ++ k) = ztake n l.
Proof. unfold ztake, zlen. intros. apply take_app_le. lia. Qed.
Lemma zdrop_app_le n l k : n <= zlen l -> zdrop n (l ++ k) = zdrop n l ++ k.
Proof. unfold zdrop, zlen. intros. apply drop_app_le. lia. Qed.
Lemma ztake_app_ge n l k :
  zlen l <= n -> ztake n (l ++ k) = l ++ ztake (n - zlen l) k.
Proof.
  unfold ztake, zlen. intros. rewrite take_app_ge by lia. f_equal. f_equal. lia.
Qed.
Lemma zdrop_app_ge n l k : zlen l <= n -> zdrop n (l ++ k) = zdrop (n - zlen l) k.
Proof.
  unfold zdrop, zlen. intros. rewrite drop_app_ge by lia. f_equal. lia.
Qed.
Lemma zdrop_zdrop n m l : 0 <= n -> 0 <= m -> zdrop n (zdrop m l) = zdrop (m + n) l.
Proof.
  unfold zdrop. intros. rewrite drop_drop. f_equal. lia.
Qed.
Lemma ztake_ztake n m l : 0 <= n -> n <= m -> ztake n (ztake m l) = ztake n l.
Proof. unfold ztake. intros. rewrite take_take. f_equal. lia. Qed.

Lemma gslice_Some lo hi l :
  0 <= lo -> lo <= hi -> hi <= zlen l ->
  gslice lo hi l = Some (ztake (hi - lo) (zdrop lo l)).
Proof.
  intros. unfold gslice. rewrite !(proj2 (Z.leb_le _ _)) by done. done.
Qed.
Lemma gslice_zlen lo hi l r :
  gslice lo hi l = Some r -> zlen r = hi - lo /\ 0 <= lo <= hi /\ hi <= zlen l.
Proof.
  unfold gslice. destruct (0 <=? lo) eqn:?, (lo <=? hi) eqn:?, (hi <=? zlen l) eqn:?;
    simpl; intros; simplify_eq.
  rewrite zlen_ztake, zlen_zdrop. lia.
Qed.
Lemma gslice_app_mid l k r lo hi :
  lo = zlen l -> hi = zlen l + zlen k -> gslice lo hi (l ++ k ++ r) = Some k.
Proof.
  intros -> ->. pose proof (zlen_nonneg l). pose proof (zlen_nonneg k).
  pose proof (zlen_nonneg r).
  rewrite gslice_Some by (rewrite ?zlen_app; lia).
  rewrite zdrop_app by done. f_equal. apply ztake_app. lia.
Qed.
End zlists.

(** Normalise the length of a list expression, then linear arithmetic. *)
Ltac zlen_simpl :=
  repeat first
    [ rewrite zlen_app in * | rewrite zlen_cons in *
    | match goal with
      | |- context [@zlen ?A []] => rewrite (zlen_nil (A := A))
      | H : context [@zlen ?A []] |- _ => rewrite (zlen_nil (A := A)) in H
      end
    | rewrite zlen_ztake in * | rewrite zlen_zdrop in * | rewrite zlen_zrepeat in * ].
Ltac zlen_pos :=
  repeat match goal with
  | |- context [zlen ?l] =>
      lazymatch goal with
      | _ : 0 <= zlen l |- _ => fail
      | _ => pose proof (zlen_nonneg l)
      end
  | _ : context [zlen ?l] |- _ =>
      lazymatch goal with
      | _ : 0 <= zlen l |- _ => fail
      | _ => pose proof (zlen_nonneg l)
      end
  end.
Ltac zlia := zlen_simpl; zlen_pos; lia.

(** ** Big-endian integers ([encoding/binary].BigEndian) *)

(** [PutUint16/32/64]: the [n] low-order bytes of [z], most significant first. *)
Fixpoint be_encode (n : nat) (z : Z) : bytes :=
  match n with
  | O => []
  | S n => be_encode n (z / 256) ++ [z2b z]
  end.

Definition be_acc (acc : Z) (b : byte) : Z := acc * 256 + b2z b.

(** [Uint16/32/64]. *)
Definition be_decode (l : bytes) : Z := foldl be_acc 0 l.

Lemma length_be_encode n z : length (be_encode n z) = n.
Proof.
  revert z. induction n; intros z; simpl; [done|].
  rewrite length_app, IHn. simpl. lia.
Qed.

Lemma zlen_be_encode n z : zlen (be_encode n z) = Z.of_nat n.
Proof. unfold zlen. by rewrite length_be_encode. Qed.

Lemma be_decode_snoc l b : be_decode (l ++ [b]) = be_decode l * 256 + b2z b.
Proof. unfold be_decode. by rewrite foldl_app. Qed.

Lemma be_decode_single b : be_decode [b] = b2z b.
Proof. reflexivity. Qed.

Lemma be_decode_encode n z : be_decode (be_encode n z) = z mod 256 ^ Z.of_nat n.
Proof.
  revert z. induction n; intros z.
  - simpl. by rewrite Z.mod_1_r.
  - simpl be_encode. rewrite be_decode_snoc, IHn, b2z_z2b.
    replace (Z.of_nat (S n)) with (1 + Z.of_nat n) by lia.
    rewrite Z.pow_add_r, Z.pow_1_r by lia.
    rewrite Z.rem_mul_r by lia. lia.
Qed.

Lemma be_decode_range l : 0 <= be_decode l < 256 ^ zlen l.
Proof.
  induction l as [|b l IH] using rev_ind; [done|].
  rewrite be_decode_snoc, zlen_app. change (zlen [b]) with 1.
  rewrite Z.pow_add_r by (unfold zlen; lia).
  pose proof (b2z_range b). lia.
Qed.

Lemma be_encode_decode n l : length l = n -> be_encode n (be_decode l) = l.
Proof.
  revert l. induction n; intros l Hl.
  - destruct l; [done|simpl in Hl; lia].
  - destruct l as [|b l _] using rev_ind; [done|].
    rewrite length_app in Hl. simpl in Hl.
    simpl. rewrite be_decode_snoc. pose proof (b2z_range b).
    rewrite Z.div_add_l, Z.div_small, Z.add_0_r by lia.
    rewrite IHn by lia. do 2 f_equal.
    rewrite <- (z2b_b2z b) at 2. apply b2z_inj. rewrite !b2z_z2b.
    rewrite Z.add_comm, Z.mod_add by lia. done.
Qed.

#[global] Arguments be_encode : simpl never.
#[global] Arguments be_decode : simpl never.

(** ** [copy (dst, src)] *)

Definition go_copy {A} (dst src : list A) : list A :=
  ztake (zlen dst) src ++ zdrop (zlen src) dst.

Lemma zlen_go_copy {A} (dst src : list A) : zlen (go_copy dst src) = zlen dst.
Proof. unfold go_copy. zlia. Qed.

Lemma go_copy_full {A} (dst src : list A) : zlen src = zlen dst -> go_copy dst src = src.
Proof.
  intros E. unfold go_copy. rewrite ztake_ge, zdrop_ge by lia. by rewrite app_nil_r.
Qed.

(** ** Exclusive or on the bytes of two slices *)

Definition xor_byte (a b : byte) : byte := z2b (Z.lxor (b2z a) (b2z b)).

(** ** Substring search ([bytes.Index], [bytes.IndexByte]) *)

Definition is_prefix_of (p l : bytes) : bool := bool_decide (take (length p) l = p).

Fixpoint index_sub (p l : bytes) : option nat :=
  if is_prefix_of p l then Some O
  else match l with
       | [] => None
       | _ :: l => S <$> index_sub p l
       end.

(** [bytes.Index]: the position of the first occurrence, [-1] when absent. *)
Definition bytes_Index (l p : bytes) : Z :=
  match index_sub p l with Some i => Z.of_nat i | None => -1 end.

Lemma is_prefix_of_spec p l : is_prefix_of p l = true <-> exists r, l = p ++ r.
Proof.
  unfold is_prefix_of. rewrite bool_decide_eq_true. split.
  - intros E. exists (drop (length p) l). rewrite <- (take_drop (length p) l) at 1. by rewrite E.
  - intros [r ->]. by rewrite take_app_length.
Qed.

(** An occurrence of [p] in [l] at offset [i]. *)
Definition occurs_at (p l : bytes) (i : nat) : Prop :=
  exists a r, l = a ++ p ++ r /\ length a = i.

Lemma occurs_at_0 p l : occurs_at p l 0 <-> is_prefix_of p l = true.
Proof.
  rewrite is_prefix_of_spec. unfold occurs_at. split.
  - intros (a & r & -> & Ha). destruct a; [|done]. by exists r.
  - intros [r ->]. by exists [], r.
Qed.

Lemma occurs_at_cons p b l i : occurs_at p (b :: l) (S i) <-> occurs_at p l i.
Proof.
  unfold occurs_at. split.
  - intros (a & r & E & Ha). destruct a as [|c a]; [done|].
    simpl in *. simplify_eq. by exists a, r.
  - intros (a & r & -> & <-). by exists (b :: a), r.
Qed.

Lemma index_sub_Some p l i :
  index_sub p l = Some i <->
  occurs_at p l i /\ forall j, (j < i)%nat -> ~ occurs_at p l j.
Proof.
  revert i. induction l as [|b l IH]; intros i; cbn [index_sub].
  - pose proof (occurs_at_0 p []) as H0. destruct (is_prefix_of p []) eqn:E.
    + split.
      * intros. simplify_eq. split; [by apply H0|]. lia.
      * intros [Ho Hn]. destruct i; [done|].
        exfalso. apply (Hn O); [lia|]. by apply H0.
    + split; [done|]. intros [(a & r & Ha & Hl) _].
      destruct a; [|done]. simpl in Hl. subst i.
      exfalso. assert (is_prefix_of p [] = true); [|congruence].
      apply is_prefix_of_spec. by exists r.
  - pose proof (occurs_at_0 p (b :: l)) as H0. destruct (is_prefix_of p (b :: l)) eqn:E.
    + split.
      * intros. simplify_eq. split; [by apply H0|]. lia.
      * intros [Ho Hn]. destruct i; [done|].
        exfalso. apply (Hn O); [lia|]. by apply H0.
    + rewrite fmap_Some. split.
      * intros (i' & Hi & ->). apply IH in Hi as [Ho Hn]. split; [by apply occurs_at_cons|].
        intros [|j] Hj; [rewrite H0; congruence|].
        rewrite occurs_at_cons. apply Hn. lia.
      * intros [Ho Hn]. destruct i as [|i]; [apply H0 in Ho; congruence|].
        apply occurs_at_cons in Ho. exists i. split; [|done]. apply IH. split; [done|].
        intros j Hj Hc. apply (Hn (S j)); [lia|]. by apply occurs_at_cons.
Qed.

Lemma index_sub_None p l : index_sub p l = None <-> forall i, ~ occurs_at p l i.
Proof.
  split.
  - revert p. induction l as [|b l IH]; intros p; cbn [index_sub];
      destruct (is_prefix_of p _) eqn:E; intros HN; try done; intros i Ho.
    + destruct i; [apply occurs_at_0 in Ho; congruence|].
      destruct Ho as (a & r & Ha & Hl). destruct a; simplify_eq.
    + apply fmap_None in HN.
      destruct i; [apply occurs_at_0 in Ho; congruence|].
      apply occurs_at_cons in Ho. by eapply IH.
  - intros H. destruct (index_sub p l) as [i|] eqn:E; [|done].
    apply index_sub_Some in E as [Ho _]. exfalso. by eapply H.
Qed.

Lemma index_sub_length p l i :
  index_sub p l = Some i -> (i + length p <= length l)%nat.
Proof.
  intros H. apply index_sub_Some in H as [(a & r & -> & <-) _]. rewrite !length_app. lia.
Qed.

(** ** Fallible code: values, errors and run-time panics *)

Inductive result (E A : Type) : Type :=
| Ok (a : A)
| Err (e : E)
| Panic (why : String.string).
Arguments Ok {E A} a.
Arguments Err {E A} e.
Arguments Panic {E A} why.

#[export] Instance result_ret E : MRet (result E) := fun A a => Ok a.
#[export] Instance result_bind E : MBind (result E) := fun A B k m =>
  match m with Ok a => k a | Err e => Err e | Panic w => Panic w end.

Definition is_panic {E A} (r : result E A) : bool :=
  match r with Panic _ => true | _ => false end.
Definition is_ok {E A} (r : result E A) : bool :=
  match r with Ok _ => true | _ => false end.

(** A Go method: it threads the receiver's state and the state survives an
    error return. *)
Definition M (S E A : Type) : Type := S -> result E A * S.

#[export] Instance M_ret S E : MRet (M S E) := fun A a s => (Ok a, s).
#[export] Instance M_bind S E : MBind (M S E) := fun A B k m s =>
  match m s with
  | (Ok a, s') => k a s'
  | (Err e, s') => (Err e, s')
  | (Panic w, s') => (Panic w, s')
  end.

Section M_ops.
Context {S E : Type}.
Definition fail {A} (e : E) : M S E A := fun s => (Err e, s).
Definition panic {A} (w : String.string) : M S E A := fun s => (Panic w, s).
Definition get : M S E S := fun s => (Ok s, s).
Definition gets {A} (f : S -> A) : M S E A := fun s => (Ok (f s), s).
Definition put (s : S) : M S E unit := fun _ => (Ok tt, s).
Definition modify (f : S -> S) : M S E unit := fun s => (Ok tt, f s).
(** Evaluate a pure fallible expression. *)
Definition lift {A} (r : result E A) : M S E A := fun s => (r, s).
(** Evaluate a Go slice expression. *)
Definition slice {A} (lo hi : Z) (l : list A) : M S E (list A) :=
  match gslice lo hi l with
  | Some r => mret r
  | None => panic "slice bounds out of range"%string
  end.
End M_ops.

(** Expose the state a monadic expression is run on. *)
Ltac mrun :=
  unfold slice, fail, panic, get, gets, put, modify, lift; unfold mbind, M_bind, mret, M_ret.
Ltac mrun_in H :=
  unfold slice, fail, panic, get, gets, put, modify, lift in H;
  unfold mbind, M_bind, mret, M_ret in H.

(** Run a method of a component on the part of the state it owns. *)
Definition on_part {S T E A} (get : S -> T) (set : T -> S -> S) (m : M T E A) : M S E A :=
  fun s => let '(r, t) := m (get s) in (r, set t s).

(** Change the error type of a computation. *)
Definition map_err {S E E' A} (f : E -> E') (m : M S E A) : M S E' A :=
  fun s => match m s with
           | (Ok a, s') => (Ok a, s')
           | (Err e, s') => (Err (f e), s')
           | (Panic w, s') => (Panic w, s')
           end.

(** ** Fixed-width integers *)

Definition u8 (z : Z) : Z := z mod 2 ^ 8.
Definition u16 (z : Z) : Z := z mod 2 ^ 16.
Definition u32 (z : Z) : Z := z mod 2 ^ 32.
Definition u64 (z : Z) : Z := z mod 2 ^ 64.
(** Two's complement reading of [w] bits. *)
Definition swrap (w z : Z) : Z := (z + 2 ^ (w - 1)) mod 2 ^ w - 2 ^ (w - 1).
Definition i8 (z : Z) : Z := swrap 8 z.
Definition i32 (z : Z) : Z := swrap 32 z.
Definition i64 (z : Z) : Z := swrap 64 z.
Lemma i8_small z : -128 <= z < 128 -> i8 z = z.
Proof. intros H. unfold i8, swrap. change (8 - 1) with 7. rewrite Z.mod_small; lia. Qed.
Lemma i32_small z : - 2 ^ 31 <= z < 2 ^ 31 -> i32 z = z.
Proof. intros H. unfold i32, swrap. change (32 - 1) with 31. rewrite Z.mod_small; lia. Qed.
Lemma i64_small z : - 2 ^ 63 <= z < 2 ^ 63 -> i64 z = z.
Proof. intros H. unfold i64, swrap. change (64 - 1) with 63. rewrite Z.mod_small; lia. Qed.

Lemma lxor_range n a b :
  0 <= n -> 0 <= a < 2 ^ n -> 0 <= b < 2 ^ n -> 0 <= Z.lxor a b < 2 ^ n.
Proof.
  intros Hn Ha Hb. rewrite <- (Z.mod_small a (2 ^ n)), <- (Z.mod_small b (2 ^ n)), <- !Z.land_ones by lia.
  replace (Z.lxor _ _) with (Z.land (Z.lxor a b) (Z.ones n)).
  - rewrite Z.land_ones by done. apply Z.mod_pos_bound. lia.
  - apply Z.bits_inj'. intros k Hk. rewrite Z.lxor_spec, !Z.land_spec, Z.lxor_spec.
    by destruct (Z.testbit a k), (Z.testbit b k), (Z.testbit (Z.ones n) k).
Qed.
Lemma land_bounds a b : 0 <= a -> 0 <= b -> 0 <= Z.land a b <= b.
Proof.
  intros Ha Hb. split; [apply Z.land_nonneg; by left|].
  rewrite <- (Z2N.id a), <- (Z2N.id b), <- N2Z.inj_land by done.
  apply N2Z.inj_le, N.land_le_r.
Qed.

Lemma gtb_false a b : a <= b -> (a >? b) = false.
Proof. rewrite Z.gtb_ltb. apply Z.ltb_ge. Qed.
Lemma gtb_true a b : b < a -> (a >? b) = true.
Proof. rewrite Z.gtb_ltb. apply Z.ltb_lt. Qed.
Lemma ltb_false a b : b <= a -> (a <? b) = false.
Proof. apply Z.ltb_ge. Qed.
Lemma ltb_true a b : a < b -> (a <? b) = true.
Proof. apply Z.ltb_lt. Qed.
Lemma leb_false a b : b < a -> (a <=? b) = false.
Proof. apply Z.leb_gt. Qed.
Lemma leb_true a b : a <= b -> (a <=? b) = true.
Proof. apply Z.leb_le. Qed.
Lemma eqb_false a b : a <> b -> (a =? b) = false.
Proof. apply Z.eqb_neq. Qed.

(** ** Reachability of transition systems *)

Section invariants.
Context {St : Type} (step : St -> St -> Prop) (Inv : St -> Prop).
Hypothesis step_inv : forall s s', step s s' -> Inv s -> Inv s'.
Lemma rtc_invariant s s' : rtc step s s' -> Inv s -> Inv s'.
Proof. induction 1; eauto. Qed.
End invariants.

(** ** Automation *)

Create HintDb wf discriminated.
Create Rewrite HintDb zlen.
Create Rewrite HintDb codec.
#[export] Hint Rewrite @zlen_app @zlen_cons @zlen_nil @zlen_ztake @zlen_zdrop @zlen_zrepeat
  zlen_be_encode : zlen.
#[export] Hint Rewrite b2z_z2b z2b_b2z be_decode_encode length_be_encode : codec.

(** Split the scrutinee of the outermost [match] of a hypothesis. *)
Ltac case_in H :=
  match type of H with
  | context [match ?x with _ => _ end] =>
      lazymatch x with
      | context [match _ with _ => _ end] => fail
      | _ => let E := fresh "E" in destruct x eqn:E
      end
  end.
Ltac b2p :=
  repeat match goal with
  | H : (_ >? _) = _ |- _ => rewrite Z.gtb_ltb in H
  | H : (_ >=? _) = _ |- _ => rewrite Z.geb_leb in H
  | H : (_ <=? _) = true |- _ => apply Z.leb_le in H
  | H : (_ <=? _) = false |- _ => apply Z.leb_gt in H
  | H : (_ <? _) = true |- _ => apply Z.ltb_lt in H
  | H : (_ <? _) = false |- _ => apply Z.ltb_ge in H
  | H : (_ =? _) = true |- _ => apply Z.eqb_eq in H
  | H : (_ =? _) = false |- _ => apply Z.eqb_neq in H
  | H : bool_decide _ = true |- _ => apply bool_decide_eq_true in H
  | H : bool_decide _ = false |- _ => apply bool_decide_eq_false in H
  | H : (_ && _) = true |- _ => apply andb_true_iff in H; destruct H
  | H : (_ || _) = false |- _ => apply orb_false_iff in H; destruct H
  | H : negb _ = true |- _ => apply negb_true_iff in H
  | H : negb _ = false |- _ => apply negb_false_iff in H
  end.
