(* ===== verification/GoStd.v ===== *)
(** * Standard-library routines the program is written against

    Executable models of the parts of Go's standard library the sources use:
    [encoding/hex], [strconv.FormatInt], [crypto/sha256] (FIPS 180-4) and
    [crypto/hmac] (RFC 2104).  They are definitions, not assumptions, so the
    handshakes of the components evaluate on concrete inputs. *)
From S2P Require Import Prelude.

(** ** [encoding/hex] *)
Module Hex.
Definition digit (n : Z) : byte :=
  if n <? 10 then z2b (48 + n) else z2b (87 + n).

Definition EncodeToString (src : bytes) : bytes :=
  flat_map (fun b => [digit (b2z b / 16); digit (b2z b mod 16)]) src.

Definition fromHexChar (c : byte) : option Z :=
  let n := b2z c in
  if (48 <=? n) && (n <=? 57) then Some (n - 48)
  else if (97 <=? n) && (n <=? 102) then Some (n - 87)
  else if (65 <=? n) && (n <=? 70) then Some (n - 55)
  else None.

Inductive error := InvalidByteError (b : byte) | ErrLength.

Fixpoint DecodeString (s : bytes) : result error bytes :=
  match s with
  | [] => Ok []
  | [c] => match fromHexChar c with
           | None => Err (InvalidByteError c)
           | Some _ => Err ErrLength
           end
  | p :: q :: s =>
      match fromHexChar p with
      | None => Err (InvalidByteError p)
      | Some a =>
          match fromHexChar q with
          | None => Err (InvalidByteError q)
          | Some b => r ← DecodeString s; Ok (z2b (a * 16 + b) :: r)
          end
      end
  end.

Lemma fromHexChar_digit n : 0 <= n < 16 -> fromHexChar (digit n) = Some n.
Proof.
  intros Hn.
  assert (Hall : forallb (fun k => bool_decide (fromHexChar (digit (Z.of_nat k))
                                    = Some (Z.of_nat k))) (seq 0 16) = true)
    by (vm_compute; reflexivity).
  rewrite forallb_forall in Hall.
  specialize (Hall (Z.to_nat n)). rewrite Z2Nat.id in Hall by lia.
  eapply bool_decide_unpack, Is_true_true, Hall.
  apply in_seq. lia.
Qed.

Lemma DecodeString_EncodeToString src : DecodeString (EncodeToString src) = Ok src.
Proof.
  induction src as [|b src IH]; [done|].
  cbn [EncodeToString flat_map app DecodeString].
  pose proof (b2z_range b).
  pose proof (Z.mod_pos_bound (b2z b) 16 ltac:(lia)).
  rewrite !fromHexChar_digit by (try apply Z.div_lt_upper_bound; lia || (split; [apply Z.div_pos; lia | apply Z.div_lt_upper_bound; lia])).
  unfold EncodeToString in IH. rewrite IH. simpl. do 2 f_equal.
  replace (b2z b / 16 * 16 + b2z b mod 16) with (b2z b)
    by (rewrite (Z.div_mod (b2z b) 16) at 1; lia).
  apply z2b_b2z.
Qed.
End Hex.

(** ** [strconv.FormatInt (v, 10)] *)
Module Strconv.
Fixpoint digits (fuel : nat) (n : Z) (acc : bytes) : bytes :=
  match fuel with
  | O => acc
  | S fuel =>
      let acc := z2b (48 + n mod 10) :: acc in
      if n <? 10 then acc else digits fuel (n / 10) acc
  end.
(** Twenty digits are enough for 64 bits. *)
Definition FormatInt (v : Z) : bytes :=
  if v <? 0 then z2b 45 :: digits 20 (- v) [] else digits 20 v [].
End Strconv.

(** ** [net.IP.String] of a 16-byte address and of [net.IPv4 (a, b, c, d)] *)
Module NetIP.
Fixpoint join (sep : bytes) (l : list bytes) : bytes :=
  match l with
  | [] => []
  | [x] => x
  | x :: l => x ++ sep ++ join sep l
  end.

Definition dotted (l : bytes) : bytes :=
  join (str ".") (map (fun b => Strconv.FormatInt (b2z b)) l).

(** Lower-case hexadecimal without leading zeros. *)
Definition hex16 (n : Z) : bytes :=
  let a := n / 4096 mod 16 in let b := n / 256 mod 16 in
  let c := n / 16 mod 16 in let d := n mod 16 in
  map Hex.digit
    (if negb (a =? 0) then [a; b; c; d] else if negb (b =? 0) then [b; c; d]
     else if negb (c =? 0) then [c; d] else [d]).

Fixpoint groups (l : bytes) : list Z :=
  match l with
  | a :: b :: l => b2z a * 256 + b2z b :: groups l
  | _ => []
  end.

Fixpoint zero_run (l : list Z) : nat :=
  match l with 0 :: l => S (zero_run l) | _ => O end.

(** The first longest run of zero groups: its start and its length. *)
Definition longest_run (l : list Z) : nat * nat :=
  foldl (fun best i => let n := zero_run (drop i l) in
                       if (best.2 <? n)%nat then (i, n) else best)
        (O, O) (seq 0 (length l)).

Definition colons (l : list Z) : bytes := join (str ":") (map hex16 l).

Definition String (ip : bytes) : bytes :=
  if bool_decide (take 12 ip = replicate 10 Byte.x00 ++ replicate 2 Byte.xff)
  then dotted (drop 12 ip)
  else
    let l := groups ip in
    let '(i, n) := longest_run l in
    if (n <=? 1)%nat then colons l
    else colons (take i l) ++ str "::" ++ colons (drop (i + n) l).
End NetIP.

(** ** [crypto/sha256] *)
Module Sha256.
Definition Size : Z := 32.
Definition BlockSize : Z := 64.

Definition add (a b : Z) : Z := u32 (a + b).
Definition rotr (n x : Z) : Z :=
  Z.lor (Z.shiftr x n) (u32 (Z.shiftl x (32 - n))).
Definition ch (x y z : Z) : Z := Z.lxor (Z.land x y) (Z.land (4294967295 - x) z).
Definition maj (x y z : Z) : Z :=
  Z.lxor (Z.lxor (Z.land x y) (Z.land x z)) (Z.land y z).
Definition bsig0 x := Z.lxor (Z.lxor (rotr 2 x) (rotr 13 x)) (rotr 22 x).
Definition bsig1 x := Z.lxor (Z.lxor (rotr 6 x) (rotr 11 x)) (rotr 25 x).
Definition ssig0 x := Z.lxor (Z.lxor (rotr 7 x) (rotr 18 x)) (Z.shiftr x 3).
Definition ssig1 x := Z.lxor (Z.lxor (rotr 17 x) (rotr 19 x)) (Z.shiftr x 10).

(** The constants of FIPS 180-4: the first 32 bits of the fractional parts of the
    cube roots of the first 64 primes and of the square roots of the first eight. *)
Definition is_prime (p : nat) : bool :=
  forallb (fun d => negb (p mod d =? 0)%nat) (seq 2 (p - 2)).
Definition primes : list Z := Eval vm_compute in
  map Z.of_nat (List.filter is_prime (seq 2 310)).
(** The largest [r] below [2 ^ bits] with [r ^ k <= n]. *)
Fixpoint root (k n : Z) (bits : nat) (r : Z) : Z :=
  match bits with
  | O => r
  | S bits =>
      let r' := r + 2 ^ Z.of_nat bits in
      root k n bits (if r' ^ k <=? n then r' else r)
  end.
Definition root_bits (k p : Z) : Z := u32 (root k (p * 2 ^ (32 * k)) 40 0).

Definition K : list Z := Eval vm_compute in map (root_bits 3) primes.

Record digest := mkDigest { ha : Z; hb : Z; hc : Z; hd : Z; he : Z; hf : Z; hg : Z; hh : Z }.

Definition init : digest := Eval vm_compute in
  match map (root_bits 2) primes with
  | a :: b :: c :: d :: e :: f :: g :: h :: _ => mkDigest a b c d e f g h
  | _ => mkDigest 0 0 0 0 0 0 0 0
  end.

(** The message schedule, newest word first. *)
Fixpoint schedule (n : nat) (w : list Z) : list Z :=
  match n with
  | O => rev w
  | S n =>
      let t := add (add (ssig1 (nth 1 w 0)) (nth 6 w 0))
                   (add (ssig0 (nth 14 w 0)) (nth 15 w 0)) in
      schedule n (t :: w)
  end.

Definition round (s : digest) (kw : Z * Z) : digest :=
  let '(mkDigest a b c d e f g h) := s in
  let t1 := add (add (add h (bsig1 e)) (add (ch e f g) (fst kw))) (snd kw) in
  let t2 := add (bsig0 a) (maj a b c) in
  mkDigest (add t1 t2) a b c (add d t1) e f g.

Fixpoint words (n : nat) (l : bytes) : list Z :=
  match n with
  | O => []
  | S n => be_decode (take 4 l) :: words n (drop 4 l)
  end.

Definition block (s : digest) (b : bytes) : digest :=
  let w := schedule 48 (rev (words 16 b)) in
  let t := foldl round s (combine K w) in
  mkDigest (add (ha s) (ha t)) (add (hb s) (hb t)) (add (hc s) (hc t)) (add (hd s) (hd t))
           (add (he s) (he t)) (add (hf s) (hf t)) (add (hg s) (hg t)) (add (hh s) (hh t)).

Fixpoint blocks (fuel : nat) (s : digest) (l : bytes) : digest :=
  match fuel with
  | O => s
  | S fuel =>
      match l with
      | [] => s
      | _ => blocks fuel (block s (take 64 l)) (drop 64 l)
      end
  end.

Definition pad (l : bytes) : bytes :=
  l ++ z2b 0x80 :: zrepeat ((55 - zlen l) mod 64) Byte.x00 ++ be_encode 8 (8 * zlen l).

Definition Sum256 (l : bytes) : bytes :=
  let p := pad l in
  let s := blocks (length p) init p in
  be_encode 4 (ha s) ++ be_encode 4 (hb s) ++ be_encode 4 (hc s) ++ be_encode 4 (hd s)
  ++ be_encode 4 (he s) ++ be_encode 4 (hf s) ++ be_encode 4 (hg s) ++ be_encode 4 (hh s).

Lemma zlen_Sum256 l : zlen (Sum256 l) = 32.
Proof. unfold Sum256. autorewrite with zlen. done. Qed.

(** FIPS 180-4 test vector. *)
Example Sum256_abc :
  Hex.EncodeToString (Sum256 (str "abc"))
  = str "ba7816bf8f01cfea414140de5dae2223b00361a396177a9cb410ff61f20015ad".
Proof. vm_compute. reflexivity. Qed.
End Sha256.

(** ** [crypto/hmac] over SHA-256

    A [hash.Hash] value is its key and the bytes written since the last
    [Reset]; [Sum(nil)] digests them and changes nothing. *)
Module Hmac.
Definition block_key (key : bytes) : bytes :=
  let k := if 64 <? zlen key then Sha256.Sum256 key else key in
  k ++ zrepeat (64 - zlen k) Byte.x00.

Definition sum (key msg : bytes) : bytes :=
  let k := block_key key in
  let ipad := map (fun b => xor_byte b (z2b 0x36)) k in
  let opad := map (fun b => xor_byte b (z2b 0x5c)) k in
  Sha256.Sum256 (opad ++ Sha256.Sum256 (ipad ++ msg)).

(** [hmac.Equal]. *)
Definition Equal (a b : bytes) : bool := bool_decide (a = b).

Lemma zlen_sum key msg : zlen (sum key msg) = 32.
Proof. apply Sha256.zlen_Sum256. Qed.

(** RFC 4231, test case 2. *)
Example sum_rfc4231_2 :
  Hex.EncodeToString (sum (str "Jefe") (str "what do ya want for nothing?"))
  = str "5bdcc146bf60754e6a042426089575c75a003f089d2739839dec58b964ec3843".
Proof. vm_compute. reflexivity. Qed.
End Hmac.
#[export] Hint Rewrite Sha256.zlen_Sum256 Hmac.zlen_sum : zlen.

(** No later proof unfolds the digests. *)
#[global] Opaque Sha256.Sum256 Hmac.sum.
