(* ===== verification/Rand.v ===== *)
(** * Randomness: [math/rand] over an [Int63] source, and [common/csrand]

    [MathRand] models the methods of [math/rand.Rand] the program calls, over
    an arbitrary [Int63] source.  Their rejection loops draw until a value is
    accepted; [fuel] bounds the number of draws and the theorems say when it
    is enough.  [Csrand] is the source backed by [crypto/rand], whose output is
    a finite tape of bytes: reading past its end is the reader's error. *)
From Stdlib Require Import Floats.SpecFloat.
From S2P Require Import Prelude.

#[export] Instance spec_float_inhabited : Inhabited spec_float := populate (S754_zero false).

Definition out_of_fuel : String.string := "out of fuel".

Module MathRand.
Section source.
Context {S E : Type} (Int63 : M S E Z).

Definition Int31 : M S E Z := v ← Int63; mret (Z.shiftr v 32).

(** Draw until the value does not exceed [max]. *)
Fixpoint draw (src : M S E Z) (fuel : nat) (max : Z) : M S E Z :=
  match fuel with
  | O => panic out_of_fuel
  | Datatypes.S fuel =>
      v ← src;
      if v >? max then draw src fuel max else mret v
  end.

(** The common body of [Int31n] ([w = 31]) and [Int63n] ([w = 63]). *)
Definition intn_bits (w : Z) (src : M S E Z) (fuel : nat) (n : Z) : M S E Z :=
  if n <=? 0 then panic "invalid argument to Int31n/Int63n"
  else if Z.land n (n - 1) =? 0 then v ← src; mret (Z.land v (n - 1))
  else v ← draw src fuel (2 ^ w - 1 - 2 ^ w mod n); mret (v mod n).

Definition Intn (fuel : nat) (n : Z) : M S E Z :=
  if n <=? 0 then panic "invalid argument to Intn"
  else if n <=? 2 ^ 31 - 1 then intn_bits 31 Int31 fuel n
  else intn_bits 63 Int63 fuel n.

(** [m[i] = m[j]; m[j] = i] for [i] from 0, over the zeroed slice [m]. *)
Fixpoint perm_loop (fuel : nat) (n : nat) (i : Z) (m : list Z) : M S E (list Z) :=
  match n with
  | O => mret m
  | Datatypes.S n =>
      j ← Intn fuel (i + 1);
      perm_loop fuel n (i + 1)
        (<[Z.to_nat j := i]> (<[Z.to_nat i := m !!! Z.to_nat j]> m))
  end.
Definition Perm (fuel : nat) (n : Z) : M S E (list Z) :=
  perm_loop fuel (Z.to_nat n) 0 (zrepeat n 0).

(** [float64(Int63()) / (1 << 63)], redrawn when it rounds up to one. *)
Definition float_of_Z (z : Z) : spec_float := binary_normalize 53 1024 z 0 false.
Definition one : spec_float := float_of_Z 1.
Definition float_eqb (a b : spec_float) : bool :=
  match SFcompare a b with Some Eq => true | _ => false end.
Fixpoint Float64 (fuel : nat) : M S E spec_float :=
  match fuel with
  | O => panic out_of_fuel
  | Datatypes.S fuel =>
      v ← Int63;
      let f := SFdiv 53 1024 (float_of_Z v) (float_of_Z (2 ^ 63)) in
      if float_eqb f one then Float64 fuel else mret f
  end.

(** ** Bounds *)
Lemma draw_bound src fuel max v s s' :
  (forall s v s', src s = (Ok v, s') -> 0 <= v) ->
  draw src fuel max s = (Ok v, s') -> 0 <= v <= max.
Proof.
  intros Hs. revert s. induction fuel as [|fuel IH]; intros s; cbn; [done|].
  unfold mbind, M_bind. destruct (src s) as [[w|e|p] s1] eqn:E1; try done.
  destruct (w >? max) eqn:Eb; [apply IH|].
  unfold mret, M_ret. intros. simplify_eq.
  rewrite Z.gtb_ltb in Eb. b2p. apply Hs in E1. lia.
Qed.

Definition source_ok (src : M S E Z) : Prop :=
  forall s v s', src s = (Ok v, s') -> 0 <= v.

Lemma intn_bits_range w src fuel n s v s' :
  source_ok src -> intn_bits w src fuel n s = (Ok v, s') -> 0 <= v < n.
Proof.
  intros Hs. unfold intn_bits. destruct (n <=? 0) eqn:En; [done|]. b2p.
  unfold mbind, M_bind, mret, M_ret.
  destruct (Z.land n (n - 1) =? 0).
  - destruct (src s) as [[w0|e|p] s1] eqn:E1; intros; simplify_eq.
    apply Hs in E1. pose proof (land_bounds w0 (n - 1)). lia.
  - destruct (draw _ _ _ _) as [[w0|e|p] s1] eqn:E1; intros; simplify_eq.
    apply Z.mod_pos_bound. lia.
Qed.

Lemma Int31_ok : source_ok Int63 -> source_ok Int31.
Proof.
  intros Hs s v s'. unfold Int31, mbind, M_bind, mret, M_ret.
  destruct (Int63 s) as [[w|e|p] s1] eqn:E1; intros; simplify_eq.
  apply Z.shiftr_nonneg. by eapply Hs.
Qed.

Lemma Intn_range fuel n s v s' :
  source_ok Int63 -> Intn fuel n s = (Ok v, s') -> 0 <= v < n.
Proof.
  intros Hs. unfold Intn. destruct (n <=? 0) eqn:En; [done|].
  destruct (n <=? 2 ^ 31 - 1); apply intn_bits_range; auto using Int31_ok.
Qed.

Lemma Intn_positive fuel n s v s' : Intn fuel n s = (Ok v, s') -> 0 < n.
Proof. unfold Intn. destruct (n <=? 0) eqn:En; [done|]. b2p. intros. lia. Qed.

Lemma insert_swap_Permutation {A} (l : list A) j x y :
  l !! j = Some y -> <[j := x]> l ++ [y] ≡ₚ l ++ [x].
Proof.
  intros Hj. pose proof (lookup_lt_Some _ _ _ Hj).
  rewrite insert_take_drop by done.
  rewrite <- (take_drop_middle l j y Hj) at 3. rewrite <- !app_assoc. cbn.
  apply Permutation_app_head.
  rewrite (Permutation_app_comm _ [y]), (Permutation_app_comm _ [x]). apply Permutation_swap.
Qed.

Lemma perm_step_Permutation (m : list Z) i j x :
  (i < length m)%nat -> (j <= i)%nat ->
  take (Datatypes.S i) (<[j := x]> (<[i := m !!! j]> m)) ≡ₚ take i m ++ [x].
Proof.
  intros Hi Hj. destruct (decide (j = i)) as [->|Hne].
  - rewrite list_insert_insert_eq.
    rewrite (take_S_r _ _ x) by (by apply list_lookup_insert_eq).
    by rewrite take_insert_ge by lia.
  - rewrite list_insert_insert_ne by done.
    rewrite (take_S_r _ _ (m !!! j)).
    2:{ apply list_lookup_insert_eq. by rewrite length_insert. }
    rewrite take_insert_ge by lia. rewrite take_insert_lt by lia.
    apply insert_swap_Permutation. rewrite lookup_take_lt by lia.
    apply list_lookup_lookup_total_lt. lia.
Qed.

Lemma perm_loop_Permutation fuel n i m s r s' :
  source_ok Int63 -> length m = (i + n)%nat -> take i m ≡ₚ seqZ 0 (Z.of_nat i) ->
  perm_loop fuel n (Z.of_nat i) m s = (Ok r, s') -> r ≡ₚ seqZ 0 (Z.of_nat (i + n)).
Proof.
  intros Hs. revert i m s. induction n as [|n IH]; intros i m s Hlen Hp; cbn.
  - unfold mret, M_ret. intros. simplify_eq. rewrite Nat.add_0_r in *.
    by rewrite take_ge in Hp by lia.
  - unfold mbind, M_bind. destruct (Intn _ _ s) as [[j|?|?] s1] eqn:Ej; try done.
    apply Intn_range in Ej; [|done]. intros Ep.
    replace (Z.of_nat i + 1) with (Z.of_nat (Datatypes.S i)) in Ep by lia.
    apply IH in Ep.
    + by replace (i + Datatypes.S n)%nat with (Datatypes.S i + n)%nat by lia.
    + rewrite !length_insert. lia.
    + rewrite !Nat2Z.id. rewrite perm_step_Permutation by lia.
      replace (Z.of_nat (Datatypes.S i)) with (Z.of_nat i + 1) by lia.
      rewrite seqZ_app by lia. by rewrite Hp.
Qed.

Lemma Perm_Permutation fuel n s r s' :
  source_ok Int63 -> 0 <= n -> Perm fuel n s = (Ok r, s') -> r ≡ₚ seqZ 0 n.
Proof.
  intros Hs Hn Ep. unfold Perm in Ep. apply (perm_loop_Permutation fuel _ 0) in Ep; [|done| |done].
  - by rewrite Nat.add_0_l, Z2Nat.id in Ep.
  - unfold zrepeat. by rewrite length_replicate.
Qed.
End source.
End MathRand.

(** ** [common/csrand] *)
Module Csrand.
(** The error of [io.ReadFull (cryptRand.Reader, buf)]. *)
Inductive error := ErrEntropy.
Abbreviation R := (M bytes error).

(** [Bytes] fills a slice of [n] bytes. *)
Definition Bytes (n : Z) : R bytes := fun tape =>
  if n <=? zlen tape then (Ok (ztake n tape), zdrop n tape) else (Err ErrEntropy, []).

(** [csRandSource.Int63]: a read error is a panic. *)
Definition Int63 : R Z := fun tape =>
  match Bytes 8 tape with
  | (Ok src, tape) => (Ok (Z.land (be_decode src) (2 ^ 63 - 1)), tape)
  | (Err _, tape) => (Panic "crypto/rand failed", tape)
  | (Panic w, tape) => (Panic w, tape)
  end.

(** Each draw takes eight bytes, so the tape's length bounds the draws. *)
Definition Intn (n : Z) : R Z := fun tape =>
  MathRand.Intn Int63 (S (length tape)) n tape.

Definition Float64 : R spec_float := fun tape =>
  MathRand.Float64 Int63 (S (length tape)) tape.

Definition IntRange (min max : Z) : R Z :=
  if max <? min then panic "IntRange: min > max"
  else ret ← Intn ((max + 1) - min); mret (ret + min).

Lemma Int63_ok : MathRand.source_ok Int63.
Proof.
  intros s v s'. unfold Int63, Bytes. destruct (8 <=? zlen s); intros; simplify_eq.
  apply Z.land_nonneg. right. done.
Qed.

Lemma Int63_shrinks s v s' : Int63 s = (Ok v, s') -> (length s' < length s)%nat.
Proof.
  unfold Int63, Bytes. destruct (8 <=? zlen s) eqn:E; intros; simplify_eq. b2p.
  unfold zdrop. rewrite length_drop. unfold zlen in E. lia.
Qed.

(** The fuel of [Intn] is enough: the loop ends by accepting a value or by
    exhausting the entropy, never by running out of fuel. *)
Lemma draw_fuel_enough (src : R Z) fuel max tape :
  (forall s v s', src s = (Ok v, s') -> (length s' < length s)%nat) ->
  (forall s, (src s).1 <> Panic out_of_fuel) ->
  (length tape < fuel)%nat ->
  (MathRand.draw src fuel max tape).1 <> Panic out_of_fuel.
Proof.
  intros Hsh Hp. revert tape. induction fuel as [|fuel IH]; intros tape Hf; [lia|].
  cbn. unfold mbind, M_bind. pose proof (Hp tape) as Hpt.
  destruct (src tape) as [[w|e|p] s1] eqn:E1; cbn in *; try done.
  destruct (w >? max); [|done]. apply IH. apply Hsh in E1. lia.
Qed.

Lemma Int63_no_fuel s : (Int63 s).1 <> Panic out_of_fuel.
Proof. unfold Int63, Bytes. by destruct (8 <=? zlen s). Qed.

Lemma Int31_no_fuel s : (MathRand.Int31 Int63 s).1 <> Panic out_of_fuel.
Proof.
  unfold MathRand.Int31, mbind, M_bind. pose proof (Int63_no_fuel s).
  by destruct (Int63 s) as [[]?].
Qed.

Lemma Int31_shrinks s v s' :
  MathRand.Int31 Int63 s = (Ok v, s') -> (length s' < length s)%nat.
Proof.
  unfold MathRand.Int31, mbind, M_bind, mret, M_ret.
  destruct (Int63 s) as [[w|e|p] s1] eqn:E1; intros; simplify_eq. by eapply Int63_shrinks.
Qed.

Lemma Intn_no_fuel n (s : bytes) : (Intn n s).1 <> Panic out_of_fuel.
Proof.
  unfold Intn, MathRand.Intn. destruct (n <=? 0); [done|].
  assert (Hg : forall w (src : R Z),
    (forall s v s', src s = (Ok v, s') -> (length s' < length s)%nat) ->
    (forall s, (src s).1 <> Panic out_of_fuel) ->
    (MathRand.intn_bits w src (S (length s)) n s).1 <> Panic out_of_fuel).
  { intros w src Hsh Hp. unfold MathRand.intn_bits. destruct (n <=? 0); [done|].
    unfold mbind, M_bind, mret, M_ret. destruct (Z.land n (n - 1) =? 0).
    - specialize (Hp s). by destruct (src s) as [[]?].
    - pose proof (draw_fuel_enough src (S (length s)) (2 ^ w - 1 - 2 ^ w mod n) s Hsh Hp
        ltac:(lia)).
      by destruct (MathRand.draw _ _ _ _) as [[]?]. }
  destruct (n <=? 2 ^ 31 - 1); apply Hg;
    eauto using Int31_shrinks, Int31_no_fuel, Int63_shrinks, Int63_no_fuel.
Qed.

Lemma IntRange_Ok min max s v s' : IntRange min max s = (Ok v, s') -> min <= v <= max.
Proof.
  unfold IntRange. destruct (max <? min) eqn:E; [done|]. b2p.
  unfold mbind, M_bind, mret, M_ret.
  destruct (Intn _ s) as [[w|e|p] s1] eqn:E1; intros; simplify_eq.
  apply MathRand.Intn_range in E1; [lia|apply Int63_ok].
Qed.

Lemma Int63_panic s w s' : Int63 s = (Panic w, s') -> w = "crypto/rand failed"%string.
Proof. unfold Int63, Bytes. destruct (8 <=? zlen s); intros; simplify_eq. done. Qed.

Lemma Int63_no_err s e s' : Int63 s <> (Err e, s').
Proof. unfold Int63, Bytes. by destruct (8 <=? zlen s). Qed.

(** A source that only panics on an entropy failure. *)
Definition only_rand_panic {A} (m : R A) : Prop := forall s r s',
  m s = (r, s') ->
  match r with
  | Ok _ => True
  | Err _ => False
  | Panic w => w = "crypto/rand failed"%string \/ w = out_of_fuel
  end.

Lemma only_rand_Int63 : only_rand_panic Int63.
Proof.
  intros s r s' E. destruct r; [done|by eapply Int63_no_err|].
  left. by eapply Int63_panic.
Qed.

Lemma only_rand_bind {A B} (m : R A) (k : A -> R B) :
  only_rand_panic m -> (forall a, only_rand_panic (k a)) -> only_rand_panic (mbind k m).
Proof.
  intros Hm Hk s r s'. unfold mbind, M_bind. specialize (Hm s).
  destruct (m s) as [[a|e|w] s1]; specialize (Hm _ _ eq_refl); intros; simplify_eq; eauto.
  by eapply Hk.
Qed.

Lemma only_rand_draw src fuel max :
  only_rand_panic src -> only_rand_panic (MathRand.draw src fuel max).
Proof.
  intros Hs. induction fuel as [|fuel IH]; cbn.
  - intros s r s' E. unfold panic in E. simplify_eq. by right.
  - apply only_rand_bind; [done|]. intros v. destruct (v >? max); [done|].
    intros s r s' E. unfold mret, M_ret in E. by simplify_eq.
Qed.

Lemma only_rand_intn_bits w src fuel n :
  0 < n -> only_rand_panic src -> only_rand_panic (MathRand.intn_bits w src fuel n).
Proof.
  intros Hn Hs. unfold MathRand.intn_bits.
  replace (n <=? 0) with false by (symmetry; apply Z.leb_gt; lia).
  destruct (_ =? 0); (apply only_rand_bind; [auto using only_rand_draw|]);
    intros v s r s' E; unfold mret, M_ret in E; by simplify_eq.
Qed.

Lemma only_rand_ret {A} (a : A) : only_rand_panic (mret a).
Proof. intros s r s' E. unfold mret, M_ret in E. by simplify_eq. Qed.

Lemma only_rand_Intn n : 0 < n -> only_rand_panic (Intn n).
Proof.
  intros Hn s. unfold Intn. revert s.
  assert (H31 : only_rand_panic (MathRand.Int31 Int63)).
  { apply only_rand_bind; [apply only_rand_Int63|]. intros v. apply only_rand_ret. }
  intros s r s'. unfold MathRand.Intn.
  replace (n <=? 0) with false by (symmetry; apply Z.leb_gt; lia).
  destruct (n <=? 2 ^ 31 - 1); apply only_rand_intn_bits; auto using only_rand_Int63.
Qed.

(** A draw either gives a value or fails for lack of entropy. *)
Definition draws {A} (m : R A) (P : A -> Prop) : Prop := forall s r s',
  m s = (r, s') -> (exists v, r = Ok v /\ P v) \/ r = Panic "crypto/rand failed"%string.

Lemma draws_intro {A} (m : R A) (P : A -> Prop) :
  (forall s v s', m s = (Ok v, s') -> P v) -> (forall s, (m s).1 <> Panic out_of_fuel) ->
  (forall s r s', m s = (r, s') ->
     match r with
     | Ok _ => True
     | Err _ => False
     | Panic w => w = "crypto/rand failed"%string \/ w = out_of_fuel
     end) -> draws m P.
Proof.
  intros Hv Hf Hp s r s' E. specialize (Hp _ _ _ E). specialize (Hf s). rewrite E in Hf.
  destruct r as [v|e|w]; [left|done|].
  - exists v. split; [done|]. by eapply Hv.
  - destruct Hp as [->| ->]; [by right|done].
Qed.

Lemma draws_bind {A B} (m : R A) (k : A -> R B) P Q :
  draws m P -> (forall a, P a -> draws (k a) Q) -> draws (mbind k m) Q.
Proof.
  intros Hm Hk s r s'. unfold mbind, M_bind. specialize (Hm s).
  destruct (m s) as [r1 s1]. specialize (Hm _ _ eq_refl) as [(a & -> & Ha)| ->].
  - by apply Hk.
  - intros. simplify_eq. by right.
Qed.

Lemma draws_ret {A} (a : A) (P : A -> Prop) : P a -> draws (mret a) P.
Proof. intros Ha s r s' E. unfold mret, M_ret in E. simplify_eq. left. eauto. Qed.

Lemma draws_Intn n : 0 < n -> draws (Intn n) (fun v => 0 <= v < n).
Proof.
  intros Hn. apply draws_intro.
  - intros s v s' E. eapply MathRand.Intn_range; [apply Int63_ok|exact E].
  - apply Intn_no_fuel.
  - by apply only_rand_Intn.
Qed.

Lemma draws_IntRange min max :
  min <= max -> draws (IntRange min max) (fun v => min <= v <= max).
Proof.
  intros Hm. unfold IntRange. rewrite ltb_false by lia.
  eapply draws_bind; [apply draws_Intn; lia|].
  cbn. intros v Hv. apply draws_ret. lia.
Qed.

Lemma IntRange_cases min max s r s' :
  min <= max -> IntRange min max s = (r, s') ->
  (exists v, r = Ok v /\ min <= v <= max) \/ r = Panic "crypto/rand failed"%string.
Proof. intros Hm E. eapply draws_IntRange; [done|exact E]. Qed.

Lemma draws_Float64 : draws Float64 (fun _ => True).
Proof.
  assert (Hg : forall fuel s r s', (length s < fuel)%nat ->
    MathRand.Float64 Int63 fuel s = (r, s') ->
    (exists v, r = Ok v /\ True) \/ r = Panic "crypto/rand failed"%string).
  { induction fuel as [|fuel IH]; intros s r s' Hf; [lia|]. cbn [MathRand.Float64].
    unfold mbind, M_bind. destruct (Int63 s) as [[v|e|w] s1] eqn:E1.
    - apply Int63_shrinks in E1. cbv zeta. destruct (MathRand.float_eqb _ _).
      + apply IH. lia.
      + unfold mret, M_ret. intros. simplify_eq. eauto.
    - by apply Int63_no_err in E1.
    - intros. simplify_eq. apply Int63_panic in E1 as ->. by right. }
  intros s r s' E. eapply Hg; [|exact E]. lia.
Qed.

Lemma Bytes_Ok n s v s' :
  Bytes n s = (Ok v, s') -> v = ztake n s /\ s' = zdrop n s /\ n <= zlen s.
Proof. unfold Bytes. destruct (n <=? zlen s) eqn:E; intros; simplify_eq. b2p. done. Qed.
End Csrand.
