(* ===== verification/Drbg.v ===== *)
(** * [common/drbg]: the SipHash-2-4 based deterministic generator

    [github.com/dchest/siphash] is a parameter, the class [SipHash]; the law
    the code relies on is [SipHashLaws].  A [HashDrbg] owns a [hash.Hash64]
    object: its key and the bytes written to it, which nothing ever resets. *)
From S2P Require Import Prelude GoStd Rand.

(** The third-party SipHash-2-4: [sip_Sum key msg] is what [Sum(nil)] returns
    after [msg] was written to [siphash.New (key)], and [sip_Hash k0 k1 msg]
    is [siphash.Hash]. *)
Class SipHash := {
  sip_Sum : bytes -> bytes -> bytes;
  sip_Hash : Z -> Z -> bytes -> Z
}.
(** [siphash.Size]: a digest has eight bytes. *)
Class SipHashLaws `{SipHash} : Prop := {
  sip_Sum_size : forall k m, zlen (sip_Sum k m) = 8
}.

Module Drbg.
Section drbg.
Context `{SipHash}.

Definition Size : Z := 8.
Definition SeedLength : Z := 16 + Size.

(** [Seed] is [[SeedLength]byte]. *)
Abbreviation Seed := bytes.

Definition SeedBytes (seed : Seed) : bytes := seed.
Definition SeedHex (seed : Seed) : bytes := Hex.EncodeToString (SeedBytes seed).

Inductive error :=
| InvalidSeedLengthError (n : Z)
| HexError (e : Hex.error)
| RandError (e : Csrand.error).

Definition NewSeed : M bytes error Seed := map_err RandError (Csrand.Bytes SeedLength).

Definition SeedFromBytes (src : bytes) : result error Seed :=
  if zlen src <? SeedLength then Err (InvalidSeedLengthError (zlen src))
  else Ok (go_copy (zrepeat SeedLength Byte.x00) src).

Definition SeedFromHex (encoded : bytes) : result error Seed :=
  match Hex.DecodeString encoded with
  | Ok raw => SeedFromBytes raw
  | Err e => Err (HexError e)
  | Panic w => Panic w
  end.

Record HashDrbg := mkDrbg {
  sip_key : bytes;     (* the key of [sip] *)
  sip_written : bytes; (* what was written to [sip] so far *)
  ofb : bytes
}.

Definition NewHashDrbg (seed : option Seed) : M bytes error HashDrbg :=
  seed ← match seed with
         | None => NewSeed
         | Some seed => mret seed
         end;
  mret (mkDrbg (ztake 16 seed) [] (go_copy (zrepeat Size Byte.x00) (zdrop 16 seed))).

Definition NextBlock (d : HashDrbg) : bytes * HashDrbg :=
  let written := sip_written d ++ ofb d in
  let o := go_copy (ofb d) (sip_Sum (sip_key d) written) in
  (o, mkDrbg (sip_key d) written o).

Definition Int63 : M HashDrbg error Z := fun d =>
  let '(block, d) := NextBlock d in
  (Ok (Z.land (be_decode block) (2 ^ 63 - 1)), d).

(** [n] successive blocks. *)
Fixpoint next_blocks (n : nat) (d : HashDrbg) : list bytes * HashDrbg :=
  match n with
  | O => ([], d)
  | S n =>
      let '(b, d) := NextBlock d in
      let '(bs, d) := next_blocks n d in
      (b :: bs, d)
  end.

Definition drbg_wf (d : HashDrbg) : Prop := zlen (ofb d) = Size.

Lemma drbg_Int63_ok : MathRand.source_ok Int63.
Proof.
  intros s v s'. unfold Int63. destruct (NextBlock s). intros. simplify_eq.
  apply Z.land_nonneg. by right.
Qed.

Lemma SeedFromBytes_exact s : zlen s = SeedLength -> SeedFromBytes s = Ok s.
Proof.
  intros E. unfold SeedFromBytes. rewrite E. unfold SeedLength, Size. cbn -[go_copy].
  rewrite go_copy_full; [done|]. by rewrite E.
Qed.

Lemma SeedFromBytes_Ok src :
  SeedLength <= zlen src -> SeedFromBytes src = Ok (ztake SeedLength src).
Proof.
  intros Hl. unfold SeedFromBytes. replace (zlen src <? SeedLength) with false
    by (symmetry; apply Z.ltb_ge; lia).
  unfold go_copy. rewrite zlen_zrepeat, (zdrop_ge (zlen src)).
  - rewrite app_nil_r. done.
  - rewrite zlen_zrepeat. unfold SeedLength, Size in *. lia.
Qed.

Lemma NewHashDrbg_Some seed tape :
  zlen seed = SeedLength ->
  NewHashDrbg (Some seed) tape = (Ok (mkDrbg (ztake 16 seed) [] (zdrop 16 seed)), tape).
Proof.
  intros Hl. unfold NewHashDrbg, mbind, M_bind, mret, M_ret.
  rewrite go_copy_full; [done|]. rewrite zlen_zdrop, zlen_zrepeat, Hl. done.
Qed.

Context `{!SipHashLaws}.

Lemma NextBlock_eq d :
  drbg_wf d ->
  NextBlock d =
    (sip_Sum (sip_key d) (sip_written d ++ ofb d),
     mkDrbg (sip_key d) (sip_written d ++ ofb d)
            (sip_Sum (sip_key d) (sip_written d ++ ofb d))).
Proof.
  intros Hw. unfold NextBlock. rewrite go_copy_full; [done|].
  rewrite sip_Sum_size, Hw. done.
Qed.

Lemma NextBlock_wf d : drbg_wf d -> drbg_wf (NextBlock d).2.
Proof. intros Hw. rewrite NextBlock_eq by done. apply sip_Sum_size. Qed.

Lemma NextBlock_zlen d : drbg_wf d -> zlen (NextBlock d).1 = 8.
Proof. intros Hw. rewrite NextBlock_eq by done. apply sip_Sum_size. Qed.

Lemma next_blocks_closed n : forall d i, drbg_wf d -> (i < n)%nat ->
  (next_blocks n d).1 !! i
  = Some (sip_Sum (sip_key d)
            (sip_written d ++ ofb d ++ concat (take i (next_blocks n d).1))).
Proof.
  induction n as [|n IH]; intros d i Hw Hi; [lia|]. cbn [next_blocks].
  pose proof (NextBlock_eq d Hw) as E. pose proof (NextBlock_wf d Hw) as Hw1.
  destruct (NextBlock d) as [b d1]. specialize (IH d1).
  destruct (next_blocks n d1) as [bs d2]. cbn [fst snd] in *. injection E as -> E.
  destruct i as [|i]; cbn.
  - by rewrite app_nil_r.
  - rewrite IH by (done || lia). rewrite E. cbn. by rewrite <- !app_assoc.
Qed.

(** The [n]-th block of a generator is SipHash under its key of the
    initial vector followed by every block produced before: the output
    feedback runs over the whole history of the [hash.Hash64], which is never
    reset, and each block has eight bytes. *)
Theorem NextBlock_stream n d i :
  drbg_wf d -> (i < n)%nat ->
  exists b, (next_blocks n d).1 !! i = Some b /\ zlen b = Size
    /\ b = sip_Sum (sip_key d)
             (sip_written d ++ ofb d ++ concat (take i (next_blocks n d).1)).
Proof.
  intros Hw Hi. eexists. split; [by apply next_blocks_closed|].
  split; [apply sip_Sum_size|done].
Qed.
End drbg.
End Drbg.

(** A concrete keyed hash, for the witnesses. *)
Module ToySip.
Definition poly (k m : bytes) : Z :=
  foldl (fun acc b => u64 (acc * 31 + b2z b + 7)) 17 (k ++ m).
#[export] Instance toy_sip : SipHash :=
  {| sip_Sum k m := be_encode 8 (poly k m);
     sip_Hash k0 k1 m := u64 (poly (be_encode 8 k0 ++ be_encode 8 k1) m) |}.
#[export] Instance toy_sip_laws : SipHashLaws.
Proof. split. intros. apply zlen_be_encode. Qed.
End ToySip.

Section witnesses.
Import ToySip.
Definition toy_drbg : Drbg.HashDrbg :=
  Drbg.mkDrbg (zrepeat 16 Byte.x01) [] (zrepeat 8 Byte.x02).
Lemma toy_drbg_wf : Drbg.drbg_wf toy_drbg.
Proof. reflexivity. Qed.

Lemma NextBlock_stream_witness :
  exists b, (Drbg.next_blocks 3 toy_drbg).1 !! 2%nat = Some b /\ zlen b = 8
    /\ b = sip_Sum (zrepeat 16 Byte.x01)
             ([] ++ zrepeat 8 Byte.x02 ++ concat (take 2 (Drbg.next_blocks 3 toy_drbg).1)).
Proof. apply (Drbg.NextBlock_stream 3 toy_drbg 2); [reflexivity|lia]. Defined.
End witnesses.
#[export] Hint Resolve Drbg.NextBlock_wf : wf.
