(* ===== verification/Framing.v ===== *)
(** * Link framing: [transports/obfs4/framing]

    The frame encoder and decoder.  [transports/defconn/framing] and
    [transports/randomwt/framing] are copies of the same file (the defconn copy
    adds one log line).  [golang.org/x/crypto/nacl/secretbox] is the class
    [SecretBox] with the laws [SecretBoxLaws]. *)
From S2P Require Import Prelude GoStd Rand Drbg.

(** NaCl secretbox: [box_Seal key nonce msg] is the box [Seal] appends to its
    first argument, [box_Open key nonce box] the message or a failure. *)
Class SecretBox := {
  box_Seal : bytes -> bytes -> bytes -> bytes;
  box_Open : bytes -> bytes -> bytes -> option bytes
}.
(** [secretbox.Overhead] and the documented behaviour: opening what was sealed
    gives the message back, and only boxes made by [Seal] open. *)
Definition Overhead : Z := 16.
Class SecretBoxLaws `{SecretBox} : Prop := {
  box_Seal_size : forall k n m, zlen (box_Seal k n m) = Overhead + zlen m;
  box_Open_Seal : forall k n m, box_Open k n (box_Seal k n m) = Some m;
  box_Open_inv : forall k n b m, box_Open k n b = Some m -> b = box_Seal k n m
}.

Module Framing.

Definition lengthLength : Z := 2.
Definition keyLength : Z := 32.
Definition noncePrefixLength : Z := 16.
Definition nonceCounterLength : Z := 8.
Definition nonceLength : Z := noncePrefixLength + nonceCounterLength.
Definition MaximumSegmentLength : Z := 1500 - (40 + 12).
Definition FrameOverhead : Z := lengthLength + Overhead.
Definition MaximumFramePayloadLength : Z := MaximumSegmentLength - FrameOverhead.
Definition KeyLength : Z := keyLength + noncePrefixLength + Drbg.SeedLength.
Definition maxFrameLength : Z := MaximumSegmentLength - lengthLength.
Definition minFrameLength : Z := FrameOverhead - lengthLength.

Inductive error :=
| ErrAgain
| ErrTagMismatch
| ErrNonceCounterWrapped
| InvalidPayloadLengthError (n : Z)
| ErrShortBuffer
| ErrUnexpectedEOF
| DrbgError (e : Drbg.error)
| EntropyError (e : Csrand.error).

Record boxNonce := mkNonce { prefix : bytes; counter : Z }.

(** [boxNonce.init]. *)
Definition nonce_init (p : bytes) : result error boxNonce :=
  if negb (noncePrefixLength =? zlen p) then Panic "BUG: Nonce prefix length invalid"
  else Ok (mkNonce (go_copy (zrepeat noncePrefixLength Byte.x00) p) 1).

(** [boxNonce.bytes]. *)
Definition nonce_bytes (n : boxNonce) : result error bytes :=
  if counter n =? 0 then Err ErrNonceCounterWrapped
  else Ok (prefix n ++ be_encode 8 (counter n)).

(** [nonce.counter++] on a [uint64]. *)
Definition nonce_incr (n : boxNonce) : boxNonce := mkNonce (prefix n) (u64 (counter n + 1)).

Record Encoder := mkEncoder {
  ekey : bytes; enonce : boxNonce; edrbg : Drbg.HashDrbg
}.

Record Decoder := mkDecoder {
  dkey : bytes; dnonce : boxNonce; ddrbg : Drbg.HashDrbg;
  nextNonce : bytes; nextLength : Z; nextLengthInvalid : bool
}.

Section framing.
Context `{SipHash} `{SecretBox}.

(** The part shared by [NewEncoder] and [NewDecoder]. *)
Definition new_keys (key : bytes) : result error (bytes * boxNonce * Drbg.HashDrbg) :=
  if negb (zlen key =? KeyLength) then Panic "BUG: Invalid encoder/decoder key length"
  else
    n ← nonce_init (ztake noncePrefixLength (zdrop keyLength key));
    match Drbg.SeedFromBytes (zdrop (keyLength + noncePrefixLength) key) with
    | Ok seed =>
        match (Drbg.NewHashDrbg (Some seed) []).1 with
        | Ok d => Ok (ztake keyLength key, n, d)
        | Err e => Err (DrbgError e)
        | Panic w => Panic w
        end
    | Err e => Panic "BUG: Failed to initialize DRBG"
    | Panic w => Panic w
    end.

Definition NewEncoder (key : bytes) : result error Encoder :=
  '(k, n, d) ← new_keys key; Ok (mkEncoder k n d).

Definition NewDecoder (key : bytes) : result error Decoder :=
  '(k, n, d) ← new_keys key;
  Ok (mkDecoder k n d (zrepeat nonceLength Byte.x00) 0 false).

(** The mask of a length field: the first two bytes of a DRBG block. *)
Definition length_mask (block : bytes) : Z := be_decode (ztake 2 block).

(** [Encoder.Encode (frame, payload)] with [frameLen = len(frame)]; the value
    is the bytes of [frame[:n]]. *)
Definition Encode (frameLen : Z) (payload : bytes) : M Encoder error bytes := fun e =>
  if MaximumFramePayloadLength <? zlen payload then
    (Err (InvalidPayloadLengthError (zlen payload)), e)
  else if frameLen <? zlen payload + FrameOverhead then (Err ErrShortBuffer, e)
  else
    match nonce_bytes (enonce e) with
    | Ok nonce =>
        let box := box_Seal (ekey e) nonce payload in
        let length := u16 (zlen box) in
        let '(lengthMask, d) := Drbg.NextBlock (edrbg e) in
        let length := Z.lxor length (length_mask lengthMask) in
        (Ok (be_encode 2 length ++ box),
         mkEncoder (ekey e) (nonce_incr (enonce e)) d)
    | Err er => (Err er, e)
    | Panic w => (Panic w, e)
    end.

(** What [Decode] works on: the decoder, the receive buffer it consumes and
    the entropy behind [csrand]. *)
Record dstate := mkD { dec : Decoder; buf : bytes; tape : bytes }.

(** [io.ReadFull (frames, p)] with [len(p) = n] on a [bytes.Buffer]. *)
Definition read_full (n : Z) (b : bytes) : result error bytes * bytes :=
  if n <=? zlen b then (Ok (ztake n b), zdrop n b) else (Err ErrUnexpectedEOF, []).

(** The first half of [Decode]: determine the length of the next frame. *)
Definition decode_length : M dstate error unit := fun s =>
  let d := dec s in
  if lengthLength >? zlen (buf s) then (Err ErrAgain, s)
  else
    let '(r, b) := read_full lengthLength (buf s) in
    match r with
    | Err e => (Err e, mkD d b (tape s))
    | Panic w => (Panic w, mkD d b (tape s))
    | Ok obfsLen =>
        match nonce_bytes (dnonce d) with
        | Err e => (Err e, mkD d b (tape s))
        | Panic w => (Panic w, mkD d b (tape s))
        | Ok nonce =>
            let '(lengthMask, g) := Drbg.NextBlock (ddrbg d) in
            let length := Z.lxor (be_decode obfsLen) (length_mask lengthMask) in
            if (maxFrameLength <? length) || (minFrameLength >? length) then
              match Csrand.IntRange minFrameLength maxFrameLength (tape s) with
              | (Ok l, t) =>
                  (Ok tt, mkD (mkDecoder (dkey d) (dnonce d) g nonce (u16 l) true) b t)
              | (Err e, t) =>
                  (Err (EntropyError e), mkD (mkDecoder (dkey d) (dnonce d) g nonce 0 true) b t)
              | (Panic w, t) =>
                  (Panic w, mkD (mkDecoder (dkey d) (dnonce d) g nonce 0 true) b t)
              end
            else
              (Ok tt, mkD (mkDecoder (dkey d) (dnonce d) g nonce length
                                      (nextLengthInvalid d)) b (tape s))
        end
    end.

(** The second half: unseal the frame once all of it has arrived. *)
Definition decode_body : M dstate error bytes := fun s =>
  let d := dec s in
  if nextLength d >? zlen (buf s) then (Err ErrAgain, s)
  else if nextLength d >? maxFrameLength then (Panic "slice bounds out of range", s)
  else
    let '(r, b) := read_full (nextLength d) (buf s) in
    match r with
    | Err e => (Err e, mkD d b (tape s))
    | Panic w => (Panic w, mkD d b (tape s))
    | Ok box =>
        match box_Open (dkey d) (nextNonce d) box, nextLengthInvalid d with
        | Some out, false =>
            (Ok out, mkD (mkDecoder (dkey d) (nonce_incr (dnonce d)) (ddrbg d)
                                    (nextNonce d) 0 (nextLengthInvalid d)) b (tape s))
        | _, _ => (Err ErrTagMismatch, mkD d b (tape s))
        end
    end.

(** [Decoder.Decode (data, frames)]; the value is [data[:n]]. *)
Definition Decode : M dstate error bytes :=
  d ← gets dec;
  _ ← (if nextLength d =? 0 then decode_length else mret tt);
  decode_body.

(** ** Well-formedness *)

Definition nonce_wf (n : boxNonce) : Prop :=
  zlen (prefix n) = noncePrefixLength /\ 0 <= counter n < 2 ^ 64.
Definition enc_wf (e : Encoder) : Prop := nonce_wf (enonce e) /\ Drbg.drbg_wf (edrbg e).
Definition dec_wf (d : Decoder) : Prop :=
  nonce_wf (dnonce d) /\ Drbg.drbg_wf (ddrbg d)
  /\ (nextLength d = 0 \/ minFrameLength <= nextLength d <= maxFrameLength).

(** The two ends of a link agree and the decoder is between two frames. *)
Definition synced (e : Encoder) (d : Decoder) : Prop :=
  ekey e = dkey d /\ enonce e = dnonce d /\ edrbg e = ddrbg d
  /\ nextLength d = 0 /\ nextLengthInvalid d = false.

(** More data arrives behind the receive buffer. *)
Definition extend (x : bytes) (s : dstate) : dstate := mkD (dec s) (buf s ++ x) (tape s).

(** Data arrives in chunks and [Decode] is called after each. *)
Fixpoint feed (chunks : list bytes) (s : dstate) : list (result error bytes) * dstate :=
  match chunks with
  | [] => ([], s)
  | c :: chunks =>
      let '(r, s) := Decode (extend c s) in
      let '(rs, s) := feed chunks s in (r :: rs, s)
  end.

(** The nonces a sequence of [Encode] calls seals with. *)
Fixpoint encode_nonces (ps : list (Z * bytes)) (e : Encoder) : list bytes :=
  match ps with
  | [] => []
  | (frameLen, p) :: ps =>
      match Encode frameLen p e, nonce_bytes (enonce e) with
      | (Ok _, e'), Ok n => n :: encode_nonces ps e'
      | (_, e'), _ => encode_nonces ps e'
      end
  end.
End framing.

(** ** Lemmas *)

Lemma nonce_init_ok p : zlen p = noncePrefixLength -> nonce_init p = Ok (mkNonce p 1).
Proof.
  intros E. unfold nonce_init. rewrite E, Z.eqb_refl. cbn [negb].
  rewrite go_copy_full; [done|]. by rewrite E.
Qed.

Lemma nonce_bytes_panic n w : nonce_bytes n <> Panic w.
Proof. unfold nonce_bytes. by destruct (_ =? 0). Qed.

Lemma nonce_bytes_err n e : nonce_bytes n = Err e -> e = ErrNonceCounterWrapped.
Proof. unfold nonce_bytes. destruct (_ =? 0); intros; by simplify_eq. Qed.

Lemma nonce_incr_wf n : nonce_wf n -> nonce_wf (nonce_incr n).
Proof. intros [? ?]. split; [done|]. apply Z.mod_pos_bound. lia. Qed.
#[export] Hint Resolve nonce_incr_wf : wf.

Lemma read_full_Ok n b : n <= zlen b -> read_full n b = (Ok (ztake n b), zdrop n b).
Proof. intros. unfold read_full. by rewrite (proj2 (Z.leb_le _ _)). Qed.

Lemma lxor_u16 a b : 0 <= a < 2 ^ 16 -> 0 <= b < 2 ^ 16 -> 0 <= Z.lxor a b < 2 ^ 16.
Proof. by apply lxor_range. Qed.

Lemma length_mask_range b : 0 <= length_mask b < 2 ^ 16.
Proof.
  unfold length_mask. pose proof (be_decode_range (ztake 2 b)).
  assert (256 ^ zlen (ztake 2 b) <= 256 ^ 2); [|lia].
  apply Z.pow_le_mono_r; [lia|]. zlia.
Qed.

Section framing_proofs.
Context `{SipHashLaws} `{SecretBoxLaws}.

(** The cases of [decode_length]. *)
Lemma decode_length_again s :
  zlen (buf s) < lengthLength -> decode_length s = (Err ErrAgain, s).
Proof.
  intros Hl. unfold decode_length. rewrite Z.gtb_ltb.
  by rewrite (proj2 (Z.ltb_lt _ _)).
Qed.

Lemma decode_length_extend x s :
  lengthLength <= zlen (buf s) ->
  decode_length (extend x s)
  = ((decode_length s).1, extend x (decode_length s).2).
Proof.
  intros Hl. unfold decode_length, extend. cbn [dec buf tape].
  rewrite !Z.gtb_ltb, !(proj2 (Z.ltb_ge _ _)) by zlia.
  rewrite !read_full_Ok by zlia. rewrite zdrop_app_le, ztake_app_le by done.
  destruct (nonce_bytes _); try done. destruct (Drbg.NextBlock _).
  destruct (_ || _); [|done]. by destruct (Csrand.IntRange _ _ _) as [[]?].
Qed.

Lemma decode_length_Ok s s' :
  decode_length s = (Ok tt, s') ->
  lengthLength <= zlen (buf s) /\ buf s' = zdrop lengthLength (buf s)
  /\ minFrameLength <= nextLength (dec s') <= maxFrameLength
  /\ (nextLengthInvalid (dec s) = true -> nextLengthInvalid (dec s') = true).
Proof.
  unfold decode_length. destruct (_ >? _) eqn:Eg; [done|].
  rewrite Z.gtb_ltb in Eg. b2p. rewrite read_full_Ok by done.
  destruct (nonce_bytes _) as [n| |]; try done.
  destruct (Drbg.NextBlock _) as [m g].
  destruct (_ || _) eqn:Er; intros E.
  - destruct (Csrand.IntRange _ _ _) as [[l|?|?] t] eqn:El; simplify_eq.
    apply Csrand.IntRange_Ok in El. cbn.
    unfold u16. rewrite Z.mod_small by (unfold minFrameLength, maxFrameLength,
      MaximumSegmentLength, FrameOverhead, lengthLength, Overhead in *; lia). auto.
  - simplify_eq. cbn. rewrite Z.gtb_ltb in Er. b2p. auto.
Qed.

Lemma decode_length_not_Ok s r s' :
  decode_length s = (r, s') -> r <> Ok tt -> r <> Err ErrAgain ->
  r = Err ErrNonceCounterWrapped \/ r = Panic "crypto/rand failed".
Proof.
  unfold decode_length. destruct (_ >? _) eqn:Eg; [intros; by simplify_eq|].
  rewrite Z.gtb_ltb in Eg. b2p. rewrite read_full_Ok by done.
  destruct (nonce_bytes _) as [n|e|w] eqn:En.
  - destruct (Drbg.NextBlock _) as [m g].
    destruct (_ || _) eqn:Er; intros E; [|intros; by simplify_eq].
    destruct (Csrand.IntRange _ _ _) as [r' t] eqn:El.
    apply Csrand.IntRange_cases in El as [(v & -> & _)| ->];
      [| |done]; intros; simplify_eq; auto.
  - intros. simplify_eq. left. f_equal. by eapply nonce_bytes_err.
  - by apply nonce_bytes_panic in En.
Qed.

Lemma decode_body_again s :
  zlen (buf s) < nextLength (dec s) -> decode_body s = (Err ErrAgain, s).
Proof.
  intros Hl. unfold decode_body. rewrite Z.gtb_ltb.
  by rewrite (proj2 (Z.ltb_lt _ _)).
Qed.

Lemma decode_body_extend x s :
  nextLength (dec s) <= zlen (buf s) ->
  decode_body (extend x s) = ((decode_body s).1, extend x (decode_body s).2).
Proof.
  intros Hl. unfold decode_body, extend. cbn [dec buf tape].
  rewrite !(gtb_false (nextLength _) (zlen _)) by zlia.
  destruct (_ >? maxFrameLength); [done|].
  rewrite !read_full_Ok by zlia. rewrite zdrop_app_le, ztake_app_le by done.
  by destruct (box_Open _ _ _), (nextLengthInvalid (dec s)).
Qed.

Lemma decode_body_not_again s :
  nextLength (dec s) <= zlen (buf s) -> (decode_body s).1 <> Err ErrAgain.
Proof.
  intros Hl. unfold decode_body.
  rewrite !(gtb_false (nextLength _) (zlen _)) by zlia.
  destruct (_ >? maxFrameLength); [done|]. rewrite read_full_Ok by done.
  by destruct (box_Open _ _ _), (nextLengthInvalid (dec s)).
Qed.

Lemma Decode_unfold s :
  Decode s = if nextLength (dec s) =? 0
             then match decode_length s with
                  | (Ok _, s') => decode_body s'
                  | (Err e, s') => (Err e, s')
                  | (Panic w, s') => (Panic w, s')
                  end
             else decode_body s.
Proof. unfold Decode, mbind, M_bind, gets. by destruct (_ =? 0). Qed.

Lemma extend_extend x y s : extend y (extend x s) = extend (x ++ y) s.
Proof. unfold extend. cbn. by rewrite app_assoc. Qed.

(** A verdict is not changed by bytes that arrive later ... *)
Lemma Decode_extend x s :
  (Decode s).1 <> Err ErrAgain ->
  Decode (extend x s) = ((Decode s).1, extend x (Decode s).2).
Proof.
  rewrite !Decode_unfold. cbn [dec extend].
  destruct (nextLength (dec s) =? 0) eqn:En; intros Hr.
  - destruct (decide (zlen (buf s) < lengthLength)) as [Hs|Hs].
    { rewrite decode_length_again in Hr by done. done. }
    rewrite decode_length_extend by lia.
    destruct (decode_length s) as [[[]|e|w] s1] eqn:El; cbn [fst snd] in *; try done.
    destruct (decide (zlen (buf s1) < nextLength (dec s1))) as [Hb|Hb].
    { rewrite decode_body_again in Hr by done. done. }
    apply decode_body_extend. lia.
  - destruct (decide (zlen (buf s) < nextLength (dec s))) as [Hb|Hb].
    { rewrite decode_body_again in Hr by done. done. }
    apply decode_body_extend. lia.
Qed.

(** ... and a call that asks for more data loses nothing: calling again with
    more data is the same as one call with all of it. *)
Lemma Decode_resume x s :
  (Decode s).1 = Err ErrAgain ->
  Decode (extend x (Decode s).2) = Decode (extend x s).
Proof.
  rewrite (Decode_unfold s). destruct (nextLength (dec s) =? 0) eqn:En.
  - destruct (decide (zlen (buf s) < lengthLength)) as [Hs|Hs].
    { by rewrite decode_length_again. }
    destruct (decode_length s) as [r1 s1] eqn:El.
    assert (Hx : decode_length (extend x s) = (r1, extend x s1)).
    { rewrite decode_length_extend by lia. by rewrite El. }
    destruct r1 as [[]|e|w]; cbn.
    + destruct (decide (zlen (buf s1) < nextLength (dec s1))) as [Hb|Hb].
      2:{ intros Ha. by apply decode_body_not_again in Ha; [|lia]. }
      rewrite decode_body_again by done. intros _. cbn.
      apply decode_length_Ok in El as (_ & _ & Hr & _).
      rewrite !Decode_unfold, Hx. cbn [dec extend]. rewrite En.
      replace (nextLength (dec s1) =? 0) with false; [done|].
      symmetry. apply Z.eqb_neq.
      unfold minFrameLength, FrameOverhead, lengthLength, Overhead in Hr. lia.
    + intros. simplify_eq. exfalso. revert El.
      unfold decode_length. rewrite Z.gtb_ltb, (proj2 (Z.ltb_ge _ _)) by lia.
      rewrite read_full_Ok by lia. destruct (nonce_bytes _) eqn:Enb; try done.
      * destruct (Drbg.NextBlock _). destruct (_ || _); [|done].
        by destruct (Csrand.IntRange _ _ _) as [[]?].
      * intros. simplify_eq. by apply nonce_bytes_err in Enb.
    + done.
  - destruct (decide (zlen (buf s) < nextLength (dec s))) as [Hb|Hb].
    + by rewrite decode_body_again.
    + intros Ha. by apply decode_body_not_again in Ha; [|lia].
Qed.

(** ** What [Encode] produces *)

(** The frame an encoder in state [e] makes of [p]. *)
Definition frame_of (e : Encoder) (nonce p : bytes) : bytes :=
  let box := box_Seal (ekey e) nonce p in
  be_encode 2 (Z.lxor (zlen box) (length_mask (Drbg.NextBlock (edrbg e)).1)) ++ box.
Definition encoded (e : Encoder) : Encoder :=
  mkEncoder (ekey e) (nonce_incr (enonce e)) (Drbg.NextBlock (edrbg e)).2.

Lemma box_Seal_payload k n p :
  zlen p <= MaximumFramePayloadLength ->
  minFrameLength <= zlen (box_Seal k n p) <= maxFrameLength.
Proof.
  rewrite box_Seal_size. zlen_pos. unfold MaximumFramePayloadLength, minFrameLength,
    maxFrameLength, MaximumSegmentLength, FrameOverhead, lengthLength, Overhead. lia.
Qed.

Lemma frame_range z : minFrameLength <= z <= maxFrameLength -> 0 < z < 2 ^ 16.
Proof.
  unfold minFrameLength, maxFrameLength, MaximumSegmentLength, FrameOverhead,
    lengthLength, Overhead. lia.
Qed.

Lemma Encode_ok n p e nonce :
  zlen p <= MaximumFramePayloadLength -> zlen p + FrameOverhead <= n ->
  nonce_bytes (enonce e) = Ok nonce ->
  Encode n p e = (Ok (frame_of e nonce p), encoded e).
Proof.
  intros Hp Hn En. unfold Encode, frame_of, encoded.
  rewrite !ltb_false, En by done. destruct (Drbg.NextBlock _) as [m g]. cbn [fst snd].
  unfold u16. rewrite Z.mod_small; [done|].
  pose proof (box_Seal_payload (ekey e) nonce p Hp) as Hb. apply frame_range in Hb. lia.
Qed.

Lemma Encode_inv n p e r e' :
  Encode n p e = (r, e') ->
  (r = Err (InvalidPayloadLengthError (zlen p)) /\ e' = e
     /\ MaximumFramePayloadLength < zlen p)
  \/ (r = Err ErrShortBuffer /\ e' = e /\ n < zlen p + FrameOverhead)
  \/ (r = Err ErrNonceCounterWrapped /\ e' = e /\ counter (enonce e) = 0)
  \/ (exists nonce, nonce_bytes (enonce e) = Ok nonce /\ r = Ok (frame_of e nonce p)
     /\ e' = encoded e /\ zlen p <= MaximumFramePayloadLength
     /\ zlen p + FrameOverhead <= n).
Proof.
  intros E. destruct (MaximumFramePayloadLength <? zlen p) eqn:E1.
  { unfold Encode in E. rewrite E1 in E. b2p. simplify_eq. auto. }
  destruct (n <? zlen p + FrameOverhead) eqn:E2.
  { unfold Encode in E. rewrite E1, E2 in E. b2p. simplify_eq. auto. }
  destruct (nonce_bytes (enonce e)) as [nonce|er|w] eqn:En.
  - b2p. rewrite (Encode_ok _ _ _ nonce) in E by done. simplify_eq.
    do 3 right. exists nonce. by split_and!.
  - unfold Encode in E. rewrite E1, E2, En in E. simplify_eq.
    unfold nonce_bytes in En. destruct (_ =? 0) eqn:Ec; [|done]. b2p. simplify_eq.
    right; right; left. done.
  - by apply nonce_bytes_panic in En.
Qed.

Lemma encoded_wf e : enc_wf e -> enc_wf (encoded e).
Proof. intros [? ?]. split; [by apply nonce_incr_wf|by apply Drbg.NextBlock_wf]. Qed.
#[local] Hint Resolve encoded_wf : wf.

Lemma frame_of_zlen e nonce p :
  zlen (frame_of e nonce p) = zlen p + FrameOverhead.
Proof.
  unfold frame_of. rewrite zlen_app, zlen_be_encode, box_Seal_size.
  unfold FrameOverhead, lengthLength. lia.
Qed.

(** ** Round trip *)

Lemma lxor_lxor_cancel a b : Z.lxor (Z.lxor a b) b = a.
Proof. by rewrite Z.lxor_assoc, Z.lxor_nilpotent, Z.lxor_0_r. Qed.

Lemma decode_length_frame e d nonce p rest t :
  synced e d -> nonce_bytes (enonce e) = Ok nonce ->
  zlen p <= MaximumFramePayloadLength ->
  decode_length (mkD d (frame_of e nonce p ++ rest) t)
  = (Ok tt, mkD (mkDecoder (dkey d) (dnonce d) (Drbg.NextBlock (ddrbg d)).2 nonce
                           (zlen (box_Seal (ekey e) nonce p)) false)
                (box_Seal (ekey e) nonce p ++ rest) t).
Proof.
  intros (Ek & En & Eg & _ & Ei) Hn Hp.
  pose proof (box_Seal_payload (ekey e) nonce p Hp) as Hb.
  pose proof (frame_range _ Hb) as Hr.
  pose proof (length_mask_range (Drbg.NextBlock (edrbg e)).1) as Hm.
  unfold decode_length. cbn [dec buf tape].
  rewrite gtb_false by (rewrite zlen_app, frame_of_zlen; unfold FrameOverhead,
    lengthLength, Overhead; zlia).
  rewrite read_full_Ok by (rewrite zlen_app, frame_of_zlen; unfold FrameOverhead,
    lengthLength, Overhead; zlia).
  unfold frame_of. rewrite <- app_assoc.
  rewrite ztake_app, zdrop_app by (by rewrite zlen_be_encode).
  rewrite <- En, Hn, <- Eg. destruct (Drbg.NextBlock (edrbg e)) as [m g].
  cbn [fst snd] in *. rewrite be_decode_encode. change (256 ^ Z.of_nat 2) with (2 ^ 16).
  rewrite Z.mod_small by (apply lxor_u16; lia). rewrite lxor_lxor_cancel.
  rewrite gtb_false, ltb_false by lia. cbn [orb]. by rewrite Ei.
Qed.

Lemma Decode_frame e d nonce p rest t :
  synced e d -> nonce_bytes (enonce e) = Ok nonce ->
  zlen p <= MaximumFramePayloadLength ->
  exists d', Decode (mkD d (frame_of e nonce p ++ rest) t) = (Ok p, mkD d' rest t)
             /\ synced (encoded e) d'.
Proof.
  intros Hs Hn Hp. pose proof (box_Seal_payload (ekey e) nonce p Hp) as Hb.
  rewrite Decode_unfold. cbn [dec]. pose proof Hs as (Ek & En & Eg & El & Ei).
  rewrite El, Z.eqb_refl, (decode_length_frame _ _ _ _ _ _ Hs Hn Hp).
  unfold decode_body. cbn [dec buf tape nextLength nextLengthInvalid dkey nextNonce].
  rewrite !gtb_false, read_full_Ok by zlia.
  rewrite ztake_app, zdrop_app by done. rewrite <- Ek, box_Open_Seal.
  eexists. split; [done|]. unfold synced. cbn. by rewrite En, Eg.
Qed.

(** ** Segmentation of the stream *)

Lemma Decode_frame_prefix e d nonce p a b t :
  synced e d -> nonce_bytes (enonce e) = Ok nonce ->
  zlen p <= MaximumFramePayloadLength -> frame_of e nonce p = a ++ b -> b <> [] ->
  (Decode (mkD d a t)).1 = Err ErrAgain.
Proof.
  intros Hs Hn Hp Hf Hb.
  destruct (Decode_frame e d nonce p [] t Hs Hn Hp) as (d' & E & _).
  rewrite app_nil_r, Hf in E.
  pose proof (Decode_extend b (mkD d a t)) as Hx. unfold extend in Hx. cbn in Hx.
  rewrite E in Hx.
  assert (Hdec : forall r : result error bytes, {r = Err ErrAgain} + {r <> Err ErrAgain})
    by (intros [|[]|]; (by left) || (by right)).
  destruct (Hdec (Decode (mkD d a t)).1) as [?|Hne]; [done|].
  specialize (Hx Hne). exfalso.
  apply (f_equal (fun r => buf r.2)) in Hx. cbn in Hx. symmetry in Hx.
  apply app_nil in Hx as [_ ?]. done.
Qed.

Lemma feed_fragments e d nonce p t d' :
  synced e d -> nonce_bytes (enonce e) = Ok nonce ->
  zlen p <= MaximumFramePayloadLength ->
  Decode (mkD d (frame_of e nonce p) t) = (Ok p, mkD d' [] t) ->
  forall chunks a s, (forall x, Decode (extend x s) = Decode (mkD d (a ++ x) t)) ->
  chunks <> [] -> Forall (fun c => c <> []) chunks -> a ++ concat chunks = frame_of e nonce p ->
  feed chunks s
  = (replicate (pred (length chunks)) (Err ErrAgain) ++ [Ok p], mkD d' [] t).
Proof.
  intros Hs Hn Hp E. induction chunks as [|c chunks IH]; intros a s Hx Hne Hall Hf; [done|].
  inversion_clear Hall as [|? ? Hc Hall']. cbn [feed concat] in *. rewrite Hx.
  destruct chunks as [|c' chunks].
  - rewrite app_nil_r in Hf. rewrite Hf, E. done.
  - rewrite app_assoc in Hf.
    assert (Ha : (Decode (mkD d (a ++ c) t)).1 = Err ErrAgain).
    { eapply Decode_frame_prefix; [done..|by symmetry|].
      inversion_clear Hall'. cbn. intros [? ?]%app_nil. done. }
    destruct (Decode (mkD d (a ++ c) t)) as [r s1] eqn:E1. cbn in Ha. subst r.
    rewrite (IH (a ++ c) s1); [done| |done|done|done].
    intros x. pose proof (Decode_resume x (mkD d (a ++ c) t)) as Hr.
    rewrite E1 in Hr. by apply Hr.
Qed.

(** ** Authenticity *)

Lemma Decode_Ok_frame s p s' :
  nextLength (dec s) = 0 -> Decode s = (Ok p, s') ->
  exists nonce, nonce_bytes (dnonce (dec s)) = Ok nonce
    /\ let e := mkEncoder (dkey (dec s)) (dnonce (dec s)) (ddrbg (dec s)) in
       buf s = frame_of e nonce p ++ buf s' /\ zlen p <= MaximumFramePayloadLength
       /\ nextLengthInvalid (dec s) = false /\ synced (encoded e) (dec s').
Proof.
  intros E0 E. rewrite Decode_unfold, E0, Z.eqb_refl in E.
  destruct (decode_length s) as [[[]|?|?] s1] eqn:El; try done.
  pose proof (decode_length_Ok _ _ El) as (Hlen & Hb1 & Hr & Hi).
  assert (Hr0 : nextLength (dec s1) <= maxFrameLength) by lia.
  unfold decode_body in E. destruct (_ >? zlen _) eqn:Eg; [done|].
  rewrite gtb_false in E by done. b2p.
  rewrite read_full_Ok in E by done.
  destruct (box_Open _ _ _) as [m|] eqn:Eo; [|done].
  destruct (nextLengthInvalid (dec s1)) eqn:Ei; [done|]. simplify_eq.
  apply box_Open_inv in Eo. cbn [dec buf].
  unfold decode_length in El. rewrite gtb_false, read_full_Ok in El by done.
  destruct (nonce_bytes (dnonce (dec s))) as [nonce|?|?] eqn:En; try done.
  exists nonce. split; [done|]. cbv zeta.
  destruct (Drbg.NextBlock (ddrbg (dec s))) as [mask g] eqn:Eb.
  destruct (_ || _) eqn:Eor.
  { destruct (Csrand.IntRange _ _ _) as [[?|?|?] ?]; simplify_eq. }
  simplify_eq. cbn [dec buf dkey dnonce ddrbg nextNonce nextLength nextLengthInvalid] in *.
  set (L := Z.lxor (be_decode (ztake lengthLength (buf s))) (length_mask mask)) in *.
  assert (Hbox : zlen (box_Seal (dkey (dec s)) nonce p) = L).
  { rewrite <- Eo, zlen_ztake. pose proof (frame_range _ Hr). lia. }
  unfold frame_of. cbv zeta. cbn [ekey edrbg]. rewrite Eb, Hbox. cbn [fst].
  unfold L. rewrite lxor_lxor_cancel, be_encode_decode
    by (unfold ztake; rewrite length_take; unfold zlen, lengthLength in *; lia).
  fold L. rewrite <- Eo, <- app_assoc, ztake_zdrop, ztake_zdrop.
  rewrite box_Seal_size in Hbox. split_and!; [done| |done|].
  - unfold maxFrameLength, MaximumFramePayloadLength, FrameOverhead, Overhead in *. lia.
  - unfold synced, encoded. cbn -[Drbg.NextBlock]. by rewrite Eb.
Qed.

(** ** Poisoned decoders *)

Lemma decode_length_invalid s r s' :
  decode_length s = (r, s') -> nextLengthInvalid (dec s) = true ->
  nextLengthInvalid (dec s') = true.
Proof.
  unfold decode_length. destruct (_ >? _); [intros; by simplify_eq|].
  destruct (read_full _ _) as [[]?]; try (intros; by simplify_eq).
  destruct (nonce_bytes _); try (intros; by simplify_eq).
  destruct (Drbg.NextBlock _). destruct (_ || _); [|intros; by simplify_eq].
  destruct (Csrand.IntRange _ _ _) as [[]?]; intros; by simplify_eq.
Qed.

Lemma Decode_invalid s r s' :
  Decode s = (r, s') -> nextLengthInvalid (dec s) = true ->
  is_ok r = false /\ nextLengthInvalid (dec s') = true.
Proof.
  assert (Hbody : forall s r s', decode_body s = (r, s') ->
    nextLengthInvalid (dec s) = true ->
    is_ok r = false /\ nextLengthInvalid (dec s') = true).
  { clear. intros s r s'. unfold decode_body. intros E Hi. rewrite Hi in E.
    destruct (_ >? zlen _); [by simplify_eq|].
    destruct (_ >? maxFrameLength); [by simplify_eq|].
    destruct (read_full _ _) as [[]?]; try by simplify_eq.
    destruct (box_Open _ _ _); by simplify_eq. }
  rewrite Decode_unfold. destruct (_ =? 0); [|apply Hbody].
  destruct (decode_length s) as [[]s1] eqn:El; intros E Hi;
    pose proof (decode_length_invalid _ _ _ El Hi); [eauto|by simplify_eq..].
Qed.

Lemma feed_invalid chunks : forall s, nextLengthInvalid (dec s) = true ->
  Forall (fun r => is_ok r = false) (feed chunks s).1.
Proof.
  induction chunks as [|c chunks IH]; intros s Hi; cbn; [constructor|].
  destruct (Decode (extend c s)) as [r s1] eqn:E.
  apply Decode_invalid in E as [? Hi1]; [|done].
  specialize (IH s1 Hi1). destruct (feed chunks s1). by constructor.
Qed.

(** ** The decoder's invariant and its errors *)

Definition decode_errors (r : result error bytes) : Prop :=
  match r with
  | Ok p => zlen p <= MaximumFramePayloadLength
  | Err e => e = ErrAgain \/ e = ErrTagMismatch \/ e = ErrNonceCounterWrapped
  | Panic w => w = "crypto/rand failed"%string
  end.

Lemma decode_length_wf s r s' :
  decode_length s = (r, s') -> dec_wf (dec s) -> nextLength (dec s) = 0 ->
  dec_wf (dec s').
Proof.
  intros E Hw E0. destruct r as [[]|e|w].
  { pose proof (decode_length_Ok _ _ E) as (_ & _ & Hr & _). revert E.
    unfold decode_length. destruct (_ >? _); [done|].
    destruct (read_full _ _) as [[]?]; try done. destruct (nonce_bytes _); try done.
    pose proof (Drbg.NextBlock_wf (ddrbg (dec s))) as Hg.
    destruct (Drbg.NextBlock _). destruct Hw as (? & Hd & _).
    destruct (_ || _); [destruct (Csrand.IntRange _ _ _) as [[]?]|];
      intros; simplify_eq; (split_and!; [done|by apply Hg|by right]). }
  all: revert E; unfold decode_length; destruct (_ >? _); [by intros; simplify_eq|];
    destruct (read_full _ _) as [[]?]; try (by intros; simplify_eq);
    destruct (nonce_bytes _); try (by intros; simplify_eq);
    pose proof (Drbg.NextBlock_wf (ddrbg (dec s))) as Hg;
    destruct (Drbg.NextBlock _); destruct Hw as (? & Hd & _);
    destruct (_ || _); [destruct (Csrand.IntRange _ _ _) as [[]?]|];
      intros; simplify_eq; (split_and!; [done|by apply Hg|by left]).
Qed.

Lemma decode_body_wf s r s' :
  decode_body s = (r, s') -> dec_wf (dec s) -> nextLength (dec s) <> 0 ->
  dec_wf (dec s') /\ decode_errors r /\ zlen (buf s') <= zlen (buf s).
Proof.
  intros E (Hn & Hd & Hl) Hnz. destruct Hl as [|Hl]; [done|]. revert E.
  unfold decode_body. destruct (_ >? zlen _) eqn:Eg.
  { intros; simplify_eq. split_and!; [by split_and!; auto|by left|done]. }
  rewrite gtb_false by lia. b2p. rewrite read_full_Ok by done.
  assert (Herr : forall b r s', (r, s') = (Err ErrTagMismatch, mkD (dec s) b (tape s)) ->
    zlen b <= zlen (buf s) ->
    dec_wf (dec s') /\ decode_errors r /\ zlen (buf s') <= zlen (buf s)).
  { intros. simplify_eq. split_and!; [by split_and!; auto|by right; left|done]. }
  assert (Hz : zlen (zdrop (nextLength (dec s)) (buf s)) <= zlen (buf s)) by zlia.
  destruct (box_Open _ _ _) as [m|] eqn:Eo; [|eauto].
  destruct (nextLengthInvalid _); intros; [eauto|]. simplify_eq. split_and!; cbn.
  - split; cbn; [by apply nonce_incr_wf|]. auto.
  - apply box_Open_inv, (f_equal zlen) in Eo.
    rewrite zlen_ztake, box_Seal_size in Eo. pose proof (frame_range _ Hl).
    unfold MaximumFramePayloadLength, maxFrameLength,
      FrameOverhead, lengthLength, Overhead in *. lia.
  - done.
Qed.

Lemma Decode_wf s r s' :
  Decode s = (r, s') -> dec_wf (dec s) -> dec_wf (dec s') /\ decode_errors r.
Proof.
  rewrite Decode_unfold. intros E Hw. destruct (nextLength (dec s) =? 0) eqn:E0; b2p.
  - destruct (decode_length s) as [r1 s1] eqn:El.
    pose proof (decode_length_wf _ _ _ El Hw E0) as Hw1.
    destruct r1 as [[]|e|w].
    + apply decode_length_Ok in El as (_ & _ & Hr & _).
      apply decode_body_wf in E as (? & ? & _); [done|done|].
      apply frame_range in Hr. lia.
    + simplify_eq. split; [done|].
      destruct e; cbn; auto;
        destruct (decode_length_not_Ok _ _ _ El) as [Hx|Hx]; by simplify_eq.
    + simplify_eq. split; [done|].
      destruct (decode_length_not_Ok _ _ _ El) as [|Hx]; [done|done|done|].
      by simplify_eq.
  - by apply decode_body_wf in E as (? & ? & _).
Qed.

Lemma read_full_le n b r b' : read_full n b = (r, b') -> zlen b' <= zlen b.
Proof. unfold read_full. destruct (_ <=? _); intros; simplify_eq; zlia. Qed.

Lemma Decode_buf_le s : zlen (buf (Decode s).2) <= zlen (buf s).
Proof.
  assert (Hbody : forall s, zlen (buf (decode_body s).2) <= zlen (buf s)).
  { clear. intros s. unfold decode_body. destruct (_ >? zlen _); [done|].
    destruct (_ >? maxFrameLength); [done|].
    destruct (read_full _ _) as [r b] eqn:E. apply read_full_le in E.
    destruct r; [|done..]. by destruct (box_Open _ _ _), (nextLengthInvalid (dec s)). }
  rewrite Decode_unfold. destruct (_ =? 0); [|apply Hbody].
  assert (Hlen : zlen (buf (decode_length s).2) <= zlen (buf s)).
  { clear. unfold decode_length. destruct (_ >? _); [done|].
    destruct (read_full _ _) as [r b] eqn:E. apply read_full_le in E.
    destruct r; [|done..]. destruct (nonce_bytes _); [|done..].
    destruct (Drbg.NextBlock _). destruct (_ || _); [|done].
    by destruct (Csrand.IntRange _ _ _) as [[]?]. }
  destruct (decode_length s) as [[]s1]; [|done..]. etrans; [apply Hbody|done].
Qed.

(** A decoded frame is consumed. *)
Lemma Decode_Ok_shrinks s p s' :
  Decode s = (Ok p, s') -> dec_wf (dec s) -> zlen (buf s') < zlen (buf s).
Proof.
  assert (Hbody : forall s p s', decode_body s = (Ok p, s') ->
    minFrameLength <= nextLength (dec s) -> zlen (buf s') < zlen (buf s)).
  { clear. intros s p s'. unfold decode_body. destruct (_ >? zlen _) eqn:Eg; [done|]. b2p.
    destruct (_ >? maxFrameLength) eqn:Em; [done|]. b2p. rewrite read_full_Ok by done.
    destruct (box_Open _ _ _); [|done]. destruct (nextLengthInvalid _); [done|].
    intros. simplify_eq. cbn. pose proof (frame_range (nextLength (dec s))). zlia. }
  rewrite Decode_unfold. intros E (_ & _ & Hl). destruct (_ =? 0) eqn:E0; b2p.
  - destruct (decode_length s) as [[[]|?|?] s1] eqn:El; try done.
    apply decode_length_Ok in El as (_ & Hb & Hr & _).
    apply Hbody in E; [|lia]. rewrite Hb in E. zlia.
  - eapply Hbody; [exact E|]. destruct Hl; lia.
Qed.

Lemma extend_nil s : extend [] s = s.
Proof. destruct s. unfold extend. cbn. by rewrite app_nil_r. Qed.

(** ** Nonces *)

Lemma encode_nonces_nil ps : forall e, counter (enonce e) = 0 -> encode_nonces ps e = [].
Proof.
  induction ps as [|[n p] ps IH]; intros e E0; [done|]. cbn.
  destruct (Encode n p e) as [r e'] eqn:E.
  assert (Hnb : nonce_bytes (enonce e) = Err ErrNonceCounterWrapped)
    by (unfold nonce_bytes; by rewrite E0).
  apply Encode_inv in E as [(->&->&_)|[(->&->&_)|[(->&->&_)|(?&?&_)]]]; auto.
  congruence.
Qed.

Lemma encode_nonces_fresh ps : forall e, enc_wf e ->
  Forall (fun b => exists c, counter (enonce e) <= c < 2 ^ 64
                             /\ b = prefix (enonce e) ++ be_encode 8 c) (encode_nonces ps e)
  /\ NoDup (encode_nonces ps e).
Proof.
  induction ps as [|[n p] ps IH]; intros e Hw; cbn; [split; constructor|].
  destruct (Encode n p e) as [r e'] eqn:E.
  apply Encode_inv in E as [(->&->&_)|[(->&->&_)|[(->&->&_)|(nonce&En&->&->&_)]]]; auto.
  rewrite En. unfold nonce_bytes in En. destruct (_ =? 0) eqn:Ec; [done|]. simplify_eq. b2p.
  pose proof Hw as [[Hp Hc] _].
  assert (Hhere : exists c, counter (enonce e) <= c < 2 ^ 64
    /\ prefix (enonce e) ++ be_encode 8 (counter (enonce e))
       = prefix (enonce e) ++ be_encode 8 c)
    by (exists (counter (enonce e)); split; [lia|done]).
  destruct (decide (counter (enonce e) + 1 = 2 ^ 64)) as [Hlast|Hlast].
  { rewrite encode_nonces_nil.
    - split; [by constructor|apply NoDup_singleton].
    - cbn. unfold u64. by rewrite Hlast, Z.mod_same. }
  assert (Hnext : counter (enonce (encoded e)) = counter (enonce e) + 1).
  { cbn. unfold u64. rewrite Z.mod_small; lia. }
  destruct (IH (encoded e) (encoded_wf e Hw)) as [Hf Hd].
  rewrite Hnext in Hf. cbn [enonce prefix nonce_incr encoded] in Hf. split.
  - constructor; [done|]. eapply Forall_impl; [exact Hf|].
    cbn. intros b (c & ? & ->). exists c. split; [lia|done].
  - apply NoDup_cons. split; [|done]. intros Hin.
    rewrite Forall_forall in Hf. apply Hf in Hin as (c & Hcr & Heq).
    apply app_inj_1 in Heq as [_ Heq]; [|done].
    apply (f_equal be_decode) in Heq. rewrite !be_decode_encode in Heq.
    change (256 ^ Z.of_nat 8) with (2 ^ 64) in Heq. rewrite !Z.mod_small in Heq; lia.
Qed.

(** ** Fresh links *)

Lemma new_keys_wf key k n g :
  new_keys key = Ok (k, n, g) ->
  nonce_wf n /\ counter n = 1 /\ Drbg.drbg_wf g
  /\ k = ztake keyLength key
  /\ prefix n = ztake noncePrefixLength (zdrop keyLength key).
Proof.
  unfold new_keys. destruct (zlen key =? KeyLength) eqn:El; [|done]. b2p. cbn [negb].
  unfold KeyLength, keyLength, noncePrefixLength, Drbg.SeedLength, Drbg.Size in *.
  rewrite nonce_init_ok by (rewrite zlen_ztake, zlen_zdrop, El; done).
  cbn -[Drbg.SeedFromBytes Drbg.NewHashDrbg].
  rewrite Drbg.SeedFromBytes_exact by (rewrite zlen_zdrop, El; done).
  rewrite Drbg.NewHashDrbg_Some by (rewrite zlen_zdrop, El; done). cbn.
  intros. simplify_eq. cbn [counter prefix].
  unfold nonce_wf, Drbg.drbg_wf. cbn [counter prefix Drbg.ofb].
  split_and!; rewrite ?zlen_ztake, ?zlen_zdrop, ?El; done.
Qed.

Lemma new_synced key e d :
  NewEncoder key = Ok e -> NewDecoder key = Ok d ->
  enc_wf e /\ dec_wf d /\ synced e d /\ counter (enonce e) = 1.
Proof.
  unfold NewEncoder, NewDecoder. destruct (new_keys key) as [[[k n] g]|?|?] eqn:E; try done.
  cbn. intros. simplify_eq. apply new_keys_wf in E as (Hn & Hc & Hg & _).
  split; [by split|]. split; [split_and!; [done|done|by left]|]. done.
Qed.

Lemma new_keys_total key : zlen key = KeyLength -> exists x, new_keys key = Ok x.
Proof.
  intros El. unfold new_keys. rewrite El, Z.eqb_refl. cbn [negb].
  unfold KeyLength, keyLength, noncePrefixLength, Drbg.SeedLength, Drbg.Size in *.
  rewrite nonce_init_ok by (rewrite zlen_ztake, zlen_zdrop, El; done).
  cbn -[Drbg.SeedFromBytes Drbg.NewHashDrbg].
  rewrite Drbg.SeedFromBytes_exact by (rewrite zlen_zdrop, El; done).
  rewrite Drbg.NewHashDrbg_Some by (rewrite zlen_zdrop, El; done). cbn. eauto.
Qed.

(** A key of the right length makes the two ends of a fresh link. *)
Lemma new_link key :
  zlen key = KeyLength ->
  exists e d, NewEncoder key = Ok e /\ NewDecoder key = Ok d
    /\ enc_wf e /\ dec_wf d /\ synced e d.
Proof.
  intros Hl. destruct (new_keys_total key Hl) as [[[k n] g] E].
  assert (He : NewEncoder key = Ok (mkEncoder k n g)) by (unfold NewEncoder; by rewrite E).
  assert (Hd : NewDecoder key = Ok (mkDecoder k n g (zrepeat nonceLength Byte.x00) 0 false))
    by (unfold NewDecoder; by rewrite E).
  destruct (new_synced key _ _ He Hd) as (? & ? & ? & _). eauto 10.
Qed.

(** ** Properties *)

(** C31: whatever way the network splits the bytes of a frame into
    non-empty chunks, [Decode] answers [ErrAgain] on every proper prefix and
    returns exactly the encoded payload with the last byte, leaving the
    receive buffer empty and both ends ready for the next frame. *)
Theorem decode_segmented e d n p f e' t chunks :
  synced e d -> Encode n p e = (Ok f, e') ->
  chunks <> [] -> Forall (fun c => c <> []) chunks -> concat chunks = f ->
  exists d', feed chunks (mkD d [] t)
             = (replicate (pred (length chunks)) (Err ErrAgain) ++ [Ok p], mkD d' [] t)
    /\ synced e' d'.
Proof.
  intros Hs E Hne Hall Hf.
  apply Encode_inv in E as [(?&_)|[(?&_)|[(?&_)|(nonce&En&Hr&->&Hp&_)]]]; [done..|].
  injection Hr as ->.
  destruct (Decode_frame e d nonce p [] t Hs En Hp) as (d' & Ed & Hs').
  rewrite app_nil_r in Ed. exists d'. split; [|done].
  by apply (feed_fragments e d nonce p t d' Hs En Hp Ed chunks []).
Qed.

(** C32: a decoder that is between two frames accepts nothing but what the
    peer's encoder in the same state produces: when [Decode] returns a
    payload, the bytes it consumed are [Encode]'s frame of that payload under
    the shared key, the expected nonce counter and the DRBG mask, and the
    state moves on exactly as that encoder's does (no replay, no reordering,
    no splice is accepted). *)
Theorem decode_accepts_only_encodings s p s' :
  nextLength (dec s) = 0 -> Decode s = (Ok p, s') ->
  exists f e', Encode MaximumSegmentLength p
                 (mkEncoder (dkey (dec s)) (dnonce (dec s)) (ddrbg (dec s))) = (Ok f, e')
    /\ buf s = f ++ buf s' /\ synced e' (dec s').
Proof.
  intros H0' E. destruct (Decode_Ok_frame _ _ _ H0' E) as (nonce & En & Hb & Hp & _ & Hs).
  do 2 eexists. split; [|split; [exact Hb|exact Hs]].
  apply Encode_ok; [done| |done].
  unfold MaximumFramePayloadLength in Hp. lia.
Qed.

(** No two frames of a link are sealed under the same nonce, whatever
    the payloads and the errors on the way: the nonces of any sequence of
    [Encode] calls are distinct, and once the 64-bit counter has wrapped every
    further call reports [ErrNonceCounterWrapped] (or an argument error) and
    changes nothing. *)
Theorem encode_nonce_unique e ps :
  enc_wf e ->
  NoDup (encode_nonces ps e)
  /\ (counter (enonce e) = 0 -> forall n p,
        is_ok (Encode n p e).1 = false /\ (Encode n p e).2 = e).
Proof.
  intros Hw. split; [by apply encode_nonces_fresh|].
  intros E0 n p. destruct (Encode n p e) as [r e'] eqn:E.
  apply Encode_inv in E as [(->&->&_)|[(->&->&_)|[(->&->&_)|(?&En&_)]]]; try done.
  unfold nonce_bytes in En. by rewrite E0 in En.
Qed.

(** [Decode] never panics except on an entropy failure, its errors are
    [ErrAgain], [ErrTagMismatch] and [ErrNonceCounterWrapped], a payload it
    returns is at most 1430 bytes, so the caller's fixed buffer always holds
    it, and the decoder's invariant (pending length 0 or within 16 and 1446,
    counter within 64 bits) is kept, for every input. *)
Theorem decode_total s :
  dec_wf (dec s) -> decode_errors (Decode s).1 /\ dec_wf (dec (Decode s).2).
Proof.
  intros Hw. destruct (Decode s) as [r s'] eqn:E. cbn.
  by apply Decode_wf in E as [? ?].
Qed.

(** A length field that deobfuscates out of range poisons the decoder:
    no call, on this or any later input, ever returns a payload, so the
    failure cannot be told from a bad tag by the time it happens. *)
Theorem decode_poisoned s nonce chunks :
  nextLength (dec s) = 0 -> lengthLength <= zlen (buf s) ->
  nonce_bytes (dnonce (dec s)) = Ok nonce ->
  let len := Z.lxor (be_decode (ztake lengthLength (buf s)))
                    (length_mask (Drbg.NextBlock (ddrbg (dec s))).1) in
  maxFrameLength < len \/ len < minFrameLength ->
  is_ok (Decode s).1 = false
  /\ Forall (fun r => is_ok r = false) (feed chunks (Decode s).2).1.
Proof.
  intros H0' Hl En len Hlen.
  assert (Hinv : nextLengthInvalid (dec (Decode s).2) = true /\ is_ok (Decode s).1 = false).
  { rewrite Decode_unfold, H0', Z.eqb_refl.
    assert (Hi : nextLengthInvalid (dec (decode_length s).2) = true).
    { unfold decode_length. rewrite gtb_false, read_full_Ok, En by done.
      subst len. destruct (Drbg.NextBlock _) as [m g]. cbn [fst] in Hlen.
      replace (_ || _) with true
        by (symmetry; apply orb_true_iff; rewrite Z.gtb_ltb, !Z.ltb_lt; lia).
      by destruct (Csrand.IntRange _ _ _) as [[]?]. }
    destruct (decode_length s) as [[[]|?|?] s1]; try done. cbn in Hi.
    assert (Hn : nextLength (dec s1) = 0 \/ nextLength (dec s1) <> 0) by lia.
    destruct (decode_body s1) as [r s2] eqn:E2. cbn. unfold decode_body in E2.
    rewrite Hi in E2.
    destruct (_ >? zlen _); [by simplify_eq|].
    destruct (_ >? maxFrameLength); [by simplify_eq|].
    destruct (read_full _ _) as [[]?]; try by simplify_eq.
    destruct (box_Open _ _ _); by simplify_eq. }
  split; [by destruct Hinv|]. by apply feed_invalid; destruct Hinv.
Qed.
End framing_proofs.
End Framing.

(** A concrete authenticated box, for the witnesses: a keyed checksum in front
    of the message. *)
Module ToyBox.
Definition tag (k n m : bytes) : bytes := be_encode 16 (ToySip.poly k (n ++ m)).
#[export] Instance toy_box : SecretBox :=
  {| box_Seal k n m := tag k n m ++ m;
     box_Open k n b :=
       let m := zdrop 16 b in
       if bool_decide (b = tag k n m ++ m) then Some m else None |}.
#[export] Instance toy_box_laws : SecretBoxLaws.
Proof.
  split; cbn; intros.
  - rewrite zlen_app. unfold tag. by rewrite zlen_be_encode.
  - rewrite !zdrop_app by (unfold tag; by rewrite zlen_be_encode).
    by rewrite bool_decide_eq_true_2.
  - case_bool_decide as E; by simplify_eq.
Qed.
End ToyBox.

Section witnesses.
Import ToySip ToyBox Framing.
Definition toy_key : bytes := zrepeat KeyLength Byte.x05.
Definition toy_nonce : boxNonce := mkNonce (zrepeat 16 Byte.x05) 1.
Definition toy_rng : Drbg.HashDrbg := Drbg.mkDrbg (zrepeat 16 Byte.x05) [] (zrepeat 8 Byte.x05).
Definition toy_enc : Encoder := mkEncoder (zrepeat 32 Byte.x05) toy_nonce toy_rng.
Definition toy_dec : Decoder :=
  mkDecoder (zrepeat 32 Byte.x05) toy_nonce toy_rng (zrepeat nonceLength Byte.x00) 0 false.
Definition toy_frame : bytes :=
  match (Encode 1448 (str "hi") toy_enc).1 with Ok f => f | _ => [] end.

Example toy_link : NewEncoder toy_key = Ok toy_enc /\ NewDecoder toy_key = Ok toy_dec.
Proof. vm_compute. done. Qed.

Lemma decode_segmented_witness :
  exists e' d', Encode 1448 (str "hi") toy_enc = (Ok toy_frame, e')
    /\ feed [ztake 1 toy_frame; zdrop 1 (ztake 7 toy_frame); zdrop 7 toy_frame]
            (mkD toy_dec [] [])
       = ([Err ErrAgain; Err ErrAgain; Ok (str "hi")], mkD d' [] [])
    /\ synced e' d'.
Proof.
  eexists. destruct (decode_segmented toy_enc toy_dec 1448 (str "hi") toy_frame
    (Encode 1448 (str "hi") toy_enc).2 []
    [ztake 1 toy_frame; zdrop 1 (ztake 7 toy_frame); zdrop 7 toy_frame]) as (d' & E & Hs).
  - split_and!; reflexivity.
  - vm_compute. reflexivity.
  - discriminate.
  - repeat constructor; vm_compute; discriminate.
  - vm_compute. reflexivity.
  - exists d'. split; [vm_compute; reflexivity|]. split; [exact E|exact Hs].
Defined.

Lemma decode_accepts_only_encodings_witness :
  let s := mkD toy_dec (toy_frame ++ str "next") [] in
  exists s', Decode s = (Ok (str "hi"), s')
    /\ exists f e', Encode MaximumSegmentLength (str "hi") toy_enc = (Ok f, e')
         /\ buf s = f ++ buf s' /\ synced e' (dec s').
Proof.
  intros s. exists (Decode s).2. split; [vm_compute; reflexivity|].
  apply (decode_accepts_only_encodings s); [reflexivity|vm_compute; reflexivity].
Defined.

Lemma encode_nonce_unique_witness :
  enc_wf toy_enc
  /\ NoDup (encode_nonces [(1448, str "a"); (3, str "b"); (1448, str "c")] toy_enc).
Proof.
  assert (Hw : enc_wf toy_enc) by (repeat split; vm_compute; congruence).
  split; [exact Hw|].
  apply (encode_nonce_unique toy_enc [(1448, str "a"); (3, str "b"); (1448, str "c")] Hw).
Defined.

Lemma decode_total_witness :
  let s := mkD toy_dec (str "garbage that is no frame at all") (zrepeat 8 Byte.x00) in
  decode_errors (Decode s).1 /\ dec_wf (dec (Decode s).2).
Proof.
  apply decode_total. split; [repeat split; vm_compute; congruence|].
  split; [reflexivity|by left].
Defined.

(** A length field that deobfuscates out of range. *)
Lemma decode_poisoned_witness :
  let s := mkD toy_dec [Byte.x00; Byte.xff] (zrepeat 64 Byte.x00) in
  is_ok (Decode s).1 = false
  /\ Forall (fun r => is_ok r = false) (feed [zrepeat 1500 Byte.x00; toy_frame] (Decode s).2).1.
Proof.
  apply (decode_poisoned (mkD toy_dec [Byte.x00; Byte.xff] (zrepeat 64 Byte.x00))
           (zrepeat 16 Byte.x05 ++ be_encode 8 1));
    [reflexivity|vm_compute; congruence|reflexivity|left; vm_compute; reflexivity].
Defined.
End witnesses.
