(* ===== verification/ProbDist.v ===== *)
(** * [common/probdist]: the weighted distributions

    Vose's alias tables over values drawn by a seeded DRBG.  [float64] is
    [spec_float] at precision 53 and emax 1024 (IEEE 754 binary64 with
    rounding to nearest even), so the tables evaluate as the code's do.  The
    rejection loops of [math/rand] draw from an arbitrary hash; [fuel] bounds
    their draws. *)
From Stdlib Require Import Floats.SpecFloat.
From S2P Require Import Prelude GoStd Rand Drbg.

Module ProbDist.

(** ** [float64] *)
Definition fadd := SFadd 53 1024.
Definition fsub := SFsub 53 1024.
Definition fmul := SFmul 53 1024.
Definition fdiv := SFdiv 53 1024.
Definition fone : spec_float := MathRand.one.
Definition fzero : spec_float := S754_zero false.
Definition flt (a b : spec_float) : bool :=
  match SFcompare a b with Some Lt => true | _ => false end.
Definition fle (a b : spec_float) : bool :=
  match SFcompare a b with Some Lt | Some Eq => true | _ => false end.

Definition minValues : Z := 1.
Definition maxValues : Z := 100.

Record WeightedDist := mkWDist {
  minValue : Z; maxValue : Z; biased : bool;
  values : list Z; weights : list spec_float;
  alias : list Z; prob : list spec_float
}.

Definition set_values v w :=
  mkWDist (minValue w) (maxValue w) (biased w) v (weights w) (alias w) (prob w).
Definition set_weights x w :=
  mkWDist (minValue w) (maxValue w) (biased w) (values w) x (alias w) (prob w).
Definition set_tables a p w :=
  mkWDist (minValue w) (maxValue w) (biased w) (values w) (weights w) a p.

(** ** Vose's tables *)

Record tables := mkTables {
  t_alias : list Z; t_prob : list spec_float; t_scaled : list spec_float;
  t_small : list nat; t_large : list nat
}.

(** [if scaled[i] < 1.0 { small.PushBack } else { large.PushBack }]. *)
Definition push_back (i : nat) (t : tables) : tables :=
  if flt (t_scaled t !!! i) fone
  then mkTables (t_alias t) (t_prob t) (t_scaled t) (t_small t ++ [i]) (t_large t)
  else mkTables (t_alias t) (t_prob t) (t_scaled t) (t_small t) (t_large t ++ [i]).

(** One iteration of the main loop. *)
Definition pair_step (t : tables) : option tables :=
  match t_small t, t_large t with
  | l :: small, g :: large =>
      let scaled := t_scaled t in
      let p := fsub (fadd (scaled !!! g) (scaled !!! l)) fone in
      Some (push_back g
        (mkTables (<[l := Z.of_nat g]> (t_alias t)) (<[l := scaled !!! l]> (t_prob t))
                  (<[g := p]> scaled) small large))
  | _, _ => None
  end.

Fixpoint pair_loop (fuel : nat) (t : tables) : tables :=
  match fuel with
  | O => t
  | S fuel => match pair_step t with None => t | Some t => pair_loop fuel t end
  end.

(** The last two loops: [prob[i] = 1.0] for what is left. *)
Definition drain (l : list nat) (p : list spec_float) : list spec_float :=
  foldl (fun p i => <[i := fone]> p) p l.

Definition init_tables (ws : list spec_float) : tables :=
  let n := length ws in
  let sum := foldl fadd fzero ws in
  let scaled := map (fun w => fdiv (fmul w (MathRand.float_of_Z (Z.of_nat n))) sum) ws in
  foldl (fun t i => push_back i t)
    (mkTables (replicate n 0) (replicate n fzero) scaled [] []) (seq 0 n).

Definition genTables (w : WeightedDist) : WeightedDist :=
  let t := init_tables (weights w) in
  let t := pair_loop (length (t_small t) + length (t_large t)) t in
  set_tables (t_alias t) (drain (t_small t) (drain (t_large t) (t_prob t))) w.

Section dist.
Context `{SipHash}.
Abbreviation G := (M Drbg.HashDrbg Drbg.error).

Definition genValues (fuel : nat) (w : WeightedDist) : G WeightedDist :=
  let nValues := (maxValue w + 1) - minValue w in
  values ← MathRand.Perm Drbg.Int63 fuel nValues;
  let nValues := if nValues <? minValues then minValues else nValues in
  let nValues := if nValues >? maxValues then maxValues else nValues in
  k ← MathRand.Intn Drbg.Int63 fuel nValues;
  mret (set_values (ztake (k + 1) values) w).

Fixpoint biased_weights (fuel n : nat) (culmProb : spec_float) : G (list spec_float) :=
  match n with
  | O => mret []
  | S n =>
      f ← MathRand.Float64 Drbg.Int63 fuel;
      let p := fmul (fsub fone culmProb) f in
      ps ← biased_weights fuel n (fadd culmProb p);
      mret (p :: ps)
  end.
Definition genBiasedWeights (fuel : nat) (w : WeightedDist) : G WeightedDist :=
  ps ← biased_weights fuel (length (values w)) fzero; mret (set_weights ps w).

Fixpoint uniform_weights (fuel n : nat) : G (list spec_float) :=
  match n with
  | O => mret []
  | S n =>
      p ← MathRand.Float64 Drbg.Int63 fuel;
      ps ← uniform_weights fuel n;
      mret (p :: ps)
  end.
Definition genUniformWeights (fuel : nat) (w : WeightedDist) : G WeightedDist :=
  ps ← uniform_weights fuel (length (values w)); mret (set_weights ps w).

Definition Reset_with (fuel : nat) (w : WeightedDist) : G WeightedDist :=
  w ← genValues fuel w;
  w ← (if biased w then genBiasedWeights fuel w else genUniformWeights fuel w);
  mret (genTables w).

(** [WeightedDist.Reset (seed)]. *)
Definition Reset (fuel : nat) (seed : bytes) (w : WeightedDist) : result Drbg.error WeightedDist :=
  match (Drbg.NewHashDrbg (Some seed) []).1 with
  | Ok g => (Reset_with fuel w g).1
  | Err e => Err e
  | Panic p => Panic p
  end.

Definition New (fuel : nat) (seed : bytes) (min max : Z) (biased : bool)
  : result Drbg.error WeightedDist :=
  if max <=? min then Panic "wDist.Reset(): min >= max"
  else Reset fuel seed (mkWDist min max biased [] [] [] []).
End dist.

(** An indexing expression [l[i]]. *)
Definition index {A} (i : Z) (l : list A) : Csrand.R A :=
  match (if 0 <=? i then l !! Z.to_nat i else None) with
  | Some v => mret v
  | None => panic "index out of range"
  end.

(** [WeightedDist.Sample], on the tape behind [csrand]. *)
Definition Sample (w : WeightedDist) : Csrand.R Z :=
  i ← Csrand.Intn (zlen (values w));
  f ← Csrand.Float64;
  p ← index i (prob w);
  idx ← (if fle f p then mret i else index i (alias w));
  v ← index idx (values w);
  mret (minValue w + v).

(** ** The tables index the values *)

Definition tables_wf (n : nat) (t : tables) : Prop :=
  length (t_alias t) = n /\ length (t_prob t) = n
  /\ Forall (fun a => 0 <= a < Z.of_nat n) (t_alias t)
  /\ Forall (fun i => (i < n)%nat) (t_small t) /\ Forall (fun i => (i < n)%nat) (t_large t).

Lemma push_back_wf n i t : tables_wf n t -> (i < n)%nat -> tables_wf n (push_back i t).
Proof.
  intros (? & ? & ? & ? & ?) Hi. unfold push_back.
  destruct (flt _ _); split_and!; cbn; rewrite ?Forall_app; auto.
Qed.

Lemma push_back_size i t :
  (length (t_small (push_back i t)) + length (t_large (push_back i t))
   = S (length (t_small t) + length (t_large t)))%nat.
Proof. unfold push_back. destruct (flt _ _); cbn; rewrite length_app; cbn; lia. Qed.

Lemma pair_step_wf n t t' :
  tables_wf n t -> pair_step t = Some t' ->
  tables_wf n t'
  /\ (length (t_small t) + length (t_large t)
      = S (length (t_small t') + length (t_large t')))%nat.
Proof.
  intros (Ha & Hp & Hr & Hs & Hl). unfold pair_step.
  destruct (t_small t) as [|l small] eqn:Es; [done|].
  destruct (t_large t) as [|g large] eqn:El; [done|].
  apply Forall_cons in Hs as [Hlt Hs]. apply Forall_cons in Hl as [Hgt Hl].
  intros [= <-]. split.
  - apply push_back_wf; [|done]. split_and!; cbn; rewrite ?length_insert; auto.
    apply Forall_insert; [done|lia].
  - rewrite push_back_size. cbn. lia.
Qed.

Lemma pair_loop_wf n fuel : forall t, tables_wf n t -> tables_wf n (pair_loop fuel t).
Proof.
  induction fuel as [|fuel IH]; intros t Hw; [done|]. cbn.
  destruct (pair_step t) eqn:E; [|done]. by apply IH; eapply pair_step_wf.
Qed.

(** The fuel of [genTables] is enough: its main loop ends by its condition. *)
Lemma pair_loop_done n fuel : forall t, tables_wf n t ->
  (length (t_small t) + length (t_large t) <= fuel)%nat ->
  pair_step (pair_loop fuel t) = None.
Proof.
  induction fuel as [|fuel IH]; intros t Hw Hf; cbn.
  - unfold pair_step. destruct (t_small t); [done|cbn in Hf; lia].
  - destruct (pair_step t) as [t'|] eqn:E; [|done].
    destruct (pair_step_wf _ _ _ Hw E). apply IH; [done|lia].
Qed.

Lemma drain_length l : forall p, length (drain l p) = length p.
Proof.
  unfold drain. induction l as [|i l IH]; intros p; cbn; [done|].
  by rewrite IH, length_insert.
Qed.

Lemma init_tables_wf ws : tables_wf (length ws) (init_tables ws).
Proof.
  unfold init_tables.
  assert (Hg : forall l t, tables_wf (length ws) t -> Forall (fun i => (i < length ws)%nat) l ->
    tables_wf (length ws) (foldl (fun t i => push_back i t) t l)).
  { induction l as [|i l IH]; intros t Hw Hf; cbn; [done|].
    apply Forall_cons in Hf as [? ?]. apply IH; [by apply push_back_wf|done]. }
  apply Hg.
  - split_and!; cbn; rewrite ?length_replicate; auto.
    destruct ws; cbn -[Z.of_nat]; [constructor|]. constructor; [lia|].
    apply Forall_replicate. lia.
  - rewrite Forall_forall. intros i Hi. apply elem_of_seq in Hi. lia.
Qed.

(** ** The invariant of a distribution *)

Record dist_wf (w : WeightedDist) : Prop := {
  wf_count : 1 <= zlen (values w) <= maxValues;
  wf_values : Forall (fun v => 0 <= v <= maxValue w - minValue w) (values w);
  wf_distinct : NoDup (values w);
  wf_weights : length (weights w) = length (values w);
  wf_prob : length (prob w) = length (values w);
  wf_alias_len : length (alias w) = length (values w);
  wf_alias : Forall (fun a => 0 <= a < zlen (values w)) (alias w)
}.

Lemma genTables_wf w :
  1 <= zlen (values w) <= maxValues ->
  Forall (fun v => 0 <= v <= maxValue w - minValue w) (values w) ->
  NoDup (values w) -> length (weights w) = length (values w) -> dist_wf (genTables w).
Proof.
  intros Hc Hv Hd Hw. unfold genTables.
  pose proof (pair_loop_wf (length (weights w))
    (length (t_small (init_tables (weights w))) + length (t_large (init_tables (weights w))))
    _ (init_tables_wf (weights w))) as (Ha & Hp & Hr & _).
  split; cbn; rewrite ?drain_length; try done; try congruence.
  unfold zlen. by rewrite <- Hw.
Qed.

Section proofs.
Context `{SipHash}.

Lemma genValues_Ok fuel w g w' g' :
  minValue w < maxValue w -> genValues fuel w g = (Ok w', g') ->
  minValue w' = minValue w /\ maxValue w' = maxValue w /\ biased w' = biased w
  /\ 1 <= zlen (values w') <= maxValues
  /\ Forall (fun v => 0 <= v <= maxValue w - minValue w) (values w') /\ NoDup (values w').
Proof.
  intros Hm. unfold genValues, mbind, M_bind, mret, M_ret.
  set (N := maxValue w + 1 - minValue w). replace (N <? minValues) with false
    by (symmetry; apply Z.ltb_ge; unfold N, minValues; lia).
  destruct (MathRand.Perm _ _ _ _) as [[vs|?|?] g1] eqn:Ep; try done.
  apply MathRand.Perm_Permutation in Ep; [|apply Drbg.drbg_Int63_ok|unfold N; lia].
  destruct (MathRand.Intn _ _ _ _) as [[k|?|?] g2] eqn:Ei; try done.
  apply MathRand.Intn_range in Ei; [|apply Drbg.drbg_Int63_ok].
  intros. simplify_eq. cbn.
  assert (Hl : zlen vs = N).
  { unfold zlen. rewrite Ep, length_seqZ. unfold N. lia. }
  assert (Hk : k < N /\ k < maxValues).
  { destruct (N >? maxValues) eqn:Eg; b2p; lia. }
  split_and!; try done.
  - rewrite zlen_ztake. lia.
  - rewrite zlen_ztake. lia.
  - apply Forall_take. rewrite Ep, Forall_forall. intros v Hv.
    apply elem_of_seqZ in Hv. unfold N in Hv. lia.
  - eapply sublist_NoDup; [|apply sublist_take]. rewrite Ep. apply NoDup_seqZ.
Qed.

Lemma biased_weights_length fuel n : forall c g ps g',
  biased_weights fuel n c g = (Ok ps, g') -> length ps = n.
Proof.
  induction n as [|n IH]; intros c g ps g'; cbn; unfold mbind, M_bind, mret, M_ret.
  - intros. by simplify_eq.
  - destruct (MathRand.Float64 _ _ _) as [[f|?|?] g1]; try done.
    destruct (biased_weights _ _ _ _) as [[qs|?|?] g2] eqn:E; intros; simplify_eq.
    apply IH in E. cbn. lia.
Qed.
Lemma uniform_weights_length fuel n : forall g ps g',
  uniform_weights fuel n g = (Ok ps, g') -> length ps = n.
Proof.
  induction n as [|n IH]; intros g ps g'; cbn; unfold mbind, M_bind, mret, M_ret.
  - intros. by simplify_eq.
  - destruct (MathRand.Float64 _ _ _) as [[f|?|?] g1]; try done.
    destruct (uniform_weights _ _ _) as [[qs|?|?] g2] eqn:E; intros; simplify_eq.
    apply IH in E. cbn. lia.
Qed.

Lemma Reset_with_wf fuel w g w' g' :
  minValue w < maxValue w -> Reset_with fuel w g = (Ok w', g') ->
  dist_wf w' /\ minValue w' = minValue w /\ maxValue w' = maxValue w
  /\ biased w' = biased w.
Proof.
  intros Hm. unfold Reset_with, mbind, M_bind.
  destruct (genValues _ _ _) as [[w1|?|?] g1] eqn:Ev; try done.
  apply genValues_Ok in Ev as (E1 & E2 & E3 & Hc & Hv & Hd); [|done].
  destruct (biased w1) eqn:Eb;
    [unfold genBiasedWeights|unfold genUniformWeights]; unfold mbind, M_bind, mret, M_ret;
    [destruct (biased_weights _ _ _ _) as [[ps|?|?] g2] eqn:Ew
    |destruct (uniform_weights _ _ _) as [[ps|?|?] g2] eqn:Ew]; try done;
    [apply biased_weights_length in Ew|apply uniform_weights_length in Ew];
    intros; simplify_eq;
    (split; [apply genTables_wf; cbn; rewrite ?E1, ?E2; done|split_and!; cbn; congruence]).
Qed.

Lemma Reset_wf fuel seed w w' :
  minValue w < maxValue w -> Reset fuel seed w = Ok w' ->
  dist_wf w' /\ minValue w' = minValue w /\ maxValue w' = maxValue w
  /\ biased w' = biased w.
Proof.
  intros Hm. unfold Reset. destruct (Drbg.NewHashDrbg _ _).1 as [g|?|?]; try done.
  destruct (Reset_with fuel w g) as [r g'] eqn:E. cbn. intros ->.
  by eapply Reset_with_wf.
Qed.

(** ** A reset ends with a distribution *)

(** The computation never fails; at most its fuel runs out. *)
Definition runs {A} (m : M Drbg.HashDrbg Drbg.error A) : Prop := forall s,
  match (m s).1 with Ok _ => True | Err _ => False | Panic w => w = out_of_fuel end.

Lemma runs_ret {A} (a : A) : runs (mret a).
Proof. done. Qed.
Lemma runs_Int63 : runs Drbg.Int63.
Proof. intros s. unfold Drbg.Int63. by destruct (Drbg.NextBlock s). Qed.
Lemma runs_bind_with {A B} (m : M Drbg.HashDrbg Drbg.error A) k (P : A -> Prop) :
  runs m -> (forall s a s', m s = (Ok a, s') -> P a) ->
  (forall a, P a -> runs (A := B) (k a)) -> runs (mbind k m).
Proof.
  intros Hm Hp Hk s. unfold mbind, M_bind. specialize (Hm s).
  destruct (m s) as [[a|e|w] s1] eqn:E; cbn in *; [|done..]. apply Hk. by eapply Hp.
Qed.
Lemma runs_bind {A B} (m : M Drbg.HashDrbg Drbg.error A) k :
  runs m -> (forall a, runs (A := B) (k a)) -> runs (mbind k m).
Proof. intros. by eapply (runs_bind_with m k (fun _ => True)); auto. Qed.

Lemma runs_draw src fuel max : runs src -> runs (MathRand.draw src fuel max).
Proof.
  intros Hs. induction fuel as [|fuel IH]; [done|]. apply runs_bind; [done|].
  intros v. by destruct (v >? max).
Qed.

Lemma runs_Intn fuel n : 0 < n -> runs (MathRand.Intn Drbg.Int63 fuel n).
Proof.
  intros Hn. assert (Hb : forall w src, runs src -> runs (MathRand.intn_bits w src fuel n)).
  { intros w src Hs. unfold MathRand.intn_bits. rewrite leb_false by done.
    destruct (_ =? 0); apply runs_bind; auto using runs_ret, runs_draw. }
  unfold MathRand.Intn. rewrite leb_false by done.
  destruct (_ <=? _); apply Hb; [|apply runs_Int63].
  apply runs_bind; [apply runs_Int63|]. intros. apply runs_ret.
Qed.

Lemma runs_Perm fuel n : runs (MathRand.Perm Drbg.Int63 fuel n).
Proof.
  unfold MathRand.Perm. generalize (zrepeat n 0).
  assert (Hi : 0 <= 0) by lia. revert Hi. generalize 0 at 2 3.
  induction (Z.to_nat n) as [|k IH]; intros i Hi m; [apply runs_ret|].
  apply runs_bind; [apply runs_Intn; lia|]. intros j. apply IH. lia.
Qed.

Lemma runs_Float64 fuel : runs (MathRand.Float64 Drbg.Int63 fuel).
Proof.
  induction fuel as [|fuel IH]; [done|]. apply runs_bind; [apply runs_Int63|].
  intros v. cbv zeta. by destruct (MathRand.float_eqb _ _).
Qed.

Lemma runs_biased fuel n : forall c, runs (biased_weights fuel n c).
Proof.
  induction n as [|n IH]; intros c; [apply runs_ret|].
  apply runs_bind; [apply runs_Float64|]. intros f. apply runs_bind; auto using runs_ret.
Qed.
Lemma runs_uniform fuel n : runs (uniform_weights fuel n).
Proof.
  induction n as [|n IH]; [apply runs_ret|].
  apply runs_bind; [apply runs_Float64|]. intros f. apply runs_bind; auto using runs_ret.
Qed.

Lemma runs_Reset fuel w : minValue w < maxValue w -> runs (Reset_with fuel w).
Proof.
  intros Hm. unfold Reset_with. apply runs_bind.
  - unfold genValues. apply runs_bind; [apply runs_Perm|]. intros vs.
    apply runs_bind; [|intros; apply runs_ret]. apply runs_Intn.
    unfold minValues, maxValues. rewrite ltb_false by lia.
    destruct (_ >? _); lia.
  - intros w1. apply runs_bind; [|intros; apply runs_ret].
    destruct (biased w1); apply runs_bind;
      auto using runs_biased, runs_uniform, runs_ret.
Qed.

Lemma Reset_cases fuel seed w :
  zlen seed = Drbg.SeedLength -> minValue w < maxValue w ->
  (exists w', Reset fuel seed w = Ok w') \/ Reset fuel seed w = Panic out_of_fuel.
Proof.
  intros Hs Hm. unfold Reset. rewrite Drbg.NewHashDrbg_Some by done. cbn [fst].
  pose proof (runs_Reset fuel w Hm
    (Drbg.mkDrbg (ztake 16 seed) [] (zdrop 16 seed))) as Hr.
  destruct (Reset_with _ _ _) as [[w'|e|p] g]; cbn in *; [eauto|done|subst; eauto].
Qed.

(** ** Properties *)

(** C40: a distribution built from any 24-byte seed is well formed: between
    one and a hundred distinct values that fall into [[min, max]] once
    [minValue] is added, one weight, one probability and one alias per value,
    every alias the index of a value; nothing but the rejection loops' fuel
    can keep [New] from returning it. *)
Theorem New_wf fuel seed min max bias :
  zlen seed = Drbg.SeedLength -> min < max ->
  match New fuel seed min max bias with
  | Ok w => dist_wf w /\ minValue w = min /\ maxValue w = max /\ biased w = bias
  | Err _ => False
  | Panic p => p = out_of_fuel
  end.
Proof.
  intros Hs Hm. unfold New. rewrite leb_false by done.
  pose (w0 := mkWDist min max bias [] [] [] []).
  destruct (Reset_cases fuel seed w0 Hs Hm) as [[w E]|E]; fold w0; rewrite E; [|done].
  by apply Reset_wf in E.
Qed.
End proofs.

Lemma draws_index {A} i (l : list A) (P : A -> Prop) :
  0 <= i < zlen l -> Forall P l -> Csrand.draws (index i l) P.
Proof.
  intros Hi Hf. unfold index. rewrite leb_true by lia.
  destruct (lookup_lt_is_Some_2 l (Z.to_nat i)) as [v E]; [unfold zlen in Hi; lia|].
  rewrite E. apply Csrand.draws_ret. by eapply Forall_lookup_1.
Qed.

Lemma Sample_draws w :
  dist_wf w -> Csrand.draws (Sample w) (fun v => minValue w <= v <= maxValue w).
Proof.
  intros Hw. pose proof (wf_count w Hw) as Hc. pose proof (wf_prob w Hw) as Hp.
  pose proof (wf_alias_len w Hw) as Ha.
  eapply Csrand.draws_bind; [apply Csrand.draws_Intn; lia|]. cbn. intros i Hi.
  eapply Csrand.draws_bind; [apply Csrand.draws_Float64|]. intros f _.
  eapply Csrand.draws_bind.
  { apply (draws_index _ _ (fun _ => True)); [unfold zlen in *; lia|].
    by apply Forall_true. }
  intros p _.
  apply Csrand.draws_bind with (P := fun idx => 0 <= idx < zlen (values w)).
  { destruct (fle f p); [by apply Csrand.draws_ret|].
    apply draws_index; [unfold zlen in *; lia|]. apply (wf_alias w Hw). }
  intros idx Hidx. eapply Csrand.draws_bind.
  { apply draws_index; [done|]. apply (wf_values w Hw). }
  cbn. intros v Hv. apply Csrand.draws_ret. lia.
Qed.

(** Sampling a well-formed distribution, with any entropy, returns a value
    within [[min, max]]; no index is out of range, no loop runs out of fuel, and
    the only failure is that of the system's entropy source. *)
Theorem Sample_in_range w :
  dist_wf w -> Csrand.draws (Sample w) (fun v => minValue w <= v <= maxValue w).
Proof.
  apply Sample_draws.
Qed.
End ProbDist.

Section witnesses.
Import ToySip ProbDist.
Definition toy_dist : WeightedDist := Eval vm_compute in
  match New 50 (zrepeat 24 Byte.x03) 21 40 true with
  | Ok w => w
  | _ => mkWDist 0 0 false [] [] [] []
  end.

Lemma New_wf_witness :
  zlen (values toy_dist) = 8
  /\ dist_wf toy_dist /\ minValue toy_dist = 21 /\ maxValue toy_dist = 40.
Proof.
  assert (E : New 50 (zrepeat 24 Byte.x03) 21 40 true = Ok toy_dist)
    by (vm_compute; reflexivity).
  pose proof (New_wf 50 (zrepeat 24 Byte.x03) 21 40 true ltac:(reflexivity) ltac:(lia)) as H.
  rewrite E in H. split; [vm_compute; reflexivity|]. tauto.
Defined.

(** A two-point distribution. *)
Definition toy_coin : WeightedDist :=
  mkWDist 10 20 false [3; 7] [fone; fone] [1; 0] [fone; fone].
Lemma Sample_in_range_witness :
  (Sample toy_coin (zrepeat 16 Byte.x01)).1 = Ok 17
  /\ Csrand.draws (Sample toy_coin) (fun v => 10 <= v <= 20).
Proof.
  split; [vm_compute; reflexivity|].
  apply (Sample_in_range toy_coin). split; cbn; try done.
  - repeat constructor; lia.
  - repeat constructor; set_solver.
  - repeat constructor; cbn; lia.
Defined.
End witnesses.
