(* ===== verification/ReplayFilter.v ===== *)
(** * [common/replayfilter]: the handshake replay filter

    The fifo's elements and the entries the map points to are the same
    objects; an entry is identified by its digest, which the invariant keeps
    unique.  Times are nanoseconds; [time.Time.Sub] saturates. *)
From stdpp Require Import sorting.
From S2P Require Import Prelude Rand Drbg.

Module ReplayFilter.

Definition maxFilterSize : Z := 100 * 1024.

Record entry := mkEntry { digest : Z; firstSeen : Z }.

#[export] Instance entry_eq_dec : EqDecision entry.
Proof. solve_decision. Defined.

Record ReplayFilter := mkFilter {
  filter : gmap Z entry;
  fifo : list entry;
  key0 : Z; key1 : Z;
  ttl : Z
}.

(** [time.Time.Sub]: a [time.Duration] is an [int64]. *)
Definition Sub (a b : Z) : Z := Z.max (- 2 ^ 63) (Z.min (2 ^ 63 - 1) (a - b)).

(** [New (ttl)]. *)
Definition New (ttl : Z) : Csrand.R ReplayFilter :=
  key ← Csrand.Bytes 16;
  mret (mkFilter ∅ [] (be_decode (ztake 8 key)) (be_decode (zdrop 8 key)) ttl).

(** The loop of [compactFilter]; [reset] is the empty pair. *)
Fixpoint compact (ttl now : Z) (fifo : list entry) (filter : gmap Z entry)
  : gmap Z entry * list entry :=
  match fifo with
  | [] => (filter, [])
  | ent :: eNext =>
      let remove := compact ttl now eNext (delete (digest ent) filter) in
      if (zlen fifo <? maxFilterSize) && (0 <? ttl) then
        let deltaT := Sub now (firstSeen ent) in
        if deltaT <? 0 then (∅, [])
        else if deltaT <? ttl then (filter, fifo)
        else remove
      else remove
  end.
Definition compactFilter (now : Z) (f : ReplayFilter) : ReplayFilter :=
  let '(m, l) := compact (ttl f) now (fifo f) (filter f) in
  mkFilter m l (key0 f) (key1 f) (ttl f).

Section filter.
Context `{SipHash}.

(** [TestAndSet (now, buf)]. *)
Definition TestAndSet (now : Z) (buf : bytes) (f : ReplayFilter) : bool * ReplayFilter :=
  let d := sip_Hash (key0 f) (key1 f) buf in
  let f := compactFilter now f in
  match filter f !! d with
  | Some _ => (true, f)
  | None =>
      let e := mkEntry d now in
      (false, mkFilter (<[d := e]> (filter f)) (fifo f ++ [e]) (key0 f) (key1 f) (ttl f))
  end.

(** A run of queries. *)
Fixpoint run (qs : list (Z * bytes)) (f : ReplayFilter) : list bool * ReplayFilter :=
  match qs with
  | [] => ([], f)
  | (now, buf) :: qs =>
      let '(b, f) := TestAndSet now buf f in
      let '(bs, f) := run qs f in (b :: bs, f)
  end.

(** ** Specification: what was seen and is younger than the time to live *)

Definition seen (ttl now d : Z) (hist : list (Z * Z)) : bool :=
  existsb (fun '(d', t) => (d' =? d) && (now - t <? ttl)) hist.

Fixpoint spec_run (k0 k1 ttl : Z) (qs : list (Z * bytes)) (hist : list (Z * Z)) : list bool :=
  match qs with
  | [] => []
  | (now, buf) :: qs =>
      let d := sip_Hash k0 k1 buf in
      let b := seen ttl now d hist in
      b :: spec_run k0 k1 ttl qs (if b then hist else (d, now) :: hist)
  end.
End filter.

(** ** Invariant *)

Record filter_wf (f : ReplayFilter) : Prop := {
  wf_nodup : NoDup (digest <$> fifo f);
  wf_map : forall d e, filter f !! d = Some e <-> e ∈ fifo f /\ digest e = d;
  wf_size : zlen (fifo f) <= maxFilterSize
}.

Lemma map_delete_head (m : gmap Z entry) e l :
  NoDup (digest <$> e :: l) ->
  (forall d x, m !! d = Some x <-> x ∈ e :: l /\ digest x = d) ->
  forall d x, delete (digest e) m !! d = Some x <-> x ∈ l /\ digest x = d.
Proof.
  intros Hn Hm d x. apply NoDup_cons in Hn as [Hni _].
  rewrite lookup_delete_Some, Hm, elem_of_cons. split.
  - intros (Hd & [->|Hx] & <-); done.
  - intros [Hx <-]. split_and!; [|by right|done].
    intros Heq. apply Hni. change (digest <$> l) with (map digest l). rewrite Heq.
    by apply list_elem_of_fmap_2.
Qed.

(** What compaction leaves: a suffix of the fifo, and the map that goes with
    it; unless the clock went backwards, exactly the expired entries (and one
    more when the filter is full) are gone. *)
Lemma compact_suffix ttl now l : forall m m' l',
  NoDup (digest <$> l) ->
  (forall d e, m !! d = Some e <-> e ∈ l /\ digest e = d) ->
  compact ttl now l m = (m', l') ->
  (exists k, l = k ++ l') \/ l' = [].
Proof.
  induction l as [|e l IH]; intros m m' l' Hn Hm; cbn.
  - intros. simplify_eq. by right.
  - assert (Hrec : compact ttl now l (delete (digest e) m) = (m', l') ->
      (exists k, e :: l = k ++ l') \/ l' = []).
    { intros E. apply IH in E; [|by inversion Hn|by apply map_delete_head].
      destruct E as [[k ->]| ->]; [left; by exists (e :: k)|by right]. }
    destruct (_ && _); [|done]. destruct (Sub _ _ <? 0); [intros; simplify_eq; by right|].
    destruct (Sub _ _ <? ttl); [|done]. intros. simplify_eq. left. by exists [].
Qed.

Lemma compact_map ttl now l : forall m m' l',
  NoDup (digest <$> l) ->
  (forall d e, m !! d = Some e <-> e ∈ l /\ digest e = d) ->
  compact ttl now l m = (m', l') ->
  NoDup (digest <$> l') /\ (forall d e, m' !! d = Some e <-> e ∈ l' /\ digest e = d)
  /\ (zlen l <= maxFilterSize -> zlen l' < maxFilterSize).
Proof.
  induction l as [|e l IH]; intros m m' l' Hn Hm; cbn [compact].
  - intros. simplify_eq. split_and!; [done..|].  intros. rewrite zlen_nil.
    unfold maxFilterSize. lia.
  - assert (Hrec : compact ttl now l (delete (digest e) m) = (m', l') ->
      NoDup (digest <$> l') /\ (forall d e, m' !! d = Some e <-> e ∈ l' /\ digest e = d)
      /\ (zlen (e :: l) <= maxFilterSize -> zlen l' < maxFilterSize)).
    { intros E. apply IH in E; [|by inversion Hn|by apply map_delete_head].
      destruct E as (? & ? & Hs). split_and!; [done..|].
      rewrite zlen_cons. intros. apply Hs. lia. }
    destruct (_ && _) eqn:Eb; [|exact Hrec]. destruct (Sub _ _ <? 0).
    { intros. simplify_eq. split_and!; [constructor| |].
      - intros d x. rewrite lookup_empty. split; [done|].
        intros [Hx _]. by apply not_elem_of_nil in Hx.
      - intros. rewrite zlen_nil. unfold maxFilterSize. lia. }
    destruct (Sub _ _ <? ttl); [|exact Hrec]. intros. simplify_eq. b2p. by split_and!.
Qed.

Lemma compactFilter_wf now f : filter_wf f -> filter_wf (compactFilter now f)
  /\ zlen (fifo (compactFilter now f)) < maxFilterSize.
Proof.
  intros [Hn Hm Hs]. unfold compactFilter.
  destruct (compact _ _ _ _) as [m l] eqn:E.
  apply compact_map in E as (? & ? & Hl); [|done..]. specialize (Hl Hs).
  split; [|done]. split; cbn; [done..|]. lia.
Qed.

Lemma filter_lookup_fifo f d :
  filter_wf f -> is_Some (filter f !! d) <-> d ∈ digest <$> fifo f.
Proof.
  intros Hw. rewrite list_elem_of_fmap. split.
  - intros [e He]. apply wf_map in He as [? <-]; [|done]. by exists e.
  - intros (e & -> & He). exists e. by apply wf_map.
Qed.

(** ** Simulation *)

Definition expired (ttl now : Z) (e : entry) : Prop := ttl <= now - firstSeen e.
Definition by_age (a b : entry) : Prop := firstSeen a <= firstSeen b.
Definition time_ok (t : Z) : Prop := 0 <= t < 2 ^ 63.

Lemma Sub_exact a b : time_ok a -> time_ok b -> Sub a b = a - b.
Proof. unfold time_ok, Sub. lia. Qed.

Lemma compact_expired ttl now l : forall m m' l',
  0 < ttl -> time_ok now ->
  Forall (fun e => time_ok (firstSeen e) /\ firstSeen e <= now) l ->
  StronglySorted by_age l -> zlen l < maxFilterSize ->
  compact ttl now l m = (m', l') ->
  exists k, l = k ++ l' /\ Forall (expired ttl now) k
            /\ Forall (fun e => ~ expired ttl now e) l'.
Proof.
  induction l as [|e l IH]; intros m m' l' Ht Hnow Hall Hsort Hlen; cbn [compact].
  - intros. simplify_eq. by exists [].
  - apply Forall_cons in Hall as [[Hte Hle] Hall].
    apply StronglySorted_inv in Hsort as [Hsort Hhd].
    rewrite (ltb_true (zlen (e :: l))), (ltb_true 0 ttl), Sub_exact by done. cbn [andb].
    rewrite (ltb_false (now - _)) by lia. destruct (_ - _ <? ttl) eqn:El; b2p.
    + intros. simplify_eq. exists []. split_and!; [done|constructor|].
      constructor; [unfold expired; lia|]. eapply Forall_impl; [exact Hhd|].
      unfold by_age, expired. cbn. lia.
    + intros E. apply IH in E as (k & -> & Hk & Hl'); [|done..|rewrite zlen_cons in Hlen; lia].
      exists (e :: k). split_and!; [done| |done]. constructor; [|done]. unfold expired. lia.
Qed.

(** The filter holds of the history what has not expired. *)
Record sim (k0 k1 tl now : Z) (f : ReplayFilter) (hist : list (Z * Z)) : Prop := {
  sim_wf : filter_wf f;
  sim_key : key0 f = k0 /\ key1 f = k1 /\ ttl f = tl;
  sim_fifo : Forall (fun e => time_ok (firstSeen e) /\ firstSeen e <= now
                              /\ (digest e, firstSeen e) ∈ hist) (fifo f);
  sim_sorted : StronglySorted by_age (fifo f);
  sim_hist : forall d t, (d, t) ∈ hist -> mkEntry d t ∈ fifo f \/ tl <= now - t
}.

Lemma seen_true tl now d hist :
  seen tl now d hist = true <-> exists t, (d, t) ∈ hist /\ now - t < tl.
Proof.
  unfold seen. rewrite existsb_exists. split.
  - intros ([d' t] & Hin & Hb). b2p. subst. exists t. split; [by apply list_elem_of_In|done].
  - intros (t & Hin & Hlt). exists (d, t). split; [by apply list_elem_of_In|].
    by rewrite Z.eqb_refl, ltb_true.
Qed.

Lemma sim_compact k0 k1 tl now now' f hist :
  0 < tl -> time_ok now' -> now <= now' -> sim k0 k1 tl now f hist ->
  zlen (fifo f) < maxFilterSize ->
  let f' := compactFilter now' f in
  sim k0 k1 tl now' f' hist /\ zlen (fifo f') <= zlen (fifo f)
  /\ Forall (fun e => ~ expired tl now' e) (fifo f').
Proof.
  intros Ht Hnow' Hle [Hw (E0 & E1 & Et) Hf Hs Hh] Hlen f'.
  pose proof (compactFilter_wf now' f Hw) as [Hw' _]. fold f' in Hw'.
  assert (Hf' : exists k, fifo f = k ++ fifo f' /\ Forall (expired tl now') k
            /\ Forall (fun e => ~ expired tl now' e) (fifo f')).
  { unfold f', compactFilter. destruct (compact _ _ _ _) as [m l] eqn:E. cbn.
    rewrite Et in E. eapply compact_expired; [exact Ht|exact Hnow'| |exact Hs|done|exact E].
    eapply Forall_impl; [exact Hf|]. cbn. intros e (? & ? & _). split; [done|lia]. }
  destruct Hf' as (k & Ek & Hexp & Hfresh). split_and!; [split|..]; auto.
  - unfold f', compactFilter. by destruct (compact _ _ _ _).
  - rewrite Ek in Hf. apply Forall_app in Hf as [_ Hf].
    eapply Forall_impl; [exact Hf|]. cbn. intros e (? & ? & ?). split_and!; [done|lia|done].
  - rewrite Ek in Hs. clear -Hs. induction k; [done|]. cbn in Hs.
    apply StronglySorted_inv in Hs as [? _]. auto.
  - intros d t Hin. apply Hh in Hin as [Hin|?]; [|right; lia].
    rewrite Ek in Hin. apply elem_of_app in Hin as [Hin|?]; [|by left].
    right. rewrite Forall_forall in Hexp. by apply Hexp in Hin.
  - rewrite Ek. zlia.
Qed.

Section proofs.
Context `{SipHash}.

Lemma TestAndSet_wf now buf f : filter_wf f -> filter_wf (TestAndSet now buf f).2.
Proof.
  intros Hw. unfold TestAndSet.
  destruct (compactFilter_wf now f Hw) as [Hw' Hlen].
  set (f' := compactFilter now f) in *. set (d := sip_Hash _ _ _).
  destruct (filter f' !! d) as [e|] eqn:E; [done|].
  assert (Hni : d ∉ digest <$> fifo f').
  { rewrite <- filter_lookup_fifo by done. rewrite E. by apply is_Some_None. }
  destruct Hw' as [Hn Hm Hs]. split; cbn.
  - rewrite fmap_app. apply NoDup_app. split_and!; [done| |apply NoDup_singleton].
    intros x Hx. cbn. rewrite list_elem_of_singleton. by intros ->.
  - intros d' e. rewrite elem_of_app, list_elem_of_singleton.
    destruct (decide (d = d')) as [<-|Hd].
    + rewrite lookup_insert_eq. split.
      * intros [= <-]. split; [by right|done].
      * intros [[Hin| ->] He]; [|done]. exfalso. apply Hni. rewrite <- He.
        by apply list_elem_of_fmap_2.
    + rewrite lookup_insert_ne by done. rewrite Hm. split.
      * intros [? ?]. auto.
      * intros [[?| ->] ?]; done.
  - zlia.
Qed.

Lemma TestAndSet_sim k0 k1 tl now now' buf f hist :
  0 < tl -> time_ok now' -> now <= now' -> sim k0 k1 tl now f hist ->
  zlen (fifo f) < maxFilterSize ->
  let d := sip_Hash k0 k1 buf in
  let b := seen tl now' d hist in
  exists f', TestAndSet now' buf f = (b, f')
    /\ sim k0 k1 tl now' f' (if b then hist else (d, now') :: hist)
    /\ zlen (fifo f') <= zlen (fifo f) + 1.
Proof.
  intros Ht Hnow' Hle Hsim Hlen d b.
  pose proof (TestAndSet_wf now' buf f (sim_wf _ _ _ _ _ _ Hsim)) as Hw2.
  destruct (sim_compact k0 k1 tl now now' f hist) as (Hsim' & Hlen' & Hfresh); [done..|].
  revert Hw2. unfold TestAndSet. destruct (sim_key _ _ _ _ _ _ Hsim) as (-> & -> & _). fold d.
  set (f' := compactFilter now' f) in *.
  assert (Hb : b = true <-> is_Some (filter f' !! d)).
  { unfold b. rewrite seen_true, filter_lookup_fifo by apply Hsim'. split.
    - intros (t & Hin & Hlt). destruct (sim_hist _ _ _ _ _ _ Hsim' d t Hin) as [Hin'|]; [|lia].
      change d with (digest (mkEntry d t)). by apply list_elem_of_fmap_2.
    - intros (e & -> & He)%list_elem_of_fmap. exists (firstSeen e).
      pose proof (sim_fifo _ _ _ _ _ _ Hsim') as Hf. rewrite Forall_forall in Hf, Hfresh.
      specialize (Hf e He). specialize (Hfresh e He). unfold expired in Hfresh.
      split; [tauto|lia]. }
  destruct (filter f' !! d) as [e|] eqn:E.
  - intros _. destruct b; [|exfalso; assert (false = true); [by apply Hb; eauto|done]].
    exists f'. split_and!; [done|done|lia].
  - intros Hw2. destruct b; [exfalso; by destruct (proj1 Hb eq_refl)|].
    eexists. split; [done|]. destruct Hsim' as [Hw' (E0 & E1 & Et) Hf Hs Hh].
    split; [split|]; cbn; [done|done| | | |].
    + apply Forall_app. split.
      * eapply Forall_impl; [exact Hf|]. cbn. intros x (? & ? & ?).
        split_and!; [done|done|]. by apply elem_of_cons; right.
      * apply Forall_singleton. cbn. split_and!; [done|lia|]. by apply elem_of_cons; left.
    + clear -Hf Hs. induction (fifo f') as [|x l IH]; cbn; [repeat constructor|].
      apply StronglySorted_inv in Hs as [? Hx]. apply Forall_cons in Hf as [(? & ? & ?) Hf].
      constructor; [by apply IH|]. apply Forall_app. split; [done|]. by repeat constructor.
    + intros d' t [[= -> ->]|Hin]%elem_of_cons.
      * left. apply elem_of_app. right. by apply list_elem_of_singleton.
      * apply Hh in Hin as [?|?]; [|by right]. left. apply elem_of_app. by left.
    + rewrite zlen_app. change (zlen [_]) with 1. lia.
Qed.

Lemma run_sim k0 k1 tl qs : forall now f hist,
  0 < tl -> Sorted Z.le (now :: (fst <$> qs)) -> Forall (fun q => time_ok q.1) qs ->
  sim k0 k1 tl now f hist -> zlen (fifo f) + zlen qs <= maxFilterSize ->
  (run qs f).1 = spec_run k0 k1 tl qs hist.
Proof.
  induction qs as [|[now' buf] qs IH]; intros now f hist Ht Hsort Hok Hsim Hlen; [done|].
  cbn [run spec_run]. apply Sorted_inv in Hsort as [Hsort Hhd]. cbn in Hhd.
  apply HdRel_inv in Hhd. apply Forall_cons in Hok as [Hn Hok]. cbn in Hn.
  rewrite zlen_cons in Hlen.
  destruct (TestAndSet_sim k0 k1 tl now now' buf f hist) as (f' & E & Hsim' & Hl);
    [done..|zlen_pos; lia|]. rewrite E.
  specialize (IH now' f' _ Ht Hsort Hok Hsim' ltac:(lia)).
  destruct (run qs f') as [bs f'']. cbn in *. by f_equal.
Qed.

Lemma New_sim tl tape f tape' :
  New tl tape = (Ok f, tape') -> sim (key0 f) (key1 f) tl 0 f [].
Proof.
  unfold New, mbind, M_bind, mret, M_ret.
  destruct (Csrand.Bytes 16 tape) as [[k|?|?] t]; try done. intros E. simplify_eq.
  split; cbn; [split; cbn|..]; try done; try by constructor.
  - intros d e. rewrite lookup_empty. split; [done|].
    intros [Hx _]. by apply not_elem_of_nil in Hx.
  - intros d t' Hx. by apply not_elem_of_nil in Hx.
Qed.

(** A run only adds to the history. *)
Lemma run_sim_state k0 k1 tl qs : forall now last f hist,
  0 < tl -> Sorted Z.le (now :: (fst <$> qs) ++ [last]) ->
  Forall (fun q => time_ok q.1) qs ->
  sim k0 k1 tl now f hist -> zlen (fifo f) + zlen qs <= maxFilterSize ->
  exists now' hist', now' <= last /\ sim k0 k1 tl now' (run qs f).2 hist'
    /\ (forall x, x ∈ hist -> x ∈ hist')
    /\ zlen (fifo (run qs f).2) <= zlen (fifo f) + zlen qs.
Proof.
  induction qs as [|[now' buf] qs IH]; intros now last f hist Ht Hsort Hok Hsim Hlen.
  { exists now, hist. cbn. apply Sorted_inv in Hsort as [_ Hhd].
    apply HdRel_inv in Hhd. split_and!; [done|done|done|]. zlia. }
  cbn [run]. apply Sorted_inv in Hsort as [Hsort Hhd]. cbn in Hhd.
  apply HdRel_inv in Hhd. apply Forall_cons in Hok as [Hn Hok]. cbn in Hn.
  rewrite zlen_cons in Hlen.
  destruct (TestAndSet_sim k0 k1 tl now now' buf f hist) as (f' & E & Hsim' & Hl);
    [done..|zlen_pos; lia|]. rewrite E.
  destruct (IH now' last f' _ Ht Hsort Hok Hsim' ltac:(lia)) as (n2 & h2 & ? & Hs2 & Hsub & Hl2).
  destruct (run qs f') as [bs f'']. cbn [fst snd] in *. exists n2, h2.
  split_and!; [done|done| |rewrite zlen_cons; lia].
  intros x Hx. apply Hsub. destruct (seen _ _ _ _); [done|]. by apply elem_of_cons; right.
Qed.

(** The filter keeps its invariant for any clock and any history: the
    map and the fifo hold the same entries, one per digest, never more than
    [maxFilterSize] of them; and a query always leaves its own digest in the
    filter, so that an immediate repetition is reported. *)
Theorem TestAndSet_invariant now buf f :
  filter_wf f ->
  filter_wf (TestAndSet now buf f).2
  /\ is_Some (filter (TestAndSet now buf f).2 !! sip_Hash (key0 f) (key1 f) buf).
Proof.
  intros Hw. split; [by apply TestAndSet_wf|]. unfold TestAndSet.
  destruct (filter (compactFilter now f) !! _) as [e|] eqn:E; cbn; [by rewrite E|].
  by rewrite lookup_insert_eq.
Qed.

(** C34: refinement of the specification of a replay filter: on a clock that
    does not go backwards and below its capacity, a fresh filter answers every
    query of a run exactly as the unbounded history does: [true] when the same
    digest was recorded less than [ttl] ago. *)
Theorem replay_filter_refines tl tape f tape' qs :
  New tl tape = (Ok f, tape') -> 0 < tl ->
  Sorted Z.le (fst <$> qs) -> Forall (fun q => time_ok q.1) qs ->
  zlen qs <= maxFilterSize ->
  (run qs f).1 = spec_run (key0 f) (key1 f) tl qs [].
Proof.
  intros E Ht Hs Hok Hlen. pose proof (New_sim _ _ _ _ E) as Hsim.
  assert (Hf : fifo f = []).
  { revert E. unfold New, mbind, M_bind, mret, M_ret.
    destruct (Csrand.Bytes 16 tape) as [[k|?|?] t]; try done. intros. by simplify_eq. }
  apply (run_sim _ _ _ _ 0); [done| |done|done|by rewrite Hf].
  destruct qs as [|q qs]; [by repeat constructor|]. cbn in *. constructor; [done|].
  apply Forall_cons in Hok as [[? _] _]. by constructor.
Qed.
End proofs.
End ReplayFilter.

Section witnesses.
Import ToySip ReplayFilter.
Definition toy_filter : ReplayFilter :=
  match (New 100 (zrepeat 16 Byte.x09)).1 with Ok f => f | _ => mkFilter ∅ [] 0 0 0 end.

Lemma TestAndSet_invariant_witness :
  filter_wf (TestAndSet 5 (str "mac") toy_filter).2
  /\ is_Some (filter (TestAndSet 5 (str "mac") toy_filter).2
                !! sip_Hash (key0 toy_filter) (key1 toy_filter) (str "mac")).
Proof.
  apply TestAndSet_invariant. split; cbn.
  - constructor.
  - intros d e. split; [discriminate|]. intros [Hx _]. inversion Hx.
  - discriminate.
Defined.

Lemma replay_filter_refines_witness :
  let qs := [(5, str "a"); (50, str "b"); (60, str "a"); (110, str "a"); (300, str "b")] in
  (run qs toy_filter).1 = spec_run (key0 toy_filter) (key1 toy_filter) 100 qs []
  /\ (run qs toy_filter).1 = [false; false; true; false; false].
Proof.
  intros qs. split.
  - apply (replay_filter_refines 100 (zrepeat 16 Byte.x09) toy_filter []); cbn.
    + vm_compute. reflexivity.
    + reflexivity.
    + repeat constructor; cbn; lia.
    + repeat constructor; cbn; lia.
    + vm_compute. discriminate.
  - vm_compute. reflexivity.
Defined.
End witnesses.
