(* ===== verification/Packet.v ===== *)
(** * The packet layer shared by the transports

    [makePacket] and the loop of [readPackets] of [transports/*/packet.go] are
    the same code in every transport except for the maximum payload and for
    what is done with a decoded packet.  Here is the common part, over a
    [handler]; the transports' files instantiate it. *)
From S2P Require Import Prelude GoStd Rand Drbg Framing.

Module Packet.

Definition packetOverhead : Z := 2 + 1.
Definition consumeReadSize : Z := Framing.MaximumSegmentLength * 16.

(** The errors of the network connection. *)
Inductive net_error := EOF | NetFailure (why : String.string).

Inductive error :=
| FrameError (e : Framing.error)
| InvalidPacketLengthError (n : Z)
| InvalidPayloadLengthError (n : Z)
| SeedError (e : Drbg.error)
| NetError (e : net_error)
| ErrShortWrite.

(** A packet: its type, its payload and the length of its padding. *)
Record packet := mkPacket { pktType : Z; data : bytes; padLen : Z }.

(** [pkt[:pktLen]] as [makePacket] fills it. *)
Definition packet_bytes (p : packet) : bytes :=
  z2b (pktType p) :: be_encode 2 (u16 (zlen (data p))) ++ data p
  ++ zrepeat (padLen p) Byte.x00.

(** A handler gets a decoded packet: its type, its payload and the bytes
    behind it; its result is the value of [err] at the end of the iteration. *)
Definition handler (A : Type) : Type := Z -> bytes -> bytes -> M A error unit.

Record conn (A : Type) := mkConn { rx : Framing.dstate; app : A }.
Arguments mkConn {A} rx app.
Arguments rx {A} c.
Arguments app {A} c.

Section packets.
Context `{SipHash} `{SecretBox}.

(** [makePacket] with [maxPacketPayloadLength = max], writing the frame to a
    [bytes.Buffer]; the value is what was written. *)
Definition makePacket (max : Z) (p : packet) : M Framing.Encoder error bytes :=
  if zlen (data p) + padLen p >? max then panic "BUG: makePacket() len(data) + padLen"
  else map_err FrameError (Framing.Encode Framing.MaximumSegmentLength (packet_bytes p)).

Context {A : Type} (handle : handler A).

(** The loop of [readPackets]; [err] is the named result. *)
Fixpoint read_loop (fuel : nat) (err : result error unit) (c : conn A)
  : result error unit * conn A :=
  match fuel with
  | O => (Panic out_of_fuel, c)
  | S fuel =>
      if zlen (Framing.buf (rx c)) =? 0 then (err, c)
      else
        match Framing.Decode (rx c) with
        | (Err e, r) => (Err (FrameError e), mkConn r (app c))
        | (Panic w, r) => (Panic w, mkConn r (app c))
        | (Ok pkt, r) =>
            if zlen pkt <? packetOverhead then
              (Err (InvalidPacketLengthError (zlen pkt)), mkConn r (app c))
            else
              let pktType := be_decode (ztake 1 pkt) in
              let payloadLen := be_decode (ztake 2 (zdrop 1 pkt)) in
              if payloadLen >? zlen pkt - packetOverhead then
                (Err (InvalidPayloadLengthError payloadLen), mkConn r (app c))
              else
                let payload := ztake payloadLen (zdrop 3 pkt) in
                match handle pktType payload (zdrop (3 + payloadLen) pkt) (app c) with
                | (Panic w, a) => (Panic w, mkConn r a)
                | (err, a) => read_loop fuel err (mkConn r a)
                end
        end
  end.

(** [readPackets] when the network's [Read] returns [rd] and [rdErr]. *)
Definition readPackets (rd : bytes) (rdErr : option net_error) (c : conn A)
  : result error unit * conn A :=
  let r := Framing.extend rd (rx c) in
  match read_loop (S (length (Framing.buf r))) (Ok tt) (mkConn r (app c)), rdErr with
  | (Panic w, c), _ => (Panic w, c)
  | (_, c), Some e => (Err (NetError e), c)
  | (err, c), None => (err, c)
  end.

(** ** The sender's and the receiver's view of a sequence of packets *)

(** All packets of a list, one after the other. *)
Fixpoint makePackets (max : Z) (ps : list packet) : M Framing.Encoder error bytes :=
  match ps with
  | [] => mret []
  | p :: ps => f ← makePacket max p; fs ← makePackets max ps; mret (f ++ fs)
  end.

(** The handlers of a list of packets, in order. *)
Fixpoint deliver (ps : list packet) (err : result error unit) (a : A)
  : result error unit * A :=
  match ps with
  | [] => (err, a)
  | p :: ps =>
      match handle (pktType p) (data p) (zrepeat (padLen p) Byte.x00) a with
      | (Panic w, a) => (Panic w, a)
      | (err, a) => deliver ps err a
      end
  end.

(** Successive calls of [readPackets] on what the network delivers. *)
Fixpoint readAll (chunks : list bytes) (c : conn A)
  : list (result error unit) * conn A :=
  match chunks with
  | [] => ([], c)
  | x :: chunks =>
      let '(r, c) := readPackets x None c in
      let '(rs, c) := readAll chunks c in (r :: rs, c)
  end.
End packets.

(** ** Lemmas *)

Definition packet_ok (max : Z) (p : packet) : Prop :=
  0 <= pktType p < 256 /\ 0 <= padLen p /\ zlen (data p) + padLen p <= max.

Lemma zlen_packet_bytes p :
  0 <= padLen p -> zlen (packet_bytes p) = packetOverhead + zlen (data p) + padLen p.
Proof.
  intros Hp. unfold packet_bytes, packetOverhead.
  rewrite zlen_cons, !zlen_app, zlen_be_encode, zlen_zrepeat. lia.
Qed.

(** A packet as it is on the wire: behind the payload anything may follow, the
    padding in most transports. *)
Record raw := mkRaw { rtype : Z; rdata : bytes; rrest : bytes }.
Definition raw_bytes (p : raw) : bytes :=
  z2b (rtype p) :: be_encode 2 (u16 (zlen (rdata p))) ++ rdata p ++ rrest p.
Definition raw_ok (p : raw) : Prop :=
  0 <= rtype p < 256
  /\ zlen (rdata p) + zlen (rrest p) <= Framing.MaximumFramePayloadLength - packetOverhead.
Definition raw_of (p : packet) : raw := mkRaw (pktType p) (data p) (zrepeat (padLen p) Byte.x00).

Lemma raw_of_bytes p : packet_bytes p = raw_bytes (raw_of p).
Proof. done. Qed.
Lemma raw_of_ok max p :
  max <= Framing.MaximumFramePayloadLength - packetOverhead -> packet_ok max p -> raw_ok (raw_of p).
Proof. intros Hm (Ht & Hp & Hl). split; [done|]. cbn. rewrite zlen_zrepeat. lia. Qed.

Lemma zlen_raw_bytes p : zlen (raw_bytes p) = packetOverhead + zlen (rdata p) + zlen (rrest p).
Proof.
  unfold raw_bytes, packetOverhead. rewrite zlen_cons, !zlen_app, zlen_be_encode. lia.
Qed.

(** Decoding a packet's bytes gives its fields back. *)
Lemma raw_bytes_fields p :
  raw_ok p ->
  let b := raw_bytes p in
  be_decode (ztake 1 b) = rtype p
  /\ be_decode (ztake 2 (zdrop 1 b)) = zlen (rdata p)
  /\ ztake (zlen (rdata p)) (zdrop 3 b) = rdata p
  /\ zdrop (3 + zlen (rdata p)) b = rrest p.
Proof.
  intros (Ht & Hl) b. unfold b, raw_bytes.
  assert (Hd : u16 (zlen (rdata p)) = zlen (rdata p)).
  { unfold u16. apply Z.mod_small. zlen_pos. unfold Framing.MaximumFramePayloadLength,
      Framing.MaximumSegmentLength, Framing.FrameOverhead, Framing.lengthLength, Overhead,
      packetOverhead in *. lia. }
  assert (He : zlen (be_encode 2 (u16 (zlen (rdata p)))) = 2) by apply zlen_be_encode.
  split_and!.
  - change (ztake 1 (?x :: _)) with [x]. rewrite be_decode_single, b2z_z2b.
    by apply Z.mod_small.
  - change (zdrop 1 (?x :: ?l)) with (drop 0 l). rewrite drop_0, ztake_app by done.
    rewrite be_decode_encode, Hd. apply Z.mod_small. split; [apply zlen_nonneg|].
    change (256 ^ Z.of_nat 2) with (2 ^ 16). unfold u16 in Hd. rewrite <- Hd.
    apply Z.mod_pos_bound. lia.
  - change (?x :: be_encode 2 ?y ++ ?z) with ([x] ++ be_encode 2 y ++ z).
    rewrite (zdrop_app_ge 3 [z2b (rtype p)]) by done.
    rewrite (zdrop_app (3 - _)) by (rewrite He; done). by apply ztake_app.
  - change (?x :: be_encode 2 ?y ++ ?z) with ([x] ++ be_encode 2 y ++ z).
    rewrite (zdrop_app_ge _ [z2b (rtype p)]) by (change (zlen [_]) with 1; zlia).
    change (zlen [_]) with 1. rewrite zdrop_app_ge, He by (rewrite He; zlia).
    apply zdrop_app. lia.
Qed.

Section raw_deliver.
Context {A : Type} (handle : handler A).
(** The handlers of a list of raw packets, in order. *)
Fixpoint deliver_raw (ps : list raw) (err : result error unit) (a : A)
  : result error unit * A :=
  match ps with
  | [] => (err, a)
  | p :: ps =>
      match handle (rtype p) (rdata p) (rrest p) a with
      | (Panic w, a) => (Panic w, a)
      | (err, a) => deliver_raw ps err a
      end
  end.
End raw_deliver.

Section raws.
Context `{SipHashLaws} `{SecretBoxLaws}.

(** The frames of a list of packets, with the nonces they are sealed under. *)
Fixpoint frames (ps : list raw) (e : Framing.Encoder) : option (list bytes) :=
  match ps with
  | [] => Some []
  | p :: ps =>
      match Framing.nonce_bytes (Framing.enonce e) with
      | Ok n =>
          fs ← frames ps (Framing.encoded e);
          Some (Framing.frame_of e n (raw_bytes p) :: fs)
      | _ => None
      end
  end.
Fixpoint encoded_n (n : nat) (e : Framing.Encoder) : Framing.Encoder :=
  match n with O => e | S n => encoded_n n (Framing.encoded e) end.

Lemma raw_fits p : raw_ok p -> zlen (raw_bytes p) <= Framing.MaximumFramePayloadLength.
Proof. intros (_ & Hl). rewrite zlen_raw_bytes. lia. Qed.

(** All packets of a list, sealed one after the other. *)
Fixpoint encodeAll (ps : list raw) : M Framing.Encoder error bytes :=
  match ps with
  | [] => mret []
  | p :: ps =>
      f ← map_err FrameError (Framing.Encode Framing.MaximumSegmentLength (raw_bytes p));
      fs ← encodeAll ps; mret (f ++ fs)
  end.

Lemma encode_cases p e r e' :
  raw_ok p -> map_err FrameError (Framing.Encode Framing.MaximumSegmentLength (raw_bytes p)) e = (r, e') ->
  (exists n, Framing.nonce_bytes (Framing.enonce e) = Ok n
     /\ r = Ok (Framing.frame_of e n (raw_bytes p)) /\ e' = Framing.encoded e)
  \/ (r = Err (FrameError Framing.ErrNonceCounterWrapped) /\ e' = e).
Proof.
  intros Hok. pose proof (raw_fits _ Hok) as Hfit.
  unfold map_err. destruct (Framing.Encode _ _ _) as [r1 e1] eqn:E.
  apply Framing.Encode_inv in E as [(_&_&?)|[(_&_&?)|[(->&->&_)|(n&En&->&->&_)]]].
  - lia.
  - unfold Framing.MaximumFramePayloadLength in Hfit. lia.
  - intros. simplify_eq. by right.
  - intros. simplify_eq. left. eauto.
Qed.

Lemma encodeAll_frames ps : forall e w e',
  Forall raw_ok ps -> encodeAll ps e = (Ok w, e') ->
  exists fs, frames ps e = Some fs /\ w = concat fs /\ e' = encoded_n (length ps) e.
Proof.
  induction ps as [|p ps IH]; intros e w e' Hok; cbn [encodeAll frames].
  - unfold mret, M_ret. intros. simplify_eq. by exists [].
  - apply Forall_cons in Hok as [Hp Hok]. unfold mbind, M_bind, mret, M_ret.
    destruct (map_err _ _ e) as [r e1] eqn:E.
    apply encode_cases in E as [(n & En & -> & ->)|[-> ->]]; [|by intros; simplify_eq|done..].
    destruct (encodeAll ps _) as [[ws|?|?] e2] eqn:E2; intros; simplify_eq.
    apply IH in E2 as (fs & Ef & -> & ->); [|done..].
    rewrite En. cbn. rewrite Ef. cbn. eauto.
Qed.

(** The receiver's decoder after a partial frame [a]: it behaves as a fresh
    decoder whose receive buffer starts with [a]. *)
Definition pending (d : Framing.Decoder) (t a : bytes) (r : Framing.dstate) : Prop :=
  (forall x, Framing.Decode (Framing.extend x r) = Framing.Decode (Framing.mkD d (a ++ x) t))
  /\ zlen (Framing.buf r) <= zlen a.

Lemma pending_start d b t : pending d t b (Framing.mkD d b t).
Proof. by split. Qed.

Lemma pending_again d t a c r :
  pending d t a r -> (Framing.Decode (Framing.extend c r)).1 = Err Framing.ErrAgain ->
  zlen (Framing.buf (Framing.Decode (Framing.extend c r)).2) <= zlen (a ++ c) ->
  pending d t (a ++ c) (Framing.Decode (Framing.extend c r)).2.
Proof.
  intros [Hx _] Ha Hl. split; [|done]. intros x.
  rewrite Framing.Decode_resume by done.
  rewrite Framing.extend_extend, Hx. by rewrite app_assoc.
Qed.

Definition strict (a : bytes) (fs : list bytes) : Prop :=
  match fs with [] => a = [] | f :: _ => zlen a < zlen f end.

Lemma strict_nil ps e fs : frames ps e = Some fs -> strict [] fs.
Proof.
  destruct ps as [|p ps]; cbn; [by intros [= <-]|].
  destruct (Framing.nonce_bytes _); [|done..]. destruct (frames ps _); [|done].
  cbn. intros [= <-]. cbn. rewrite Framing.frame_of_zlen, zlen_nil.
  unfold Framing.FrameOverhead, Framing.lengthLength, Overhead. zlia.
Qed.

Context {A : Type} (handle : handler A).

(** One decoded packet of the loop. *)
Lemma read_loop_packet fuel err r a p r' :
  raw_ok p -> zlen (Framing.buf r) <> 0 ->
  Framing.Decode r = (Ok (raw_bytes p), r') ->
  read_loop handle (S fuel) err (mkConn r a)
  = match handle (rtype p) (rdata p) (rrest p) a with
    | (Panic w, a) => (Panic w, mkConn r' a)
    | (err, a) => read_loop handle fuel err (mkConn r' a)
    end.
Proof.
  intros Hok Hb E. destruct (raw_bytes_fields p Hok) as (Ft & Fl & Fd & Fz).
  cbn [read_loop rx app].
  rewrite eqb_false, E by done.
  rewrite ltb_false by (rewrite zlen_raw_bytes; unfold packetOverhead; zlia).
  rewrite Ft, Fl, gtb_false by (rewrite zlen_raw_bytes; unfold packetOverhead; zlia).
  by rewrite Fd, Fz.
Qed.

(** What the loop has done when it returns: the packets [ps1] were delivered,
    the rest [ps2] is still to come, with the bytes [a'] of its first frame. *)
Definition loop_post (ps : list raw) (e : Framing.Encoder) (t rest : bytes)
    (err : result error unit) (a0 : A) (out : result error unit * conn A) : Prop :=
  exists ps1 ps2 fs2 a' d',
    ps = ps1 ++ ps2
    /\ app out.2 = (deliver_raw handle ps1 err a0).2
    /\ (out.1 = (deliver_raw handle ps1 err a0).1 \/ out.1 = Err (FrameError Framing.ErrAgain))
    /\ frames ps2 (encoded_n (length ps1) e) = Some fs2
    /\ Framing.synced (encoded_n (length ps1) e) d'
    /\ pending d' t a' (rx out.2) /\ a' ++ rest = concat fs2 /\ strict a' fs2.

(** Part of the first frame is missing: nothing is delivered, and the bytes
    read so far are kept. *)
Lemma loop_partial t rest p ps e d a r c k n fs' err a0 fuel :
  let f := Framing.frame_of e n (raw_bytes p) in
  Framing.synced e d -> Framing.nonce_bytes (Framing.enonce e) = Ok n ->
  frames ps (Framing.encoded e) = Some fs' -> raw_ok p ->
  pending d t a r -> f = (a ++ c) ++ k -> k <> [] -> rest = k ++ concat fs' ->
  loop_post (p :: ps) e t rest err a0
    (read_loop handle (S fuel) err (mkConn (Framing.extend c r) a0)).
Proof.
  intros f Hs En Ef Hpk Hp Hfk Hkn Hk. pose proof (raw_fits _ Hpk) as Hfit.
  assert (Hag : (Framing.Decode (Framing.extend c r)).1 = Err Framing.ErrAgain).
  { rewrite (proj1 Hp). by eapply Framing.Decode_frame_prefix. }
  assert (Hst' : zlen (a ++ c) < zlen f).
  { rewrite Hfk, !zlen_app. apply Z.lt_add_pos_r.
    destruct k; [done|]. rewrite zlen_cons. zlia. }
  cbn [read_loop rx].
  destruct (zlen (Framing.buf (Framing.extend c r)) =? 0) eqn:E0; b2p.
  - apply zlen_0 in E0. cbn in E0. apply app_nil in E0 as [_ ->].
    rewrite Framing.extend_nil in *. rewrite app_nil_r in *.
    exists [], (p :: ps), (f :: fs'), a, d. cbn. rewrite En, Ef. cbn.
    split_and!; first [done|by left|by rewrite Hk, Hfk, !app_assoc].
  - pose proof (Framing.Decode_buf_le (Framing.extend c r)) as Hle.
    pose proof (pending_again d t a c r Hp Hag) as Hpa.
    destruct (Framing.Decode (Framing.extend c r)) as [rr r'] eqn:Ed.
    cbn in Hag. subst rr. cbn [app]. cbn in Hle, Hpa.
    exists [], (p :: ps), (f :: fs'), (a ++ c), d. cbn. rewrite En, Ef. cbn.
    assert (Hl : zlen (Framing.buf r') <= zlen (a ++ c))
      by (destruct Hp as [_ Hl]; rewrite zlen_app in *; lia).
    specialize (Hpa Hl).
    split_and!; first [done|by right|by rewrite Hk, Hfk, !app_assoc].
Qed.

(** One more packet in front of what the loop has done. *)
Lemma loop_post_cons t rest p ps e err err1 a0 a1 out :
  handle (rtype p) (rdata p) (rrest p) a0 = (err1, a1) ->
  is_panic err1 = false ->
  loop_post ps (Framing.encoded e) t rest err1 a1 out ->
  loop_post (p :: ps) e t rest err a0 out.
Proof.
  intros Eh He1 (ps1 & ps2 & fs2 & a' & d2 & -> & Ha & Hr & Hf2 & Hs2 & Hp2 & Hc2 & Hst2).
  exists (p :: ps1), ps2, fs2, a', d2. cbn [deliver_raw]. rewrite Eh.
  destruct err1; [| |done]; done.
Qed.

(** The bytes at hand hold the first frame, or a proper prefix of it. *)
Lemma first_frame_cases (f x rest cs : bytes) :
  x ++ rest = f ++ cs ->
  (exists k, x = f ++ k /\ cs = k ++ rest) \/ (exists k, f = x ++ k /\ k <> [] /\ rest = k ++ cs).
Proof.
  intros Hc. apply app_eq_inv in Hc as [(k & ? & ?)|(k & Hk & ?)]; [left; eauto|].
  destruct k as [|b k]; [left; exists []; by rewrite app_nil_r in *|right; eauto].
Qed.

Lemma loop_deliver t rest ps : forall e d a r c fs err a0 fuel,
  Framing.synced e d -> frames ps e = Some fs -> Forall (raw_ok) ps ->
  pending d t a r -> (a ++ c) ++ rest = concat fs -> strict a fs ->
  (length (Framing.buf (Framing.extend c r)) < fuel)%nat ->
  is_panic (deliver_raw handle ps err a0).1 = false ->
  loop_post ps e t rest err a0
    (read_loop handle fuel err (mkConn (Framing.extend c r) a0)).
Proof.
  induction ps as [|p ps IH]; intros e d a r c fs err a0 fuel Hs Hf Hok Hp Hc Hst Hfuel Hnp;
    (destruct fuel as [|fuel]; [lia|]).
  { cbn in Hf. injection Hf as <-. cbn in Hst. subst a.
    apply app_nil in Hc as [Hc ->]. cbn in Hc. subst c.
    assert (Hb : Framing.buf r = []) by (destruct Hp as [_ Hl]; apply zlen_0; zlia).
    rewrite Framing.extend_nil. cbn [read_loop rx]. rewrite Hb. cbn.
    exists [], [], [], [], d. split_and!; try done. by left. }
  cbn [frames] in Hf.
  destruct (Framing.nonce_bytes (Framing.enonce e)) as [n|?|?] eqn:En; [|done..].
  destruct (frames ps (Framing.encoded e)) as [fs'|] eqn:Ef; [|done].
  cbn in Hf. injection Hf as <-. cbn [concat strict] in *.
  apply Forall_cons in Hok as [Hpk Hok].
  pose proof (raw_fits _ Hpk) as Hfit.
  set (f := Framing.frame_of e n (raw_bytes p)) in *.
  assert (Hc' : (a ++ c) ++ rest = f ++ concat fs') by done.
  apply first_frame_cases in Hc' as [(k & Hak & Hk)|(k & Hfk & Hkn & Hk)].
  - (* the frame is complete *)
    destruct (Framing.Decode_frame e d n (raw_bytes p) k t Hs En Hfit) as (d' & Ed & Hs').
    fold f in Ed. rewrite <- Hak, <- (proj1 Hp) in Ed.
    assert (Hlen : zlen k < zlen c)
      by (apply (f_equal zlen) in Hak; rewrite !zlen_app in Hak; lia).
    assert (Hlb : zlen (Framing.buf (Framing.extend c r)) = zlen (Framing.buf r) + zlen c)
      by (cbn; apply zlen_app).
    assert (Hnz : zlen (Framing.buf (Framing.extend c r)) <> 0)
      by (pose proof (zlen_nonneg k); pose proof (zlen_nonneg (Framing.buf r)); lia).
    rewrite (read_loop_packet fuel err _ a0 p _ Hpk Hnz Ed).
    cbn [deliver_raw] in Hnp.
    destruct (handle (rtype p) (rdata p) (rrest p) a0)
      as [err1 a1] eqn:Eh.
    assert (Hd1 : is_panic err1 = false -> is_panic (deliver_raw handle ps err1 a1).1 = false)
      by (destruct err1; done).
    assert (He1 : is_panic err1 = false) by (destruct err1; done).
    assert (Hrec : loop_post (p :: ps) e t rest err a0
      (read_loop handle fuel err1 (mkConn (Framing.mkD d' k t) a1))).
    { apply (loop_post_cons t rest p ps e err err1 a0 a1); [done..|].
      apply (IH (Framing.encoded e) d' [] (Framing.mkD d' [] t) k fs'); try done; auto.
      - by eapply strict_nil.
      - unfold zlen in *. cbn in *. lia. }
    by destruct err1.
  - (* part of the frame is missing *)
    by eapply (loop_partial t rest p ps e d a r c k n fs').
Qed.

Lemma deliver_raw_err_indep ps : forall err err' a,
  is_panic err = false -> is_panic err' = false ->
  (deliver_raw handle ps err a).2 = (deliver_raw handle ps err' a).2
  /\ is_panic (deliver_raw handle ps err a).1 = is_panic (deliver_raw handle ps err' a).1.
Proof. destruct ps as [|p ps]; cbn; intros; split; congruence. Qed.

Lemma deliver_raw_app ps1 ps2 : forall err a,
  is_panic (deliver_raw handle (ps1 ++ ps2) err a).1 = false -> is_panic err = false ->
  is_panic (deliver_raw handle ps1 err a).1 = false
  /\ deliver_raw handle (ps1 ++ ps2) err a
     = deliver_raw handle ps2 (deliver_raw handle ps1 err a).1 (deliver_raw handle ps1 err a).2.
Proof.
  induction ps1 as [|p ps1 IH]; intros err a Hnp He; [done|]. cbn [app deliver_raw] in *.
  cbn in Hnp |- *. destruct (handle _ _ _ _) as [[] a1]; [by apply IH..|done].
Qed.

Lemma encoded_n_add n m e : encoded_n (n + m) e = encoded_n m (encoded_n n e).
Proof. revert e. induction n; intros e; cbn; auto. Qed.

Lemma readAll_deliver t chunks : forall ps e d a c fs,
  Framing.synced e d -> frames ps e = Some fs -> Forall (raw_ok) ps ->
  pending d t a (rx c) -> a ++ concat chunks = concat fs -> strict a fs ->
  is_panic (deliver_raw handle ps (Ok tt) (app c)).1 = false ->
  let out := readAll handle chunks c in
  app out.2 = (deliver_raw handle ps (Ok tt) (app c)).2
  /\ Forall (fun r => is_panic r = false) out.1
  /\ exists d', pending d' t [] (rx out.2) /\ Framing.synced (encoded_n (length ps) e) d'.
Proof.
  induction chunks as [|x chunks IH]; intros ps e d a c fs Hs Hf Hok Hp Hc Hst Hnp.
  - cbn in *. rewrite app_nil_r in Hc. subst a.
    assert (fs = []) as ->.
    { destruct fs as [|f fs]; [done|]. cbn in Hst. rewrite zlen_app in Hst.
      pose proof (zlen_nonneg (concat fs)). lia. }
    destruct ps as [|p ps].
    + split_and!; [done|constructor|]. by exists d.
    + cbn in Hf. destruct (Framing.nonce_bytes _); [|done..]. by destruct (frames ps _).
  - cbn [concat readAll] in *. rewrite app_assoc in Hc.
    assert (Hpost : loop_post ps e t (concat chunks) (Ok tt) (app c)
      (readPackets handle x None c)).
    { pose proof (loop_deliver t (concat chunks) ps e d a (rx c) x fs (Ok tt) (app c)
        (S (length (Framing.buf (Framing.extend x (rx c))))) Hs Hf Hok Hp Hc Hst
        ltac:(lia) Hnp) as Hl. unfold readPackets.
      by destruct (read_loop _ _ _ _) as [[]?]. }
    destruct (readPackets handle x None c) as [r c1].
    destruct Hpost as (ps1 & ps2 & fs2 & a' & d' & -> & Ha & Hr & Hf2 & Hs2 & Hp2 & Hc2 & Hst2).
    cbn [fst snd] in *. apply Forall_app in Hok as [_ Hok2].
    destruct (deliver_raw_app ps1 ps2 _ _ Hnp eq_refl) as [Hnp1 Heq]. rewrite Heq in Hnp |- *.
    rewrite <- Ha in *.
    destruct (deliver_raw_err_indep ps2 (deliver_raw handle ps1 (Ok tt) (app c)).1 (Ok tt) (app c1)
      Hnp1 eq_refl) as [E2 Ep].
    rewrite Ep in Hnp. rewrite E2.
    destruct (IH ps2 _ d' a' c1 fs2 Hs2 Hf2 Hok2 Hp2 Hc2 Hst2 Hnp) as (Ha3 & Hall & Hd3).
    destruct (readAll handle chunks c1) as [rs c2]. cbn [fst snd] in *.
    split_and!; [done| |by rewrite length_app, encoded_n_add].
    constructor; [|done]. destruct Hr as [->| ->]; done.
Qed.

(** Whatever the segmentation of the wire, the receiver handles exactly the
    packets that were sealed, in order, and is ready for the next frame. *)
Lemma raw_stream_delivery t ps e d a w e' chunks :
  Framing.synced e d -> Forall raw_ok ps ->
  encodeAll ps e = (Ok w, e') -> concat chunks = w ->
  is_panic (deliver_raw handle ps (Ok tt) a).1 = false ->
  let out := readAll handle chunks (mkConn (Framing.mkD d [] t) a) in
  app out.2 = (deliver_raw handle ps (Ok tt) a).2
  /\ Forall (fun r => is_panic r = false) out.1
  /\ exists d', pending d' t [] (rx out.2) /\ Framing.synced e' d'.
Proof.
  intros Hs Hok Hm Hc Hnp.
  destruct (encodeAll_frames _ _ _ _ Hok Hm) as (fs & Hf & -> & ->).
  eapply (readAll_deliver t chunks ps e d [] (mkConn (Framing.mkD d [] t) a) fs); try done.
  by eapply strict_nil.
Qed.
End raws.

Section delivery.
Context `{SipHashLaws} `{SecretBoxLaws}.

Lemma packet_fits max p :
  max <= Framing.MaximumFramePayloadLength - packetOverhead -> packet_ok max p ->
  zlen (packet_bytes p) <= Framing.MaximumFramePayloadLength.
Proof. intros Hm (_ & Hp & Hl). rewrite zlen_packet_bytes by done. lia. Qed.

Lemma makePacket_cases max p e r e' :
  max <= Framing.MaximumFramePayloadLength - packetOverhead -> packet_ok max p ->
  makePacket max p e = (r, e') ->
  (exists n, Framing.nonce_bytes (Framing.enonce e) = Ok n
     /\ r = Ok (Framing.frame_of e n (packet_bytes p)) /\ e' = Framing.encoded e)
  \/ (r = Err (FrameError Framing.ErrNonceCounterWrapped) /\ e' = e).
Proof.
  intros Hm Hok. pose proof (packet_fits _ _ Hm Hok) as Hfit. destruct Hok as (_ & Hp & Hl).
  unfold makePacket. rewrite gtb_false by done. unfold map_err.
  destruct (Framing.Encode _ _ _) as [r1 e1] eqn:E.
  apply Framing.Encode_inv in E as [(_&_&?)|[(_&_&?)|[(->&->&_)|(n&En&->&->&_)]]].
  - lia.
  - unfold Framing.MaximumFramePayloadLength in Hfit. lia.
  - intros. simplify_eq. by right.
  - intros. simplify_eq. left. eauto.
Qed.

Lemma makePackets_app max ps1 ps2 e w1 e1 w2 e2 :
  makePackets max ps1 e = (Ok w1, e1) -> makePackets max ps2 e1 = (Ok w2, e2) ->
  makePackets max (ps1 ++ ps2) e = (Ok (w1 ++ w2), e2).
Proof.
  revert e w1. induction ps1 as [|p ps1 IH]; intros e w1; cbn [Datatypes.app makePackets].
  - mrun. by intros [= <- <-].
  - mrun. destruct (makePacket max p e) as [[f|?|?] e']; try done.
    destruct (makePackets max ps1 e') as [[fs|?|?] e''] eqn:E1; intros; simplify_eq.
    rewrite (IH e' fs) by done. by rewrite app_assoc.
Qed.

(** The errors of [makePacket] on a packet within the bounds. *)
Lemma makePackets_cases max ps : forall e r e',
  max <= Framing.MaximumFramePayloadLength - packetOverhead -> Forall (packet_ok max) ps ->
  makePackets max ps e = (r, e') ->
  (exists w, r = Ok w) \/ r = Err (FrameError Framing.ErrNonceCounterWrapped).
Proof.
  induction ps as [|p ps IH]; intros e r e' Hm Hok; cbn [makePackets].
  - mrun. intros [= <- <-]. eauto.
  - apply Forall_cons in Hok as [Hp Hok]. mrun.
    destruct (makePacket max p e) as [r1 e1] eqn:E.
    apply makePacket_cases in E as [(n & _ & -> & ->)|[-> ->]]; [| |done..].
    + destruct (makePackets max ps _) as [r2 e2] eqn:E2.
      apply IH in E2 as [[w ->]| ->]; [| |done..]; intros; simplify_eq; eauto.
    + intros. simplify_eq. by right.
Qed.

Lemma makePacket_zlen max p e f e' :
  max <= Framing.MaximumFramePayloadLength - packetOverhead -> packet_ok max p ->
  makePacket max p e = (Ok f, e') ->
  zlen f = zlen (data p) + padLen p + packetOverhead + Framing.FrameOverhead.
Proof.
  intros Hm Hok E. pose proof Hok as (_ & Hp & _).
  apply makePacket_cases in E as [(n & _ & Hf & _)|[? _]]; [|done..].
  injection Hf as ->. rewrite Framing.frame_of_zlen, zlen_packet_bytes by done. lia.
Qed.

(** Cells of one size make a wire image that shows their number only. *)
Lemma makePackets_zlen max ps : forall e w e',
  max <= Framing.MaximumFramePayloadLength - packetOverhead -> Forall (packet_ok max) ps ->
  Forall (fun p => zlen (data p) + padLen p = max) ps ->
  makePackets max ps e = (Ok w, e') ->
  zlen w = (max + packetOverhead + Framing.FrameOverhead) * zlen ps.
Proof.
  induction ps as [|p ps IH]; intros e w e' Hm Hok Hlen; cbn [makePackets].
  { mrun. intros [= <- <-]. rewrite zlen_nil. by rewrite (zlen_nil (A := packet)), Z.mul_0_r. }
  apply Forall_cons in Hok as [Hp Hok]. apply Forall_cons in Hlen as [Hl Hlen]. mrun.
  destruct (makePacket max p e) as [[f|?|?] e1] eqn:E1; try done.
  destruct (makePackets max ps e1) as [[fs|?|?] e2] eqn:E2; try done.
  intros [= <- <-]. apply IH in E2; [|done..].
  apply makePacket_zlen in E1; [|done..].
  rewrite zlen_app, E1, E2, Hl, (zlen_cons (A := packet)). lia.
Qed.

Lemma makePackets_encodeAll max ps : forall e w e',
  makePackets max ps e = (Ok w, e') -> encodeAll (map raw_of ps) e = (Ok w, e').
Proof.
  induction ps as [|p ps IH]; intros e w e'; cbn [makePackets encodeAll map]; [done|].
  unfold mbind, M_bind, mret, M_ret, makePacket. destruct (_ >? _); [done|].
  rewrite raw_of_bytes. destruct (map_err _ _ e) as [[f|?|?] e1]; try done.
  destruct (makePackets max ps e1) as [[ws|?|?] e2] eqn:E; try done. by rewrite (IH _ _ _ E).
Qed.

Context {A : Type} (handle : handler A) (max : Z).
Context (Hmax : max <= Framing.MaximumFramePayloadLength - packetOverhead).

Lemma deliver_raws ps : forall err a, deliver handle ps err a = deliver_raw handle (map raw_of ps) err a.
Proof.
  induction ps as [|p ps IH]; intros err a; cbn; [done|].
  destruct (handle _ _ _ a) as [[] a1]; [apply IH..|done].
Qed.

Lemma deliver_app_ok ps1 ps2 : forall err a r a1,
  deliver handle ps1 err a = (r, a1) -> is_panic r = false ->
  deliver handle (ps1 ++ ps2) err a = deliver handle ps2 r a1.
Proof.
  induction ps1 as [|p ps1 IH]; intros err a r a1; cbn; [by intros [= <- <-]|].
  destruct (handle _ _ _ _) as [[] a2]; [by apply IH|by apply IH|by intros [= <- <-]].
Qed.

(** Whatever the segmentation of the wire, the receiver handles exactly the
    packets that were made, in order, and is ready for the next frame. *)
Lemma stream_delivery t ps e d a w e' chunks :
  Framing.synced e d -> Forall (packet_ok max) ps ->
  makePackets max ps e = (Ok w, e') -> concat chunks = w ->
  is_panic (deliver handle ps (Ok tt) a).1 = false ->
  let out := readAll handle chunks (mkConn (Framing.mkD d [] t) a) in
  app out.2 = (deliver handle ps (Ok tt) a).2
  /\ Forall (fun r => is_panic r = false) out.1
  /\ exists d', pending d' t [] (rx out.2) /\ Framing.synced e' d'.
Proof.
  intros Hs Hok Hm%makePackets_encodeAll Hc Hnp. rewrite deliver_raws in *.
  apply (raw_stream_delivery handle t (map raw_of ps) e d a w e' chunks); try done.
  apply Forall_map. eapply Forall_impl; [exact Hok|]. intros p. by apply raw_of_ok.
Qed.
End delivery.

(** ** Termination and panics of the loop on arbitrary input *)

Section total.
Context `{SipHashLaws} `{SecretBoxLaws} {A : Type} (handle : handler A).
Context (Inv : A -> Prop) (panics : String.string -> Prop).
Context (Hhandle : forall t p r a, 0 <= t < 256 -> Inv a ->
  Inv (handle t p r a).2 /\ (forall w, (handle t p r a).1 = Panic w -> panics w)).

Definition conn_wf (c : conn A) : Prop := Framing.dec_wf (Framing.dec (rx c)) /\ Inv (app c).

Lemma read_loop_total fuel : forall err c,
  conn_wf c -> (length (Framing.buf (rx c)) < fuel)%nat -> is_panic err = false ->
  let out := read_loop handle fuel err c in
  conn_wf out.2
  /\ forall w, out.1 = Panic w -> w = "crypto/rand failed"%string \/ panics w.
Proof.
  induction fuel as [|fuel IH]; intros err [r a] [Hd Ha] Hf He; [cbn in Hf; lia|].
  cbn [read_loop rx app] in *. destruct (_ =? 0) eqn:E0; b2p.
  { split; [done|]. cbn. intros w ->. done. }
  destruct (Framing.Decode r) as [res r'] eqn:Ed.
  pose proof (Framing.Decode_wf _ _ _ Ed Hd) as [Hd' Her].
  destruct res as [pkt|e|w]; cbn in Her.
  2: { split; [done|]. intros w Hw. done. }
  2: { split; [done|]. intros w' Hw. cbn in Hw. injection Hw as <-. by left. }
  pose proof (Framing.Decode_Ok_shrinks _ _ _ Ed Hd) as Hsh.
  destruct (_ <? packetOverhead) eqn:Eo; [split; [done|intros w Hw; done]|]. b2p.
  destruct (_ >? _) eqn:Ep; [split; [done|intros w Hw; done]|].
  set (ty := be_decode (ztake 1 pkt)).
  assert (Hty : 0 <= ty < 256).
  { pose proof (be_decode_range (ztake 1 pkt)) as Hr. rewrite zlen_ztake in Hr.
    unfold packetOverhead in Eo. rewrite Z.min_l in Hr by lia. by cbn in Hr. }
  destruct (handle _ _ _ a) as [err' a'] eqn:Eh.
  match type of Eh with handle ?t ?p ?x _ = _ =>
    destruct (Hhandle t p x a Hty Ha) as [Ha' Hp] end.
  rewrite Eh in Ha', Hp. cbn in Ha', Hp.
  destruct err' as [u|e|w]; [| |].
  - apply IH; [by split|cbn; unfold zlen in Hsh; lia|done].
  - apply IH; [by split|cbn; unfold zlen in Hsh; lia|done].
  - split; [done|]. intros w' Hw. right. apply Hp. cbn in Hw. congruence.
Qed.

(** [readPackets] always returns, keeps the decoder's and the connection's
    invariant, and panics only as its handler or the entropy source does. *)
Lemma readPackets_total rd rdErr c :
  conn_wf c ->
  let out := readPackets handle rd rdErr c in
  conn_wf out.2
  /\ forall w, out.1 = Panic w -> w = "crypto/rand failed"%string \/ panics w.
Proof.
  intros [Hd Ha]. unfold readPackets.
  pose proof (read_loop_total (S (length (Framing.buf (Framing.extend rd (rx c))))) (Ok tt)
    (mkConn (Framing.extend rd (rx c)) (app c)) ltac:(by split) ltac:(cbn; lia) eq_refl) as Hl.
  destruct (read_loop _ _ _ _) as [[u|e|w] c']; destruct rdErr; cbn in *;
    naive_solver.
Qed.
End total.
End Packet.
