(* ===== verification/Ntor.v ===== *)
(** * [common/ntor]: the ntor handshake with Elligator representatives

    [golang.org/x/crypto/curve25519] and [hkdf] are the classes [Curve25519]
    and [Hkdf].  [internal/extra25519] is seen through the interface
    [Elligator]: what its two entry points promise to this package. *)
From S2P Require Import Prelude GoStd Rand.

(** X25519: [ScalarMult k u] and [ScalarBaseMult k]. *)
Class Curve25519 := {
  ScalarMult : bytes -> bytes -> bytes;
  ScalarBaseMult : bytes -> bytes
}.
Class Curve25519Laws `{Curve25519} : Prop := {
  ScalarMult_size : forall k u, zlen (ScalarMult k u) = 32;
  ScalarBaseMult_size : forall k, zlen (ScalarBaseMult k) = 32;
  ScalarMult_comm : forall a b,
    ScalarMult a (ScalarBaseMult b) = ScalarMult b (ScalarBaseMult a)
}.

(** [extra25519.UnsafeBrokenScalarBaseMult]: the public key and its uniform
    representative, when the private key has one, and
    [UnsafeBrokenRepresentativeToPublicKey]; [Elligator25519] has the
    implementation and proves [Ell_size] and [Ell_inverse] of it. *)
Class Elligator := {
  EllScalarBaseMult : bytes -> option (bytes * bytes);
  RepresentativeToPublicKey : bytes -> bytes
}.
Class ElligatorLaws `{Curve25519} `{Elligator} : Prop := {
  Ell_public : forall k pub repr, zlen k = 32 -> EllScalarBaseMult k = Some (pub, repr) ->
    pub = ScalarBaseMult k;
  Ell_size : forall k pub repr, zlen k = 32 -> EllScalarBaseMult k = Some (pub, repr) ->
    zlen repr = 32;
  Ell_inverse : forall k pub repr, zlen k = 32 -> EllScalarBaseMult k = Some (pub, repr) ->
    RepresentativeToPublicKey repr = pub
}.

(** [hkdf.New (sha256.New, secret, salt, info)], read up to [n] bytes; [None]
    past the entropy limit of 255 digests. *)
Class Hkdf := { hkdf : bytes -> bytes -> bytes -> Z -> option bytes }.
Class HkdfLaws `{Hkdf} : Prop := {
  hkdf_read : forall secret salt info n, 0 <= n <= 255 * Sha256.Size ->
    exists okm, hkdf secret salt info n = Some okm /\ zlen okm = n
}.

Module Ntor.

Definition PublicKeyLength : Z := 32.
Definition RepresentativeLength : Z := 32.
Definition PrivateKeyLength : Z := 32.
Definition SharedSecretLength : Z := 32.
Definition NodeIDLength : Z := 20.
Definition KeySeedLength : Z := Sha256.Size.
Definition AuthLength : Z := Sha256.Size.

Definition protoID : bytes := str "ntor-curve25519-sha256-1".
Definition tMac : bytes := protoID ++ str ":mac".
Definition tKey : bytes := protoID ++ str ":key_extract".
Definition tVerify : bytes := protoID ++ str ":key_verify".
Definition mExpand : bytes := protoID ++ str ":key_expand".

Inductive error :=
| PublicKeyLengthError (n : Z)
| PrivateKeyLengthError (n : Z)
| NodeIDLengthError (n : Z)
| HexError (e : Hex.error)
| EntropyError (e : Csrand.error).

Abbreviation NodeID := bytes.
Abbreviation PublicKey := bytes.
Abbreviation PrivateKey := bytes.
Abbreviation Representative := bytes.

(** [NewNodeID], [NewPublicKey]: exact length, then a copy. *)
Definition NewNodeID (raw : bytes) : result error NodeID :=
  if negb (zlen raw =? NodeIDLength) then Err (NodeIDLengthError (zlen raw)) else Ok raw.
Definition NewPublicKey (raw : bytes) : result error PublicKey :=
  if negb (zlen raw =? PublicKeyLength) then Err (PublicKeyLengthError (zlen raw)) else Ok raw.

Definition from_hex {A} (encoded : bytes) (k : bytes -> result error A) : result error A :=
  match Hex.DecodeString encoded with
  | Ok raw => k raw
  | Err e => Err (HexError e)
  | Panic w => Panic w
  end.
Definition NodeIDFromHex (encoded : bytes) : result error NodeID := from_hex encoded NewNodeID.
Definition PublicKeyFromHex (encoded : bytes) : result error PublicKey :=
  from_hex encoded NewPublicKey.
(** [NodeID.Hex], [PublicKey.Hex], [PrivateKey.Hex]. *)
Definition key_Hex (k : bytes) : bytes := Hex.EncodeToString k.

Record Keypair := mkKeypair {
  public : PublicKey; private : PrivateKey; representative : option Representative
}.
Definition HasElligator (k : Keypair) : bool :=
  match representative k with Some _ => true | None => false end.

(** [digest[0] &= 248; digest[31] &= 127; digest[31] |= 64]. *)
Definition clamp (d : bytes) : bytes :=
  match d with
  | [] => []
  | b :: d =>
      z2b (Z.land (b2z b) 248)
      :: alter (fun b => z2b (Z.lor (Z.land (b2z b) 127) 64)) 30%nat d
  end.

(** [constantTimeIsZero]. *)
Definition constantTimeIsZero (x : bytes) : Z :=
  if foldl (fun ret v => Z.lor ret (b2z v)) 0 x =? 0 then 1 else 0.

Section ntor.
Context `{Curve25519} `{Elligator} `{Hkdf}.

(** The loop of [NewKeypair (elligator)]; each round draws 32 bytes. *)
Fixpoint keypair_loop (fuel : nat) (elligator : bool) : M bytes error Keypair :=
  match fuel with
  | O => panic out_of_fuel
  | S fuel =>
      priv ← map_err EntropyError (Csrand.Bytes PrivateKeyLength);
      let priv := clamp (Sha256.Sum256 priv) in
      if elligator then
        match EllScalarBaseMult priv with
        | None => keypair_loop fuel elligator
        | Some (pub, repr) => mret (mkKeypair pub priv (Some repr))
        end
      else mret (mkKeypair (ScalarBaseMult priv) priv None)
  end.
Definition NewKeypair (elligator : bool) : M bytes error Keypair :=
  fun tape => keypair_loop (S (length tape)) elligator tape.

Definition KeypairFromHex (encoded : bytes) : result error Keypair :=
  from_hex encoded (fun raw =>
    if negb (zlen raw =? PrivateKeyLength) then Err (PrivateKeyLengthError (zlen raw))
    else Ok (mkKeypair (ScalarBaseMult raw) raw None)).

(** [Representative.ToPublic]. *)
Definition ToPublic (repr : Representative) : PublicKey := RepresentativeToPublicKey repr.

(** KEY_SEED and AUTH. *)
Definition ntorCommon (secretInput : bytes) (id : NodeID) (b x y : PublicKey)
  : bytes * bytes :=
  let suffix := b ++ b ++ x ++ y ++ protoID ++ id in
  let secretInput := secretInput ++ suffix in
  let keySeed := Hmac.sum tKey secretInput in
  let verify := Hmac.sum tVerify secretInput in
  let authInput := verify ++ suffix ++ str "Server" in
  (keySeed, Hmac.sum tMac authInput).

(** Status, KEY_SEED and AUTH. *)
Definition ServerHandshake (clientPublic : PublicKey) (serverKeypair idKeypair : Keypair)
    (id : NodeID) : bool * bytes * bytes :=
  let exp1 := ScalarMult (private serverKeypair) clientPublic in
  let exp2 := ScalarMult (private idKeypair) clientPublic in
  let notOk := Z.lor (constantTimeIsZero exp1) (constantTimeIsZero exp2) in
  let '(keySeed, auth) :=
    ntorCommon (exp1 ++ exp2) id (public idKeypair) clientPublic (public serverKeypair) in
  (notOk =? 0, keySeed, auth).

Definition ClientHandshake (clientKeypair : Keypair) (serverPublic idPublic : PublicKey)
    (id : NodeID) : bool * bytes * bytes :=
  let exp1 := ScalarMult (private clientKeypair) serverPublic in
  let exp2 := ScalarMult (private clientKeypair) idPublic in
  let notOk := Z.lor (constantTimeIsZero exp1) (constantTimeIsZero exp2) in
  let '(keySeed, auth) :=
    ntorCommon (exp1 ++ exp2) id idPublic (public clientKeypair) serverPublic in
  (notOk =? 0, keySeed, auth).

Definition CompareAuth (auth1 auth2 : bytes) : bool := Hmac.Equal auth1 auth2.

Definition Kdf (keySeed : bytes) (okmLen : Z) : result error bytes :=
  match hkdf keySeed tKey mExpand okmLen with
  | Some okm => Ok okm
  | None => Panic "BUG: Failed HKDF"
  end.
End ntor.

(** ** Well-formed keys *)

Definition clamped (k : bytes) : Prop :=
  zlen k = PrivateKeyLength
  /\ (exists b, k !! 0%nat = Some b /\ b2z b mod 8 = 0)
  /\ (exists b, k !! 31%nat = Some b /\ 64 <= b2z b < 128).

Record keypair_wf `{Curve25519} `{Elligator} (k : Keypair) : Prop := {
  kp_public : public k = ScalarBaseMult (private k);
  kp_representative : forall r, representative k = Some r ->
    zlen r = RepresentativeLength /\ ToPublic r = public k
}.

Lemma land_248 b : 0 <= b < 256 -> Z.land b 248 mod 8 = 0 /\ 0 <= Z.land b 248 < 256.
Proof.
  intros Hb. pose proof (land_bounds b 248). split; [|lia].
  change 8 with (2 ^ 3). rewrite <- Z.land_ones by lia.
  rewrite <- Z.land_assoc. change (Z.land 248 (Z.ones 3)) with 0. apply Z.land_0_r.
Qed.

Lemma lor_64 b : 0 <= b < 256 -> 64 <= Z.lor (Z.land b 127) 64 < 128.
Proof.
  intros Hb. pose proof (land_bounds b 127).
  assert (Hall : forallb (fun k => (64 <=? Z.lor (Z.of_nat k) 64) && (Z.lor (Z.of_nat k) 64 <? 128))
    (seq 0 128) = true) by (vm_compute; reflexivity).
  rewrite forallb_forall in Hall.
  specialize (Hall (Z.to_nat (Z.land b 127)) ltac:(apply in_seq; lia)).
  rewrite Z2Nat.id in Hall by lia. b2p. lia.
Qed.

Lemma clamp_clamped d : zlen d = 32 -> clamped (clamp d).
Proof.
  intros Hl. destruct d as [|b d]; [done|]. rewrite zlen_cons in Hl.
  pose proof (b2z_range b) as Hb. pose proof (land_248 _ Hb) as [Hm Hr].
  unfold clamped, clamp. split; [|split].
  - rewrite zlen_cons. unfold zlen in *. rewrite length_alter. unfold PrivateKeyLength. lia.
  - eexists. split; [done|]. rewrite b2z_z2b, (Z.mod_small _ 256) by done. done.
  - destruct (lookup_lt_is_Some_2 d 30) as [c Hc]; [unfold zlen in Hl; lia|].
    pose proof (lor_64 _ (b2z_range c)) as Hl64.
    eexists. split.
    { rewrite lookup_cons_ne_0 by done. cbn [pred]. rewrite list_lookup_alter_eq, Hc. done. }
    rewrite b2z_z2b, Z.mod_small by lia. done.
Qed.

Section proofs.
Context `{Curve25519Laws} `{!Elligator} `{!ElligatorLaws} `{HkdfLaws}.

Lemma keypair_loop_cases elligator fuel : forall tape r tape',
  (length tape < fuel)%nat -> keypair_loop fuel elligator tape = (r, tape') ->
  (exists k, r = Ok k /\ keypair_wf k /\ clamped (private k)
             /\ HasElligator k = elligator)
  \/ r = Err (EntropyError Csrand.ErrEntropy).
Proof.
  induction fuel as [|fuel IH]; intros tape r tape' Hf; [lia|]. cbn [keypair_loop].
  unfold mbind, M_bind, map_err, mret, M_ret.
  destruct (Csrand.Bytes _ tape) as [[priv|e|w] t] eqn:E.
  - apply Csrand.Bytes_Ok in E as (_ & -> & Hl).
    pose proof (clamp_clamped _ (Sha256.zlen_Sum256 priv)) as Hc.
    destruct elligator; [|intros; simplify_eq; left; eexists; by split_and!].
    destruct (EllScalarBaseMult _) as [[pub repr]|] eqn:Ee.
    + intros. simplify_eq. left. eexists. split_and!; [done|split; cbn|done|done].
      * by eapply Ell_public; [apply Hc|].
      * intros ? [= <-]. split; [by eapply Ell_size; [apply Hc|]|by eapply Ell_inverse; [apply Hc|]].
    + apply IH. unfold PrivateKeyLength, zlen, zdrop in *. rewrite length_drop. lia.
  - destruct e. intros. simplify_eq. by right.
  - unfold Csrand.Bytes in E. destruct (_ <=? _); simplify_eq.
Qed.

(** Key generation ends for any supply of entropy: it returns a keypair
    whose private key is clamped, whose public key is that of the private key,
    and which has, exactly when one was asked for, an Elligator representative
    that maps back to the public key; or it reports that the entropy ran out. *)
Theorem NewKeypair_wf elligator tape :
  match (NewKeypair elligator tape).1 with
  | Ok k => keypair_wf k /\ clamped (private k) /\ HasElligator k = elligator
  | Err e => e = EntropyError Csrand.ErrEntropy
  | Panic _ => False
  end.
Proof.
  unfold NewKeypair. destruct (keypair_loop _ _ _) as [r t] eqn:E.
  apply keypair_loop_cases in E as [(k & -> & ?)| ->]; [done|done|lia].
Qed.

Lemma handshake_agree kc ks ki id :
  public kc = ScalarBaseMult (private kc) -> public ks = ScalarBaseMult (private ks) ->
  public ki = ScalarBaseMult (private ki) ->
  ClientHandshake kc (public ks) (public ki) id = ServerHandshake (public kc) ks ki id.
Proof.
  intros Hc Hs Hi. unfold ClientHandshake, ServerHandshake. generalize ntorCommon. intros common.
  rewrite Hc, Hs, Hi. by rewrite !(ScalarMult_comm (private kc)).
Qed.

(** The two sides of the handshake agree: a client and a server that use
    each other's public keys and the server's identity get the same status, the
    same KEY_SEED and the same AUTH, so the client's comparison accepts what
    the server sends, and both derive the same link keys. *)
Theorem ntor_agreement kc ks ki id :
  keypair_wf kc -> keypair_wf ks -> keypair_wf ki ->
  let '(okc, seedc, authc) := ClientHandshake kc (public ks) (public ki) id in
  let '(oks, seeds, auths) := ServerHandshake (public kc) ks ki id in
  okc = oks /\ CompareAuth authc auths = true
  /\ forall n, 0 <= n <= 255 * Sha256.Size ->
       exists okm, Kdf seedc n = Ok okm /\ Kdf seeds n = Ok okm /\ zlen okm = n.
Proof.
  intros [Hc _] [Hs _] [Hi _].
  pose proof (handshake_agree kc ks ki id Hc Hs Hi) as E.
  destruct (ClientHandshake _ _ _ _) as [[okc seedc] authc].
  destruct (ServerHandshake _ _ _ _) as [[oks seeds] auths]. simplify_eq.
  split_and!; [done|by apply bool_decide_eq_true|].
  intros n Hn. destruct (hkdf_read seeds tKey mExpand n Hn) as (okm & Ek & Hl).
  exists okm. unfold Kdf. by rewrite Ek.
Qed.
End proofs.

Lemma constantTimeIsZero_spec x : constantTimeIsZero x = 1 <-> Forall (fun b => b = Byte.x00) x.
Proof.
  unfold constantTimeIsZero.
  assert (Hg : forall acc, 0 <= acc ->
    foldl (fun ret v => Z.lor ret (b2z v)) acc x = 0 <-> acc = 0 /\ Forall (fun b => b = Byte.x00) x).
  { induction x as [|b x IH]; intros acc Ha; cbn; [by split; [|intros [? _]]|].
    pose proof (b2z_range b). rewrite IH by (apply Z.lor_nonneg; lia).
    rewrite Z.lor_eq_0_iff, Forall_cons. split.
    - intros [[-> Hb] Hf]. split_and!; [done| |done]. by apply b2z_inj.
    - intros (-> & -> & Hf). done. }
  specialize (Hg 0 ltac:(lia)). destruct (_ =? 0) eqn:E; b2p; split; try done; [tauto|].
  intros Hf. exfalso. apply E. apply Hg. done.
Qed.

(** Hex round trips of identities and keys. *)
Lemma NodeIDFromHex_Hex id : zlen id = NodeIDLength -> NodeIDFromHex (key_Hex id) = Ok id.
Proof.
  intros Hl. unfold NodeIDFromHex, from_hex, key_Hex. rewrite Hex.DecodeString_EncodeToString.
  unfold NewNodeID. by rewrite Hl.
Qed.
Lemma PublicKeyFromHex_Hex k : zlen k = PublicKeyLength -> PublicKeyFromHex (key_Hex k) = Ok k.
Proof.
  intros Hl. unfold PublicKeyFromHex, from_hex, key_Hex. rewrite Hex.DecodeString_EncodeToString.
  unfold NewPublicKey. by rewrite Hl.
Qed.
End Ntor.

(** A concrete group, for the witnesses: exclusive or with a generator; half
    of the private keys have a representative. *)
Module ToyCurve.
Definition bxor (a b : bytes) : bytes :=
  map (fun i => xor_byte (nth i a Byte.x00) (nth i b Byte.x00)) (seq 0 32).
Definition base : bytes := replicate 32 (z2b 9).
#[export] Instance toy_curve : Curve25519 :=
  {| ScalarMult k u := bxor k u; ScalarBaseMult k := bxor k base |}.

Lemma zlen_bxor a b : zlen (bxor a b) = 32.
Proof. unfold zlen, bxor. by rewrite length_map, length_seq. Qed.

Lemma nth_bxor i a b : (i < 32)%nat ->
  nth i (bxor a b) Byte.x00 = xor_byte (nth i a Byte.x00) (nth i b Byte.x00).
Proof.
  intros Hi. unfold bxor.
  rewrite (nth_indep _ _ (xor_byte (nth 0 a Byte.x00) (nth 0 b Byte.x00)))
    by (by rewrite length_map, length_seq).
  rewrite (map_nth (fun i => xor_byte (nth i a Byte.x00) (nth i b Byte.x00)) (seq 0 32) 0%nat i).
  by rewrite seq_nth.
Qed.

Lemma b2z_xor_byte a b : b2z (xor_byte a b) = Z.lxor (b2z a) (b2z b).
Proof.
  unfold xor_byte. rewrite b2z_z2b. apply Z.mod_small.
  pose proof (b2z_range a). pose proof (b2z_range b).
  assert (Hn : 0 <= Z.lxor (b2z a) (b2z b)) by (apply Z.lxor_nonneg; lia).
  split; [done|]. change 256 with (2 ^ 8).
  destruct (decide (Z.lxor (b2z a) (b2z b) = 0)) as [->|]; [done|].
  apply Z.log2_lt_pow2; [lia|].
  eapply Z.le_lt_trans; [apply Z.log2_lxor; lia|]. apply Z.max_lub_lt.
  - destruct (decide (b2z a = 0)) as [->|]; [done|]. apply Z.log2_lt_pow2; lia.
  - destruct (decide (b2z b = 0)) as [->|]; [done|]. apply Z.log2_lt_pow2; lia.
Qed.

#[export] Instance toy_curve_laws : Curve25519Laws.
Proof.
  split; [intros; apply zlen_bxor..|]. intros a b.
  change (bxor a (bxor b base) = bxor b (bxor a base)).
  unfold bxor at 1 3. apply map_ext_in. intros i Hi. apply in_seq in Hi.
  rewrite !nth_bxor by lia. apply b2z_inj. rewrite !b2z_xor_byte.
  rewrite <- !Z.lxor_assoc. f_equal. apply Z.lxor_comm.
Qed.

#[export] Instance toy_elligator : Elligator :=
  {| EllScalarBaseMult k :=
       if b2z (nth 1 k Byte.x00) mod 2 =? 0 then Some (bxor k base, bxor k base) else None;
     RepresentativeToPublicKey r := r |}.
#[export] Instance toy_elligator_laws : ElligatorLaws.
Proof.
  split; cbn; intros k pub repr _; destruct (_ =? 0); intros; by simplify_eq.
Qed.

#[export] Instance toy_hkdf : Hkdf :=
  {| hkdf secret salt info n :=
       if n <=? 8160 then Some (zrepeat n (nth 0 secret Byte.x00)) else None |}.
#[export] Instance toy_hkdf_laws : HkdfLaws.
Proof.
  split. cbn. intros secret salt info n Hn. unfold Sha256.Size in Hn.
  rewrite leb_true by lia. eexists. split; [done|]. rewrite zlen_zrepeat. lia.
Qed.
End ToyCurve.

Section witnesses.
Import ToyCurve Ntor.
Definition toy_keypair (b : byte) : Keypair :=
  let k := clamp (replicate 32 b) in
  mkKeypair (ScalarBaseMult k) k (Some (ScalarBaseMult k)).
Lemma toy_keypair_wf b : keypair_wf (toy_keypair b).
Proof.
  split; [reflexivity|]. intros r Hr. injection Hr as <-.
  split; [apply zlen_bxor|reflexivity].
Qed.

Lemma NewKeypair_wf_witness :
  exists k, (NewKeypair true (zrepeat 32 Byte.x07)).1 = Ok k
            /\ keypair_wf k /\ clamped (private k) /\ HasElligator k = true.
Proof.
  pose proof (NewKeypair_wf true (zrepeat 32 Byte.x07)) as Hk.
  destruct (NewKeypair true (zrepeat 32 Byte.x07)).1 as [k|e|w] eqn:E.
  - exists k. split; [reflexivity|exact Hk].
  - vm_compute in E. discriminate.
  - destruct Hk.
Defined.

Lemma ntor_agreement_witness :
  let kc := toy_keypair Byte.x11 in
  let ks := toy_keypair Byte.x22 in
  let ki := toy_keypair Byte.x33 in
  let id := replicate 20 Byte.x44 in
  let '(okc, seedc, authc) := ClientHandshake kc (public ks) (public ki) id in
  let '(oks, seeds, auths) := ServerHandshake (public kc) ks ki id in
  okc = oks /\ CompareAuth authc auths = true
  /\ forall n, 0 <= n <= 255 * Sha256.Size ->
       exists okm, Kdf seedc n = Ok okm /\ Kdf seeds n = Ok okm /\ zlen okm = n.
Proof.
  apply (ntor_agreement (toy_keypair Byte.x11) (toy_keypair Byte.x22) (toy_keypair Byte.x33)
           (replicate 20 Byte.x44)); apply toy_keypair_wf.
Defined.
End witnesses.
