(* ===== verification/Handshake.v ===== *)
(** * The obfuscated ntor handshake: [transports/obfs4/handshake_ntor.go]

    [transports/defconn/handshake_ntor.go] and
    [transports/randomwt/handshake_ntor.go] are the same file but for the
    package name and the spelling of two constants.  The [hash.Hash] [mac] is
    reset before every use, so it is its key.  [hour] is what [getEpochHour]
    returns during a call, [now] what [time.Now] gives to the replay filter. *)
From stdpp Require Import sorting.
From S2P Require Import Prelude GoStd Rand Drbg Framing ReplayFilter Packet Ntor.

Module Handshake.

Definition markLength : Z := Sha256.Size / 2.
Definition macLength : Z := Sha256.Size / 2.
Definition seedPacketPayloadLength : Z := Drbg.SeedLength.
Definition inlineSeedFrameLength : Z :=
  Framing.FrameOverhead + Packet.packetOverhead + seedPacketPayloadLength.
Definition maxHandshakeLength : Z := 8192.
Definition clientMinHandshakeLength : Z := Ntor.RepresentativeLength + markLength + macLength.
Definition serverMinHandshakeLength : Z :=
  Ntor.RepresentativeLength + Ntor.AuthLength + markLength + macLength.
Definition clientMinPadLength : Z :=
  (serverMinHandshakeLength + inlineSeedFrameLength) - clientMinHandshakeLength.
Definition clientMaxPadLength : Z := maxHandshakeLength - clientMinHandshakeLength.
Definition serverMinPadLength : Z := 0.
Definition serverMaxPadLength : Z :=
  maxHandshakeLength - (serverMinHandshakeLength + inlineSeedFrameLength).

Inductive error :=
| ErrMarkNotFoundYet
| ErrInvalidHandshake
| ErrReplayedHandshake
| ErrNtorFailed
| InvalidMacError (derived received : bytes)
| InvalidAuthError (derived received : bytes)
| EntropyError (e : Csrand.error).

(** [hs.mac.Sum(nil)[:markLength]] after [hs.mac.Reset ()] and the writes. *)
Definition mac128 (key msg : bytes) : bytes := ztake markLength (Hmac.sum key msg).

(** [getEpochHour] at the Unix time [unix]; Go's division truncates. *)
Definition getEpochHour (unix : Z) : Z := Z.quot unix 3600.
Definition epochHour_bytes (hour : Z) : bytes := Strconv.FormatInt hour.

(** [findMarkMac (mark, buf, startPos, maxPos, fromTail)]. *)
Definition findMarkMac (mark buf : bytes) (startPos maxPos : Z) (fromTail : bool)
  : result error Z :=
  if negb (zlen mark =? markLength) then Panic "BUG: Invalid mark length"
  else
    let endPos := zlen buf in
    if startPos >? zlen buf then Ok (-1)
    else
      let endPos := if endPos >? maxPos then maxPos else endPos in
      if endPos - startPos <? markLength + macLength then Ok (-1)
      else if fromTail then
        let pos := endPos - (markLength + macLength) in
        match gslice pos (pos + markLength) buf with
        | None => Panic "slice bounds out of range"
        | Some s => if negb (Hmac.Equal s mark) then Ok (-1) else Ok pos
        end
      else
        match gslice startPos endPos buf with
        | None => Panic "slice bounds out of range"
        | Some s =>
            let pos := bytes_Index s mark in
            if pos =? -1 then Ok (-1)
            else if startPos + pos + markLength + macLength >? endPos then Ok (-1)
            else Ok (pos + startPos)
        end.

Definition makePad (padLen : Z) : M bytes error bytes := map_err EntropyError (Csrand.Bytes padLen).

(** ** The client *)

Record clientHandshake := mkClient {
  c_keypair : Ntor.Keypair;
  c_nodeID : bytes;
  c_serverIdentity : bytes;
  c_epochHour : bytes;
  c_padLen : Z;
  c_mac : bytes;  (* the key of [mac] *)
  serverRepresentative : option bytes;
  serverAuth : option bytes;
  serverMark : bytes
}.

(** [newClientHandshake]. *)
Definition newClientHandshake (nodeID serverIdentity : bytes) (sessionKey : Ntor.Keypair)
  : M bytes error clientHandshake :=
  padLen ← map_err EntropyError (Csrand.IntRange clientMinPadLength clientMaxPadLength);
  mret (mkClient sessionKey nodeID serverIdentity [] padLen (serverIdentity ++ nodeID)
                 None None []).

(** [hs.keypair.Representative ().Bytes ()]: a nil pointer panics. *)
Definition repr_bytes (k : Ntor.Keypair) : result error bytes :=
  match Ntor.representative k with
  | Some r => Ok r
  | None => Panic "nil pointer dereference"
  end.

(** [clientHandshake.generateHandshake]: the blob, and the handshake with its
    [epochHour] set. *)
Definition client_generate (hour : Z) (hs : clientHandshake)
  : M bytes error (bytes * clientHandshake) :=
  x ← lift (repr_bytes (c_keypair hs));
  let mark := mac128 (c_mac hs) x in
  pad ← makePad (c_padLen hs);
  let buf := x ++ pad ++ mark in
  let e := epochHour_bytes hour in
  let mac := mac128 (c_mac hs) (buf ++ e) in
  mret (buf ++ mac,
        mkClient (c_keypair hs) (c_nodeID hs) (c_serverIdentity hs) e (c_padLen hs) (c_mac hs)
                 (serverRepresentative hs) (serverAuth hs) (serverMark hs)).

Section handshake.
Context `{SipHash} `{Curve25519} `{Elligator}.

(** The first part of [parseServerHandshake]: pull out Y and AUTH once. *)
Definition pull_server (resp : bytes) (hs : clientHandshake) : clientHandshake :=
  match serverRepresentative hs, serverAuth hs with
  | Some _, Some _ => hs
  | _, _ =>
      let y := ztake Ntor.RepresentativeLength resp in
      let auth := ztake Ntor.AuthLength (zdrop Ntor.RepresentativeLength resp) in
      mkClient (c_keypair hs) (c_nodeID hs) (c_serverIdentity hs) (c_epochHour hs)
        (c_padLen hs) (c_mac hs) (Some y) (Some auth) (mac128 (c_mac hs) y)
  end.

(** [parseServerHandshake (resp)]: the length of the handshake and the seed. *)
Definition parseServerHandshake (resp : bytes) : M clientHandshake error (Z * bytes) := fun hs =>
  if serverMinHandshakeLength >? zlen resp then (Err ErrMarkNotFoundYet, hs)
  else
    let hs := pull_server resp hs in
    (pos ← lift (findMarkMac (serverMark hs) resp
                   (Ntor.RepresentativeLength + Ntor.AuthLength + serverMinPadLength)
                   maxHandshakeLength false);
     if pos =? -1 then
       if zlen resp >=? maxHandshakeLength then fail ErrInvalidHandshake
       else fail ErrMarkNotFoundYet
     else
       signed ← slice 0 (pos + markLength) resp;
       let macCmp := mac128 (c_mac hs) (signed ++ c_epochHour hs) in
       macRx ← slice (pos + markLength) (pos + markLength + macLength) resp;
       if negb (Hmac.Equal macCmp macRx) then fail (InvalidMacError macCmp macRx)
       else
         let serverPublic := Ntor.ToPublic (default [] (serverRepresentative hs)) in
         let '(ok, seed, auth) := Ntor.ClientHandshake (c_keypair hs) serverPublic
                                    (c_serverIdentity hs) (c_nodeID hs) in
         if negb ok then fail ErrNtorFailed
         else if negb (Ntor.CompareAuth auth (default [] (serverAuth hs))) then
           fail (InvalidAuthError auth (default [] (serverAuth hs)))
         else mret (pos + markLength + macLength, seed)) hs.

(** ** The server *)

Record serverHandshake := mkServer {
  s_keypair : Ntor.Keypair;
  s_nodeID : bytes;
  s_serverIdentity : Ntor.Keypair;
  s_epochHour : bytes;
  s_serverAuth : option bytes;
  s_padLen : Z;
  s_mac : bytes;
  clientRepresentative : option bytes;
  clientMark : bytes
}.

(** [newServerHandshake]. *)
Definition newServerHandshake (nodeID : bytes) (serverIdentity sessionKey : Ntor.Keypair)
  : M bytes error serverHandshake :=
  padLen ← map_err EntropyError (Csrand.IntRange serverMinPadLength serverMaxPadLength);
  mret (mkServer sessionKey nodeID serverIdentity [] None padLen
                 (Ntor.public serverIdentity ++ nodeID) None []).

Definition set_epoch (e : bytes) (hs : serverHandshake) : serverHandshake :=
  mkServer (s_keypair hs) (s_nodeID hs) (s_serverIdentity hs) e (s_serverAuth hs)
    (s_padLen hs) (s_mac hs) (clientRepresentative hs) (clientMark hs).
Definition set_auth (a : bytes) (hs : serverHandshake) : serverHandshake :=
  mkServer (s_keypair hs) (s_nodeID hs) (s_serverIdentity hs) (s_epochHour hs) (Some a)
    (s_padLen hs) (s_mac hs) (clientRepresentative hs) (clientMark hs).

Definition pull_client (resp : bytes) (hs : serverHandshake) : serverHandshake :=
  match clientRepresentative hs with
  | Some _ => hs
  | None =>
      let x := ztake Ntor.RepresentativeLength resp in
      mkServer (s_keypair hs) (s_nodeID hs) (s_serverIdentity hs) (s_epochHour hs)
        (s_serverAuth hs) (s_padLen hs) (s_mac hs) (Some x) (mac128 (s_mac hs) x)
  end.

(** The state of [parseClientHandshake]: the handshake and the filter. *)
Abbreviation SM := (M (serverHandshake * ReplayFilter.ReplayFilter) error).
Definition modify_hs (f : serverHandshake -> serverHandshake) : SM unit :=
  modify (fun '(hs, rf) => (f hs, rf)).
Definition testAndSet (now : Z) (b : bytes) : SM bool := fun '(hs, rf) =>
  let '(seen, rf) := ReplayFilter.TestAndSet now b rf in (Ok seen, (hs, rf)).

(** The loop over the three epochs; the value is [macFound]. *)
Fixpoint mac_loop (offs : list Z) (hour now : Z) (signed macRx : bytes) (macFound : bool)
  : SM bool :=
  match offs with
  | [] => mret macFound
  | off :: offs =>
      let epochHour := epochHour_bytes (i64 (hour + off)) in
      key ← gets (fun s => s_mac s.1);
      let macCmp := mac128 key (signed ++ epochHour) in
      if Hmac.Equal macCmp macRx then
        seen ← testAndSet now macRx;
        if seen : bool then fail ErrReplayedHandshake
        else
          _ ← modify_hs (set_epoch epochHour);
          mac_loop offs hour now signed macRx true
      else mac_loop offs hour now signed macRx macFound
  end.

(** [parseClientHandshake (filter, resp)]: the seed. *)
Definition parseClientHandshake (hour now : Z) (resp : bytes) : SM bytes :=
  if clientMinHandshakeLength >? zlen resp then fail ErrMarkNotFoundYet
  else
    _ ← modify_hs (pull_client resp);
    mark ← gets (fun s => clientMark s.1);
    pos ← lift (findMarkMac mark resp (Ntor.RepresentativeLength + clientMinPadLength)
                  maxHandshakeLength true);
    if pos =? -1 then
      if zlen resp >=? maxHandshakeLength then fail ErrInvalidHandshake
      else fail ErrMarkNotFoundYet
    else
      signed ← slice 0 (pos + markLength) resp;
      macRx ← slice (pos + markLength) (pos + markLength + macLength) resp;
      macFound ← mac_loop [0; -1; 1] hour now signed macRx false;
      if negb macFound then fail ErrInvalidHandshake
      else if negb (zlen resp =? pos + markLength + macLength) then fail ErrInvalidHandshake
      else
        hs ← gets fst;
        let clientPublic := Ntor.ToPublic (default [] (clientRepresentative hs)) in
        let '(ok, seed, auth) := Ntor.ServerHandshake clientPublic (s_keypair hs)
                                   (s_serverIdentity hs) (s_nodeID hs) in
        if negb ok then fail ErrNtorFailed
        else _ ← modify_hs (set_auth auth); mret seed.

(** [serverHandshake.generateHandshake]. *)
Definition server_generate (hs : serverHandshake) : M bytes error bytes :=
  y ← lift (repr_bytes (s_keypair hs));
  let mark := mac128 (s_mac hs) y in
  pad ← makePad (s_padLen hs);
  match s_serverAuth hs with
  | None => panic "nil pointer dereference"
  | Some auth =>
      let buf := y ++ auth ++ pad ++ mark in
      mret (buf ++ mac128 (s_mac hs) (buf ++ s_epochHour hs))
  end.
End handshake.

(** ** Searching the mark *)

Lemma zlen_mac128 key msg : zlen (mac128 key msg) = markLength.
Proof.
  unfold mac128. rewrite zlen_ztake, Hmac.zlen_sum. done.
Qed.

(** The bounds of a mark that was found, and no slice out of range. *)
Lemma findMarkMac_bounds mark buf startPos maxPos tail :
  zlen mark = markLength -> 0 <= startPos ->
  exists pos, findMarkMac mark buf startPos maxPos tail = Ok pos
    /\ (pos = -1 \/ (startPos <= pos /\ pos + markLength + macLength <= zlen buf
                      /\ pos + markLength + macLength <= maxPos)).
Proof.
  intros Hm Hs. unfold findMarkMac. rewrite Hm, Z.eqb_refl. cbn [negb].
  destruct (startPos >? zlen buf) eqn:E1; b2p; [by exists (-1); split; [|left]|].
  set (endPos := if zlen buf >? maxPos then maxPos else zlen buf).
  assert (He : endPos <= zlen buf /\ endPos <= maxPos).
  { unfold endPos. destruct (zlen buf >? maxPos) eqn:?; b2p; lia. }
  destruct (endPos - startPos <? markLength + macLength) eqn:E2; b2p;
    [by exists (-1); split; [|left]|].
  assert (Hmk : markLength = 16 /\ macLength = 16) by done.
  destruct tail.
  - rewrite gslice_Some by lia. destruct (Hmac.Equal _ mark); cbn [negb];
      eexists; (split; [done|]); [right; lia|by left].
  - rewrite gslice_Some by lia. unfold bytes_Index.
    destruct (index_sub _ _) as [i|]; cbn [Z.eqb]; [|by exists (-1); split; [|left]].
    rewrite eqb_false by lia. destruct (_ >? endPos) eqn:E3; b2p;
      eexists; (split; [done|]); [by left|right; lia].
Qed.

(** What is found at the tail is the mark. *)
Lemma findMarkMac_found mark buf startPos maxPos pos :
  findMarkMac mark buf startPos maxPos true = Ok pos -> pos <> -1 ->
  gslice pos (pos + markLength) buf = Some mark.
Proof.
  unfold findMarkMac. destruct (negb _); [done|]. destruct (_ >? _); [by intros [= <-]|].
  destruct (_ <? _); [by intros [= <-]|]. destruct (gslice _ _ buf) as [d|] eqn:E; [|done].
  destruct (Hmac.Equal d mark) eqn:Em; cbn [negb]; intros [= <-]; [|done]. intros _.
  apply bool_decide_eq_true in Em. by subst d.
Qed.

(** The tail of the buffer. *)
Lemma findMarkMac_tail mark buf signed mac startPos :
  zlen mark = markLength -> zlen mac = macLength ->
  buf = signed ++ mark ++ mac -> 0 <= startPos <= zlen signed -> zlen buf <= maxHandshakeLength ->
  findMarkMac mark buf startPos maxHandshakeLength true = Ok (zlen signed).
Proof.
  intros Hm Hc -> Hs Hl. assert (Hmk : markLength = 16 /\ macLength = 16) by done.
  unfold findMarkMac. rewrite Hm, Z.eqb_refl. cbn [negb].
  rewrite !zlen_app in *. rewrite gtb_false by lia. rewrite gtb_false by lia.
  rewrite ltb_false by lia.
  rewrite (gslice_app_mid signed mark) by lia.
  replace (Hmac.Equal mark mark) with true by (symmetry; by apply bool_decide_eq_true).
  cbn [negb]. f_equal. lia.
Qed.

(** The first occurrence, with what follows the response behind it. *)
Lemma findMarkMac_first mark buf hd pad mac trail :
  zlen mark = markLength -> zlen mac = macLength ->
  buf = hd ++ pad ++ mark ++ mac ++ trail ->
  zlen hd + zlen pad + markLength + macLength <= maxHandshakeLength ->
  (forall i, (i < length pad)%nat -> ~ occurs_at mark (pad ++ mark ++ mac ++ trail) i) ->
  findMarkMac mark buf (zlen hd) maxHandshakeLength false = Ok (zlen hd + zlen pad).
Proof.
  intros Hm Hc -> Hl Hfirst. assert (Hmk : markLength = 16 /\ macLength = 16) by done.
  pose proof (zlen_nonneg hd). pose proof (zlen_nonneg pad). pose proof (zlen_nonneg trail).
  unfold findMarkMac. rewrite Hm, Z.eqb_refl. cbn [negb].
  rewrite gtb_false by (rewrite !zlen_app; lia).
  set (L := zlen (hd ++ pad ++ mark ++ mac ++ trail)).
  assert (HL : L = zlen hd + (zlen pad + (markLength + (macLength + zlen trail))))
    by (unfold L; rewrite !zlen_app; lia).
  set (endPos := if L >? maxHandshakeLength then maxHandshakeLength else L).
  assert (He : zlen hd + zlen pad + markLength + macLength <= endPos <= L).
  { unfold endPos. destruct (L >? maxHandshakeLength) eqn:?; b2p; lia. }
  rewrite ltb_false by lia. rewrite gslice_Some by (fold L; lia).
  rewrite zdrop_app by done.
  set (k := endPos - zlen hd).
  assert (Hsub : ztake k (pad ++ mark ++ mac ++ trail)
                 = pad ++ mark ++ mac ++ ztake (k - (zlen pad + markLength + macLength)) trail).
  { rewrite !ztake_app_ge by (rewrite ?Hm, ?Hc; lia). do 4 f_equal.
    rewrite Hm, Hc. lia. }
  rewrite Hsub. unfold bytes_Index.
  assert (Hi : index_sub mark (pad ++ mark ++ mac ++ ztake (k - (zlen pad + markLength + macLength)) trail)
               = Some (length pad)).
  { apply index_sub_Some. split; [by exists pad, (mac ++ ztake (k - (zlen pad + markLength + macLength)) trail)|].
    intros j Hj (a & r & Ha & Hla). apply (Hfirst j Hj).
    exists a, (r ++ zdrop (k - (zlen pad + markLength + macLength)) trail). split; [|done].
    transitivity ((pad ++ mark ++ mac ++ ztake (k - (zlen pad + markLength + macLength)) trail)
                  ++ zdrop (k - (zlen pad + markLength + macLength)) trail).
    - by rewrite <- !app_assoc, ztake_zdrop.
    - rewrite Ha. by rewrite <- !app_assoc. }
  rewrite Hi. rewrite eqb_false by lia. fold (zlen pad). rewrite gtb_false by lia.
  f_equal. lia.
Qed.

Section parse.
Context `{SipHash} `{Curve25519} `{Elligator}.

Definition server_hs_wf (hs : serverHandshake) : Prop :=
  clientRepresentative hs = None \/ zlen (clientMark hs) = markLength.
Definition client_hs_wf (hs : clientHandshake) : Prop :=
  serverRepresentative hs = None \/ zlen (serverMark hs) = markLength.

Lemma pull_client_wf resp hs :
  server_hs_wf hs -> zlen (clientMark (pull_client resp hs)) = markLength.
Proof.
  unfold server_hs_wf, pull_client. destruct (clientRepresentative hs) eqn:E; intros Hw; cbn.
  - by destruct Hw.
  - apply zlen_mac128.
Qed.

Lemma pull_server_wf resp hs :
  client_hs_wf hs -> zlen (serverMark (pull_server resp hs)) = markLength.
Proof.
  unfold client_hs_wf, pull_server.
  destruct (serverRepresentative hs) eqn:E, (serverAuth hs) eqn:E2; intros Hw; cbn;
    try apply zlen_mac128. by destruct Hw.
Qed.

Lemma set_epoch_self hs : set_epoch (s_epochHour hs) hs = hs.
Proof. by destruct hs. Qed.
Lemma set_epoch_twice e e' hs : set_epoch e (set_epoch e' hs) = set_epoch e hs.
Proof. by destruct hs. Qed.

Lemma mac_loop_spec hour now signed macRx offs : forall found hs rf r s',
  mac_loop offs hour now signed macRx found (hs, rf) = (r, s') ->
  (exists e, s'.1 = set_epoch e hs)
  /\ (r = Err ErrReplayedHandshake
      \/ exists b, r = Ok b /\ (b = true -> found = false ->
           exists off, off ∈ offs
             /\ mac128 (s_mac hs) (signed ++ epochHour_bytes (i64 (hour + off))) = macRx)).
Proof.
  induction offs as [|off offs IH]; intros found hs rf r s'; cbn [mac_loop]; mrun.
  - intros. simplify_eq. split; [exists (s_epochHour hs); by rewrite set_epoch_self|].
    right. exists found. split; [done|]. congruence.
  - cbn [fst]. destruct (Hmac.Equal _ _) eqn:Em.
    + unfold testAndSet. destruct (ReplayFilter.TestAndSet _ _ _) as [[] rf'].
      * intros. simplify_eq. split; [|by left]. exists (s_epochHour hs).
        by rewrite set_epoch_self.
      * unfold modify_hs, modify. intros E. apply IH in E as [[e He] Hr]. cbn in He.
        split; [exists e; by rewrite He, set_epoch_twice|].
        destruct Hr as [->|(b & -> & _)]; [by left|]. right. exists b. split; [done|].
        intros _ _. exists off. split; [by left|]. by apply bool_decide_eq_true in Em.
    + intros E. apply IH in E as [He Hr]. split; [done|].
      destruct Hr as [->|(b & -> & Hb)]; [by left|]. right. exists b. split; [done|].
      intros E1 E2. destruct (Hb E1 E2) as (o & ? & ?). exists o. split; [by right|done].
Qed.

(** What [parseClientHandshake] does once the minimum length is there. *)
Lemma parseClientHandshake_cases hour now resp hs rf r s' :
  server_hs_wf hs -> parseClientHandshake hour now resp (hs, rf) = (r, s') ->
  (r = Err ErrMarkNotFoundYet /\ zlen resp < maxHandshakeLength /\ server_hs_wf s'.1)
  \/ (r = Err ErrInvalidHandshake \/ r = Err ErrReplayedHandshake \/ r = Err ErrNtorFailed)
  \/ (exists seed pos off,
       r = Ok seed /\ zlen resp = pos + markLength + macLength
       /\ Ntor.RepresentativeLength + clientMinPadLength <= pos
       /\ zlen resp <= maxHandshakeLength
       /\ off ∈ [0; -1; 1]
       /\ mac128 (s_mac hs) (ztake (pos + markLength) resp
                             ++ epochHour_bytes (i64 (hour + off)))
          = zdrop (pos + markLength) resp).
Proof.
  intros Hw. unfold parseClientHandshake. destruct (_ >? _) eqn:El; b2p.
  { mrun. intros. simplify_eq. left. split_and!; [done| |done].
    assert (clientMinHandshakeLength < maxHandshakeLength) by done. lia. }
  unfold modify_hs. mrun. cbn [fst].
  pose proof (pull_client_wf resp hs Hw) as Hm.
  set (hs1 := pull_client resp hs) in *.
  destruct (findMarkMac_bounds (clientMark hs1) resp
    (Ntor.RepresentativeLength + clientMinPadLength) maxHandshakeLength true Hm ltac:(done))
    as (pos & -> & Hpos).
  destruct (pos =? -1) eqn:Ep; b2p.
  { destruct (_ >=? _) eqn:Eg; b2p; intros; simplify_eq; [by right; left; left|].
    left. split_and!; [done|done|by right]. }
  destruct Hpos as [?|(Hp1 & Hp2 & Hp3)]; [done|].
  assert (Hp0 : 0 <= pos) by (assert (0 <= Ntor.RepresentativeLength + clientMinPadLength) by done; lia).
  assert (Hmk : markLength = 16 /\ macLength = 16) by done.
  rewrite !gslice_Some by lia.
  destruct (mac_loop _ _ _ _ _ _ _) as [rl s1] eqn:Eloop.
  apply mac_loop_spec in Eloop as [[e He] [->|(b & -> & Hb)]].
  { intros. simplify_eq. right; left; by right; left. }
  destruct b; cbn [negb]; [|intros; simplify_eq; by right; left; left].
  destruct (zlen resp =? _) eqn:Elen; cbn [negb]; [|intros; simplify_eq; by right; left; left].
  b2p. destruct (Hb eq_refl eq_refl) as (off & Hoff & Hmac).
  destruct (Ntor.ServerHandshake _ _ _ _) as [[ok seed] auth].
  destruct ok; cbn [negb]; [|intros; simplify_eq; right; left; by right; right].
  destruct s1 as [hs2 rf2]. intros. simplify_eq. right; right. exists seed, pos, off.
  split_and!; [done|done|lia|lia|done|].
  assert (Ek : s_mac hs1 = s_mac hs)
    by (unfold hs1, pull_client; by destruct (clientRepresentative hs)).
  rewrite <- Ek. rewrite Z.sub_0_r in Hmac.
  rewrite zdrop_0 in Hmac. rewrite Hmac. apply ztake_ge. zlia.
Qed.

(** The representative was taken from the bytes that came, and the mark is its MAC. *)
Definition pulled (hs : serverHandshake) (resp : bytes) : Prop :=
  match clientRepresentative hs with
  | None => True
  | Some x => Ntor.RepresentativeLength <= zlen resp /\ x = ztake Ntor.RepresentativeLength resp
              /\ clientMark hs = mac128 (s_mac hs) x
  end.

Lemma pull_client_pulled hs resp : Ntor.RepresentativeLength <= zlen resp -> pulled hs resp ->
  pulled (pull_client resp hs) resp
  /\ clientMark (pull_client resp hs) = mac128 (s_mac hs) (ztake Ntor.RepresentativeLength resp).
Proof.
  unfold pulled, pull_client. intros Hl. destruct (clientRepresentative hs) as [x|] eqn:E.
  - rewrite E. intros (? & -> & ?). by split_and!.
  - cbn. done.
Qed.

Lemma pulled_more hs resp more : pulled hs resp -> pulled hs (resp ++ more).
Proof.
  unfold pulled. destruct (clientRepresentative hs) as [x|]; [|done]. intros (Hl & -> & Hm).
  rewrite zlen_app, ztake_app_le by done. pose proof (zlen_nonneg more). split_and!; [lia|done|done].
Qed.

(** What is left behind when more data is asked for. *)
Lemma parse_again_pulled hour now resp hs rf s' :
  server_hs_wf hs -> pulled hs resp ->
  parseClientHandshake hour now resp (hs, rf) = (Err ErrMarkNotFoundYet, s') -> pulled s'.1 resp.
Proof.
  intros Hw Hp. unfold parseClientHandshake. destruct (_ >? _) eqn:El; b2p.
  { mrun. intros. by simplify_eq. }
  unfold modify_hs. mrun. cbn [fst].
  pose proof (pull_client_wf resp hs Hw) as Hm.
  assert (Hl : Ntor.RepresentativeLength <= zlen resp)
    by (assert (Ntor.RepresentativeLength <= clientMinHandshakeLength) by done; lia).
  destruct (pull_client_pulled hs resp Hl Hp) as [Hp' _].
  set (hs1 := pull_client resp hs) in *.
  destruct (findMarkMac_bounds (clientMark hs1) resp
    (Ntor.RepresentativeLength + clientMinPadLength) maxHandshakeLength true Hm ltac:(done))
    as (pos & -> & Hpos).
  destruct (pos =? -1) eqn:Ep; b2p; [destruct (_ >=? _); intros; by simplify_eq|].
  destruct Hpos as [?|(Hp1 & Hp2 & Hp3)]; [done|].
  assert (Hp0 : 0 <= Ntor.RepresentativeLength + clientMinPadLength) by done.
  assert (Hmk : markLength = 16 /\ macLength = 16) by done.
  rewrite !gslice_Some by lia.
  destruct (mac_loop _ _ _ _ _ _ _) as [rl s1] eqn:Eloop.
  apply mac_loop_spec in Eloop as [_ [->|(b & -> & _)]]; [intros; by simplify_eq|].
  destruct b; cbn [negb]; [|intros; by simplify_eq].
  destruct (_ =? _); cbn [negb]; [|intros; by simplify_eq].
  destruct (Ntor.ServerHandshake _ _ _ _) as [[ok seed] auth].
  destruct ok; cbn [negb]; [|intros; by simplify_eq].
  destruct s1. intros. by simplify_eq.
Qed.

(** An accepted message has the mark in front of its last sixteen bytes. *)
Lemma parse_Ok_mark hour now resp hs rf seed s' :
  server_hs_wf hs -> parseClientHandshake hour now resp (hs, rf) = (Ok seed, s') ->
  gslice (zlen resp - macLength - markLength) (zlen resp - macLength) resp
  = Some (clientMark (pull_client resp hs)).
Proof.
  intros Hw. unfold parseClientHandshake. destruct (_ >? _) eqn:El; b2p; [done|].
  unfold modify_hs. mrun. cbn [fst].
  pose proof (pull_client_wf resp hs Hw) as Hm. set (hs1 := pull_client resp hs) in *.
  destruct (findMarkMac_bounds (clientMark hs1) resp
    (Ntor.RepresentativeLength + clientMinPadLength) maxHandshakeLength true Hm ltac:(done))
    as (pos & Ef & Hpos).
  rewrite Ef. destruct (pos =? -1) eqn:Ep; b2p; [by destruct (_ >=? _)|].
  destruct Hpos as [?|(Hp1 & Hp2 & Hp3)]; [done|].
  apply findMarkMac_found in Ef; [|done].
  assert (Hp0 : 0 <= Ntor.RepresentativeLength + clientMinPadLength) by done.
  assert (Hmk : markLength = 16 /\ macLength = 16) by done.
  rewrite !gslice_Some by lia.
  destruct (mac_loop _ _ _ _ _ _ _) as [[b|?|?] s1]; [|done..].
  destruct b; cbn [negb]; [|done].
  destruct (zlen resp =? _) eqn:Elen; cbn [negb]; [|done]. b2p. intros _.
  rewrite gslice_Some in Ef by lia. rewrite <- Ef. do 2 f_equal; [lia|f_equal; lia].
Qed.

Lemma ztake_add (n m : Z) (l : bytes) : 0 <= n -> 0 <= m -> n <= zlen l ->
  ztake (n + m) l = ztake n l ++ ztake m (zdrop n l).
Proof.
  intros. rewrite <- (ztake_zdrop n l) at 1.
  rewrite ztake_app_ge by (rewrite zlen_ztake; lia). do 2 f_equal. rewrite zlen_ztake. lia.
Qed.

(** The parts of an accepted message. *)
Lemma accepted_parts (resp mark : bytes) (pos : Z) :
  zlen mark = markLength -> zlen resp = pos + markLength + macLength ->
  Ntor.RepresentativeLength + clientMinPadLength <= pos ->
  gslice (zlen resp - macLength - markLength) (zlen resp - macLength) resp = Some mark ->
  exists pad, zlen pad = pos - Ntor.RepresentativeLength
    /\ resp = ztake Ntor.RepresentativeLength resp ++ pad ++ mark ++ zdrop (pos + markLength) resp
    /\ ztake Ntor.RepresentativeLength resp ++ pad ++ mark = ztake (pos + markLength) resp.
Proof.
  intros Hm Hl Hp Hg.
  assert (Hc : markLength = 16 /\ macLength = 16 /\ Ntor.RepresentativeLength = 32
    /\ clientMinPadLength = 77) by done.
  replace (zlen resp - macLength - markLength) with pos in Hg by lia.
  replace (zlen resp - macLength) with (pos + markLength) in Hg by lia.
  rewrite gslice_Some in Hg by lia. injection Hg as Hg.
  replace (pos + markLength - pos) with markLength in Hg by lia.
  exists (ztake (pos - Ntor.RepresentativeLength) (zdrop Ntor.RepresentativeLength resp)).
  assert (E : ztake Ntor.RepresentativeLength resp
      ++ ztake (pos - Ntor.RepresentativeLength) (zdrop Ntor.RepresentativeLength resp) ++ mark
    = ztake (pos + markLength) resp).
  { rewrite <- Hg, (ztake_add pos markLength) by lia. rewrite app_assoc. f_equal.
    rewrite <- ztake_add by lia. f_equal. lia. }
  split_and!; [rewrite zlen_ztake, zlen_zdrop; lia| |done].
  rewrite <- (ztake_zdrop (pos + markLength) resp) at 1. rewrite <- E. by rewrite <- !app_assoc.
Qed.

Lemma parseServerHandshake_cases resp hs r hs' :
  client_hs_wf hs -> parseServerHandshake resp hs = (r, hs') ->
  client_hs_wf hs'
  /\ match r with
     | Ok (n, seed) => serverMinHandshakeLength <= n <= zlen resp
     | Err ErrMarkNotFoundYet => zlen resp < maxHandshakeLength
     | Err ErrInvalidHandshake => maxHandshakeLength <= zlen resp
     | Err _ => True
     | Panic _ => False
     end.
Proof.
  intros Hw. unfold parseServerHandshake. destruct (_ >? _) eqn:El; b2p.
  { intros. simplify_eq. split; [done|].
    assert (serverMinHandshakeLength < maxHandshakeLength) by done. lia. }
  pose proof (pull_server_wf resp hs Hw) as Hm.
  set (hs1 := pull_server resp hs) in *. mrun.
  destruct (findMarkMac_bounds (serverMark hs1) resp
    (Ntor.RepresentativeLength + Ntor.AuthLength + serverMinPadLength)
    maxHandshakeLength false Hm ltac:(done)) as (pos & -> & Hpos).
  assert (Hw1 : client_hs_wf hs1) by (by right).
  destruct (pos =? -1) eqn:Ep; b2p.
  { destruct (_ >=? _) eqn:Eg; b2p; intros; by simplify_eq. }
  destruct Hpos as [?|(Hp1 & Hp2 & Hp3)]; [done|].
  assert (Hp0 : serverMinHandshakeLength = Ntor.RepresentativeLength + Ntor.AuthLength
    + serverMinPadLength + markLength + macLength) by done.
  assert (Hmk : markLength = 16 /\ macLength = 16
    /\ 0 <= Ntor.RepresentativeLength + Ntor.AuthLength + serverMinPadLength) by done.
  rewrite !gslice_Some by lia.
  destruct (Hmac.Equal _ _); cbn [negb]; [|intros; by simplify_eq].
  destruct (Ntor.ClientHandshake _ _ _ _) as [[ok seed] auth].
  destruct ok; cbn [negb]; [|intros; by simplify_eq].
  destruct (Ntor.CompareAuth _ _); cbn [negb]; intros; simplify_eq; [|done].
  split; [done|lia].
Qed.

(** ** Messages the two sides make *)

(** X | P_C | M_C | MAC and Y | AUTH | P_S | M_S | MAC. *)
Definition client_blob (key x pad : bytes) (hour : Z) : bytes :=
  let buf := x ++ pad ++ mac128 key x in buf ++ mac128 key (buf ++ epochHour_bytes hour).
Definition server_blob (key y auth pad epoch : bytes) : bytes :=
  let buf := y ++ auth ++ pad ++ mac128 key y in buf ++ mac128 key (buf ++ epoch).

Lemma client_generate_blob hour hs x t :
  Ntor.representative (c_keypair hs) = Some x -> c_padLen hs <= zlen t ->
  client_generate hour hs t
  = (Ok (client_blob (c_mac hs) x (ztake (c_padLen hs) t) hour,
         mkClient (c_keypair hs) (c_nodeID hs) (c_serverIdentity hs) (epochHour_bytes hour)
           (c_padLen hs) (c_mac hs) (serverRepresentative hs) (serverAuth hs) (serverMark hs)),
     zdrop (c_padLen hs) t).
Proof.
  intros Hr Ht. unfold client_generate, makePad, repr_bytes, map_err, Csrand.Bytes. mrun.
  rewrite Hr. rewrite leb_true by done. done.
Qed.

Lemma server_generate_blob hs y auth t :
  Ntor.representative (s_keypair hs) = Some y -> s_serverAuth hs = Some auth ->
  s_padLen hs <= zlen t ->
  server_generate hs t
  = (Ok (server_blob (s_mac hs) y auth (ztake (s_padLen hs) t) (s_epochHour hs)),
     zdrop (s_padLen hs) t).
Proof.
  intros Hr Ha Ht. unfold server_generate, makePad, repr_bytes, map_err, Csrand.Bytes. mrun.
  rewrite Hr, Ha. rewrite leb_true by done. done.
Qed.

Definition mac_matches (key signed macRx : bytes) (hour off : Z) : Prop :=
  mac128 key (signed ++ epochHour_bytes (i64 (hour + off))) = macRx.

Lemma mac_loop_none hour now signed macRx offs : forall found hs rf,
  Forall (fun off => ~ mac_matches (s_mac hs) signed macRx hour off) offs ->
  mac_loop offs hour now signed macRx found (hs, rf) = (Ok found, (hs, rf)).
Proof.
  induction offs as [|off offs IH]; intros found hs rf Hn; cbn [mac_loop]; mrun; [done|].
  apply Forall_cons in Hn as [Hn Hns]. cbn [fst].
  replace (Hmac.Equal _ _) with false; [by apply IH|].
  symmetry. by apply bool_decide_eq_false.
Qed.

Lemma mac_loop_one hour now signed macRx l1 off l2 found hs rf :
  mac_matches (s_mac hs) signed macRx hour off ->
  Forall (fun o => ~ mac_matches (s_mac hs) signed macRx hour o) (l1 ++ l2) ->
  mac_loop (l1 ++ off :: l2) hour now signed macRx found (hs, rf)
  = let '(seen, rf') := ReplayFilter.TestAndSet now macRx rf in
    if seen then (Err ErrReplayedHandshake, (hs, rf'))
    else (Ok true, (set_epoch (epochHour_bytes (i64 (hour + off))) hs, rf')).
Proof.
  intros Hm. revert found. induction l1 as [|o l1 IH]; intros found Hn.
  - cbn [app mac_loop]. mrun. cbn [fst].
    replace (Hmac.Equal _ _) with true by (symmetry; by apply bool_decide_eq_true).
    unfold testAndSet, modify_hs. mrun.
    destruct (ReplayFilter.TestAndSet _ _ _) as [[] rf']; [done|].
    by rewrite mac_loop_none.
  - apply Forall_cons in Hn as [Ho Hn]. cbn [app mac_loop]. mrun. cbn [fst].
    replace (Hmac.Equal _ _) with false by (symmetry; by apply bool_decide_eq_false).
    by apply IH.
Qed.

(** The server reads a client's message. *)
Lemma parse_client_blob hour now x pad hc hs rf off l1 l2 :
  clientRepresentative hs = None ->
  zlen x = Ntor.RepresentativeLength ->
  clientMinPadLength <= zlen pad <= clientMaxPadLength ->
  [0; -1; 1] = l1 ++ off :: l2 -> i64 (hour + off) = hc ->
  let blob := client_blob (s_mac hs) x pad hc in
  let signed := x ++ pad ++ mac128 (s_mac hs) x in
  let macRx := mac128 (s_mac hs) (signed ++ epochHour_bytes hc) in
  Forall (fun o => ~ mac_matches (s_mac hs) signed macRx hour o) (l1 ++ l2) ->
  parseClientHandshake hour now blob (hs, rf)
  = let hs1 := pull_client blob hs in
    let '(seen, rf') := ReplayFilter.TestAndSet now macRx rf in
    if seen then (Err ErrReplayedHandshake, (hs1, rf'))
    else
      let hs2 := set_epoch (epochHour_bytes hc) hs1 in
      let '(ok, seed, auth) := Ntor.ServerHandshake (Ntor.ToPublic x) (s_keypair hs)
                                 (s_serverIdentity hs) (s_nodeID hs) in
      if ok then (Ok seed, (set_auth auth hs2, rf')) else (Err ErrNtorFailed, (hs2, rf')).
Proof.
  intros Hr Hx Hpad Hoffs Hhc blob signed macRx Hn.
  assert (Hc : markLength = 16 /\ macLength = 16 /\ Ntor.RepresentativeLength = 32
    /\ clientMinPadLength = 77 /\ clientMaxPadLength = 8128 /\ maxHandshakeLength = 8192
    /\ clientMinHandshakeLength = 64) by done.
  assert (Hmk : zlen (mac128 (s_mac hs) x) = markLength) by apply zlen_mac128.
  assert (Hmc : zlen macRx = macLength) by apply zlen_mac128.
  assert (Hlb : zlen blob = 32 + zlen pad + 32)
    by (unfold blob, client_blob; fold signed; rewrite zlen_app; fold macRx; rewrite Hmc;
        unfold signed; rewrite !zlen_app, Hmk; lia).
  assert (Hsg : zlen signed = 32 + zlen pad + 16)
    by (unfold signed; rewrite !zlen_app, Hmk; lia).
  assert (Hbs : blob = signed ++ macRx) by done.
  unfold parseClientHandshake. rewrite gtb_false by lia. unfold modify_hs. mrun. cbn [fst].
  set (hs1 := pull_client blob hs).
  assert (Hs1 : hs1 = mkServer (s_keypair hs) (s_nodeID hs) (s_serverIdentity hs)
    (s_epochHour hs) (s_serverAuth hs) (s_padLen hs) (s_mac hs) (Some x) (mac128 (s_mac hs) x)).
  { unfold hs1, pull_client. rewrite Hr.
    replace (ztake _ blob) with x; [done|]. rewrite Hbs. unfold signed.
    rewrite <- !app_assoc. symmetry. by apply ztake_app. }
  rewrite (findMarkMac_tail (clientMark hs1) blob (x ++ pad) macRx).
  2: { rewrite Hs1. cbn. done. }
  2: done.
  2: { rewrite Hs1, Hbs. unfold signed. cbn. by rewrite <- !app_assoc. }
  2: { rewrite zlen_app. lia. }
  2: lia.
  rewrite eqb_false by (rewrite zlen_app; zlen_pos; lia).
  replace (zlen (x ++ pad) + markLength) with (zlen signed) by (rewrite zlen_app; lia).
  rewrite !gslice_Some by (rewrite ?Hsg, ?Hlb; lia).
  rewrite Z.sub_0_r, zdrop_0. rewrite Hbs, ztake_app, zdrop_app by done.
  replace (zlen signed + macLength - zlen signed) with (zlen macRx) by lia.
  rewrite (ztake_ge _ macRx) by lia.
  rewrite Hoffs, mac_loop_one.
  2: { rewrite Hs1. unfold mac_matches. cbn. by rewrite Hhc. }
  2: { rewrite Hs1. exact Hn. }
  destruct (ReplayFilter.TestAndSet _ _ _) as [[] rf']; [done|]. cbn [negb].
  rewrite Hhc. replace (_ =? _) with true by (symmetry; apply Z.eqb_eq; rewrite zlen_app; lia).
  cbn [negb]. rewrite Hs1. unfold set_epoch.
  cbn [fst clientRepresentative s_keypair s_serverIdentity s_nodeID default].
  destruct (Ntor.ServerHandshake _ _ _ _) as [[[] seed] auth]; done.
Qed.

(** The client reads the server's message, with data behind it. *)
Lemma parse_server_blob y auth pad epoch trail hs :
  serverRepresentative hs = None -> c_epochHour hs = epoch ->
  zlen y = Ntor.RepresentativeLength -> zlen auth = Ntor.AuthLength ->
  zlen pad <= serverMaxPadLength ->
  let blob := server_blob (c_mac hs) y auth pad epoch in
  let mark := mac128 (c_mac hs) y in
  let rest := mark ++ mac128 (c_mac hs) ((y ++ auth ++ pad ++ mark) ++ epoch) ++ trail in
  (forall i, (i < length pad)%nat -> ~ occurs_at mark (pad ++ rest) i) ->
  parseServerHandshake (blob ++ trail) hs
  = let hs1 := pull_server (blob ++ trail) hs in
    let '(ok, seed, auth') := Ntor.ClientHandshake (c_keypair hs) (Ntor.ToPublic y)
                                (c_serverIdentity hs) (c_nodeID hs) in
    if ok then
      if Ntor.CompareAuth auth' auth then (Ok (zlen blob, seed), hs1)
      else (Err (InvalidAuthError auth' auth), hs1)
    else (Err ErrNtorFailed, hs1).
Proof.
  intros Hr He Hy Ha Hpad blob mark rest Hfirst.
  assert (Hc : markLength = 16 /\ macLength = 16 /\ Ntor.RepresentativeLength = 32
    /\ Ntor.AuthLength = 32 /\ serverMaxPadLength = 8051 /\ maxHandshakeLength = 8192
    /\ serverMinHandshakeLength = 96) by done.
  set (signed := y ++ auth ++ pad ++ mark) in *.
  set (mac := mac128 (c_mac hs) (signed ++ epoch)) in *.
  assert (Hmk : zlen mark = markLength) by apply zlen_mac128.
  assert (Hmc : zlen mac = macLength) by apply zlen_mac128.
  assert (Hbs : blob = signed ++ mac) by done.
  assert (Hsg : zlen signed = 64 + zlen pad + 16) by (unfold signed; rewrite !zlen_app; lia).
  assert (Hlb : zlen blob = zlen signed + 16) by (rewrite Hbs, zlen_app; lia).
  pose proof (zlen_nonneg trail). pose proof (zlen_nonneg pad).
  unfold parseServerHandshake. rewrite gtb_false by (rewrite zlen_app; lia).
  set (hs1 := pull_server (blob ++ trail) hs).
  assert (Hs1 : hs1 = mkClient (c_keypair hs) (c_nodeID hs) (c_serverIdentity hs)
    (c_epochHour hs) (c_padLen hs) (c_mac hs) (Some y) (Some auth) mark).
  { unfold hs1, pull_server. rewrite Hr, Hbs. unfold signed. rewrite <- !app_assoc.
    rewrite ztake_app, zdrop_app, ztake_app by done. done. }
  mrun.
  replace (Ntor.RepresentativeLength + Ntor.AuthLength + serverMinPadLength)
    with (zlen (y ++ auth)) by (rewrite zlen_app; unfold serverMinPadLength; lia).
  rewrite (findMarkMac_first (serverMark hs1) (blob ++ trail) (y ++ auth) pad mac trail).
  2: { by rewrite Hs1. }
  2: done.
  2: { rewrite Hs1, Hbs. unfold signed. cbn. by rewrite <- !app_assoc. }
  2: { rewrite zlen_app. lia. }
  2: { rewrite Hs1. exact Hfirst. }
  rewrite eqb_false by (rewrite zlen_app; lia).
  replace (zlen (y ++ auth) + zlen pad + markLength) with (zlen signed) by (rewrite zlen_app; lia).
  rewrite !gslice_Some by (rewrite ?zlen_app; lia).
  rewrite Z.sub_0_r, zdrop_0. rewrite Hbs, <- !app_assoc, ztake_app, zdrop_app by done.
  replace (zlen signed + macLength - zlen signed) with (zlen mac) by lia.
  rewrite ztake_app by done. rewrite Hs1. cbn [c_mac c_epochHour]. rewrite He. fold mac.
  replace (Hmac.Equal mac mac) with true by (symmetry; by apply bool_decide_eq_true).
  cbn [negb c_keypair c_nodeID c_serverIdentity serverRepresentative serverAuth default].
  destruct (Ntor.ClientHandshake _ _ _ _) as [[[] seed] auth']; cbn [negb]; [|done].
  destruct (Ntor.CompareAuth _ _); cbn [negb]; [|done].
  rewrite zlen_app, Hmc. done.
Qed.

(** ** Replays *)

Lemma mac_loop_sim k0 k1 tl hour now signed macRx offs : forall t0 hist found hs rf b s',
  0 < tl -> ReplayFilter.time_ok now -> t0 <= now ->
  ReplayFilter.sim k0 k1 tl t0 rf hist ->
  zlen (ReplayFilter.fifo rf) + zlen offs <= ReplayFilter.maxFilterSize ->
  mac_loop offs hour now signed macRx found (hs, rf) = (Ok b, s') ->
  exists t1 hist', t1 <= now /\ ReplayFilter.sim k0 k1 tl t1 s'.2 hist'
    /\ (forall x, x ∈ hist -> x ∈ hist')
    /\ zlen (ReplayFilter.fifo s'.2) <= zlen (ReplayFilter.fifo rf) + zlen offs
    /\ (b = true -> found = false ->
        ReplayFilter.seen tl now (sip_Hash k0 k1 macRx) hist = false
        /\ (sip_Hash k0 k1 macRx, now) ∈ hist').
Proof.
  induction offs as [|off offs IH]; intros t0 hist found hs rf b s' Ht Hnow Hle Hsim Hlen;
    cbn [mac_loop]; mrun.
  - intros. simplify_eq. exists t0, hist. cbn. split_and!; try done; [zlia|congruence].
  - cbn [fst]. rewrite zlen_cons in Hlen. destruct (Hmac.Equal _ _).
    + unfold testAndSet.
      destruct (ReplayFilter.TestAndSet_sim k0 k1 tl t0 now macRx rf hist Ht Hnow Hle Hsim)
        as (rf' & -> & Hsim' & Hl); [zlen_pos; lia|].
      destruct (ReplayFilter.seen _ _ _ _) eqn:Eseen; [done|].
      unfold modify_hs, modify. intros E.
      apply (IH now _ true _ _ _ _ Ht Hnow ltac:(lia) Hsim' ltac:(lia)) in E
        as (t1 & h1 & ? & ? & Hsub & Hl1 & _).
      exists t1, h1. split_and!; [done|done| |rewrite zlen_cons; lia|].
      * intros x Hx. apply Hsub. by apply elem_of_cons; right.
      * intros _ _. split; [done|]. apply Hsub. by apply elem_of_cons; left.
    + intros E. apply (IH t0 hist _ _ _ _ _ Ht Hnow Hle Hsim ltac:(lia)) in E
        as (t1 & h1 & ? & ? & Hsub & Hl1 & Hb).
      exists t1, h1. split_and!; [done|done|done|rewrite zlen_cons; lia|done].
Qed.

(** An accepted message was not in the history, and is from then on: its MAC,
    the last sixteen bytes, is what is recorded. *)
Lemma parse_Ok_sim k0 k1 tl t0 hist hour now resp hs rf seed s' :
  0 < tl -> ReplayFilter.time_ok now -> t0 <= now ->
  ReplayFilter.sim k0 k1 tl t0 rf hist ->
  zlen (ReplayFilter.fifo rf) + 3 <= ReplayFilter.maxFilterSize ->
  server_hs_wf hs ->
  parseClientHandshake hour now resp (hs, rf) = (Ok seed, s') ->
  let d := sip_Hash k0 k1 (zdrop (zlen resp - macLength) resp) in
  exists t1 hist', t1 <= now /\ ReplayFilter.sim k0 k1 tl t1 s'.2 hist'
    /\ (forall x, x ∈ hist -> x ∈ hist')
    /\ zlen (ReplayFilter.fifo s'.2) <= zlen (ReplayFilter.fifo rf) + 3
    /\ ReplayFilter.seen tl now d hist = false /\ (d, now) ∈ hist'.
Proof.
  intros Ht Hnow Hle Hsim Hlen Hw. unfold parseClientHandshake.
  destruct (_ >? _) eqn:El; [done|]. b2p. unfold modify_hs. mrun. cbn [fst].
  pose proof (pull_client_wf resp hs Hw) as Hm. set (hs1 := pull_client resp hs) in *.
  destruct (findMarkMac_bounds (clientMark hs1) resp
    (Ntor.RepresentativeLength + clientMinPadLength) maxHandshakeLength true Hm ltac:(done))
    as (pos & -> & Hpos).
  destruct (pos =? -1) eqn:Ep; b2p; [by destruct (_ >=? _)|].
  destruct Hpos as [?|(Hp1 & Hp2 & Hp3)]; [done|].
  assert (Hp0 : 0 <= pos) by (assert (0 <= Ntor.RepresentativeLength + clientMinPadLength) by done; lia).
  assert (Hmk : markLength = 16 /\ macLength = 16) by done.
  rewrite !gslice_Some by lia. set (macRx := ztake _ (zdrop (pos + markLength) resp)).
  destruct (mac_loop _ _ _ _ _ _ _) as [[b|?|?] s1] eqn:Eloop; try done.
  apply (mac_loop_sim k0 k1 tl hour now _ macRx [0; -1; 1] t0 hist) in Eloop
    as (t1 & h1 & ? & Hs1 & Hsub & Hl1 & Hb); [|done..].
  destruct b; cbn [negb]; [|done].
  destruct (zlen resp =? _) eqn:Elen; cbn [negb]; [|done]. b2p.
  destruct (Ntor.ServerHandshake _ _ _ _) as [[ok sd] auth].
  destruct ok; cbn [negb]; [|done]. destruct s1 as [hs2 rf2]. intros. simplify_eq.
  assert (Hmac : macRx = zdrop (zlen resp - macLength) resp).
  { unfold macRx. rewrite ztake_ge by zlia. f_equal. lia. }
  destruct (Hb eq_refl eq_refl) as [Hseen Hin]. rewrite Hmac in Hseen, Hin.
  exists t1, h1. cbn in *. done.
Qed.
End parse.

Section properties.
Context `{SipHash} `{Curve25519Laws} `{!Elligator} `{!ElligatorLaws}.

Lemma newClientHandshake_Ok node id k t hs t' :
  newClientHandshake node id k t = (Ok hs, t') ->
  hs = mkClient k node id [] (c_padLen hs) (id ++ node) None None []
  /\ clientMinPadLength <= c_padLen hs <= clientMaxPadLength.
Proof.
  unfold newClientHandshake, map_err. mrun.
  destruct (Csrand.IntRange _ _ t) as [[n|?|?] t1] eqn:E; intros; simplify_eq.
  apply Csrand.IntRange_Ok in E. done.
Qed.
Lemma newServerHandshake_Ok node id k t hs t' :
  newServerHandshake node id k t = (Ok hs, t') ->
  hs = mkServer k node id [] None (s_padLen hs) (Ntor.public id ++ node) None []
  /\ serverMinPadLength <= s_padLen hs <= serverMaxPadLength.
Proof.
  unfold newServerHandshake, map_err. mrun.
  destruct (Csrand.IntRange _ _ t) as [[n|?|?] t1] eqn:E; intros; simplify_eq.
  apply Csrand.IntRange_Ok in E. done.
Qed.

Lemma client_generate_Ok hour hs t blob hs' t' :
  client_generate hour hs t = (Ok (blob, hs'), t') ->
  exists x, Ntor.representative (c_keypair hs) = Some x /\ c_padLen hs <= zlen t
    /\ blob = client_blob (c_mac hs) x (ztake (c_padLen hs) t) hour
    /\ hs' = mkClient (c_keypair hs) (c_nodeID hs) (c_serverIdentity hs)
           (epochHour_bytes hour) (c_padLen hs) (c_mac hs) (serverRepresentative hs)
           (serverAuth hs) (serverMark hs).
Proof.
  intros E. destruct (Ntor.representative (c_keypair hs)) as [x|] eqn:Er.
  2: { unfold client_generate, repr_bytes in E. mrun_in E. by rewrite Er in E. }
  destruct (decide (c_padLen hs <= zlen t)) as [Hl|Hl].
  - rewrite (client_generate_blob _ _ x) in E by done. simplify_eq. by exists x.
  - unfold client_generate, repr_bytes, makePad, map_err, Csrand.Bytes in E. mrun_in E.
    rewrite Er, leb_false in E by lia. done.
Qed.
Lemma server_generate_Ok hs t blob t' auth :
  s_serverAuth hs = Some auth -> server_generate hs t = (Ok blob, t') ->
  exists y, Ntor.representative (s_keypair hs) = Some y /\ s_padLen hs <= zlen t
    /\ blob = server_blob (s_mac hs) y auth (ztake (s_padLen hs) t) (s_epochHour hs).
Proof.
  intros Ha E. destruct (Ntor.representative (s_keypair hs)) as [y|] eqn:Er.
  2: { unfold server_generate, repr_bytes in E. mrun_in E. by rewrite Er in E. }
  destruct (decide (s_padLen hs <= zlen t)) as [Hl|Hl].
  - rewrite (server_generate_blob _ y auth) in E by done. simplify_eq. by exists y.
  - unfold server_generate, repr_bytes, makePad, map_err, Csrand.Bytes in E. mrun_in E.
    rewrite Er, leb_false in E by lia. done.
Qed.

(** The last sixteen bytes of a message are its MAC. *)
Definition signed_part (m : bytes) : bytes := ztake (zlen m - macLength) m.
Definition mac_part (m : bytes) : bytes := zdrop (zlen m - macLength) m.

Lemma parts_client_blob key x pad hour :
  signed_part (client_blob key x pad hour) = x ++ pad ++ mac128 key x
  /\ mac_part (client_blob key x pad hour)
     = mac128 key ((x ++ pad ++ mac128 key x) ++ epochHour_bytes hour).
Proof.
  unfold signed_part, mac_part, client_blob.
  set (b := x ++ pad ++ mac128 key x).
  assert (Hl : zlen (b ++ mac128 key (b ++ epochHour_bytes hour)) - macLength = zlen b)
    by (rewrite zlen_app, zlen_mac128; unfold macLength, markLength; lia).
  rewrite Hl. by rewrite ztake_app, zdrop_app.
Qed.

Lemma zlen_ServerHandshake_auth x ks ki id ok seed auth :
  Ntor.ServerHandshake x ks ki id = (ok, seed, auth) -> zlen auth = Ntor.AuthLength.
Proof.
  unfold Ntor.ServerHandshake, Ntor.ntorCommon. intros. simplify_eq. apply Hmac.zlen_sum.
Qed.

(** The server accepts the message an honest client made. *)
Lemma server_accepts ks ki node x pad hc s0 hour off l1 l2 now rf rf' :
  s0 = mkServer ks node ki [] None (s_padLen s0) (Ntor.public ki ++ node) None [] ->
  zlen x = Ntor.RepresentativeLength -> clientMinPadLength <= zlen pad <= clientMaxPadLength ->
  [0; -1; 1] = l1 ++ off :: l2 -> i64 (hour + off) = hc ->
  let blob := client_blob (s_mac s0) x pad hc in
  Forall (fun o => ~ mac_matches (s_mac s0) (signed_part blob) (mac_part blob) hour o)
         (l1 ++ l2) ->
  ReplayFilter.TestAndSet now (mac_part blob) rf = (false, rf') ->
  forall seed auth,
  Ntor.ServerHandshake (Ntor.ToPublic x) ks ki node = (true, seed, auth) ->
  parseClientHandshake hour now blob (s0, rf)
  = (Ok seed, (set_auth auth (set_epoch (epochHour_bytes hc) (pull_client blob s0)), rf')).
Proof.
  intros Es Hx Hp Hoffs Hhc blob Hn Htas seed auth Esh. unfold blob in *.
  destruct (parts_client_blob (s_mac s0) x pad hc) as [Hsg Hmc].
  rewrite Hsg, Hmc in Hn. rewrite Hmc in Htas.
  rewrite (parse_client_blob hour now x pad hc s0 rf off l1 l2) by (done || by rewrite Es).
  cbv zeta. rewrite Htas, Es. cbn [s_keypair s_serverIdentity s_nodeID s_padLen s_mac].
  by rewrite Esh.
Qed.

(** The client accepts the response an honest server made to its message. *)
Lemma client_accepts kc ks ki node padLen hc y auth pad seed trail c1 :
  Ntor.keypair_wf kc -> Ntor.keypair_wf ks -> Ntor.keypair_wf ki ->
  c1 = mkClient kc node (Ntor.public ki) (epochHour_bytes hc) padLen
         (Ntor.public ki ++ node) None None [] ->
  zlen y = Ntor.RepresentativeLength -> Ntor.ToPublic y = Ntor.public ks ->
  zlen pad <= serverMaxPadLength ->
  Ntor.ServerHandshake (Ntor.public kc) ks ki node = (true, seed, auth) ->
  let resp := server_blob (Ntor.public ki ++ node) y auth pad (epochHour_bytes hc) in
  (forall i, (i < length pad)%nat ->
     ~ occurs_at (mac128 (Ntor.public ki ++ node) y) (zdrop 64 (resp ++ trail)) i) ->
  exists c2, parseServerHandshake (resp ++ trail) c1 = (Ok (zlen resp, seed), c2).
Proof.
  intros Hkc Hks Hki Ec1 Hyl Hyp Hpad Esh resp Hfirst. unfold resp in *.
  pose proof (zlen_ServerHandshake_auth _ _ _ _ _ _ _ Esh) as Hal.
  pose proof (parse_server_blob y auth pad (epochHour_bytes hc) trail c1) as Hps.
  rewrite Ec1 in *. cbn [c_mac c_epochHour serverRepresentative c_keypair c_serverIdentity
    c_nodeID] in Hps.
  specialize (Hps eq_refl eq_refl Hyl Hal Hpad). cbv zeta in Hps. eexists. rewrite Hps.
  - rewrite Hyp.
    rewrite (Ntor.handshake_agree kc ks ki node) by (apply Ntor.kp_public; done).
    rewrite Esh.
    replace (Ntor.CompareAuth auth auth) with true
      by (symmetry; by apply bool_decide_eq_true). done.
  - intros i Hi. specialize (Hfirst i Hi). unfold server_blob in Hfirst.
    rewrite <- !app_assoc in Hfirst.
    rewrite (zdrop_app_ge 64 y) in Hfirst by (rewrite Hyl; done).
    rewrite zdrop_app in Hfirst by (rewrite Hyl, Hal; done).
    by rewrite <- !app_assoc.
Qed.

(** C3: the obfuscated handshake succeeds between honest peers: the server
    accepts the client's message when their clocks are at most an hour apart and
    the replay filter has not seen it, and the client then accepts the server's
    response, whatever stream data follows it, consumes exactly the response,
    and holds the same KEY_SEED as the server.  (The other two epochs' MACs must
    differ from the received one, and the mark must not occur earlier in the
    server's padding: both are 128-bit coincidences.) *)
Theorem handshake_agreement kc ks ki node tc c0 tc1 hc blob c1 tc2 ts s0 ts1 hour off l1 l2
    now rf rf' :
  Ntor.keypair_wf kc -> Ntor.keypair_wf ks -> Ntor.keypair_wf ki ->
  newClientHandshake node (Ntor.public ki) kc tc = (Ok c0, tc1) ->
  client_generate hc c0 tc1 = (Ok (blob, c1), tc2) ->
  newServerHandshake node ki ks ts = (Ok s0, ts1) ->
  [0; -1; 1] = l1 ++ off :: l2 -> i64 (hour + off) = hc ->
  Forall (fun o => ~ mac_matches (s_mac s0) (signed_part blob) (mac_part blob) hour o)
         (l1 ++ l2) ->
  ReplayFilter.TestAndSet now (mac_part blob) rf = (false, rf') ->
  (Ntor.ServerHandshake (Ntor.public kc) ks ki node).1.1 = true ->
  exists seed s1,
    parseClientHandshake hour now blob (s0, rf) = (Ok seed, (s1, rf'))
    /\ forall resp ts2 trail,
         server_generate s1 ts1 = (Ok resp, ts2) ->
         (forall i, (i < Z.to_nat (s_padLen s0))%nat ->
            ~ occurs_at (mac128 (s_mac s0) (ztake 32 resp)) (zdrop 64 (resp ++ trail)) i) ->
         exists c2, parseServerHandshake (resp ++ trail) c1 = (Ok (zlen resp, seed), c2).
Proof.
  intros Hkc Hks Hki Ec Eg Es Hoffs Hhc Hn Htas Hok.
  apply newClientHandshake_Ok in Ec as [Ec Hcp]. apply newServerHandshake_Ok in Es as [Es Hsp].
  apply client_generate_Ok in Eg as (x & Hx & Hcl & Hblob & Hc1).
  rewrite Ec in Hx, Hblob, Hc1. cbn in Hx, Hblob, Hc1.
  destruct (Ntor.kp_representative kc Hkc x Hx) as [Hxl Hxp].
  assert (Hkey : s_mac s0 = Ntor.public ki ++ node) by (by rewrite Es).
  destruct (Ntor.ServerHandshake _ _ _ _) as [[ok seed] auth] eqn:Esh. cbn in Hok. subst ok.
  assert (Hz : clientMinPadLength <= zlen (ztake (c_padLen c0) tc1) <= clientMaxPadLength).
  { rewrite zlen_ztake. assert (0 <= clientMinPadLength) by done. lia. }
  rewrite <- Hkey in Hblob. rewrite Hblob in Hn, Htas |- *. rewrite <- Hxp in Esh.
  do 2 eexists. split; [by eapply (server_accepts ks ki node)|].
  rewrite Hxp in Esh. intros resp ts2 trail Hgen Hfirst.
  eapply server_generate_Ok in Hgen as (y & Hy & Hsl & Hresp); [|done].
  assert (Hpc : forall b, pull_client b s0 = mkServer ks node ki [] None (s_padLen s0)
    (Ntor.public ki ++ node) (Some (ztake 32 b)) (mac128 (Ntor.public ki ++ node) (ztake 32 b))).
  { intros b. rewrite Es. unfold pull_client. done. }
  rewrite Hpc in Hy, Hsl, Hresp. cbn in Hy, Hsl, Hresp.
  destruct (Ntor.kp_representative ks Hks y Hy) as [Hyl Hyp].
  assert (Hpl : zlen (ztake (s_padLen s0) ts1) = s_padLen s0).
  { rewrite zlen_ztake. unfold serverMinPadLength in Hsp. lia. }
  assert (Hy32 : ztake 32 resp = y).
  { rewrite Hresp. unfold server_blob. rewrite <- !app_assoc. by apply ztake_app. }
  rewrite Hy32, Hkey, <- Hpl in Hfirst. rewrite Hresp in Hfirst |- *.
  eapply (client_accepts kc ks ki node); [done..|lia|done|].
  intros i Hi. apply Hfirst. unfold zlen. lia.
Qed.

(** C33: no replay is accepted: once the server has accepted a message, parsing the
    same message again less than the filter's time to live later never succeeds,
    in any handshake state and for any epoch, whatever other connections asked the
    filter in between, as long as the clock did not go backwards and there were
    not so many of these queries that the filter is full: its entries, the queries
    and the six of the two messages have to fit into [maxFilterSize] = 102400, as a
    full filter drops its oldest entry, and the replay of that one would be
    accepted. *)
Theorem replay_rejected k0 k1 tl t0 hist hour1 now1 resp hs1 rf seed s1 qs hour2 now2 hs2 :
  0 < tl -> ReplayFilter.sim k0 k1 tl t0 rf hist -> t0 <= now1 ->
  ReplayFilter.time_ok now1 -> ReplayFilter.time_ok now2 ->
  server_hs_wf hs1 -> server_hs_wf hs2 ->
  parseClientHandshake hour1 now1 resp (hs1, rf) = (Ok seed, s1) ->
  Sorted Z.le (now1 :: (fst <$> qs) ++ [now2]) ->
  Forall (fun q => ReplayFilter.time_ok q.1) qs -> now2 - now1 < tl ->
  zlen (ReplayFilter.fifo rf) + zlen qs + 6 <= ReplayFilter.maxFilterSize ->
  is_ok (parseClientHandshake hour2 now2 resp (hs2, (ReplayFilter.run qs s1.2).2)).1 = false.
Proof.
  intros Ht Hsim Hle Hn1 Hn2 Hw1 Hw2 E Hsort Hok Hlt Hlen.
  pose proof (zlen_nonneg qs).
  destruct (parse_Ok_sim k0 k1 tl t0 hist hour1 now1 resp hs1 rf seed s1)
    as (t1 & h1 & Ht1 & Hs1 & _ & Hl1 & _ & Hin); [done..|lia|done|done|].
  assert (Hsort' : Sorted Z.le (t1 :: (fst <$> qs) ++ [now2])).
  { apply Sorted_inv in Hsort as [Hs Hhd]. constructor; [done|].
    inversion Hhd; subst; constructor; lia. }
  destruct (ReplayFilter.run_sim_state k0 k1 tl qs t1 now2 s1.2 h1)
    as (t2 & h2 & Ht2 & Hs2 & Hsub & Hl2); [done..|lia|].
  destruct (parseClientHandshake hour2 now2 resp _) as [[seed2|e|w] s2] eqn:E2; try done.
  exfalso. eapply (parse_Ok_sim k0 k1 tl t2 h2) in E2 as (_ & _ & _ & _ & _ & _ & Hseen & _);
    [|done..|lia|done].
  assert (Ht' : ReplayFilter.seen tl now2 (sip_Hash k0 k1 (mac_part resp)) h2 = true).
  { apply ReplayFilter.seen_true. exists now1. split; [by apply Hsub|done]. }
  unfold mac_part in Ht'. congruence.
Qed.

(** C39: the parsers are total on the bytes of the network: whatever a peer
    sends, they never panic; they ask for more data only below
    [maxHandshakeLength] bytes, so the read loops of the handshakes end. The
    server returns a seed only for a message that is exactly X | P_C | M_C | MAC,
    with a padding of allowed length and nothing behind it, M_C being the MAC of
    the representative X and MAC valid for one of the three epochs; when it asks
    for more, X and M_C stay those of the bytes that came. The client consumes at
    least the minimum response and at most what it was given. *)
Theorem parse_total hour now resp shs rf chs :
  server_hs_wf shs -> pulled shs resp -> client_hs_wf chs ->
  match parseClientHandshake hour now resp (shs, rf) with
  | (Panic _, _) => False
  | (Err e, s') => e = ErrMarkNotFoundYet ->
      zlen resp < maxHandshakeLength /\ forall more, pulled s'.1 (resp ++ more)
  | (Ok _, _) => exists x pad mac off,
      resp = x ++ pad ++ mac128 (s_mac shs) x ++ mac
      /\ zlen x = Ntor.RepresentativeLength
      /\ clientMinPadLength <= zlen pad <= clientMaxPadLength
      /\ zlen mac = macLength /\ off ∈ [0; -1; 1]
      /\ mac_matches (s_mac shs) (x ++ pad ++ mac128 (s_mac shs) x) mac hour off
  end
  /\ match (parseServerHandshake resp chs).1 with
     | Panic _ => False
     | Err e => e = ErrMarkNotFoundYet -> zlen resp < maxHandshakeLength
     | Ok (n, _) => serverMinHandshakeLength <= n <= zlen resp
     end.
Proof.
  intros Hs Hpul Hc. split.
  - destruct (parseClientHandshake _ _ _ _) as [r s'] eqn:E.
    pose proof E as Ecase.
    apply parseClientHandshake_cases in Ecase as [(-> & ? & _)|[[->|[->| ->]]|Hok]]; try done.
    { intros _. split; [done|]. intros more. apply pulled_more. by eapply parse_again_pulled. }
    destruct Hok as (seed & pos & off & -> & Hl & Hp & Hm & Hoff & Hmac).
    assert (Hcs : markLength = 16 /\ macLength = 16 /\ Ntor.RepresentativeLength = 32
      /\ clientMinPadLength = 77 /\ clientMaxPadLength = 8128 /\ maxHandshakeLength = 8192) by done.
    apply parse_Ok_mark in E; [|done].
    destruct (accepted_parts resp _ pos (pull_client_wf resp shs Hs) Hl Hp E) as (pad & Hpad & Er & Et).
    destruct (pull_client_pulled shs resp ltac:(lia) Hpul) as [_ Emark]. rewrite Emark in Er, Et.
    exists (ztake Ntor.RepresentativeLength resp), pad, (zdrop (pos + markLength) resp), off.
    split_and!; [done|rewrite zlen_ztake; lia|lia|lia|rewrite zlen_zdrop; lia|done|].
    unfold mac_matches. by rewrite Et.
  - destruct (parseServerHandshake _ _) as [r s'] eqn:E.
    apply parseServerHandshake_cases in E as [_ Hr]; [|done]. cbn [fst].
    destruct r as [[n sd]|e|w]; [done| |done]. by intros ->.
Qed.

(** Every message a peer makes fits the handshake limit: a client's
    message has between 141 and 8192 bytes, a server's at least 96, and the
    response with the inlined seed frame at most 8192. *)
Theorem generate_bounds node ki kc ks tc c0 tc1 hour blob c1 tc2 ts s0 ts1 s1 resp ts2 auth :
  newClientHandshake node (Ntor.public ki) kc tc = (Ok c0, tc1) ->
  client_generate hour c0 tc1 = (Ok (blob, c1), tc2) ->
  newServerHandshake node ki ks ts = (Ok s0, ts1) ->
  s_padLen s1 = s_padLen s0 -> s_keypair s1 = ks -> s_serverAuth s1 = Some auth ->
  server_generate s1 ts1 = (Ok resp, ts2) ->
  Ntor.keypair_wf kc -> Ntor.keypair_wf ks -> zlen auth = Ntor.AuthLength ->
  141 <= zlen blob <= maxHandshakeLength
  /\ serverMinHandshakeLength <= zlen resp
  /\ zlen resp + inlineSeedFrameLength <= maxHandshakeLength.
Proof.
  intros Ec Eg Es Hpl Hk Ha Egs Hwc Hws Hal.
  apply newClientHandshake_Ok in Ec as [Ec Hcp]. apply newServerHandshake_Ok in Es as [_ Hsp].
  apply client_generate_Ok in Eg as (x & Hx & Hcl & -> & _).
  eapply server_generate_Ok in Egs as (y & Hy & Hsl & ->); [|done].
  rewrite Ec in Hx. cbn in Hx. rewrite Hk in Hy.
  destruct (Ntor.kp_representative kc Hwc x Hx) as [Hxl _].
  destruct (Ntor.kp_representative ks Hws y Hy) as [Hyl _].
  unfold client_blob, server_blob. rewrite !zlen_app, !zlen_mac128, !zlen_ztake, Hxl, Hyl, Hal, Hpl.
  assert (Hc : markLength = 16 /\ macLength = 16 /\ Ntor.RepresentativeLength = 32
    /\ clientMinPadLength = 77 /\ clientMaxPadLength = 8128 /\ maxHandshakeLength = 8192
    /\ Ntor.AuthLength = 32 /\ serverMinPadLength = 0 /\ serverMaxPadLength = 8051
    /\ serverMinHandshakeLength = 96 /\ inlineSeedFrameLength = 45) by done.
  rewrite Hpl in Hsl. lia.
Qed.
End properties.
End Handshake.

(** ** A handshake evaluated *)
Section witnesses.
Import ToySip ToyCurve Handshake.
Definition wk_c : Ntor.Keypair := toy_keypair Byte.x11.
Definition wk_s : Ntor.Keypair := toy_keypair Byte.x22.
Definition wk_i : Ntor.Keypair := toy_keypair Byte.x33.
Definition w_node : bytes := replicate 20 Byte.x44.
(** Entropy that draws a padding of 77, respectively 3 bytes. *)
Definition w_tape_c : bytes := replicate 100 Byte.x00.
Definition w_tape_s : bytes := map z2b [0; 0; 0; 3; 0; 0; 0; 0; 7; 7; 7].
Definition w_hour : Z := 473000.
Definition w_filter : ReplayFilter.ReplayFilter := toy_filter.

Definition w_c0 := Eval vm_compute in
  match newClientHandshake w_node (Ntor.public wk_i) wk_c w_tape_c with
  | (Ok hs, t) => (hs, t)
  | (_, t) => (mkClient wk_c [] [] [] 0 [] None None [], t)
  end.
Definition w_blob := Eval vm_compute in
  match client_generate w_hour w_c0.1 w_c0.2 with
  | (Ok (b, hs), t) => (b, hs, t)
  | (_, t) => ([], w_c0.1, t)
  end.
Definition w_s0 := Eval vm_compute in
  match newServerHandshake w_node wk_i wk_s w_tape_s with
  | (Ok hs, t) => (hs, t)
  | (_, t) => (mkServer wk_s [] wk_i [] None 0 [] None [], t)
  end.
Definition w_parsed := Eval vm_compute in
  match parseClientHandshake (w_hour + 1) 1000 w_blob.1.1 (w_s0.1, w_filter) with
  | (Ok seed, (hs, rf)) => (seed, hs, rf)
  | (_, (hs, rf)) => ([], hs, rf)
  end.
Definition w_resp := Eval vm_compute in
  match server_generate w_parsed.1.2 w_s0.2 with
  | (Ok b, t) => (b, t)
  | (_, t) => ([], t)
  end.

(** The two ends hold the same seed, with stream data behind the response. *)
Example handshake_runs :
  zlen w_blob.1.1 = 141
  /\ (parseServerHandshake (w_resp.1 ++ str "first frame") w_blob.1.2).1
     = Ok (zlen w_resp.1, w_parsed.1.1)
  /\ zlen w_parsed.1.1 = 32.
Proof. vm_compute. auto. Qed.

Lemma handshake_agreement_witness :
  exists seed s1,
    parseClientHandshake (w_hour + 1) 1000 w_blob.1.1 (w_s0.1, w_filter)
    = (Ok seed, (s1, w_parsed.2))
    /\ forall resp ts2 trail,
         server_generate s1 w_s0.2 = (Ok resp, ts2) ->
         (forall i, (i < Z.to_nat (s_padLen w_s0.1))%nat ->
            ~ occurs_at (mac128 (s_mac w_s0.1) (ztake 32 resp)) (zdrop 64 (resp ++ trail)) i) ->
         exists c2, parseServerHandshake (resp ++ trail) w_blob.1.2 = (Ok (zlen resp, seed), c2).
Proof.
  apply (handshake_agreement wk_c wk_s wk_i w_node w_tape_c w_c0.1 w_c0.2 w_hour w_blob.1.1
           w_blob.1.2 w_blob.2 w_tape_s w_s0.1 w_s0.2 (w_hour + 1) (-1) [0] [1]).
  - apply toy_keypair_wf.
  - apply toy_keypair_wf.
  - apply toy_keypair_wf.
  - vm_compute. reflexivity.
  - vm_compute. reflexivity.
  - vm_compute. reflexivity.
  - reflexivity.
  - vm_compute. reflexivity.
  - repeat constructor; intros Hc; vm_compute in Hc; discriminate.
  - vm_compute. reflexivity.
  - vm_compute. reflexivity.
Defined.

Lemma w_filter_sim : ReplayFilter.sim (ReplayFilter.key0 w_filter) (ReplayFilter.key1 w_filter)
  100 0 w_filter [].
Proof. apply (ReplayFilter.New_sim 100 (zrepeat 16 Byte.x09) w_filter []). reflexivity. Qed.

Lemma replay_rejected_witness :
  is_ok (parseClientHandshake (w_hour + 1) 1050 w_blob.1.1
           (w_s0.1, (ReplayFilter.run [(1020, str "another")] w_parsed.2).2)).1 = false.
Proof.
  apply (replay_rejected (ReplayFilter.key0 w_filter) (ReplayFilter.key1 w_filter) 100 0 []
           (w_hour + 1) 1000 w_blob.1.1 w_s0.1 w_filter w_parsed.1.1 (w_parsed.1.2, w_parsed.2)
           [(1020, str "another")] (w_hour + 1) 1050 w_s0.1).
  - lia.
  - exact w_filter_sim.
  - lia.
  - vm_compute. split; congruence.
  - vm_compute. split; congruence.
  - left. reflexivity.
  - left. reflexivity.
  - vm_compute. reflexivity.
  - repeat constructor; cbn; lia.
  - repeat constructor; cbn; lia.
  - lia.
  - vm_compute. discriminate.
Defined.

(** A message that is accepted, and 9000 bytes of garbage. *)
Lemma parse_total_witness :
  (exists x pad mac off, w_blob.1.1 = x ++ pad ++ mac128 (s_mac w_s0.1) x ++ mac
    /\ zlen x = 32 /\ zlen pad = 77 /\ off ∈ [0; -1; 1]
    /\ mac_matches (s_mac w_s0.1) (x ++ pad ++ mac128 (s_mac w_s0.1) x) mac (w_hour + 1) off)
  /\ match (parseClientHandshake 0 0 (zrepeat 9000 Byte.x00) (w_s0.1, w_filter)).1 with
     | Panic _ => False
     | Err e => e = ErrMarkNotFoundYet -> zlen (zrepeat 9000 Byte.x00) < maxHandshakeLength
     | Ok _ => True
     end.
Proof.
  split.
  - destruct (parse_total (w_hour + 1) 1000 w_blob.1.1 w_s0.1 w_filter w_c0.1
      ltac:(left; reflexivity) I ltac:(left; reflexivity)) as [H _].
    destruct (parseClientHandshake _ _ _ _) as [[seed|e|p] s'] eqn:E;
      [|vm_compute in E; discriminate E..].
    destruct H as (x & pad & mac & off & Er & Hx & Hp & Hm & Ho & Hmac). exists x, pad, mac, off.
    split_and!; [exact Er|exact Hx| |exact Ho|exact Hmac].
    apply (f_equal zlen) in Er. rewrite !zlen_app, zlen_mac128, Hx, Hm in Er.
    assert (El : zlen w_blob.1.1 = 141) by (vm_compute; reflexivity). rewrite El in Er.
    change Ntor.RepresentativeLength with 32 in Er. change markLength with 16 in Er.
    change macLength with 16 in Er. lia.
  - destruct (parse_total 0 0 (zrepeat 9000 Byte.x00) w_s0.1 w_filter w_c0.1
      ltac:(left; reflexivity) I ltac:(left; reflexivity)) as [H _].
    destruct (parseClientHandshake _ _ _ _) as [[seed|e|p] s']; [exact I|exact (fun E => proj1 (H E))|exact H].
Defined.

Lemma generate_bounds_witness :
  zlen w_blob.1.1 = 141 /\ zlen w_resp.1 = 99
  /\ 141 <= zlen w_blob.1.1 <= maxHandshakeLength
  /\ serverMinHandshakeLength <= zlen w_resp.1
  /\ zlen w_resp.1 + inlineSeedFrameLength <= maxHandshakeLength.
Proof.
  split; [vm_compute; reflexivity|]. split; [vm_compute; reflexivity|].
  apply (generate_bounds w_node wk_i wk_c wk_s w_tape_c w_c0.1 w_c0.2 w_hour w_blob.1.1
           w_blob.1.2 w_blob.2 w_tape_s w_s0.1 w_s0.2 w_parsed.1.2 w_resp.1 w_resp.2
           (default [] (s_serverAuth w_parsed.1.2)));
    [vm_compute; reflexivity..|apply toy_keypair_wf|apply toy_keypair_wf|vm_compute; reflexivity].
Defined.
End witnesses.
