(* ===== verification/Obfs4.v ===== *)
(** * The obfs4 transport: [transports/obfs4/packet.go] and [obfs4.go]

    Packets and their handlers, the handshake drivers, [Read], [Write] with
    the length and inter-arrival-time obfuscation.  The network is seen as the
    list of what successive [Read]s return and the list of what was written;
    sleeping is the list of the delays. *)
From S2P Require Import Prelude GoStd Rand Drbg Framing ProbDist ReplayFilter Packet Ntor Handshake.

Module Obfs4.

Definition maxPacketPayloadLength : Z :=
  Framing.MaximumFramePayloadLength - Packet.packetOverhead.
Definition maxPacketPaddingLength : Z := maxPacketPayloadLength.
Definition headerLength : Z := Framing.FrameOverhead + Packet.packetOverhead.
Definition maxIATDelay : Z := 100.

Definition packetTypePayload : Z := 0.
Definition packetTypePrngSeed : Z := 1.

Inductive iat_mode := iatNone | iatEnabled | iatParanoid.
#[export] Instance iat_mode_eq_dec : EqDecision iat_mode.
Proof. solve_decision. Defined.

(** What [readPackets] works on besides the decoder and its buffer. *)
Record app := mkApp {
  isServer : bool;
  lenDist : ProbDist.WeightedDist;
  iatDist : option ProbDist.WeightedDist;
  receiveDecodedBuffer : bytes
}.

Section obfs4.
Context `{SipHash} `{SecretBox} `{Curve25519} `{Elligator} `{Hkdf}.
(** The draws [math/rand] may need in [WeightedDist.Reset]. *)
Context (fuel : nat).

(** [dist.Reset (seed)]; its only failure is the fuel's. *)
Definition reset (seed : bytes) (w : ProbDist.WeightedDist)
  : result Packet.error ProbDist.WeightedDist :=
  match ProbDist.Reset fuel seed w with
  | Ok w => Ok w
  | Err _ => Panic "nil pointer dereference"
  | Panic p => Panic p
  end.

(** The [switch] of [readPackets]. *)
Definition handle : Packet.handler app := fun pktType payload _ a =>
  if pktType =? packetTypePayload then
    (Ok tt, if 0 <? zlen payload
            then mkApp (isServer a) (lenDist a) (iatDist a) (receiveDecodedBuffer a ++ payload)
            else a)
  else if pktType =? packetTypePrngSeed then
    if (zlen payload =? Handshake.seedPacketPayloadLength) && negb (isServer a) then
      match Drbg.SeedFromBytes payload with
      | Err e => (Err (Packet.SeedError e), a)
      | Panic w => (Panic w, a)
      | Ok seed =>
          match reset seed (lenDist a) with
          | Err e => (Err e, a)
          | Panic w => (Panic w, a)
          | Ok ld =>
              let a := mkApp (isServer a) ld (iatDist a) (receiveDecodedBuffer a) in
              match iatDist a with
              | None => (Ok tt, a)
              | Some d =>
                  match Drbg.SeedFromBytes (Sha256.Sum256 (Drbg.SeedBytes seed)) with
                  | Err e => (Ok tt, a)  (* the inner [err] is shadowed *)
                  | Panic w => (Panic w, a)
                  | Ok iatSeed =>
                      match reset iatSeed d with
                      | Err e => (Err e, a)
                      | Panic w => (Panic w, a)
                      | Ok d => (Ok tt, mkApp (isServer a) (lenDist a) (Some d)
                                              (receiveDecodedBuffer a))
                      end
                  end
              end
          end
      end
    else (Ok tt, a)
  else (Ok tt, a).

Definition makePacket : Packet.packet -> M Framing.Encoder Packet.error bytes :=
  Packet.makePacket maxPacketPayloadLength.
Definition readPackets := Packet.readPackets handle.

(** ** [Read] *)

(** The loop of [Read]; [None] when it blocks on the network. *)
Fixpoint fill (net : list (bytes * option Packet.net_error)) (c : Packet.conn app)
  : option (result Packet.error unit * Packet.conn app * list (bytes * option Packet.net_error)) :=
  if 0 <? zlen (receiveDecodedBuffer (Packet.app c)) then Some (Ok tt, c, net)
  else
    match net with
    | [] => None
    | (rd, rdErr) :: net =>
        match readPackets rd rdErr c with
        | (Err (Packet.FrameError Framing.ErrAgain), c) => fill net c
        | (Err e, c) => Some (Err e, c, net)
        | (Panic w, c) => Some (Panic w, c, net)
        | (Ok _, c) => fill net c
        end
    end.

(** [Read (b)] with [len(b) = n]: the bytes read, and the error. *)
Definition Read (n : Z) (net : list (bytes * option Packet.net_error)) (c : Packet.conn app)
  : option (bytes * result Packet.error unit * Packet.conn app
            * list (bytes * option Packet.net_error)) :=
  match fill net c with
  | None => None
  | Some (Panic w, c, net) => Some ([], Panic w, c, net)
  | Some (r, c, net) =>
      let a := Packet.app c in
      let buf := receiveDecodedBuffer a in
      Some (ztake n buf, r,
            Packet.mkConn (Packet.rx c)
              (mkApp (isServer a) (lenDist a) (iatDist a) (zdrop n buf)), net)
  end.

(** ** [Write] *)

Record wstate := mkW {
  encoder : Framing.Encoder;
  tape : bytes;             (* the entropy behind [csrand] *)
  sent : list bytes;        (* what was written to the network *)
  delays : list Z           (* microseconds slept *)
}.
Abbreviation W := (M wstate Packet.error).

(** The network's [Write]: an error, or all of it. *)
Context (netWrite : list bytes -> bytes -> option Packet.net_error).

Definition conn_write (b : bytes) : W unit := fun s =>
  match netWrite (sent s) b with
  | Some e => (Err (Packet.NetError e), s)
  | None => (Ok tt, mkW (encoder s) (tape s) (sent s ++ [b]) (delays s))
  end.
Definition with_encoder {A} (m : M Framing.Encoder Packet.error A) : W A :=
  on_part encoder (fun e s => mkW e (tape s) (sent s) (delays s)) m.
Definition sample (w : ProbDist.WeightedDist) : W Z := fun s =>
  match ProbDist.Sample w (tape s) with
  | (Ok v, t) => (Ok v, mkW (encoder s) t (sent s) (delays s))
  | (Err _, t) => (Panic "crypto/rand failed", mkW (encoder s) t (sent s) (delays s))
  | (Panic p, t) => (Panic p, mkW (encoder s) t (sent s) (delays s))
  end.
Definition sleep (d : Z) : W unit :=
  modify (fun s => mkW (encoder s) (tape s) (sent s) (delays s ++ [d])).

(** The chopping loop: maximum sized pieces. *)
Fixpoint chop (fuel : nat) (b : bytes) : list bytes :=
  match fuel with
  | O => []
  | S fuel =>
      match b with
      | [] => []
      | _ => ztake maxPacketPayloadLength b :: chop fuel (zdrop maxPacketPayloadLength b)
      end
  end.
Definition payload_packets (b : bytes) : list Packet.packet :=
  map (fun p => Packet.mkPacket packetTypePayload p 0) (chop (length b) b).

(** [padBurst (burst, toPadTo)]: the new contents of [burst]. *)
Definition pad_length (burstLen toPadTo : Z) : Z :=
  let tailLen := burstLen mod Framing.MaximumSegmentLength in
  if toPadTo >=? tailLen then toPadTo - tailLen
  else (Framing.MaximumSegmentLength - tailLen) + toPadTo.
Definition padBurst (burst : bytes) (toPadTo : Z) : M Framing.Encoder Packet.error bytes :=
  let padLen := pad_length (zlen burst) toPadTo in
  if padLen >? headerLength then
    f ← makePacket (Packet.mkPacket packetTypePayload [] (u16 (padLen - headerLength)));
    mret (burst ++ f)
  else if padLen >? 0 then
    f1 ← makePacket (Packet.mkPacket packetTypePayload [] maxPacketPayloadLength);
    f2 ← makePacket (Packet.mkPacket packetTypePayload [] (u16 padLen));
    mret ((burst ++ f1) ++ f2)
  else mret burst.

(** [conn.iatDist.Sample ()]: a nil distribution panics. *)
Definition sample_opt (w : option ProbDist.WeightedDist) : W Z :=
  match w with Some w => sample w | None => panic "nil pointer dereference" end.

(** The write loop under IAT obfuscation; [k] bounds its iterations.
    [write n burst] is the end of an iteration: [n] bytes of the buffer are
    read into [iatFrame], written and slept on. *)
Fixpoint iat_loop (k : nat) (mode : iat_mode) (ld : ProbDist.WeightedDist)
    (id : option ProbDist.WeightedDist) (frameBuf : bytes) : W unit :=
  match k with
  | O => panic out_of_fuel
  | S k =>
      if zlen frameBuf =? 0 then mret tt
      else
        let write (n : Z) (burst : bytes) : W unit :=
          let iatFrame := ztake n burst in
          if zlen iatFrame =? 0 then panic "BUG: Write(), iat length was 0"
          else
            d ← sample_opt id;
            _ ← conn_write iatFrame;
            _ ← sleep (d * 100);
            iat_loop k mode ld id (zdrop n burst) in
        match mode with
        | iatParanoid =>
            targetLen ← sample ld;
            if zlen frameBuf <? targetLen then
              burst ← with_encoder (padBurst frameBuf targetLen);
              if negb (zlen burst =? targetLen) then iat_loop k mode ld id burst
              else write targetLen burst
            else write targetLen frameBuf
        | _ => write Framing.MaximumSegmentLength frameBuf
        end
  end.

(** [Write (b)]. *)
Definition Write (k : nat) (mode : iat_mode) (ld : ProbDist.WeightedDist)
    (id : option ProbDist.WeightedDist) (b : bytes) : W Z :=
  frames ← with_encoder (Packet.makePackets maxPacketPayloadLength (payload_packets b));
  frameBuf ← (if decide (mode = iatParanoid) then mret frames
              else l ← sample ld; with_encoder (padBurst frames l));
  _ ← (if decide (mode = iatNone) then conn_write frameBuf
       else iat_loop k mode ld id frameBuf);
  mret (zlen b).

(** ** The handshake drivers *)

Inductive hs_error :=
| HandshakeError (e : Handshake.error)
| PacketError (e : Packet.error)
| NtorError (e : Ntor.error)
| FramingError (e : Framing.error)
| WrongSide.

(** [okm := ntor.Kdf (seed, framing.KeyLength*2)] and the link crypto. *)
Definition derive (seed : bytes) (k : bytes -> bytes -> result Framing.error
    (Framing.Encoder * Framing.Decoder)) : result hs_error (Framing.Encoder * Framing.Decoder) :=
  match Ntor.Kdf seed (Framing.KeyLength * 2) with
  | Err e => Err (NtorError e)
  | Panic w => Panic w
  | Ok okm =>
      match k (ztake Framing.KeyLength okm) (zdrop Framing.KeyLength okm) with
      | Ok l => Ok l
      | Err e => Err (FramingError e)
      | Panic w => Panic w
      end
  end.
Definition client_link (seed : bytes) :=
  derive seed (fun k1 k2 => e ← Framing.NewEncoder k1; d ← Framing.NewDecoder k2; Ok (e, d)).
Definition server_link (seed : bytes) :=
  derive seed (fun k1 k2 => e ← Framing.NewEncoder k2; d ← Framing.NewDecoder k1; Ok (e, d)).

(** What [clientHandshake] leaves in the connection. *)
Record link := mkLink {
  l_encoder : Framing.Encoder; l_decoder : Framing.Decoder; receiveBuffer : bytes
}.

(** The loop that consumes the server handshake; [None] when it blocks. *)
Fixpoint client_loop (net : list (bytes * option Packet.net_error)) (rbuf : bytes)
    (hs : Handshake.clientHandshake) : option (result hs_error link) :=
  match net with
  | [] => None
  | (_, Some e) :: _ => Some (Err (PacketError (Packet.NetError e)))
  | (rd, None) :: net =>
      let rbuf := rbuf ++ rd in
      match Handshake.parseServerHandshake rbuf hs with
      | (Err Handshake.ErrMarkNotFoundYet, hs) => client_loop net rbuf hs
      | (Err e, _) => Some (Err (HandshakeError e))
      | (Panic w, _) => Some (Panic w)
      | (Ok (n, seed), _) =>
          Some ('(e, d) ← client_link seed; Ok (mkLink e d (zdrop n rbuf)))
      end
  end.

(** The loop that consumes the client handshake; with every [Read] come the
    hour and the time of the call. *)
Fixpoint server_loop (net : list (bytes * option Packet.net_error * Z * Z)) (rbuf : bytes)
    (hs : Handshake.serverHandshake) (rf : ReplayFilter.ReplayFilter)
  : option (result hs_error (link * Handshake.serverHandshake)) * ReplayFilter.ReplayFilter :=
  match net with
  | [] => (None, rf)
  | (_, Some e, _, _) :: _ => (Some (Err (PacketError (Packet.NetError e))), rf)
  | (rd, None, hour, now) :: net =>
      let rbuf := rbuf ++ rd in
      match Handshake.parseClientHandshake hour now rbuf (hs, rf) with
      | (Err Handshake.ErrMarkNotFoundYet, (hs, rf)) => server_loop net rbuf hs rf
      | (Err e, (_, rf)) => (Some (Err (HandshakeError e)), rf)
      | (Panic w, (_, rf)) => (Some (Panic w), rf)
      | (Ok seed, (hs, rf)) =>
          (Some ('(e, d) ← server_link seed; Ok (mkLink e d [], hs)), rf)
      end
  end.

(** The response: the handshake and the PRNG seed as the first packet. *)
Definition server_response (l : link) (hs : Handshake.serverHandshake) (lenSeed : bytes)
    (tape : bytes) : result hs_error (bytes * link) :=
  match (Handshake.server_generate hs tape).1 with
  | Err e => Err (HandshakeError e)
  | Panic w => Panic w
  | Ok blob =>
      match makePacket (Packet.mkPacket packetTypePrngSeed (Drbg.SeedBytes lenSeed) 0)
              (l_encoder l) with
      | (Ok f, e) => Ok (blob ++ f, mkLink e (l_decoder l) (receiveBuffer l))
      | (Err e, _) => Err (PacketError e)
      | (Panic w, _) => Panic w
      end
  end.
End obfs4.

(** ** Lemmas *)

Lemma max_payload_fits :
  maxPacketPayloadLength <= Framing.MaximumFramePayloadLength - Packet.packetOverhead.
Proof. done. Qed.

Lemma consts : maxPacketPayloadLength = 1427 /\ headerLength = 21
  /\ Framing.MaximumSegmentLength = 1448.
Proof. done. Qed.

Lemma chop_spec fuel : forall b, (length b <= fuel)%nat ->
  concat (chop fuel b) = b
  /\ Forall (fun p => 0 < zlen p <= maxPacketPayloadLength) (chop fuel b).
Proof.
  induction fuel as [|fuel IH]; intros b Hf; cbn [chop].
  - destruct b; [by split|cbn in Hf; lia].
  - destruct b as [|c b]; [by split|].
    assert (Hm : maxPacketPayloadLength = 1427) by done.
    destruct (IH (zdrop maxPacketPayloadLength (c :: b))) as [E F].
    + unfold zdrop. rewrite length_drop. cbn [length] in *. lia.
    + cbn [concat]. rewrite E. split; [apply ztake_zdrop|].
      constructor; [|done]. rewrite zlen_ztake, zlen_cons. zlia.
Qed.

Section write.
Context `{SipHashLaws} `{SecretBoxLaws} (netWrite : list bytes -> bytes -> option Packet.net_error).

(** What the packets of a burst look like to the receiver: payload packets
    whose data add up to [b]. *)
Definition burst_of (b : bytes) (ps : list Packet.packet) : Prop :=
  Forall (Packet.packet_ok maxPacketPayloadLength) ps
  /\ Forall (fun p => Packet.pktType p = packetTypePayload) ps
  /\ concat (map Packet.data ps) = b.

Lemma burst_of_app b1 b2 ps1 ps2 :
  burst_of b1 ps1 -> burst_of b2 ps2 -> burst_of (b1 ++ b2) (ps1 ++ ps2).
Proof.
  intros (? & ? & <-) (? & ? & <-). split_and!; [by apply Forall_app..|].
  by rewrite map_app, concat_app.
Qed.

Lemma payload_packets_burst b : burst_of b (payload_packets b).
Proof.
  unfold payload_packets. destruct (chop_spec (length b) b ltac:(lia)) as [E F].
  split_and!.
  - apply Forall_map. eapply Forall_impl; [exact F|]. cbn. intros p Hp.
    unfold Packet.packet_ok. cbn [Packet.pktType Packet.padLen Packet.data].
    unfold packetTypePayload. lia.
  - apply Forall_map. by apply Forall_true.
  - rewrite map_map. cbn. by rewrite map_id.
Qed.

Lemma padding_packet_ok n :
  0 <= n <= maxPacketPayloadLength ->
  Packet.packet_ok maxPacketPayloadLength (Packet.mkPacket packetTypePayload [] n).
Proof.
  intros Hn. split_and!; [done|done|apply Hn|]. change (0 + n <= maxPacketPayloadLength). lia.
Qed.

Lemma padding_packet_zlen n e f e' :
  0 <= n <= maxPacketPayloadLength ->
  Packet.makePacket maxPacketPayloadLength (Packet.mkPacket packetTypePayload [] n) e = (Ok f, e') ->
  zlen f = n + headerLength.
Proof.
  intros Hn E. apply Packet.makePacket_zlen in E;
    [|apply max_payload_fits|by apply padding_packet_ok].
  rewrite E. change (0 + n + Packet.packetOverhead + Framing.FrameOverhead = n + headerLength).
  unfold headerLength. lia.
Qed.

(** The number of bytes [padBurst] appends. *)
Definition padded (padLen : Z) : Z :=
  if padLen >? headerLength then padLen
  else if padLen >? 0 then Framing.MaximumSegmentLength + headerLength + padLen
  else 0.

Lemma pad_length_range n toPadTo :
  0 <= toPadTo <= Framing.MaximumSegmentLength ->
  0 <= pad_length n toPadTo <= Framing.MaximumSegmentLength.
Proof.
  intros Hp. unfold pad_length. rewrite Z.geb_leb.
  pose proof (Z.mod_pos_bound n Framing.MaximumSegmentLength ltac:(done)).
  destruct (_ <=? toPadTo) eqn:E; b2p; lia.
Qed.

Lemma padBurst_cases burst toPadTo e r e' :
  0 <= toPadTo <= Framing.MaximumSegmentLength -> padBurst burst toPadTo e = (r, e') ->
  (r = Err (Packet.FrameError Framing.ErrNonceCounterWrapped))
  \/ exists ps w, r = Ok (burst ++ w) /\ burst_of [] ps
      /\ Packet.makePackets maxPacketPayloadLength ps e = (Ok w, e')
      /\ zlen w = padded (pad_length (zlen burst) toPadTo).
Proof.
  intros Hp. pose proof (pad_length_range (zlen burst) toPadTo Hp) as Hr.
  pose proof consts as (Hc1 & Hc2 & Hc3). pose proof max_payload_fits as Hfit.
  unfold padBurst, padded, makePacket. set (pl := pad_length _ _) in *.
  destruct (pl >? headerLength) eqn:E1; [|destruct (pl >? 0) eqn:E2]; b2p.
  - unfold u16. rewrite Z.mod_small by lia.
    set (p := Packet.mkPacket packetTypePayload [] (pl - headerLength)).
    assert (Hok : Packet.packet_ok maxPacketPayloadLength p) by (apply padding_packet_ok; lia).
    mrun. destruct (Packet.makePacket _ p e) as [r1 e1] eqn:Em.
    pose proof Em as Em'. apply Packet.makePacket_cases in Em' as [(n & _ & -> & _)|[-> _]];
      [|by intros [= <- _]; left|done..].
    intros [= <- <-]. right. eexists [p], _. split_and!; [done| | |].
    + split_and!; [by rewrite !Forall_cons|by rewrite !Forall_cons|done].
    + cbn. mrun. rewrite Em. by rewrite app_nil_r.
    + apply padding_packet_zlen in Em; lia.
  - unfold u16. rewrite Z.mod_small by lia.
    set (p1 := Packet.mkPacket packetTypePayload [] maxPacketPayloadLength).
    set (p2 := Packet.mkPacket packetTypePayload [] pl).
    assert (Hok1 : Packet.packet_ok maxPacketPayloadLength p1) by (apply padding_packet_ok; lia).
    assert (Hok2 : Packet.packet_ok maxPacketPayloadLength p2) by (apply padding_packet_ok; lia).
    mrun. destruct (Packet.makePacket _ p1 e) as [r1 e1] eqn:Em1.
    pose proof Em1 as Em'. apply Packet.makePacket_cases in Em' as [(n & _ & -> & _)|[-> _]];
      [|by intros [= <- _]; left|done..].
    destruct (Packet.makePacket _ p2 e1) as [r2 e2] eqn:Em2.
    pose proof Em2 as Em'. apply Packet.makePacket_cases in Em' as [(n2 & _ & -> & _)|[-> _]];
      [|by intros [= <- _]; left|done..].
    intros [= <- <-]. right. eexists [p1; p2], _. split_and!.
    + by rewrite <- app_assoc.
    + split_and!; [by rewrite !Forall_cons|by rewrite !Forall_cons|done].
    + cbn. mrun. rewrite Em1, Em2. by rewrite app_nil_r.
    + apply padding_packet_zlen in Em1; [|lia]. apply padding_packet_zlen in Em2; [|lia].
      rewrite zlen_app. lia.
  - mrun. intros [= <- <-]. right. exists [], []. split_and!; [by rewrite app_nil_r| |done|done].
    split_and!; [constructor|constructor|done].
Qed.

(** The length distribution of a connection. *)
Definition len_dist_ok (w : ProbDist.WeightedDist) : Prop :=
  ProbDist.dist_wf w /\ ProbDist.minValue w = 0
  /\ ProbDist.maxValue w = Framing.MaximumSegmentLength.

Lemma sample_cases w s r s' :
  ProbDist.dist_wf w -> sample w s = (r, s') ->
  encoder s' = encoder s /\ sent s' = sent s
  /\ ((exists v, r = Ok v /\ ProbDist.minValue w <= v <= ProbDist.maxValue w)
      \/ r = Panic "crypto/rand failed"%string).
Proof.
  intros Hw. unfold sample. destruct (ProbDist.Sample w (tape s)) as [r1 t] eqn:E.
  apply (ProbDist.Sample_draws w Hw) in E as [(v & -> & Hv)| ->]; intros; simplify_eq; cbn;
    (split_and!; [done|done|]); [left; eauto|by right].
Qed.

Lemma conn_write_Ok b s s' :
  conn_write netWrite b s = (Ok tt, s') ->
  encoder s' = encoder s /\ sent s' = sent s ++ [b].
Proof. unfold conn_write. destruct (netWrite _ _); intros; by simplify_eq. Qed.

(** The buffer [burst] goes to the network, with the padding [ps]. *)
Definition flushed (burst : bytes) (s s' : wstate) : Prop :=
  exists ps w, burst_of [] ps
    /\ Packet.makePackets maxPacketPayloadLength ps (encoder s) = (Ok w, encoder s')
    /\ concat (sent s') = concat (sent s) ++ burst ++ w.

Lemma flushed_nil s s' :
  encoder s' = encoder s -> sent s' = sent s -> flushed [] s s'.
Proof.
  intros E1 E2. exists [], []. rewrite E1, E2. split_and!; [by split_and!|done|].
  by rewrite app_nil_r.
Qed.

(** The end of an iteration, given what the following ones do. *)
Lemma iat_write_flushed k mode ld id n burst s s1 s' :
  (forall fb s s', iat_loop netWrite k mode ld id fb s = (Ok tt, s') -> flushed fb s s') ->
  match id with Some d => ProbDist.dist_wf d | None => True end ->
  encoder s1 = encoder s -> sent s1 = sent s ->
  (let iatFrame := ztake n burst in
   if zlen iatFrame =? 0 then panic "BUG: Write(), iat length was 0"
   else
     d ← sample_opt id;
     _ ← conn_write netWrite iatFrame;
     _ ← sleep (d * 100);
     iat_loop netWrite k mode ld id (zdrop n burst)) s1 = (Ok tt, s') ->
  flushed burst s s'.
Proof.
  intros IH Hid E1 E2. cbv zeta. destruct (_ =? 0); [done|]. mrun.
  destruct id as [d|]; [|done]. cbn [sample_opt].
  destruct (sample d s1) as [r s2] eqn:Es. apply sample_cases in Es as (E3 & E4 & Er); [|done].
  destruct Er as [(v & -> & _)| ->]; [|done].
  destruct (conn_write _ _ s2) as [[[]|?|?] s3] eqn:Ew; try done.
  apply conn_write_Ok in Ew as [E5 E6]. unfold sleep, modify. intros E.
  apply IH in E as (ps & w & Hps & Hm & Hc). cbn in Hm, Hc. exists ps, w.
  split_and!; [done|by rewrite <- E1, <- E3, <- E5|].
  rewrite Hc, E6, E4, E2, concat_app. cbn. rewrite app_nil_r, <- !app_assoc.
  by rewrite (app_assoc (ztake n burst)), ztake_zdrop.
Qed.

Lemma iat_loop_flushed mode ld id k : forall fb s s',
  len_dist_ok ld -> match id with Some d => ProbDist.dist_wf d | None => True end ->
  iat_loop netWrite k mode ld id fb s = (Ok tt, s') -> flushed fb s s'.
Proof.
  induction k as [|k IH]; intros fb s s' Hld Hid; cbn [iat_loop]; [done|].
  destruct (zlen fb =? 0) eqn:E0; b2p.
  { apply zlen_0 in E0 as ->. mrun. intros. simplify_eq. by apply flushed_nil. }
  assert (IH' : forall fb s s', iat_loop netWrite k mode ld id fb s = (Ok tt, s') ->
    flushed fb s s') by (intros; by apply IH).
  destruct mode; cbv zeta;
    [by apply (iat_write_flushed k _ ld id _ fb s s s' IH' Hid)
    |by apply (iat_write_flushed k _ ld id _ fb s s s' IH' Hid)|].
  destruct Hld as (Hw & Hmin & Hmax). unfold mbind at 1, M_bind at 1.
  destruct (sample ld s) as [r s1] eqn:Es. apply sample_cases in Es as (E1 & E2 & Er); [|done].
  destruct Er as [(v & -> & Hv)| ->]; [|done]. rewrite Hmin, Hmax in Hv.
  destruct (zlen fb <? v) eqn:El; b2p.
  2: { by apply (iat_write_flushed k _ ld id _ fb s s1 s' IH' Hid). }
  unfold mbind at 1, M_bind at 1, with_encoder, on_part.
  destruct (padBurst fb v (encoder s1)) as [rb e'] eqn:Ep.
  apply padBurst_cases in Ep as [->|(ps & w & -> & Hps & Hm & _)]; [done| |done].
  set (s2 := mkW e' _ _ _). intros E.
  assert (Hf : flushed (fb ++ w) s2 s').
  { destruct (negb _); [by apply IH'|].
    by apply (iat_write_flushed k iatParanoid ld id v (fb ++ w) s2 s2 s' IH' Hid). }
  destruct Hf as (ps2 & w2 & Hps2 & Hm2 & Hc2). cbn in Hm2, Hc2.
  exists (ps ++ ps2), (w ++ w2). split_and!.
  - by apply (burst_of_app [] []).
  - rewrite <- E1. by eapply Packet.makePackets_app.
  - by rewrite Hc2, E2, <- app_assoc.
Qed.

(** [Write] sends the frames of packets whose payload is [b]. *)
Lemma Write_burst k mode ld id b s n s' :
  len_dist_ok ld -> match id with Some d => ProbDist.dist_wf d | None => True end ->
  Write netWrite k mode ld id b s = (Ok n, s') ->
  n = zlen b /\ exists ps w, burst_of b ps
    /\ Packet.makePackets maxPacketPayloadLength ps (encoder s) = (Ok w, encoder s')
    /\ concat (sent s') = concat (sent s) ++ w.
Proof.
  intros Hld Hid. unfold Write. mrun. unfold with_encoder at 1, on_part at 1.
  destruct (Packet.makePackets _ _ (encoder s)) as [[fr|?|?] e1] eqn:Em; try done.
  pose proof (payload_packets_burst b) as Hb. set (s1 := mkW e1 _ _ _).
  assert (Hflush : forall burst s2, flushed burst s2 s' ->
    (exists ps w, burst_of [] ps /\ sent s2 = sent s
      /\ Packet.makePackets maxPacketPayloadLength ps e1 = (Ok w, encoder s2)
      /\ burst = fr ++ w) ->
    exists ps w, burst_of b ps
      /\ Packet.makePackets maxPacketPayloadLength ps (encoder s) = (Ok w, encoder s')
      /\ concat (sent s') = concat (sent s) ++ w).
  { intros burst s2 (ps2 & w2 & Hb2 & Hm2 & Hc2) (ps & w & Hb1 & Es2 & Hm1 & ->).
    exists (payload_packets b ++ (ps ++ ps2)), (fr ++ w ++ w2). split_and!.
    - pose proof (burst_of_app b [] _ _ Hb (burst_of_app [] [] _ _ Hb1 Hb2)) as Hx.
      by rewrite app_nil_r in Hx.
    - eapply Packet.makePackets_app; [exact Em|].
      eapply Packet.makePackets_app; [exact Hm1|exact Hm2].
    - by rewrite Hc2, Es2, <- !app_assoc. }
  assert (Hout : forall burst s2,
    (let '(r, s3) := (if decide (mode = iatNone) then conn_write netWrite burst
                      else iat_loop netWrite k mode ld id burst) s2 in
     match r with Ok _ => (Ok (zlen b), s3) | Err e => (Err e, s3) | Panic p => (Panic p, s3) end)
    = (Ok n, s') -> n = zlen b /\ flushed burst s2 s').
  { intros burst s2. case_decide.
    - destruct (conn_write _ _ s2) as [[[]|?|?] s3] eqn:Ew; try done.
      apply conn_write_Ok in Ew as [E5 E6]. intros. simplify_eq. split; [done|].
      exists [], []. rewrite E5, E6, concat_app. cbn. by rewrite !app_nil_r.
    - destruct (iat_loop _ _ _ _ _ _ s2) as [[[]|?|?] s3] eqn:Ew; try done.
      intros. simplify_eq. split; [done|]. by apply iat_loop_flushed in Ew. }
  destruct (decide (mode = iatParanoid)).
  - intros E. apply Hout in E as [-> Hf]. split; [done|]. apply (Hflush _ _ Hf).
    exists [], []. by rewrite app_nil_r.
  - destruct Hld as (Hw & Hmin & Hmax).
    destruct (sample ld s1) as [r s2] eqn:Es. apply sample_cases in Es as (E1 & E2 & Er); [|done].
    destruct Er as [(v & -> & Hv)| ->]; [|done]. rewrite Hmin, Hmax in Hv.
    unfold with_encoder, on_part. rewrite E1. cbn [encoder s1].
    destruct (padBurst fr v e1) as [rb e'] eqn:Ep.
    apply padBurst_cases in Ep as [->|(ps & w & -> & Hps & Hm & _)]; [done| |done].
    intros E. apply Hout in E as [-> Hf]. split; [done|]. apply (Hflush _ _ Hf).
    exists ps, w. by rewrite E2.
Qed.
End write.

(** ** Properties *)

Section properties.
Context `{SipHashLaws} `{SecretBoxLaws} (netWrite : list bytes -> bytes -> option Packet.net_error).
Context (fuel : nat).

Definition receive (a : app) (b : bytes) : app :=
  mkApp (isServer a) (lenDist a) (iatDist a) (receiveDecodedBuffer a ++ b).

Lemma handle_payload p r a :
  handle fuel packetTypePayload p r a = (Ok tt, receive a p).
Proof.
  unfold handle, receive. cbn [Z.eqb]. destruct (0 <? zlen p) eqn:E; b2p; [done|].
  assert (p = []) as -> by (apply zlen_0; zlia). rewrite app_nil_r. by destruct a.
Qed.

Lemma deliver_payloads ps : forall a,
  Forall (fun p => Packet.pktType p = packetTypePayload) ps ->
  Packet.deliver (handle fuel) ps (Ok tt) a
  = (Ok tt, receive a (concat (map Packet.data ps))).
Proof.
  induction ps as [|p ps IH]; intros a Hf; cbn [Packet.deliver].
  - unfold receive. cbn. rewrite app_nil_r. by destruct a.
  - apply Forall_cons in Hf as [Hp Hf]. rewrite Hp, handle_payload, IH by done.
    unfold receive. cbn. by rewrite app_assoc.
Qed.

(** C2: end-to-end stream integrity of obfs4: what one [Write] of [b] puts on
    the network, whatever the IAT mode, the paddings drawn and the way the
    network cuts it up, the peer's [readPackets] turns into exactly [b] appended
    to its stream, without a panic, and both ends are in step for the next
    write; and [Write] reports [len(b)]. *)
Theorem obfs4_stream k mode ld id b s n s' d t a chunks :
  len_dist_ok ld -> match id with Some d => ProbDist.dist_wf d | None => True end ->
  Framing.synced (encoder s) d -> sent s = [] ->
  Write netWrite k mode ld id b s = (Ok n, s') ->
  concat chunks = concat (sent s') ->
  let out := Packet.readAll (handle fuel) chunks (Packet.mkConn (Framing.mkD d [] t) a) in
  n = zlen b /\ Packet.app out.2 = receive a b
  /\ Forall (fun r => is_panic r = false) out.1
  /\ exists d', Packet.pending d' t [] (Packet.rx out.2) /\ Framing.synced (encoder s') d'.
Proof.
  intros Hld Hid Hs Hsent Hw Hc out.
  apply Write_burst in Hw as (-> & ps & w & (Hok & Hty & Hb) & Hm & Hsent'); [|done..].
  rewrite Hsent in Hsent'. cbn in Hsent'. rewrite Hsent' in Hc. split; [done|].
  pose proof (deliver_payloads ps a Hty) as Hd.
  destruct (Packet.stream_delivery (handle fuel) maxPacketPayloadLength max_payload_fits
    t ps (encoder s) d a w (encoder s') chunks Hs Hok Hm Hc) as (Ha & Hp & Hd'); [by rewrite Hd|].
  split; [|done]. unfold out. rewrite Ha, Hd. by rewrite Hb.
Qed.

(** [padBurst] pads the tail of a burst to the sampled length modulo the
    segment size when the gap can hold a header or is empty; in the remaining
    case, a gap of 1 to [headerLength] bytes, the two padding packets overshoot
    the sampled length by exactly [headerLength].  It never panics. *)
Theorem padBurst_length burst toPadTo e :
  0 <= toPadTo <= Framing.MaximumSegmentLength ->
  let gap := pad_length (zlen burst) toPadTo in
  match padBurst burst toPadTo e with
  | (Ok burst', e') =>
      zlen burst' mod Framing.MaximumSegmentLength
      = (toPadTo + (if (0 <? gap) && (gap <=? headerLength) then headerLength else 0))
        mod Framing.MaximumSegmentLength
      /\ (exists w, burst' = burst ++ w)
  | (Err er, _) => er = Packet.FrameError Framing.ErrNonceCounterWrapped
  | (Panic _, _) => False
  end.
Proof.
  intros Hp gap. destruct (padBurst burst toPadTo e) as [r e'] eqn:E.
  apply padBurst_cases in E as [->|(ps & w & -> & _ & _ & Hl)]; [done| |done].
  split; [|eauto]. fold gap in Hl. rewrite zlen_app, Hl.
  pose proof consts as (_ & Hh & Hm). rewrite Hh, Hm in *.
  pose proof (Z.div_mod (zlen burst) 1448 ltac:(done)) as Hdm.
  pose proof (Z.mod_pos_bound (zlen burst) 1448 ltac:(done)) as Hb.
  assert (Hgap : gap = if toPadTo >=? zlen burst mod 1448 then toPadTo - zlen burst mod 1448
                       else 1448 - zlen burst mod 1448 + toPadTo) by done.
  rewrite Z.geb_leb in Hgap. unfold padded. rewrite Hh, Hm.
  set (q := zlen burst / 1448) in *. set (m := zlen burst mod 1448) in *.
  assert (Hmod : forall x j, x = toPadTo + 1448 * j -> x mod 1448 = toPadTo mod 1448).
  { intros x j ->. rewrite Z.mul_comm. apply Z_mod_plus_full. }
  assert (Hmod' : forall x j, x = (toPadTo + 21) + 1448 * j -> x mod 1448 = (toPadTo + 21) mod 1448).
  { intros x j ->. rewrite Z.mul_comm. apply Z_mod_plus_full. }
  destruct (gap >? 21) eqn:E1; [|destruct (gap >? 0) eqn:E2]; b2p.
  - rewrite (leb_false gap 21), andb_false_r, Z.add_0_r by lia.
    destruct (m <=? toPadTo) eqn:E3; [apply (Hmod _ q)|apply (Hmod _ (q + 1))]; lia.
  - rewrite (ltb_true 0 gap), (leb_true gap 21) by lia. cbn [andb].
    destruct (m <=? toPadTo) eqn:E3; [apply (Hmod' _ (q + 1))|apply (Hmod' _ (q + 2))]; lia.
  - rewrite (ltb_false 0 gap), Z.add_0_r by lia. cbn [andb]. rewrite Z.add_0_r.
    destruct (m <=? toPadTo) eqn:E3; b2p; [apply (Hmod _ q)|apply (Hmod _ (q + 1))]; lia.
Qed.

(** In the paranoid mode a sampled length of zero is fatal: with data to
    send the write loop reads zero bytes and panics. *)
Theorem paranoid_zero_sample_panics k ld id frameBuf s t :
  0 < zlen frameBuf -> ProbDist.Sample ld (tape s) = (Ok 0, t) ->
  (iat_loop netWrite (S k) iatParanoid ld id frameBuf s).1
  = Panic "BUG: Write(), iat length was 0".
Proof.
  intros Hl Hs. cbn [iat_loop]. rewrite eqb_false by lia. cbv zeta.
  unfold mbind at 1, M_bind at 1, sample. rewrite Hs. rewrite ltb_false by lia.
  by rewrite ztake_0.
Qed.

Definition dists_wf (a : app) : Prop :=
  (ProbDist.dist_wf (lenDist a) /\ ProbDist.minValue (lenDist a) < ProbDist.maxValue (lenDist a))
  /\ match iatDist a with
     | Some d => ProbDist.dist_wf d /\ ProbDist.minValue d < ProbDist.maxValue d
     | None => True
     end.

Lemma reset_cases seed w :
  zlen seed = Drbg.SeedLength -> ProbDist.minValue w < ProbDist.maxValue w ->
  (exists w', reset fuel seed w = Ok w' /\ ProbDist.dist_wf w'
              /\ ProbDist.minValue w' < ProbDist.maxValue w')
  \/ reset fuel seed w = Panic out_of_fuel.
Proof.
  intros Hs Hm. unfold reset.
  destruct (ProbDist.Reset_cases fuel seed w Hs Hm) as [[w' E]|E]; rewrite E; [left|by right].
  apply ProbDist.Reset_wf in E as (? & E1 & E2 & _); [|done].
  exists w'. by rewrite E1, E2.
Qed.

Lemma handle_total ty p r a :
  dists_wf a ->
  dists_wf (handle fuel ty p r a).2
  /\ (forall w, (handle fuel ty p r a).1 = Panic w -> w = out_of_fuel).
Proof.
  intros Ha. unfold handle. destruct (ty =? _); [by destruct (_ <? _)|].
  destruct (ty =? _); [|done]. destruct (_ && _) eqn:Ec; [|done]. b2p.
  rewrite Drbg.SeedFromBytes_exact by done. destruct Ha as [[Hl Hl'] Hi].
  destruct (reset_cases p (lenDist a)) as [(ld & -> & Hw & Hm)| ->]; [done|done| |].
  2: { split; [done|]. cbn. by intros w [= <-]. }
  cbn [iatDist]. destruct (iatDist a) as [dd|]; [|by split].
  rewrite Drbg.SeedFromBytes_Ok by (rewrite Sha256.zlen_Sum256; done).
  destruct Hi as [Hi Hi'].
  destruct (reset_cases (ztake Drbg.SeedLength (Sha256.Sum256 (Drbg.SeedBytes p))) dd)
    as [(id & -> & ? & ?)| ->]; [|done|by split|].
  - rewrite zlen_ztake, Sha256.zlen_Sum256. done.
  - split; [done|]. cbn. by intros w [= <-].
Qed.

(** [readPackets] survives anything the network delivers: from a
    well-formed connection it always returns, leaves the connection well formed
    (decoder invariant, both distributions valid, so that later [Sample]s are in
    range), and panics only when the entropy source fails (or the reseeding
    runs out of fuel). *)
Theorem obfs4_readPackets_safe rd rdErr c :
  Framing.dec_wf (Framing.dec (Packet.rx c)) -> dists_wf (Packet.app c) ->
  let out := readPackets fuel rd rdErr c in
  Framing.dec_wf (Framing.dec (Packet.rx out.2)) /\ dists_wf (Packet.app out.2)
  /\ forall w, out.1 = Panic w -> w = "crypto/rand failed"%string \/ w = out_of_fuel.
Proof.
  intros Hd Ha. destruct (Packet.readPackets_total (handle fuel) dists_wf
    (fun w => w = out_of_fuel) (fun t p r a _ Ha => handle_total t p r a Ha) rd rdErr c)
    as [[? ?] ?]; [by split|]. done.
Qed.

Lemma fill_spec net : forall c r c' net',
  fill fuel net c = Some (r, c', net') ->
  0 < zlen (receiveDecodedBuffer (Packet.app c')) \/ is_ok r = false.
Proof.
  induction net as [|[rd e] net IH]; intros c r c' net'; cbn [fill];
    (destruct (0 <? _) eqn:E; b2p; [intros; simplify_eq; by left|]); [done|].
  destruct (readPackets _ _ _ _) as [[u|er|w] c1]; [apply IH| |].
  - assert (Hstop : Some (Err er, c1, net) = Some (r, c', net') ->
      0 < zlen (receiveDecodedBuffer (Packet.app c')) \/ is_ok r = false)
      by (intros; simplify_eq; by right).
    destruct er as [fe| | | | |]; try done. destruct fe; try done. apply IH.
  - intros. simplify_eq. by right.
Qed.

(** [Read] neither loses, reorders nor invents stream bytes: what it
    returns is a prefix of the decoded stream, at most as long as the caller's
    buffer, the rest stays buffered, and it returns nothing (for a non-empty
    buffer) only together with an error. *)
Theorem obfs4_Read n net c bs r c' net' :
  0 <= n -> Read fuel n net c = Some (bs, r, c', net') -> is_panic r = false ->
  exists c1, fill fuel net c = Some (r, c1, net')
    /\ bs ++ receiveDecodedBuffer (Packet.app c') = receiveDecodedBuffer (Packet.app c1)
    /\ Packet.rx c' = Packet.rx c1
    /\ zlen bs <= n /\ (bs = [] -> n = 0 \/ is_ok r = false).
Proof.
  intros Hn. unfold Read. destruct (fill fuel net c) as [[[r1 c1] net1]|] eqn:E; [|done].
  pose proof (fill_spec _ _ _ _ _ E) as Hf.
  assert (Hlen : ztake n (receiveDecodedBuffer (Packet.app c1)) = [] ->
    n = 0 \/ is_ok r1 = false).
  { intros Hb. destruct Hf as [Hf|?]; [left|by right].
    apply (f_equal zlen) in Hb. rewrite zlen_ztake, (zlen_nil (A:=byte)) in Hb. lia. }
  destruct r1 as [u|e|w]; intros; simplify_eq; exists c1; cbn;
    (split_and!; [done|apply ztake_zdrop|done|rewrite zlen_ztake; zlia|done]).
Qed.
End properties.

Section link.
Context `{SipHashLaws} `{SecretBoxLaws} `{HkdfLaws}.

(** The key material of a seed, and the codecs of its two halves. *)
Lemma derive_links seed : exists e1 d1 e2 d2,
  client_link seed = Ok (e1, d2) /\ server_link seed = Ok (e2, d1)
  /\ (Framing.synced e1 d1 /\ Framing.enc_wf e1 /\ Framing.dec_wf d1)
  /\ (Framing.synced e2 d2 /\ Framing.enc_wf e2 /\ Framing.dec_wf d2).
Proof.
  destruct (hkdf_read seed Ntor.tKey Ntor.mExpand (Framing.KeyLength * 2))
    as (okm & Ek & Hl); [by split|].
  assert (Hk : Framing.KeyLength = 72) by done.
  destruct (Framing.new_link (ztake Framing.KeyLength okm)) as (e1 & d1 & E1 & D1 & L1);
    [rewrite zlen_ztake; lia|].
  destruct (Framing.new_link (zdrop Framing.KeyLength okm)) as (e2 & d2 & E2 & D2 & L2);
    [rewrite zlen_zdrop; lia|].
  exists e1, d1, e2, d2. unfold client_link, server_link, derive, Ntor.Kdf. rewrite Ek.
  unfold mbind, result_bind. rewrite E1, D1, E2, D2. split; [done|]. split; [done|]. tauto.
Qed.

Lemma link_synced seed ec dc es ds :
  client_link seed = Ok (ec, dc) -> server_link seed = Ok (es, ds) ->
  Framing.synced ec ds /\ Framing.synced es dc.
Proof.
  destruct (derive_links seed) as (e1 & d1 & e2 & d2 & -> & -> & [] & []).
  by intros [= <- <-] [= <- <-].
Qed.

(** The same KEY_SEED gives the two ends a link: the derivations always
    succeed, what the client encodes the server decodes and conversely, and
    both codecs start well formed. *)
Theorem link_keys seed :
  exists ec dc es ds, client_link seed = Ok (ec, dc) /\ server_link seed = Ok (es, ds)
    /\ Framing.synced ec ds /\ Framing.synced es dc
    /\ Framing.enc_wf ec /\ Framing.dec_wf dc /\ Framing.enc_wf es /\ Framing.dec_wf ds.
Proof.
  destruct (derive_links seed) as (e1 & d1 & e2 & d2 & -> & -> & (? & ? & ?) & (? & ? & ?)).
  by exists e1, d2, e2, d1.
Qed.
End link.
End Obfs4.

(** ** Witnesses *)
Section witnesses.
Import ToySip ToyBox ToyCurve Obfs4.
Definition w_ld : ProbDist.WeightedDist :=
  ProbDist.mkWDist 0 1448 false [30; 0] [ProbDist.fone; ProbDist.fone] [1; 0]
    [ProbDist.fone; ProbDist.fone].
Definition w_id : ProbDist.WeightedDist :=
  ProbDist.mkWDist 0 100 false [5] [ProbDist.fone] [0] [ProbDist.fone].
Lemma w_ld_ok : len_dist_ok w_ld.
Proof.
  split; [|done]. split; cbn; try done.
  - repeat constructor; lia.
  - repeat constructor; set_solver.
  - repeat constructor; cbn; lia.
Qed.
Lemma w_id_wf : ProbDist.dist_wf w_id.
Proof.
  split; cbn; try done.
  - repeat constructor; lia.
  - repeat constructor; set_solver.
  - repeat constructor; cbn; lia.
Qed.

Definition w_net (sent : list bytes) (b : bytes) : option Packet.net_error := None.
Definition w_state : wstate := mkW toy_enc (zrepeat 200 Byte.x00) [] [].
Definition w_msg : bytes := str "attack at dawn".
Definition w_after : result Packet.error Z * wstate := Eval vm_compute in
  Write w_net 5 iatEnabled w_ld (Some w_id) w_msg w_state.
Definition w_wire : bytes := concat (sent w_after.2).
Definition w_app : app := mkApp true w_ld (Some w_id) (str "before ").

Lemma link_keys_witness :
  exists ec dc es ds, client_link (zrepeat 32 Byte.x07) = Ok (ec, dc)
    /\ server_link (zrepeat 32 Byte.x07) = Ok (es, ds)
    /\ Framing.synced ec ds /\ Framing.synced es dc
    /\ Framing.enc_wf ec /\ Framing.dec_wf dc /\ Framing.enc_wf es /\ Framing.dec_wf ds.
Proof. apply (link_keys (zrepeat 32 Byte.x07)). Defined.

Lemma obfs4_stream_witness :
  let out := Packet.readAll (handle 9) [ztake 10 w_wire; zdrop 10 w_wire]
               (Packet.mkConn (Framing.mkD toy_dec [] []) w_app) in
  w_after.1 = Ok 14
  /\ receiveDecodedBuffer (Packet.app out.2) = str "before attack at dawn"
  /\ 14 = zlen w_msg /\ Packet.app out.2 = receive w_app w_msg
  /\ Forall (fun r => is_panic r = false) out.1
  /\ exists d', Packet.pending d' [] [] (Packet.rx out.2)
                /\ Framing.synced (encoder w_after.2) d'.
Proof.
  intros out. split; [reflexivity|]. split; [vm_compute; reflexivity|].
  assert (Hs : Framing.synced (encoder w_state) toy_dec) by (split_and!; reflexivity).
  assert (Hw : Write w_net 5 iatEnabled w_ld (Some w_id) w_msg w_state = (Ok 14, w_after.2))
    by (vm_compute; reflexivity).
  assert (Hc : concat [ztake 10 w_wire; zdrop 10 w_wire] = concat (sent w_after.2))
    by (vm_compute; reflexivity).
  exact (obfs4_stream w_net 9 5 iatEnabled w_ld (Some w_id) w_msg w_state 14 w_after.2
           toy_dec [] w_app [ztake 10 w_wire; zdrop 10 w_wire]
           w_ld_ok w_id_wf Hs eq_refl Hw Hc).
Defined.

(** A burst of 1438 bytes padded to 1448: the gap of 10 gives 31. *)
Lemma padBurst_length_witness :
  match padBurst (zrepeat 1438 Byte.x00) 1448 toy_enc with
  | (Ok b, _) => zlen b mod 1448 = 21 /\ (exists w, b = zrepeat 1438 Byte.x00 ++ w)
  | _ => False
  end.
Proof.
  pose proof (padBurst_length (zrepeat 1438 Byte.x00) 1448 toy_enc
    ltac:(vm_compute; split; discriminate)) as H.
  destruct (padBurst (zrepeat 1438 Byte.x00) 1448 toy_enc) as [[b|er|p] e'] eqn:E.
  - destruct H as [H1 H2]. split; [exact H1|exact H2].
  - vm_compute in E. discriminate.
  - exact H.
Defined.

Lemma paranoid_zero_sample_panics_witness :
  let s := mkW toy_enc (map z2b [0; 0; 0; 1; 0; 0; 0; 0] ++ zrepeat 8 Byte.x00) [] [] in
  (iat_loop w_net 3 iatParanoid w_ld (Some w_id) (str "frame") s).1
  = Panic "BUG: Write(), iat length was 0".
Proof.
  apply (paranoid_zero_sample_panics w_net 2 w_ld (Some w_id) (str "frame") _ []).
  - vm_compute. reflexivity.
  - vm_compute. reflexivity.
Defined.

Lemma obfs4_readPackets_safe_witness :
  let c := Packet.mkConn (Framing.mkD toy_dec [] []) w_app in
  let out := readPackets 9 (str "noise from the network") None c in
  Framing.dec_wf (Framing.dec (Packet.rx out.2)) /\ dists_wf (Packet.app out.2)
  /\ forall w, out.1 = Panic w -> w = "crypto/rand failed"%string \/ w = out_of_fuel.
Proof.
  apply (obfs4_readPackets_safe 9 (str "noise from the network") None).
  - split; [split; [reflexivity|vm_compute; split; congruence]|].
    split; [reflexivity|left; reflexivity].
  - split; (split; [apply w_ld_ok || apply w_id_wf|reflexivity]).
Defined.

Lemma obfs4_Read_witness :
  let c := Packet.mkConn (Framing.mkD toy_dec [] []) w_app in
  exists bs c' c1,
    Read 9 4 [] c = Some (bs, Ok tt, c', [])
    /\ bs = str "befo" /\ fill 9 [] c = Some (Ok tt, c1, [])
    /\ bs ++ receiveDecodedBuffer (Packet.app c') = receiveDecodedBuffer (Packet.app c1).
Proof.
  intros c. do 2 eexists.
  destruct (obfs4_Read 9 4 [] c (str "befo") (Ok tt)
    (Packet.mkConn (Framing.mkD toy_dec [] []) (mkApp true w_ld (Some w_id) (str "re "))) [])
    as (c1 & Hf & Hb & _).
  - lia.
  - vm_compute. reflexivity.
  - reflexivity.
  - exists c1. split; [vm_compute; reflexivity|]. split; [reflexivity|].
    split; [exact Hf|exact Hb].
Defined.
End witnesses.
