(* ===== verification/DefConn.v ===== *)
(** * The defended connection: [transports/defconn]

    Packets and handlers ([packet.go]), the connection state ([state.go]) and
    the goroutines of [ReadFrom] ([defconn.go]): the main loop that cuts the
    upstream into cells, the ticker that watches the throughput and the sender.
    Every load, store and channel operation of the goroutines is a step of its
    own. *)
From S2P Require Import Prelude GoStd Rand Drbg Framing ProbDist Packet.

Module DefConn.

Definition MaxPacketPayloadLength : Z := 536.
Definition MaxPacketPaddingLength : Z := MaxPacketPayloadLength.
Definition SeedPacketPayloadLength : Z := Drbg.SeedLength.

Definition PacketTypePayload : Z := 0.
Definition PacketTypeDummy : Z := 1.
Definition PacketTypePrngSeed : Z := 2.
Definition PacketTypeSignalStart : Z := 3.
Definition PacketTypeSignalStop : Z := 4.
Definition PacketTypeFinish : Z := 5.

(** ** [state.go] *)

Inductive cstate := StateStart | StateStop | StateReady | StatePadding.
#[export] Instance cstate_eq_dec : EqDecision cstate.
Proof. solve_decision. Defined.

Record State := mkState { curState : cstate; lastState : cstate }.
Definition SetState (newState : cstate) (s : State) : State := mkState newState (curState s).
Definition ReSetState (s : State) : State := mkState StateStop StateStop.
Definition NewState : State := mkState StateStop StateStop.

(** ** [packet.go] *)

Record app := mkApp {
  IsServer : bool;
  LenDist : ProbDist.WeightedDist;
  ConnState : State;
  nRealSegRcv : Z;  (* uint32 *)
  ReceiveDecodedBuffer : bytes
}.
Definition set_ConnState (s : State) (a : app) : app :=
  mkApp (IsServer a) (LenDist a) s (nRealSegRcv a) (ReceiveDecodedBuffer a).
Definition set_LenDist (w : ProbDist.WeightedDist) (a : app) : app :=
  mkApp (IsServer a) w (ConnState a) (nRealSegRcv a) (ReceiveDecodedBuffer a).
(** [ReceiveDecodedBuffer.Write (payload)] and [NRealSegRcvIncrement]. *)
Definition receive (p : bytes) (a : app) : app :=
  mkApp (IsServer a) (LenDist a) (ConnState a) (u32 (nRealSegRcv a + 1))
        (ReceiveDecodedBuffer a ++ p).

Section packets.
Context `{SipHash} `{SecretBox} (fuel : nat).

(** The [PacketTypePrngSeed] case, common to the defconn transports. *)
Definition handle_seed (payload : bytes) (a : app) : result Packet.error unit * app :=
  if (zlen payload =? SeedPacketPayloadLength) && negb (IsServer a) then
    match Drbg.SeedFromBytes payload with
    | Err e => (Err (Packet.SeedError e), a)
    | Panic w => (Panic w, a)
    | Ok seed =>
        match ProbDist.Reset fuel seed (LenDist a) with
        | Ok w => (Ok tt, set_LenDist w a)
        | Err _ => (Panic "nil pointer dereference", a)
        | Panic w => (Panic w, a)
        end
    end
  else (Ok tt, a).

(** The [switch] of [ReadPackets]. *)
Definition handle : Packet.handler app := fun pktType payload _ a =>
  if pktType =? PacketTypePayload then
    (Ok tt, if 0 <? zlen payload then receive payload a else a)
  else if pktType =? PacketTypePrngSeed then handle_seed payload a
  else if pktType =? PacketTypeSignalStart then
    if negb (IsServer a) then (Panic "Client receive SignalStart pkt from server?", a)
    else
      (Ok tt, if decide (curState (ConnState a) = StateStart) then a
              else set_ConnState (SetState StateStart (ConnState a)) a)
  else if pktType =? PacketTypeSignalStop then
    if negb (IsServer a) then (Panic "Client receive SignalStop pkt from server?", a)
    else
      (Ok tt, if decide (curState (ConnState a) = StateStop) then a
              else set_ConnState (SetState StateStop (ConnState a)) a)
  else (Ok tt, a).

Definition MakePacket : Packet.packet -> M Framing.Encoder Packet.error bytes :=
  Packet.makePacket MaxPacketPayloadLength.
Definition ReadPackets := Packet.readPackets handle.

(** [MyRead (b, readPacketsFunc)] with [len(b) = n]: the loop over
    [readPacketsFunc], on what the network's successive [Read]s give; [None]
    when it blocks. *)
Section read.
Context (readPacketsFunc : bytes -> option Packet.net_error -> Packet.conn app ->
                           result Packet.error unit * Packet.conn app).

Fixpoint fill (net : list (bytes * option Packet.net_error)) (c : Packet.conn app)
  : option (result Packet.error unit * Packet.conn app
            * list (bytes * option Packet.net_error)) :=
  if 0 <? zlen (ReceiveDecodedBuffer (Packet.app c)) then Some (Ok tt, c, net)
  else
    match net with
    | [] => None
    | (rd, rdErr) :: net =>
        match readPacketsFunc rd rdErr c with
        | (Err (Packet.FrameError Framing.ErrAgain), c) => fill net c
        | (Err e, c) => Some (Err e, c, net)
        | (Panic w, c) => Some (Panic w, c, net)
        | (Ok _, c) => fill net c
        end
    end.

Definition MyRead (n : Z) (net : list (bytes * option Packet.net_error))
    (c : Packet.conn app)
  : option (bytes * result Packet.error unit * Packet.conn app
            * list (bytes * option Packet.net_error)) :=
  match fill net c with
  | None => None
  | Some (Panic w, c, net) => Some ([], Panic w, c, net)
  | Some (r, c, net) =>
      let a := Packet.app c in
      let buf := ReceiveDecodedBuffer a in
      Some (ztake n buf, r,
            Packet.mkConn (Packet.rx c)
              (mkApp (IsServer a) (LenDist a) (ConnState a) (nRealSegRcv a) (zdrop n buf)),
            net)
  end.
End read.

(** [Read]. *)
Definition Read := MyRead ReadPackets.
End packets.

(** ** The goroutines of [ReadFrom] *)

(** Where the main loop is. *)
Inductive main_pc :=
| MSelect                          (* at the [select] *)
| MRead                            (* in [r.Read] *)
| MGate1 (rdLen : Z)               (* load: StateStop, and rdLen > max? *)
| MGate2 (rdLen : Z)               (* load: StateReady? *)
| MSetStart                        (* SetState(StateStart) *)
| MSendStart                       (* SendChan <- SignalStart *)
| MElse                            (* else: load: StateStop? *)
| MSetReady                        (* SetState(StateReady) *)
| MChop                            (* the loop over receiveBuf *)
| MSendPayload (p : bytes)         (* SendChan <- Payload *)
| MInc                             (* NRealSegSentIncrement *)
| MDone (err : Packet.error).      (* returned, CloseChan is closed *)

(** Where the ticker is. *)
Inductive ticker_pc :=
| TWait | TLoad | TCount1 | TCount2 | TSetStop | TSendStop | TResetSent | TResetRcv | TDone.

(** The sender waits for a packet, reports an error, or has exited. *)
Inductive sender_pc := SWait | SReport (e : Packet.error) | SDone.

Record st := mkSt {
  server : bool;
  state : State;
  sent : Z; rcv : Z;                  (* the two uint32 counters *)
  sendChan : list Packet.packet;      (* capacity 10000 *)
  errChan : list Packet.error;        (* capacity 10 *)
  receiveBuf : bytes;
  written : Z;
  main : main_pc; ticker : ticker_pc; sender : sender_pc;
  (* history *)
  upstream : bytes;                   (* what [r.Read] returned so far *)
  queued : list Packet.packet;        (* what was put on SendChan so far *)
  wire : list Packet.packet           (* what the sender wrote so far *)
}.

Definition chan_cap : Z := 10000.
Definition err_cap : Z := 10.

Definition cell (ty : Z) (d : bytes) : Packet.packet :=
  Packet.mkPacket ty d (MaxPacketPaddingLength - zlen d).

Definition init (isServer : bool) (s : State) : st :=
  mkSt isServer s 0 0 [] [] [] 0 MSelect TWait SWait [] [] [].

Definition set_main m s := mkSt (server s) (state s) (sent s) (rcv s) (sendChan s) (errChan s)
  (receiveBuf s) (written s) m (ticker s) (sender s) (upstream s) (queued s) (wire s).
Definition set_ticker t s := mkSt (server s) (state s) (sent s) (rcv s) (sendChan s) (errChan s)
  (receiveBuf s) (written s) (main s) t (sender s) (upstream s) (queued s) (wire s).
Definition set_state x s := mkSt (server s) x (sent s) (rcv s) (sendChan s) (errChan s)
  (receiveBuf s) (written s) (main s) (ticker s) (sender s) (upstream s) (queued s) (wire s).
Definition set_counts a b s := mkSt (server s) (state s) a b (sendChan s) (errChan s)
  (receiveBuf s) (written s) (main s) (ticker s) (sender s) (upstream s) (queued s) (wire s).
Definition set_sender c e x w s := mkSt (server s) (state s) (sent s) (rcv s) c e
  (receiveBuf s) (written s) (main s) (ticker s) x (upstream s) (queued s) w.

(** [SendChan <- p]: blocks on a full channel. *)
Definition enqueue (p : Packet.packet) (s : st) : option st :=
  if zlen (sendChan s) <? chan_cap then
    Some (mkSt (server s) (state s) (sent s) (rcv s) (sendChan s ++ [p]) (errChan s)
            (receiveBuf s) (written s) (main s) (ticker s) (sender s) (upstream s)
            (queued s ++ [p]) (wire s))
  else None.

(** The scheduler's choices and the environment's. *)
Inductive event :=
| EvRead (data : bytes)             (* [r.Read] returns data *)
| EvReadErr (e : Packet.error)      (* [r.Read] fails *)
| EvMain                            (* the main loop makes a step *)
| EvTick                            (* the ticker fires *)
| EvTicker                          (* the ticker goroutine makes a step *)
| EvSend                            (* the sender writes a packet *)
| EvSendErr (e : Packet.error)      (* the sender fails on a packet *)
| EvReport                          (* the sender puts its error on ErrChan *)
| EvCloseSender | EvCloseTicker     (* a goroutine sees CloseChan closed *)
| EvRecv                            (* [ReadPackets] counts a payload packet *)
| EvSignal (start : bool).          (* a server's [ReadPackets], the only writer of
                                       its state, gets a signal *)

Definition main_step (s : st) : option st :=
  match main s with
  | MSelect =>
      match errChan s with
      | e :: es => Some (set_main (MDone e) (set_sender (sendChan s) es (sender s) (wire s) s))
      | [] => Some (set_main MRead s)
      end
  | MRead | MDone _ => None
  | MGate1 n =>
      if bool_decide (curState (state s) = StateStop) && (n >? MaxPacketPayloadLength)
      then Some (set_main MSetStart s) else Some (set_main (MGate2 n) s)
  | MGate2 n =>
      if bool_decide (curState (state s) = StateReady)
      then Some (set_main MSetStart s) else Some (set_main MElse s)
  | MSetStart => Some (set_main MSendStart (set_state (SetState StateStart (state s)) s))
  | MSendStart => set_main MChop <$> enqueue (cell PacketTypeSignalStart []) s
  | MElse =>
      if bool_decide (curState (state s) = StateStop)
      then Some (set_main MSetReady s) else Some (set_main MChop s)
  | MSetReady => Some (set_main MChop (set_state (SetState StateReady (state s)) s))
  | MChop =>
      if zlen (receiveBuf s) =? 0 then Some (set_main MSelect s)
      else
        let p := ztake MaxPacketPayloadLength (receiveBuf s) in
        Some (mkSt (server s) (state s) (sent s) (rcv s) (sendChan s) (errChan s)
                (zdrop MaxPacketPayloadLength (receiveBuf s)) (written s + zlen p)
                (MSendPayload p) (ticker s) (sender s) (upstream s) (queued s) (wire s))
  | MSendPayload p => set_main MInc <$> enqueue (cell PacketTypePayload p) s
  | MInc => Some (set_main MChop (set_counts (u32 (sent s + 1)) (rcv s) s))
  end.

Definition ticker_step (s : st) : option st :=
  match ticker s with
  | TWait | TDone => None
  | TLoad =>
      if bool_decide (curState (state s) = StateStop)
      then Some (set_ticker TResetSent s) else Some (set_ticker TCount1 s)
  | TCount1 =>
      if sent s <? 2 then Some (set_ticker TSetStop s) else Some (set_ticker TCount2 s)
  | TCount2 =>
      if rcv s <? 2 then Some (set_ticker TSetStop s) else Some (set_ticker TResetSent s)
  | TSetStop => Some (set_ticker TSendStop (set_state (SetState StateStop (state s)) s))
  | TSendStop => set_ticker TResetSent <$> enqueue (cell PacketTypeSignalStop []) s
  | TResetSent => Some (set_ticker TResetRcv (set_counts 0 (rcv s) s))
  | TResetRcv => Some (set_ticker TWait (set_counts (sent s) 0 s))
  end.

Definition exec (ev : event) (s : st) : option st :=
  match ev with
  | EvRead data =>
      match main s with
      | MRead =>
          if zlen data >? 65535 then None
          else if zlen data =? 0 then Some (set_main (MDone (Packet.NetError Packet.EOF)) s)
          else
            let s' := mkSt (server s) (state s) (sent s) (rcv s) (sendChan s) (errChan s)
                        (receiveBuf s ++ data) (written s) (main s) (ticker s) (sender s)
                        (upstream s ++ data) (queued s) (wire s) in
            Some (set_main (if server s then MChop else MGate1 (zlen data)) s')
      | _ => None
      end
  | EvReadErr e =>
      match main s with
      | MRead => Some (set_main (MDone e) s)
      | _ => None
      end
  | EvMain => main_step s
  | EvTick =>
      match ticker s with
      | TWait => Some (set_ticker (if server s then TResetSent else TLoad) s)
      | _ => None
      end
  | EvTicker => ticker_step s
  | EvSend =>
      match sender s, sendChan s with
      | SWait, p :: ps => Some (set_sender ps (errChan s) SWait (wire s ++ [p]) s)
      | _, _ => None
      end
  | EvSendErr e =>
      match sender s, sendChan s with
      | SWait, p :: ps => Some (set_sender ps (errChan s) (SReport e) (wire s) s)
      | _, _ => None
      end
  | EvReport =>
      match sender s with
      | SReport e =>
          if zlen (errChan s) <? err_cap
          then Some (set_sender (sendChan s) (errChan s ++ [e]) SDone (wire s) s) else None
      | _ => None
      end
  | EvCloseSender =>
      match main s, sender s with
      | MDone _, SWait => Some (set_sender (sendChan s) (errChan s) SDone (wire s) s)
      | _, _ => None
      end
  | EvCloseTicker =>
      match main s, ticker s with
      | MDone _, TWait => Some (set_ticker TDone s)
      | _, _ => None
      end
  | EvRecv => Some (set_counts (sent s) (u32 (rcv s + 1)) s)
  | EvSignal start =>
      let target := if start then StateStart else StateStop in
      if server s then
        Some (if decide (curState (state s) = target) then s
              else set_state (SetState target (state s)) s)
      else None
  end.

Definition step (s s' : st) : Prop := exists ev, exec ev s = Some s'.

Fixpoint exec_all (evs : list event) (s : st) : option st :=
  match evs with
  | [] => Some s
  | ev :: evs => s' ← exec ev s; exec_all evs s'
  end.

(** ** Invariants of every interleaving *)

(** The payload a list of packets carries. *)
Definition payload_of (ps : list Packet.packet) : bytes :=
  concat (map (fun p => if Packet.pktType p =? PacketTypePayload then Packet.data p else []) ps).

#[global] Arguments payload_of : simpl never.

Lemma payload_of_app ps qs : payload_of (ps ++ qs) = payload_of ps ++ payload_of qs.
Proof. unfold payload_of. by rewrite map_app, concat_app. Qed.

(** The cell the main loop is about to queue. *)
Definition in_hand (m : main_pc) : bytes := match m with MSendPayload p => p | _ => [] end.

Definition cell_ok (isServer : bool) (p : Packet.packet) : Prop :=
  Packet.packet_ok MaxPacketPayloadLength p
  /\ zlen (Packet.data p) + Packet.padLen p = MaxPacketPayloadLength
  /\ (Packet.pktType p = PacketTypePayload
      \/ isServer = false /\ Packet.data p = []
         /\ (Packet.pktType p = PacketTypeSignalStart
             \/ Packet.pktType p = PacketTypeSignalStop)).

(** A server's goroutines never reach the signalling code. *)
Definition server_pcs (s : st) : Prop :=
  match main s with MGate1 _ | MGate2 _ | MSetStart | MSendStart | MElse | MSetReady => False
               | _ => True end
  /\ match ticker s with TLoad | TCount1 | TCount2 | TSetStop | TSendStop => False | _ => True end.

Record Inv (s : st) : Prop := {
  inv_stream : payload_of (queued s) ++ in_hand (main s) ++ receiveBuf s = upstream s;
  inv_written : written s = zlen (payload_of (queued s)) + zlen (in_hand (main s));
  inv_cells : Forall (cell_ok (server s)) (queued s);
  inv_hand : zlen (in_hand (main s)) <= MaxPacketPayloadLength;
  inv_sender : exists lost, queued s = wire s ++ lost ++ sendChan s
                            /\ (length lost <= 1)%nat /\ (sender s = SWait -> lost = []);
  inv_server : server s = true -> server_pcs s
}.

Lemma init_Inv b x : Inv (init b x).
Proof. split; cbn; [done|done|by apply Forall_nil_2|done| |by split]. exists []. cbn. auto with lia. Qed.

Lemma cell_ok_payload b d : zlen d <= MaxPacketPayloadLength -> cell_ok b (cell PacketTypePayload d).
Proof.
  intros Hd. unfold cell_ok, Packet.packet_ok, cell. cbn [Packet.pktType Packet.data Packet.padLen].
  unfold MaxPacketPaddingLength. split_and!; try done; try lia.
Qed.

Lemma cell_ok_signal ty :
  ty = PacketTypeSignalStart \/ ty = PacketTypeSignalStop -> cell_ok false (cell ty []).
Proof. intros [-> | ->]; (split_and!; try done); right; cbn; auto. Qed.

Lemma signal_no_payload ty ps :
  ty = PacketTypeSignalStart \/ ty = PacketTypeSignalStop ->
  payload_of (ps ++ [cell ty []]) = payload_of ps.
Proof. intros [-> | ->]; rewrite payload_of_app; unfold payload_of at 2; cbn; by rewrite app_nil_r. Qed.

Lemma enqueue_Some p s s' :
  enqueue p s = Some s' ->
  s' = mkSt (server s) (state s) (sent s) (rcv s) (sendChan s ++ [p]) (errChan s)
         (receiveBuf s) (written s) (main s) (ticker s) (sender s) (upstream s)
         (queued s ++ [p]) (wire s).
Proof. unfold enqueue. destruct (_ <? _); [by intros [= <-]|done]. Qed.

(** Steps that change neither the channels nor the stream keep the invariant
    if the new program points are allowed. *)
Lemma Inv_local s s' :
  Inv s -> server s' = server s -> receiveBuf s' = receiveBuf s -> written s' = written s ->
  sender s' = sender s -> sendChan s' = sendChan s -> upstream s' = upstream s ->
  queued s' = queued s -> wire s' = wire s -> in_hand (main s') = in_hand (main s) ->
  (server s = true -> server_pcs s') -> Inv s'.
Proof.
  intros [] E1 E2 E3 E4 E5 E6 E7 E8 E9 Hp.
  split; rewrite ?E1, ?E2, ?E3, ?E4, ?E5, ?E6, ?E7, ?E8, ?E9; try done.
Qed.

(** Queueing a signal. *)
Lemma Inv_enqueue_signal ty s s1 s' :
  Inv s -> server s = false -> ty = PacketTypeSignalStart \/ ty = PacketTypeSignalStop ->
  enqueue (cell ty []) s = Some s1 ->
  server s' = server s1 -> receiveBuf s' = receiveBuf s1 -> written s' = written s1 ->
  sender s' = sender s1 -> sendChan s' = sendChan s1 -> upstream s' = upstream s1 ->
  queued s' = queued s1 -> wire s' = wire s1 -> in_hand (main s') = in_hand (main s) -> Inv s'.
Proof.
  intros [Hst Hw Hc Hh (lost & Hq & Hl & Hs) Hv] Hsv Hty E.
  apply enqueue_Some in E as ->. cbn. intros E1 E2 E3 E4 E5 E6 E7 E8 E9.
  split; rewrite ?E1, ?E2, ?E3, ?E4, ?E5, ?E6, ?E7, ?E8, ?E9, ?(signal_no_payload _ _ Hty); try done.
  - apply Forall_app. split; [done|]. apply Forall_singleton.
    rewrite Hsv. by apply cell_ok_signal.
  - exists lost. rewrite Hq, <- !app_assoc. done.
  - by rewrite Hsv.
Qed.

Ltac local_step Hi Hv :=
  intros; simplify_eq; eapply (Inv_local _ _ Hi);
  first
    [ done
    | cbn; match goal with E : main _ = _ |- _ => rewrite E end; done
    | let Hsv := fresh in intros Hsv; unfold server_pcs; destruct (Hv Hsv); cbn;
      try rewrite Hsv;
      repeat match goal with
             | E : main _ = _ |- _ => rewrite E in *
             | E : ticker _ = _ |- _ => rewrite E in *
             end; done ].

Lemma main_step_Inv s s' : Inv s -> main_step s = Some s' -> Inv s'.
Proof.
  intros Hi. pose proof Hi as [Hst Hw Hc Hh Hse Hv]. unfold main_step, server_pcs in *.
  destruct (main s) eqn:Em; cbn [in_hand] in *.
  - destruct (errChan s); local_step Hi Hv.
  - done.
  - destruct (_ && _); local_step Hi Hv.
  - destruct (bool_decide _); local_step Hi Hv.
  - local_step Hi Hv.
  - destruct (enqueue _ s) as [s1|] eqn:E; cbn; [|done]. intros [= <-].
    assert (Hsv : server s = false) by (destruct (server s); [by destruct (Hv eq_refl)|done]).
    eapply (Inv_enqueue_signal PacketTypeSignalStart s s1); rewrite ?Em; auto.
  - destruct (bool_decide _); local_step Hi Hv.
  - local_step Hi Hv.
  - destruct (zlen (receiveBuf s) =? 0) eqn:E0; b2p.
    { local_step Hi Hv. }
    intros [= <-]. split; cbn.
    + rewrite ztake_zdrop. by rewrite <- Hst.
    + rewrite Hw, (zlen_nil (A := byte)). lia.
    + done.
    + rewrite zlen_ztake. unfold MaxPacketPayloadLength. lia.
    + done.
    + intros Hsv. by destruct (Hv Hsv).
  - destruct (enqueue _ s) as [s1|] eqn:E; cbn; [|done]. intros [= <-].
    apply enqueue_Some in E as ->.
    assert (Hp : payload_of (queued s ++ [cell PacketTypePayload p]) = payload_of (queued s) ++ p).
    { rewrite payload_of_app. f_equal. unfold payload_of. cbn. by rewrite app_nil_r. }
    split; cbn; rewrite ?Hp.
    + by rewrite <- app_assoc.
    + rewrite Hw, zlen_app, (zlen_nil (A := byte)). lia.
    + apply Forall_app. split; [done|]. apply Forall_singleton. by apply cell_ok_payload.
    + done.
    + destruct Hse as (lost & -> & ? & ?). exists lost. by rewrite <- !app_assoc.
    + intros Hsv. by destruct (Hv Hsv).
  - local_step Hi Hv.
  - done.
Qed.

Lemma ticker_step_Inv s s' : Inv s -> ticker_step s = Some s' -> Inv s'.
Proof.
  intros Hi. pose proof Hi as [Hst Hw Hc Hh Hse Hv]. unfold ticker_step, server_pcs in *.
  destruct (ticker s) eqn:Et.
  6: { destruct (enqueue _ s) as [s1|] eqn:E; cbn; [|done]. intros [= <-].
       assert (Hsv : server s = false) by (destruct (server s); [by destruct (Hv eq_refl)|done]).
       eapply (Inv_enqueue_signal PacketTypeSignalStop s s1); auto.
       by apply enqueue_Some in E as ->. }
  all: try done.
  all: repeat (case_match; try done); local_step Hi Hv.
Qed.

Lemma exec_Inv ev s s' : Inv s -> exec ev s = Some s' -> Inv s'.
Proof.
  intros Hi. pose proof Hi as [Hst Hw Hc Hh Hse Hv]. unfold server_pcs in *.
  destruct ev; cbn [exec].
  - destruct (main s) eqn:Em; try done. destruct (_ >? _); [done|].
    destruct (zlen data =? 0); [local_step Hi Hv|].
    intros [= <-]. cbn in Hst. split; cbn.
    + rewrite <- Hst. destruct (server s); cbn; by rewrite app_assoc.
    + rewrite Hw. by destruct (server s).
    + done.
    + by destruct (server s).
    + done.
    + intros Hsv. unfold server_pcs. rewrite Hsv. cbn. by destruct (Hv Hsv).
  - destruct (main s) eqn:Em; try done. local_step Hi Hv.
  - by apply main_step_Inv.
  - destruct (ticker s) eqn:Et; try done. local_step Hi Hv.
  - by apply ticker_step_Inv.
  - destruct (sender s) eqn:Es; try done. destruct (sendChan s) as [|p ps] eqn:Ec; [done|].
    intros [= <-]. split; cbn; try done. destruct Hse as (lost & Hq & _ & Hl).
    rewrite (Hl eq_refl) in Hq. exists []. rewrite Hq, <- app_assoc. cbn. auto with lia.
  - destruct (sender s) eqn:Es; try done. destruct (sendChan s) as [|p ps] eqn:Ec; [done|].
    intros [= <-]. split; cbn; try done. destruct Hse as (lost & Hq & _ & Hl).
    rewrite (Hl eq_refl) in Hq. exists [p]. rewrite Hq. cbn. by split_and!.
  - destruct (sender s) eqn:Es; try done. destruct (_ <? _); [|done].
    intros [= <-]. split; cbn; try done. destruct Hse as (lost & Hq & Hl & _). by exists lost.
  - destruct (main s) eqn:Em; try done. destruct (sender s) eqn:Es; try done.
    intros [= <-]. split; cbn; rewrite ?Em; try done.
    + destruct Hse as (lost & Hq & Hl & _). by exists lost.
    + intros Hsv. unfold server_pcs. cbn. rewrite Em. by destruct (Hv Hsv).
  - destruct (main s) eqn:Em; try done. destruct (ticker s) eqn:Et; try done.
    local_step Hi Hv.
  - local_step Hi Hv.
  - destruct (server s) eqn:Esv; [|done]. intros [= <-].
    destruct (decide _); [done|]. eapply (Inv_local _ _ Hi); try done.
    intros _. exact (Hv eq_refl).
Qed.

Lemma reachable_Inv b x s : rtc step (init b x) s -> Inv s.
Proof.
  intros Hr. eapply (rtc_invariant step Inv); [|exact Hr|apply init_Inv].
  intros s1 s2 [ev E] Hi. by eapply exec_Inv.
Qed.

(** The peer's state after a list of packets: the last signal wins. *)
Definition signal_of (d : cstate) (p : Packet.packet) : cstate :=
  if Packet.pktType p =? PacketTypeSignalStart then StateStart
  else if Packet.pktType p =? PacketTypeSignalStop then StateStop else d.
Definition last_signal (d : cstate) (ps : list Packet.packet) : cstate := foldl signal_of d ps.

Lemma last_signal_app d ps qs : last_signal d (ps ++ qs) = last_signal (last_signal d ps) qs.
Proof. apply foldl_app. Qed.

Lemma exec_server ev s s' : exec ev s = Some s' -> server s' = server s.
Proof.
  unfold exec, main_step, ticker_step, enqueue.
  destruct ev; repeat (case_match; cbn); by intros; simplify_eq.
Qed.

Lemma reachable_server b x s : rtc step (init b x) s -> server s = b.
Proof.
  intros Hr. eapply (rtc_invariant step (fun s => server s = b)); [|exact Hr|done].
  intros s1 s2 [ev E] <-. by eapply exec_server.
Qed.

(** Whatever the interleaving of the main loop, the ticker and the sender, and
    whatever fails: the payload on the wire is a prefix of what was read from
    upstream; until the sender stops it is followed by exactly what the channel,
    the main loop and the receive buffer hold; and [written] never exceeds what
    was read. *)
Theorem upstream_integrity b x s :
  rtc step (init b x) s ->
  (exists rest, upstream s = payload_of (wire s) ++ rest)
  /\ (sender s = SWait ->
      upstream s = payload_of (wire s) ++ payload_of (sendChan s)
                   ++ in_hand (main s) ++ receiveBuf s)
  /\ written s + zlen (receiveBuf s) = zlen (upstream s).
Proof.
  intros [Hst Hw _ _ (lost & Hq & _ & Hl) _]%reachable_Inv.
  rewrite <- Hst, Hw, Hq, !payload_of_app, !zlen_app. split_and!.
  - eexists. by rewrite <- !app_assoc.
  - intros ->%Hl. by rewrite <- !app_assoc.
  - lia.
Qed.

Section wire.
Context `{SipHashLaws} `{SecretBoxLaws}.

Lemma cell_payload_fits :
  MaxPacketPayloadLength <= Framing.MaximumFramePayloadLength - Packet.packetOverhead.
Proof. done. Qed.

Lemma cells_ok b ps : Forall (cell_ok b) ps -> Forall (Packet.packet_ok MaxPacketPayloadLength) ps.
Proof. intros Hf. eapply Forall_impl; [exact Hf|]. by intros p []. Qed.

Lemma wire_cells b x s : rtc step (init b x) s -> Forall (cell_ok b) (wire s).
Proof.
  intros Hr. rewrite <- (reachable_server _ _ _ Hr).
  apply reachable_Inv in Hr as [_ _ Hc _ (lost & Hq & _) _].
  rewrite Hq in Hc. by apply Forall_app in Hc as [? _].
Qed.

Lemma makePackets_cells b ps e w e' :
  Forall (cell_ok b) ps ->
  Packet.makePackets MaxPacketPayloadLength ps e = (Ok w, e') ->
  zlen w = 557 * Z.of_nat (length ps).
Proof.
  intros Hc E. eapply Packet.makePackets_zlen in E; [exact E|apply cell_payload_fits|
    by eapply cells_ok|]. eapply Forall_impl; [exact Hc|]. by intros p (_ & ? & _).
Qed.

(** The wire image of a defended connection hides the packets: in every
    reachable state, what the sender has put on the wire is a sequence of frames
    of 557 bytes each, one per packet, whatever its type and payload, so that
    the bytes sent depend on the number of packets only; no packet panics or
    fails (but for the nonce counter); and a server sends payload only. *)
Theorem constant_cells b x s e r e' :
  rtc step (init b x) s ->
  Packet.makePackets MaxPacketPayloadLength (wire s) e = (r, e') ->
  (r = Err (Packet.FrameError Framing.ErrNonceCounterWrapped)
   \/ exists w, r = Ok w /\ zlen w = 557 * Z.of_nat (length (wire s)))
  /\ (b = true -> Forall (fun p => Packet.pktType p = PacketTypePayload) (wire s)).
Proof.
  intros Hr%wire_cells E. split.
  - pose proof E as Hc. apply Packet.makePackets_cases in Hc as [[w ->]|Hc];
      [|by left|apply cell_payload_fits|by eapply cells_ok].
    right. exists w. split; [done|]. by eapply makePackets_cells.
  - intros ->. eapply Forall_impl; [exact Hr|]. by intros p (_ & _ & [?|[? _]]).
Qed.

(** The payload packets that [NRealSegRcvIncrement] counts. *)
Definition n_payload (ps : list Packet.packet) : Z :=
  zlen (filter (fun p => Packet.pktType p = PacketTypePayload /\ 0 < zlen (Packet.data p)) ps).

Lemma n_payload_one p :
  n_payload [p] = if Packet.pktType p =? PacketTypePayload
                  then if 0 <? zlen (Packet.data p) then 1 else 0 else 0.
Proof.
  unfold n_payload. destruct (_ =? _) eqn:E; b2p.
  - destruct (0 <? _) eqn:E'; b2p.
    + by rewrite filter_cons_True.
    + rewrite filter_cons_False; [done|]. intros []. lia.
  - rewrite filter_cons_False; [done|]. by intros [].
Qed.

Lemma payload_of_one p :
  payload_of [p] = if Packet.pktType p =? PacketTypePayload then Packet.data p else [].
Proof. unfold payload_of. cbn. by rewrite app_nil_r. Qed.

Record received (ps : list Packet.packet) (a a' : app) : Prop := {
  rcv_role : IsServer a' = IsServer a;
  rcv_dist : LenDist a' = LenDist a;
  rcv_buffer : ReceiveDecodedBuffer a' = ReceiveDecodedBuffer a ++ payload_of ps;
  rcv_state : curState (ConnState a') = last_signal (curState (ConnState a)) ps;
  rcv_count : u32 (nRealSegRcv a') = u32 (nRealSegRcv a + n_payload ps)
}.

Lemma received_signal p a target :
  Packet.pktType p <> PacketTypePayload -> signal_of (curState (ConnState a)) p = target ->
  received [p] a (if decide (curState (ConnState a) = target) then a
                  else set_ConnState (SetState target (ConnState a)) a).
Proof.
  intros Ht <-. split.
  - by destruct (decide _).
  - by destruct (decide _).
  - rewrite payload_of_one, eqb_false, app_nil_r by done. by destruct (decide _).
  - cbn. by destruct (decide _).
  - rewrite n_payload_one, eqb_false, Z.add_0_r by done. by destruct (decide _).
Qed.

Lemma handle_cell fuel p r a :
  cell_ok (negb (IsServer a)) p ->
  exists a', handle fuel (Packet.pktType p) (Packet.data p) r a = (Ok tt, a')
             /\ received [p] a a'.
Proof.
  intros (_ & _ & [Ht|(Hs & _ & [Ht|Ht])]); unfold handle; rewrite Ht; cbn.
  - eexists; (split; [reflexivity|]).
    destruct (0 <? zlen (Packet.data p)) eqn:E; b2p; split; try done;
      rewrite ?n_payload_one, ?payload_of_one, ?Ht; unfold last_signal, signal_of; cbn;
      rewrite ?Ht; try done.
    + rewrite ltb_true by done. unfold u32. by rewrite Zmod_mod.
    + replace (Packet.data p) with (@nil byte) by (symmetry; apply zlen_0; zlia).
      by rewrite app_nil_r.
    + by rewrite ltb_false, Z.add_0_r by lia.
  - destruct (IsServer a); [|done]. eexists; split; [reflexivity|].
    apply received_signal; [by rewrite Ht|]. unfold signal_of. by rewrite Ht.
  - destruct (IsServer a); [|done]. eexists; split; [reflexivity|].
    apply received_signal; [by rewrite Ht|]. unfold signal_of. by rewrite Ht.
Qed.

Lemma received_cons p ps a a1 a2 :
  received [p] a a1 -> received ps a1 a2 -> received (p :: ps) a a2.
Proof.
  intros [R1 R3 R5 R7 R9] [K1 K3 K5 K7 K9]. split; try congruence.
  - rewrite K5, R5, <- app_assoc, <- payload_of_app. done.
  - rewrite K7, R7. done.
  - rewrite K9. unfold u32 in *. rewrite <- Zplus_mod_idemp_l, R9, Zplus_mod_idemp_l.
    f_equal. unfold n_payload. rewrite <- Z.add_assoc, <- zlen_app, <- filter_app. done.
Qed.

Lemma deliver_cells fuel ps : forall a,
  Forall (cell_ok (negb (IsServer a))) ps ->
  exists a', Packet.deliver (handle fuel) ps (Ok tt) a = (Ok tt, a') /\ received ps a a'.
Proof.
  induction ps as [|p ps IH]; intros a Hc; cbn [Packet.deliver].
  { exists a. split; [done|]. split; try done.
    - unfold payload_of. cbn. by rewrite app_nil_r.
    - unfold n_payload. cbn. by rewrite Z.add_0_r. }
  apply Forall_cons in Hc as [Hp Hc].
  destruct (handle_cell fuel p (zrepeat (Packet.padLen p) Byte.x00) a Hp) as (a1 & -> & R1).
  destruct (IH a1) as (a2 & -> & K2); [by rewrite (rcv_role _ _ _ R1)|].
  exists a2. split; [done|]. by eapply received_cons.
Qed.

(** C1: End to end, for every interleaving at the sender and every way the
    network cuts the bytes: the peer of a defended connection appends to its
    stream exactly the payload on the wire, which is a prefix of what the sender
    read from upstream; it ends in the state the last signal asked for (the
    state it had, if none was sent), counts the payload packets, keeps its
    length distribution, and never panics. *)
Theorem peer_receives fuel b x s t e d w e' chunks a :
  rtc step (init b x) s -> IsServer a = negb b ->
  Framing.synced e d ->
  Packet.makePackets MaxPacketPayloadLength (wire s) e = (Ok w, e') -> concat chunks = w ->
  let out := Packet.readAll (handle fuel) chunks (Packet.mkConn (Framing.mkD d [] t) a) in
  received (wire s) a (Packet.app out.2)
  /\ (exists rest, upstream s = payload_of (wire s) ++ rest)
  /\ Forall (fun r => is_panic r = false) out.1.
Proof.
  intros Hr Hb Hs Hm Hc out. pose proof (wire_cells _ _ _ Hr) as Hcells.
  destruct (deliver_cells fuel (wire s) a) as (a' & Hd & Hrec).
  { by rewrite Hb, negb_involutive. }
  destruct (Packet.stream_delivery (handle fuel) _ cell_payload_fits t (wire s) e d a w e' chunks
    Hs (cells_ok _ _ Hcells) Hm Hc) as (Ha & Hp & _); [by rewrite Hd|].
  split_and!; [by unfold out; rewrite Ha, Hd| |done].
  apply reachable_Inv in Hr as [Hst _ _ _ (lost & Hq & _) _].
  rewrite <- Hst, Hq, payload_of_app, <- app_assoc. eauto.
Qed.
End wire.

Section safety.
Context `{SipHashLaws} `{SecretBoxLaws} (fuel : nat).

Definition dist_wf (a : app) : Prop :=
  ProbDist.dist_wf (LenDist a) /\ ProbDist.minValue (LenDist a) < ProbDist.maxValue (LenDist a).

(** The panics of the handler. *)
Definition handler_panics (isServer : bool) (w : String.string) : Prop :=
  w = out_of_fuel
  \/ isServer = false
     /\ (w = "Client receive SignalStart pkt from server?"%string
         \/ w = "Client receive SignalStop pkt from server?"%string).

Lemma handle_seed_total p a :
  dist_wf a ->
  dist_wf (handle_seed fuel p a).2 /\ IsServer (handle_seed fuel p a).2 = IsServer a
  /\ (forall w, (handle_seed fuel p a).1 = Panic w -> w = out_of_fuel).
Proof.
  intros [Hw Hm]. unfold handle_seed. destruct (_ && _) eqn:Ec; [|done]. b2p.
  rewrite Drbg.SeedFromBytes_exact by done.
  destruct (ProbDist.Reset_cases fuel p (LenDist a)) as [[w' E]|E]; [done|done| |]; rewrite E.
  - apply ProbDist.Reset_wf in E as (? & E1 & E2 & _); [|done].
    split_and!; [split; [done|]|done|done]. cbn. by rewrite E1, E2.
  - split_and!; [done|done|]. by intros w [= <-].
Qed.

Lemma defconn_handle_total b ty p r a :
  dist_wf a /\ IsServer a = b ->
  (dist_wf (handle fuel ty p r a).2 /\ IsServer (handle fuel ty p r a).2 = b)
  /\ (forall w, (handle fuel ty p r a).1 = Panic w -> handler_panics b w).
Proof.
  intros [Hd <-]. unfold handle, handler_panics.
  destruct (ty =? _); [by destruct (0 <? _)|].
  destruct (ty =? _).
  { destruct (handle_seed_total p a Hd) as (? & ? & ?). split; [done|]. auto. }
  destruct (ty =? _).
  { destruct (IsServer a) eqn:E; cbn; [by destruct (decide _)|]. split; [done|]. intros w [= <-]. auto. }
  destruct (ty =? _); [|done].
  destruct (IsServer a) eqn:E; cbn; [by destruct (decide _)|]. split; [done|]. intros w [= <-]. auto.
Qed.

(** [ReadPackets] survives anything the network delivers: it returns,
    leaves the decoder and the length distribution well formed, and panics only
    if the entropy source fails, if the reseeding runs out of fuel or, on a
    client only, in the two explicit panics for signals that only a client may
    send. *)
Theorem ReadPackets_safe rd rdErr c :
  Framing.dec_wf (Framing.dec (Packet.rx c)) -> dist_wf (Packet.app c) ->
  let out := ReadPackets fuel rd rdErr c in
  Framing.dec_wf (Framing.dec (Packet.rx out.2)) /\ dist_wf (Packet.app out.2)
  /\ IsServer (Packet.app out.2) = IsServer (Packet.app c)
  /\ forall w, out.1 = Panic w ->
       w = "crypto/rand failed"%string \/ handler_panics (IsServer (Packet.app c)) w.
Proof.
  intros Hd Ha. destruct (Packet.readPackets_total (handle fuel)
    (fun a => dist_wf a /\ IsServer a = IsServer (Packet.app c))
    (handler_panics (IsServer (Packet.app c)))
    (fun t p r a _ Ha => defconn_handle_total _ t p r a Ha) rd rdErr c) as [[? [? ?]] ?]; [by split_and!|by split_and!].
Qed.
End safety.

(** ** Signals and states *)

(** Both goroutines are between their [SetState] and their signal. *)
Definition signal_race (s : st) : Prop := main s = MSendStart /\ ticker s = TSendStop.

Definition is_start (c : cstate) : bool := bool_decide (c = StateStart).
Definition is_stop (c : cstate) : bool := bool_decide (c = StateStop).

(** The state agrees with the last signal [l] queued, except between a
    [SetState] and its signal, and what each goroutine has loaded still holds. *)
Definition agrees (m : main_pc) (t : ticker_pc) (c l : cstate) : bool :=
  match m, t with
  | MSendStart, _ | _, TSendStop => true
  | _, _ => eqb (is_start c) (is_start l)
  end
  && match m with MSendStart => is_start c | MSetReady => is_stop c | _ => true end
  && match t with
     | TSendStop => negb (is_start c)
     | TCount1 | TCount2 | TSetStop => negb (is_stop c)
     | _ => true
     end.

Definition agree (s : st) : bool :=
  agrees (main s) (ticker s) (curState (state s)) (last_signal StateStop (queued s)).

Lemma last_signal_snoc d ps p : last_signal d (ps ++ [p]) = signal_of (last_signal d ps) p.
Proof. apply last_signal_app. Qed.

#[global] Arguments last_signal : simpl never.

(** Once the program points are known, the loads and the last signal are finite. *)
Ltac agree_cases :=
  rewrite ?last_signal_snoc in *; unfold signal_of in *; cbn in *;
  repeat match goal with
         | _ : context [last_signal ?d ?q] |- _ => destruct (last_signal d q) in *
         | |- context [last_signal ?d ?q] => destruct (last_signal d q) in *
         | _ : context [curState ?x] |- _ => destruct (curState x) in *
         | |- context [curState ?x] => destruct (curState x) in *
         end; cbn in *; try done.

Lemma main_step_agree s s' :
  agree s = true -> ~ signal_race s -> ~ signal_race s' -> main_step s = Some s' ->
  agree s' = true.
Proof.
  unfold agree, signal_race, main_step, enqueue. intros Ha Hr Hr'.
  destruct (main s) eqn:Em; repeat (case_match; cbn); intros; simplify_eq; cbn in *;
    destruct (ticker s); try solve [tauto]; agree_cases.
Qed.

Lemma ticker_step_agree s s' :
  agree s = true -> ~ signal_race s -> ~ signal_race s' -> ticker_step s = Some s' ->
  agree s' = true.
Proof.
  unfold agree, signal_race, ticker_step, enqueue. intros Ha Hr Hr'.
  destruct (ticker s) eqn:Et; repeat (case_match; cbn); intros; simplify_eq; cbn in *;
    destruct (main s); try solve [tauto]; agree_cases.
Qed.

Lemma exec_agree ev s s' :
  server s = false -> agree s = true -> ~ signal_race s -> ~ signal_race s' ->
  exec ev s = Some s' -> agree s' = true.
Proof.
  intros Hs Ha Hr Hr'. destruct ev; cbn [exec];
    try solve [by apply main_step_agree | by apply ticker_step_agree];
    unfold agree in *; rewrite ?Hs;
    repeat case_match; intros; simplify_eq; cbn; try done;
    repeat match goal with
           | E : main s = _ |- _ => rewrite E in *; clear E
           | E : ticker s = _ |- _ => rewrite E in *; clear E
           end;
    try (destruct (ticker s)); try (destruct (main s)); agree_cases.
Qed.

Lemma exec_all_rtc evs : forall s s', exec_all evs s = Some s' -> rtc step s s'.
Proof.
  induction evs as [|ev evs IH]; intros s s'; cbn; [by intros [= <-]|].
  destruct (exec ev s) as [s1|] eqn:E; cbn; [|done]. intros. eapply rtc_l; [by exists ev|by apply IH].
Qed.

(** As long as the two goroutines of a client are never between their
    [SetState] and their signal at the same time, the two stay consistent: outside
    those points the client is in [StateStart] exactly when the last signal queued
    for the server is [SignalStart]. *)
Theorem signals_agree x s :
  curState x <> StateStart ->
  rtc (fun s1 s2 => step s1 s2 /\ ~ signal_race s2) (init false x) s ->
  main s <> MSendStart -> ticker s <> TSendStop ->
  (curState (state s) = StateStart <-> last_signal StateStop (queued s) = StateStart).
Proof.
  intros Hx Hr Hm Ht.
  assert (Hi : agree s = true /\ server s = false /\ ~ signal_race s).
  { eapply (rtc_invariant _ (fun s => agree s = true /\ server s = false /\ ~ signal_race s));
      [|exact Hr|].
    - intros s1 s2 [[ev E] Hn] (Ha & Hs & Hn1). split_and!; [|by rewrite (exec_server _ _ _ E)|done].
      by eapply exec_agree.
    - split_and!; [by destruct x as [[] ?]|done|by intros []]. }
  destruct Hi as [Ha _]. unfold agree, agrees, is_start, is_stop in Ha.
  destruct (main s), (ticker s); try done;
    destruct (curState (state s)), (last_signal _ _); cbn in Ha; done.
Qed.

(** Nothing is in flight: both goroutines are idle and the channel is empty. *)
Definition quiet (s : st) : Prop :=
  main s = MRead /\ ticker s = TWait /\ sender s = SWait /\ sendChan s = [] /\ receiveBuf s = [].

(** Two small reads bring a client to [MSetStart] while the ticker, which has
    seen one segment sent, is at [TSetStop]. *)
Definition race_prefix : list event :=
  [EvMain; EvRead [Byte.x61]; EvMain; EvMain; EvMain; EvMain; EvMain; EvMain; EvMain; EvMain;
   EvMain; EvRead [Byte.x62]; EvMain; EvTick; EvTicker; EvTicker; EvMain].
Definition race_suffix : list event :=
  [EvTicker; EvTicker; EvMain; EvMain; EvMain; EvMain; EvMain; EvSend; EvSend; EvSend; EvSend].

(** The main loop and the ticker of [ReadFrom] race: [SetState] and the signal
    that announces it are two steps, so there are runs of a client, with nothing
    failing and ending with everything sent and both goroutines idle, after which
    the client is in [StateStop] while the last signal the server got is
    [SignalStart], and runs after which it is the other way round. *)
Theorem signal_race_desync :
  (exists evs s, exec_all evs (init false NewState) = Some s /\ quiet s
     /\ curState (state s) = StateStop /\ last_signal StateStop (wire s) = StateStart)
  /\ (exists evs s, exec_all evs (init false NewState) = Some s /\ quiet s
     /\ curState (state s) = StateStart /\ last_signal StateStop (wire s) = StateStop).
Proof.
  split.
  - exists (race_prefix ++ [EvMain; EvTicker; EvTicker; EvMain] ++ race_suffix).
    eexists. split; [vm_compute; reflexivity|]. repeat split.
  - exists (race_prefix ++ [EvTicker; EvMain; EvMain; EvTicker] ++ race_suffix).
    eexists. split; [vm_compute; reflexivity|]. repeat split.
Qed.
End DefConn.

(** ** Witnesses *)

Section witnesses.
Import ToySip ToyBox DefConn.

(** A client reads 540 bytes, signals, queues two cells and sends them. *)
Definition w_data : bytes := zrepeat 540 Byte.x61.
Definition w_evs : list event :=
  [EvMain; EvRead w_data; EvMain; EvMain; EvMain; EvMain; EvMain; EvMain; EvMain; EvMain;
   EvMain; EvSend; EvSend; EvMain; EvMain; EvSend].
Definition w_st : st := Eval vm_compute in default (init false NewState) (exec_all w_evs (init false NewState)).
Lemma w_reach : rtc step (init false NewState) w_st.
Proof. apply (exec_all_rtc w_evs). vm_compute. reflexivity. Qed.

Lemma upstream_integrity_witness :
  payload_of (wire w_st) = w_data /\ length (wire w_st) = 3%nat
  /\ written w_st + zlen (receiveBuf w_st) = zlen (upstream w_st).
Proof.
  split; [vm_compute; reflexivity|]. split; [reflexivity|].
  exact (proj2 (proj2 (upstream_integrity false NewState w_st w_reach))).
Defined.

Definition w_out : result Packet.error bytes * Framing.Encoder := Eval vm_compute in
  Packet.makePackets MaxPacketPayloadLength (wire w_st) toy_enc.
Definition w_wire : bytes := match w_out.1 with Ok w => w | _ => [] end.

Lemma constant_cells_witness :
  w_out.1 = Err (Packet.FrameError Framing.ErrNonceCounterWrapped)
  \/ exists w, w_out.1 = Ok w /\ zlen w = 557 * Z.of_nat (length (wire w_st)).
Proof.
  assert (E : Packet.makePackets MaxPacketPayloadLength (wire w_st) toy_enc = (w_out.1, w_out.2))
    by (vm_compute; reflexivity).
  exact (proj1 (constant_cells false NewState w_st toy_enc w_out.1 w_out.2 w_reach E)).
Defined.

Definition w_ld : ProbDist.WeightedDist :=
  ProbDist.mkWDist 0 1448 false [30; 0] [ProbDist.fone; ProbDist.fone] [1; 0]
    [ProbDist.fone; ProbDist.fone].
Definition w_app : app := mkApp true w_ld NewState 0 (str "before ").

Lemma peer_receives_witness :
  let out := Packet.readAll (handle 9) [ztake 700 w_wire; zdrop 700 w_wire]
               (Packet.mkConn (Framing.mkD toy_dec [] []) w_app) in
  ReceiveDecodedBuffer (Packet.app out.2) = str "before " ++ w_data
  /\ curState (ConnState (Packet.app out.2)) = StateStart
  /\ nRealSegRcv (Packet.app out.2) = 2
  /\ received (wire w_st) w_app (Packet.app out.2)
  /\ Forall (fun r => is_panic r = false) out.1.
Proof.
  intros out. split_and!; [vm_compute; reflexivity..| |].
  all: assert (Hs : Framing.synced toy_enc toy_dec) by (split_and!; reflexivity).
  all: assert (E : Packet.makePackets MaxPacketPayloadLength (wire w_st) toy_enc
                   = (Ok w_wire, w_out.2)) by (vm_compute; reflexivity).
  all: assert (Hc : concat [ztake 700 w_wire; zdrop 700 w_wire] = w_wire)
    by (vm_compute; reflexivity).
  all: destruct (peer_receives 9 false NewState w_st [] toy_enc toy_dec w_wire w_out.2
    [ztake 700 w_wire; zdrop 700 w_wire] w_app w_reach eq_refl Hs E Hc) as (R1 & _ & R2).
  - exact R1.
  - exact R2.
Defined.

Lemma ReadPackets_safe_witness :
  let c := Packet.mkConn (Framing.mkD toy_dec [] []) w_app in
  let out := ReadPackets 9 (str "noise from the network") None c in
  Framing.dec_wf (Framing.dec (Packet.rx out.2)) /\ dist_wf (Packet.app out.2)
  /\ IsServer (Packet.app out.2) = true
  /\ forall w, out.1 = Panic w -> w = "crypto/rand failed"%string \/ handler_panics true w.
Proof.
  apply (ReadPackets_safe 9 (str "noise from the network") None
           (Packet.mkConn (Framing.mkD toy_dec [] []) w_app)).
  - split; [split; [reflexivity|vm_compute; split; congruence]|].
    split; [reflexivity|left; reflexivity].
  - split; [|reflexivity]. split; cbn; try done.
    + repeat constructor; lia.
    + repeat constructor; set_solver.
    + repeat constructor; cbn; lia.
Defined.

(** The run to [w_st] has no race. *)
Fixpoint race_free (evs : list event) (s : st) : bool :=
  match evs with
  | [] => true
  | ev :: evs =>
      match exec ev s with
      | Some s' => match main s', ticker s' with
                   | MSendStart, TSendStop => false
                   | _, _ => race_free evs s'
                   end
      | None => false
      end
  end.

Lemma race_free_rtc evs : forall s s',
  exec_all evs s = Some s' -> race_free evs s = true ->
  rtc (fun s1 s2 => step s1 s2 /\ ~ signal_race s2) s s'.
Proof.
  induction evs as [|ev evs IH]; intros s s'; cbn; [by intros [= <-]|].
  destruct (exec ev s) as [s1|] eqn:E; cbn; [|done]. intros Hs Hr. eapply rtc_l.
  - split; [by exists ev|]. intros [Em Et]. by rewrite Em, Et in Hr.
  - apply IH; [done|]. by destruct (main s1), (ticker s1).
Qed.

Lemma signals_agree_witness :
  curState (state w_st) = StateStart
  /\ (curState (state w_st) = StateStart <-> last_signal StateStop (queued w_st) = StateStart).
Proof.
  split; [reflexivity|]. apply (signals_agree NewState); [done| |done|done].
  apply (race_free_rtc w_evs); vm_compute; reflexivity.
Defined.
End witnesses.
