(* ===== verification/Args.v ===== *)
(** * Per-connection arguments: [common/socks5/args.go]

    The parser of the client parameter string, and the grammar it decides. *)
From S2P Require Import Prelude.

(** goptlib's [pt.Args]: a map from keys to lists of values. *)
Class PtArgs := {
  Args : Type;
  make_Args : Args;
  Add : bytes -> bytes -> Args -> Args  (* args.Add(key, value) *)
}.

Module ClientParameters.

Inductive error :=
| UnexpectedEq (idx : Z)        (* unexpected '=' at idx *)
| UnexpectedSemi (idx : Z)      (* unexpected ';' at idx *)
| UnexpectedBackslash (idx : Z)
| UnterminatedEscape
| FinalKeyNoValue.

Definition bslash : byte := Byte.x5c.
Definition eqsign : byte := Byte.x3d.
Definition semi : byte := Byte.x3b.

Section parser.
Context `{PtArgs}.

(** The variables of the loop. *)
Record vars := mkVars { key : bytes; acc : bytes; prevIsEscape : bool; args : Args }.

(** One iteration, [last] when [idx == len(argStr)-1]. *)
Definition loop_body (idx : Z) (last : bool) (ch : byte) (v : vars) : result error vars :=
  let append := Ok (mkVars (key v) (acc v ++ [ch]) false (args v)) in
  if decide (ch = bslash) then
    if negb (prevIsEscape v) then Ok (mkVars (key v) (acc v) true (args v)) else append
  else if decide (ch = eqsign) then
    if negb (prevIsEscape v) then
      if decide (key v <> []) then append
      else if decide (acc v = []) then Err (UnexpectedEq idx)
      else Ok (mkVars (acc v) [] false (args v))
    else append
  else if decide (ch = semi) then
    if negb (prevIsEscape v) then
      if bool_decide (key v = []) || last then Err (UnexpectedSemi idx)
      else Ok (mkVars [] [] false (Add (key v) (acc v) (args v)))
    else append
  else if prevIsEscape v then Err (UnexpectedBackslash (idx - 1))
  else append.

Fixpoint loop (idx : Z) (s : bytes) (v : vars) : result error vars :=
  match s with
  | [] => Ok v
  | ch :: s =>
      v' ← loop_body idx (bool_decide (s = [])) ch v;
      loop (idx + 1) s v'
  end.

Definition parseClientParameters (argStr : bytes) : result error Args :=
  if decide (argStr = []) then Ok make_Args
  else
    v ← loop 0 argStr (mkVars [] [] false make_Args);
    if prevIsEscape v then Err UnterminatedEscape
    else if decide (key v = []) then Err FinalKeyNoValue
    else Ok (Add (key v) (acc v) (args v)).
End parser.

(** ** The grammar of the pluggable transport specification *)

Definition special (c : byte) : bool := bool_decide (c ∈ [bslash; eqsign; semi]).
Definition key_char (c : byte) : bool := negb (special c).
Definition value_char (c : byte) : bool := negb (bool_decide (c ∈ [bslash; semi])).

(** [text raw e d]: [e] encodes [d], escaping special characters with a
    backslash and leaving only the [raw] ones alone. *)
Inductive text (raw : byte -> bool) : bytes -> bytes -> Prop :=
| text_nil : text raw [] []
| text_raw c e d : raw c = true -> text raw e d -> text raw (c :: e) (c :: d)
| text_esc c e d : special c = true -> text raw e d -> text raw (bslash :: c :: e) (c :: d).

Inductive params : bytes -> list (bytes * bytes) -> Prop :=
| params_one ek k ev v :
    text key_char ek k -> k <> [] -> text value_char ev v ->
    params (ek ++ eqsign :: ev) [(k, v)]
| params_cons ek k ev v rest kvs :
    text key_char ek k -> k <> [] -> text value_char ev v -> params rest kvs ->
    params (ek ++ eqsign :: ev ++ semi :: rest) ((k, v) :: kvs).

(** The specification's escaping. *)
Definition escape (s : bytes) : bytes :=
  concat (map (fun c => if special c then [bslash; c] else [c]) s).
Definition encode_kv (kv : bytes * bytes) : bytes := escape kv.1 ++ eqsign :: escape kv.2.
Fixpoint encode (kvs : list (bytes * bytes)) : bytes :=
  match kvs with
  | [] => []
  | [kv] => encode_kv kv
  | kv :: kvs => encode_kv kv ++ semi :: encode kvs
  end.

Section properties.
Context `{PtArgs}.

Definition add_all (kvs : list (bytes * bytes)) (a : Args) : Args :=
  foldl (fun a kv => Add kv.1 kv.2 a) a kvs.

Lemma text_app raw e1 d1 e2 d2 :
  text raw e1 d1 -> text raw e2 d2 -> text raw (e1 ++ e2) (d1 ++ d2).
Proof. induction 1; cbn; [done|constructor; by auto|constructor; by auto]. Qed.

Lemma text_snoc_raw raw e d c : raw c = true -> text raw e d -> text raw (e ++ [c]) (d ++ [c]).
Proof. intros. apply text_app; [done|]. constructor; [done|constructor]. Qed.
Lemma text_snoc_esc raw e d c :
  special c = true -> text raw e d -> text raw (e ++ [bslash; c]) (d ++ [c]).
Proof. intros. apply text_app; [done|]. constructor; [done|constructor]. Qed.

(** *** The loop follows the grammar *)

Lemma key_char_body idx last c v :
  key_char c = true -> prevIsEscape v = false ->
  loop_body idx last c v = Ok (mkVars (key v) (acc v ++ [c]) false (args v)).
Proof.
  unfold key_char, special, loop_body. intros Hc Hp. b2p. rewrite Hp.
  rewrite !decide_False by set_solver. done.
Qed.

Lemma value_char_body idx last c v :
  value_char c = true -> prevIsEscape v = false -> key v <> [] ->
  loop_body idx last c v = Ok (mkVars (key v) (acc v ++ [c]) false (args v)).
Proof.
  unfold value_char, loop_body. intros Hc Hp Hk. b2p. rewrite Hp.
  rewrite (decide_False (P := c = bslash)) by set_solver.
  rewrite (decide_False (P := c = semi)) by set_solver.
  destruct (decide (c = eqsign)); [|done]. cbn. by rewrite decide_True.
Qed.

Lemma esc_body idx last c v :
  special c = true -> prevIsEscape v = true ->
  loop_body idx last c v = Ok (mkVars (key v) (acc v ++ [c]) false (args v)).
Proof.
  unfold special, loop_body. intros Hc ->. b2p. cbn.
  repeat (destruct (decide _); [done|]). set_solver.
Qed.

Lemma loop_cons idx c s v :
  loop idx (c :: s) v = (v' ← loop_body idx (bool_decide (s = [])) c v; loop (idx + 1) s v').
Proof. done. Qed.

Lemma bslash_body idx last v :
  prevIsEscape v = false ->
  loop_body idx last bslash v = Ok (mkVars (key v) (acc v) true (args v)).
Proof. unfold loop_body. intros ->. by rewrite decide_True. Qed.

(** Reading a text whose raw characters are plainly appended. *)
Lemma loop_text raw e d : text raw e d -> forall idx s v,
  prevIsEscape v = false ->
  (forall c idx last acc, raw c = true ->
    loop_body idx last c (mkVars (key v) acc false (args v))
    = Ok (mkVars (key v) (acc ++ [c]) false (args v))) ->
  loop idx (e ++ s) v = loop (idx + zlen e) s (mkVars (key v) (acc v ++ d) false (args v)).
Proof.
  induction 1 as [|c e d Hc Ht IH|c e d Hc Ht IH]; intros idx s [k a pe x] Hp Hraw; cbn in Hp, Hraw; subst pe.
  - by rewrite (zlen_nil (A := byte)), Z.add_0_r, app_nil_r.
  - cbn [app]. rewrite loop_cons, Hraw by done. cbn [mbind result_bind].
    rewrite IH; [|done|exact Hraw]. cbn. rewrite zlen_cons, <- app_assoc. f_equal. lia.
  - cbn [app]. rewrite loop_cons, bslash_body by done. cbn [mbind result_bind].
    rewrite loop_cons, esc_body by done. cbn [mbind result_bind].
    rewrite IH; [|done|exact Hraw]. cbn. rewrite !zlen_cons, <- app_assoc. f_equal. lia.
Qed.

Lemma loop_key ek k idx s a :
  text key_char ek k -> k <> [] -> forall v,
  v = mkVars [] [] false a ->
  loop idx (ek ++ eqsign :: s) v = loop (idx + zlen ek + 1) s (mkVars k [] false a).
Proof.
  intros Ht Hk v ->. rewrite (loop_text _ _ _ Ht), loop_cons; [|done|].
  - unfold loop_body. cbn. by destruct (decide (k = [])).
  - intros. by rewrite key_char_body.
Qed.

Lemma loop_value ev d idx s k a :
  text value_char ev d -> k <> [] ->
  loop idx (ev ++ s) (mkVars k [] false a) = loop (idx + zlen ev) s (mkVars k d false a).
Proof. intros Ht Hk. rewrite (loop_text _ _ _ Ht); [done..|]. intros. by rewrite value_char_body. Qed.

Lemma params_ne s kvs : params s kvs -> s <> [].
Proof. intros []; apply not_eq_sym; destruct ek; done. Qed.

Lemma loop_params s kvs : params s kvs -> forall idx a, exists v,
  loop idx s (mkVars [] [] false a) = Ok v /\ prevIsEscape v = false /\ key v <> []
  /\ Add (key v) (acc v) (args v) = add_all kvs a.
Proof.
  induction 1 as [ek k ev v Hk Hne Hv|ek k ev v rest kvs Hk Hne Hv Hr IH]; intros idx a.
  - erewrite loop_key by done. rewrite <- (app_nil_r ev), (loop_value _ _ _ _ _ _ Hv Hne). by eexists.
  - erewrite loop_key by done. rewrite (loop_value _ _ _ _ _ _ Hv Hne), loop_cons.
    unfold loop_body. cbn. rewrite !bool_decide_eq_false_2 by (done || by eapply params_ne).
    cbn. apply IH.
Qed.

(** *** Whatever the loop accepts is in the grammar *)

Definition open_kv (tail k a : bytes) : Prop :=
  if decide (k = []) then text key_char tail a
  else exists ek ev, tail = ek ++ eqsign :: ev /\ text key_char ek k /\ text value_char ev a.

(** What has been consumed when the variables are [v]. *)
Definition consumed (a0 : Args) (pre : bytes) (v : vars) : Prop :=
  exists kvs closed tail,
    pre = closed ++ tail ++ (if prevIsEscape v then [bslash] else [])
    /\ (forall rest kvs', params rest kvs' -> params (closed ++ rest) (kvs ++ kvs'))
    /\ args v = add_all kvs a0 /\ open_kv tail (key v) (acc v).

Lemma open_raw tail k a c :
  key_char c = true \/ k <> [] /\ value_char c = true ->
  open_kv tail k a -> open_kv (tail ++ [c]) k (a ++ [c]).
Proof.
  unfold open_kv. intros Hc. destruct (decide (k = [])).
  - apply text_snoc_raw. naive_solver.
  - intros (ek & ev & -> & Hk & Hv). exists ek, (ev ++ [c]). split_and!; [|done|].
    + by rewrite <- app_assoc.
    + apply text_snoc_raw; [|done]. destruct Hc as [Hc|[_ Hc]]; [|done].
      unfold key_char, special, value_char in *. b2p. rewrite negb_true_iff.
      apply bool_decide_eq_false. set_solver.
Qed.

Lemma open_esc tail k a c :
  special c = true -> open_kv tail k a -> open_kv (tail ++ [bslash; c]) k (a ++ [c]).
Proof.
  unfold open_kv. intros Hc. destruct (decide (k = [])); [by apply text_snoc_esc|].
  intros (ek & ev & -> & Hk & Hv). exists ek, (ev ++ [bslash; c]).
  split_and!; [by rewrite <- app_assoc|done|by apply text_snoc_esc].
Qed.

Lemma append_consumed a0 pre c v :
  consumed a0 pre v ->
  (if prevIsEscape v then special c = true
   else key_char c = true \/ key v <> [] /\ value_char c = true) ->
  consumed a0 (pre ++ [c]) (mkVars (key v) (acc v ++ [c]) false (args v)).
Proof.
  intros (kvs & closed & tail & -> & Hcl & Ha & Ho) Hc. destruct (prevIsEscape v); cbn.
  - exists kvs, closed, (tail ++ [bslash; c]). cbn. rewrite app_nil_r, <- !app_assoc.
    split_and!; [done..|]. by apply open_esc.
  - exists kvs, closed, (tail ++ [c]). cbn. rewrite !app_nil_r, <- !app_assoc.
    split_and!; [done..|]. by apply open_raw.
Qed.

Lemma loop_body_consumed a0 pre idx last c v v' :
  consumed a0 pre v -> loop_body idx last c v = Ok v' -> consumed a0 (pre ++ [c]) v'.
Proof.
  intros Hc. pose proof (append_consumed a0 pre c v Hc) as Happ. revert Hc Happ.
  unfold loop_body, special, key_char, value_char, special.
  destruct v as [k a pe x]; cbn. intros (kvs & closed & tail & -> & Hcl & Ha & Ho) Happ.
  cbn in Ha, Ho. subst x.
  destruct (decide (c = bslash)) as [->|Nb].
  { destruct pe; cbn; intros [= <-]; [by apply Happ|].
    exists kvs, closed, tail. cbn. by rewrite app_nil_r, <- !app_assoc. }
  destruct (decide (c = eqsign)) as [->|Ne].
  { destruct pe; cbn; [intros [= <-]; by apply Happ|].
    destruct (decide (k <> [])) as [Hk|Hk].
    - intros [= <-]. apply Happ. by right.
    - destruct (decide (a = [])) as [|Hane]; [done|]. intros [= <-].
      assert (k = []) as -> by (destruct k; [done|by destruct Hk]).
      exists kvs, closed, (tail ++ [eqsign]). cbn. rewrite !app_nil_r, <- !app_assoc.
      split_and!; [done..|]. unfold open_kv in *. rewrite decide_True in Ho by done.
      rewrite decide_False by done. exists tail, []. split_and!; [done..|constructor]. }
  destruct (decide (c = semi)) as [->|Ns].
  { destruct pe; cbn; [intros [= <-]; by apply Happ|].
    destruct (decide (k = [])) as [|Hk]; [by rewrite bool_decide_eq_true_2|].
    rewrite bool_decide_eq_false_2 by done. destruct last; [done|]. intros [= <-].
    unfold open_kv in Ho. rewrite decide_False in Ho by done.
    destruct Ho as (ek & ev & -> & Hek & Hev).
    exists (kvs ++ [(k, a)]), (closed ++ ek ++ eqsign :: ev ++ [semi]), []. cbn.
    rewrite !app_nil_r, <- !app_assoc. cbn. rewrite <- ?app_assoc.
    split_and!; [done| |unfold add_all; by rewrite foldl_app|constructor].
    intros rest kvs' Hr. rewrite <- ?app_assoc. cbn. rewrite <- ?app_assoc.
    apply Hcl. by constructor. }
  destruct pe; [done|]. intros [= <-]. apply Happ. left. rewrite negb_true_iff.
  apply bool_decide_eq_false. set_solver.
Qed.

Lemma loop_consumed a0 s : forall pre idx v v',
  consumed a0 pre v -> loop idx s v = Ok v' -> consumed a0 (pre ++ s) v'.
Proof.
  induction s as [|c s IH]; intros pre idx v v' Hc; [intros [= <-]; by rewrite app_nil_r|].
  rewrite loop_cons. destruct (loop_body _ _ c v) as [v1| |] eqn:E; try done. cbn [mbind result_bind].
  rewrite cons_middle, app_assoc. eapply IH, loop_body_consumed; done.
Qed.

Lemma loop_no_panic s : forall idx v, is_panic (loop idx s v) = false.
Proof.
  induction s as [|c s IH]; intros idx v; [done|]. rewrite loop_cons.
  assert (Hb : is_panic (loop_body idx (bool_decide (s = [])) c v) = false)
    by (unfold loop_body; repeat case_match; done).
  destruct (loop_body _ _ c v); [apply IH|done|done].
Qed.

Lemma parse_complete s kvs :
  params s kvs -> parseClientParameters s = Ok (add_all kvs make_Args).
Proof.
  intros Hp. unfold parseClientParameters. rewrite decide_False by (by eapply params_ne).
  destruct (loop_params s kvs Hp 0 make_Args) as (v & -> & Hpe & Hk & Ha).
  cbn. rewrite Hpe, decide_False by done. by rewrite Ha.
Qed.

(** C38: [parseClientParameters] decides the grammar of the pluggable transport
    specification: it accepts exactly the empty string and the strings of the
    grammar, returns the arguments obtained by adding the decoded pairs in
    order, rejects everything else with an error, and never panics. *)
Theorem parse_grammar s :
  (forall a, parseClientParameters s = Ok a <->
     s = [] /\ a = make_Args \/ exists kvs, params s kvs /\ a = add_all kvs make_Args)
  /\ is_panic (parseClientParameters s) = false.
Proof.
  split; [|unfold parseClientParameters]; [intros a; split;
    [unfold parseClientParameters|intros [[-> ->]|(kvs & Hk & ->)]; [done|by apply parse_complete]]|].
  - destruct (decide (s = [])); [intros [= <-]; by left|].
    destruct (loop _ s _) as [v| |] eqn:E; try done. cbn.
    apply (loop_consumed make_Args s []) in E.
    + destruct E as (kvs & closed & tail & Hs & Hcl & Ha & Ho). cbn in Hs. subst s.
      destruct (prevIsEscape v); [done|].
      unfold open_kv in Ho. destruct (decide (key v = [])) as [|Hk]; [done|]. intros [= <-]. right.
      destruct Ho as (ek & ev & -> & Hek & Hev). exists (kvs ++ [(key v, acc v)]). split.
      * rewrite app_nil_r. apply Hcl. by constructor.
      * unfold add_all in *. by rewrite foldl_app, <- Ha.
    + exists [], [], []. cbn. split_and!; [done|done|done|constructor].
  - destruct (decide (s = [])); [done|].
    pose proof (loop_no_panic s 0 (mkVars [] [] false make_Args)) as Hn.
    destruct (loop _ s _); cbn; [|done|done]. by repeat case_match.
Qed.

Lemma text_escape raw s :
  (forall c, special c = false -> raw c = true) -> text raw (escape s) s.
Proof.
  intros Hraw. induction s as [|c s IH]; [constructor|]. unfold escape in *. cbn.
  destruct (special c) eqn:E; cbn; constructor; auto.
Qed.

Lemma encode_params kvs :
  kvs <> [] -> Forall (fun kv => kv.1 <> []) kvs -> params (encode kvs) kvs.
Proof.
  intros Hne Hk. induction Hk as [|[k v] kvs Hk _ IH]; [done|]. cbn in Hk.
  assert (Hek : text key_char (escape k) k).
  { apply text_escape. unfold key_char. intros c ->. done. }
  assert (Hev : text value_char (escape v) v).
  { apply text_escape. unfold value_char, special. intros c Hc. b2p.
    rewrite negb_true_iff. apply bool_decide_eq_false. set_solver. }
  destruct kvs as [|kv kvs]; cbn [encode]; unfold encode_kv; cbn [fst snd].
  - by constructor.
  - rewrite <- app_assoc. cbn. constructor; [done..|]. by apply IH.
Qed.

(** Round trip: what a client encodes with the specification's escaping,
    any bytes in the values, any bytes in the (non-empty) keys, the parser
    gives back, in order and with duplicates. *)
Theorem parse_encode kvs :
  Forall (fun kv => kv.1 <> []) kvs ->
  parseClientParameters (encode kvs) = Ok (add_all kvs make_Args).
Proof.
  intros Hk. destruct (decide (kvs = [])) as [->|Hne]; [done|].
  by apply parse_complete, encode_params.
Qed.
End properties.
End ClientParameters.

(** An instance that keeps the pairs in order. *)
Module ToyArgs.
#[export] Instance toy_args : PtArgs :=
  {| Args := list (bytes * bytes); make_Args := []; Add := fun k v a => a ++ [(k, v)] |}.
End ToyArgs.

Section witnesses.
Import ToyArgs ClientParameters.

Lemma parse_encode_witness :
  let kvs := [(str "cert", str "a=b;c\"); (str "iat-mode", str "0"); (str "iat-mode", [])] in
  encode kvs = str "cert=a\=b\;c\\;iat-mode=0;iat-mode="
  /\ parseClientParameters (encode kvs) = Ok (add_all kvs make_Args).
Proof.
  intros kvs. split; [vm_compute; reflexivity|]. apply (parse_encode kvs).
  repeat constructor; discriminate.
Defined.
End witnesses.
