(* ===== verification/Socks5.v ===== *)
(** * The SOCKS 5 server: [common/socks5]

    [socks5.go] and [rfc1929.go] over a buffered connection: what every [Read] of
    the network returns and whether a [Write] fails are the environment's. *)
From Stdlib Require Zbitwise.
From S2P Require Import Prelude GoStd Packet Args.

Module Socks5.

Definition version : byte := Byte.x05.
Definition rsv : byte := Byte.x00.
Definition cmdConnect : byte := Byte.x01.
Definition atypIPv4 : byte := Byte.x01.
Definition atypDomainName : byte := Byte.x03.
Definition atypIPv6 : byte := Byte.x04.
Definition authNoneRequired : byte := Byte.x00.
Definition authUsernamePassword : byte := Byte.x02.
Definition authNoAcceptableMethods : byte := Byte.xff.
Definition authRFC1929Ver : byte := Byte.x01.
Definition authRFC1929Success : byte := Byte.x00.
Definition authRFC1929Fail : byte := Byte.x01.

Inductive ReplyCode :=
| ReplySucceeded | ReplyGeneralFailure | ReplyConnectionNotAllowed | ReplyNetworkUnreachable
| ReplyHostUnreachable | ReplyConnectionRefused | ReplyTTLExpired | ReplyCommandNotSupported
| ReplyAddressNotSupported.
Definition reply_byte (c : ReplyCode) : byte :=
  match c with
  | ReplySucceeded => Byte.x00 | ReplyGeneralFailure => Byte.x01
  | ReplyConnectionNotAllowed => Byte.x02 | ReplyNetworkUnreachable => Byte.x03
  | ReplyHostUnreachable => Byte.x04 | ReplyConnectionRefused => Byte.x05
  | ReplyTTLExpired => Byte.x06 | ReplyCommandNotSupported => Byte.x07
  | ReplyAddressNotSupported => Byte.x08
  end.

(** The error values [ErrorToReplyCode] tells apart. *)
Inductive errno := EADDRNOTAVAIL | ETIMEDOUT | ENETUNREACH | EHOSTUNREACH | ECONNREFUSED
  | ECONNRESET | OtherErrno (n : Z).
Inductive go_error := OpError (inner : option errno) | OtherError.
Definition ErrorToReplyCode (err : go_error) : ReplyCode :=
  match err with
  | OpError (Some EADDRNOTAVAIL) => ReplyAddressNotSupported
  | OpError (Some ETIMEDOUT) => ReplyTTLExpired
  | OpError (Some ENETUNREACH) => ReplyNetworkUnreachable
  | OpError (Some EHOSTUNREACH) => ReplyHostUnreachable
  | OpError (Some (ECONNREFUSED | ECONNRESET)) => ReplyConnectionRefused
  | _ => ReplyGeneralFailure
  end.

Inductive error :=
| NetError (e : Packet.net_error)
| UnexpectedEOF
| FieldMismatch (descr : String.string) (val expected : byte)
| NoAcceptableMethods
| UnsupportedMethod (m : byte)
| UnsupportedAddressType (atyp : byte)
| ZeroLengthDomain | ZeroLengthUsername | ZeroLengthPassword
| TrailingData (n : Z)
| ArgsError (e : ClientParameters.error).

(** The request and its buffered connection: [rbuf] is what the reader holds,
    [reads] what the next [Read]s of the network return (none of them empty) and
    [rerr] what they fail with afterwards; [wbuf] and [werr] are the writer's buffer
    and its sticky error, [sent] what was written to the network.  The writer's
    4096 bytes are never filled: at most twelve are pending. *)
Record Request `{PtArgs} := mkReq {
  Target : bytes;
  RArgs : option Args;                  (* nil until the parameters are parsed *)
  rbuf : bytes; reads : list bytes; rerr : Packet.net_error;
  wbuf : bytes; werr : option Packet.net_error; sent : list bytes
}.

Section socks5.
Context `{PtArgs}.
(** The outcome of the next [Write] on the network. *)
Context (netWrite : list bytes -> bytes -> option Packet.net_error).

Definition set_reader (b : bytes) (rs : list bytes) (r : Request) : Request :=
  mkReq _ (Target r) (RArgs r) b rs (rerr r) (wbuf r) (werr r) (sent r).
Definition set_writer (b : bytes) (e : option Packet.net_error) (s : list bytes) (r : Request) :=
  mkReq _ (Target r) (RArgs r) (rbuf r) (reads r) (rerr r) b e s.
Definition set_Args (a : option Args) (r : Request) : Request :=
  mkReq _ (Target r) a (rbuf r) (reads r) (rerr r) (wbuf r) (werr r) (sent r).
Definition set_Target (t : bytes) (r : Request) : Request :=
  mkReq _ t (RArgs r) (rbuf r) (reads r) (rerr r) (wbuf r) (werr r) (sent r).

(** [io.ReadFull] on the buffered reader, [got] being what it has read. *)
Fixpoint read_full (n : Z) (got : bytes) (rs : list bytes) (e : Packet.net_error)
  : result error bytes * bytes * list bytes :=
  if n <=? zlen got then (Ok (ztake n got), zdrop n got, rs)
  else
    match rs with
    | [] => (Err match got, e with _ :: _, Packet.EOF => UnexpectedEOF | _, _ => NetError e end, [], [])
    | x :: rs => read_full n (got ++ x) rs e
    end.

Definition readBytes (n : Z) : M Request error bytes := fun r =>
  let '(res, b, rs) := read_full n (rbuf r) (reads r) (rerr r) in (res, set_reader b rs r).

(** [bufio.Reader.ReadByte]. *)
Definition readByte : M Request error byte := fun r =>
  match rbuf r, reads r with
  | x :: b, rs => (Ok x, set_reader b rs r)
  | [], (x :: b) :: rs => (Ok x, set_reader b rs r)
  | [], _ => (Err (NetError (rerr r)), r)
  end.

Definition readByteVerify (descr : String.string) (expected : byte) : M Request error unit :=
  val ← readByte;
  if decide (val = expected) then mret tt else fail (FieldMismatch descr val expected).

(** [bufio.Writer.Write] and [Flush]. *)
Definition write (p : bytes) : M Request error unit := fun r =>
  match werr r with
  | Some e => (Err (NetError e), r)
  | None => (Ok tt, set_writer (wbuf r ++ p) None (sent r) r)
  end.
Definition flush : M Request error unit := fun r =>
  match werr r with
  | Some e => (Err (NetError e), r)
  | None =>
      if decide (wbuf r = []) then (Ok tt, r)
      else match netWrite (sent r) (wbuf r) with
           | None => (Ok tt, set_writer [] None (sent r ++ [wbuf r]) r)
           | Some e => (Err (NetError e), set_writer (wbuf r) (Some e) (sent r) r)
           end
  end.

Definition flushBuffers : M Request error unit :=
  _ ← flush;
  b ← gets rbuf;
  if 0 <? zlen b then fail (TrailingData (zlen b)) else mret tt.

(** Run a call whose error is discarded. *)
Definition swallow (m : M Request error unit) : M Request error unit := fun r =>
  match m r with (Panic w, r) => (Panic w, r) | (_, r) => (Ok tt, r) end.
(** [if err != nil { h(); return err }] *)
Definition on_error {A} (m : M Request error A) (h : M Request error unit) : M Request error A := fun r =>
  match m r with
  | (Err e, r) => match h r with (Panic w, r) => (Panic w, r) | (_, r) => (Err e, r) end
  | res => res
  end.

Definition reply_bytes (code : ReplyCode) : bytes :=
  [version; reply_byte code; rsv; atypIPv4] ++ zrepeat 6 Byte.x00.

Definition Reply (code : ReplyCode) : M Request error unit := _ ← write (reply_bytes code); flushBuffers.

Definition negotiateAuth : M Request error byte :=
  _ ← readByteVerify "version" version;
  nmethods ← readByte;
  methods ← readBytes (b2z nmethods);
  let method :=
    if decide (authUsernamePassword ∈ methods) then authUsernamePassword
    else if decide (authNoneRequired ∈ methods) then authNoneRequired
    else authNoAcceptableMethods in
  _ ← write [version; method];
  _ ← flushBuffers;
  mret method.

(** *** [rfc1929.go] *)

Definition sendErrResp : M Request error unit :=
  _ ← swallow (write [authRFC1929Ver; authRFC1929Fail]); swallow flushBuffers.

(** The combined argument string: tor sets the password to NUL if it is unused. *)
Definition arg_string (uname passwd : bytes) : bytes :=
  uname ++ (if decide (passwd = [Byte.x00]) then [] else passwd).

Definition authRFC1929 : M Request error unit :=
  _ ← on_error (readByteVerify "auth version" authRFC1929Ver) sendErrResp;
  ulen ← on_error readByte sendErrResp;
  _ ← on_error (if b2z ulen <? 1 then fail ZeroLengthUsername else mret tt) sendErrResp;
  uname ← on_error (readBytes (b2z ulen)) sendErrResp;
  plen ← on_error readByte sendErrResp;
  _ ← on_error (if b2z plen <? 1 then fail ZeroLengthPassword else mret tt) sendErrResp;
  passwd ← on_error (readBytes (b2z plen)) sendErrResp;
  args ← on_error (
    match ClientParameters.parseClientParameters (arg_string uname passwd) with
    | Ok a => mret a
    | Err e => _ ← modify (set_Args None); fail (ArgsError e)
    | Panic w => panic w
    end) sendErrResp;
  _ ← modify (set_Args (Some args));
  write [authRFC1929Ver; authRFC1929Success].

Definition authenticate (method : byte) : M Request error unit :=
  _ ← (if decide (method = authNoneRequired) then mret tt
       else if decide (method = authUsernamePassword) then authRFC1929
       else if decide (method = authNoAcceptableMethods) then fail NoAcceptableMethods
       else fail (UnsupportedMethod method));
  flushBuffers.

(** *** [readCommand] *)

Definition readHost (atyp : byte) : M Request error bytes :=
  let general := Reply ReplyGeneralFailure in
  if decide (atyp = atypIPv4) then
    addr ← on_error (readBytes 4) general; mret (NetIP.dotted addr)
  else if decide (atyp = atypDomainName) then
    alen ← on_error readByte general;
    _ ← on_error (if b2z alen =? 0 then fail ZeroLengthDomain else mret tt) general;
    on_error (readBytes (b2z alen)) general
  else if decide (atyp = atypIPv6) then
    rawAddr ← on_error (readBytes 16) general;
    mret (str "[" ++ NetIP.String rawAddr ++ str "]")
  else on_error (fail (UnsupportedAddressType atyp)) (Reply ReplyAddressNotSupported).

(** [readCommand] up to the final flush. *)
Definition readTarget : M Request error unit :=
  let general := Reply ReplyGeneralFailure in
  _ ← on_error (readByteVerify "version" version) general;
  _ ← on_error (readByteVerify "command" cmdConnect) (Reply ReplyCommandNotSupported);
  _ ← on_error (readByteVerify "reserved" rsv) general;
  atyp ← on_error readByte general;
  host ← readHost atyp;
  rawPort ← on_error (readBytes 2) general;
  match rawPort with
  | [p0; p1] =>
      let port := Z.lor (Z.shiftl (b2z p0) 8) (b2z p1) in
      modify (set_Target (host ++ str ":" ++ Strconv.FormatInt port))
  | _ => panic "index out of range"
  end.

Definition readCommand : M Request error unit := _ ← readTarget; flushBuffers.

(** [Handshake]; [deadline] is the result of the first [SetDeadline].  The
    deferred one assigns a local variable that has been returned already. *)
Definition Handshake (deadline : option Packet.net_error) : M Request error unit :=
  _ ← match deadline with Some e => fail (NetError e) | None => mret tt end;
  method ← negotiateAuth;
  _ ← authenticate method;
  readCommand.

Definition newRequest (rs : list bytes) (e : Packet.net_error) : Request :=
  mkReq _ [] None [] rs e [] None [].
End socks5.

(** ** Lemmas *)

Lemma bind_ok {S E A B} (m : M S E A) (k : A -> M S E B) s a s' :
  m s = (Ok a, s') -> (m ≫= k) s = k a s'.
Proof. unfold mbind, M_bind. by intros ->. Qed.
Lemma bind_err {S E A B} (m : M S E A) (k : A -> M S E B) s e s' :
  m s = (Err e, s') -> (m ≫= k) s = (Err e, s').
Proof. unfold mbind, M_bind. by intros ->. Qed.

Lemma bind_assoc {S E A B C} (m : M S E A) (k : A -> M S E B) (k' : B -> M S E C) s b s' :
  (m ≫= k) s = (Ok b, s') -> (a ← m; k a ≫= k') s = k' b s'.
Proof. unfold mbind, M_bind. destruct (m s) as [[] ?]; [by intros ->|done..]. Qed.

(** A client's turn: [q] is still to be read of it, [b] of which is buffered; the
    network delivers the rest before anything of the next turns. *)
Definition turn (q : bytes) (later : list bytes) (b : bytes) (rs : list bytes) : Prop :=
  exists cs, rs = cs ++ later /\ Forall (fun c => c <> []) cs /\ b ++ concat cs = q.

Section reads.
Context `{PtArgs}.

Lemma turn_done later b rs : turn [] later b rs -> b = [] /\ rs = later.
Proof.
  intros (cs & -> & Hne & [-> Hc]%app_nil). split; [done|].
  destruct Hne as [|c cs Hc' Hne]; [done|]. cbn in Hc. by apply app_nil in Hc as [-> _].
Qed.

Lemma turn_start cs later : Forall (fun c => c <> []) cs -> turn (concat cs) later [] (cs ++ later).
Proof. intros. by exists cs. Qed.

Lemma read_full_turn p q later e rs : forall got,
  turn (p ++ q) later got rs -> exists b' rs',
    read_full (zlen p) got rs e = (Ok p, b', rs') /\ turn q later b' rs'.
Proof.
  intros got (cs & -> & Hne & Hc). revert got Hc.
  induction Hne as [|x cs Hx Hne IH]; intros got Hc; cbn [app].
  - cbn in Hc. rewrite app_nil_r in Hc. subst got.
    exists q, later. split.
    + destruct later; cbn [read_full]; rewrite leb_true by (rewrite zlen_app; zlia);
        by rewrite ztake_app, zdrop_app by done.
    + exists []. by rewrite app_nil_r.
  - cbn [read_full]. destruct (zlen p <=? zlen got) eqn:E; b2p.
    + assert (Hgot : ztake (zlen p) got = p).
      { apply (f_equal (ztake (zlen p))) in Hc.
        by rewrite (ztake_app _ p), ztake_app_le in Hc by done. }
      rewrite Hgot. eexists _, _. split; [reflexivity|].
      exists (x :: cs). split_and!; [done|by constructor|].
      apply (app_inv_head p). rewrite <- Hc, <- Hgot at 1. by rewrite app_assoc, ztake_zdrop.
    + apply IH. rewrite <- Hc. cbn. by rewrite app_assoc.
Qed.

Lemma readBytes_turn p q later n t a b rs e w we sn :
  turn (p ++ q) later b rs -> n = zlen p -> exists b' rs',
    readBytes n (mkReq _ t a b rs e w we sn) = (Ok p, mkReq _ t a b' rs' e w we sn)
    /\ turn q later b' rs'.
Proof.
  intros Ht ->. destruct (read_full_turn p q later e rs b Ht) as (b' & rs' & E & Ht').
  exists b', rs'. split; [|done]. unfold readBytes. cbn. by rewrite E.
Qed.

Lemma readByte_turn x q later t a b rs e w we sn :
  turn (x :: q) later b rs -> exists b' rs',
    readByte (mkReq _ t a b rs e w we sn) = (Ok x, mkReq _ t a b' rs' e w we sn)
    /\ turn q later b' rs'.
Proof.
  intros (cs & -> & Hne & Hc). unfold readByte. cbn. destruct b as [|y b].
  - destruct Hne as [|c cs Hx Hne]; [done|]. destruct c as [|y c]; [done|].
    cbn in Hc. injection Hc as -> Hc. cbn. eexists _, _. split; [reflexivity|]. by exists cs.
  - cbn in Hc. injection Hc as -> Hc. eexists _, _. split; [reflexivity|]. by exists cs.
Qed.

Lemma readByteVerify_turn descr x q later t a b rs e w we sn :
  turn (x :: q) later b rs -> exists b' rs',
    readByteVerify descr x (mkReq _ t a b rs e w we sn) = (Ok tt, mkReq _ t a b' rs' e w we sn)
    /\ turn q later b' rs'.
Proof.
  intros Ht. destruct (readByte_turn x q later t a b rs e w we sn Ht) as (b' & rs' & E & Ht').
  exists b', rs'. split; [|done]. unfold readByteVerify. rewrite (bind_ok _ _ _ _ _ E).
  by rewrite decide_True.
Qed.

Lemma on_error_ok {A} (m : M Request error A) h r x r' :
  m r = (Ok x, r') -> on_error m h r = (Ok x, r').
Proof. unfold on_error. by intros ->. Qed.
Lemma on_error_if {A} (c : bool) (x y : M Request error A) h r :
  c = false -> on_error (if c then x else y) h r = on_error y h r.
Proof. by intros ->. Qed.
End reads.

(** Flushing when the client's turn is over. *)
Section conversation.
Context `{PtArgs} (netWrite : list bytes -> bytes -> option Packet.net_error).
Hypothesis net_ok : forall s b, netWrite s b = None.

Lemma flushBuffers_turn t a later b rs e w sn :
  turn [] later b rs ->
  flushBuffers netWrite (mkReq _ t a b rs e w None sn)
  = (Ok tt, mkReq _ t a [] later e [] None (if decide (w = []) then sn else sn ++ [w])).
Proof.
  intros [-> ->]%turn_done. unfold flushBuffers, flush. cbn. mrun. cbn.
  destruct (decide (w = [])) as [->|]; [done|]. by rewrite net_ok.
Qed.

Lemma write_ok p t a b rs e w sn :
  write p (mkReq _ t a b rs e w None sn) = (Ok tt, mkReq _ t a b rs e (w ++ p) None sn).
Proof. done. Qed.

Definition greeting (methods : bytes) : bytes :=
  version :: z2b (zlen methods) :: methods.

(** The method the server prefers. *)
Definition choice (methods : bytes) : byte :=
  if decide (authUsernamePassword ∈ methods) then authUsernamePassword
  else if decide (authNoneRequired ∈ methods) then authNoneRequired
  else authNoAcceptableMethods.

Lemma negotiateAuth_ok methods later b rs e :
  zlen methods <= 255 -> turn (greeting methods) later b rs ->
  negotiateAuth netWrite (mkReq _ [] None b rs e [] None [])
  = (Ok (choice methods), mkReq _ [] None [] later e [] None [[version; choice methods]]).
Proof.
  intros Hm Ht. unfold negotiateAuth.
  destruct (readByteVerify_turn "version" _ _ _ [] None _ _ e [] None [] Ht) as (b1 & r1 & E1 & T1).
  rewrite (bind_ok _ _ _ _ _ E1).
  destruct (readByte_turn _ _ _ [] None _ _ e [] None [] T1) as (b2 & r2 & E2 & T2).
  rewrite (bind_ok _ _ _ _ _ E2). rewrite <- (app_nil_r methods) in T2.
  destruct (readBytes_turn methods [] later (b2z (z2b (zlen methods))) [] None b2 r2 e [] None [] T2)
    as (b3 & r3 & E3 & T3).
  { rewrite b2z_z2b. rewrite Z.mod_small; zlia. }
  rewrite (bind_ok _ _ _ _ _ E3). fold (choice methods).
  rewrite (bind_ok _ _ _ _ _ (write_ok _ _ _ _ _ _ _ _)).
  by rewrite (bind_ok _ _ _ _ _ (flushBuffers_turn _ _ _ _ _ _ _ _ T3)).
Qed.

Definition auth_message (uname passwd : bytes) : bytes :=
  authRFC1929Ver :: z2b (zlen uname) :: uname ++ z2b (zlen passwd) :: passwd.

Lemma len_byte (l : bytes) : zlen l <= 255 -> b2z (z2b (zlen l)) = zlen l.
Proof. intros. rewrite b2z_z2b, Z.mod_small; zlia. Qed.

Lemma authenticate_ok uname passwd args later b rs e sn :
  1 <= zlen uname <= 255 -> 1 <= zlen passwd <= 255 ->
  ClientParameters.parseClientParameters (arg_string uname passwd) = Ok args ->
  turn (auth_message uname passwd) later b rs ->
  authenticate netWrite authUsernamePassword (mkReq _ [] None b rs e [] None sn)
  = (Ok tt, mkReq _ [] (Some args) [] later e [] None
              (sn ++ [[authRFC1929Ver; authRFC1929Success]])).
Proof.
  intros Hu Hp Ha T. unfold authenticate. cbn [decide]. 
  rewrite decide_False, decide_True by done.
  destruct (readByteVerify_turn "auth version" _ _ _ [] None _ _ e [] None sn T) as (b1 & r1 & E1 & T1).
  destruct (readByte_turn _ _ _ [] None _ _ e [] None sn T1) as (b2 & r2 & E2 & T2).
  destruct (readBytes_turn uname _ later _ [] None b2 r2 e [] None sn T2 (len_byte _ (proj2 Hu)))
    as (b3 & r3 & E3 & T3).
  destruct (readByte_turn _ _ _ [] None _ _ e [] None sn T3) as (b4 & r4 & E4 & T4).
  rewrite <- (app_nil_r passwd) in T4.
  destruct (readBytes_turn passwd [] later _ [] None b4 r4 e [] None sn T4 (len_byte _ (proj2 Hp)))
    as (b5 & r5 & E5 & T5).
  assert (E : authRFC1929 netWrite (mkReq _ [] None b rs e [] None sn)
    = (Ok tt, mkReq _ [] (Some args) b5 r5 e [authRFC1929Ver; authRFC1929Success] None sn));
    [|rewrite (bind_ok _ _ _ _ _ E); by rewrite (flushBuffers_turn _ _ _ _ _ _ _ _ T5)].
  unfold authRFC1929. rewrite (bind_ok _ _ _ _ _ (on_error_ok _ _ _ _ _ E1)).
  rewrite (bind_ok _ _ _ _ _ (on_error_ok _ _ _ _ _ E2)).
  rewrite len_byte, ltb_false by lia. erewrite bind_ok by done.
  rewrite len_byte in E3 by lia. rewrite (bind_ok _ _ _ _ _ (on_error_ok _ _ _ _ _ E3)).
  rewrite (bind_ok _ _ _ _ _ (on_error_ok _ _ _ _ _ E4)).
  rewrite len_byte, ltb_false by lia. erewrite bind_ok by done.
  rewrite len_byte in E5 by lia. rewrite (bind_ok _ _ _ _ _ (on_error_ok _ _ _ _ _ E5)).
  rewrite Ha. erewrite bind_ok by done. erewrite bind_ok by done. apply write_ok.
Qed.

Lemma authenticate_none later b rs e sn :
  turn [] later b rs ->
  authenticate netWrite authNoneRequired (mkReq _ [] None b rs e [] None sn)
  = (Ok tt, mkReq _ [] None [] later e [] None sn).
Proof.
  intros T. unfold authenticate. rewrite decide_True by done. erewrite bind_ok by done.
  by rewrite (flushBuffers_turn _ _ _ _ _ _ _ _ T).
Qed.

(** *** The command *)

Inductive address := AddrIPv4 (ip : bytes) | AddrDomain (name : bytes) | AddrIPv6 (ip : bytes).
Definition address_ok (a : address) : Prop :=
  match a with
  | AddrIPv4 ip => zlen ip = 4
  | AddrDomain name => 1 <= zlen name <= 255
  | AddrIPv6 ip => zlen ip = 16
  end.
Definition address_bytes (a : address) : bytes :=
  match a with
  | AddrIPv4 ip => atypIPv4 :: ip
  | AddrDomain name => atypDomainName :: z2b (zlen name) :: name
  | AddrIPv6 ip => atypIPv6 :: ip
  end.
Definition address_host (a : address) : bytes :=
  match a with
  | AddrIPv4 ip => NetIP.dotted ip
  | AddrDomain name => name
  | AddrIPv6 ip => str "[" ++ NetIP.String ip ++ str "]"
  end.
Definition command (a : address) (port : Z) : bytes :=
  version :: cmdConnect :: rsv :: address_bytes a ++ be_encode 2 port.

Lemma port_lor x y : 0 <= y < 256 -> Z.lor (Z.shiftl x 8) y = x * 256 + y.
Proof.
  intros Hy. assert (E : Z.land (Z.shiftl x 8) y = 0).
  { apply Z.bits_inj'. intros n Hn. rewrite Z.land_spec, Z.bits_0.
    destruct (Z.lt_ge_cases n 8).
    - by rewrite Z.shiftl_spec_low.
    - rewrite <- (Z.mod_small y (2 ^ 8)) by done.
      by rewrite Z.mod_pow2_bits_high, andb_false_r by lia. }
  pose proof (Zbitwise.Z.add_lor_land (Z.shiftl x 8) y) as Ha. rewrite E in Ha.
  rewrite Z.shiftl_mul_pow2 in Ha by done. rewrite Z.shiftl_mul_pow2 by done. lia.
Qed.

Lemma readHost_ok a q later t x b rs e sn :
  address_ok a -> turn (address_bytes a ++ q) later b rs -> exists b' rs',
    (atyp ← on_error readByte (Reply netWrite ReplyGeneralFailure); readHost netWrite atyp)
      (mkReq _ t x b rs e [] None sn)
    = (Ok (address_host a), mkReq _ t x b' rs' e [] None sn) /\ turn q later b' rs'.
Proof.
  intros Ha T. destruct a as [ip|name|ip]; cbn [address_bytes app] in T;
    destruct (readByte_turn _ _ _ t x _ _ e [] None sn T) as (b1 & r1 & E1 & T1);
    rewrite (bind_ok _ _ _ _ _ (on_error_ok _ _ _ _ _ E1)); unfold readHost.
  - rewrite decide_True by done.
    destruct (readBytes_turn ip q later 4 t x b1 r1 e [] None sn T1) as (b2 & r2 & E2 & T2); [done|].
    rewrite (bind_ok _ _ _ _ _ (on_error_ok _ _ _ _ _ E2)). by exists b2, r2.
  - rewrite decide_False, decide_True by done.
    destruct (readByte_turn _ _ _ t x _ _ e [] None sn T1) as (b2 & r2 & E2 & T2).
    rewrite (bind_ok _ _ _ _ _ (on_error_ok _ _ _ _ _ E2)).
    cbn in Ha. rewrite len_byte, eqb_false by lia. erewrite bind_ok by done.
    destruct (readBytes_turn name q later (zlen name) t x b2 r2 e [] None sn T2)
      as (b3 & r3 & E3 & T3); [done|].
    exists b3, r3. split; [by apply on_error_ok|done].
  - rewrite !decide_False, decide_True by done.
    destruct (readBytes_turn ip q later 16 t x b1 r1 e [] None sn T1) as (b2 & r2 & E2 & T2); [done|].
    rewrite (bind_ok _ _ _ _ _ (on_error_ok _ _ _ _ _ E2)). by exists b2, r2.
Qed.

Lemma readCommand_ok a port later x b rs e sn :
  address_ok a -> 0 <= port < 65536 -> turn (command a port) later b rs ->
  readCommand netWrite (mkReq _ [] x b rs e [] None sn)
  = (Ok tt, mkReq _ (address_host a ++ str ":" ++ Strconv.FormatInt port) x [] later e [] None sn).
Proof.
  intros Ha Hport T. unfold readCommand, readTarget.
  destruct (readByteVerify_turn "version" _ _ _ [] x _ _ e [] None sn T) as (b1 & r1 & E1 & T1).
  destruct (readByteVerify_turn "command" _ _ _ [] x _ _ e [] None sn T1) as (b2 & r2 & E2 & T2).
  destruct (readByteVerify_turn "reserved" _ _ _ [] x _ _ e [] None sn T2) as (b3 & r3 & E3 & T3).
  destruct (readHost_ok a _ later [] x b3 r3 e sn Ha T3) as (b4 & r4 & E4 & T4).
  rewrite <- (app_nil_r (be_encode 2 port)) in T4.
  destruct (readBytes_turn _ _ later 2 [] x b4 r4 e [] None sn T4) as (b5 & r5 & E5 & T5); [done|].
  erewrite bind_ok.
  2: { rewrite (bind_ok _ _ _ _ _ (on_error_ok _ _ _ _ _ E1)).
       rewrite (bind_ok _ _ _ _ _ (on_error_ok _ _ _ _ _ E2)).
       rewrite (bind_ok _ _ _ _ _ (on_error_ok _ _ _ _ _ E3)).
       rewrite (bind_assoc _ _ _ _ _ _ E4).
       rewrite (bind_ok _ _ _ _ _ (on_error_ok _ _ _ _ _ E5)). cbn [be_encode app]. reflexivity. }
  unfold set_Target. cbn [Target RArgs rbuf reads rerr wbuf werr sent].
  rewrite (flushBuffers_turn _ _ _ _ _ _ _ _ T5). do 2 f_equal. f_equal. do 2 f_equal.
  rewrite port_lor by apply b2z_range. rewrite !b2z_z2b.
  rewrite (Z.mod_small (port / 256)) by (split; [apply Z.div_pos|apply Z.div_lt_upper_bound]; lia).
  rewrite (Z.div_mod port 256) at 3 by done. f_equal. lia.
Qed.

(** A whole SOCKS 5 conversation, however the network segments each of the
    client's turns: the server picks username/password over no authentication,
    hands the arguments that the username and the password carry and the target
    of the request to the transport, answers [05 02] and [01 00] (only [05 00]
    without authentication) and leaves nothing unread; if the client offers
    neither method it answers [05 ff] and fails. *)
Theorem handshake_conversation methods addr port gs cs e :
  zlen methods <= 255 -> concat gs = greeting methods ->
  address_ok addr -> 0 <= port < 65536 -> concat cs = command addr port ->
  Forall (fun c => c <> []) gs -> Forall (fun c => c <> []) cs ->
  let target := address_host addr ++ str ":" ++ Strconv.FormatInt port in
  let run rs := Handshake netWrite None (newRequest rs e) in
  (forall us uname passwd args,
     authUsernamePassword ∈ methods ->
     1 <= zlen uname <= 255 -> 1 <= zlen passwd <= 255 ->
     ClientParameters.parseClientParameters (arg_string uname passwd) = Ok args ->
     concat us = auth_message uname passwd -> Forall (fun c => c <> []) us ->
     run (gs ++ us ++ cs)
     = (Ok tt, mkReq _ target (Some args) [] [] e [] None
                 [[version; authUsernamePassword]; [authRFC1929Ver; authRFC1929Success]]))
  /\ (authUsernamePassword ∉ methods -> authNoneRequired ∈ methods ->
     run (gs ++ cs) = (Ok tt, mkReq _ target None [] [] e [] None [[version; authNoneRequired]]))
  /\ (authUsernamePassword ∉ methods -> authNoneRequired ∉ methods ->
     forall later, (run (gs ++ later)).1 = Err NoAcceptableMethods
                   /\ sent (run (gs ++ later)).2 = [[version; authNoAcceptableMethods]]).
Proof.
  intros Hm Hg Ha Hp Hc Hgs Hcs target run.
  assert (Hn : forall later,
    run (gs ++ later) = (_ ← authenticate netWrite (choice methods); readCommand netWrite)
      (mkReq _ [] None [] later e [] None [[version; choice methods]])).
  { intros later. unfold run, Handshake, newRequest. erewrite bind_ok by done.
    erewrite bind_ok; [done|]. apply negotiateAuth_ok; [done|]. rewrite <- Hg. by apply turn_start. }
  split_and!.
  - intros us uname passwd args Hin Hu Hpw Hargs Hus Hune. rewrite Hn.
    unfold choice. rewrite decide_True by done.
    erewrite bind_ok by (apply (authenticate_ok uname passwd); [done..|]; rewrite <- Hus; by apply turn_start).
    apply readCommand_ok; [done..|]. exists cs. by rewrite app_nil_r.
  - intros Hnin Hin. rewrite Hn. unfold choice. rewrite decide_False, decide_True by done.
    erewrite bind_ok; [|apply authenticate_none].
    2: by exists []. 
    apply readCommand_ok; [done..|]. exists cs. by rewrite app_nil_r.
  - intros Hn1 Hn2 later. rewrite Hn. unfold choice. rewrite !decide_False by done. done.
Qed.

(** *** Failures of the command *)

Definition same_writer (r r' : Request) : Prop :=
  wbuf r' = wbuf r /\ werr r' = werr r /\ sent r' = sent r.

(** [m] only reads, and its results satisfy [P]. *)
Definition reads_only {A} (P : A -> Prop) (m : M Request error A) : Prop := forall r,
  match m r with
  | (Ok a, r') => P a /\ same_writer r r'
  | (Err _, r') => same_writer r r'
  | (Panic _, _) => False
  end.

(** [m] answers every failure with one reply. *)
Definition replies {A} (P : A -> Prop) (m : M Request error A) : Prop := forall r,
  wbuf r = [] -> werr r = None ->
  match m r with
  | (Ok a, r') => P a /\ same_writer r r'
  | (Err _, r') => exists code, code <> ReplySucceeded /\ sent r' = sent r ++ [reply_bytes code]
  | (Panic _, _) => False
  end.

Lemma readByte_reads : reads_only (fun _ => True) readByte.
Proof. intros r. unfold readByte. destruct (rbuf r), (reads r) as [|[] ?]; done. Qed.

Lemma readByteVerify_reads descr x : reads_only (fun _ => True) (readByteVerify descr x).
Proof.
  intros r. pose proof (readByte_reads r) as Hr. unfold readByteVerify. mrun.
  destruct (readByte r) as [[] r']; [|done|done]. destruct (decide _); naive_solver.
Qed.

Lemma read_full_len n e rs : forall got p b rs',
  read_full n got rs e = (Ok p, b, rs') -> 0 <= n -> zlen p = n.
Proof.
  induction rs as [|x rs IH]; intros got p b rs'; cbn [read_full];
    (destruct (n <=? zlen got) eqn:E; b2p; [intros [= <- <- <-]; rewrite zlen_ztake; lia|]).
  - by destruct got.
  - apply IH.
Qed.

Lemma read_full_no_panic n e rs : forall got, is_panic (read_full n got rs e).1.1 = false.
Proof.
  induction rs as [|x rs IH]; intros got; cbn [read_full];
    (destruct (n <=? zlen got); [done|]); [by destruct got|apply IH].
Qed.

Lemma readBytes_reads n : 0 <= n -> reads_only (fun p => zlen p = n) (readBytes n).
Proof.
  intros Hn r. unfold readBytes.
  pose proof (read_full_no_panic n (rerr r) (reads r) (rbuf r)) as Hp.
  destruct (read_full _ _ _ _) as [[[p|e|w] b] rs] eqn:E; [|done|done].
  split; [|done]. by eapply read_full_len.
Qed.

Lemma if_fail_reads (c : bool) e : reads_only (fun _ => True) (if c then fail e else mret tt).
Proof. by destruct c. Qed.

Lemma reply_sent code r :
  wbuf r = [] -> werr r = None ->
  match Reply netWrite code r with
  | (Panic _, _) => False
  | (_, r') => sent r' = sent r ++ [reply_bytes code]
  end.
Proof.
  intros Hb He. unfold Reply, write, flushBuffers, flush. mrun. rewrite He. cbn. rewrite Hb.
  rewrite decide_False by done. rewrite net_ok. cbn. by destruct (0 <? _).
Qed.

Lemma on_error_replies {A} (P : A -> Prop) m code :
  code <> ReplySucceeded -> reads_only P m -> replies P (on_error m (Reply netWrite code)).
Proof.
  intros Hc Hm r Hb He. specialize (Hm r). unfold on_error.
  destruct (m r) as [[a|e|w] r']; [done| |done]. destruct Hm as (Eb & Ee & Es).
  pose proof (reply_sent code r') as Hr. rewrite Eb, Ee, Es in Hr.
  destruct (Reply netWrite code r') as [[] r2]; eauto.
Qed.

Lemma bind_replies {A B} (P : A -> Prop) (Q : B -> Prop) m (k : A -> M Request error B) :
  replies P m -> (forall a, P a -> replies Q (k a)) -> replies Q (m ≫= k).
Proof.
  intros Hm Hk r Hb He. specialize (Hm r Hb He). unfold mbind, M_bind.
  destruct (m r) as [[a|e|w] r']; [|done|done]. destruct Hm as [Ha (Eb & Ee & Es)].
  specialize (Hk a Ha r'). rewrite Eb, Ee, Es in Hk. specialize (Hk Hb He).
  destruct (k a r') as [[b|e|w] r2]; [|done|done].
  destruct Hk as [? (? & ? & ?)]. split; [done|]. unfold same_writer. by rewrite <- Eb, <- Ee, <- Es.
Qed.

Lemma ret_replies {A} (x : A) : replies (fun _ => True) (mret x).
Proof. done. Qed.

Lemma weaken_reads {A} (P : A -> Prop) m : reads_only P m -> reads_only (fun _ => True) m.
Proof. intros Hm r. specialize (Hm r). destruct (m r) as [[] ?]; naive_solver. Qed.

Ltac replies_step :=
  first [ eapply bind_replies; [apply on_error_replies; [done|]|intros ? _]
        | apply on_error_replies; [done|] ];
  try first [apply readByte_reads | apply readByteVerify_reads | apply if_fail_reads
            | eapply weaken_reads, readBytes_reads; first [lia|apply b2z_range] ].

Lemma readHost_replies atyp : replies (fun _ => True) (readHost netWrite atyp).
Proof.
  unfold readHost. destruct (decide _); [|destruct (decide _); [|destruct (decide _)]];
    repeat replies_step; try done; try apply ret_replies.
Qed.

Lemma readTarget_replies : replies (fun _ => True) (readTarget netWrite).
Proof.
  unfold readTarget. do 4 replies_step. eapply bind_replies; [apply readHost_replies|intros host _].
  eapply bind_replies; [apply on_error_replies; [done|by apply readBytes_reads]|].
  intros [|p0 [|p1 [|]]] Hl; try done; unfold zlen in Hl; cbn in Hl; lia.
Qed.

(** No failed command goes unanswered: from a state with nothing left to
    flush, whatever bytes and errors the network gives, [readCommand] does not
    panic, and it either succeeds without writing, or fails after sending
    exactly one reply, of ten bytes and with a failure code, or (the one silent
    case) has understood the whole command but found more bytes behind it. *)
Theorem readCommand_replies r :
  wbuf r = [] -> werr r = None ->
  match readCommand netWrite r with
  | (Ok _, r') => sent r' = sent r
  | (Err e, r') =>
      (exists n, e = TrailingData n) /\ sent r' = sent r
      \/ exists code, code <> ReplySucceeded /\ sent r' = sent r ++ [reply_bytes code]
                      /\ zlen (reply_bytes code) = 10
  | (Panic _, _) => False
  end.
Proof.
  intros Hb He. pose proof (readTarget_replies r Hb He) as Ht.
  unfold readCommand, mbind, M_bind. destruct (readTarget netWrite r) as [[[]|e|w] r']; [| |done].
  - destruct Ht as [_ (Eb & Ee & Es)]. unfold flushBuffers, flush. mrun.
    rewrite Ee, He, Eb, decide_True by done. cbn.
    destruct (0 <? zlen (rbuf r')); [|done]. left. eauto.
  - destruct Ht as (code & ? & ?). right. by exists code.
Qed.
End conversation.
End Socks5.

(** ** Witnesses *)

Section witnesses.
Import ToyArgs Socks5.
Definition w_net (sent : list bytes) (b : bytes) : option Packet.net_error := None.
Definition w_methods : bytes := [Byte.x00; Byte.x02].
Definition w_addr : address := AddrIPv4 [z2b 192; z2b 0; z2b 2; z2b 7].

(** The greeting and the parameters come in one piece, the command in two. *)
Lemma handshake_conversation_witness :
  let cmd := command w_addr 8443 in
  Handshake w_net None (newRequest
    ([greeting w_methods] ++ [auth_message (str "cert=abc;") (str "iat-mode=1")]
     ++ [ztake 5 cmd; zdrop 5 cmd]) Packet.EOF)
  = (Ok tt, mkReq _ (str "192.0.2.7:8443") (Some [(str "cert", str "abc"); (str "iat-mode", str "1")])
              [] [] Packet.EOF [] None [[Byte.x05; Byte.x02]; [Byte.x01; Byte.x00]]).
Proof.
  intros cmd.
  refine (proj1 (handshake_conversation w_net _ w_methods w_addr 8443 [greeting w_methods]
    [ztake 5 cmd; zdrop 5 cmd] Packet.EOF _ _ _ _ _ _ _)
    [auth_message (str "cert=abc;") (str "iat-mode=1")] (str "cert=abc;") (str "iat-mode=1")
    [(str "cert", str "abc"); (str "iat-mode", str "1")] _ _ _ _ _ _).
  all: first [ done | intros; reflexivity | vm_compute; reflexivity
             | vm_compute; split; congruence | vm_compute; congruence
             | repeat constructor; discriminate | set_solver ].
Defined.

(** BIND instead of CONNECT is answered with "command not supported". *)
Lemma readCommand_replies_witness :
  let r := newRequest [[Byte.x05; Byte.x02; Byte.x00]] Packet.EOF in
  exists e, (readCommand w_net r).1 = Err e
  /\ ((exists n, e = TrailingData n) /\ sent (readCommand w_net r).2 = sent r
      \/ exists code, code <> ReplySucceeded
           /\ sent (readCommand w_net r).2 = sent r ++ [reply_bytes code]
           /\ zlen (reply_bytes code) = 10).
Proof.
  intros r. pose proof (readCommand_replies w_net (fun _ _ => eq_refl) r eq_refl eq_refl) as Hr.
  exists (FieldMismatch "command" Byte.x02 Byte.x01). split; [reflexivity|]. exact Hr.
Defined.
End witnesses.
