(* ===== verification/UniformDH.v ===== *)
(** * The UniformDH key exchange: [common/uniformdh]

    Diffie-Hellman in the 1536-bit MODP group with public keys that are sent as
    [X] or [p - X]; [math/big] integers are [Z]. *)
From Stdlib Require Import Zpow_facts.
From S2P Require Import Prelude GoStd.

(** [math/big]: the minimal big-endian bytes of a non-negative integer and
    modular exponentiation by squaring. *)
Module Big.
Definition Bytes (z : Z) : bytes :=
  if z <=? 0 then [] else be_encode (Z.to_nat (Z.log2 z / 8 + 1)) z.

Fixpoint pow_mod (b : Z) (e : positive) (m : Z) : Z :=
  match e with
  | xH => b mod m
  | xO e => let r := pow_mod b e m in r * r mod m
  | xI e => let r := pow_mod b e m in (r * r mod m) * (b mod m) mod m
  end.
Definition Exp (b e m : Z) : Z :=
  match e with Zpos e => pow_mod b e m | _ => 1 mod m end.

Lemma pow_mod_spec b e m : 0 < m -> pow_mod b e m = b ^ Zpos e mod m.
Proof.
  intros Hm. induction e as [e IH|e IH|]; cbn [pow_mod].
  - rewrite IH, <- (Z.mul_mod (b ^ Z.pos e) (b ^ Z.pos e)), <- Z.mul_mod by lia. f_equal.
    rewrite (Pos2Z.inj_xI e), <- Z.add_diag, !Z.pow_add_r, Z.pow_1_r by lia. done.
  - rewrite IH, <- Z.mul_mod by lia. f_equal.
    by rewrite (Pos2Z.inj_xO e), <- Z.add_diag, Z.pow_add_r by lia.
  - by rewrite Z.pow_1_r.
Qed.

Lemma Exp_spec b e m : 0 < m -> 0 <= e -> Exp b e m = b ^ e mod m.
Proof. intros Hm He. destruct e; [done|by apply pow_mod_spec|lia]. Qed.

Lemma Exp_range b e m : 0 < m -> 0 <= e -> 0 <= Exp b e m < m.
Proof. intros. rewrite Exp_spec by done. by apply Z.mod_pos_bound. Qed.
End Big.

Module UniformDH.

Definition Size : Z := 1536 / 8.
Definition modpStr : bytes := str
  "FFFFFFFFFFFFFFFFC90FDAA22168C234C4C6628B80DC1CD129024E088A67CC74020BBEA63B139B22514A08798E3404DDEF9519B3CD3A431B302B0A6DF25F14374FE1356D6D51C245E485B576625E7EC6F44C42E9A637ED6B0BFF5CB6F406B7EDEE386BFB5A899FA5AE9F24117C4B1FE649286651ECE45B3DC2007CB8A163BF0598DA48361C55D39A69163FA8FD24CF5F83655D23DCA3AD961C62F356208552BB9ED529077096966D670C354E4ABC9804F1746C08CA237327FFFFFFFFFFFFFFFF".
Definition g : Z := 2.

(** [init] loads the group. *)
Definition modpGroup : Z := Eval vm_compute in
  match Hex.DecodeString modpStr with Ok b => be_decode b | _ => 0 end.
Definition gen : Z := g.

Inductive error :=
| NotInitialized
| PublicKeyLength (n : Z)
| PrivateKeySize (n : Z)
| SrcTooLong (zeros : Z)
| RandError.

Record PublicKey := mkPublic { keyBytes : bytes; publicKey : Z }.
Record PrivateKey := mkPrivate { public : PublicKey; privateKey : Z }.

Definition Bytes (pub : PublicKey) : result error bytes :=
  if zlen (keyBytes pub) =? Size then Ok (keyBytes pub) else Err NotInitialized.

Definition SetBytes (pubBytes : bytes) : result error PublicKey :=
  if negb (zlen pubBytes =? Size) then Err (PublicKeyLength (zlen pubBytes))
  else Ok (mkPublic pubBytes (be_decode pubBytes)).

(** [prependZeroBytes] on a destination of [dst] bytes. *)
Definition prependZeroBytes (dst : Z) (src : bytes) : result error bytes :=
  let zeros := dst - zlen src in
  if zeros <? 0 then Err (SrcTooLong zeros) else Ok (zrepeat zeros Byte.x00 ++ src).

Definition generateKey (privBytes : bytes) : result error PrivateKey :=
  if negb (zlen privBytes =? Size) then Err (PrivateKeySize (zlen privBytes))
  else
    let privBn := be_decode privBytes in
    let wasEven := negb (Z.testbit privBn 0) in
    let privBn := Z.clearbit privBn 0 in
    let pubBn := Big.Exp gen privBn modpGroup in
    let pubAlt := modpGroup - pubBn in
    pubBytes ← prependZeroBytes Size (Big.Bytes (if wasEven then pubBn else pubAlt));
    Ok (mkPrivate (mkPublic pubBytes pubBn) privBn).

(** [GenerateKey (random)], [random] being what the reader still gives. *)
Definition GenerateKey : M bytes error PrivateKey := fun random =>
  if zlen random <? Size then (Err RandError, [])
  else (generateKey (ztake Size random), zdrop Size random).

Definition Handshake (priv : PrivateKey) (pub : PublicKey) : result error bytes :=
  let secretBn := Big.Exp (publicKey pub) (privateKey priv) modpGroup in
  prependZeroBytes Size (Big.Bytes secretBn).

(** ** Lemmas *)

Lemma modp_pos : 0 < modpGroup < 256 ^ 192.
Proof. vm_compute. done. Qed.

Lemma be_encode_S n z : be_encode (S n) z = be_encode n (z / 256) ++ [z2b z].
Proof. done. Qed.

Lemma be_encode_prefix k n z :
  0 <= z < 256 ^ Z.of_nat n -> be_encode (k + n) z = replicate k Byte.x00 ++ be_encode n z.
Proof.
  revert z. induction n as [|n IH]; intros z Hz.
  - assert (z = 0) as -> by (cbn in Hz; lia). rewrite Nat.add_0_r. cbn [be_encode]. rewrite app_nil_r.
    induction k as [|k IHk]; [done|]. rewrite be_encode_S.
    by rewrite replicate_S_end, <- IHk.
  - rewrite Nat.add_succ_r, !be_encode_S, IH, app_assoc; [done|].
    split; [apply Z.div_pos; lia|]. apply Z.div_lt_upper_bound; [lia|].
    rewrite Nat2Z.inj_succ, Z.pow_succ_r in Hz by lia. lia.
Qed.

(** Zero padding gives the fixed-width encoding. *)
Lemma prependZeroBytes_Bytes z :
  0 <= z < 256 ^ 192 -> prependZeroBytes Size (Big.Bytes z) = Ok (be_encode 192 z).
Proof.
  intros Hz. unfold prependZeroBytes, Big.Bytes. change Size with 192.
  destruct (z <=? 0) eqn:E; b2p.
  { assert (z = 0) as -> by lia. vm_compute. done. }
  set (n := Z.log2 z / 8 + 1).
  assert (Hlog : 0 <= Z.log2 z < 192 * 8).
  { split; [apply Z.log2_nonneg|]. apply Z.log2_lt_pow2; [lia|].
    change (2 ^ (192 * 8)) with (256 ^ 192). lia. }
  assert (Hn : 1 <= n <= 192).
  { unfold n. pose proof (Z.div_pos (Z.log2 z) 8 ltac:(lia) ltac:(lia)).
    pose proof (Z.div_lt_upper_bound (Z.log2 z) 8 192 ltac:(lia) ltac:(lia)). lia. }
  assert (Hlt : z < 256 ^ n).
  { change 256 with (2 ^ 8). rewrite <- Z.pow_mul_r by lia. apply Z.log2_lt_pow2; [lia|].
    unfold n. pose proof (Z.mod_pos_bound (Z.log2 z) 8 ltac:(lia)).
    pose proof (Z.div_mod (Z.log2 z) 8 ltac:(lia)). lia. }
  rewrite zlen_be_encode, Z2Nat.id, ltb_false by lia. unfold zrepeat. f_equal.
  rewrite <- be_encode_prefix by (rewrite Z2Nat.id; lia). f_equal. lia.
Qed.

Lemma clearbit_even z : 0 <= z -> exists k, Z.clearbit z 0 = 2 * k /\ 0 <= k.
Proof.
  intros Hz. exists (z / 2). split; [|apply Z.div_pos; lia].
  unfold Z.clearbit. rewrite Z.shiftl_1_l. change (2 ^ 0) with 1.
  rewrite Z.ldiff_land. 
  pose proof (Z.ldiff_ones_r z 1 ltac:(lia)) as Hl. rewrite Z.ldiff_land in Hl.
  change (Z.ones 1) with 1 in Hl. rewrite Hl, Z.shiftl_mul_pow2, Z.shiftr_div_pow2 by lia. change (2 ^ 1) with 2. lia.
Qed.

(** Even powers do not tell [x] from [p - x]. *)
Lemma even_power_neg p x k : 0 < p -> 0 <= k -> (p - x) ^ (2 * k) mod p = x ^ (2 * k) mod p.
Proof.
  intros Hp Hk. rewrite !Z.pow_mul_r by lia.
  rewrite (Zpower_mod ((p - x) ^ 2)), (Zpower_mod (x ^ 2)) by done. f_equal. f_equal.
  replace ((p - x) ^ 2) with (x ^ 2 + (p - 2 * x) * p) by lia. by rewrite Z.mod_add by lia.
Qed.

(** What [generateKey] returns. *)
Lemma generateKey_ok a : zlen a = Size -> exists i v,
  0 <= i /\ 0 <= v <= modpGroup
  /\ (v = 2 ^ (2 * i) mod modpGroup \/ v = modpGroup - 2 ^ (2 * i) mod modpGroup)
  /\ generateKey a = Ok (mkPrivate (mkPublic (be_encode 192 v) (2 ^ (2 * i) mod modpGroup)) (2 * i)).
Proof.
  intros Ha. unfold generateKey. rewrite Ha. cbn [negb Z.eqb].
  destruct (clearbit_even (be_decode a)) as (i & -> & Hi); [apply be_decode_range|].
  pose proof modp_pos. pose proof (Z.mod_pos_bound (2 ^ (2 * i)) modpGroup ltac:(lia)).
  unfold gen, g. rewrite Big.Exp_spec by lia.
  exists i, (if negb (Z.testbit (be_decode a) 0) then 2 ^ (2 * i) mod modpGroup
             else modpGroup - 2 ^ (2 * i) mod modpGroup).
  split_and!; [done|by case_match; lia|by case_match; lia|by case_match; auto|].
  rewrite Z.eqb_refl. cbn [negb]. rewrite prependZeroBytes_Bytes; [done|]. case_match; lia.
Qed.

Lemma SetBytes_ok v : 0 <= v < 256 ^ 192 ->
  SetBytes (be_encode 192 v) = Ok (mkPublic (be_encode 192 v) v).
Proof.
  intros Hv. unfold SetBytes. rewrite zlen_be_encode. cbn [negb Z.eqb].
  rewrite be_decode_encode, Z.mod_small by done. done.
Qed.

Lemma generateKey_size a ka : generateKey a = Ok ka -> zlen a = Size.
Proof. unfold generateKey. destruct (zlen a =? Size) eqn:E; b2p; done. Qed.

(** Two key pairs agree: the public keys are read back, the secrets are equal. *)
Lemma exchange a b ka kb : generateKey a = Ok ka -> generateKey b = Ok kb ->
  zlen (keyBytes (public ka)) = Size /\ zlen (keyBytes (public kb)) = Size
  /\ exists pa pb ss,
    SetBytes (keyBytes (public ka)) = Ok pa /\ SetBytes (keyBytes (public kb)) = Ok pb
    /\ Handshake ka pb = Ok ss /\ Handshake kb pa = Ok ss /\ zlen ss = Size.
Proof.
  intros Ea0 Eb0. pose proof modp_pos as Hp.
  destruct (generateKey_ok a (generateKey_size a ka Ea0)) as (i & v & Hi & Hv & Hvi & Ea).
  destruct (generateKey_ok b (generateKey_size b kb Eb0)) as (j & w & Hj & Hw & Hwj & Eb).
  rewrite Ea0 in Ea. rewrite Eb0 in Eb. injection Ea as ->. injection Eb as ->.
  assert (Hpow : forall x k l, 0 <= k -> 0 <= l ->
    x = 2 ^ (2 * k) mod modpGroup \/ x = modpGroup - 2 ^ (2 * k) mod modpGroup ->
    Big.Exp x (2 * l) modpGroup = 2 ^ (2 * k * (2 * l)) mod modpGroup).
  { intros x k l Hk Hl Hx. rewrite Big.Exp_spec by lia.
    rewrite (Z.pow_mul_r 2 (2 * k)), (Zpower_mod (2 ^ (2 * k))) by lia.
    destruct Hx as [-> | ->]; [done|]. apply even_power_neg; lia. }
  cbn [public keyBytes]. rewrite !zlen_be_encode, !SetBytes_ok by lia.
  split; [done|]. split; [done|].
  exists (mkPublic (be_encode 192 v) v), (mkPublic (be_encode 192 w) w).
  exists (be_encode 192 (2 ^ (2 * i * (2 * j)) mod modpGroup)).
  pose proof (Z.mod_pos_bound (2 ^ (2 * i * (2 * j))) modpGroup ltac:(lia)).
  unfold Handshake. cbn [publicKey privateKey].
  rewrite (Hpow w j i), (Hpow v i j) by done. rewrite (Z.mul_comm (2 * j)).
  rewrite prependZeroBytes_Bytes by lia. rewrite zlen_be_encode. by split_and!.
Qed.

(** UniformDH agrees: whatever 192 random bytes the two sides draw, key
    generation succeeds, each public key travels as exactly 192 bytes (as [X] or,
    by the coin the low bit of the private key tosses, as [p - X]), is read back,
    and both sides compute the same shared secret of 192 bytes. *)
Theorem udh_agreement a b :
  zlen a = Size -> zlen b = Size ->
  exists ka kb pa pb ss,
    generateKey a = Ok ka /\ generateKey b = Ok kb
    /\ zlen (keyBytes (public ka)) = Size /\ zlen (keyBytes (public kb)) = Size
    /\ SetBytes (keyBytes (public ka)) = Ok pa /\ SetBytes (keyBytes (public kb)) = Ok pb
    /\ Handshake ka pb = Ok ss /\ Handshake kb pa = Ok ss /\ zlen ss = Size.
Proof.
  intros Ha Hb.
  destruct (generateKey_ok a Ha) as (i & v & _ & _ & _ & Ea).
  destruct (generateKey_ok b Hb) as (j & w & _ & _ & _ & Eb).
  destruct (exchange _ _ _ _ Ea Eb) as (La & Lb & pa & pb & ss & Hs).
  eexists _, _, pa, pb, ss. split_and!; try done; apply Hs.
Qed.
End UniformDH.

Section witnesses.
Import UniformDH.
(** Private keys 5 (odd, so [p - X] is sent) and 6. *)
Definition w_priv (z : Z) : bytes := be_encode 192 z.

Lemma udh_agreement_witness :
  exists ka kb pa pb ss,
    generateKey (w_priv 5) = Ok ka /\ generateKey (w_priv 6) = Ok kb
    /\ zlen (keyBytes (public ka)) = Size /\ zlen (keyBytes (public kb)) = Size
    /\ SetBytes (keyBytes (public ka)) = Ok pa /\ SetBytes (keyBytes (public kb)) = Ok pb
    /\ Handshake ka pb = Ok ss /\ Handshake kb pa = Ok ss /\ zlen ss = Size.
Proof. apply (udh_agreement (w_priv 5) (w_priv 6)); vm_compute; reflexivity. Defined.
End witnesses.
