(* ===== verification/Links.v ===== *)
(** * The handshake drivers of the connections

    [clientHandshake] and [serverHandshake] of [obfs4.go], [defconn.go] and
    [randomwt.go]: they differ in the packet that carries the PRNG seed.  What
    the network reads, writes and deadlines return is the environment's. *)
From S2P Require Import Prelude GoStd Rand Drbg Framing ProbDist ReplayFilter Packet Ntor Handshake Obfs4.

Module Links.

(** How [Conn.Write] went: [None], or how many bytes were written before which
    error. *)
Definition write_result : Type := option (Z * Packet.net_error).
Definition written (blob : bytes) (w : write_result) : bytes :=
  match w with Some (n, _) => ztake n blob | None => blob end.

Section drivers.
Context `{SipHash} `{SecretBox} `{Curve25519} `{Elligator} `{Hkdf}.
(** The limit of [makePacket], the type of the seed packet and its padding. *)
Context (maxPayload seedType seedPad : Z).

Definition net_err {A} (e : Packet.net_error) : result Obfs4.hs_error A :=
  Err (Obfs4.PacketError (Packet.NetError e)).

(** The result, [None] when it blocks, and what was written. *)
Definition clientHandshake (isServer : bool) (nodeID peerIdentityKey : bytes)
    (sessionKey : Ntor.Keypair) (hour : Z) (tape : bytes) (writeErr : write_result)
    (net : list (bytes * option Packet.net_error))
  : option (result Obfs4.hs_error Obfs4.link) * list bytes :=
  if isServer then (Some (Err Obfs4.WrongSide), [])
  else
    match (hs ← Handshake.newClientHandshake nodeID peerIdentityKey sessionKey;
           Handshake.client_generate hour hs) tape with
    | (Err e, _) => (Some (Err (Obfs4.HandshakeError e)), [])
    | (Panic w, _) => (Some (Panic w), [])
    | (Ok (blob, hs), _) =>
        match writeErr with
        | Some (_, e) => (Some (net_err e), [written blob writeErr])
        | None => (Obfs4.client_loop net [] hs, [written blob writeErr])
        end
    end.

(** The response: the handshake and the PRNG seed as the first packet. *)
Definition server_response (l : Obfs4.link) (hs : Handshake.serverHandshake) (lenSeed : bytes)
    (tape : bytes) : result Obfs4.hs_error (bytes * Obfs4.link) :=
  match (Handshake.server_generate hs tape).1 with
  | Err e => Err (Obfs4.HandshakeError e)
  | Panic w => Panic w
  | Ok blob =>
      match Packet.makePacket maxPayload
              (Packet.mkPacket seedType (Drbg.SeedBytes lenSeed) seedPad)
              (Obfs4.l_encoder l) with
      | (Ok f, e) => Ok (blob ++ f, Obfs4.mkLink e (Obfs4.l_decoder l) (Obfs4.receiveBuffer l))
      | (Err e, _) => Err (Obfs4.PacketError e)
      | (Panic w, _) => Panic w
      end
  end.

(** [Ok None] is a [nil] error without a link: the second [SetDeadline] failed. *)
Definition serverHandshake (isServer : bool) (nodeID : bytes) (identityKey sessionKey : Ntor.Keypair)
    (lenSeed tape : bytes) (deadline1 deadline2 : option Packet.net_error)
    (writeErr : write_result)
    (net : list (bytes * option Packet.net_error * Z * Z)) (rf : ReplayFilter.ReplayFilter)
  : option (result Obfs4.hs_error (option Obfs4.link)) * list bytes * ReplayFilter.ReplayFilter :=
  if negb isServer then (Some (Err Obfs4.WrongSide), [], rf)
  else
    match Handshake.newServerHandshake nodeID identityKey sessionKey tape with
    | (Err e, _) => (Some (Err (Obfs4.HandshakeError e)), [], rf)
    | (Panic w, _) => (Some (Panic w), [], rf)
    | (Ok hs, tape) =>
        match deadline1 with
        | Some e => (Some (net_err e), [], rf)
        | None =>
            match Obfs4.server_loop net [] hs rf with
            | (None, rf) => (None, [], rf)
            | (Some (Err e), rf) => (Some (Err e), [], rf)
            | (Some (Panic w), rf) => (Some (Panic w), [], rf)
            | (Some (Ok (l, hs)), rf) =>
                match deadline2 with
                | Some _ => (Some (Ok None), [], rf)
                | None =>
                    match server_response l hs lenSeed tape with
                    | Err e => (Some (Err e), [], rf)
                    | Panic w => (Some (Panic w), [], rf)
                    | Ok (resp, l) =>
                        match writeErr with
                        | Some (_, e) => (Some (net_err e), [written resp writeErr], rf)
                        | None => (Some (Ok (Some l)), [written resp writeErr], rf)
                        end
                    end
                end
            end
        end
    end.
End drivers.

Section properties.
Context `{SipHashLaws} `{SecretBoxLaws} `{Curve25519} `{Elligator} `{HkdfLaws}.
Context (maxPayload seedType seedPad : Z).
Hypothesis max_ok : maxPayload <= Framing.MaximumFramePayloadLength - Packet.packetOverhead.
Hypothesis seed_ok : 0 <= seedType < 256 /\ 0 <= seedPad
                     /\ Drbg.SeedLength + seedPad <= maxPayload.

(** What a response is made of. *)
Lemma server_response_ok l hs lenSeed tape resp l' :
  zlen lenSeed = Drbg.SeedLength ->
  server_response maxPayload seedType seedPad l hs lenSeed tape = Ok (resp, l') ->
  exists blob f, (Handshake.server_generate hs tape).1 = Ok blob /\ resp = blob ++ f
    /\ zlen f = Drbg.SeedLength + seedPad + Packet.packetOverhead + Framing.FrameOverhead
    /\ Packet.makePackets maxPayload [Packet.mkPacket seedType lenSeed seedPad]
         (Obfs4.l_encoder l) = (Ok f, Obfs4.l_encoder l').
Proof.
  intros Hl. unfold server_response, Drbg.SeedBytes.
  destruct (Handshake.server_generate hs tape).1 as [blob| |]; try done.
  destruct (Packet.makePacket _ _ _) as [[f| |] e] eqn:E; try done. intros [= <- <-].
  exists blob, f. split_and!; [done|done| |].
  - assert (Hok : Packet.packet_ok maxPayload (Packet.mkPacket seedType lenSeed seedPad))
      by (destruct seed_ok as (? & ? & ?); split_and!; cbn; lia).
    rewrite (Packet.makePacket_zlen _ _ _ _ _ max_ok Hok E). cbn. lia.
  - cbn [Packet.makePackets]. mrun. rewrite E. cbn. by rewrite app_nil_r.
Qed.
End properties.
End Links.
