(* ===== verification/DefconnLink.v ===== *)
(** * The link layer of the defconn transports

    [transports/defconn/framing] and [transports/defconn/handshake_ntor.go] are
    copies of obfs4's files; the drivers differ from obfs4's in the padding of the
    seed packet. *)
From S2P Require Import Prelude GoStd Rand Drbg Framing ProbDist ReplayFilter Packet Ntor Handshake Obfs4 Links DefConn.

Module DefconnLink.

(** ** [framing/framing.go]

    The file is obfs4's, but for one more log line. *)

Section framing.
Context `{SipHash} `{SecretBox}.
Definition framing_error := Framing.error.
Definition boxNonce := Framing.boxNonce.
Definition nonce_init := Framing.nonce_init.
Definition nonce_bytes := Framing.nonce_bytes.
Definition Encoder := Framing.Encoder.
Definition Decoder := Framing.Decoder.
Definition NewEncoder := Framing.NewEncoder.
Definition NewDecoder := Framing.NewDecoder.
Definition Encode := Framing.Encode.
Definition Decode := Framing.Decode.
Definition MaximumSegmentLength := Framing.MaximumSegmentLength.
End framing.

(** ** [handshake_ntor.go]

    The file is obfs4's. *)

Section handshake.
Context `{SipHash} `{Curve25519} `{Elligator}.
Definition handshake_error := Handshake.error.
Definition clientHandshake := Handshake.clientHandshake.
Definition serverHandshake := Handshake.serverHandshake.
Definition maxHandshakeLength := Handshake.maxHandshakeLength.
Definition newClientHandshake := Handshake.newClientHandshake.
Definition client_generate := Handshake.client_generate.
Definition parseServerHandshake := Handshake.parseServerHandshake.
Definition newServerHandshake := Handshake.newServerHandshake.
Definition parseClientHandshake := Handshake.parseClientHandshake.
Definition server_generate := Handshake.server_generate.
Definition getEpochHour := Handshake.getEpochHour.
Definition findMarkMac := Handshake.findMarkMac.
Definition makePad := Handshake.makePad.
End handshake.

(** ** The drivers of [defconn.go] *)

Definition seedPad : Z := DefConn.MaxPacketPayloadLength - DefConn.SeedPacketPayloadLength.

Section drivers.
Context `{SipHash} `{SecretBox} `{Curve25519} `{Elligator} `{Hkdf}.
Definition connClientHandshake := Links.clientHandshake.
Definition server_response := Links.server_response DefConn.MaxPacketPayloadLength
  DefConn.PacketTypePrngSeed seedPad.
Definition connServerHandshake := Links.serverHandshake DefConn.MaxPacketPayloadLength
  DefConn.PacketTypePrngSeed seedPad.
End drivers.

Section properties.
Context `{SipHashLaws} `{SecretBoxLaws} `{Curve25519} `{Elligator} `{HkdfLaws}.

Lemma deliver_seed fuel lenSeed a w :
  zlen lenSeed = Drbg.SeedLength -> DefConn.IsServer a = false ->
  ProbDist.Reset fuel lenSeed (DefConn.LenDist a) = Ok w ->
  Packet.deliver (DefConn.handle fuel)
    [Packet.mkPacket DefConn.PacketTypePrngSeed lenSeed seedPad] (Ok tt) a
  = (Ok tt, DefConn.set_LenDist w a).
Proof.
  intros Hl Hs Hr. cbn [Packet.deliver Packet.pktType Packet.data Packet.padLen].
  unfold DefConn.handle. cbn. unfold DefConn.handle_seed, DefConn.SeedPacketPayloadLength.
  rewrite Hl, Z.eqb_refl, Hs, Drbg.SeedFromBytes_exact by done. cbn. by rewrite Hr.
Qed.

(** The end of the handshake installs the server's length distribution: with
    the link keys both sides derive from the same KEY_SEED, the server's
    response is its handshake message followed by one cell of 557 bytes, and
    from that cell, however the network cuts it, the client's [ReadPackets]
    resets its distribution to the one of the server's seed, without a panic
    and with both ends in step for the packets that follow. *)
Theorem seed_installed fuel seed ec dc es ds hs lenSeed tape resp l' buf a w t :
  Obfs4.client_link seed = Ok (ec, dc) -> Obfs4.server_link seed = Ok (es, ds) ->
  zlen lenSeed = Drbg.SeedLength ->
  server_response (Obfs4.mkLink es ds buf) hs lenSeed tape = Ok (resp, l') ->
  DefConn.IsServer a = false -> ProbDist.Reset fuel lenSeed (DefConn.LenDist a) = Ok w ->
  exists blob f, (Handshake.server_generate hs tape).1 = Ok blob /\ resp = blob ++ f
    /\ zlen f = 557
    /\ forall chunks, concat chunks = f ->
       let out := Packet.readAll (DefConn.handle fuel) chunks
                    (Packet.mkConn (Framing.mkD dc [] t) a) in
       Packet.app out.2 = DefConn.set_LenDist w a
       /\ Forall (fun r => is_panic r = false) out.1
       /\ exists d', Packet.pending d' t [] (Packet.rx out.2)
                     /\ Framing.synced (Obfs4.l_encoder l') d'.
Proof.
  intros Hc Hs Hl Hr Hsv Hw.
  destruct (Obfs4.link_synced seed ec dc es ds Hc Hs) as [_ Hsync].
  unfold server_response in Hr.
  apply Links.server_response_ok in Hr as (blob & f & Hb & -> & Hf & Hm); [|done..].
  exists blob, f. split_and!; [done|done|done|]. intros chunks Hch out.
  pose proof (deliver_seed fuel lenSeed a w Hl Hsv Hw) as Hd.
  destruct (Packet.stream_delivery (DefConn.handle fuel) _ DefConn.cell_payload_fits t
    [Packet.mkPacket DefConn.PacketTypePrngSeed lenSeed seedPad] es dc a f (Obfs4.l_encoder l')
    chunks Hsync) as (Ha & Hp & Hd'); [|done|done|by rewrite Hd|].
  - apply Forall_singleton. split_and!; cbn; rewrite ?Hl; done.
  - split; [|done]. unfold out. by rewrite Ha, Hd.
Qed.
End properties.
End DefconnLink.

(** ** Witness *)

Section witnesses.
Import ToySip ToyBox ToyCurve DefconnLink.

Definition w_seed : bytes := zrepeat 32 Byte.x07.
Definition w_lenSeed : bytes := zrepeat 24 Byte.x0a.
Definition w_dist : ProbDist.WeightedDist := ProbDist.mkWDist 0 3 false [] [] [] [].
Definition w_app : DefConn.app := DefConn.mkApp false w_dist DefConn.NewState 0 [].
Definition w_reset : ProbDist.WeightedDist := Eval vm_compute in
  match ProbDist.Reset 40 w_lenSeed w_dist with Ok w => w | _ => w_dist end.
Definition w_hs : Handshake.serverHandshake :=
  Handshake.mkServer (toy_keypair Byte.x22) (zrepeat 20 Byte.x44) (toy_keypair Byte.x33)
    (str "473000") (Some (zrepeat 32 Byte.x01)) 3 (str "key") None [].
Definition w_client := Eval vm_compute in Obfs4.client_link w_seed.
Definition w_server := Eval vm_compute in Obfs4.server_link w_seed.
Definition w_resp := Eval vm_compute in
  match w_server with
  | Ok (es, ds) => server_response (Obfs4.mkLink es ds []) w_hs w_lenSeed (zrepeat 3 Byte.x00)
  | _ => Panic "no link"
  end.

Lemma seed_installed_witness :
  exists ec dc es ds resp l' blob f,
    w_client = Ok (ec, dc) /\ w_server = Ok (es, ds) /\ w_resp = Ok (resp, l')
    /\ resp = blob ++ f /\ zlen f = 557
    /\ Packet.app (Packet.readAll (DefConn.handle 40) [f]
         (Packet.mkConn (Framing.mkD dc [] []) w_app)).2 = DefConn.set_LenDist w_reset w_app.
Proof.
  assert (Hc : Obfs4.client_link w_seed = w_client) by (vm_compute; reflexivity).
  assert (Hs : Obfs4.server_link w_seed = w_server) by (vm_compute; reflexivity).
  assert (Hw : ProbDist.Reset 40 w_lenSeed w_dist = Ok w_reset) by (vm_compute; reflexivity).
  destruct w_client as [[ec dc]| |] eqn:Ec; [|discriminate Ec|discriminate Ec].
  destruct w_server as [[es ds]| |] eqn:Es; [|discriminate Es|discriminate Es].
  destruct w_resp as [[resp l']| |] eqn:Er; [|discriminate Er|discriminate Er].
  assert (Hr : server_response (Obfs4.mkLink es ds []) w_hs w_lenSeed (zrepeat 3 Byte.x00)
               = Ok (resp, l')).
  { rewrite <- Er. unfold w_resp. injection Es as <- <-. vm_compute. reflexivity. }
  destruct (seed_installed 40 w_seed ec dc es ds w_hs w_lenSeed (zrepeat 3 Byte.x00) resp l' []
    w_app w_reset [] Hc Hs eq_refl Hr eq_refl Hw) as (blob & f & _ & -> & Hf & Hd).
  exists ec, dc, es, ds, (blob ++ f), l', blob, f. split_and!; try reflexivity; [exact Hf|].
  apply (Hd [f]). cbn. apply app_nil_r.
Defined.
End witnesses.
