(* ===== verification/Randomwt.v ===== *)
(** * The Walkie-Talkie transport: [transports/randomwt]

    Its link layer ([framing/framing.go] and [handshake_ntor.go] are copies of
    obfs4's files), its packets ([packet.go]) and the half-duplex bursts of
    [randomwt.go]. *)
From S2P Require Import Prelude GoStd Rand Drbg Framing ProbDist ReplayFilter Packet Ntor Handshake Obfs4 Links DefConn.

Module Randomwt.

(** ** [framing/framing.go]

    The file is obfs4's, but for one more log line. *)

Section framing.
Context `{SipHash} `{SecretBox}.
Definition framing_error := Framing.error.
Definition boxNonce := Framing.boxNonce.
Definition nonce_init := Framing.nonce_init.
Definition nonce_bytes := Framing.nonce_bytes.
Definition Encoder := Framing.Encoder.
Definition Decoder := Framing.Decoder.
Definition NewEncoder := Framing.NewEncoder.
Definition NewDecoder := Framing.NewDecoder.
Definition Encode := Framing.Encode.
Definition Decode := Framing.Decode.
Definition MaximumSegmentLength := Framing.MaximumSegmentLength.
End framing.

(** ** [handshake_ntor.go]

    The file is obfs4's. *)

Section handshake.
Context `{SipHash} `{Curve25519} `{Elligator}.
Definition handshake_error := Handshake.error.
Definition clientHandshake := Handshake.clientHandshake.
Definition serverHandshake := Handshake.serverHandshake.
Definition maxHandshakeLength := Handshake.maxHandshakeLength.
Definition newClientHandshake := Handshake.newClientHandshake.
Definition client_generate := Handshake.client_generate.
Definition parseServerHandshake := Handshake.parseServerHandshake.
Definition newServerHandshake := Handshake.newServerHandshake.
Definition parseClientHandshake := Handshake.parseClientHandshake.
Definition server_generate := Handshake.server_generate.
Definition getEpochHour := Handshake.getEpochHour.
Definition findMarkMac := Handshake.findMarkMac.
Definition makePad := Handshake.makePad.
End handshake.

(** ** [packet.go] *)

Definition maxPacketPayloadLength : Z := 536.
Definition maxPacketPaddingLength : Z := maxPacketPayloadLength.
Definition seedPacketPayloadLength : Z := Drbg.SeedLength.

Definition packetTypePayload : Z := 0.
Definition packetTypeDummy : Z := 1.
Definition packetTypePrngSeed : Z := 2.
Definition packetTypeFakeFinish : Z := 3.
Definition packetTypeRealFinish : Z := 4.
Definition packetTypeTearDown : Z := 5.
Definition packetTypeSignalStart : Z := 6.
Definition packetTypeSignalStop : Z := 7.

(** [state.go] *)
Inductive wstate := stateStart | stateStop | stateStartReady.
#[export] Instance wstate_eq_dec : EqDecision wstate.
Proof. solve_decision. Defined.
Inductive signal := signalReal | signalDummy | signalTearDown.

(** [canSendChan] lists what was put on the channel, of capacity one: a full
    channel delays the writer. *)
Record app := mkApp {
  isServer : bool;
  lenDist : ProbDist.WeightedDist;
  state : wstate;
  canSendChan : list signal;
  receiveDecodedBuffer : bytes
}.
Definition set_state (s : wstate) (a : app) : app :=
  mkApp (isServer a) (lenDist a) s (canSendChan a) (receiveDecodedBuffer a).
Definition send_signal (x : signal) (a : app) : app :=
  mkApp (isServer a) (lenDist a) (state a) (canSendChan a ++ [x]) (receiveDecodedBuffer a).

Section packets.
Context `{SipHash} `{SecretBox} (fuel : nat).

Definition handle_seed (payload : bytes) (a : app) : result Packet.error unit * app :=
  if (zlen payload =? seedPacketPayloadLength) && negb (isServer a) then
    match Drbg.SeedFromBytes payload with
    | Err e => (Err (Packet.SeedError e), a)
    | Panic w => (Panic w, a)
    | Ok seed =>
        match ProbDist.Reset fuel seed (lenDist a) with
        | Ok w => (Ok tt, mkApp (isServer a) w (state a) (canSendChan a) (receiveDecodedBuffer a))
        | Err _ => (Panic "nil pointer dereference", a)
        | Panic w => (Panic w, a)
        end
    end
  else (Ok tt, a).

(** The [switch] of [readPackets]. *)
Definition handle : Packet.handler app := fun pktType payload _ a =>
  if pktType =? packetTypePayload then
    (Ok tt, if 0 <? zlen payload
            then mkApp (isServer a) (lenDist a) (state a) (canSendChan a)
                       (receiveDecodedBuffer a ++ payload)
            else a)
  else if pktType =? packetTypePrngSeed then handle_seed payload a
  else if pktType =? packetTypeRealFinish then (Ok tt, send_signal signalReal a)
  else if pktType =? packetTypeFakeFinish then (Ok tt, send_signal signalDummy a)
  else if pktType =? packetTypeTearDown then (Ok tt, send_signal signalTearDown a)
  else if pktType =? packetTypeSignalStart then
    if negb (isServer a) then (Panic "Client receive SignalStart pkt from server?", a)
    else (Ok tt, if decide (state a = stateStart) then a else set_state stateStart a)
  else if pktType =? packetTypeSignalStop then
    if negb (isServer a) then (Panic "Client receive SignalStop pkt from server?", a)
    else (Ok tt, if decide (state a = stateStop) then a else set_state stateStop a)
  else (Ok tt, a).

Definition makePacket : Packet.packet -> M Framing.Encoder Packet.error bytes :=
  Packet.makePacket maxPacketPayloadLength.
Definition readPackets := Packet.readPackets handle.

(** [Read] is the loop of [DefConn.MyRead] over its own [readPackets]. *)
Fixpoint fill (net : list (bytes * option Packet.net_error)) (c : Packet.conn app)
  : option (result Packet.error unit * Packet.conn app
            * list (bytes * option Packet.net_error)) :=
  if 0 <? zlen (receiveDecodedBuffer (Packet.app c)) then Some (Ok tt, c, net)
  else
    match net with
    | [] => None
    | (rd, rdErr) :: net =>
        match readPackets rd rdErr c with
        | (Err (Packet.FrameError Framing.ErrAgain), c) => fill net c
        | (Err e, c) => Some (Err e, c, net)
        | (Panic w, c) => Some (Panic w, c, net)
        | (Ok _, c) => fill net c
        end
    end.
Definition Read (n : Z) (net : list (bytes * option Packet.net_error)) (c : Packet.conn app)
  : option (bytes * result Packet.error unit * Packet.conn app
            * list (bytes * option Packet.net_error)) :=
  match fill net c with
  | None => None
  | Some (Panic w, c, net) => Some ([], Panic w, c, net)
  | Some (r, c, net) =>
      let a := Packet.app c in
      let buf := receiveDecodedBuffer a in
      Some (ztake n buf, r,
            Packet.mkConn (Packet.rx c)
              (mkApp (isServer a) (lenDist a) (state a) (canSendChan a) (zdrop n buf)), net)
  end.
End packets.

(** ** The drivers of the handshake *)

Definition seedPad : Z := maxPacketPayloadLength - seedPacketPayloadLength.

Section drivers.
Context `{SipHash} `{SecretBox} `{Curve25519} `{Elligator} `{Hkdf}.
Definition connClientHandshake := Links.clientHandshake.
Definition connServerHandshake :=
  Links.serverHandshake maxPacketPayloadLength packetTypePrngSeed seedPad.
End drivers.

(** ** Bursts *)

Definition cell (ty : Z) (d : bytes) : Packet.packet :=
  Packet.mkPacket ty d (maxPacketPaddingLength - zlen d).

Record config := mkConfig {
  nClientReal : Z; nServerReal : Z; nClientFake : Z; nServerFake : Z
}.

(** What the loop of [ReadFrom] keeps: the connection's state, what was put on
    [writeChan] (of capacity 65535) and on [canSendChan]. *)
Record talk := mkTalk {
  t_state : wstate;
  written : list Packet.packet;
  signals : list signal
}.
Definition put (ps : list Packet.packet) (t : talk) : talk :=
  mkTalk (t_state t) (written t ++ ps) (signals t).

(** What [r.Read] under its deadline gives. *)
Inductive upstream_read := RData (d : bytes) | RTimeout | RError (e : Packet.error).

Section bursts.
(** [Intn] of the generator [utils.Uniform] seeds with the clock. *)
Context (intn : Z -> Z).

(** [utils.Uniform (min, max)]. *)
Definition Uniform (min max : Z) : result Packet.error Z :=
  if max - min + 1 <=? 0 then Panic "invalid argument to Intn"
  else Ok (intn (max - min + 1) + min).

Definition sampleDummyBurst (n : Z) (t : talk) : result Packet.error Z * talk :=
  if decide (t_state t = stateStop) then (Ok 0, t)
  else
    match Uniform 0 n with
    | Ok burstSize =>
        (Ok burstSize, put (replicate (Z.to_nat burstSize) (cell packetTypeDummy [])) t)
    | Err e => (Err e, t)
    | Panic w => (Panic w, t)
    end.

(** The cells of a real burst; the fuel is the length of the data. *)
Fixpoint chop (fuel : nat) (b : bytes) : list bytes :=
  match fuel with
  | O => []
  | S fuel =>
      match b with
      | [] => []
      | _ => ztake maxPacketPayloadLength b :: chop fuel (zdrop maxPacketPayloadLength b)
      end
  end.

(** The client's next state when it reads [rdLen] bytes. *)
Definition nextState (cur : wstate) (rdLen : Z) : wstate :=
  match cur with
  | stateStop => if rdLen <=? maxPacketPayloadLength then stateStartReady else stateStart
  | stateStartReady => stateStart
  | stateStart => stateStart   (* [var nextState uint32] *)
  end.

Definition padRealBurst (isServer : bool) (cf : config) (rd : upstream_read)
    (deadline : option Packet.net_error) (t : talk) : result Packet.error Z * talk :=
  let nFake := if isServer then nServerFake cf else nClientFake cf in
  let nReal := if isServer then nServerReal cf else nClientReal cf in
  match deadline with
  | Some e => (Err (Packet.NetError e), t)
  | None =>
      match rd with
      | RData d =>
          let t :=
            if isServer then t
            else
              let next := nextState (t_state t) (zlen d) in
              let t := if decide (next = stateStart) then
                         if decide (t_state t = stateStart) then t
                         else put [cell packetTypeSignalStart []] t
                       else t in
              mkTalk next (written t) (signals t) in
          let t := put (map (cell packetTypePayload) (chop (length d) d)) t in
          match sampleDummyBurst nReal t with
          | (Ok _, t) => (Ok (zlen d), put [cell packetTypeRealFinish []] t)
          | (Err e, t) => (Err e, t)
          | (Panic w, t) => (Panic w, t)
          end
      | RTimeout =>
          match sampleDummyBurst nFake t with
          | (Ok _, t) => (Ok 0, put [cell packetTypeRealFinish []] t)
          | (Err e, t) => (Err e, t)
          | (Panic w, t) => (Panic w, t)
          end
      | RError e => (Err e, t)
      end
  end.

(** [coin] is [utils.Bernoulli (conn.pFake) == 1]. *)
Definition clientTalkie (cf : config) (isFakeTurn : Z) (coin : bool) (rd : upstream_read)
    (deadline : option Packet.net_error) (t : talk) : result Packet.error Z * talk :=
  if negb (bool_decide (t_state t = stateStop)) && (isFakeTurn mod 2 =? 1) then
    if coin then
      match sampleDummyBurst (nClientFake cf) t with
      | (Ok _, t) => (Ok 0, put [cell packetTypeFakeFinish []] t)
      | (Err e, t) => (Err e, t)
      | (Panic w, t) => (Panic w, t)
      end
    else (Ok 0, mkTalk (t_state t) (written t) (signals t ++ [signalReal]))
  else padRealBurst false cf rd deadline t.

Definition serverTalkie (cf : config) (sg : signal) (rd : upstream_read)
    (deadline : option Packet.net_error) (t : talk) : result Packet.error Z * talk :=
  match sg with
  | signalDummy =>
      match sampleDummyBurst (nServerFake cf) t with
      | (Ok _, t) => (Ok 0, put [cell packetTypeFakeFinish []] t)
      | (Err e, t) => (Err e, t)
      | (Panic w, t) => (Panic w, t)
      end
  | signalReal => padRealBurst true cf rd deadline t
  | signalTearDown => (Panic "[Error] Received invalid signal", t)
  end.
End bursts.

(** ** Lemmas *)

Lemma wt_chop_spec fuel : forall b, (length b <= fuel)%nat ->
  concat (chop fuel b) = b
  /\ Forall (fun p => 0 < zlen p <= maxPacketPayloadLength) (chop fuel b).
Proof.
  induction fuel as [|fuel IH]; intros b Hf; cbn [chop].
  - destruct b; [by split|cbn in Hf; lia].
  - destruct b as [|c b]; [by split|].
    assert (Hm : maxPacketPayloadLength = 536) by done.
    destruct (IH (zdrop maxPacketPayloadLength (c :: b))) as [E F].
    + unfold zdrop. rewrite length_drop. cbn [length] in *. lia.
    + cbn [concat]. rewrite E. split; [apply ztake_zdrop|].
      constructor; [|done]. rewrite zlen_ztake, zlen_cons. zlia.
Qed.

(** Every packet of a burst is a full cell of a known type. *)
Definition cell_ok (p : Packet.packet) : Prop :=
  Packet.packet_ok maxPacketPayloadLength p
  /\ zlen (Packet.data p) + Packet.padLen p = maxPacketPayloadLength.

Lemma cell_cell_ok ty d : 0 <= ty < 256 -> zlen d <= maxPacketPayloadLength -> cell_ok (cell ty d).
Proof.
  intros. unfold cell_ok, Packet.packet_ok, cell. cbn [Packet.pktType Packet.data Packet.padLen].
  unfold maxPacketPaddingLength. split_and!; try done; lia.
Qed.

Definition is_finish (p : Packet.packet) : bool :=
  (Packet.pktType p =? packetTypeRealFinish) || (Packet.pktType p =? packetTypeFakeFinish).

(** A list of packets that passes the turn: one finish packet, the last. *)
Definition passes_turn (ps : list Packet.packet) : Prop :=
  exists qs p, ps = qs ++ [p] /\ is_finish p = true /\ Forall (fun q => is_finish q = false) qs.

Section burst_properties.
Context (intn : Z -> Z).
Hypothesis intn_range : forall n, 0 < n -> 0 <= intn n < n.

Lemma sampleDummyBurst_ok n t :
  0 <= n -> exists k, 0 <= k <= n
    /\ sampleDummyBurst intn n t
       = (Ok k, put (replicate (Z.to_nat k) (cell packetTypeDummy [])) t)
    /\ (t_state t = stateStop -> k = 0).
Proof.
  intros Hn. unfold sampleDummyBurst. destruct (decide _) as [Es|Es].
  - exists 0. split_and!; [lia..| |done]. destruct t. unfold put. cbn. by rewrite app_nil_r.
  - unfold Uniform. rewrite leb_false by lia. pose proof (intn_range (n - 0 + 1) ltac:(lia)).
    eexists. split_and!; [| |reflexivity|done]; lia.
Qed.

Definition config_ok (cf : config) : Prop :=
  0 <= nClientReal cf /\ 0 <= nServerReal cf /\ 0 <= nClientFake cf /\ 0 <= nServerFake cf.

(** The cells of a real burst, dummies included. *)
Definition burst (start : bool) (d : bytes) (k : Z) : list Packet.packet :=
  (if start then [cell packetTypeSignalStart []] else [])
  ++ map (cell packetTypePayload) (chop (length d) d)
  ++ replicate (Z.to_nat k) (cell packetTypeDummy []) ++ [cell packetTypeRealFinish []].

(** Does the client enter [stateStart] on this read? *)
Definition starts (isServer : bool) (cur : wstate) (rdLen : Z) : bool :=
  negb isServer && bool_decide (cur <> stateStart) && bool_decide (nextState cur rdLen = stateStart).

Lemma padRealBurst_data b cf d t :
  config_ok cf -> exists k, 0 <= k
    /\ padRealBurst intn b cf (RData d) None t
       = (Ok (zlen d), mkTalk (if b then t_state t else nextState (t_state t) (zlen d))
            (written t ++ burst (starts b (t_state t) (zlen d)) d k) (signals t)).
Proof.
  intros (H1 & H2 & _). unfold padRealBurst, burst, starts.
  set (n := if b then nServerReal cf else nClientReal cf).
  assert (Hn : 0 <= n) by (unfold n; destruct b; lia).
  match goal with |- context [sampleDummyBurst intn n ?u] =>
    destruct (sampleDummyBurst_ok n u Hn) as (k & Hk & -> & _) end.
  exists k. split; [lia|]. destruct b; unfold put; cbn; [by rewrite <- ?app_assoc|].
  destruct (decide (nextState _ _ = _)) as [E|E].
  - rewrite (bool_decide_eq_true_2 (nextState _ _ = _)) by done.
    destruct (decide (t_state t = stateStart)) as [Es|Es].
    + rewrite bool_decide_eq_false_2 by tauto. cbn. by rewrite <- ?app_assoc.
    + rewrite bool_decide_eq_true_2 by done. cbn. by rewrite <- ?app_assoc.
  - rewrite (bool_decide_eq_false_2 (nextState _ _ = _)), andb_false_r by done.
    cbn. by rewrite <- ?app_assoc.
Qed.

Lemma burst_cells start d k : Forall cell_ok (burst start d k).
Proof.
  unfold burst. repeat apply Forall_app_2.
  - destruct start; [|done]. apply Forall_singleton. by apply cell_cell_ok.
  - apply Forall_map. eapply Forall_impl; [apply (wt_chop_spec (length d) d); done|].
    intros p [_ Hp]. by apply cell_cell_ok.
  - apply Forall_replicate. by apply cell_cell_ok.
  - apply Forall_singleton. by apply cell_cell_ok.
Qed.

Lemma burst_passes_turn start d k : passes_turn (burst start d k).
Proof.
  unfold burst. rewrite !app_assoc. eexists _, _. split_and!; [reflexivity|done|].
  rewrite <- app_assoc. repeat apply Forall_app_2.
  - destruct start; [by apply Forall_singleton|done].
  - apply Forall_map, Forall_forall. done.
  - by apply Forall_replicate.
Qed.

Lemma passes_dummies n ty :
  ty = packetTypeRealFinish \/ ty = packetTypeFakeFinish ->
  passes_turn (replicate n (cell packetTypeDummy []) ++ [cell ty []]).
Proof.
  intros Hty. eexists _, _. split_and!; [reflexivity|by destruct Hty as [-> | ->]|].
  by apply Forall_replicate.
Qed.

(** What a finished turn did: it passed the turn to the peer, or (a client that
    skips its fake burst) kept it. *)
Definition turn_taken (t t' : talk) : Prop :=
  (exists ps, written t' = written t ++ ps /\ signals t' = signals t /\ passes_turn ps)
  \/ written t' = written t /\ signals t' = signals t ++ [signalReal].

Lemma dummies_taken n ty t :
  ty = packetTypeRealFinish \/ ty = packetTypeFakeFinish ->
  turn_taken t (put [cell ty []] (put (replicate n (cell packetTypeDummy [])) t)).
Proof.
  intros Hty. left. exists (replicate n (cell packetTypeDummy []) ++ [cell ty []]).
  cbn. rewrite <- app_assoc. split_and!; [done..|]. by apply passes_dummies.
Qed.

Lemma padRealBurst_turn b cf rd dl t :
  config_ok cf ->
  match padRealBurst intn b cf rd dl t with
  | (Ok _, t') => turn_taken t t'
  | (Err _, t') => t' = t
  | (Panic _, _) => False
  end.
Proof.
  intros Hcf. destruct dl as [e|]; [done|]. destruct rd as [d| |e]; [| |done].
  - destruct (padRealBurst_data b cf d t Hcf) as (k & _ & ->). left.
    eexists. split_and!; [reflexivity|done|apply burst_passes_turn].
  - cbn. set (n := if b then nServerFake cf else nClientFake cf).
    assert (Hn : 0 <= n) by (destruct Hcf as (? & ? & ? & ?), b; done).
    destruct (sampleDummyBurst_ok n t Hn) as (k & _ & -> & _).
    apply dummies_taken. by left.
Qed.

(** The half-duplex protocol cannot lose its turn: with non-negative burst
    limits, every call of [clientTalkie] and every call of [serverTalkie] for a
    signal other than tear-down either fails with an error that leaves the
    channels as they were, or queues a burst with exactly one finish packet, its
    last packet, or (the client's skipped fake turn) gives the turn back to the
    client itself; it never panics. *)
Theorem talkie_passes_turn cf turn coin sg rd dl t :
  config_ok cf -> sg <> signalTearDown ->
  (match clientTalkie intn cf turn coin rd dl t with
   | (Ok _, t') => turn_taken t t' | (Err _, t') => t' = t | (Panic _, _) => False end)
  /\ (match serverTalkie intn cf sg rd dl t with
      | (Ok _, t') => turn_taken t t' | (Err _, t') => t' = t | (Panic _, _) => False end).
Proof.
  intros Hcf Hsg. pose proof Hcf as (_ & _ & Hc & Hs). split.
  - unfold clientTalkie. destruct (_ && _); [|by apply padRealBurst_turn].
    destruct coin; [|by right].
    destruct (sampleDummyBurst_ok _ t Hc) as (k & _ & -> & _). apply dummies_taken. by right.
  - unfold serverTalkie. destruct sg; [by apply padRealBurst_turn| |done].
    destruct (sampleDummyBurst_ok _ t Hs) as (k & _ & -> & _). apply dummies_taken. by right.
Qed.

Section delivery.
Context `{SipHash} `{SecretBox} (fuel : nat).

Lemma wt_deliver_payloads ds : forall a, Forall (fun d => 0 < zlen d) ds ->
  Packet.deliver (handle fuel) (map (cell packetTypePayload) ds) (Ok tt) a
  = (Ok tt, mkApp (isServer a) (lenDist a) (state a) (canSendChan a)
              (receiveDecodedBuffer a ++ concat ds)).
Proof.
  induction ds as [|d ds IH]; intros a Hd; cbn [map Packet.deliver concat].
  - destruct a. cbn. by rewrite app_nil_r.
  - apply Forall_cons in Hd as [Hd Hds]. unfold handle at 1. cbn [Packet.pktType cell Packet.data].
    rewrite Z.eqb_refl, ltb_true by done. cbn. rewrite IH by done. cbn. by rewrite <- app_assoc.
Qed.

Lemma deliver_dummies n a :
  Packet.deliver (handle fuel) (replicate n (cell packetTypeDummy [])) (Ok tt) a = (Ok tt, a).
Proof. induction n as [|n IH]; [done|exact IH]. Qed.

(** A real burst arrives: whatever the two sides' states and however much
    dummy traffic the burst is padded with, it is a list of full cells, ends
    with its only finish packet, and the peer's [readPackets] appends exactly
    the bytes read from upstream to its stream and hands the turn to its own
    side with one [signalReal]; a client that has just entered [stateStart]
    takes the server there too. *)
Theorem real_burst_delivered b cf d t n t' a :
  config_ok cf -> isServer a = negb b ->
  padRealBurst intn b cf (RData d) None t = (Ok n, t') ->
  exists ps, written t' = written t ++ ps /\ Forall cell_ok ps /\ passes_turn ps /\ n = zlen d
    /\ Packet.deliver (handle fuel) ps (Ok tt) a
       = (Ok tt, mkApp (isServer a) (lenDist a)
            (if starts b (t_state t) (zlen d) then stateStart else state a)
            (canSendChan a ++ [signalReal]) (receiveDecodedBuffer a ++ d)).
Proof.
  intros Hcf Hsv E. destruct (padRealBurst_data b cf d t Hcf) as (k & _ & E').
  rewrite E' in E. injection E as <- <-. cbn [written].
  set (start := starts b (t_state t) (zlen d)).
  exists (burst start d k).
  split_and!; [done|apply burst_cells|apply burst_passes_turn|done|]. unfold burst.
  assert (Hstart : start = true -> isServer a = true).
  { unfold start, starts. intros Hst. b2p. rewrite Hsv. by destruct b. }
  set (a1 := if start then set_state stateStart a else a).
  rewrite (Packet.deliver_app_ok (handle fuel) _ _ _ _ (Ok tt) a1); [|unfold a1|done].
  2: { destruct start; [|done]. cbn. unfold handle. cbn. rewrite Hstart by done. cbn.
       destruct (decide (state a = stateStart)) as [Es|]; [|done].
       destruct a. cbn in Es. by subst. }
  destruct (wt_chop_spec (length d) d) as [Hc Hp]; [done|].
  erewrite Packet.deliver_app_ok; [|apply wt_deliver_payloads|done].
  2: { eapply Forall_impl; [exact Hp|]. intros x [? _]. done. }
  erewrite Packet.deliver_app_ok; [|apply deliver_dummies|done].
  rewrite Hc. unfold a1. by destruct start.
Qed.
End delivery.
End burst_properties.
End Randomwt.

(** ** Witnesses *)

Section witnesses.
Import ToySip ToyBox Randomwt.
Definition w_cfg : config := mkConfig 4 4 4 4.
Definition w_intn (n : Z) : Z := n / 2.
Lemma w_intn_range n : 0 < n -> 0 <= w_intn n < n.
Proof. intros. unfold w_intn. split; [apply Z.div_pos|apply Z.div_lt]; lia. Qed.
Lemma w_cfg_ok : config_ok w_cfg.
Proof. split_and!; done. Qed.
Definition w_talk : talk := mkTalk stateStartReady [] [].

(** A fake turn of a client whose coin says so: two dummies and a finish. *)
Lemma talkie_passes_turn_witness :
  (clientTalkie w_intn w_cfg 1 true RTimeout None w_talk).2
  = mkTalk stateStartReady
      [cell packetTypeDummy []; cell packetTypeDummy []; cell packetTypeFakeFinish []] []
  /\ match clientTalkie w_intn w_cfg 1 true RTimeout None w_talk with
     | (Ok _, t') => turn_taken w_talk t' | (Err _, t') => t' = w_talk | (Panic _, _) => False end.
Proof.
  split; [vm_compute; reflexivity|].
  exact (proj1 (talkie_passes_turn w_intn w_intn_range w_cfg 1 true signalReal RTimeout None w_talk
    w_cfg_ok ltac:(discriminate))).
Defined.

Definition w_ld : ProbDist.WeightedDist := ProbDist.mkWDist 0 3 false [] [] [] [].
Definition w_peer : app := mkApp true w_ld stateStop [] (str "GET ").
Definition w_out := Eval vm_compute in padRealBurst w_intn false w_cfg (RData (str "/index")) None w_talk.

Lemma real_burst_delivered_witness :
  exists ps, written w_out.2 = ps /\ length ps = 5%nat
    /\ Packet.deliver (handle 9) ps (Ok tt) w_peer
       = (Ok tt, mkApp true w_ld stateStart [signalReal] (str "GET /index")).
Proof.
  assert (E : padRealBurst w_intn false w_cfg (RData (str "/index")) None w_talk
              = (Ok 6, w_out.2)) by (vm_compute; reflexivity).
  destruct (real_burst_delivered w_intn w_intn_range 9 false w_cfg (str "/index") w_talk 6 w_out.2
    w_peer w_cfg_ok eq_refl E) as (ps & Hw & _ & _ & _ & Hd).
  cbn in Hw. exists ps. split; [symmetry; exact (eq_sym Hw)|]. split; [|exact Hd].
  rewrite <- Hw. reflexivity.
Defined.
End witnesses.
