(* ===== verification/Cells.v ===== *)
(** * What the goroutines of the cell transports share

    FRONT, WF-GAN and Regulator run, around a main loop of their own, the same
    goroutines as [transports/defconn]: [Send], which takes packets from
    [SendChan]; the ticker that stops the defense when the throughput is low;
    and the few lines that start it when data comes in.  Here are those parts,
    over any type of packets, with the invariant they keep: the files of the
    transports put them into their machines. *)
From S2P Require Import Prelude GoStd Rand Drbg Framing ProbDist Packet DefConn.

Module Cells.

(** Runs an executable step in the hypothesis [E]: one goal per outcome. *)
Ltac step_cases E :=
  repeat first
    [ progress cbn in E
    | match type of E with
      | None = Some _ => discriminate E
      | Some _ = Some _ => injection E as E
      | context [mbind _ ?x] => destruct x as [?|] eqn:?
      | context [fmap _ ?x] => destruct x as [?|] eqn:?
      | context [match ?x with _ => _ end] => destruct x eqn:?
      end ].
#[export] Existing Instance DefConn.cstate_eq_dec.

(** ** Machines given by an executable step *)

Section runs.
Context {E S : Type} (exec : E -> S -> option S).

Definition does (s s' : S) : Prop := exists ev, exec ev s = Some s'.

Fixpoint runs (evs : list E) (s : S) : option S :=
  match evs with
  | [] => Some s
  | ev :: evs => s' ← exec ev s; runs evs s'
  end.

Lemma runs_rtc evs : forall s s', runs evs s = Some s' -> rtc does s s'.
Proof.
  induction evs as [|ev evs IH]; intros s s'; cbn; [by intros [= <-]|].
  destruct (exec ev s) as [s1|] eqn:E1; cbn; [|done]. intros. eapply rtc_l; [by exists ev|by apply IH].
Qed.

(** A property of all reachable states, by its preservation. *)
Lemma does_invariant (I : S -> Prop) s s' :
  (forall ev s1 s2, I s1 -> exec ev s1 = Some s2 -> I s2) -> I s -> rtc does s s' -> I s'.
Proof. intros Hstep Hi Hr. induction Hr as [|s1 s2 s3 [ev E1] _ IH]; eauto. Qed.

(** One that relates the state to what the events add up to. *)
Lemma runs_sum (f : E -> Z) (I : Z -> S -> Prop) :
  (forall ev k s1 s2, I k s1 -> exec ev s1 = Some s2 -> I (k + f ev) s2) ->
  forall evs k s s', I k s -> runs evs s = Some s' -> I (k + foldr (fun ev acc => f ev + acc) 0 evs) s'.
Proof.
  intros Hstep evs. induction evs as [|ev evs IH]; intros k s s' Hi; cbn [runs foldr].
  - intros [= <-]. by rewrite Z.add_0_r.
  - destruct (exec ev s) as [s1|] eqn:E1; cbn; [|done]. intros Hr. rewrite Z.add_assoc. eapply IH; eauto.
Qed.
End runs.

(** ** The channels and the sender *)

(** Where [Send] is. *)
Inductive sender_pc := SWait | SReport (e : Packet.error) | SDone.

Record io (P : Type) := mkIo {
  sendChan : list P;                  (* capacity 10000 *)
  errChan : list Packet.error;        (* capacity 10 *)
  sender : sender_pc;
  (* history *)
  upstream : bytes;                   (* what [r.Read] returned so far *)
  queued : list P;                    (* what was put on the channel so far *)
  wire : list P                       (* what [Send] wrote so far *)
}.
#[global] Arguments mkIo {P} _ _ _ _ _ _.
#[global] Arguments sendChan {P} _. #[global] Arguments errChan {P} _.
#[global] Arguments sender {P} _. #[global] Arguments upstream {P} _.
#[global] Arguments queued {P} _. #[global] Arguments wire {P} _.

Definition io_init {P} : io P := mkIo [] [] SWait [] [] [].

(** [SendChan <- p] blocks on a full channel, and so does [ErrChan <- e]. *)
Definition enqueue {P} (p : P) (x : io P) : option (io P) :=
  if zlen (sendChan x) <? DefConn.chan_cap then
    Some (mkIo (sendChan x ++ [p]) (errChan x) (sender x) (upstream x) (queued x ++ [p]) (wire x))
  else None.
Definition report {P} (e : Packet.error) (x : io P) : option (io P) :=
  if zlen (errChan x) <? DefConn.err_cap then
    Some (mkIo (sendChan x) (errChan x ++ [e]) (sender x) (upstream x) (queued x) (wire x))
  else None.
(** [<-conn.ErrChan]. *)
Definition take_err {P} (x : io P) : option (Packet.error * io P) :=
  match errChan x with
  | [] => None
  | e :: es => Some (e, mkIo (sendChan x) es (sender x) (upstream x) (queued x) (wire x))
  end.
(** [r.Read] returned [d]. *)
Definition log_read {P} (d : bytes) (x : io P) : io P :=
  mkIo (sendChan x) (errChan x) (sender x) (upstream x ++ d) (queued x) (wire x).

Inductive send_event :=
| SndWrite                        (* a packet is made and written *)
| SndFail (e : Packet.error)      (* making or writing it fails *)
| SndReport                       (* ErrChan <- e, and exit *)
| SndExit.                        (* CloseChan is closed *)

Definition send_step {P} (closed : bool) (ev : send_event) (x : io P) : option (io P) :=
  match ev, sender x, sendChan x with
  | SndWrite, SWait, p :: ps =>
      Some (mkIo ps (errChan x) SWait (upstream x) (queued x) (wire x ++ [p]))
  | SndFail e, SWait, p :: ps =>
      Some (mkIo ps (errChan x) (SReport e) (upstream x) (queued x) (wire x))
  | SndReport, SReport e, _ =>
      x' ← report e x;
      Some (mkIo (sendChan x') (errChan x') SDone (upstream x') (queued x') (wire x'))
  | SndExit, SWait, _ =>
      if closed then Some (mkIo (sendChan x) (errChan x) SDone (upstream x) (queued x) (wire x))
      else None
  | _, _, _ => None
  end.

Section invariant.
Context {P : Type} (payload : P -> bytes) (ok : P -> Prop).

Definition stream_of (ps : list P) : bytes := concat (map payload ps).
#[global] Arguments stream_of : simpl never.

(** [rest] is what was read but not queued: what goroutines hold and what waits
    in the receive buffer, in order.  A packet can be lost only when the sender
    fails on it, and then the sender is over. *)
Record IoInv (rest : bytes) (x : io P) : Prop := {
  io_stream : stream_of (queued x) ++ rest = upstream x;
  io_cells : Forall ok (queued x);
  io_sender : exists lost, queued x = wire x ++ lost ++ sendChan x
                           /\ (length lost <= 1)%nat /\ (sender x = SWait -> lost = [])
}.

Lemma stream_of_app ps qs : stream_of (ps ++ qs) = stream_of ps ++ stream_of qs.
Proof. unfold stream_of. by rewrite map_app, concat_app. Qed.
Lemma stream_of_one p : stream_of [p] = payload p.
Proof. apply app_nil_r. Qed.

Lemma io_enqueue_Some p (x x' : io P) :
  enqueue p x = Some x' ->
  x' = mkIo (sendChan x ++ [p]) (errChan x) (sender x) (upstream x) (queued x ++ [p]) (wire x).
Proof. unfold enqueue. destruct (_ <? _); [by intros [= <-]|done]. Qed.
Lemma report_Some e (x x' : io P) :
  report e x = Some x' ->
  x' = mkIo (sendChan x) (errChan x ++ [e]) (sender x) (upstream x) (queued x) (wire x).
Proof. unfold report. destruct (_ <? _); [by intros [= <-]|done]. Qed.

Lemma IoInv_init : IoInv [] io_init.
Proof. split; cbn; [done|by apply Forall_nil_2|]. exists []. auto with lia. Qed.

Lemma IoInv_enqueue p rest x x' :
  enqueue p x = Some x' -> ok p -> IoInv (payload p ++ rest) x -> IoInv rest x'.
Proof.
  intros ->%io_enqueue_Some Hp [Hs Hc (lost & Hq & Hl & Hi)]. split; cbn.
  - rewrite stream_of_app, stream_of_one, <- app_assoc. done.
  - by apply Forall_app_2; [|apply Forall_singleton].
  - exists lost. by rewrite Hq, <- !app_assoc.
Qed.
Lemma IoInv_enqueue_nil p rest x x' :
  enqueue p x = Some x' -> ok p -> payload p = [] -> IoInv rest x -> IoInv rest x'.
Proof. intros E Hp Hn Hi. eapply IoInv_enqueue; [exact E|done|by rewrite Hn]. Qed.

Lemma IoInv_read d rest x : IoInv rest x -> IoInv (rest ++ d) (log_read d x).
Proof. intros [Hs Hc Hl]. split; cbn; [|done|done]. by rewrite app_assoc, Hs. Qed.

Lemma IoInv_errs rest x es :
  IoInv rest x -> IoInv rest (mkIo (sendChan x) es (sender x) (upstream x) (queued x) (wire x)).
Proof. by intros []. Qed.
Lemma IoInv_report e rest x x' : report e x = Some x' -> IoInv rest x -> IoInv rest x'.
Proof. intros ->%report_Some. apply IoInv_errs. Qed.
Lemma IoInv_take_err e rest x x' : take_err x = Some (e, x') -> IoInv rest x -> IoInv rest x'.
Proof. unfold take_err. destruct (errChan x); [done|]. intros [= <- <-]. apply IoInv_errs. Qed.

Lemma take_err_queued e (x x' : io P) :
  take_err x = Some (e, x') -> queued x' = queued x /\ upstream x' = upstream x.
Proof. unfold take_err. destruct (errChan x); [done|]. by intros [= <- <-]. Qed.
Lemma report_queued e (x x' : io P) :
  report e x = Some x' -> queued x' = queued x /\ upstream x' = upstream x.
Proof. by intros ->%report_Some. Qed.

Lemma IoInv_send closed ev rest x x' :
  send_step closed ev x = Some x' -> IoInv rest x -> IoInv rest x'.
Proof.
  unfold send_step. intros E [Hs Hc (lost & Hq & Hl & Hi)].
  destruct ev, (sender x) eqn:Es; try done.
  - destruct (sendChan x) as [|p ps]; [done|]. injection E as <-. split; cbn; try done.
    rewrite (Hi eq_refl) in Hq. exists []. rewrite Hq, <- app_assoc. auto with lia.
  - destruct (sendChan x) as [|p ps]; [done|]. injection E as <-. split; cbn; try done.
    rewrite (Hi eq_refl) in Hq. exists [p]. by rewrite Hq.
  - destruct (report _ x) as [x1|] eqn:E1; [|done]. injection E as <-.
    apply report_Some in E1 as ->. split; cbn; try done. by exists lost.
  - destruct closed; [|done]. injection E as <-. split; cbn; try done. by exists lost.
Qed.

Lemma send_step_queued closed ev (x x' : io P) :
  send_step closed ev x = Some x' -> queued x' = queued x /\ upstream x' = upstream x.
Proof.
  intros E. unfold send_step in E.
  step_cases E; repeat match goal with H : report _ _ = Some _ |- _ => apply report_Some in H end;
    by subst.
Qed.

(** What is on the wire is a prefix of what was read; while the sender runs,
    nothing is lost. *)
Lemma IoInv_wire rest x :
  IoInv rest x ->
  (exists r, upstream x = stream_of (wire x) ++ r)
  /\ (sender x = SWait ->
      upstream x = stream_of (wire x) ++ stream_of (sendChan x) ++ rest)
  /\ Forall ok (wire x).
Proof.
  intros [Hs Hc (lost & Hq & _ & Hi)]. rewrite <- Hs, Hq in *. split_and!.
  - rewrite stream_of_app, <- app_assoc. eauto.
  - intros ->%Hi. by rewrite stream_of_app, <- app_assoc.
  - by apply Forall_app in Hc as [? _].
Qed.
End invariant.

(** ** The state of the connection and its two counters *)

Record shared := mkShared { state : DefConn.State; sent : Z; rcv : Z }.
Definition shared_init (s : DefConn.State) : shared := mkShared s 0 0.
Definition load (c : shared) : DefConn.cstate := DefConn.curState (state c).
Definition set_state (s : DefConn.cstate) (c : shared) : shared :=
  mkShared (DefConn.SetState s (state c)) (sent c) (rcv c).
Definition inc_sent (c : shared) : shared := mkShared (state c) (u32 (sent c + 1)) (rcv c).
Definition inc_rcv (c : shared) : shared := mkShared (state c) (sent c) (u32 (rcv c + 1)).

(** ** The lines that start the defense when [rdLen] bytes came in *)

Inductive gate_pc :=
| GLoad1 (rdLen : Z)               (* load: StateStop, and rdLen > max? *)
| GLoad2                           (* load: StateReady? *)
| GSetStart                        (* SetState(StateStart) *)
| GSendStart                       (* SendChan <- SignalStart *)
| GElse                            (* else: load: StateStop? *)
| GSetReady                        (* SetState(StateReady) *)
| GStarted | GOver.                (* behind the two branches *)

Section goroutines.
Context {P : Type} (start stop : P).

Definition gate_step (g : gate_pc) (c : shared) (x : io P) : option (gate_pc * shared * io P) :=
  match g with
  | GLoad1 n =>
      Some (if bool_decide (load c = DefConn.StateStop) && (n >? DefConn.MaxPacketPayloadLength)
            then GSetStart else GLoad2, c, x)
  | GLoad2 => Some (if bool_decide (load c = DefConn.StateReady) then GSetStart else GElse, c, x)
  | GSetStart => Some (GSendStart, set_state DefConn.StateStart c, x)
  | GSendStart => x' ← enqueue start x; Some (GStarted, c, x')
  | GElse => Some (if bool_decide (load c = DefConn.StateStop) then GSetReady else GOver, c, x)
  | GSetReady => Some (GOver, set_state DefConn.StateReady c, x)
  | GStarted | GOver => None
  end.

(** ** The ticker *)

Inductive ticker_pc :=
| TWait | TLoad | TCount1 | TCount2 | TSetStop | TSendStop | TStopped
| TResetSent | TResetRcv | TDone.

(** [TStopped] is behind the signal: there FRONT tells its padding goroutine. *)
Definition ticker_step (t : ticker_pc) (c : shared) (x : io P)
  : option (ticker_pc * shared * io P) :=
  match t with
  | TWait | TStopped | TDone => None
  | TLoad => Some (if bool_decide (load c = DefConn.StateStop) then TResetSent else TCount1, c, x)
  | TCount1 => Some (if sent c <? 2 then TSetStop else TCount2, c, x)
  | TCount2 => Some (if rcv c <? 2 then TSetStop else TResetSent, c, x)
  | TSetStop => Some (TSendStop, set_state DefConn.StateStop c, x)
  | TSendStop => x' ← enqueue stop x; Some (TStopped, c, x')
  | TResetSent => Some (TResetRcv, mkShared (state c) 0 (rcv c), x)
  | TResetRcv => Some (TWait, mkShared (state c) (sent c) 0, x)
  end.

Lemma gate_step_cases g c x g' c' x' :
  gate_step g c x = Some (g', c', x') ->
  g' <> GStarted /\ x' = x \/ g = GSendStart /\ g' = GStarted /\ c' = c /\ enqueue start x = Some x'.
Proof.
  intros E. destruct g; step_cases E; simplify_eq;
    solve [left; split; [by repeat case_match|done] | right; by split_and!].
Qed.
(** Both touch the channel only to queue their signal. *)
Lemma gate_step_io g c x g' c' x' :
  gate_step g c x = Some (g', c', x') -> x' = x \/ g = GSendStart /\ enqueue start x = Some x'.
Proof.
  destruct g; cbn; try (intros; simplify_eq; by left).
  destruct (enqueue start x) eqn:E; cbn; [|done]. intros; simplify_eq. by right.
Qed.
Lemma ticker_step_io t c x t' c' x' :
  ticker_step t c x = Some (t', c', x') -> x' = x \/ t = TSendStop /\ enqueue stop x = Some x'.
Proof.
  destruct t; cbn; try (intros; simplify_eq; by left).
  destruct (enqueue stop x) eqn:E; cbn; [|done]. intros; simplify_eq. by right.
Qed.

(** Only a client's ticker leaves the two resets. *)
Definition ticker_ok (b : bool) (t : ticker_pc) : Prop :=
  match t with TWait | TResetSent | TResetRcv | TDone => True | _ => b = false end.

Lemma ticker_step_ok b t c x t' c' x' :
  ticker_step t c x = Some (t', c', x') -> ticker_ok b t -> ticker_ok b t'.
Proof. intros E. destruct t; step_cases E; simplify_eq; done. Qed.

Context (payload : P -> bytes) (ok : P -> Prop).
Lemma IoInv_gate g c x g' c' x' rest :
  gate_step g c x = Some (g', c', x') -> ok start -> payload start = [] ->
  IoInv payload ok rest x -> IoInv payload ok rest x'.
Proof. intros [->|[_ E]]%gate_step_io Hok Hp; [done|]. by eapply IoInv_enqueue_nil. Qed.
Lemma IoInv_ticker b t c x t' c' x' rest :
  ticker_step t c x = Some (t', c', x') -> ticker_ok b t -> (b = false -> ok stop) ->
  payload stop = [] -> IoInv payload ok rest x -> IoInv payload ok rest x'.
Proof.
  intros [->|[-> E]]%ticker_step_io Ht Hok Hp; [done|].
  eapply IoInv_enqueue_nil; [exact E|by apply Hok|done].
Qed.
End goroutines.

(** ** Counting packets *)

Definition count {P} (f : P -> bool) (ps : list P) : Z := zlen (filter (fun p => f p) ps).
#[global] Arguments count : simpl never.
Lemma count_app {P} (f : P -> bool) ps qs : count f (ps ++ qs) = count f ps + count f qs.
Proof. unfold count. by rewrite filter_app, zlen_app. Qed.
Lemma count_one {P} (f : P -> bool) p : count f [p] = if f p then 1 else 0.
Proof. unfold count. rewrite filter_cons. by destruct (f p), (decide _). Qed.
Lemma count_nil {P} (f : P -> bool) : count f [] = 0.
Proof. done. Qed.
Lemma count_nonneg {P} (f : P -> bool) ps : 0 <= count f ps.
Proof. apply zlen_nonneg. Qed.

(** ** The packets of [transports/defconn] *)

Definition of_type (ty : Z) (p : Packet.packet) : bool := Packet.pktType p =? ty.

(** The payload of a packet, as [DefConn.payload_of] concatenates it. *)
Definition packet_payload (p : Packet.packet) : bytes :=
  if Packet.pktType p =? DefConn.PacketTypePayload then Packet.data p else [].
Lemma stream_of_packets ps : stream_of packet_payload ps = DefConn.payload_of ps.
Proof. done. Qed.

(** A cell is full and its type is one byte. *)
Definition full_cell (p : Packet.packet) : Prop :=
  Packet.packet_ok DefConn.MaxPacketPayloadLength p
  /\ zlen (Packet.data p) + Packet.padLen p = DefConn.MaxPacketPayloadLength.

Lemma full_cell_cell ty d :
  0 <= ty < 256 -> zlen d <= DefConn.MaxPacketPayloadLength -> full_cell (DefConn.cell ty d).
Proof.
  intros. unfold full_cell, Packet.packet_ok, DefConn.cell, DefConn.MaxPacketPaddingLength.
  cbn [Packet.pktType Packet.data Packet.padLen]. split_and!; lia.
Qed.

(** A full cell: payload, dummy or (a client's) signal. *)
Definition any_cell (isServer : bool) (p : Packet.packet) : Prop :=
  Packet.packet_ok DefConn.MaxPacketPayloadLength p
  /\ zlen (Packet.data p) + Packet.padLen p = DefConn.MaxPacketPayloadLength
  /\ (Packet.pktType p = DefConn.PacketTypePayload
      \/ Packet.data p = []
         /\ (Packet.pktType p = DefConn.PacketTypeDummy
             \/ isServer = false
                /\ (Packet.pktType p = DefConn.PacketTypeSignalStart
                    \/ Packet.pktType p = DefConn.PacketTypeSignalStop))).

Section delivery.
Context `{SipHashLaws} `{SecretBoxLaws}.
Import DefConn.

Lemma tam_handle_cell fuel p r a :
  any_cell (negb (IsServer a)) p ->
  exists a', handle fuel (Packet.pktType p) (Packet.data p) r a = (Ok tt, a')
             /\ received [p] a a'.
Proof.
  intros (Hok & Hl & [Ht|(Hd & [Ht|(Hs & Ht)])]).
  - apply DefConn.handle_cell. unfold DefConn.cell_ok. auto.
  - exists a. unfold handle. rewrite Ht. split; [done|].
    split; rewrite ?payload_of_one, ?n_payload_one, ?Ht; cbn;
      rewrite ?app_nil_r, ?Z.add_0_r; try done.
    unfold last_signal, signal_of. cbn. by rewrite Ht.
  - apply DefConn.handle_cell. unfold DefConn.cell_ok. tauto.
Qed.

Lemma tam_deliver_cells fuel ps : forall a,
  Forall (any_cell (negb (IsServer a))) ps ->
  exists a', Packet.deliver (handle fuel) ps (Ok tt) a = (Ok tt, a') /\ received ps a a'.
Proof.
  induction ps as [|p ps IH]; intros a Hc; cbn [Packet.deliver].
  { exists a. split; [done|]. split; try done.
    - unfold payload_of. cbn. by rewrite app_nil_r.
    - unfold n_payload. cbn. by rewrite Z.add_0_r. }
  apply Forall_cons in Hc as [Hp Hc].
  destruct (tam_handle_cell fuel p (zrepeat (Packet.padLen p) Byte.x00) a Hp) as (a1 & -> & R1).
  destruct (IH a1) as (a2 & -> & K2); [by rewrite (rcv_role _ _ _ R1)|].
  exists a2. split; [done|]. by eapply received_cons.
Qed.

(** A handler that does to a part of its state what [DefConn.handle] does. *)
Lemma deliver_proj {A} (h : Packet.handler A) (proj : A -> app) fuel :
  (forall t p r a, (h t p r a).1 = (handle fuel t p r (proj a)).1
                   /\ proj (h t p r a).2 = (handle fuel t p r (proj a)).2) ->
  forall ps err a,
    (Packet.deliver h ps err a).1 = (Packet.deliver (handle fuel) ps err (proj a)).1
    /\ proj (Packet.deliver h ps err a).2 = (Packet.deliver (handle fuel) ps err (proj a)).2.
Proof.
  intros Hh. induction ps as [|p ps IH]; intros err a; cbn [Packet.deliver]; [done|].
  destruct (Hh (Packet.pktType p) (Packet.data p) (zrepeat (Packet.padLen p) Byte.x00) a) as [E1 E2].
  destruct (h _ _ _ a) as [r a1], (handle fuel _ _ _ _) as [r' a1']. cbn in E1, E2. subst.
  destruct r'; [apply IH|apply IH|done].
Qed.
End delivery.
End Cells.
