(* ===== verification/Tamaraw.v ===== *)
(** * The Tamaraw defense: [transports/tamaraw]

    The goroutines of [tamarawConn.ReadFrom]: the main loop that buffers the
    upstream, the scheduler that sends one cell per tick of a timer of period
    [rho], the ticker that watches the throughput, and the sender.  Packets and
    handlers are those of defconn ([tamarawConn] embeds [DefConn] and does not
    redefine [Read] or [Send]).  Every load, store and channel operation is a
    step; the two halves of [written += n], which both the main loop and the
    scheduler run without synchronisation, are two steps. *)
From S2P Require Import Prelude GoStd Rand Drbg Framing ProbDist Packet DefConn Cells.

Module Tamaraw.
Import DefConn.

(** [time.Duration(conn.rho * 1e6)], from milliseconds. *)
Definition duration (rho : Z) : Z := i64 (rho * 1000000).

Inductive main_pc :=
| MSelect                          (* at the [select] *)
| MRead                            (* in [r.Read] *)
| MWrite (d : bytes)               (* receiveBuf.Write(buf[:rdLen]) *)
| MLoad (n : Z)                    (* written += n: load *)
| MStore (v : Z)                   (* written += n: store *)
| MDone (err : Packet.error).      (* returned, CloseChan is closed *)

(** The scheduler; [ty] and [d] are its variables [pktType] and [data]. *)
Inductive sched_pc :=
| KStart                           (* time.NewTicker(rho) *)
| KWait                            (* at the [select] *)
| KLen                             (* receiveBuf.GetLen() > 0? *)
| KRead                            (* receiveBuf.Read(payload) *)
| KLoadW (d : bytes) (eof : bool)  (* written += rdLen: load *)
| KStoreW (d : bytes) (eof : bool) (v : Z)
| KReadErr                         (* ErrChan <- rdErr *)
| KInc (d : bytes)                 (* NRealSegSentIncrement *)
| KGate (ty : Z) (d : bytes)       (* load: skip a dummy? *)
| KAdd (ty : Z) (d : bytes)        (* AddUint32(&curNSeg, 1) *)
| KState (ty : Z) (d : bytes)      (* load: which transition? *)
| KSetReady (ty : Z) (d : bytes) | KSetStart (ty : Z) (d : bytes)
| KSendStart (ty : Z) (d : bytes)  (* SendChan <- SignalStart *)
| KMod (ty : Z) (d : bytes)        (* int(curNSeg) % conn.nSeg == 0? *)
| KSetStop (ty : Z) (d : bytes)
| KSendStop (ty : Z) (d : bytes)   (* SendChan <- SignalStop *)
| KZero (ty : Z) (d : bytes)       (* StoreUint32(&curNSeg, 0) *)
| KSend (ty : Z) (d : bytes)       (* SendChan <- the cell *)
| KDone
| KPanic (w : String.string) (ty : Z) (d : bytes). (* the process has crashed *)

Inductive ticker_pc :=
| TWait
| TLoad                            (* curState := LoadCurState() *)
| TSent (c : cstate)               (* NRealSegSentLoad() < 2? *)
| TRcv (c : cstate)                (* NRealSegRcvLoad() < 2? *)
| TSetStop | TSetPadding
| TResetSent | TResetRcv | TDone.

Record st := mkSt {
  server : bool;
  nSeg : Z; rho : Z;
  state : State;
  sent : Z; rcv : Z; curNSeg : Z;     (* uint32 *)
  sendChan : list Packet.packet;      (* capacity 10000 *)
  errChan : list Packet.error;        (* capacity 10 *)
  receiveBuf : bytes;
  written : Z;
  main : main_pc; sched : sched_pc; ticker : ticker_pc; sender : sender_pc;
  (* history *)
  upstream : bytes;                   (* what [r.Read] returned so far *)
  queued : list Packet.packet;        (* what was put on SendChan so far *)
  wire : list Packet.packet           (* what the sender wrote so far *)
}.

Definition init (isServer : bool) (nSeg rhoMs : Z) (s : State) : st :=
  mkSt isServer nSeg (duration rhoMs) s 0 0 0 [] [] [] 0 MSelect KStart TWait SWait [] [] [].

Definition set_main m s := mkSt (server s) (nSeg s) (rho s) (state s) (sent s) (rcv s)
  (curNSeg s) (sendChan s) (errChan s) (receiveBuf s) (written s) m (sched s) (ticker s)
  (sender s) (upstream s) (queued s) (wire s).
Definition set_sched k s := mkSt (server s) (nSeg s) (rho s) (state s) (sent s) (rcv s)
  (curNSeg s) (sendChan s) (errChan s) (receiveBuf s) (written s) (main s) k (ticker s)
  (sender s) (upstream s) (queued s) (wire s).
Definition set_ticker t s := mkSt (server s) (nSeg s) (rho s) (state s) (sent s) (rcv s)
  (curNSeg s) (sendChan s) (errChan s) (receiveBuf s) (written s) (main s) (sched s) t
  (sender s) (upstream s) (queued s) (wire s).
Definition set_state x s := mkSt (server s) (nSeg s) (rho s) x (sent s) (rcv s)
  (curNSeg s) (sendChan s) (errChan s) (receiveBuf s) (written s) (main s) (sched s) (ticker s)
  (sender s) (upstream s) (queued s) (wire s).
Definition set_counts a b c s := mkSt (server s) (nSeg s) (rho s) (state s) a b c
  (sendChan s) (errChan s) (receiveBuf s) (written s) (main s) (sched s) (ticker s)
  (sender s) (upstream s) (queued s) (wire s).
Definition set_written v s := mkSt (server s) (nSeg s) (rho s) (state s) (sent s) (rcv s)
  (curNSeg s) (sendChan s) (errChan s) (receiveBuf s) v (main s) (sched s) (ticker s)
  (sender s) (upstream s) (queued s) (wire s).
Definition set_buf b s := mkSt (server s) (nSeg s) (rho s) (state s) (sent s) (rcv s)
  (curNSeg s) (sendChan s) (errChan s) b (written s) (main s) (sched s) (ticker s)
  (sender s) (upstream s) (queued s) (wire s).
Definition set_sender c e x w s := mkSt (server s) (nSeg s) (rho s) (state s) (sent s) (rcv s)
  (curNSeg s) c e (receiveBuf s) (written s) (main s) (sched s) (ticker s) x (upstream s)
  (queued s) w.

(** [receiveBuf.Write(d)]. *)
Definition buffer_write (d : bytes) (s : st) : st :=
  mkSt (server s) (nSeg s) (rho s) (state s) (sent s) (rcv s) (curNSeg s) (sendChan s)
    (errChan s) (receiveBuf s ++ d) (written s) (main s) (sched s) (ticker s) (sender s)
    (upstream s) (queued s) (wire s).
Definition log_read (d : bytes) (s : st) : st :=
  mkSt (server s) (nSeg s) (rho s) (state s) (sent s) (rcv s) (curNSeg s) (sendChan s)
    (errChan s) (receiveBuf s) (written s) (main s) (sched s) (ticker s) (sender s)
    (upstream s ++ d) (queued s) (wire s).

(** [SendChan <- p] and [ErrChan <- e]: both block on a full channel. *)
Definition enqueue (p : Packet.packet) (s : st) : option st :=
  if zlen (sendChan s) <? chan_cap then
    Some (mkSt (server s) (nSeg s) (rho s) (state s) (sent s) (rcv s) (curNSeg s)
            (sendChan s ++ [p]) (errChan s) (receiveBuf s) (written s) (main s) (sched s)
            (ticker s) (sender s) (upstream s) (queued s ++ [p]) (wire s))
  else None.
Definition report (e : Packet.error) (s : st) : option st :=
  if zlen (errChan s) <? err_cap
  then Some (set_sender (sendChan s) (errChan s ++ [e]) (sender s) (wire s) s) else None.

Inductive event :=
| EvRead (data : bytes)             (* [r.Read] returns data *)
| EvReadErr (e : Packet.error)      (* [r.Read] fails *)
| EvMain                            (* the main loop makes a step *)
| EvRho                             (* the scheduler's timer fires *)
| EvSched                           (* the scheduler makes a step *)
| EvTick                            (* the ticker fires *)
| EvTicker                          (* the ticker goroutine makes a step *)
| EvSend                            (* the sender writes a packet *)
| EvSendErr (e : Packet.error)      (* the sender fails on a packet *)
| EvReport                          (* the sender puts its error on ErrChan *)
| EvCloseSender | EvCloseSched | EvCloseTicker (* a goroutine sees CloseChan closed *)
| EvRecv                            (* [ReadPackets] counts a payload packet *)
| EvSignal (start : bool).          (* a server's [ReadPackets], the only writer of
                                       its state, gets a signal *)

Definition main_step (s : st) : option st :=
  match main s with
  | MSelect =>
      match errChan s with
      | e :: es => Some (set_main (MDone e) (set_sender (sendChan s) es (sender s) (wire s) s))
      | [] => Some (set_main MRead s)
      end
  | MRead | MDone _ => None
  | MWrite d => Some (set_main (MLoad (zlen d)) (buffer_write d s))
  | MLoad n => Some (set_main (MStore (written s + n)) s)
  | MStore v => Some (set_main MSelect (set_written v s))
  end.

Definition is_on (c : cstate) : bool :=
  match c with StateStop | StateReady => false | StateStart | StatePadding => true end.

Definition sched_step (s : st) : option st :=
  match sched s with
  | KStart =>
      Some (set_sched (if rho s <=? 0 then KPanic "non-positive interval for NewTicker" 0 []
                       else KWait) s)
  | KWait | KDone | KPanic _ _ _ => None
  | KLen =>
      Some (set_sched (if 0 <? zlen (receiveBuf s) then KRead else KGate PacketTypeDummy []) s)
  | KRead =>
      let p := ztake MaxPacketPayloadLength (receiveBuf s) in
      Some (set_sched (KLoadW p (zlen (receiveBuf s) =? 0))
              (set_buf (zdrop MaxPacketPayloadLength (receiveBuf s)) s))
  | KLoadW p eof => Some (set_sched (KStoreW p eof (written s + zlen p)) s)
  | KStoreW p eof v => Some (set_sched (if eof then KReadErr else KInc p) (set_written v s))
  | KReadErr => set_sched (KInc []) <$> report (Packet.NetError Packet.EOF) s
  | KInc p =>
      Some (set_sched (KGate PacketTypePayload p)
              (set_counts (u32 (sent s + 1)) (rcv s) (curNSeg s) s))
  | KGate ty d =>
      if negb (is_on (curState (state s))) && (ty =? PacketTypeDummy)
      then Some (set_sched KWait s)
      else Some (set_sched (KAdd ty d) s)
  | KAdd ty d =>
      Some (set_sched (if server s then KSend ty d else KState ty d)
              (set_counts (sent s) (rcv s) (u32 (curNSeg s + 1)) s))
  | KState ty d =>
      Some (set_sched
        (match curState (state s) with
         | StateStop => if ty =? PacketTypePayload then KSetReady ty d else KSend ty d
         | StateReady => if ty =? PacketTypePayload then KSetStart ty d else KSend ty d
         | StatePadding => KMod ty d
         | StateStart => KSend ty d
         end) s)
  | KSetReady ty d => Some (set_sched (KSend ty d) (set_state (SetState StateReady (state s)) s))
  | KSetStart ty d =>
      Some (set_sched (KSendStart ty d) (set_state (SetState StateStart (state s)) s))
  | KSendStart ty d => set_sched (KSend ty d) <$> enqueue (cell PacketTypeSignalStart []) s
  | KMod ty d =>
      Some (set_sched
        (if nSeg s =? 0 then KPanic "integer divide by zero" ty d
         else if Z.rem (curNSeg s) (nSeg s) =? 0 then KSetStop ty d else KSend ty d) s)
  | KSetStop ty d =>
      Some (set_sched (KSendStop ty d) (set_state (SetState StateStop (state s)) s))
  | KSendStop ty d => set_sched (KZero ty d) <$> enqueue (cell PacketTypeSignalStop []) s
  | KZero ty d => Some (set_sched (KSend ty d) (set_counts (sent s) (rcv s) 0 s))
  | KSend ty d => set_sched KWait <$> enqueue (cell ty d) s
  end.

Definition slow (c : cstate) : ticker_pc :=
  match c with StateReady => TSetStop | StateStart => TSetPadding | _ => TResetSent end.

Definition ticker_step (s : st) : option st :=
  match ticker s with
  | TWait | TDone => None
  | TLoad =>
      let c := curState (state s) in
      Some (set_ticker (if server s || bool_decide (c = StateStop) then TResetSent else TSent c) s)
  | TSent c => Some (set_ticker (if sent s <? 2 then slow c else TRcv c) s)
  | TRcv c => Some (set_ticker (if rcv s <? 2 then slow c else TResetSent) s)
  | TSetStop => Some (set_ticker TResetSent (set_state (SetState StateStop (state s)) s))
  | TSetPadding => Some (set_ticker TResetSent (set_state (SetState StatePadding (state s)) s))
  | TResetSent => Some (set_ticker TResetRcv (set_counts 0 (rcv s) (curNSeg s) s))
  | TResetRcv => Some (set_ticker TWait (set_counts (sent s) 0 (curNSeg s) s))
  end.

Definition sender_step (ev : event) (s : st) : option st :=
  match ev, sender s, sendChan s with
  | EvSend, SWait, p :: ps => Some (set_sender ps (errChan s) SWait (wire s ++ [p]) s)
  | EvSendErr e, SWait, p :: ps => Some (set_sender ps (errChan s) (SReport e) (wire s) s)
  | EvReport, SReport e, c =>
      s ← report e s; Some (set_sender c (errChan s) SDone (wire s) s)
  | EvCloseSender, SWait, c =>
      match main s with
      | MDone _ => Some (set_sender c (errChan s) SDone (wire s) s)
      | _ => None
      end
  | _, _, _ => None
  end.

Definition exec_event (ev : event) (s : st) : option st :=
  match ev with
  | EvRead data =>
      match main s with
      | MRead =>
          if zlen data >? 65535 then None
          else if zlen data =? 0 then Some (set_main (MDone (Packet.NetError Packet.EOF)) s)
          else Some (set_main (MWrite data) (log_read data s))
      | _ => None
      end
  | EvReadErr e => match main s with MRead => Some (set_main (MDone e) s) | _ => None end
  | EvMain => main_step s
  | EvRho => match sched s with KWait => Some (set_sched KLen s) | _ => None end
  | EvSched => sched_step s
  | EvTick => match ticker s with TWait => Some (set_ticker TLoad s) | _ => None end
  | EvTicker => ticker_step s
  | EvCloseSched =>
      match main s, sched s with MDone _, KWait => Some (set_sched KDone s) | _, _ => None end
  | EvCloseTicker =>
      match main s, ticker s with MDone _, TWait => Some (set_ticker TDone s) | _, _ => None end
  | EvRecv => Some (set_counts (sent s) (u32 (rcv s + 1)) (curNSeg s) s)
  | EvSignal start =>
      let target := if start then StateStart else StateStop in
      if server s then
        Some (if decide (curState (state s) = target) then s
              else set_state (SetState target (state s)) s)
      else None
  | EvSend | EvSendErr _ | EvReport | EvCloseSender => sender_step ev s
  end.

Definition crashed (s : st) : bool := match sched s with KPanic _ _ _ => true | _ => false end.

Definition exec (ev : event) (s : st) : option st :=
  if crashed s then None else exec_event ev s.

Definition step (s s' : st) : Prop := exists ev, exec ev s = Some s'.

Fixpoint exec_all (evs : list event) (s : st) : option st :=
  match evs with
  | [] => Some s
  | ev :: evs => s' ← exec ev s; exec_all evs s'
  end.

(** ** Invariants of every interleaving *)

(** The bytes the main loop and the scheduler hold. *)
Definition main_hand (m : main_pc) : bytes := match m with MWrite d => d | _ => [] end.
Definition sched_hand (k : sched_pc) : bytes :=
  match k with
  | KLoadW d _ | KStoreW d _ _ | KInc d => d
  | KGate ty d | KAdd ty d | KState ty d | KSetReady ty d | KSetStart ty d | KSendStart ty d
  | KMod ty d | KSetStop ty d | KSendStop ty d | KZero ty d | KSend ty d | KPanic _ ty d =>
      if ty =? PacketTypePayload then d else []
  | KStart | KWait | KLen | KRead | KReadErr | KDone => []
  end.

(** What the scheduler is about to send. *)
Definition to_send (ty : Z) (d : bytes) : Prop :=
  zlen d <= MaxPacketPayloadLength
  /\ (ty = PacketTypePayload \/ ty = PacketTypeDummy /\ d = []).

(** What holds at the program points of the scheduler. *)
Definition pc_ok (isServer : bool) (k : sched_pc) (b : bytes) : Prop :=
  match k with
  | KStart | KWait | KLen | KDone | KPanic _ _ _ => True
  | KRead => 0 < zlen b
  | KLoadW d eof | KStoreW d eof _ => zlen d <= MaxPacketPayloadLength /\ eof = false
  | KReadErr => False
  | KInc d => zlen d <= MaxPacketPayloadLength
  | KGate ty d | KAdd ty d | KSend ty d => to_send ty d
  | KState ty d | KSetReady ty d | KSetStart ty d | KSendStart ty d
  | KMod ty d | KSetStop ty d | KSendStop ty d | KZero ty d => to_send ty d /\ isServer = false
  end.

Record Inv (s : st) : Prop := {
  inv_stream : payload_of (queued s) ++ sched_hand (sched s) ++ receiveBuf s
               ++ main_hand (main s) = upstream s;
  inv_cells : Forall (Cells.any_cell (server s)) (queued s);
  inv_pc : pc_ok (server s) (sched s) (receiveBuf s);
  inv_sender : exists lost, queued s = wire s ++ lost ++ sendChan s
                            /\ (length lost <= 1)%nat /\ (sender s = SWait -> lost = [])
}.

Lemma tam_init_Inv b n r x : Inv (init b n r x).
Proof. split; cbn; [done|by apply Forall_nil_2|done|]. exists []. cbn. auto with lia. Qed.

Lemma to_send_cell b ty d : to_send ty d -> Cells.any_cell b (cell ty d).
Proof.
  intros [Hd Ht]. unfold Cells.any_cell, Packet.packet_ok, cell. cbn [Packet.pktType Packet.data Packet.padLen].
  unfold MaxPacketPaddingLength.
  assert (0 <= ty < 256) by (destruct Ht as [-> | [-> _]]; done).
  split_and!; try lia. destruct Ht as [-> | [-> ->]]; auto.
Qed.

Lemma signal_cell ty :
  ty = PacketTypeSignalStart \/ ty = PacketTypeSignalStop -> Cells.any_cell false (cell ty []).
Proof. intros [-> | ->]; (split_and!; try done); right; cbn; auto. Qed.

Lemma tam_enqueue_Some p s s' :
  enqueue p s = Some s' ->
  s' = mkSt (server s) (nSeg s) (rho s) (state s) (sent s) (rcv s) (curNSeg s)
         (sendChan s ++ [p]) (errChan s) (receiveBuf s) (written s) (main s) (sched s)
         (ticker s) (sender s) (upstream s) (queued s ++ [p]) (wire s).
Proof. unfold enqueue. destruct (_ <? _); [by intros [= <-]|done]. Qed.

(** Steps of the scheduler that touch only its own data. *)
Lemma tam_Inv_local s s' :
  Inv s -> server s' = server s -> sender s' = sender s -> sendChan s' = sendChan s ->
  upstream s' = upstream s -> queued s' = queued s -> wire s' = wire s ->
  sched_hand (sched s') ++ receiveBuf s' ++ main_hand (main s')
  = sched_hand (sched s) ++ receiveBuf s ++ main_hand (main s) ->
  pc_ok (server s) (sched s') (receiveBuf s') -> Inv s'.
Proof.
  intros [Hst Hc Hp Hse] E1 E2 E3 E4 E5 E6 E7 Hp'.
  split; rewrite ?E1, ?E2, ?E3, ?E4, ?E5, ?E6, ?E7; done.
Qed.

(** Queueing a cell: the scheduler's own, or a signal. *)
Lemma Inv_enqueue p s s1 k :
  Inv s -> enqueue p s = Some s1 -> Cells.any_cell (server s) p ->
  payload_of [p] ++ sched_hand k = sched_hand (sched s) ->
  pc_ok (server s) k (receiveBuf s) -> Inv (set_sched k s1).
Proof.
  intros [Hst Hc Hp (lost & Hq & Hl & Hs)] E Hcell Hh Hk. apply tam_enqueue_Some in E as ->.
  split; cbn; try done.
  - rewrite payload_of_app, <- Hst, <- Hh, <- !app_assoc. done.
  - apply Forall_app. split; [done|by apply Forall_singleton].
  - exists lost. rewrite Hq, <- !app_assoc. done.
Qed.

Lemma payload_of_signal ty :
  ty <> PacketTypePayload -> payload_of [cell ty []] = [].
Proof. intros Ht. by rewrite payload_of_one; cbn; rewrite eqb_false. Qed.
Lemma payload_of_cell ty d :
  to_send ty d -> payload_of [cell ty d] = if ty =? PacketTypePayload then d else [].
Proof. intros _. by rewrite payload_of_one. Qed.

Ltac sched_local Hi :=
  intros; simplify_eq; eapply (tam_Inv_local _ _ Hi); cbn;
  repeat match goal with E : sched _ = _ |- _ => rewrite E in * end; cbn in *; try done.

Lemma sched_step_Inv s s' : Inv s -> sched_step s = Some s' -> Inv s'.
Proof.
  intros Hi. pose proof Hi as [_ _ Hp _]. unfold sched_step.
  destruct (sched s) eqn:Ek; cbn in Hp; try done.
  - destruct (rho s <=? 0); sched_local Hi.
  - destruct (0 <? _) eqn:E; b2p; sched_local Hi. split; [done|by right].
  - sched_local Hi.
    + by rewrite app_assoc, ztake_zdrop.
    + rewrite zlen_ztake. split; [unfold MaxPacketPayloadLength; lia|]. apply Z.eqb_neq. lia.
  - sched_local Hi.
  - destruct Hp as [Hp ->]. sched_local Hi.
  - sched_local Hi. split; [done|by left].
  - destruct (_ && _) eqn:E; b2p; sched_local Hi.
  - destruct (server s) eqn:Es; sched_local Hi.
  - destruct Hp as [Hp Hs]. destruct (curState _); repeat case_match; sched_local Hi.
  - destruct Hp as [Hp Hs]. sched_local Hi.
  - destruct Hp as [Hp Hs]. sched_local Hi.
  - destruct Hp as [Hp Hs]. destruct (enqueue _ s) as [s1|] eqn:E; cbn; [|done]. intros [= <-].
    eapply Inv_enqueue; [done|exact E| | |done].
    + rewrite Hs. apply signal_cell. by left.
    + by rewrite payload_of_signal, Ek.
  - destruct Hp as [Hp Hs]. repeat case_match; sched_local Hi.
  - destruct Hp as [Hp Hs]. sched_local Hi.
  - destruct Hp as [Hp Hs]. destruct (enqueue _ s) as [s1|] eqn:E; cbn; [|done]. intros [= <-].
    eapply Inv_enqueue; [done|exact E| | |done].
    + rewrite Hs. apply signal_cell. by right.
    + by rewrite payload_of_signal, Ek.
  - destruct Hp as [Hp Hs]. sched_local Hi.
  - destruct (enqueue _ s) as [s1|] eqn:E; cbn; [|done]. intros [= <-].
    eapply Inv_enqueue; [done|exact E|by apply to_send_cell| |done].
    by rewrite payload_of_cell, Ek, app_nil_r.
Qed.

Ltac other_local Hi :=
  intros; simplify_eq; eapply (tam_Inv_local _ _ Hi); cbn;
  repeat match goal with E : main _ = _ |- _ => rewrite E in * end; cbn in *;
  try first [done | exact (inv_pc _ Hi)].

Lemma tam_main_step_Inv s s' : Inv s -> main_step s = Some s' -> Inv s'.
Proof.
  intros Hi. pose proof Hi as [_ _ Hp _]. unfold main_step.
  destruct (main s) eqn:Em; try done.
  - destruct (errChan s); other_local Hi.
  - other_local Hi.
    + by rewrite app_nil_r.
    + destruct (sched s); try done. cbn in *. rewrite zlen_app. zlia.
  - other_local Hi.
  - other_local Hi.
Qed.

Lemma sender_step_Inv ev s s' : Inv s -> sender_step ev s = Some s' -> Inv s'.
Proof.
  intros [Hst Hc Hp (lost & Hq & Hl & Hs)].
  destruct ev; cbn; try done.
  - destruct (sender s); try done. destruct (sendChan s) as [|p ps] eqn:Ec; [done|].
    intros [= <-]. split; cbn; try done. rewrite (Hs eq_refl) in Hq.
    exists []. rewrite Hq, <- app_assoc. cbn. auto with lia.
  - destruct (sender s); try done. destruct (sendChan s) as [|p ps] eqn:Ec; [done|].
    intros [= <-]. split; cbn; try done. rewrite (Hs eq_refl) in Hq.
    exists [p]. rewrite Hq. by split_and!.
  - destruct (sender s); try done. unfold report. destruct (_ <? _); [|done]. cbn.
    intros [= <-]. split; cbn; try done. by exists lost.
  - destruct (sender s); try done. destruct (main s) eqn:Em; try done.
    intros [= <-]. split; cbn; rewrite ?Em in *; try done. by exists lost.
Qed.

Lemma read_Inv data s : Inv s -> main s = MRead -> Inv (set_main (MWrite data) (log_read data s)).
Proof.
  intros [Hst Hc Hp Hse] Em. split; cbn; try done.
  rewrite <- Hst, Em. cbn. rewrite app_nil_r, <- !app_assoc. done.
Qed.

Lemma tam_exec_Inv ev s s' : Inv s -> exec ev s = Some s' -> Inv s'.
Proof.
  intros Hi. unfold exec. destruct (crashed s); [done|]. destruct ev; cbn [exec_event];
    try solve [by apply tam_main_step_Inv | by apply sched_step_Inv | by apply sender_step_Inv].
  - destruct (main s) eqn:Em; try done. destruct (_ >? _); [done|].
    destruct (zlen data =? 0); [other_local Hi|]. intros [= <-]. by apply read_Inv.
  - destruct (main s) eqn:Em; try done. other_local Hi.
  - destruct (sched s) eqn:Ek; try done. sched_local Hi.
  - destruct (ticker s); try done. other_local Hi.
  - unfold ticker_step. destruct (ticker s); other_local Hi.
  - destruct (main s) eqn:Em; try done. destruct (sched s) eqn:Ek; try done. sched_local Hi.
  - destruct (main s) eqn:Em; try done. destruct (ticker s) eqn:Et; try done. other_local Hi.
  - other_local Hi.
  - destruct (server s) eqn:Es; [|done]. destruct (decide _); intros [= <-]; [done|].
    by apply (tam_Inv_local _ _ Hi); rewrite <- ?Es; try exact (inv_pc _ Hi).
Qed.

Lemma tam_reachable_Inv b n r x s : rtc step (init b n r x) s -> Inv s.
Proof.
  intros Hr. eapply (rtc_invariant step Inv); [|exact Hr|apply tam_init_Inv].
  intros s1 s2 [ev E] Hi. by eapply tam_exec_Inv.
Qed.

(** ** Counting cells *)

(** Payload and dummies: what the scheduler sends at its ticks. *)
Definition is_cell (p : Packet.packet) : bool :=
  (Packet.pktType p =? PacketTypePayload) || (Packet.pktType p =? PacketTypeDummy).
Definition n_cells (ps : list Packet.packet) : Z := zlen (filter (fun p => is_cell p) ps).

#[global] Arguments n_cells : simpl never.

Lemma n_cells_app ps qs : n_cells (ps ++ qs) = n_cells ps + n_cells qs.
Proof. unfold n_cells. by rewrite filter_app, zlen_app. Qed.
Lemma n_cells_nonneg ps : 0 <= n_cells ps.
Proof. apply zlen_nonneg. Qed.
Lemma n_cells_cell ty d : to_send ty d -> n_cells [cell ty d] = 1.
Proof. by intros [_ [-> | [-> _]]]. Qed.
Lemma n_cells_signal ty :
  ty = PacketTypeSignalStart \/ ty = PacketTypeSignalStop -> n_cells [cell ty []] = 0.
Proof. by intros [-> | ->]. Qed.

(** The scheduler has counted its cell in [curNSeg], and not queued it yet. *)
Definition pend (k : sched_pc) : Z :=
  match k with
  | KState _ _ | KSetReady _ _ | KSetStart _ _ | KSendStart _ _ | KMod _ _ | KSetStop _ _
  | KSendStop _ _ | KZero _ _ | KSend _ _ => 1
  | _ => 0
  end.
Definition stopping (k : sched_pc) : bool :=
  match k with KSetStop _ _ | KSendStop _ _ | KZero _ _ => true | _ => false end.

(** Every stop signal comes one cell before a multiple of [n] cells. *)
Definition stops_ok (n : Z) (q : list Packet.packet) : Prop :=
  forall q1 p q2, q = q1 ++ p :: q2 -> Packet.pktType p = PacketTypeSignalStop ->
  (n | n_cells q1 + 1).

Record Seg (n cur : Z) (q : list Packet.packet) (k : sched_pc) : Prop := {
  seg_cur : match k with KPanic _ _ _ => True | _ =>
              exists z, (n | z) /\ 0 <= z <= n_cells q + pend k
                        /\ cur = u32 (n_cells q + pend k - z)
            end;
  seg_stop : stopping k = true -> (n | n_cells q + 1);
  seg_stops : stops_ok n q
}.

Lemma stops_ok_snoc n q p :
  stops_ok n q -> (Packet.pktType p = PacketTypeSignalStop -> (n | n_cells q + 1)) ->
  stops_ok n (q ++ [p]).
Proof.
  intros Hq Hp q1 p' q2 E Ht. destruct (decide (q2 = [])) as [->|Hn].
  - apply app_inj_tail in E as [<- <-]. auto.
  - destruct (exists_last Hn) as (q3 & x & ->).
    rewrite app_comm_cons, app_assoc in E. apply app_inj_tail in E as [-> _]. by eapply Hq.
Qed.

(** Within a program point that keeps the count, only the point changes. *)
Lemma Seg_move n cur q k k' :
  Seg n cur q k -> pend k' = pend k ->
  match k with KPanic _ _ _ => False | _ => True end ->
  (stopping k' = true -> stopping k = true \/ (n | n_cells q + 1)) -> Seg n cur q k'.
Proof.
  intros [Hc Hs Ho] Hp Hk Hst. split; [|by intros [?%Hs|?]%Hst|done].
  destruct k'; rewrite ?Hp; try done; by destruct k.
Qed.

(** Queueing a signal keeps the count. *)
Lemma Seg_signal n cur q k k' ty :
  Seg n cur q k -> pend k' = pend k -> match k with KPanic _ _ _ => False | _ => True end ->
  stopping k' = stopping k -> ty = PacketTypeSignalStart \/ ty = PacketTypeSignalStop ->
  (ty = PacketTypeSignalStop -> stopping k = true) -> Seg n cur (q ++ [cell ty []]) k'.
Proof.
  intros Hseg Hp Hk Hst Hty Hs.
  assert (E : n_cells (q ++ [cell ty []]) = n_cells q)
    by (rewrite n_cells_app, n_cells_signal by done; lia).
  destruct (Seg_move n cur q k k' Hseg Hp Hk) as [Hc' Hs' Ho]; [rewrite Hst; auto|].
  split; rewrite ?E; try done. apply stops_ok_snoc; [done|].
  intros ?%Hs. by apply (seg_stop _ _ _ _ Hseg).
Qed.

Lemma sched_step_Seg s s' :
  Inv s -> n_cells (queued s) + 1 < 2 ^ 32 ->
  Seg (nSeg s) (curNSeg s) (queued s) (sched s) -> sched_step s = Some s' ->
  nSeg s' = nSeg s /\ Seg (nSeg s') (curNSeg s') (queued s') (sched s').
Proof.
  intros Hi Hb Hseg. pose proof (inv_pc _ Hi) as Hp. unfold sched_step.
  pose proof (n_cells_nonneg (queued s)) as Hq0.
  destruct (sched s) eqn:Ek; cbn in Hp; try done.
  all: try solve
    [ repeat case_match; intros; simplify_eq; (split; [done|]); cbn;
      eapply Seg_move; [exact Hseg|done..] ].
  - intros. simplify_eq. split; [done|]. destruct Hseg as [(z & Hz & Hr & Hcur) _ Ho].
    cbn in Hr, Hcur. split; [|by destruct (server s)|done].
    assert (E : pend (if server s then KSend ty d else KState ty d) = 1) by (by destruct (server s)).
    cbn [sched set_sched set_counts queued curNSeg]. rewrite E.
    destruct (server s); (exists z; split_and!; [done|lia|lia|]); rewrite Hcur; unfold u32;
      rewrite Zplus_mod_idemp_l; f_equal; lia.
  - destruct (enqueue _ s) as [s1|] eqn:E; [|done]. apply tam_enqueue_Some in E as ->.
    intros [= <-]. split; [done|]. cbn. eapply Seg_signal; [exact Hseg|done..| |done]. by left.
  - intros [= <-]. split; [done|]. cbn. repeat case_match; try done.
    + split; [done|done|apply Hseg].
    + b2p. eapply Seg_move; [exact Hseg|done..|]. intros _. right.
      destruct Hseg as [(z & Hz & Hr & Hcur) _ _]. cbn in Hr, Hcur.
      rewrite Hcur in *. unfold u32 in *. rewrite Z.mod_small in * by lia.
      assert (Hd : (nSeg s | n_cells (queued s) + 1 - z)) by (by apply Z.rem_divide).
      replace (n_cells (queued s) + 1) with (n_cells (queued s) + 1 - z + z) by lia.
      by apply Z.divide_add_r.
    + eapply Seg_move; [exact Hseg|done..].
  - intros [= <-]. split; [done|]. cbn. eapply Seg_move; [exact Hseg|done..|]. by left.
  - destruct (enqueue _ s) as [s1|] eqn:E; [|done]. apply tam_enqueue_Some in E as ->.
    intros [= <-]. split; [done|]. cbn. eapply Seg_signal; [exact Hseg|done..| |done]. by right.
  - intros [= <-]. split; [done|]. cbn. destruct Hseg as [_ Hs Ho]. split; [|done|done].
    exists (n_cells (queued s) + 1). cbn. split_and!; [by apply Hs|lia|lia|].
    by rewrite Z.sub_diag.
  - destruct (enqueue _ s) as [s1|] eqn:E; [|done]. apply tam_enqueue_Some in E as ->.
    intros [= <-]. split; [done|]. cbn. destruct Hseg as [(z & Hz & Hr & Hcur) _ Ho].
    split; [|done|].
    + exists z. cbn in *. rewrite n_cells_app, (n_cells_cell ty d Hp). split_and!; [done|lia|lia|].
      rewrite Hcur. f_equal. lia.
    + apply stops_ok_snoc; [done|]. by destruct Hp as [_ [-> | [-> _]]].
Qed.

Lemma sched_step_server s s' : sched_step s = Some s' -> server s' = server s.
Proof.
  unfold sched_step, report, enqueue. repeat case_match; cbn; by intros; simplify_eq.
Qed.

Definition is_sched (ev : event) : bool := match ev with EvSched => true | _ => false end.
Definition is_rho (ev : event) : bool := match ev with EvRho => true | _ => false end.

(** What the other goroutines leave alone. *)
Lemma exec_frame ev s s' :
  is_sched ev = false -> exec ev s = Some s' ->
  queued s' = queued s /\ curNSeg s' = curNSeg s /\ nSeg s' = nSeg s /\ server s' = server s
  /\ (is_rho ev = false /\ sched s' = sched s
      \/ sched s = KWait /\ is_rho ev = true /\ sched s' = KLen
      \/ sched s = KWait /\ is_rho ev = false /\ sched s' = KDone).
Proof.
  intros Hev. unfold exec. destruct (crashed s); [done|].
  destruct ev; cbn [exec_event]; try done;
    unfold main_step, ticker_step, sender_step, report, enqueue;
    repeat (case_match; cbn); intros; simplify_eq; cbn; try (split_and!; auto; by left).
Qed.

Lemma tam_exec_server ev s s' : exec ev s = Some s' -> server s' = server s.
Proof.
  intros E. destruct (is_sched ev) eqn:Ev; [|by eapply exec_frame].
  destruct ev; try done. unfold exec in E. destruct (crashed s); [done|].
  by eapply sched_step_server.
Qed.

Lemma tam_reachable_server b n r x s : rtc step (init b n r x) s -> server s = b.
Proof.
  intros Hr. eapply (rtc_invariant step (fun s => server s = b)); [|exact Hr|done].
  intros s1 s2 [ev E] <-. by eapply tam_exec_server.
Qed.

Lemma sched_step_queued s s' :
  sched_step s = Some s' -> exists ps, queued s' = queued s ++ ps.
Proof.
  unfold sched_step, report, enqueue.
  repeat case_match; cbn; intros; simplify_eq; cbn; first [by eexists | exists []; by rewrite app_nil_r].
Qed.

Lemma exec_queued ev s s' : exec ev s = Some s' -> exists ps, queued s' = queued s ++ ps.
Proof.
  intros E. destruct (is_sched ev) eqn:Ev.
  - destruct ev; try done. unfold exec in E. destruct (crashed s); [done|].
    by eapply sched_step_queued.
  - exists []. rewrite app_nil_r. by eapply exec_frame.
Qed.

(** The counting invariant, while fewer than [2^32] cells were sent. *)
Definition SegInv (n : Z) (s : st) : Prop :=
  nSeg s = n
  /\ (n_cells (queued s) + 1 < 2 ^ 32 -> Seg n (curNSeg s) (queued s) (sched s)).

Lemma exec_Seg n ev s s' : Inv s -> SegInv n s -> exec ev s = Some s' -> SegInv n s'.
Proof.
  intros Hi [Hn Hseg] E. destruct (is_sched ev) eqn:Ev.
  - destruct ev; try done. unfold exec in E. cbn in E. destruct (crashed s); [done|].
    destruct (sched_step_queued _ _ E) as [ps Hq].
    assert (Hle : n_cells (queued s) <= n_cells (queued s'))
      by (rewrite Hq, n_cells_app; pose proof (n_cells_nonneg ps); lia).
    destruct (decide (n_cells (queued s) + 1 < 2 ^ 32)) as [Hb|Hb].
    + subst n. destruct (sched_step_Seg s s' Hi Hb (Hseg Hb) E) as [<- ?]. by split.
    + assert (En : nSeg s' = nSeg s)
        by (clear -E; revert E; unfold sched_step, report, enqueue;
            repeat case_match; cbn; by intros; simplify_eq).
      split; [by rewrite En|lia].
  - destruct (exec_frame _ _ _ Ev E) as (Eq & Ec & En & _ & Hk).
    split; [by rewrite En|]. rewrite Eq, Ec. intros Hb. specialize (Hseg Hb).
    destruct Hk as [[_ ->]|[(Hk & _ & ->)|(Hk & _ & ->)]]; [done|..]; rewrite Hk in Hseg;
      by eapply Seg_move.
Qed.

Lemma reachable_Seg b n r x s : rtc step (init b n r x) s -> SegInv n s.
Proof.
  intros Hr. pose proof (rtc_invariant step (fun s => Inv s /\ SegInv n s)) as Hinv.
  eapply Hinv; [|exact Hr|split; [apply tam_init_Inv|]].
  - intros s1 s2 [ev E] [Hi Hs]. split; [by eapply tam_exec_Inv|by eapply exec_Seg].
  - split; [done|]. intros _. split; [|done|].
    + exists 0. cbn. split_and!; try done. apply Z.divide_0_r.
    + intros q1 p q2 Eq. by destruct q1.
Qed.

(** The padding of Tamaraw: the client stops only at multiples of [nSeg] cells.
    In every reachable state that queued fewer than [2^32] cells, the payload
    and dummy cells queued before any stop signal, with the one that follows it,
    are a multiple of [nSeg]; so is the number of cells between two stops. *)
Theorem stop_at_multiple b n r x s q1 p q2 :
  rtc step (init b n r x) s -> n_cells (queued s) + 1 < 2 ^ 32 ->
  queued s = q1 ++ p :: q2 -> Packet.pktType p = PacketTypeSignalStop ->
  (n | n_cells q1 + 1)
  /\ forall q3 p' q4, q2 = q3 ++ p' :: q4 -> Packet.pktType p' = PacketTypeSignalStop ->
     (n | n_cells q3).
Proof.
  intros Hr Hb Hq Hp. destruct (reachable_Seg _ _ _ _ _ Hr) as [_ Hseg].
  pose proof (seg_stops _ _ _ _ (Hseg Hb)) as Hs. pose proof (Hs _ _ _ Hq Hp) as H1.
  split; [done|]. intros q3 p' q4 -> Hp'.
  assert (H2 : (n | n_cells (q1 ++ p :: q3) + 1)).
  { apply (Hs _ p' q4); [|done]. by rewrite Hq, <- app_assoc. }
  rewrite (cons_middle p), !n_cells_app in H2.
  assert (Hz : n_cells [p] = 0) by (unfold n_cells, is_cell; cbn; by rewrite Hp).
  rewrite Hz in H2. replace (n_cells q3) with (n_cells q1 + (0 + n_cells q3) + 1 - (n_cells q1 + 1)) by lia.
  by apply Z.divide_sub_r.
Qed.

(** ** The rate of a server *)

(** The scheduler is in the middle of a tick. *)
Definition busy (k : sched_pc) : Z :=
  match k with KStart | KWait | KDone | KPanic _ _ _ => 0 | _ => 1 end.

Definition ticks (evs : list event) : Z := zlen (filter (fun ev => is_rho ev) evs).

Lemma ticks_cons ev evs : ticks (ev :: evs) = (if is_rho ev then 1 else 0) + ticks evs.
Proof.
  unfold ticks. rewrite filter_cons. destruct (is_rho ev); destruct (decide _); try done.
  by rewrite zlen_cons.
Qed.

(** A server's ticker never changes the state. *)
Definition ticker_idle (t : ticker_pc) : bool :=
  match t with TWait | TLoad | TResetSent | TResetRcv | TDone => true | _ => false end.

Lemma exec_ticker ev s s' :
  server s = true -> ticker_idle (ticker s) = true -> exec ev s = Some s' ->
  ticker_idle (ticker s') = true.
Proof.
  intros Hs Ht. unfold exec. destruct (crashed s); [done|].
  destruct ev; cbn [exec_event];
    unfold main_step, sched_step, ticker_step, sender_step, report, enqueue; rewrite ?Hs;
    repeat (case_match; cbn); intros; simplify_eq; cbn in *; done.
Qed.

(** A server that is on stays on until it is told to stop. *)
Definition no_stop (ev : event) : Prop := ev <> EvSignal false.

Lemma exec_on ev s s' :
  Inv s -> server s = true -> ticker_idle (ticker s) = true ->
  curState (state s) = StateStart -> no_stop ev -> exec ev s = Some s' ->
  curState (state s') = StateStart.
Proof.
  intros Hi Hs Ht Hon Hns. pose proof (inv_pc _ Hi) as Hp. unfold exec.
  destruct (crashed s); [done|].
  destruct ev; cbn [exec_event];
    unfold main_step, sched_step, ticker_step, sender_step, report, enqueue; rewrite ?Hs in *;
    repeat (case_match; cbn); intros; simplify_eq; cbn in *; try done; by destruct Hp.
Qed.

(** One step of a server that is on: cells queued plus the one in the making
    grow by one at a tick and stay at every other step. *)
Lemma exec_rate ev s s' :
  Inv s -> server s = true -> curState (state s) = StateStart -> exec ev s = Some s' ->
  exists cs, queued s' = queued s ++ cs /\ Forall (fun p => is_cell p = true) cs
    /\ zlen cs + busy (sched s') = busy (sched s) + (if is_rho ev then 1 else 0).
Proof.
  intros Hi Hs Hon E. pose proof (inv_pc _ Hi) as Hp. destruct (is_sched ev) eqn:Ev.
  - destruct ev; try done. unfold exec in E. cbn in E. destruct (crashed s); [done|].
    revert E. unfold sched_step. rewrite Hs, Hon in *.
    destruct (sched s) eqn:Ek; cbn in Hp; try done; try (by destruct Hp).
    all: try solve [repeat case_match; intros; simplify_eq; exists []; rewrite app_nil_r;
                    cbn; repeat case_match; done].
    destruct (enqueue _ s) as [s1|] eqn:E; [|done]. apply tam_enqueue_Some in E as ->.
    intros [= <-]. exists [cell ty d]. split_and!; [done| |done].
    apply Forall_singleton. by destruct Hp as [_ [-> | [-> _]]].
  - destruct (exec_frame _ _ _ Ev E) as (-> & _ & _ & _ & Hk). exists [].
    rewrite app_nil_r. split_and!; [done..|].
    destruct Hk as [[-> ->]|[(-> & -> & ->)|(-> & -> & ->)]]; cbn; zlia.
Qed.

Lemma exec_all_rate evs : forall s s',
  Inv s -> server s = true -> ticker_idle (ticker s) = true ->
  curState (state s) = StateStart -> Forall no_stop evs -> exec_all evs s = Some s' ->
  exists cs, queued s' = queued s ++ cs /\ Forall (fun p => is_cell p = true) cs
    /\ zlen cs + busy (sched s') = busy (sched s) + ticks evs.
Proof.
  induction evs as [|ev evs IH]; intros s s' Hi Hs Ht Hon Hns; cbn [exec_all].
  - intros [= <-]. exists []. rewrite app_nil_r, zlen_nil.
    split_and!; [done..|]. change (ticks []) with 0. lia.
  - apply Forall_cons in Hns as [Hn Hns].
    destruct (exec ev s) as [s1|] eqn:E; cbn; [|done]. intros E'.
    destruct (exec_rate _ _ _ Hi Hs Hon E) as (c1 & Hq1 & Hc1 & Hl1).
    destruct (IH s1 s') as (c2 & Hq2 & Hc2 & Hl2); [by eapply tam_exec_Inv|
      by rewrite (tam_exec_server _ _ _ E)|by eapply exec_ticker|by eapply exec_on|done..|].
    exists (c1 ++ c2). rewrite Hq2, Hq1, app_assoc, zlen_app, ticks_cons.
    split_and!; [done|by apply Forall_app|lia].
Qed.

Lemma reachable_ticker n r x s : rtc step (init true n r x) s -> ticker_idle (ticker s) = true.
Proof.
  intros Hr.
  pose proof (rtc_invariant step (fun s => server s = true /\ ticker_idle (ticker s) = true)) as Hinv.
  eapply Hinv; [|exact Hr|done].
  intros s1 s2 [ev E] [Hs Ht]. split; [by rewrite (tam_exec_server _ _ _ E)|by eapply exec_ticker].
Qed.

(** C6: the rate of Tamaraw: in [StateStart] a server sends one cell per tick of its
    timer and nothing else, whatever the upstream delivers, whatever the other
    goroutines do and however they interleave: between two instants at which the
    scheduler waits for its timer, the packets queued are payload or dummy cells,
    exactly as many as the timer fired. *)
Theorem constant_rate n r x s evs s' :
  rtc step (init true n r x) s -> sched s = KWait -> curState (state s) = StateStart ->
  exec_all evs s = Some s' -> Forall no_stop evs -> sched s' = KWait ->
  exists cs, queued s' = queued s ++ cs /\ Forall (fun p => is_cell p = true) cs
             /\ zlen cs = ticks evs.
Proof.
  intros Hr Hk Hon E Hns Hk'.
  destruct (exec_all_rate evs s s') as (cs & Hq & Hc & Hl);
    [by eapply tam_reachable_Inv|by eapply tam_reachable_server|by eapply reachable_ticker|done..|].
  exists cs. rewrite Hk, Hk' in Hl. cbn in Hl. split_and!; [done..|lia].
Qed.

(** ** Progress *)

(** The cells the rest of a tick may still send. *)
Definition need (k : sched_pc) : Z :=
  match k with KSend _ _ | KZero _ _ => 1 | KWait | KDone | KPanic _ _ _ => 0 | _ => 2 end.
Definition rank (k : sched_pc) : nat :=
  match k with
  | KStart => 1 | KWait | KDone | KPanic _ _ _ => 0
  | KLen => 14 | KRead => 13 | KLoadW _ _ => 12 | KStoreW _ _ _ => 11 | KReadErr => 10
  | KInc _ => 9 | KGate _ _ => 8 | KAdd _ _ => 7 | KState _ _ => 6 | KSetReady _ _ => 5
  | KSetStart _ _ => 5 | KSendStart _ _ => 4 | KMod _ _ => 5 | KSetStop _ _ => 4
  | KSendStop _ _ => 3 | KZero _ _ => 2 | KSend _ _ => 1
  end.

Lemma enqueue_room p s : zlen (sendChan s) < chan_cap -> is_Some (enqueue p s).
Proof. intros H. unfold enqueue. rewrite ltb_true by done. eauto. Qed.

Lemma sched_progress s :
  Inv s -> (0 < rank (sched s))%nat -> zlen (sendChan s) + need (sched s) <= chan_cap ->
  nSeg s <> 0 -> 0 < rho s ->
  exists s', exec EvSched s = Some s' /\ (rank (sched s') < rank (sched s))%nat
    /\ zlen (sendChan s') + need (sched s') <= chan_cap
    /\ nSeg s' = nSeg s /\ rho s' = rho s /\ crashed s' = false.
Proof.
  intros Hi Hr Hn Hseg Hrho. pose proof (inv_pc _ Hi) as Hp.
  unfold exec, crashed. destruct (sched s) eqn:Ek; cbn in Hr, Hn, Hp; try (lia || done);
    cbn [exec_event]; unfold sched_step; rewrite Ek.
  all: try solve [ destruct (enqueue_room (cell PacketTypeSignalStart []) s) as [s1 E]; [lia|];
      rewrite E; apply tam_enqueue_Some in E as ->; eexists; split; [reflexivity|]; cbn;
      rewrite zlen_app, zlen_cons, zlen_nil; split_and!; try done; lia ].
  all: try solve [ destruct (enqueue_room (cell PacketTypeSignalStop []) s) as [s1 E]; [lia|];
      rewrite E; apply tam_enqueue_Some in E as ->; eexists; split; [reflexivity|]; cbn;
      rewrite zlen_app, zlen_cons, zlen_nil; split_and!; try done; lia ].
  all: try solve [ destruct (enqueue_room (cell ty d) s) as [s1 E]; [lia|];
      rewrite E; apply tam_enqueue_Some in E as ->; eexists; split; [reflexivity|]; cbn;
      rewrite zlen_app, zlen_cons, zlen_nil; split_and!; try done; lia ].
  all: rewrite ?(leb_false (rho s) 0), ?(eqb_false (nSeg s) 0) by lia.
  all: repeat case_match; eexists; (split; [reflexivity|]); cbn; repeat case_match;
    split_and!; try done; try lia; by destruct Hp.
Qed.

Lemma exec_all_app evs1 evs2 s :
  exec_all (evs1 ++ evs2) s = s1 ← exec_all evs1 s; exec_all evs2 s1.
Proof.
  revert s. induction evs1 as [|ev evs1 IH]; intros s; [done|]. cbn.
  destruct (exec ev s); cbn; [apply IH|done].
Qed.

Lemma tick_finishes k : forall s,
  Inv s -> (rank (sched s) <= k)%nat -> crashed s = false ->
  zlen (sendChan s) + need (sched s) <= chan_cap -> nSeg s <> 0 -> 0 < rho s ->
  exists m s', (m <= k)%nat /\ exec_all (replicate m EvSched) s = Some s'
    /\ (sched s' = KWait \/ sched s' = KDone).
Proof.
  induction k as [|k IH]; intros s Hi Hk Hcr Hn Hseg Hrho.
  - exists 0%nat, s. split_and!; [lia|done|]. unfold crashed in Hcr.
    destruct (sched s); cbn in Hk; auto; lia.
  - destruct (decide (rank (sched s) = 0%nat)) as [H0|H0].
    + exists 0%nat, s. split_and!; [lia|done|]. unfold crashed in Hcr.
      destruct (sched s); cbn in H0; auto; lia.
    + destruct (sched_progress s Hi) as (s1 & E & Hr1 & Hn1 & Hs1 & Hp1 & Hc1); try done; [lia|].
      destruct (IH s1) as (m & s' & Hm & E' & Hend); try done; try lia; [by eapply tam_exec_Inv|].
      exists (S m), s'. split_and!; [lia| |done].
      cbn [replicate exec_all]. rewrite E. cbn. exact E'.
Qed.

(** What the scheduler has taken from the buffer, and whether the current tick
    has yet to look at it. *)
Definition taken (s : st) : Z := zlen (payload_of (queued s)) + zlen (sched_hand (sched s)).
Definition fresh (k : sched_pc) : Z := match k with KLen | KRead => 1 | _ => 0 end.

Lemma sched_taken s s' :
  Inv s -> sched_step s = Some s' ->
  taken s + zlen (receiveBuf s) = taken s' + zlen (receiveBuf s')
  /\ main_hand (main s') = main_hand (main s) /\ upstream s' = upstream s.
Proof.
  intros Hi E. pose proof (inv_stream _ (sched_step_Inv _ _ Hi E)) as H'.
  pose proof (inv_stream _ Hi) as H.
  assert (Hm : main_hand (main s') = main_hand (main s) /\ upstream s' = upstream s)
    by (clear -E; revert E; unfold sched_step, report, enqueue;
        repeat case_match; cbn; by intros; simplify_eq).
  split; [|done]. destruct Hm as [Hm Hu]. rewrite Hu, Hm, <- H in H'.
  apply (f_equal zlen) in H'. rewrite !zlen_app in H'. unfold taken. lia.
Qed.

(** A tick takes a cell's worth of bytes, or all there is. *)
Lemma exec_work ev s s' base need ts :
  Inv s -> exec ev s = Some s' ->
  base + need <= taken s + zlen (receiveBuf s) ->
  base + Z.min need (536 * (ts - fresh (sched s))) <= taken s ->
  let ts' := ts + (if is_rho ev then 1 else 0) in
  base + need <= taken s' + zlen (receiveBuf s')
  /\ base + Z.min need (536 * (ts' - fresh (sched s'))) <= taken s'.
Proof.
  intros Hi E Hall Hnow ts'. unfold ts'. destruct (is_sched ev) eqn:Ev.
  - destruct ev; try done. unfold exec in E. cbn in E. destruct (crashed s); [done|].
    pose proof (sched_taken _ _ Hi E) as [Heq _]. split; [lia|]. cbn. clear ts'.
    pose proof (zlen_nonneg (receiveBuf s)). pose proof (zlen_nonneg (receiveBuf s')).
    revert E. unfold sched_step. destruct (sched s) eqn:Ek; try done.
    all: try solve [unfold report, enqueue; repeat case_match; cbn; intros; simplify_eq; cbn in *; lia].
    intros [= <-]. cbn in *. rewrite zlen_zdrop in Heq. unfold MaxPacketPayloadLength in *. lia.
  - destruct (exec_frame _ _ _ Ev E) as (Hq & _ & _ & _ & Hk).
    assert (Hb : zlen (receiveBuf s) <= zlen (receiveBuf s')).
    { clear -E Ev. unfold exec in E. destruct (crashed s); [done|].
      destruct ev; try done; cbn [exec_event] in E; revert E;
        unfold main_step, ticker_step, sender_step, report; repeat (case_match; cbn);
        intros; simplify_eq; cbn; rewrite ?zlen_app; zlia. }
    assert (Ht : taken s' = taken s).
    { unfold taken. rewrite Hq. destruct Hk as [[_ ->]|[(-> & _ & ->)|(-> & _ & ->)]]; done. }
    rewrite Ht. split; [lia|].
    destruct Hk as [[-> ->]|[(Hk & -> & ->)|(Hk & -> & ->)]]; rewrite ?Hk in Hnow; cbn in *; lia.
Qed.

Lemma exec_all_work evs : forall s s' base need ts,
  Inv s -> exec_all evs s = Some s' ->
  base + need <= taken s + zlen (receiveBuf s) ->
  base + Z.min need (536 * (ts - fresh (sched s))) <= taken s ->
  Inv s' /\ base + Z.min need (536 * (ts + ticks evs - fresh (sched s'))) <= taken s'.
Proof.
  induction evs as [|ev evs IH]; intros s s' base need ts Hi; cbn [exec_all].
  - intros [= <-] _ Hn. change (ticks []) with 0. by rewrite Z.add_0_r.
  - destruct (exec ev s) as [s1|] eqn:E; cbn; [|done]. intros E' Ha Hn.
    destruct (exec_work _ _ _ _ _ ts Hi E Ha Hn) as [Ha1 Hn1].
    rewrite ticks_cons, Z.add_assoc. by eapply IH; [eapply tam_exec_Inv|..].
Qed.

Lemma exec_upstream ev s s' : exec ev s = Some s' -> exists d, upstream s' = upstream s ++ d.
Proof.
  unfold exec. destruct (crashed s); [done|].
  destruct ev; cbn [exec_event];
    unfold main_step, sched_step, ticker_step, sender_step, report, enqueue;
    repeat (case_match; cbn); intros; simplify_eq; cbn;
    first [by eexists | exists []; by rewrite app_nil_r].
Qed.

Lemma exec_all_upstream evs : forall s s',
  exec_all evs s = Some s' -> exists d, upstream s' = upstream s ++ d.
Proof.
  induction evs as [|ev evs IH]; intros s s'; cbn [exec_all].
  - intros [= <-]. exists []. by rewrite app_nil_r.
  - destruct (exec ev s) as [s1|] eqn:E; cbn; [|done]. intros E'.
    apply exec_upstream in E as [d1 E1]. apply IH in E' as [d2 ->]. rewrite E1.
    exists (d1 ++ d2). by rewrite app_assoc.
Qed.

(** C36: progress: nothing that was read stays behind.  (1) A tick that has begun
    can always be finished by the scheduler alone, in at most 14 steps, if the
    configuration is valid and the channel has room for the cell and a signal.
    (2) Whatever else runs, once the timer has fired as often as the buffer held
    cells, every byte that was in the buffer has been queued, in order. *)
Theorem buffer_drains b n r x s :
  rtc step (init b n r x) s -> 
  (crashed s = false -> n <> 0 -> 0 < rho s -> zlen (sendChan s) + 2 <= chan_cap ->
   exists m s', (m <= 14)%nat /\ exec_all (replicate m EvSched) s = Some s'
                /\ (sched s' = KWait \/ sched s' = KDone))
  /\ (forall evs s', sched s = KWait -> exec_all evs s = Some s' -> sched s' = KWait ->
      zlen (receiveBuf s) <= 536 * ticks evs ->
      exists rest, payload_of (queued s') = payload_of (queued s) ++ receiveBuf s ++ rest).
Proof.
  intros Hr. pose proof (tam_reachable_Inv _ _ _ _ _ Hr) as Hi. split.
  - intros Hc Hn Hrho Hroom. apply tick_finishes; try done.
    + by destruct (sched s); cbn; lia.
    + destruct (sched s); cbn; lia.
    + by destruct (reachable_Seg _ _ _ _ _ Hr) as [-> _].
  - intros evs s' Hk E Hk' Hlen.
    destruct (exec_all_work evs s s' (taken s) (zlen (receiveBuf s)) 0 Hi E) as [Hi' Hw];
      [lia|rewrite Hk; cbn; zlia|].
    destruct (exec_all_upstream _ _ _ E) as [d Hd].
    pose proof (inv_stream _ Hi) as H1. pose proof (inv_stream _ Hi') as H2.
    rewrite Hk' in *. rewrite Hk in H1. rewrite Hd, <- H1 in H2.
    unfold taken in Hw. rewrite Hk, Hk' in Hw. cbn in H2, Hw. rewrite zlen_nil in Hw.
    rewrite <- !app_assoc in H2. rewrite (app_assoc (payload_of (queued s))) in H2.
    apply app_eq_inv in H2 as [(k & Hk1 & _)|(k & Hk1 & Hk2)].
    + exists k. by rewrite Hk1, <- app_assoc.
    + exists []. rewrite app_nil_r.
      assert (zlen k = 0) as ->%zlen_0.
      { apply (f_equal zlen) in Hk1. rewrite !zlen_app in Hk1. pose proof (zlen_nonneg k). lia. }
      by rewrite app_nil_r in Hk1.
Qed.

(** ** The wire *)

Section wire.
Context `{SipHashLaws} `{SecretBoxLaws}.

Lemma tam_wire_cells b n r x s : rtc step (init b n r x) s -> Forall (Cells.any_cell b) (wire s).
Proof.
  intros Hr. rewrite <- (tam_reachable_server _ _ _ _ _ Hr).
  apply tam_reachable_Inv in Hr as [_ Hc _ (lost & Hq & _)].
  rewrite Hq in Hc. by apply Forall_app in Hc as [? _].
Qed.

(** End to end under Tamaraw: for every interleaving at the sender and every way
    the network cuts the bytes, the sender's wire image is 557 bytes per packet
    whatever the packets are, and the peer appends to its stream exactly the
    payload on the wire, a prefix of what the sender read from upstream: the
    dummies leave no trace; it ends in the state the last signal asked for and
    never panics. *)
Theorem tamaraw_peer_receives fuel b n r x s t e d w e' chunks a :
  rtc step (init b n r x) s -> IsServer a = negb b -> Framing.synced e d ->
  Packet.makePackets MaxPacketPayloadLength (wire s) e = (Ok w, e') -> concat chunks = w ->
  let out := Packet.readAll (handle fuel) chunks (Packet.mkConn (Framing.mkD d [] t) a) in
  zlen w = 557 * zlen (wire s)
  /\ received (wire s) a (Packet.app out.2)
  /\ (exists rest, upstream s = payload_of (wire s) ++ rest)
  /\ Forall (fun r => is_panic r = false) out.1.
Proof.
  intros Hr Hb Hs Hm Hc out. pose proof (tam_wire_cells _ _ _ _ _ Hr) as Hcells.
  destruct (Cells.tam_deliver_cells fuel (wire s) a) as (a' & Hd & Hrec).
  { by rewrite Hb, negb_involutive. }
  assert (Hok : Forall (Packet.packet_ok MaxPacketPayloadLength) (wire s))
    by (eapply Forall_impl; [exact Hcells|]; by intros p []).
  destruct (Packet.stream_delivery (handle fuel) _ cell_payload_fits t (wire s) e d a w e' chunks
    Hs Hok Hm Hc) as (Ha & Hp & _); [by rewrite Hd|].
  split_and!; [|by unfold out; rewrite Ha, Hd| |done].
  - eapply Packet.makePackets_zlen in Hm; [exact Hm|apply cell_payload_fits|exact Hok|].
    eapply Forall_impl; [exact Hcells|]. by intros p (_ & ? & _).
  - apply tam_reachable_Inv in Hr as [Hst _ _ (lost & Hq & _)].
    rewrite <- Hst, Hq, payload_of_app, <- app_assoc. eauto.
Qed.
End wire.

(** ** What goes wrong *)

(** [ReadFrom] reports twice the bytes it moved: the main loop and the scheduler
    both add them to [written]; here "hello" is read, sent and counted as ten
    bytes.  And the two additions race: an update can be lost. *)
Definition hello : bytes := str "hello".
Definition evs_twice : list event :=
  [EvSched; EvMain; EvRead hello; EvMain; EvMain; EvMain] ++ EvRho :: replicate 8 EvSched ++ [EvSend].
Definition evs_lost : list event :=
  [EvSched; EvMain; EvRead hello; EvMain; EvMain; EvRho; EvSched; EvSched; EvSched; EvSched;
   EvMain] ++ replicate 4 EvSched ++ [EvSend].

Theorem written_miscounts :
  (exists s, exec_all evs_twice (init true 2 10 NewState) = Some s
     /\ payload_of (wire s) = hello /\ upstream s = hello /\ written s = 10)
  /\ (exists s, exec_all evs_lost (init true 2 10 NewState) = Some s
     /\ payload_of (wire s) = hello /\ upstream s = hello /\ written s = 5).
Proof.
  split; (eexists; split; [vm_compute; reflexivity|]); split_and!; reflexivity.
Qed.

(** A configuration that the argument parsers accept crashes the process: a
    period of zero at the first step of the scheduler, [nSeg = 0] once a client
    that is padding has a cell to send. *)
Definition evs_zero : list event :=
  [EvSched; EvMain; EvRead hello; EvMain; EvMain; EvMain] ++ (EvRho :: replicate 10 EvSched)
  ++ [EvMain; EvRead hello; EvMain; EvMain; EvMain] ++ (EvRho :: replicate 11 EvSched)
  ++ (EvTick :: replicate 6 EvTicker) ++ (EvRho :: replicate 5 EvSched).

Theorem zero_config_crashes n b x :
  (exists s, exec_all [EvSched] (init b n 0 x) = Some s /\ crashed s = true)
  /\ (exists s, exec_all evs_zero (init false 0 10 NewState) = Some s /\ crashed s = true).
Proof.
  split; (eexists; split; [vm_compute; reflexivity|reflexivity]).
Qed.
End Tamaraw.

(** ** Witnesses *)

Section witnesses.
Import ToySip ToyBox DefConn Tamaraw.

Definition run (evs : list event) (s : st) : st := default s (exec_all evs s).
Lemma run_reach evs b n r x s :
  exec_all evs (init b n r x) = Some s -> rtc step (init b n r x) s.
Proof.
  generalize (init b n r x) as s0. induction evs as [|ev evs IH]; intros s0; cbn; [by intros [= <-]|].
  destruct (exec ev s0) as [s1|] eqn:E; cbn; [|done]. intros. eapply rtc_l; [by exists ev|by apply IH].
Qed.

(** A server that was told to start fires its timer twice. *)
Definition w_s0 : st := Eval vm_compute in run [EvSched; EvSignal true] (init true 2 10 NewState).
Definition w_evs : list event :=
  EvRho :: replicate 4 EvSched ++ [EvMain; EvRead hello; EvMain; EvTick] ++ EvRho :: replicate 8 EvSched.
Definition w_s1 : st := Eval vm_compute in run w_evs w_s0.
Lemma w_s0_reach : rtc step (init true 2 10 NewState) w_s0.
Proof. apply (run_reach [EvSched; EvSignal true]). vm_compute. reflexivity. Qed.

Lemma constant_rate_witness :
  map Packet.pktType (queued w_s1) = [PacketTypeDummy; PacketTypePayload]
  /\ exists cs, queued w_s1 = queued w_s0 ++ cs /\ Forall (fun p => is_cell p = true) cs
                /\ zlen cs = 2.
Proof.
  split; [reflexivity|].
  apply (constant_rate 2 10 NewState w_s0 w_evs w_s1 w_s0_reach);
    [reflexivity|reflexivity|vm_compute; reflexivity| |reflexivity].
  repeat (apply Forall_cons; split; [unfold no_stop; discriminate|]). apply Forall_nil_2.
Defined.

(** A client with [nSeg = 2] pads from three cells to four, then stops. *)
Definition w_stop_evs : list event :=
  [EvSched; EvMain; EvRead hello; EvMain; EvMain; EvMain] ++ (EvRho :: replicate 10 EvSched)
  ++ [EvMain; EvRead hello; EvMain; EvMain; EvMain] ++ (EvRho :: replicate 11 EvSched)
  ++ (EvTick :: replicate 6 EvTicker) ++ (EvRho :: replicate 6 EvSched)
  ++ (EvRho :: replicate 9 EvSched).
Definition w_s2 : st := Eval vm_compute in run w_stop_evs (init false 2 10 NewState).
Lemma w_s2_reach : rtc step (init false 2 10 NewState) w_s2.
Proof. apply (run_reach w_stop_evs). vm_compute. reflexivity. Qed.

Lemma stop_at_multiple_witness :
  map Packet.pktType (queued w_s2)
  = [PacketTypePayload; PacketTypeSignalStart; PacketTypePayload; PacketTypeDummy;
     PacketTypeSignalStop; PacketTypeDummy]
  /\ curState (state w_s2) = StateStop
  /\ (2 | n_cells (take 4 (queued w_s2)) + 1).
Proof.
  split; [reflexivity|]. split; [reflexivity|].
  apply (proj1 (stop_at_multiple false 2 10 NewState w_s2 (take 4 (queued w_s2))
    (cell PacketTypeSignalStop []) (drop 5 (queued w_s2)) w_s2_reach
    ltac:(vm_compute; reflexivity) ltac:(vm_compute; reflexivity) ltac:(reflexivity))).
Defined.

(** A server with five bytes in its buffer. *)
Definition w_s3 : st := Eval vm_compute in
  run [EvSched; EvMain; EvRead hello; EvMain] (init true 2 10 NewState).
Definition w_s4 : st := Eval vm_compute in run (EvRho :: replicate 8 EvSched) w_s3.
Lemma w_s3_reach : rtc step (init true 2 10 NewState) w_s3.
Proof. apply (run_reach [EvSched; EvMain; EvRead hello; EvMain]). vm_compute. reflexivity. Qed.

Lemma buffer_drains_witness :
  receiveBuf w_s3 = hello /\ exists rest, payload_of (queued w_s4) = hello ++ rest.
Proof.
  split; [reflexivity|].
  apply (proj2 (buffer_drains true 2 10 NewState w_s3 w_s3_reach) (EvRho :: replicate 8 EvSched) w_s4);
    [reflexivity|vm_compute; reflexivity|reflexivity|vm_compute; discriminate].
Defined.

Definition w_s5 : st := Eval vm_compute in run (replicate 6 EvSend) w_s2.
Lemma w_s5_reach : rtc step (init false 2 10 NewState) w_s5.
Proof. apply (run_reach (w_stop_evs ++ replicate 6 EvSend)). vm_compute. reflexivity. Qed.
Definition w_out : result Packet.error bytes * Framing.Encoder := Eval vm_compute in
  Packet.makePackets MaxPacketPayloadLength (wire w_s5) toy_enc.
Definition w_wire : bytes := Eval vm_compute in match w_out.1 with Ok w => w | _ => [] end.
Definition w_chunks : list bytes := [ztake 700 w_wire; zdrop 700 w_wire].
Definition w_ld : ProbDist.WeightedDist := ProbDist.mkWDist 0 3 false [] [] [] [].
Definition w_app : app := mkApp true w_ld NewState 0 (str "before ").

Lemma tamaraw_peer_receives_witness :
  let out := Packet.readAll (handle 9) w_chunks
               (Packet.mkConn (Framing.mkD toy_dec [] []) w_app) in
  ReceiveDecodedBuffer (Packet.app out.2) = str "before hellohello"
  /\ zlen w_wire = 557 * 6 /\ received (wire w_s5) w_app (Packet.app out.2).
Proof.
  intros out. split; [vm_compute; reflexivity|].
  assert (Hs : Framing.synced toy_enc toy_dec) by (split_and!; reflexivity).
  assert (E : Packet.makePackets MaxPacketPayloadLength (wire w_s5) toy_enc = (Ok w_wire, w_out.2))
    by (vm_compute; reflexivity).
  assert (Hc : concat w_chunks = w_wire) by (vm_compute; reflexivity).
  destruct (tamaraw_peer_receives 9 false 2 10 NewState w_s5 [] toy_enc toy_dec w_wire w_out.2
    w_chunks w_app w_s5_reach eq_refl Hs E Hc) as (Hl & Hr & _). exact (conj Hl Hr).
Defined.
End witnesses.
