(* ===== verification/Fifo.v ===== *)
(** * The queue of [github.com/enriquebris/goconcurrentqueue]

    FRONT and WF-GAN keep what they have to send in a [FixedFIFO], Regulator in
    a [FIFO].  The package is not part of the repository: its operations are the
    class [Fifo], what its documentation says of them [FifoLaws], over the list
    of the queued elements; lists are an instance. *)
From S2P Require Import Prelude.

(** [Enqueue] fails on a full queue, [Dequeue] on an empty one; each call is
    atomic. *)
Class Fifo (T : Type) := {
  fifo : Type;
  NewFixedFIFO : Z -> fifo;
  Enqueue : T -> fifo -> option fifo;
  Dequeue : fifo -> option (T * fifo);
  GetLen : fifo -> Z
}.
#[global] Arguments fifo T {_}.

Class FifoLaws (T : Type) `{Fifo T} := {
  contents : fifo T -> list T;
  capacity : fifo T -> Z;
  New_empty n : 0 <= n -> contents (NewFixedFIFO n) = [] /\ capacity (NewFixedFIFO n) = n;
  Enqueue_spec x q :
    match Enqueue x q with
    | Some q' => zlen (contents q) < capacity q /\ contents q' = contents q ++ [x]
                 /\ capacity q' = capacity q
    | None => capacity q <= zlen (contents q)
    end;
  Dequeue_spec q :
    match Dequeue q with
    | Some (x, q') => contents q = x :: contents q' /\ capacity q' = capacity q
    | None => contents q = []
    end;
  GetLen_spec q : GetLen q = zlen (contents q)
}.

(** A list with its capacity. *)
#[export] Instance list_fifo (T : Type) : Fifo T := {|
  fifo := list T * Z;
  NewFixedFIFO n := ([], n);
  Enqueue x q := if zlen q.1 <? q.2 then Some (q.1 ++ [x], q.2) else None;
  Dequeue q := match q.1 with [] => None | x :: l => Some (x, (l, q.2)) end;
  GetLen q := zlen q.1
|}.
#[export] Instance list_fifo_laws (T : Type) : FifoLaws T.
Proof.
  refine (@Build_FifoLaws T (list_fifo T) fst snd _ _ _ _).
  - done.
  - intros x [l c]. cbn. destruct (zlen l <? c) eqn:E; b2p; cbn; [done|lia].
  - intros [[|x l] c]; done.
  - done.
Defined.

(** The unbounded [FIFO] of the same package. *)
Class Queue (T : Type) := {
  queue : Type;
  NewFIFO : queue;
  QEnqueue : T -> queue -> queue;
  QDequeue : queue -> option (T * queue);
  QGet0 : queue -> option T;
  QGetLen : queue -> Z
}.
#[global] Arguments queue T {_}.

Class QueueLaws (T : Type) `{Queue T} := {
  elements : queue T -> list T;
  NewFIFO_empty : elements NewFIFO = [];
  QEnqueue_spec x q : elements (QEnqueue x q) = elements q ++ [x];
  QDequeue_spec q :
    match QDequeue q with
    | Some (x, q') => elements q = x :: elements q'
    | None => elements q = []
    end;
  QGet0_spec q : QGet0 q = head (elements q);
  QGetLen_spec q : QGetLen q = zlen (elements q)
}.

#[export] Instance list_queue (T : Type) : Queue T := {|
  queue := list T;
  NewFIFO := [];
  QEnqueue x q := q ++ [x];
  QDequeue q := match q with [] => None | x :: l => Some (x, l) end;
  QGet0 q := head q;
  QGetLen q := zlen q
|}.
#[export] Instance list_queue_laws (T : Type) : QueueLaws T.
Proof. refine (@Build_QueueLaws T (list_queue T) (fun q => q) _ _ _ _ _); try done. by intros [|]. Defined.
