(* ===== verification/GoFloat.v ===== *)
(** * Floating point of the transports

    [float32] and [float64] are [spec_float] at the precisions of IEEE 754
    binary32 and binary64; here are the conversions between them, to integers
    and to durations, which FRONT's relatives compute their rates with. *)
From S2P Require Import Prelude GoStd Rand.
From Stdlib Require Export SpecFloat.

Module GoFloat.

Definition f32_sub := SFsub 24 128.
Definition f32_add := SFadd 24 128.
Definition f32_mul := SFmul 24 128.
Definition f32_div := SFdiv 24 128.
Definition f64_add := SFadd 53 1024.
Definition f64_mul := SFmul 53 1024.
Definition f64_div := SFdiv 53 1024.

(** [float32 (z)] and [float64 (z)] of an integer. *)
Definition f32_of_Z (z : Z) : spec_float := binary_normalize 24 128 z 0 false.
Definition f64_of_Z (z : Z) : spec_float := MathRand.float_of_Z z.

(** [float64 (x)] of a [float32]. *)
Definition widen (x : spec_float) : spec_float :=
  match x with
  | S754_finite s m e => binary_normalize 53 1024 (if s then Zneg m else Zpos m) e s
  | _ => x
  end.

Definition fltb (a b : spec_float) : bool :=
  match SFcompare a b with Some Lt => true | _ => false end.

(** What a conversion to an integer type gives when the value is not in its
    range, infinite or not a number, which Go leaves to the implementation. *)
Section conversions.
Context (overflow : spec_float -> Z).

Definition in_range (bits : Z) (x : spec_float) (v : Z) : Z :=
  if (- 2 ^ (bits - 1) <=? v) && (v <? 2 ^ (bits - 1)) then v else overflow x.

(** [int (math.Round (x))]: half away from zero. *)
Definition round_int (x : spec_float) : Z :=
  match x with
  | S754_zero _ => 0
  | S754_finite s m e =>
      let a := if 0 <=? e then Zpos m * 2 ^ e
               else (Zpos m + 2 ^ (- e - 1)) / 2 ^ (- e) in
      in_range 64 x (if s then - a else a)
  | _ => overflow x
  end.

(** [int32 (x)], [int64 (x)]: towards zero. *)
Definition trunc_int (bits : Z) (x : spec_float) : Z :=
  match x with
  | S754_zero _ => 0
  | S754_finite s m e =>
      let a := if 0 <=? e then Zpos m * 2 ^ e else Zpos m / 2 ^ (- e) in
      in_range bits x (if s then - a else a)
  | _ => overflow x
  end.
End conversions.

(** [time.Duration.Seconds]. *)
Definition seconds (d : Z) : spec_float :=
  f64_add (f64_of_Z (Z.quot d 1000000000))
          (f64_div (f64_of_Z (Z.rem d 1000000000)) (f64_of_Z 1000000000)).
End GoFloat.
