(* ===== verification/GoText.v ===== *)
(** * Text conversions of Go's standard library

    What the configuration code uses of [encoding/base64], [strings],
    [strconv], [fmt] and [encoding/json].  Numbers are read and written
    exactly: a decimal or hexadecimal literal is a ratio of integers, rounded
    once to the format.  JSON is modelled on documents; their concrete syntax
    is left out, because the code under verification only marshals and
    unmarshals whole files. *)
From S2P Require Import Prelude GoStd Rand GoFloat.

(** ** [encoding/base64]: [StdEncoding] *)
Module Base64.
Definition alphabet : bytes :=
  str "ABCDEFGHIJKLMNOPQRSTUVWXYZabcdefghijklmnopqrstuvwxyz0123456789+/".
Definition padChar : byte := Byte.x3d.

Definition digit (n : Z) : byte := nth (Z.to_nat n) alphabet padChar.
Definition value (c : byte) : option Z :=
  match list_find (fun d => d = c) alphabet with
  | Some (i, _) => Some (Z.of_nat i)
  | None => None
  end.

Fixpoint EncodeToString (src : bytes) : bytes :=
  match src with
  | [] => []
  | [a] =>
      let v := b2z a * 65536 in
      [digit (v / 262144); digit (v / 4096 mod 64); padChar; padChar]
  | [a; b] =>
      let v := b2z a * 65536 + b2z b * 256 in
      [digit (v / 262144); digit (v / 4096 mod 64); digit (v / 64 mod 64); padChar]
  | a :: b :: c :: src =>
      let v := b2z a * 65536 + b2z b * 256 + b2z c in
      digit (v / 262144) :: digit (v / 4096 mod 64) :: digit (v / 64 mod 64)
      :: digit (v mod 64) :: EncodeToString src
  end.

(** The only error is [CorruptInputError]; bits beyond the last byte are ignored. *)
Fixpoint quanta (s : bytes) : option bytes :=
  match s with
  | [] => Some []
  | p :: q :: r :: t :: s =>
      a ← value p; b ← value q;
      if bool_decide (r = padChar) then
        if bool_decide (t = padChar /\ s = []) then Some [z2b ((a * 64 + b) / 16)] else None
      else
        c ← value r;
        if bool_decide (t = padChar) then
          if bool_decide (s = []) then
            let v := (a * 64 + b) * 64 + c in Some [z2b (v / 1024); z2b (v / 4)]
          else None
        else
          d ← value t;
          let v := ((a * 64 + b) * 64 + c) * 64 + d in
          rest ← quanta s;
          Some (z2b (v / 65536) :: z2b (v / 256) :: z2b v :: rest)
  | _ => None
  end.

Definition newline (c : byte) : bool := bool_decide (c = Byte.x0a \/ c = Byte.x0d).
Definition DecodeString (s : bytes) : option bytes :=
  quanta (List.filter (fun c => negb (newline c)) s).

Lemma value_digit n : 0 <= n < 64 -> value (digit n) = Some n.
Proof.
  intros Hn. rewrite <- (Z2Nat.id n) by lia. assert (Hb : (Z.to_nat n < 64)%nat) by lia.
  revert Hb. generalize (Z.to_nat n). clear. intros n.
  do 64 (destruct n as [|n]; [intros _; reflexivity|]). lia.
Qed.

Lemma digit_plain n : 0 <= n < 64 -> digit n <> padChar /\ newline (digit n) = false.
Proof.
  intros Hn. rewrite <- (Z2Nat.id n) by lia. assert (Hb : (Z.to_nat n < 64)%nat) by lia.
  revert Hb. generalize (Z.to_nat n). clear. intros n.
  do 64 (destruct n as [|n]; [intros _; split; [discriminate|reflexivity]|]). lia.
Qed.

Lemma sextets v : 0 <= v < 16777216 ->
  0 <= v / 262144 < 64 /\ 0 <= v / 4096 mod 64 < 64 /\ 0 <= v / 64 mod 64 < 64 /\ 0 <= v mod 64 < 64.
Proof. intros. repeat split; try apply Z.mod_pos_bound; try lia;
  [apply Z.div_pos; lia|apply Z.div_lt_upper_bound; lia]. Qed.

Lemma div_step v k : 0 < k -> v / (k * 64) * 64 + v / k mod 64 = v / k.
Proof. intros. rewrite <- Z.div_div by lia. pose proof (Z.div_mod (v / k) 64). lia. Qed.

Lemma sextets_join v :
  v / 262144 * 64 + v / 4096 mod 64 = v / 4096
  /\ v / 4096 * 64 + v / 64 mod 64 = v / 64 /\ v / 64 * 64 + v mod 64 = v.
Proof.
  repeat split; [apply (div_step v 4096)|apply (div_step v 64)|]; try lia.
  pose proof (Z.div_mod v 64). lia.
Qed.

Lemma z2b_plus (b : byte) x y : x = b2z b + 256 * y -> z2b x = b.
Proof.
  intros ->. rewrite <- (z2b_b2z b) at 2. unfold z2b.
  by rewrite Z.mul_comm, Z.mod_add by lia.
Qed.

Lemma bytes_ind3 (P : bytes -> Prop) :
  P [] -> (forall a, P [a]) -> (forall a b, P [a; b]) ->
  (forall a b c l, P l -> P (a :: b :: c :: l)) -> forall l, P l.
Proof.
  intros H0 H1 H2 H3. fix IH 1. intros [|a [|b [|c l]]];
  [done|apply H1|apply H2|apply H3, IH].
Qed.

Lemma encode_plain src : List.filter (fun c => negb (newline c)) (EncodeToString src)
  = EncodeToString src.
Proof.
  induction src as [|a|a b|a b c src IH] using bytes_ind3; [done|..];
    cbn [EncodeToString];
    match goal with |- context [digit (?v / 262144)] =>
      assert (Hv : 0 <= v < 16777216) by (pose proof (b2z_range a);
        try pose proof (b2z_range b); try pose proof (b2z_range c); lia);
      destruct (sextets v Hv) as (S1 & S2 & S3 & S4) end;
    cbn [List.filter]; rewrite ?(proj2 (digit_plain _ S1)), ?(proj2 (digit_plain _ S2)),
      ?(proj2 (digit_plain _ S3)), ?(proj2 (digit_plain _ S4)); cbn [negb]; by rewrite ?IH.
Qed.

(** The bytes of a group of three. *)
Lemma group_bytes a b c (v := b2z a * 65536 + b2z b * 256 + b2z c) :
  z2b (v / 65536) = a /\ z2b (v / 256) = b /\ z2b v = c.
Proof.
  pose proof (b2z_range b). pose proof (b2z_range c). repeat split.
  - apply (z2b_plus _ _ 0). symmetry. apply Z.div_unique with (r := b2z b * 256 + b2z c); lia.
  - apply (z2b_plus _ _ (b2z a)). symmetry. apply Z.div_unique with (r := b2z c); lia.
  - apply (z2b_plus _ _ (b2z a * 256 + b2z b)). lia.
Qed.

Lemma Base64_roundtrip src : DecodeString (EncodeToString src) = Some src.
Proof.
  unfold DecodeString. rewrite encode_plain.
  induction src as [|a|a b|a b c src IH] using bytes_ind3; [done|..];
    cbn [EncodeToString];
    match goal with |- context [digit (?v / 262144)] =>
      assert (Hv : 0 <= v < 16777216) by (pose proof (b2z_range a);
        try pose proof (b2z_range b); try pose proof (b2z_range c); lia);
      destruct (sextets v Hv) as (S1 & S2 & S3 & S4); destruct (sextets_join v) as (J1 & J2 & J3)
    end;
    cbn [quanta]; rewrite !value_digit by done; cbn [mbind option_bind];
    repeat (rewrite bool_decide_false by (apply digit_plain; done));
    repeat (rewrite bool_decide_true by done); rewrite J1, ?J2, ?J3, ?Z.div_div by lia.
  - destruct (group_bytes a Byte.x00 Byte.x00) as (B1 & _ & _).
    change (b2z Byte.x00) with 0 in B1. rewrite !Z.mul_0_l, !Z.add_0_r in B1.
    change (4096 * 16) with 65536. by rewrite B1.
  - destruct (group_bytes a b Byte.x00) as (B1 & B2 & _).
    change (b2z Byte.x00) with 0 in B1, B2. rewrite !Z.add_0_r in B1, B2.
    change (64 * 1024) with 65536. change (64 * 4) with 256. by rewrite B1, B2.
  - destruct (group_bytes a b c) as (B1 & B2 & B3). rewrite IH. cbn. by rewrite B1, B2, B3.
Qed.

(** A single byte left over: the text ends in two pad characters. *)
Lemma encode_suffix k src : length src = (3 * k + 1)%nat ->
  exists s, EncodeToString src = s ++ [padChar; padChar].
Proof.
  revert src. induction k as [|k IH]; intros src Hl.
  - destruct src as [|a [|]]; try done. by eexists [_; _].
  - destruct src as [|a [|b [|c src]]]; cbn in Hl; try lia.
    destruct (IH src) as [s Hs]; [lia|]. cbn [EncodeToString]. rewrite Hs.
    by eexists (_ :: _ :: _ :: _ :: s).
Qed.
End Base64.

(** ** [strings] *)
Module Strings.
Definition HasSuffix (s suffix : bytes) : bool :=
  bool_decide (zlen suffix <= zlen s /\ zdrop (zlen s - zlen suffix) s = suffix).
Definition TrimSuffix (s suffix : bytes) : bytes :=
  if HasSuffix s suffix then ztake (zlen s - zlen suffix) s else s.

Lemma TrimSuffix_app s suffix : TrimSuffix (s ++ suffix) suffix = s.
Proof.
  unfold TrimSuffix, HasSuffix. rewrite zlen_app.
  replace (zlen s + zlen suffix - zlen suffix) with (zlen s) by lia.
  rewrite bool_decide_true; [by apply ztake_app|].
  split; [zlia|by apply zdrop_app].
Qed.

(** ASCII [ToLower]. *)
Definition lower (c : byte) : byte :=
  if (65 <=? b2z c) && (b2z c <=? 90) then z2b (b2z c + 32) else c.
End Strings.

(** ** [strconv]: integers *)
Module Atoi.
Definition digit_val (c : byte) : option Z :=
  if (48 <=? b2z c) && (b2z c <=? 57) then Some (b2z c - 48) else None.

Fixpoint decimal (acc : Z) (s : bytes) : option Z :=
  match s with
  | [] => Some acc
  | c :: s => d ← digit_val c; decimal (acc * 10 + d) s
  end.

Definition unsigned (s : bytes) : option Z :=
  match s with [] => None | _ => decimal 0 s end.

Definition signed (s : bytes) : option Z :=
  match s with
  | [] => None
  | c :: r =>
      if bool_decide (c = Byte.x2b) then unsigned r
      else if bool_decide (c = Byte.x2d) then Z.opp <$> unsigned r
      else unsigned s
  end.

(** [strconv.ParseInt (s, 10, bits)]; [None] is any error. *)
Definition ParseInt (bits : Z) (s : bytes) : option Z :=
  v ← signed s;
  if (- 2 ^ (bits - 1) <=? v) && (v <? 2 ^ (bits - 1)) then Some v else None.

(** [strconv.Atoi] and [strconv.Itoa] on 64-bit [int]s. *)
Definition Atoi : bytes -> option Z := ParseInt 64.
Definition Itoa : Z -> bytes := Strconv.FormatInt.

Definition int_ok (bits v : Z) : Prop := - 2 ^ (bits - 1) <= v < 2 ^ (bits - 1).

Lemma digit_val_digit n : 0 <= n < 10 -> digit_val (z2b (48 + n)) = Some n.
Proof.
  intros. unfold digit_val. rewrite b2z_z2b, Z.mod_small by lia.
  destruct (_ <=? _) eqn:?; destruct (_ <=? 57) eqn:?; b2p; try lia. cbn. f_equal. lia.
Qed.

Lemma decimal_digits fuel : forall n acc, 0 <= n < 10 ^ Z.of_nat fuel -> (0 < fuel)%nat ->
  decimal 0 (Strconv.digits fuel n acc) = decimal n acc.
Proof.
  induction fuel as [|fuel IH]; intros n acc Hn Hf; [lia|]. cbn [Strconv.digits].
  destruct (n <? 10) eqn:E; b2p.
  - cbn [decimal]. by rewrite Z.mod_small, digit_val_digit by lia.
  - assert (0 < fuel)%nat by (destruct fuel; [|lia]; change (10 ^ Z.of_nat 1) with 10 in Hn; lia).
    rewrite Nat2Z.inj_succ, Z.pow_succ_r in Hn by lia.
    rewrite IH; [|split; [apply Z.div_pos; lia|apply Z.div_lt_upper_bound; lia]|done].
    cbn [decimal]. rewrite digit_val_digit by (apply Z.mod_pos_bound; lia). cbn.
    f_equal. pose proof (Z.div_mod n 10). lia.
Qed.

Lemma digits_head fuel : forall n acc, 0 <= n -> (0 < fuel)%nat ->
  exists d s, 0 <= d < 10 /\ Strconv.digits fuel n acc = z2b (48 + d) :: s.
Proof.
  induction fuel as [|fuel IH]; intros n acc Hn Hf; [lia|]. cbn [Strconv.digits].
  pose proof (Z.mod_pos_bound n 10 ltac:(lia)).
  destruct (n <? 10) eqn:E; b2p; [by exists (n mod 10), acc|].
  destruct fuel as [|fuel]; [by exists (n mod 10), acc|]. apply IH; [apply Z.div_pos; lia|lia].
Qed.

Lemma unsigned_digits n : 0 <= n < 10 ^ 20 -> unsigned (Strconv.digits 20 n []) = Some n.
Proof.
  intros Hn. destruct (digits_head 20 n []) as (d & s & _ & E); [lia..|].
  unfold unsigned. rewrite E. rewrite <- E.
  rewrite decimal_digits; [done|exact Hn|lia].
Qed.

Lemma ParseInt_FormatInt bits v : bits <= 64 -> int_ok bits v ->
  ParseInt bits (Strconv.FormatInt v) = Some v.
Proof.
  intros Hb Hv.
  assert (H64 : - 2 ^ 63 <= v < 2 ^ 63).
  { destruct Hv. pose proof (Z.pow_le_mono_r 2 (bits - 1) 63). lia. }
  assert (Hs : signed (Strconv.FormatInt v) = Some v).
  { unfold Strconv.FormatInt. destruct (v <? 0) eqn:E; b2p.
    - cbn [signed]. rewrite bool_decide_false, bool_decide_true by done.
      rewrite unsigned_digits by lia. cbn. f_equal. lia.
    - destruct (digits_head 20 v []) as (d & s & Hd & Ed); [lia..|].
      unfold signed. rewrite Ed, !bool_decide_false; [rewrite <- Ed; apply unsigned_digits; lia|..];
        intros Hc; apply (f_equal b2z) in Hc; rewrite b2z_z2b, Z.mod_small in Hc by lia;
        [change (b2z Byte.x2d) with 45 in Hc || change (b2z Byte.x2b) with 43 in Hc; lia..]. }
  unfold ParseInt. rewrite Hs. cbn. unfold int_ok in Hv.
  destruct (_ <=? _) eqn:?; destruct (_ <? _) eqn:?; b2p; try done; lia.
Qed.

Lemma Atoi_Itoa v : int_ok 64 v -> Atoi (Itoa v) = Some v.
Proof. apply ParseInt_FormatInt. lia. Qed.
End Atoi.

(** ** [strconv]: floating point *)
Module FloatText.
(** A format: precision and largest exponent, as for [SpecFloat]. *)
Record format := mkFormat { prec : Z; emax : Z }.
Definition binary32 : format := mkFormat 24 128.
Definition binary64 : format := mkFormat 53 1024.

(** The value [(-1)^s * num / den * 2^e], rounded to nearest, ties to even. *)
Definition round_ratio (f : format) (s : bool) (num den : positive) (e : Z) : spec_float :=
  let '(q, e', l) :=
    SFdiv_core_binary (prec f) (emax f) (Zpos num) (Z.max e 0) (Zpos den) (Z.max (- e) 0) in
  binary_round_aux (prec f) (emax f) s q e' l.

Definition round_decimal (f : format) (s : bool) (mant exp : Z) : spec_float :=
  match mant with
  | Zpos m =>
      if 0 <=? exp then round_ratio f s (m * Z.to_pos (10 ^ exp))%positive 1 0
      else round_ratio f s m (Z.to_pos (10 ^ (- exp))) 0
  | _ => S754_zero s
  end.

Definition round_hex (f : format) (s : bool) (mant exp : Z) : spec_float :=
  match mant with Zpos m => round_ratio f s m 1 exp | _ => S754_zero s end.

Definition hex_val (hex : bool) (c : byte) : option Z :=
  match Atoi.digit_val c with
  | Some d => Some d
  | None =>
      let l := b2z (Strings.lower c) in
      if hex && (97 <=? l) && (l <=? 102) then Some (l - 87) else None
  end.

(** The digits: mantissa, digits after the point, whether there was a digit, the rest. *)
Fixpoint mantissa (hex dot saw : bool) (mant frac : Z) (s : bytes) : Z * Z * bool * bytes :=
  match s with
  | [] => (mant, frac, saw, [])
  | c :: r =>
      if bool_decide (c = Byte.x5f) then mantissa hex dot saw mant frac r
      else if bool_decide (c = Byte.x2e) then
        if dot then (mant, frac, saw, s) else mantissa hex true saw mant frac r
      else
        match hex_val hex c with
        | Some d =>
            mantissa hex dot true (mant * (if hex then 16 else 10) + d)
              (if dot then frac + 1 else frac) r
        | None => (mant, frac, saw, s)
        end
  end.

(** The digits of the exponent, which must be all that is left. *)
Fixpoint exponent (e : Z) (s : bytes) : option Z :=
  match s with
  | [] => Some e
  | c :: r =>
      if bool_decide (c = Byte.x5f) then exponent e r
      else d ← Atoi.digit_val c; exponent (if e <? 10000 then e * 10 + d else e) r
  end.

Definition signed_exponent (s : bytes) : option Z :=
  let first r := match r with c :: _ => Atoi.digit_val c | [] => None end in
  match s with
  | [] => None
  | c :: r =>
      if bool_decide (c = Byte.x2b) then _ ← first r; exponent 0 r
      else if bool_decide (c = Byte.x2d) then _ ← first r; Z.opp <$> exponent 0 r
      else _ ← first s; exponent 0 s
  end.

(** [underscoreOK]: the last class seen is a digit ([0]), an underscore or neither. *)
Inductive class := Digit | Underscore | Other.
Fixpoint underscores (hex : bool) (last : class) (s : bytes) : bool :=
  match s with
  | [] => match last with Underscore => false | _ => true end
  | c :: r =>
      match hex_val hex c with
      | Some _ => underscores hex Digit r
      | None =>
          if bool_decide (c = Byte.x5f) then
            match last with Digit => underscores hex Underscore r | _ => false end
          else match last with Underscore => false | _ => underscores hex Other r end
      end
  end.

(** A number without its sign. *)
Definition number (f : format) (neg : bool) (s : bytes) : option spec_float :=
  let '(hex, body) :=
    match s with
    | z :: x :: body => if bool_decide (z = Byte.x30 /\ Strings.lower x = Byte.x78 /\ body <> [])
                        then (true, body) else (false, s)
    | _ => (false, s)
    end in
  let '(mant, frac, saw, rest) := mantissa hex false false 0 0 body in
  if negb saw || negb (underscores hex (if hex then Digit else Other) body) then None
  else
    e ← match rest with
        | [] => if hex then None else Some 0
        | c :: r => if bool_decide (Strings.lower c = if hex then Byte.x70 else Byte.x65)
                    then signed_exponent r else None
        end;
    match (if hex then round_hex f neg mant (e - 4 * frac)
           else round_decimal f neg mant (e - frac)) with
    | S754_infinity _ => None (* ErrRange *)
    | v => Some v
    end.

(** [strconv.ParseFloat (s, bits)]; [None] is any error. *)
Definition ParseFloat (f : format) (s : bytes) : option spec_float :=
  let '(sign, body) :=
    match s with
    | c :: r => if bool_decide (c = Byte.x2b) then (Some false, r)
                else if bool_decide (c = Byte.x2d) then (Some true, r) else (None, s)
    | [] => (None, [])
    end in
  let neg := default false sign in
  let low := map Strings.lower body in
  if bool_decide (low = str "inf" \/ low = str "infinity") then Some (S754_infinity neg)
  else if bool_decide (low = str "nan" /\ sign = None) then Some S754_nan
  else number f neg body.

(** *** Writing *)

Definition nat_text (n : Z) : bytes := Strconv.digits (S (Z.to_nat (Z.log2 n))) n [].

(** A finite value as a ratio. *)
Definition ratio (m : positive) (e : Z) : Z * Z := (Zpos m * 2 ^ Z.max e 0, 2 ^ Z.max (- e) 0).

Definition round_even (num den : Z) : Z :=
  let q := num / den in
  match Z.compare (2 * (num mod den)) den with
  | Lt => q | Gt => q + 1 | Eq => if Z.even q then q else q + 1
  end.

(** Digits of an integer with the point [p] places from the right. *)
Definition place_point (p : Z) (n : Z) : bytes :=
  let d := nat_text n in
  let d := zrepeat (p + 1 - zlen d) Byte.x30 ++ d in
  if p =? 0 then d else ztake (zlen d - p) d ++ Byte.x2e :: zdrop (zlen d - p) d.

Definition with_sign (s : bool) (t : bytes) : bytes := if s then Byte.x2d :: t else t.

(** [%.<p>f] of a [float32] or [float64]. *)
Definition fixed (p : Z) (x : spec_float) : bytes :=
  match x with
  | S754_nan => str "NaN"
  | S754_infinity s => if s then str "-Inf" else str "+Inf"
  | S754_zero s => with_sign s (place_point p 0)
  | S754_finite s m e =>
      let '(num, den) := ratio m e in with_sign s (place_point p (round_even (num * 10 ^ p) den))
  end.

(** The number of digits before the point: the least [k] with [num / den < 10 ^ k]. *)
Fixpoint scale (fuel : nat) (k num den : Z) : Z :=
  match fuel with
  | O => k
  | S fuel =>
      if num * 10 ^ Z.max (- k) 0 <? den * 10 ^ Z.max k 0 then k else scale fuel (k + 1) num den
  end.

(** The least number of digits, from [n] on, of a decimal that reads back as
    [x]; the digits and the place of the last one. *)
Fixpoint shortest (fuel : nat) (n k num den : Z) (reads : Z -> Z -> bool) : Z * Z :=
  let p := n - k in
  let num' := num * 10 ^ Z.max p 0 in
  let den' := den * 10 ^ Z.max (- p) 0 in
  let lo := num' / den' in
  match fuel with
  | O => (lo, p)
  | S fuel =>
      match reads lo (- p), reads (lo + 1) (- p) with
      | true, true => (round_even num' den', p)
      | true, false => (lo, p)
      | false, true => (lo + 1, p)
      | false, false => shortest fuel (n + 1) k num den reads
      end
  end.

(** [strconv.FormatFloat (x, 'f', -1, bits)]. *)
Definition FormatShortest (f : format) (x : spec_float) : bytes :=
  match x with
  | S754_nan => str "NaN"
  | S754_infinity s => if s then str "-Inf" else str "+Inf"
  | S754_zero s => with_sign s [Byte.x30]
  | S754_finite s m e =>
      let '(num, den) := ratio m e in
      let k := scale 8 ((Z.log2 num - Z.log2 den) * 30103 / 100000 - 2) num den in
      let '(d, p) := shortest 18 1 k num den
        (fun d p => MathRand.float_eqb (round_decimal f false d p) (S754_finite false m e)) in
      with_sign s (if p <? 0 then nat_text d ++ zrepeat (- p) Byte.x30 else place_point p d)
  end.
End FloatText.

(** ** [encoding/json] on documents *)
Module Json.
(** [JInt] is a number literal without fraction or exponent; [JFloat] any
    other number, as the closest [float64].  No field of the structs that are
    read holds an array or an object: those are [JNested]. *)
Inductive value :=
| JNull | JBool (b : bool) | JInt (z : Z) | JFloat (x : spec_float) | JString (s : bytes)
| JNested.

(** A file: an object, or a document that is another value. *)
Inductive document := Object (fields : list (bytes * value)) | Other (v : value).

(** Keys match the names of struct fields up to case: ASCII letters, and the
    two other characters that fold to one (Kelvin sign, long s). *)
Fixpoint fold_from (skip : nat) (s : bytes) : bytes :=
  match s with
  | [] => []
  | c :: r =>
      match skip with
      | S skip => fold_from skip r
      | O =>
          if is_prefix_of [Byte.xe2; Byte.x84; Byte.xaa] s then Byte.x6b :: fold_from 2 r
          else if is_prefix_of [Byte.xc5; Byte.xbf] s then Byte.x73 :: fold_from 1 r
          else Strings.lower c :: fold_from 0 r
      end
  end.
Definition fold_key : bytes -> bytes := fold_from 0.

(** What [Unmarshal] stores into a field; [None] is an [UnmarshalTypeError]. *)
Definition to_string (v : value) (old : bytes) : option bytes :=
  match v with JString s => Some s | JNull => Some old | _ => None end.
Definition to_int (v : value) (old : Z) : option Z :=
  match v with
  | JInt z => if (- 2 ^ 63 <=? z) && (z <? 2 ^ 63) then Some z else None
  | JNull => Some old
  | _ => None
  end.
Definition to_float64 (v : value) (old : spec_float) : option spec_float :=
  let finite x := match x with S754_infinity _ | S754_nan => None | _ => Some x end in
  match v with
  | JInt z => finite (MathRand.float_of_Z z)
  | JFloat x => finite x
  | JNull => Some old
  | _ => None
  end.

(** [Unmarshal] into a struct whose fields [set] assigns: [set key v s] is
    [None] on a type error and [Some s] for keys that are not fields. *)
Definition Unmarshal {S} (set : bytes -> value -> S -> option S) (doc : document) (s : S) : option S :=
  match doc with
  | Other JNull => Some s
  | Object fields => foldl (fun r kv => s ← r; set (fold_key kv.1) kv.2 s) (Some s) fields
  | Other _ => None
  end.

(** A [float32] or [float64] as its shortest literal. *)
Definition of_float (f : FloatText.format) (x : spec_float) : value :=
  match x with
  | S754_infinity _ | S754_nan => JFloat x
  | _ =>
      let t := FloatText.FormatShortest f x in
      match Atoi.signed t with
      | Some z => if Z.abs z <? 10 ^ 21 then JInt z else JFloat (MathRand.float_of_Z z)
      | None => JFloat (default x (FloatText.ParseFloat FloatText.binary64 t))
      end
  end.

(** [Marshal] fails on a number that is not finite. *)
Definition supported (v : value) : bool :=
  match v with JFloat (S754_infinity _ | S754_nan) => false | _ => true end.
Definition Marshal (fields : list (bytes * value)) : option document :=
  if forallb (fun kv => supported kv.2) fields then Some (Object fields) else None.
End Json.
