(* ===== verification/GoAddr.v ===== *)
(** * Addresses as text: [net.SplitHostPort], [net.ParseIP], [strconv.ParseUint]

    What [obfs4proxy] and [common/log] use of package [net] to take an address
    apart: executable definitions, and the round trips of what the SOCKS 5 front
    end prints.  [None] is any error, since the callers only pass it on. *)
From S2P Require Import Prelude GoStd GoText.

Module GoAddr.
Definition colon : byte := Byte.x3a.
Definition dot : byte := Byte.x2e.
Definition lbracket : byte := Byte.x5b.
Definition rbracket : byte := Byte.x5d.
Definition percent : byte := Byte.x25.

(** [strconv.ParseUint (s, 10, bits)]. *)
Definition ParseUint (bits : Z) (s : bytes) : option Z :=
  v ← Atoi.unsigned s;
  if v <? 2 ^ bits then Some v else None.

(** ** [net.SplitHostPort] *)

(** The text before the first [c], and what follows it. *)
Fixpoint cut (c : byte) (s : bytes) : option (bytes * bytes) :=
  match s with
  | [] => None
  | x :: s => if bool_decide (x = c) then Some ([], s) else
      '(a, b) ← cut c s; Some (x :: a, b)
  end.
Definition contains (c : byte) (s : bytes) : bool := bool_decide (c ∈ s).
(** The text before the last [c], and what follows it. *)
Definition cut_last (c : byte) (s : bytes) : option (bytes * bytes) :=
  '(a, b) ← cut c (rev s); Some (rev b, rev a).

Definition SplitHostPort (hostport : bytes) : option (bytes * bytes) :=
  '(before, port) ← cut_last colon hostport;
  match hostport with
  | [] => None
  | c :: inside =>
      if bool_decide (c = lbracket) then
        (* the first ']' must be just before the last ':' *)
        '(host, after) ← cut rbracket inside;
        if bool_decide (after = colon :: port)
           && negb (contains lbracket inside) && negb (contains rbracket after)
        then Some (host, port) else None
      else
        if contains colon before || contains lbracket hostport || contains rbracket hostport
        then None else Some (before, port)
  end.

(** ** [net.ParseIP] *)

(** The octets of a dotted address: [prev] is the character before, [val] and
    [digLen] those of the octet under way, [fields] the octets that are complete. *)
Fixpoint octets (prev : option byte) (fields : list Z) (val digLen : Z) (s : bytes) : option bytes :=
  match s with
  | [] => if zlen fields <? 3 then None else Some (map z2b (fields ++ [val]))
  | c :: s =>
      match Atoi.digit_val c with
      | Some d =>
          if (digLen =? 1) && (val =? 0) then None else
          let val := val * 10 + d in
          if 255 <? val then None else octets (Some c) fields val (digLen + 1) s
      | None =>
          if bool_decide (c = dot) then
            if bool_decide (prev = None) || bool_decide (s = []) || bool_decide (prev = Some dot) then None
            else if zlen fields =? 3 then None
            else octets (Some c) (fields ++ [val]) 0 0 s
          else None
      end
  end.
Definition parseIPv4 (s : bytes) : option bytes := octets None [] 0 0 s.

(** A group of at most four hexadecimal digits: its value, how many, the rest. *)
Fixpoint hexgroup (off acc : Z) (s : bytes) : option (Z * Z * bytes) :=
  match s with
  | [] => Some (acc, off, [])
  | c :: r =>
      match Hex.fromHexChar c with
      | Some d => if 3 <? off then None else hexgroup (off + 1) (acc * 16 + d) r
      | None => Some (acc, off, s)
      end
  end.

(** The groups of an IPv6 address: [ip] is what was parsed, [ellipsis] where the
    [::] was.  Every round uses up a character. *)
Fixpoint groups6 (fuel : nat) (ellipsis : option Z) (ip : bytes) (s : bytes)
    : option (option Z * bytes * bytes) :=
  if 16 <=? zlen ip then Some (ellipsis, ip, s) else
  match fuel with
  | O => None
  | S fuel =>
      '(acc, off, r) ← hexgroup 0 0 s;
      if off =? 0 then None else
      if bool_decide (head r = Some dot) then
        if bool_decide (ellipsis = None) && negb (zlen ip =? 12) then None
        else if 16 <? zlen ip + 4 then None
        else v4 ← parseIPv4 s; Some (ellipsis, ip ++ v4, [])
      else
        let ip := ip ++ [z2b (acc / 256); z2b acc] in
        match r with
        | [] => Some (ellipsis, ip, [])
        | c :: r =>
            if bool_decide (c <> colon) then None else
            match r with
            | [] => None
            | c :: r' =>
                if bool_decide (c = colon) then
                  if bool_decide (ellipsis <> None) then None
                  else match r' with
                       | [] => Some (Some (zlen ip), ip, [])
                       | _ => groups6 fuel (Some (zlen ip)) ip r'
                       end
                else groups6 fuel ellipsis ip r
            end
        end
  end.

Definition expand (ellipsis : option Z) (ip : bytes) : option bytes :=
  match ellipsis with
  | None => if zlen ip <? 16 then None else Some ip
  | Some e => if zlen ip <? 16
              then Some (ztake e ip ++ zrepeat (16 - zlen ip) Byte.x00 ++ zdrop e ip) else None
  end.

Definition parseIPv6 (s : bytes) : option bytes :=
  let '(ellipsis, s) :=
    match s with
    | c1 :: c2 :: r => if bool_decide (c1 = colon) && bool_decide (c2 = colon)
                       then (Some 0, r) else (None, s)
    | _ => (None, s)
    end in
  match ellipsis, s with
  | Some _, [] => Some (zrepeat 16 Byte.x00)
  | _, _ =>
      '(ellipsis, ip, r) ← groups6 (length s) ellipsis [] s;
      match r with [] => expand ellipsis ip | _ => None end
  end.

(** [net.IPv4 (a, b, c, d)]. *)
Definition v4_prefix : bytes := replicate 10 Byte.x00 ++ replicate 2 Byte.xff.

(** Which parser it is, the first of [.], [:] and [%] says; no zones. *)
Fixpoint kind (s : bytes) : option byte :=
  match s with
  | [] => None
  | c :: s => if bool_decide (c = dot \/ c = colon \/ c = percent) then Some c else kind s
  end.
Definition ParseIP (s : bytes) : option bytes :=
  c ← kind s;
  if bool_decide (c = dot) then v4 ← parseIPv4 s; Some (v4_prefix ++ v4)
  else if bool_decide (c = colon) then
    if contains percent s then None else parseIPv6 s
  else None.

(** [net.IP.To4] of a 16-byte address. *)
Definition To4 (ip : bytes) : option bytes :=
  if bool_decide (ztake 12 ip = v4_prefix) then Some (zdrop 12 ip) else None.

Example ParseIP_v6 : NetIP.String <$> ParseIP (str "2001:DB8::1:0:0:7") = Some (str "2001:db8::1:0:0:7").
Proof. vm_compute. reflexivity. Qed.
Example ParseIP_v4in6 : ParseIP (str "::ffff:10.1.2.3") = ParseIP (str "10.1.2.3").
Proof. vm_compute. reflexivity. Qed.
Example ParseIP_zero : ParseIP (str "10.1.02.3") = None.
Proof. vm_compute. reflexivity. Qed.
Example SplitHostPort_v6 : SplitHostPort (str "[::1]:80") = Some (str "::1", str "80").
Proof. vm_compute. reflexivity. Qed.

(** Every round of [groups6] uses up a character: the length is enough fuel. *)
Lemma hexgroup_rest s : forall off acc v n r,
  hexgroup off acc s = Some (v, n, r) -> 0 <= off ->
  off <= n /\ (length r + Z.to_nat (n - off) = length s)%nat.
Proof.
  induction s as [|c s IH]; cbn; intros off acc v n r; [intros [= <- <- <-]; cbn; lia|].
  destruct (Hex.fromHexChar c); [|intros [= <- <- <-]; cbn; lia].
  destruct (3 <? off); [done|]. intros E Ho. apply IH in E; lia.
Qed.
Lemma groups6_fuel : forall fuel fuel' e ip s, (length s <= fuel)%nat -> (length s <= fuel')%nat ->
  groups6 fuel e ip s = groups6 fuel' e ip s.
Proof.
  assert (Hnil : forall fuel e ip, groups6 fuel e ip [] = groups6 0 e ip []).
  { intros [|fuel] e ip; cbn; by destruct (16 <=? zlen ip). }
  induction fuel as [|fuel IH]; intros fuel' e ip s Hf Hf'.
  { destruct s; [|cbn in Hf; lia]. by rewrite (Hnil fuel'). }
  destruct fuel' as [|fuel']; [destruct s; [by rewrite !Hnil|cbn in Hf'; lia]|]. cbn [groups6].
  destruct (16 <=? zlen ip); [done|].
  destruct (hexgroup 0 0 s) as [[[acc off] r]|] eqn:E; [|done]. cbn.
  apply hexgroup_rest in E as [Ho El]; [|lia]. destruct (off =? 0) eqn:E0; [done|]. b2p.
  destruct (bool_decide (head r = Some dot)); [done|].
  destruct r as [|c r]; [done|]. cbn in El. destruct (bool_decide _); [done|].
  destruct r as [|c' r]; [done|]. cbn in El. destruct (bool_decide _).
  - destruct (bool_decide _); [done|]. destruct r; [done|]. cbn in El. apply IH; cbn; lia.
  - apply IH; cbn; lia.
Qed.

(** ** Round trips *)

Lemma cut_first c a b : c ∉ a -> cut c (a ++ c :: b) = Some (a, b).
Proof.
  induction a as [|x a IH]; cbn; intros Hc.
  - by rewrite bool_decide_true.
  - apply not_elem_of_cons in Hc as [Hx Ha]. rewrite bool_decide_false by congruence.
    by rewrite IH.
Qed.
Lemma cut_last_first c a b : c ∉ b -> cut_last c (a ++ c :: b) = Some (a, b).
Proof.
  intros Hc. unfold cut_last. rewrite rev_app_distr. cbn [rev]. rewrite <- app_assoc.
  assert (c ∉ rev b) as E%(cut_first c (rev b) (rev a)) by (by rewrite list_elem_of_In, <- in_rev, <- list_elem_of_In).
  cbn in *. rewrite E. cbn. by rewrite !rev_involutive.
Qed.

(** Text that no delimiter occurs in. *)
Definition plain (s : bytes) : Prop := (colon ∉ s) /\ (lbracket ∉ s) /\ (rbracket ∉ s).

Lemma SplitHostPort_join host port : plain host -> plain port -> host <> [] ->
  SplitHostPort (host ++ str ":" ++ port) = Some (host, port).
Proof.
  intros (Hc & Hl & Hr) (Pc & Pl & Pr) Hn. change (str ":" ++ port) with (colon :: port).
  unfold SplitHostPort. rewrite cut_last_first by done. cbn.
  destruct host as [|c host]; [done|]. cbn [app]. 
  rewrite bool_decide_false by (intros ->; apply Hl; left).
  rewrite app_comm_cons. unfold contains.
  assert (Hno : forall x, x <> colon -> (x ∉ c :: host) -> (x ∉ port) -> x ∉ (c :: host) ++ colon :: port).
  { intros x Hx Hh Hp. by intros [?|[?|?]%elem_of_cons]%elem_of_app. }
  rewrite !bool_decide_false; [done|by apply Hno..|done].
Qed.

Lemma octet_digits (b : byte) prev fields s :
  octets prev fields 0 0 (Strconv.FormatInt (b2z b) ++ s)
  = octets (last (Strconv.FormatInt (b2z b))) fields (b2z b) (zlen (Strconv.FormatInt (b2z b))) s.
Proof. destruct b; reflexivity. Qed.
Lemma octet_plain (b : byte) : Forall (fun c => 48 <= b2z c < 58) (Strconv.FormatInt (b2z b)).
Proof. destruct b; vm_compute; repeat constructor; discriminate. Qed.

(** The four octets of [net.IPv4], printed and read again. *)
Lemma parseIPv4_dotted a b c d : parseIPv4 (NetIP.dotted [a; b; c; d]) = Some [a; b; c; d].
Proof.
  unfold parseIPv4, NetIP.dotted. cbn [map NetIP.join].
  change (str ".") with [dot]. cbn [app].
  assert (Hdot : forall x prev fields n s, prev <> None -> prev <> Some dot -> s <> [] ->
    zlen fields <> 3 -> octets prev fields x n (dot :: s) = octets (Some dot) (fields ++ [x]) 0 0 s).
  { intros x prev fields n s Hp Hp' Hs Hf. cbn [octets].
    change (Atoi.digit_val dot) with (@None Z). cbv iota.
    rewrite (bool_decide_true (dot = dot)), (bool_decide_false (prev = None)) by done.
    rewrite (bool_decide_false (s = [])), (bool_decide_false (prev = Some dot)) by done. cbn [orb].
    by rewrite (proj2 (Z.eqb_neq _ _)). }
  assert (Hlast : forall x : byte, last (Strconv.FormatInt (b2z x)) <> None
                                   /\ last (Strconv.FormatInt (b2z x)) <> Some dot).
  { intros x. destruct x; by split. }
  assert (Hne : forall (x : byte) s, Strconv.FormatInt (b2z x) ++ s <> []).
  { intros x s. destruct x; done. }
  rewrite octet_digits, Hdot by (apply Hlast || apply Hne || done).
  rewrite octet_digits, Hdot by (apply Hlast || apply Hne || done).
  rewrite octet_digits, Hdot by (apply Hlast || (rewrite <- (app_nil_r (Strconv.FormatInt _)); apply Hne) || done).
  rewrite <- (app_nil_r (Strconv.FormatInt (b2z d))), octet_digits. cbn. by rewrite !z2b_b2z.
Qed.

Lemma ParseIP_dotted a b c d : ParseIP (NetIP.dotted [a; b; c; d]) = Some (v4_prefix ++ [a; b; c; d]).
Proof.
  unfold ParseIP. assert (E : kind (NetIP.dotted [a; b; c; d]) = Some dot).
  { unfold NetIP.dotted. cbn [map NetIP.join]. change (str ".") with [dot].
    by destruct a. }
  rewrite E, parseIPv4_dotted. reflexivity.
Qed.
Lemma To4_v4 l : To4 (v4_prefix ++ l) = Some l.
Proof. unfold To4. by rewrite ztake_app, bool_decide_true, zdrop_app. Qed.

Lemma ParseUint_FormatInt bits n : 0 <= n < 2 ^ bits -> bits <= 64 ->
  ParseUint bits (Strconv.FormatInt n) = Some n.
Proof.
  intros Hn Hb. assert (2 ^ bits <= 2 ^ 64).
  { destruct (Z.le_gt_cases 0 bits); [by apply Z.pow_le_mono_r|rewrite Z.pow_neg_r in Hn; lia]. }
  unfold ParseUint, Strconv.FormatInt. rewrite ltb_false, Atoi.unsigned_digits by lia. cbn.
  by rewrite ltb_true by lia.
Qed.

Lemma dotted_chars l : Forall (fun c => 46 <= b2z c < 58) (NetIP.dotted l).
Proof.
  unfold NetIP.dotted. induction l as [|b l IH]; [constructor|].
  assert (Forall (fun c => 46 <= b2z c < 58) (Strconv.FormatInt (b2z b))).
  { eapply Forall_impl; [apply octet_plain|]. cbn. lia. }
  cbn [map NetIP.join]. destruct l as [|b' l]; [done|]. cbn [map]. change (str ".") with [dot].
  rewrite !Forall_app. split_and!; [done| |done]. repeat constructor. all: vm_compute; discriminate.
Qed.
Lemma chars_plain s : Forall (fun c => 46 <= b2z c < 58) s -> plain s.
Proof.
  rewrite Forall_forall. intros H.
  repeat split; intros Hc%H; vm_compute in Hc; destruct Hc as [H1 H2]; try discriminate; by exfalso; apply H1.
Qed.
Lemma digits_plain s : Forall (fun c => 48 <= b2z c < 58) s -> plain s.
Proof. intros. apply chars_plain. eapply Forall_impl; [done|]. cbn. lia. Qed.
Lemma digits_chars fuel : forall n acc, 0 <= n -> Forall (fun c => 48 <= b2z c < 58) acc ->
  Forall (fun c => 48 <= b2z c < 58) (Strconv.digits fuel n acc).
Proof.
  induction fuel as [|fuel IH]; cbn; intros n acc Hn Ha; [done|].
  pose proof (Z.mod_pos_bound n 10 ltac:(lia)).
  assert (Forall (fun c => 48 <= b2z c < 58) (z2b (48 + n mod 10) :: acc)).
  { constructor; [|done]. rewrite b2z_z2b, Z.mod_small by lia. lia. }
  destruct (n <? 10); [done|]. apply IH; [apply Z.div_pos; lia|done].
Qed.

(** The address of an IPv4 target, as the SOCKS 5 front end prints it, taken apart. *)
Lemma target_v4 a b c d port : 0 <= port < 65536 ->
  let target := NetIP.dotted [a; b; c; d] ++ str ":" ++ Strconv.FormatInt port in
  exists host p, SplitHostPort target = Some (host, p)
    /\ (ip ← ParseIP host; To4 ip) = Some [a; b; c; d] /\ ParseUint 16 p = Some port.
Proof.
  intros Hp target. exists (NetIP.dotted [a; b; c; d]), (Strconv.FormatInt port). split_and!.
  - apply SplitHostPort_join; [apply chars_plain, dotted_chars| |by destruct a].
    unfold Strconv.FormatInt. rewrite ltb_false by lia. apply digits_plain, digits_chars; [lia|done].
  - rewrite ParseIP_dotted. cbn [mbind option_bind]. apply To4_v4.
  - apply ParseUint_FormatInt; lia.
Qed.
End GoAddr.
