(* ===== verification/GoURL.v ===== *)
(** * [net/url]: what [url.Parse] makes of a string

    The parts of a URL that [obfs4proxy] and [meeklite] look at, executable.
    [None] is any error. *)
From S2P Require Import Prelude GoStd GoText GoAddr.

Module GoURL.
(** [Password]: [None] when it is not set. *)
Record Userinfo := mkUser { Username : bytes; Password : option bytes }.
Record URL := mkURL {
  Scheme : bytes; Opaque : bytes; User : option Userinfo; Host : bytes;
  Path : bytes; RawQuery : bytes; Fragment : bytes
}.
#[export] Instance userinfo_eq_dec : EqDecision Userinfo.
Proof. solve_decision. Defined.
#[export] Instance url_eq_dec : EqDecision URL.
Proof. solve_decision. Defined.
Definition IsAbs (u : URL) : bool := bool_decide (Scheme u <> []).

Definition in_range (lo hi : Z) (c : byte) : bool := (lo <=? b2z c) && (b2z c <=? hi).
Definition letter (c : byte) : bool := in_range 97 122 c || in_range 65 90 c.
Definition number (c : byte) : bool := in_range 48 57 c.
Definition among (s : String.string) (c : byte) : bool := bool_decide (c ∈ str s).
Definition control (c : byte) : bool := (b2z c <? 32) || (b2z c =? 127).

(** Cutting at the first separator; without one, all of it and nothing. *)
Definition Cut (c : byte) (s : bytes) : bytes * bytes := default (s, []) (GoAddr.cut c s).
Definition hash : byte := Byte.x23.
Definition slash : byte := Byte.x2f.
Definition question : byte := Byte.x3f.
Definition at_sign : byte := Byte.x40.

(** [getScheme], [seen] being the characters before, reversed; [Some ([], _)] says
    that there is no scheme. *)
Fixpoint scheme_of (seen : bytes) (s : bytes) : option (option (bytes * bytes)) :=
  match s with
  | [] => Some None
  | c :: s =>
      if letter c then scheme_of (c :: seen) s
      else if number c || among "+-." c then
        match seen with [] => Some None | _ => scheme_of (c :: seen) s end
      else if bool_decide (c = GoAddr.colon) then
        match seen with [] => None | _ => Some (Some (rev seen, s)) end
      else Some None
  end.
Definition getScheme (s : bytes) : option (bytes * bytes) :=
  r ← scheme_of [] s; Some (default ([], s) r).

(** *** [unescape] *)
Inductive mode := encodeHost | encodeZone | encodeOther.
Definition shouldEscapeHost (c : byte) : bool :=
  negb (letter c || number c || among "!$&'()*+,;=:[]<>-_.~" c || bool_decide (c = Byte.x22)).

Fixpoint unescape (m : mode) (s : bytes) : option bytes :=
  match s with
  | [] => Some []
  | c :: r =>
      if bool_decide (c = GoAddr.percent) then
        match r with
        | x :: y :: r =>
            hi ← Hex.fromHexChar x; lo ← Hex.fromHexChar y;
            let v := z2b (hi * 16 + lo) in
            let bad := match m with
                       | encodeHost => (hi <? 8) && negb (bool_decide (v = GoAddr.percent))
                       | encodeZone => negb (bool_decide (v = GoAddr.percent))
                                       && negb (bool_decide (v = Byte.x20)) && shouldEscapeHost v
                       | encodeOther => false
                       end in
            if bad then None else t ← unescape m r; Some (v :: t)
        | _ => None
        end
      else
        let bad := match m with
                   | encodeOther => false
                   | _ => (b2z c <? 128) && shouldEscapeHost c
                   end in
        if bad then None else t ← unescape m r; Some (c :: t)
  end.

(** *** [parseHost] and [parseAuthority] *)
Definition validOptionalPort (s : bytes) : bool :=
  match s with [] => true | c :: s => bool_decide (c = GoAddr.colon) && forallb number s end.
Definition escaped_percent : bytes := str "%25".

(** The zone starts at the first [%25] before the bracket. *)
Fixpoint find_zone (s : bytes) : option (bytes * bytes) :=
  match s with
  | [] => None
  | c :: r => if is_prefix_of escaped_percent s then Some ([], s)
              else '(a, b) ← find_zone r; Some (c :: a, b)
  end.

Definition parseHost (host : bytes) : option bytes :=
  if bool_decide (head host = Some GoAddr.lbracket) then
    '(inside, colonPort) ← GoAddr.cut_last GoAddr.rbracket host;
    if negb (validOptionalPort colonPort) then None else
    match find_zone inside with
    | Some (before, zone) =>
        host1 ← unescape encodeHost before; host2 ← unescape encodeZone zone;
        host3 ← unescape encodeHost (GoAddr.rbracket :: colonPort);
        Some (host1 ++ host2 ++ host3)
    | None => unescape encodeHost host
    end
  else
    match GoAddr.cut_last GoAddr.colon host with
    | Some (_, port) => if validOptionalPort (GoAddr.colon :: port) then unescape encodeHost host else None
    | None => unescape encodeHost host
    end.

Definition validUserinfo (s : bytes) : bool :=
  forallb (fun c => letter c || number c || among "-._:~!$&'()*+,;=%@" c) s.

Definition parseAuthority (authority : bytes) : option (option Userinfo * bytes) :=
  match GoAddr.cut_last at_sign authority with
  | None => host ← parseHost authority; Some (None, host)
  | Some (userinfo, hostport) =>
      host ← parseHost hostport;
      if negb (validUserinfo userinfo) then None else
      match GoAddr.cut GoAddr.colon userinfo with
      | None => u ← unescape encodeOther userinfo; Some (Some (mkUser u None), host)
      | Some (username, password) =>
          u ← unescape encodeOther username; p ← unescape encodeOther password;
          Some (Some (mkUser u (Some p)), host)
      end
  end.

Definition strip_query (rest : bytes) : bytes * bytes := Cut question rest.

(** [parse], up to the fragment. *)
Definition parse (rawURL : bytes) : option URL :=
  if existsb control rawURL then None
  else if bool_decide (rawURL = str "*") then Some (mkURL [] [] None [] (str "*") [] [])
  else
    '(scheme, rest) ← getScheme rawURL;
    let scheme := map Strings.lower scheme in
    let '(rest, query) := strip_query rest in
    if negb (bool_decide (head rest = Some slash)) && bool_decide (scheme <> []) then
      Some (mkURL scheme rest None [] [] query [])
    else if negb (bool_decide (head rest = Some slash)) && GoAddr.contains GoAddr.colon (Cut slash rest).1 then None
    else if (bool_decide (scheme <> []) || negb (is_prefix_of (str "///") rest)) && is_prefix_of (str "//") rest then
      let '(authority, path) :=
        match GoAddr.cut slash (drop 2 rest) with
        | Some (authority, path) => (authority, slash :: path)
        | None => (drop 2 rest, [])
        end in
      '(user, host) ← parseAuthority authority;
      path ← unescape encodeOther path;
      Some (mkURL scheme [] user host path query [])
    else
      path ← unescape encodeOther rest;
      Some (mkURL scheme [] None [] path query []).

Definition Parse (rawURL : bytes) : option URL :=
  let '(u, frag) := Cut hash rawURL in
  url ← parse u;
  frag ← unescape encodeOther frag;
  Some (mkURL (Scheme url) (Opaque url) (User url) (Host url) (Path url) (RawQuery url) frag).

Example Parse_proxy : Parse (str "socks5://u%20s:p@[::1]:80")
  = Some (mkURL (str "socks5") [] (Some (mkUser (str "u s") (Some (str "p")))) (str "[::1]:80") [] [] []).
Proof. vm_compute. reflexivity. Qed.
Example Parse_meek : Parse (str "HTTPS://meek.example.com/a%2Fb?q#f")
  = Some (mkURL (str "https") [] None (str "meek.example.com") (str "/a/b") (str "q") (str "f")).
Proof. vm_compute. reflexivity. Qed.
End GoURL.
