(* ===== verification/Log.v ===== *)
(** * Logging: the decisions of [common/log]

    Which messages are emitted, and what of an address or of a network error gets
    into them.  The sink, [log.Print], is the list of lines. *)
From S2P Require Import Prelude GoStd GoText GoAddr.

Module Log.
Definition elidedAddr : bytes := str "[scrubbed]".
(** [iota] counts from the line of [elidedAddr]. *)
Definition LevelError : Z := 1.
Definition LevelWarn : Z := 2.
Definition LevelInfo : Z := 3.
Definition LevelDebug : Z := 4.

Record config := mkConfig { logLevel : Z; enableLogging : bool; unsafeLogging : bool }.
Definition defaults : config := mkConfig LevelInfo false false.

(** [Init]; [opened] is the outcome of [os.OpenFile]. *)
Definition Init {E} (enable unsafe : bool) (opened : option E) (c : config) : result E unit * config :=
  match enable, opened with
  | true, Some e => (Err e, c)
  | _, _ => (Ok tt, mkConfig (logLevel c) enable unsafe)
  end.

(** [strings.ToUpper], as far as its result can be ASCII: besides the ASCII letters
    only the dotless i and the long s have an ASCII upper case. *)
Definition upper (c : byte) : byte :=
  if (97 <=? b2z c) && (b2z c <=? 122) then z2b (b2z c - 32) else c.
Fixpoint ToUpper (s : bytes) : bytes :=
  match s with
  | Byte.xc4 :: Byte.xb1 :: s => Byte.x49 :: ToUpper s
  | Byte.xc5 :: Byte.xbf :: s => Byte.x53 :: ToUpper s
  | c :: s => upper c :: ToUpper s
  | [] => []
  end.

Definition SetLogLevel (s : bytes) (c : config) : result bytes unit * config :=
  let set l := (Ok tt, mkConfig l (enableLogging c) (unsafeLogging c)) in
  let s' := ToUpper s in
  if bool_decide (s' = str "ERROR") then set LevelError
  else if bool_decide (s' = str "WARN") then set LevelWarn
  else if bool_decide (s' = str "INFO") then set LevelInfo
  else if bool_decide (s' = str "DEBUG") then set LevelDebug
  else (Err (str "invalid log level '" ++ s ++ str "'"), c).

(** The lines that a call adds. *)
Definition Noticef (c : config) (msg : bytes) : list bytes :=
  if enableLogging c then [str "[NOTICE]: " ++ msg] else [].
Definition Errorf (c : config) (msg : bytes) : list bytes :=
  if enableLogging c && (LevelError <=? logLevel c) then [str "[ERROR]: " ++ msg] else [].
Definition Warnf (c : config) (msg : bytes) : list bytes :=
  if enableLogging c && (LevelWarn <=? logLevel c) then [str "[WARN]: " ++ msg] else [].
Definition Infof (c : config) (msg : bytes) : list bytes :=
  if enableLogging c && (LevelInfo <=? logLevel c) then [str "[INFO]: " ++ msg] else [].
Definition Debugf (c : config) (msg : bytes) : list bytes :=
  if enableLogging c && (LevelDebug <=? logLevel c) then [str "[DEBUG]: " ++ msg] else [].

(** The dynamic types of errors that [ElideError] tells apart.  The cases of
    [InvalidAddrError] and [UnknownNetworkError] match pointers; package [net] makes
    values of these types, which are [OtherNetError]s here. *)
Inductive go_err :=
| PlainError (text : bytes)                     (* not a [net.Error] *)
| AddrError (err addr : bytes)
| DNSError (err name server : bytes)
| InvalidAddrError (text : bytes)
| UnknownNetworkError (text : bytes)
| OpError (op route : bytes) (inner : go_err)   (* [route]: network, source, destination *)
| OtherNetError (type text : bytes).            (* [type]: its Go type *)

(** [Error]. *)
Fixpoint error_text (e : go_err) : bytes :=
  match e with
  | PlainError t | InvalidAddrError t | OtherNetError _ t => t
  | AddrError err addr => (if bool_decide (addr <> []) then str "address " ++ addr ++ str ": " else []) ++ err
  | DNSError err name server =>
      str "lookup " ++ name ++ (if bool_decide (server <> []) then str " on " ++ server else []) ++ str ": " ++ err
  | UnknownNetworkError t => str "unknown network " ++ t
  | OpError op route inner => op ++ route ++ str ": " ++ error_text inner
  end.

Definition ElideError (c : config) (e : go_err) : bytes :=
  if unsafeLogging c then error_text e
  else match e with
  | PlainError t => t
  | AddrError err _ => err ++ str " " ++ elidedAddr
  | DNSError err _ _ => str "lookup " ++ elidedAddr ++ str " on " ++ elidedAddr ++ str ": " ++ err
  | InvalidAddrError _ => str "invalid address error"
  | UnknownNetworkError _ => str "unknown network " ++ elidedAddr
  | OpError op _ inner => op ++ str ": " ++ error_text inner
  | OtherNetError type _ => str "network error: <" ++ type ++ str ">"
  end.

Definition ElideAddr (c : config) (addrStr : bytes) : bytes :=
  if unsafeLogging c then addrStr
  else match GoAddr.SplitHostPort addrStr with
  | Some (_, port) => elidedAddr ++ str ":" ++ port
  | None => elidedAddr
  end.

(** Without unsafe logging two addresses with the same port, or without one, are
    logged alike: the host does not get into the log. *)
Lemma ElideAddr_hides c host host' port :
  unsafeLogging c = false -> GoAddr.plain host -> GoAddr.plain host' -> GoAddr.plain port ->
  host <> [] -> host' <> [] ->
  ElideAddr c (host ++ str ":" ++ port) = ElideAddr c (host' ++ str ":" ++ port).
Proof. intros Hu H1 H2 H3 Hn Hn'. unfold ElideAddr. by rewrite Hu, !GoAddr.SplitHostPort_join. Qed.
(** Addresses, names and routes of network errors do not get into it either, ... *)
Lemma ElideError_hides c : unsafeLogging c = false ->
  (forall err addr addr', ElideError c (AddrError err addr) = ElideError c (AddrError err addr'))
  /\ (forall err n s n' s', ElideError c (DNSError err n s) = ElideError c (DNSError err n' s'))
  /\ (forall t t', ElideError c (InvalidAddrError t) = ElideError c (InvalidAddrError t'))
  /\ (forall t t', ElideError c (UnknownNetworkError t) = ElideError c (UnknownNetworkError t'))
  /\ (forall op r r' e, ElideError c (OpError op r e) = ElideError c (OpError op r' e))
  /\ (forall ty t t', ElideError c (OtherNetError ty t) = ElideError c (OtherNetError ty t')).
Proof. intros Hu. unfold ElideError. by rewrite Hu. Qed.
(** ... unless the error is wrapped: a failed look-up comes out of [net.Dial] inside
    an [OpError], and then the name and the server are logged. *)
Lemma wrapped_name_logged c op route err name server :
  unsafeLogging c = false -> server <> [] ->
  ElideError c (OpError op route (DNSError err name server))
  = op ++ str ": lookup " ++ name ++ str " on " ++ server ++ str ": " ++ err.
Proof. intros Hu Hs. unfold ElideError. rewrite Hu. cbn [error_text]. by rewrite bool_decide_true. Qed.

(** Levels are ordered: what a level lets through, the more verbose ones do too. *)
Lemma levels_monotone c c' msg :
  enableLogging c = enableLogging c' -> logLevel c <= logLevel c' ->
  (forall l, l ∈ Errorf c msg -> l ∈ Errorf c' msg) /\ (forall l, l ∈ Warnf c msg -> l ∈ Warnf c' msg)
  /\ (forall l, l ∈ Infof c msg -> l ∈ Infof c' msg) /\ (forall l, l ∈ Debugf c msg -> l ∈ Debugf c' msg).
Proof.
  intros He Hl. unfold Errorf, Warnf, Infof, Debugf. rewrite He.
  assert (Hb : forall k, (k <=? logLevel c) = true -> (k <=? logLevel c') = true)
    by (intros k H; b2p; apply leb_true; lia).
  destruct (enableLogging c'); cbn; [|done].
  split_and!; intros l H;
    match type of H with context [if ?b then _ else _] => destruct b eqn:E end;
    try (by apply not_elem_of_nil in H); by rewrite (Hb _ E).
Qed.

Example level_dotless : SetLogLevel (str "iNFo") defaults = (Ok tt, defaults).
Proof. vm_compute. reflexivity. Qed.
End Log.
