(* ===== verification/Utils.v ===== *)
(** * Helpers: [common/utils/mathutils.go], [safebuffer.go] and [SleepRho] of [utils.go]

    The readers of arguments are in [DefState.v], [Uniform] is in [Randomwt.v] and
    the list of samples in [WfganState.v]; what draws from a distribution of
    [gonum] is the environment's. *)
From S2P Require Import Prelude.
#[local] Open Scope Z_scope.

Module Utils.
(** [int] has 64 bits. *)
Definition IntMin (a b : Z) : Z := if a <? b then a else b.
Definition IntMax (a b : Z) : Z := if b <? a then a else b.
Definition IntAbs (a : Z) : Z := if a <=? 0 then i64 (- a) else a.

(** It is not the absolute value of the least integer only. *)
Lemma IntAbs_spec a : - 2 ^ 63 <= a < 2 ^ 63 -> IntAbs a = if a =? - 2 ^ 63 then a else Z.abs a.
Proof.
  intros Ha. unfold IntAbs. destruct (Z.eqb_spec a (- 2 ^ 63)) as [->|]; [done|].
  destruct (Z.leb_spec a 0); [rewrite i64_small|]; lia.
Qed.

(** ** [SafeBuffer]: each method runs under the lock, so that an execution is a
    sequence of them. *)
Record SafeBuffer := mkBuffer { buffer : bytes }.
Inductive call := CallWrite (p : bytes) | CallRead (n : Z).
(** The results: the count of a [Write], the bytes of a [Read] ([io.EOF] when the buffer is
    empty and the reader wants some). *)
Inductive outcome := Wrote (n : Z) | Got (p : bytes) | EOF.
Definition Write (p : bytes) (s : SafeBuffer) : outcome * SafeBuffer := (Wrote (zlen p), mkBuffer (buffer s ++ p)).
Definition Read (n : Z) (s : SafeBuffer) : outcome * SafeBuffer :=
  match buffer s with
  | [] => (if n =? 0 then Got [] else EOF, s)
  | b => (Got (ztake n b), mkBuffer (zdrop n b))
  end.
Definition GetLen (s : SafeBuffer) : Z := zlen (buffer s).
Definition run_call (c : call) (s : SafeBuffer) : outcome * SafeBuffer :=
  match c with CallWrite p => Write p s | CallRead n => Read n s end.
Fixpoint calls (cs : list call) (s : SafeBuffer) : list outcome * SafeBuffer :=
  match cs with
  | [] => ([], s)
  | c :: cs => let '(o, s) := run_call c s in let '(os, s) := calls cs s in (o :: os, s)
  end.
Definition wrote (cs : list call) : bytes := flat_map (fun c => match c with CallWrite p => p | _ => [] end) cs.
Definition got (os : list outcome) : bytes := flat_map (fun o => match o with Got p => p | _ => [] end) os.

(** Whoever calls, and in whatever order: what is read, followed by what is left, is what was
    there, followed by what is written. *)
Theorem buffer_fifo cs : forall s, let '(os, s') := calls cs s in
  got os ++ buffer s' = buffer s ++ wrote cs.
Proof.
  induction cs as [|c cs IH]; intros s; [cbn; by rewrite app_nil_r|].
  cbn [calls]. destruct (run_call c s) as [o s1] eqn:E. specialize (IH s1).
  destruct (calls cs s1) as [os s2]. cbn [got flat_map wrote]. fold (got os) (wrote cs).
  rewrite <- app_assoc, IH. destruct c as [p|n]; cbn [run_call] in E.
  - injection E as <- <-. cbn [buffer app]. by rewrite app_assoc.
  - unfold Read in E. destruct (buffer s) as [|x b] eqn:Eb.
    + destruct (n =? 0); injection E as <- <-; by rewrite Eb.
    + injection E as <- <-. cbn [buffer app]. by rewrite app_assoc, ztake_zdrop.
Qed.

(** ** [SleepRho]: what it sleeps, if the clock shows [now]; [Sub] saturates, which
    needs centuries between the two, and the times are nanoseconds. *)
Definition SleepRho (lastSend rho now : Z) : option Z :=
  let deltaT := now - lastSend in
  let remainingDelay := i64 (rho - deltaT) in
  if 0 <? remainingDelay then Some remainingDelay else None.

(** The next packet does not leave before [rho] has passed. *)
Lemma SleepRho_paces lastSend rho now :
  - 2 ^ 62 <= rho < 2 ^ 62 -> - 2 ^ 62 <= now - lastSend < 2 ^ 62 ->
  now + default 0 (SleepRho lastSend rho now) = Z.max now (lastSend + rho).
Proof.
  intros H1 H2. unfold SleepRho. cbv zeta. rewrite i64_small by lia.
  destruct (Z.ltb_spec 0 (rho - (now - lastSend))); cbn; lia.
Qed.
End Utils.
