(* ===== verification/TraceLog.v ===== *)
(** * The trace logger: [trace_logger.go] of [transports/null] and [transports/randomwt]

    The two files are the same but for the name of the package.  A gRPC call turns
    the logger on or off and names the file; a goroutine of the client takes what
    the connection reports from a channel and appends a line to that file.  The
    two words they share are stored and loaded one at a time, so the machine below
    takes one of these accesses at each step.  ([traceLogEnabled] is [false] in the
    repository, so that no connection starts these goroutines there.) *)
From S2P Require Import Prelude GoStd GoText.
#[local] Open Scope Z_scope.

Module TraceLog.

(** [traceLogger]: two [atomic.Value]s, [None] before anything is stored. *)
Record traceLogger := mkLogger { logOn : option bool; logPath : option bytes }.
(** Those of [newNullClientConn] and [newRandomwtClientConn]. *)
Definition newLogger : traceLogger := mkLogger (Some false) (Some []).

(** An entry of [loggerChan]: the time, payload and padding bytes. *)
Record entry := mkEntry { curtime : Z; realbytes : Z; dummybytes : Z }.
Definition tab : byte := z2b 9.
Definition newline : byte := z2b 10.
Definition line (p : entry) : bytes :=
  Strconv.FormatInt (curtime p) ++ [tab] ++ Strconv.FormatInt (realbytes p) ++ [tab]
  ++ Strconv.FormatInt (dummybytes p) ++ [newline].

(** What the operating system does with one call: [OpenFile] fails, or the flush
    writes so many bytes.  The error of a short write is the one of [Flush], which
    is not looked at. *)
Inductive answer := OpenFails | Written (n : nat).
Abbreviation files := (gmap bytes bytes).
Definition WriteTrafficToFile (w : answer) (filePath : bytes) (p : entry) (fs : files) : result unit unit * files :=
  match w with
  | OpenFails => (Err tt, fs)
  | Written n => (Ok tt, <[filePath := default [] (fs !! filePath) ++ take n (line p)]> fs)
  end.

(** ** The goroutines *)

(** [UpdateLogInfo], which [SignalLogger] calls: between the two stores, the path is to come. *)
Inductive handler := Idle | Storing (path : bytes).
(** The goroutine of [ReadFrom] with [LogTrace]: waiting, before and after its first load,
    holding a path; [Stopped] after the signal of [closeChan]. *)
Inductive logger := Waiting | Checking (p : entry) | Enabled (p : entry) | Holding (path : bytes) (p : entry) | Stopped.
Definition capacity : nat := 100.

Record machine := mkMachine {
  lg : traceLogger; handle : handler; routine : logger; loggerChan : list entry; fs : files
}.
Definition start (fs : files) : machine := mkMachine newLogger Idle Waiting [] fs.

Inductive event :=
| Signal (on : bool) (path : bytes)     (* SignalLogger: UpdateLogInfo begins with its first store *)
| StorePath                             (* its second store *)
| Report (p : entry)                    (* the connection: logOn.Load() is true, then the send *)
| Take | LoadOn | LoadPath | Write (w : answer)
| CloseChan.

(** A step that cannot be taken now (a full channel, another position) is [None]. *)
Definition step (e : event) (m : machine) : option machine :=
  let '(mkMachine l h r c f) := m in
  match e, h, r with
  | Signal on path, Idle, _ => Some (mkMachine (mkLogger (Some on) (logPath l)) (Storing path) r c f)
  | StorePath, Storing path, _ => Some (mkMachine (mkLogger (logOn l) (Some path)) Idle r c f)
  | Report p, _, _ =>
      if (length c <? capacity)%nat && bool_decide (logOn l = Some true) then Some (mkMachine l h r (c ++ [p]) f) else None
  | Take, _, Waiting => match c with p :: c => Some (mkMachine l h (Checking p) c f) | [] => None end
  | LoadOn, _, Checking p =>
      match logOn l with
      | Some on => Some (mkMachine l h (if on then Enabled p else Waiting) c f)
      | None => None
      end
  | LoadPath, _, Enabled p =>
      match logPath l with Some path => Some (mkMachine l h (Holding path p) c f) | None => None end
  | Write w, _, Holding path p => Some (mkMachine l h Waiting c (snd (WriteTrafficToFile w path p f)))
  | CloseChan, _, Waiting => Some (mkMachine l h Stopped c f)
  | _, _, _ => None
  end.
Fixpoint exec (es : list event) (m : machine) : option machine :=
  match es with [] => Some m | e :: es => m ← step e m; exec es m end.

(** ** The lines of the files *)

(** What the events of an execution write, in order, and the entries they report. *)
Definition reported (es : list event) : list entry := omap (fun e => match e with Report p => Some p | _ => None end) es.
Definition paths (es : list event) : list bytes := omap (fun e => match e with Signal _ p => Some p | _ => None end) es.
Fixpoint writes (es : list event) (m : machine) : list (bytes * entry * answer) :=
  match es with
  | [] => []
  | e :: es =>
    match e, routine m with Write w, Holding path p => [(path, p, w)] | _, _ => [] end
    ++ match step e m with Some m => writes es m | None => [] end
  end.
Definition wrote (path : bytes) (w : bytes * entry * answer) : bytes :=
  let '(p, e, a) := w in
  match a with Written n => if bool_decide (p = path) then take n (line e) else [] | OpenFails => [] end.
Definition content (path : bytes) (fs : files) : bytes := default [] (fs !! path).

Lemma content_write w path p f path' :
  content path' (snd (WriteTrafficToFile w path p f)) = content path' f ++ wrote path' (path, p, w).
Proof.
  unfold content, wrote. destruct w as [|n]; cbn [WriteTrafficToFile snd]; [by rewrite app_nil_r|].
  case_bool_decide as E; [subst; by rewrite lookup_insert_eq|]. by rewrite lookup_insert_ne, app_nil_r.
Qed.

(** A file holds what was written to it, in order. *)
Lemma files_content es : forall m m' path, exec es m = Some m' ->
  content path (fs m') = content path (fs m) ++ flat_map (wrote path) (writes es m).
Proof.
  induction es as [|e es IH]; intros m m' path; cbn [exec writes].
  - intros [= <-]. by rewrite app_nil_r.
  - destruct (step e m) as [m1|] eqn:E; [|done]. cbn [mbind option_bind]. intros H. rewrite (IH m1 m' path H).
    destruct m as [l h r c f]. cbn [fs routine].
    assert (Hk : fs m1 = f -> (forall w, e <> Write w) ->
      content path (fs m1) ++ flat_map (wrote path) (writes es m1)
      = content path f ++ flat_map (wrote path)
          (match e, r with Write w, Holding pth p => [(pth, p, w)] | _, _ => [] end ++ writes es m1)).
    { intros -> Hne. destruct e; try reflexivity. by destruct (Hne w). }
    destruct e; cbn [step] in E; repeat (case_match; try discriminate); simplify_eq; try (by apply Hk).
    cbn [fs]. rewrite content_write, <- app_assoc, flat_map_app. cbn [flat_map]. by rewrite app_nil_r.
Qed.

(** Entries that the goroutine has, or that wait for it. *)
Definition pending (m : machine) : list entry :=
  match routine m with Checking p | Enabled p | Holding _ p => [p] | _ => [] end ++ loggerChan m.

Ltac step_cases E :=
  cbn -[capacity Nat.ltb bool_decide WriteTrafficToFile] in E; try discriminate E;
  repeat match type of E with context [match ?x with _ => _ end] => destruct x; try discriminate E end;
  injection E as <-.
(** One step takes at most one entry out of those, and only to write it. *)
Lemma step_pending e m m1 : step e m = Some m1 ->
  map (fun w => w.1.2) (match e, routine m with Write w, Holding path p => [(path, p, w)] | _, _ => [] end) ++ pending m1
  `sublist_of` pending m ++ reported [e].
Proof.
  destruct m as [l h r c f]. unfold pending. intros E.
  destruct e, h, r; step_cases E; cbn [routine loggerChan app map reported omap list_omap];
    rewrite ?app_nil_r, <- ?app_assoc; first [reflexivity | apply sublist_cons; reflexivity].
Qed.
Lemma writes_in_order es : forall m m', exec es m = Some m' ->
  map (fun w => w.1.2) (writes es m) `sublist_of` pending m ++ reported es.
Proof.
  induction es as [|e es IH]; intros m m'; cbn [exec writes]; [intros; apply sublist_nil_l|].
  destruct (step e m) as [m1|] eqn:E; [|done]. cbn [mbind option_bind]. intros H. specialize (IH m1 m' H).
  rewrite map_app. change (reported (e :: es)) with (reported ([e] ++ es)). unfold reported at 1.
  rewrite omap_app, app_assoc. fold (reported [e]) (reported es).
  transitivity (map (fun w => w.1.2) (match e, routine m with Write w, Holding path p => [(path, p, w)] | _, _ => [] end)
                ++ pending m1 ++ reported es).
  - by apply sublist_app.
  - rewrite app_assoc. apply sublist_app; [by apply step_pending|done].
Qed.

(** Both words always hold a value, and every path in use was given by a signal. *)
Record named (ps : list bytes) (m : machine) : Prop := {
  nm_on : is_Some (logOn (lg m));
  nm_path : exists p, logPath (lg m) = Some p /\ p ∈ ps;
  nm_storing : forall p, handle m = Storing p -> p ∈ ps;
  nm_holding : forall p e, routine m = Holding p e -> p ∈ ps
}.
Lemma named_start f : named [[]] (start f).
Proof. split; cbn; [by eexists|exists []; split; [done|by apply list_elem_of_singleton]|done|done]. Qed.
Lemma step_named ps e m m1 : named ps m -> step e m = Some m1 -> named (ps ++ paths [e]) m1.
Proof.
  intros [[on Hon] (p0 & Hp & Hin) Hst Hho] E. destruct m as [[lon lpath] h r c f]. cbn [lg handle routine logOn logPath] in *.
  assert (Hmono : forall p : bytes, p ∈ ps -> p ∈ ps ++ paths [e]) by (intros; apply elem_of_app; by left).
  destruct e, h, r; step_cases E;
    (split; cbn [lg handle routine logOn logPath]; [eauto| | |]); try done;
    try (by exists p0; eauto); try (by intros; simplify_eq; eauto).
  all: try (eexists; split; [reflexivity|]; by eauto).
  all: try (intros ? [= <-]; apply elem_of_app; right; by apply list_elem_of_singleton).
Qed.
Lemma writes_named es : forall ps m m', named ps m -> exec es m = Some m' ->
  named (ps ++ paths es) m' /\ forall w, w ∈ writes es m -> w.1.1 ∈ ps ++ paths es.
Proof.
  induction es as [|e es IH]; intros ps m m' Hn; cbn [exec writes].
  - intros [= <-]. rewrite app_nil_r. split; [done|]. intros w Hw. by apply elem_of_nil in Hw.
  - destruct (step e m) as [m1|] eqn:E; [|done]. cbn [mbind option_bind]. intros H.
    destruct (IH _ m1 m' (step_named _ _ _ _ Hn E) H) as [H1 H2].
    assert (Ep : (ps ++ paths [e]) ++ paths es = ps ++ paths (e :: es)).
    { rewrite <- app_assoc. f_equal. unfold paths. by rewrite <- omap_app. }
    rewrite Ep in *. split; [done|]. intros w [Hw|Hw]%elem_of_app; [|by apply H2].
    destruct e; try (by apply elem_of_nil in Hw). destruct (routine m) eqn:Er; try (by apply elem_of_nil in Hw).
    apply list_elem_of_singleton in Hw. subst w. apply elem_of_app. left. by eapply nm_holding.
Qed.

(** ** What is in a line *)
Lemma digits_no_tab fuel : forall n acc, 0 <= n -> Forall (fun c => c <> tab) acc -> Forall (fun c => c <> tab) (Strconv.digits fuel n acc).
Proof.
  induction fuel as [|fuel IH]; intros n acc Hn Ha; cbn [Strconv.digits]; [done|].
  assert (Hc : Forall (fun c => c <> tab) (z2b (48 + n mod 10) :: acc)).
  { constructor; [|done]. intros E. apply (f_equal b2z) in E. unfold tab in E. rewrite !b2z_z2b in E.
    pose proof (Z.mod_pos_bound n 10). rewrite (Z.mod_small (48 + _)), (Z.mod_small 9) in E; lia. }
  destruct (n <? 10); [done|]. apply IH; [apply Z.div_pos; lia|done].
Qed.
(** A line fits into the 4096 bytes of a [bufio.Writer], so that only [Flush] writes. *)
Lemma length_digits fuel : forall n acc, (length (Strconv.digits fuel n acc) <= fuel + length acc)%nat.
Proof.
  induction fuel as [|fuel IH]; intros n acc; cbn [Strconv.digits]; [done|].
  destruct (n <? 10); [cbn; lia|]. specialize (IH (n / 10) (z2b (48 + n mod 10) :: acc)). cbn [length] in *. lia.
Qed.
Lemma length_line p : (length (line p) <= 66)%nat.
Proof.
  assert (H : forall v, (length (Strconv.FormatInt v) <= 21)%nat).
  { intros v. unfold Strconv.FormatInt.
    destruct (v <? 0); [pose proof (length_digits 20 (- v) [])|pose proof (length_digits 20 v [])]; cbn [length] in *; lia. }
  pose proof (H (curtime p)). pose proof (H (realbytes p)). pose proof (H (dummybytes p)).
  unfold line. rewrite !length_app. cbn [length]. lia.
Qed.
Lemma FormatInt_no_tab v : tab ∉ Strconv.FormatInt v.
Proof.
  assert (H : Forall (fun c => c <> tab) (Strconv.FormatInt v)).
  { unfold Strconv.FormatInt. destruct (v <? 0) eqn:E; b2p; [constructor; [done|]|]; by apply digits_no_tab; [lia|]. }
  intros Hin%list_elem_of_In. rewrite List.Forall_forall in H. exact (H tab Hin eq_refl).
Qed.
Lemma app_tab_inj (a b r s : bytes) : tab ∉ a -> tab ∉ b -> a ++ tab :: r = b ++ tab :: s -> a = b /\ r = s.
Proof.
  revert b. induction a as [|x a IH]; intros [|y b] Ha Hb E; cbn in E; simplify_eq; [done| | |].
  - destruct Hb. by left.
  - destruct Ha. by left.
  - destruct (IH b) as [-> ->]; [set_solver..|done|done].
Qed.
(** A line is the entry it was made of. *)
Lemma FormatInt_inj v w : Atoi.int_ok 64 v -> Atoi.int_ok 64 w -> Strconv.FormatInt v = Strconv.FormatInt w -> v = w.
Proof.
  intros Hv Hw E. pose proof (Atoi.ParseInt_FormatInt 64 v ltac:(lia) Hv) as H. rewrite E in H.
  rewrite Atoi.ParseInt_FormatInt in H by (lia || done). by injection H.
Qed.
Definition int64s (p : entry) : Prop := Atoi.int_ok 64 (curtime p) /\ Atoi.int_ok 64 (realbytes p) /\ Atoi.int_ok 64 (dummybytes p).
Lemma line_inj p q : int64s p -> int64s q -> line p = line q -> p = q.
Proof.
  destruct p as [a b c], q as [a' b' c']. intros (A & B & C) (A' & B' & C') E. unfold line in E. cbn [curtime realbytes dummybytes app] in *.
  apply app_tab_inj in E as [E1 E]; [|apply FormatInt_no_tab..].
  apply app_tab_inj in E as [E2 E3]; [|apply FormatInt_no_tab..]. apply app_inv_tail in E3.
  by rewrite (FormatInt_inj _ _ A A' E1), (FormatInt_inj _ _ B B' E2), (FormatInt_inj _ _ C C' E3).
Qed.

(** The trace: for every interleaving of the signals, the connection and the goroutine,
    a file holds what it held before and then what was written to it, line after
    line; the entries are written in the order in which the connection reported them,
    each at most once; every file was named by a signal (or is the one of the empty name
    the logger starts with); and no load finds a word that was never stored. *)
Theorem trace_lines es f m : exec es (start f) = Some m ->
  (forall path, content path (fs m) = content path f ++ flat_map (wrote path) (writes es (start f)))
  /\ map (fun w => w.1.2) (writes es (start f)) `sublist_of` reported es
  /\ (forall w, w ∈ writes es (start f) -> w.1.1 = [] \/ w.1.1 ∈ paths es)
  /\ is_Some (logOn (lg m)) /\ is_Some (logPath (lg m)).
Proof.
  intros H. destruct (writes_named es _ _ _ (named_start f) H) as [[Hon (p & Hp & _) _ _] Hw].
  split; [intros path; exact (files_content es (start f) m path H)|].
  split; [exact (writes_in_order es (start f) m H)|]. split; [|split; [done|by eexists]].
  intros w Hin. apply Hw, elem_of_app in Hin as [?%list_elem_of_singleton|?]; [by left|by right].
Qed.

(** Two orders the goroutines allow: an entry reported between the two stores of the first signal
    finds no file; one reported for a file may be written to the next one. *)
Definition toy_a : bytes := str "a".
Definition toy_b : bytes := str "b".
Example early_entry :
  (m ← exec [Signal true toy_a; Report (mkEntry 1 2 3); Take; LoadOn; LoadPath] (start ∅); Some (routine m))
  = Some (Holding [] (mkEntry 1 2 3)).
Proof. vm_compute. reflexivity. Qed.
Example late_entry :
  (m ← exec [Signal true toy_a; StorePath; Report (mkEntry 1 (-2) 3); Signal true toy_b; StorePath;
             Take; LoadOn; LoadPath; Write (Written 100)] (start ∅);
   Some (content toy_a (fs m), content toy_b (fs m)))
  = Some ([], str "1" ++ [tab] ++ str "-2" ++ [tab] ++ str "3" ++ [newline]).
Proof. vm_compute. reflexivity. Qed.
(** A short write is not noticed. *)
Example short_write : WriteTrafficToFile (Written 0) toy_a (mkEntry 1 2 3) ∅ = (Ok tt, {[toy_a := []]}).
Proof. vm_compute. reflexivity. Qed.
End TraceLog.
