(* ===== verification/GoNet.v ===== *)
(** * Connections: [net.Conn] as the older transports use it

    A method that may block on the network is an [IO] function: [None] says that
    it waits for more.  The state of a socket, the buffers of [io.ReadFull], and
    what the stream transports need to know of them: any segmentation of a stream
    reads the same. *)
From S2P Require Import Prelude GoStd Rand Packet.

(** ** Methods that may block *)
Definition IO (S E A : Type) : Type := S -> option (result E A * S).
#[export] Instance IO_ret S E : MRet (IO S E) := fun A a s => Some (Ok a, s).
#[export] Instance IO_bind S E : MBind (IO S E) := fun A B k m s =>
  match m s with
  | Some (Ok a, s) => k a s
  | Some (Err e, s) => Some (Err e, s)
  | Some (Panic w, s) => Some (Panic w, s)
  | None => None
  end.

Section io.
Context {S E : Type}.
Definition run {A} (m : M S E A) : IO S E A := fun s => Some (m s).
(** The value of [if err != nil { cleanup; return err }]. *)
Definition on_err {A} (m : IO S E A) (cleanup : S -> S) : IO S E A := fun s =>
  match m s with
  | Some (Err e, s) => Some (Err e, cleanup s)
  | r => r
  end.
Definition io_part {T A} (get : S -> T) (set : T -> S -> S) (m : IO T E A) : IO S E A :=
  fun s => match m (get s) with Some (r, t) => Some (r, set t s) | None => None end.

(** When the first part returns, the whole runs on from there. *)
Lemma IO_bind_Ok {A B} (m : IO S E A) (k : A -> IO S E B) s a s' :
  m s = Some (Ok a, s') -> (m ≫= k) s = k a s'.
Proof. unfold mbind, IO_bind. by intros ->. Qed.
Lemma IO_bind_inv {A B} (m : IO S E A) (k : A -> IO S E B) s b s' :
  (m ≫= k) s = Some (Ok b, s') -> exists a s1, m s = Some (Ok a, s1) /\ k a s1 = Some (Ok b, s').
Proof.
  unfold mbind, IO_bind. destruct (m s) as [[[a|e|w] s1]|]; try done. intros E1. by exists a, s1.
Qed.
End io.

Module GoNet.
Abbreviation net_error := Packet.net_error.
(** What successive [Read]s find, and the error that comes with the data. *)
Abbreviation reads := (list (bytes * option net_error)).

Inductive error :=
| NetError (e : net_error)
| ErrUnexpectedEOF
| ErrEntropy.

(** A connected socket, with the entropy of the process. *)
Record sock := mkSock { incoming : reads; sent : list bytes; tape : bytes; closed : bool }.

(** [Read (buf)] with [len (buf) = n] takes at most [n] bytes of a segment. *)
Definition read_net (n : Z) (net : reads) : option (bytes * option net_error * reads) :=
  match net with
  | [] => None
  | (rd, e) :: net =>
      if n <? zlen rd then Some (ztake n rd, None, (zdrop n rd, e) :: net)
      else Some (rd, e, net)
  end.

(** [io.ReadFull], [got] being what it has read. *)
Fixpoint read_full (n : Z) (got : bytes) (net : reads) : option (result error bytes * reads) :=
  if n <=? zlen got then Some (Ok got, net)
  else
    match net with
    | [] => None
    | (rd, e) :: net =>
        let want := n - zlen got in
        if want <? zlen rd then Some (Ok (got ++ ztake want rd), (zdrop want rd, e) :: net)
        else
          let got := got ++ rd in
          match e with
          | None => read_full n got net
          | Some e =>
              if n <=? zlen got then Some (Ok got, net)
              else Some (Err (match e with
                              | Packet.EOF => if zlen got =? 0 then NetError e else ErrUnexpectedEOF
                              | _ => NetError e
                              end), net)
          end
    end.

Section ops.
Context (netWrite : list bytes -> bytes -> option net_error).

Definition Read (n : Z) : IO sock error (bytes * option net_error) := fun s =>
  match read_net n (incoming s) with
  | None => None
  | Some (rd, e, net) => Some (Ok (rd, e), mkSock net (sent s) (tape s) (closed s))
  end.
Definition ReadFull (n : Z) : IO sock error bytes := fun s =>
  match read_full n [] (incoming s) with
  | None => None
  | Some (r, net) => Some (r, mkSock net (sent s) (tape s) (closed s))
  end.
(** What a [Write] that failed got out is not recorded: no theorem speaks of it. *)
Definition Write (b : bytes) : IO sock error unit := fun s =>
  Some (match netWrite (sent s) b with
        | Some e => (Err (NetError e), s)
        | None => (Ok tt, mkSock (incoming s) (sent s ++ [b]) (tape s) (closed s))
        end).
Definition Close (s : sock) : sock := mkSock (incoming s) (sent s) (tape s) true.

(** [csrand]'s functions. *)
Definition random {A} (m : M bytes Csrand.error A) : IO sock error A := fun s =>
  let '(r, t) := m (tape s) in
  Some (match r with Ok a => Ok a | Err _ => Err ErrEntropy | Panic w => Panic w end,
        mkSock (incoming s) (sent s) t (closed s)).
(** What [SetDeadline] returns. *)
Definition deadline (d : option net_error) : IO sock error unit := fun s =>
  Some (match d with None => Ok tt | Some e => Err (NetError e) end, s).
End ops.

(** An operation of a part of a connection, such as its socket. *)
Section lift.
Context {T C E : Type} (get : C -> T) (set : T -> C -> C) (wrap : error -> E).
Definition lift_net {A} (m : IO T error A) : IO C E A := fun c =>
  match m (get c) with
  | Some (Ok a, n) => Some (Ok a, set n c)
  | Some (Err e, n) => Some (Err (wrap e), set n c)
  | Some (Panic w, n) => Some (Panic w, set n c)
  | None => None
  end.
Lemma lift_net_inv {A} (m : IO T error A) c a c' :
  lift_net m c = Some (Ok a, c') -> exists k, m (get c) = Some (Ok a, k) /\ c' = set k c.
Proof. unfold lift_net. destruct (m (get c)) as [[[|e|w] k]|]; try done. intros [= <- <-]. eauto. Qed.
End lift.

(** What the operations leave when they succeed. *)
Lemma draw_pad k v n k' :
  random (Csrand.IntRange 0 v) k = Some (Ok n, k') ->
  0 <= n <= v /\ exists t, k' = mkSock (incoming k) (sent k) t (closed k).
Proof.
  unfold random. destruct (Csrand.IntRange 0 v (tape k)) as [[a|e|w] t] eqn:E; try done.
  intros [= -> <-]. apply Csrand.IntRange_Ok in E. eauto.
Qed.
Lemma draw_bytes k n b k' :
  0 <= n -> random (Csrand.Bytes n) k = Some (Ok b, k') ->
  zlen b = n /\ exists t, k' = mkSock (incoming k) (sent k) t (closed k).
Proof.
  intros Hn. unfold random, Csrand.Bytes. destruct (n <=? zlen (tape k)) eqn:E; [|done].
  b2p. intros [= <- <-]. split; [zlia|eauto].
Qed.
Lemma write_out netWrite (writes_ok : forall sent b, netWrite sent b = None) b k k' : Write netWrite b k = Some (Ok tt, k') ->
  k' = mkSock (incoming k) (sent k ++ [b]) (tape k) (closed k).
Proof. unfold Write. rewrite writes_ok. by intros [= <-]. Qed.

(** ** Streams *)

(** The data of a list of reads without errors. *)
Definition stream (net : reads) (l : bytes) : Prop :=
  concat (map fst net) = l /\ Forall (fun r => r.2 = None) net.

Lemma stream_nil : stream [] [].
Proof. by split. Qed.
Lemma stream_cons rd net l : stream net l -> stream ((rd, None) :: net) (rd ++ l).
Proof. intros [<- F]. by split; [|constructor]. Qed.
Lemma stream_uncons rd e net l :
  stream ((rd, e) :: net) l -> e = None /\ exists l', l = rd ++ l' /\ stream net l'.
Proof.
  intros [E F]. apply Forall_cons in F as [He F]. split; [done|].
  exists (concat (map fst net)). by split; [|split].
Qed.
Lemma stream_app net1 net2 l1 l2 : stream net1 l1 -> stream net2 l2 -> stream (net1 ++ net2) (l1 ++ l2).
Proof.
  intros [<- F1] [<- F2]. split; [by rewrite map_app, concat_app|by apply Forall_app].
Qed.
Lemma stream_unit net : stream net (concat (map fst net)) <-> Forall (fun r => r.2 = None) net.
Proof. unfold stream. tauto. Qed.

(** A stream that is long enough fills the buffer, and the rest stays. *)
Lemma read_full_stream n : forall net got l,
  stream net l -> zlen got <= n <= zlen got + zlen l ->
  exists net', read_full n got net = Some (Ok (got ++ ztake (n - zlen got) l), net')
    /\ stream net' (zdrop (n - zlen got) l).
Proof.
  induction net as [|[rd e] net IH]; intros got l Hs Hn.
  - destruct Hs as [<- _]. cbn in Hn. rewrite zlen_nil in Hn.
    cbn [read_full]. rewrite leb_true by lia. exists []. replace (n - zlen got) with 0 by lia.
    cbn. by rewrite app_nil_r.
  - apply stream_uncons in Hs as (-> & l' & -> & Hs). rewrite zlen_app in Hn. cbn [read_full].
    destruct (n <=? zlen got) eqn:E1; b2p.
    { exists ((rd, None) :: net). replace (n - zlen got) with 0 by lia.
      rewrite ztake_0, app_nil_r, zdrop_0. split; [done|]. by apply stream_cons. }
    destruct (n - zlen got <? zlen rd) eqn:E2; b2p.
    + eexists. rewrite ztake_app_le, zdrop_app_le by lia. split; [done|]. by apply stream_cons.
    + destruct (IH (got ++ rd) l' Hs) as (net' & E & Hs'); [zlia|].
      exists net'. rewrite E. rewrite ztake_app_ge, zdrop_app_ge by lia. zlen_simpl.
      rewrite <- app_assoc. replace (n - (zlen got + zlen rd)) with (n - zlen got - zlen rd) in * by lia.
      done.
Qed.

Lemma ReadFull_stream n s l :
  stream (incoming s) l -> 0 <= n <= zlen l ->
  exists net', ReadFull n s = Some (Ok (ztake n l), mkSock net' (sent s) (tape s) (closed s))
    /\ stream net' (zdrop n l).
Proof.
  intros Hs Hn. destruct (read_full_stream n (incoming s) [] l Hs) as (net' & E & Hs');
    [rewrite zlen_nil; lia|].
  exists net'. unfold ReadFull. rewrite E. rewrite zlen_nil, Z.sub_0_r in *. done.
Qed.

(** A read of a stream: a segment, or the front of it. *)
Lemma read_net_stream n net l rd e net' :
  0 <= n -> stream net l -> read_net n net = Some (rd, e, net') ->
  e = None /\ zlen rd <= n /\ exists l', l = rd ++ l' /\ stream net' l'
  /\ (length (concat (map fst net')) + length rd = length (concat (map fst net)))%nat.
Proof.
  intros Hn Hs. destruct net as [|[d e0] net]; [done|]. cbn [read_net].
  apply stream_uncons in Hs as (-> & l' & -> & Hs).
  destruct (n <? zlen d) eqn:E; b2p; intros [= <- <- <-]; (split; [done|]).
  - split; [zlia|]. exists (zdrop n d ++ l'). rewrite app_assoc, ztake_zdrop. split; [done|].
    split; [by apply stream_cons|]. cbn. rewrite !length_app. unfold zdrop, ztake.
    rewrite length_drop, length_take. unfold zlen in E. lia.
  - split; [done|]. exists l'. split; [done|]. split; [done|]. cbn. rewrite length_app. lia.
Qed.

(** ** Marks: the first occurrence in a growing buffer *)

(** [m] ends the padding and occurs nowhere before. *)
Definition first_mark (m pad : bytes) : Prop := index_sub m (pad ++ m) = Some (length pad).

Lemma occurs_at_app p l r i : occurs_at p l i -> occurs_at p (l ++ r) i.
Proof. intros (a & k & -> & <-). exists a, (k ++ r). by rewrite <- !app_assoc. Qed.
Lemma occurs_at_front p l r i :
  occurs_at p (l ++ r) i -> (i + length p <= length l)%nat -> occurs_at p l i.
Proof.
  intros (a & k & E & <-) Hl. exists a, (take (length l - (length a + length p)) k).
  split; [|done]. apply (f_equal (take (length l))) in E.
  rewrite take_app_length in E. rewrite E at 1. rewrite app_assoc, take_app.
  rewrite take_ge by (rewrite length_app; lia). rewrite <- app_assoc. by rewrite length_app.
Qed.

Lemma index_first m pad x : first_mark m pad -> bytes_Index (pad ++ m ++ x) m = zlen pad.
Proof.
  intros Hm. unfold bytes_Index. apply index_sub_Some in Hm as [Ho Hn].
  rewrite (proj2 (index_sub_Some m (pad ++ m ++ x) (length pad))); [done|]. rewrite app_assoc. split.
  - by apply occurs_at_app.
  - intros j Hj Hc. apply (Hn j Hj). eapply occurs_at_front; [done|]. rewrite length_app. lia.
Qed.

Lemma index_before m pad buf l ct : first_mark m pad -> buf ++ l = pad ++ m ++ ct ->
  zlen buf < zlen pad + zlen m -> bytes_Index buf m = -1.
Proof.
  intros Hm E Hl. unfold zlen in Hl. unfold bytes_Index. apply index_sub_Some in Hm as [_ Hn].
  destruct (index_sub m buf) as [i|] eqn:Ei; [|done]. exfalso.
  pose proof (index_sub_length _ _ _ Ei). apply index_sub_Some in Ei as [Ho _].
  apply (Hn i); [lia|]. apply (occurs_at_front _ _ ct).
  - rewrite <- app_assoc, <- E. by apply occurs_at_app.
  - rewrite length_app. lia.
Qed.
End GoNet.
