(* ===== verification/Socks4.v ===== *)
(** * The SOCKS 4 dialer: [obfs4proxy/proxy_socks4.go]

    With [TOR_PT_PROXY] set to a [socks4a] URI outgoing connections go through a
    proxy.  [Dial] takes the address apart, writes one CONNECT request and reads
    an answer of eight bytes, whatever way the network cuts it.  The contract is
    what a SOCKS 4 server makes of the request: [connect_of] reads it. *)
From S2P Require Import Prelude GoStd GoText Rand Packet GoAddr GoNet.

Module Socks4.
Definition socks4Version : byte := Byte.x04.
Definition socks4CommandConnect : byte := Byte.x01.
Definition socks4Null : byte := Byte.x00.
Definition socks4ReplyVersion : byte := Byte.x00.
Definition socks4Granted : byte := Byte.x5a.
Definition socks4Rejected : byte := Byte.x5b.
Definition socks4RejectedIdentdFailed : byte := Byte.x5c.
Definition socks4RejectedIdentdMismatch : byte := Byte.x5d.

Inductive error :=
| InvalidNetwork
| SplitError                     (* of [net.SplitHostPort] *)
| InvalidIP
| NotIPv4
| PortError                      (* of [strconv.ParseUint] *)
| DialError (e : Packet.net_error)
| ConnError (e : GoNet.error)
| InvalidVersion
| ProxyError (what : bytes).

Definition socks4ErrorToString (code : byte) : bytes :=
  if bool_decide (code = socks4Rejected) then str "request rejected or failed"
  else if bool_decide (code = socks4RejectedIdentdFailed) then
    str "request rejected becasue SOCKS server cannot connect to identd on the client"
  else if bool_decide (code = socks4RejectedIdentdMismatch) then
    str "request rejected because the client program and identd report different user-ids"
  else str "unknown failure code " ++ NetIP.hex16 (b2z code).

(** The destination: its four octets and its port. *)
Definition destination (network addr : bytes) : result error (bytes * Z) :=
  if negb (bool_decide (network = str "tcp")) && negb (bool_decide (network = str "tcp4"))
  then Err InvalidNetwork
  else match GoAddr.SplitHostPort addr with
  | None => Err SplitError
  | Some (ipStr, portStr) =>
      match GoAddr.ParseIP ipStr with
      | None => Err InvalidIP
      | Some ip =>
          match GoAddr.To4 ip with
          | None => Err NotIPv4
          | Some ip4 =>
              match GoAddr.ParseUint 16 portStr with
              | None => Err PortError
              | Some port => Ok (ip4, port)
              end
          end
      end
  end.

Definition request (username ip4 : bytes) (port : Z) : bytes :=
  [socks4Version; socks4CommandConnect; z2b (Z.shiftr port 8); z2b port]
  ++ ip4 ++ (if bool_decide (username <> []) then username else []) ++ [socks4Null].

Section dial.
Context (netWrite : list bytes -> bytes -> option Packet.net_error).

Definition conn {A} (m : IO GoNet.sock GoNet.error A) : IO GoNet.sock error A :=
  on_err (GoNet.lift_net (fun s => s) (fun s _ => s) ConnError m) GoNet.Close.
(** [c.Close (); return nil, err]. *)
Definition refuse (e : error) : IO GoNet.sock error unit := fun s => Some (Err e, GoNet.Close s).

Definition answer (resp : bytes) : IO GoNet.sock error unit :=
  match resp with
  | version :: code :: _ =>
      if bool_decide (version <> socks4ReplyVersion) then refuse InvalidVersion
      else if bool_decide (code <> socks4Granted) then refuse (ProxyError (socks4ErrorToString code))
      else mret tt
  | _ => fun s => Some (Panic "index out of range", s)
  end.

Definition converse (req : bytes) : IO GoNet.sock error unit :=
  _ ← conn (GoNet.Write netWrite req);
  resp ← conn (GoNet.ReadFull 8);
  answer resp.

(** [Dial]; [forward] is what dialing the proxy gives.  The connection, if one
    was made, is in the result whether it is returned or was closed. *)
Definition Dial (username network addr : bytes) (forward : result Packet.net_error GoNet.sock)
    : option (result error unit * option GoNet.sock) :=
  match destination network addr with
  | Err e => Some (Err e, None)
  | Panic w => Some (Panic w, None)
  | Ok (ip4, port) =>
      match forward with
      | Err e => Some (Err (DialError e), None)
      | Panic w => Some (Panic w, None)
      | Ok c => '(r, c) ← converse (request username ip4 port) c; Some (r, Some c)
      end
  end.
End dial.

(** ** What a SOCKS 4 server reads *)

(** The command, port, address and user of a request, and what comes after it. *)
Definition connect_of (b : bytes) : option (byte * Z * bytes * bytes * bytes) :=
  match b with
  | v :: cmd :: p1 :: p0 :: a1 :: a2 :: a3 :: a4 :: b =>
      if bool_decide (v = socks4Version) then
        '(user, rest) ← GoAddr.cut socks4Null b;
        Some (cmd, b2z p1 * 256 + b2z p0, [a1; a2; a3; a4], user, rest)
      else None
  | _ => None
  end.

Lemma port_bytes port : 0 <= port < 65536 ->
  b2z (z2b (Z.shiftr port 8)) * 256 + b2z (z2b port) = port.
Proof.
  intros. rewrite !b2z_z2b, Z.shiftr_div_pow2 by lia. change (2 ^ 8) with 256.
  pose proof (Z.div_lt_upper_bound port 256 256 ltac:(lia) ltac:(lia)).
  pose proof (Z.div_pos port 256 ltac:(lia) ltac:(lia)).
  rewrite (Z.mod_small (port / 256)) by lia. pose proof (Z.div_mod port 256). lia.
Qed.

Lemma request_cut user a b c d port : 0 <= port < 65536 ->
  connect_of (request user [a; b; c; d] port)
  = '(u, rest) ← GoAddr.cut socks4Null (user ++ [socks4Null]);
    Some (socks4CommandConnect, port, [a; b; c; d], u, rest).
Proof.
  intros Hp. unfold request, connect_of. cbn [app].
  replace (if bool_decide (user <> []) then user else []) with user by (by destruct user).
  by rewrite bool_decide_true, port_bytes by done.
Qed.

(** The server reads what was meant ... *)
Lemma request_read user a b c d port : 0 <= port < 65536 -> (socks4Null ∉ user) ->
  connect_of (request user [a; b; c; d] port)
  = Some (socks4CommandConnect, port, [a; b; c; d], user, []).
Proof. intros Hp Hu. by rewrite request_cut, GoAddr.cut_first. Qed.

(** ... but a NUL in the user name of the proxy URI ([%00]) ends the user name for
    the server, and what follows it is taken for the client's data. *)
Lemma username_nul user more a b c d port : 0 <= port < 65536 -> (socks4Null ∉ user) ->
  connect_of (request (user ++ socks4Null :: more) [a; b; c; d] port)
  = Some (socks4CommandConnect, port, [a; b; c; d], user, more ++ [socks4Null]).
Proof.
  intros Hp Hu. rewrite request_cut by done. rewrite <- app_assoc. cbn [app].
  by rewrite GoAddr.cut_first.
Qed.

Lemma destination_v4 a b c d port : 0 <= port < 65536 ->
  destination (str "tcp") (NetIP.dotted [a; b; c; d] ++ str ":" ++ Strconv.FormatInt port)
  = Ok ([a; b; c; d], port).
Proof.
  intros Hp. destruct (GoAddr.target_v4 a b c d port Hp) as (host & p & E & Eip & Ep).
  unfold destination. rewrite bool_decide_true by done. cbn [negb andb]. rewrite E.
  destruct (GoAddr.ParseIP host) as [ip|]; [|done]. cbn in Eip. by rewrite Eip, Ep.
Qed.

Lemma Write_open netWrite b k r k' :
  GoNet.Write netWrite b k = Some (r, k') -> GoNet.closed k' = GoNet.closed k /\ ~ is_panic r.
Proof. unfold GoNet.Write. destruct (netWrite _ _); intros [= <- <-]; (split; [done|intros []]). Qed.
Lemma ReadFull_open n k r k' :
  GoNet.ReadFull n k = Some (r, k') -> GoNet.closed k' = GoNet.closed k /\ ~ is_panic r
    /\ forall d, r = Ok d -> n <= zlen d.
Proof.
  unfold GoNet.ReadFull. destruct (GoNet.read_full n [] (GoNet.incoming k)) as [[x net]|] eqn:E; [|done].
  intros [= <- <-]. split; [done|]. revert E. generalize (@nil byte) as got.
  induction (GoNet.incoming k) as [|[rd e] l IH]; intros got; cbn [GoNet.read_full].
  - destruct (n <=? zlen got) eqn:En; [|done]. b2p. intros [= <- <-]. split; [by intros []|].
    by intros d [= <-].
  - destruct (n <=? zlen got) eqn:En; b2p.
    { intros [= <- <-]. split; [by intros []|]. by intros d [= <-]. }
    destruct (_ <? zlen rd) eqn:E2; b2p.
    { intros [= <- <-]. split; [by intros []|]. intros d [= <-]. zlen_simpl. lia. }
    destruct e as [e|]; [|apply IH].
    destruct (n <=? _) eqn:E3; b2p; [intros [= <- <-]; split; [by intros []|]; by intros d [= <-]|].
    intros [= <- <-]. split; [intros []|done].
Qed.

(** Whatever is dialed and whatever the network does, a connection that was made is
    returned open, or an error is returned and the connection is closed. *)
Lemma Dial_closes netWrite user network addr k r k' :
  Dial netWrite user network addr (Ok k) = Some (r, Some k') ->
  (r = Ok tt /\ GoNet.closed k' = GoNet.closed k) \/ (exists e, r = Err e) /\ GoNet.closed k' = true.
Proof.
  unfold Dial. destruct (destination network addr) as [[ip4 port]|e|w]; [|done..].
  unfold converse, conn, on_err, GoNet.lift_net, mbind, IO_bind, option_bind.
  destruct (GoNet.Write netWrite _ k) as [[r1 k1]|] eqn:Ew; [|done].
  apply Write_open in Ew as [Ew Hp1].
  destruct r1 as [[]|e|w]; [|intros [= <- <-]; right; split; [by eexists|done]|by destruct Hp1].
  destruct (GoNet.ReadFull 8 k1) as [[r2 k2]|] eqn:Er; [|done].
  apply ReadFull_open in Er as (Er & Hp2 & Hl).
  destruct r2 as [resp|e|w]; [|intros [= <- <-]; right; split; [by eexists|done]|by destruct Hp2].
  specialize (Hl resp eq_refl). unfold answer, refuse.
  destruct resp as [|v [|code pad]]; [exfalso; by vm_compute in Hl..|].
  destruct (bool_decide _); [intros [= <- <-]; right; split; [by eexists|done]|].
  destruct (bool_decide _); [intros [= <- <-]; right; split; [by eexists|done]|].
  intros [= <- <-]. left. split; [done|]. by rewrite Er, Ew.
Qed.

#[local] Ltac settle := do 4 (split; [first [done|naive_solver]|]); naive_solver.

(** C30: an IPv4 target of the SOCKS 5 front end, dialed through a SOCKS 4 proxy.
    However the network cuts the answer, if the request can be written, the user
    name of the proxy URI has no NUL and the answer has its eight bytes, then one
    message is written, which a SOCKS 4 server reads as a CONNECT to that very
    address and port for the configured user, with nothing behind it; [Dial]
    succeeds exactly when the proxy answers with version 0 and "granted", and then
    the connection is open and what comes next is what follows the answer. And
    for any target, user name and network: when [Dial] fails after it connected
    to the proxy - the write fails, the answer is short, the proxy refuses - the
    connection is closed. *)
Theorem socks4_dial (netWrite : list bytes -> bytes -> option Packet.net_error)
    (user : bytes) (a b c d : byte) (port : Z) (k : GoNet.sock) (v code : byte) (pad rest : bytes)
    (writes_ok : forall sent b, netWrite sent b = None)
    (Hp : 0 <= port < 65536) (Hu : socks4Null ∉ user) (Hpad : zlen pad = 6)
    (Hs : GoNet.stream (GoNet.incoming k) (v :: code :: pad ++ rest)) :
  (exists r k' req,
    Dial netWrite user (str "tcp") (NetIP.dotted [a; b; c; d] ++ str ":" ++ Strconv.FormatInt port) (Ok k)
      = Some (r, Some k')
    /\ GoNet.sent k' = GoNet.sent k ++ [req]
    /\ connect_of req = Some (socks4CommandConnect, port, [a; b; c; d], user, [])
    /\ (r = Ok tt <-> v = socks4ReplyVersion /\ code = socks4Granted)
    /\ GoNet.stream (GoNet.incoming k') rest
    /\ (r = Ok tt -> GoNet.closed k' = GoNet.closed k))
  /\ (forall netWrite' user' network addr k0 r k1,
        Dial netWrite' user' network addr (Ok k0) = Some (r, Some k1) ->
        (r = Ok tt /\ GoNet.closed k1 = GoNet.closed k0)
        \/ (exists e, r = Err e) /\ GoNet.closed k1 = true).
Proof.
  split; [|intros *; apply Dial_closes].
  set (req := request user [a; b; c; d] port).
  set (k1 := GoNet.mkSock (GoNet.incoming k) (GoNet.sent k ++ [req]) (GoNet.tape k) (GoNet.closed k)).
  destruct (GoNet.ReadFull_stream 8 k1 _ Hs) as (net & E & Hs'); [zlia|].
  assert (Hreq : connect_of req = Some (socks4CommandConnect, port, [a; b; c; d], user, [])).
  { by apply request_read. }
  assert (Hcut : ztake 8 (v :: code :: pad ++ rest) = v :: code :: pad
                 /\ zdrop 8 (v :: code :: pad ++ rest) = rest).
  { rewrite 2!app_comm_cons. split; [apply ztake_app|apply zdrop_app]; zlia. }
  destruct Hcut as [Et Ed]. rewrite Et in E. rewrite Ed in Hs'.
  assert (Hd : forall r k', answer (v :: code :: pad)
      (GoNet.mkSock net (GoNet.sent k ++ [req]) (GoNet.tape k) (GoNet.closed k)) = Some (r, k') ->
    Dial netWrite user (str "tcp") (NetIP.dotted [a; b; c; d] ++ str ":" ++ Strconv.FormatInt port) (Ok k)
      = Some (r, Some k')).
  { intros r k' Ea. unfold Dial. rewrite destination_v4 by done.
    unfold converse, conn, on_err, GoNet.lift_net. unfold mbind at 2, IO_bind.
    fold req. unfold GoNet.Write. rewrite writes_ok. fold k1.
    unfold mbind at 2. rewrite E. cbn [GoNet.sent GoNet.tape GoNet.closed k1]. by rewrite Ea. }
  unfold answer in Hd. destruct (decide (v = socks4ReplyVersion)) as [Hv|Hv].
  - rewrite bool_decide_false in Hd by naive_solver. destruct (decide (code = socks4Granted)) as [Hc|Hc].
    + rewrite bool_decide_false in Hd by naive_solver.
      eexists _, _, req. split; [by apply Hd|]. settle.
    + rewrite bool_decide_true in Hd by done.
      eexists _, _, req. split; [by apply Hd|]. settle.
  - rewrite bool_decide_true in Hd by done.
    eexists _, _, req. split; [by apply Hd|]. settle.
Qed.

Definition toy_answer : GoNet.sock :=
  GoNet.mkSock [([Byte.x00; Byte.x5a; Byte.x00], None); (zrepeat 5 Byte.x00 ++ str "hi", None)] [] [] false.
Lemma socks4_dial_witness :
  (exists r k' req,
    Dial (fun _ _ => None) (str "tor") (str "tcp") (str "127.0.0.1:9001") (Ok toy_answer) = Some (r, Some k')
    /\ GoNet.sent k' = [req]
    /\ connect_of req = Some (socks4CommandConnect, 9001, [Byte.x7f; Byte.x00; Byte.x00; Byte.x01], str "tor", [])
    /\ (r = Ok tt <-> Byte.x00 = socks4ReplyVersion /\ Byte.x5a = socks4Granted)
    /\ GoNet.stream (GoNet.incoming k') (str "hi")
    /\ (r = Ok tt -> GoNet.closed k' = false))
  /\ (forall netWrite' user' network addr k0 r k1,
        Dial netWrite' user' network addr (Ok k0) = Some (r, Some k1) ->
        (r = Ok tt /\ GoNet.closed k1 = GoNet.closed k0)
        \/ (exists e, r = Err e) /\ GoNet.closed k1 = true).
Proof.
  apply (socks4_dial (fun _ _ => None) (str "tor") Byte.x7f Byte.x00 Byte.x00 Byte.x01 9001 toy_answer
           Byte.x00 Byte.x5a (zrepeat 6 Byte.x00) (str "hi")).
  - done.
  - lia.
  - apply (bool_decide_eq_true_1 (socks4Null ∉ str "tor")). vm_compute. reflexivity.
  - reflexivity.
  - split; [reflexivity|]. repeat constructor.
Defined.
End Socks4.
