(* ===== verification/Null.v ===== *)
(** * The null transport: [transports/null/null.go]

    No defense: the bytes go through.  The trace logger is off
    ([traceLogEnabled]), so that nothing ever comes on the error channel. *)
From S2P Require Import Prelude GoStd Rand Packet GoNet.

Module Null.
Definition transportName : bytes := str "null".

Record nullConn := mkConn { sock : GoNet.sock; isServer : bool }.
Definition set_sock (k : GoNet.sock) (c : nullConn) : nullConn := mkConn k (isServer c).

(** [Dial]: what dialing gives, wrapped. *)
Definition Dial {E} (dialed : E + GoNet.sock) : E + nullConn :=
  match dialed with inl e => inl e | inr k => inr (mkConn k false) end.
Definition WrapConn (k : GoNet.sock) : nullConn := mkConn k true.

(** [Read]: data that comes together with an error is not returned. *)
Definition Read (n : Z) : IO nullConn Packet.net_error bytes := fun c =>
  '(rd, e, net) ← GoNet.read_net n (GoNet.incoming (sock c));
  let c := set_sock (GoNet.mkSock net (GoNet.sent (sock c)) (GoNet.tape (sock c)) (GoNet.closed (sock c))) c in
  Some (match e with None => Ok rd | Some e => Err e end, c).

(** [closeAfterDelay]: what it does with the connection; times in nanoseconds, the delay
    in seconds. *)
Inductive action := SetReadDeadline (t : Z) | Discard | Close.
Definition closeAfterDelay (closeDelay startTime now : Z) (deadlineErr : option Packet.net_error) : list action :=
  let deadline := startTime + closeDelay * 1000000000 in
  if deadline <? now then [Close]
  else match deadlineErr with
       | Some _ => [SetReadDeadline deadline; Close]
       | None => [SetReadDeadline deadline; Discard; Close]
       end.

Inductive error := ReadError (e : Packet.net_error) | WriteError (e : Packet.net_error).

Section relay.
Context (netWrite : list bytes -> bytes -> option Packet.net_error).

(** The main loop of [ReadFrom]: [reads] is what the reads of the source return, into
    a buffer of 65535 bytes.  The count it returns is not touched. *)
Fixpoint read_from (reads : GoNet.reads) (c : nullConn) : option (Z * error * nullConn) :=
  match reads with
  | [] => None
  | (rd, Some e) :: _ => Some (0, ReadError e, c)
  | ([], None) :: _ => Some (0, ReadError Packet.EOF, c)
  | (rd, None) :: reads =>
      match netWrite (GoNet.sent (sock c)) rd with
      | Some e => Some (0, WriteError e, c)
      | None =>
          read_from reads (set_sock (GoNet.mkSock (GoNet.incoming (sock c)) (GoNet.sent (sock c) ++ [rd])
                                       (GoNet.tape (sock c)) (GoNet.closed (sock c))) c)
      end
  end.
Definition ReadFrom (reads : GoNet.reads) (c : nullConn) : option (Z * error * nullConn) := read_from reads c.

(** What is read up to the end is written, in order and unchanged ... *)
Lemma ReadFrom_relays (net_ok : forall s b, netWrite s b = None) : forall datas e last c,
  Forall (fun d => d <> []) datas ->
  ReadFrom (map (fun d => (d, None)) datas ++ [(last, Some e)]) c
  = Some (0, ReadError e,
          set_sock (GoNet.mkSock (GoNet.incoming (sock c)) (GoNet.sent (sock c) ++ datas)
                      (GoNet.tape (sock c)) (GoNet.closed (sock c))) c).
Proof.
  unfold ReadFrom. intros datas e last c Hd. revert c.
  induction Hd as [|d datas Hd _ IH]; intros c; cbn.
  - rewrite app_nil_r. by destruct c as [[] ?], last.
  - destruct d as [|x d]; [done|]. rewrite net_ok, IH. cbn. by rewrite <- app_assoc.
Qed.
(** ... but the data of a read that also reports an error, such as the end of the
    stream, is not, and the number of bytes is always zero. *)
Lemma ReadFrom_counts reads c n e c' : ReadFrom reads c = Some (n, e, c') -> n = 0.
Proof.
  unfold ReadFrom. revert c. induction reads as [|[rd [er|]] reads IH]; intros c; cbn; [done| |].
  - by destruct rd; intros [= <- _ _].
  - destruct rd as [|x rd]; [by intros [= <- _ _]|]. destruct (netWrite _ _); [by intros [= <- _ _]|apply IH].
Qed.
End relay.

End Null.
