(* ===== verification/PtExtras.v ===== *)
(** * Managed-proxy configuration: [obfs4proxy/pt_extras.go]

    The environment variables of the pluggable transport specification, and the
    check of the upstream proxy's URI.  A line on standard output is part of the
    result. *)
From S2P Require Import Prelude GoStd GoText GoAddr GoURL Rand Packet GoNet Socks4.

Module PtExtras.
(** The lines that tell tor about a failure. *)
Inductive line := EnvError (msg : bytes) | ProxyError (msg : bytes) | ProxyDone.
Definition line_text (l : line) : bytes :=
  match l with
  | EnvError msg => str "ENV-ERROR " ++ msg ++ [Byte.x0a]
  | ProxyError msg => str "PROXY-ERROR " ++ msg ++ [Byte.x0a]
  | ProxyDone => str "PROXY DONE" ++ [Byte.x0a]
  end.
Definition out (E A : Type) : Type := result E A * list line.

Definition ptEnvError {A} (msg : bytes) : out bytes A := (Err msg, [EnvError msg]).
Definition ptProxyError {A} (msg : bytes) : out bytes A := (Err msg, [ProxyError msg]).

(** [ptIsClient]: an unset variable is empty. *)
Definition ptIsClient (clientEnv serverEnv : bytes) : out bytes bool :=
  if bool_decide (clientEnv <> []) && bool_decide (serverEnv <> [])
  then ptEnvError (str "TOR_PT_[CLIENT,SERVER]_TRANSPORTS both set")
  else if bool_decide (clientEnv <> []) then (Ok true, [])
  else if bool_decide (serverEnv <> []) then (Ok false, [])
  else (Err (str "not launched as a managed transport"), []).

(** [resolveAddrStr]: the address of a URI's host. *)
Definition resolveAddrStr (addrStr : bytes) : option (bytes * Z) :=
  '(ipStr, portStr) ← GoAddr.SplitHostPort addrStr;
  if bool_decide (ipStr = []) then None
  else if bool_decide (portStr = []) then None
  else
    ip ← GoAddr.ParseIP ipStr;
    port ← GoAddr.ParseUint 16 portStr;
    Some (ip, port).

(** The credentials: what is wrong with them, if anything. *)
Definition credentials (spec : GoURL.URL) : option bytes :=
  if bool_decide (GoURL.Scheme spec = str "socks4a") then
    match GoURL.User spec with
    | Some (GoURL.mkUser _ (Some _)) => Some (str "proxy URI specified SOCKS4a and a password")
    | _ => None
    end
  else if bool_decide (GoURL.Scheme spec = str "socks5") then
    match GoURL.User spec with
    | None => None
    | Some u =>
        let passwd := default [] (GoURL.Password u) in
        if (zlen (GoURL.Username u) <? 1) || (255 <? zlen (GoURL.Username u))
        then Some (str "proxy URI specified a invalid SOCKS5 username")
        else if bool_decide (GoURL.Password u = None) || (zlen passwd <? 1) || (255 <? zlen passwd)
        then Some (str "proxy URI specified a invalid SOCKS5 password")
        else None
    end
  else if bool_decide (GoURL.Scheme spec = str "http") then None
  else Some (str "proxy URI has invalid scheme: " ++ GoURL.Scheme spec).

(** [ptGetProxy]; the texts of the errors of [url.Parse] and [resolveAddrStr] are
    not spelled out. *)
Definition ptGetProxy (specString : bytes) : out bytes (option GoURL.URL) :=
  if bool_decide (specString = []) then (Ok None, [])
  else match GoURL.Parse specString with
  | None => ptProxyError (str "failed to parse proxy config")
  | Some spec =>
      if negb (GoURL.IsAbs spec) then ptProxyError (str "proxy URI is relative, must be absolute")
      else if bool_decide (GoURL.Path spec <> []) then ptProxyError (str "proxy URI has a path defined")
      else if bool_decide (GoURL.RawQuery spec <> []) then ptProxyError (str "proxy URI has a query defined")
      else if bool_decide (GoURL.Fragment spec <> []) then ptProxyError (str "proxy URI has a fragment defined")
      else match credentials spec with
      | Some msg => ptProxyError msg
      | None =>
          match resolveAddrStr (GoURL.Host spec) with
          | None => ptProxyError (str "proxy URI has invalid host")
          | Some _ => (Ok (Some spec), [])
          end
      end
  end.

Definition ptShouldExitOnStdinClose (env : bytes) : bool := bool_decide (env = str "1").

(** [newSOCKS4]: where the dialer of a [socks4a] URI connects, and as whom. *)
Definition newSOCKS4 (uri : GoURL.URL) : bytes * bytes :=
  (GoURL.Host uri, match GoURL.User uri with Some u => GoURL.Username u | None => [] end).
(** [newHTTP]: likewise, with the credentials. *)
Definition newHTTP (uri : GoURL.URL) : bytes * option (bytes * bytes) :=
  (GoURL.Host uri, u ← GoURL.User uri; Some (GoURL.Username u, default [] (GoURL.Password u))).
(** The credentials of the [Proxy-Authorization] header of [httpProxy.Dial]. *)
Definition authorization (auth : option (bytes * bytes)) : option bytes :=
  '(user, password) ← auth;
  Some (str "Basic " ++ Base64.EncodeToString (user ++ str ":" ++ password)).

(** [httpConn.Read]: what the HTTP client had buffered comes first; [k] is the size
    of the caller's buffer. *)
Record httpConn := mkHttpConn { staleReader : option bytes; hijacked : GoNet.reads }.
Definition http_Read (k : Z) (c : httpConn) : option (bytes * option Packet.net_error * httpConn) :=
  match staleReader c with
  | Some (x :: l) => Some (ztake k (x :: l), None, mkHttpConn (Some (zdrop k (x :: l))) (hijacked c))
  | _ =>
      '(rd, e, net) ← GoNet.read_net k (hijacked c);
      Some (rd, e, mkHttpConn None net)
  end.

(** ** What the check of the URI promises the dialers *)

Definition usable (u : GoURL.URL) : Prop :=
  (exists ip port, resolveAddrStr (GoURL.Host u) = Some (ip, port))
  /\ GoURL.Path u = [] /\ GoURL.RawQuery u = [] /\ GoURL.Fragment u = []
  /\ (GoURL.Scheme u = str "http"
      \/ GoURL.Scheme u = str "socks4a" /\ (forall c, GoURL.User u = Some c -> GoURL.Password c = None)
      \/ GoURL.Scheme u = str "socks5"
         /\ (forall c, GoURL.User u = Some c -> 1 <= zlen (GoURL.Username c) <= 255
               /\ exists p, GoURL.Password c = Some p /\ 1 <= zlen p <= 255)).

Lemma credentials_ok u : credentials u = None ->
  GoURL.Scheme u = str "http"
  \/ GoURL.Scheme u = str "socks4a" /\ (forall c, GoURL.User u = Some c -> GoURL.Password c = None)
  \/ GoURL.Scheme u = str "socks5"
     /\ (forall c, GoURL.User u = Some c -> 1 <= zlen (GoURL.Username c) <= 255
           /\ exists p, GoURL.Password c = Some p /\ 1 <= zlen p <= 255).
Proof.
  unfold credentials. case_bool_decide as E1.
  { intros H. right; left. split; [done|]. intros [n [p|]] E; rewrite E in H; done. }
  case_bool_decide as E2.
  { intros H. right; right. split; [done|]. intros [n p] E. rewrite E in H. cbn in H.
    destruct ((zlen n <? 1) || (255 <? zlen n)) eqn:En; [done|].
    apply orb_false_iff in En as [? ?]. b2p. cbn. split; [lia|]. destruct p as [p|]; [|done].
    cbn in H. destruct ((zlen p <? 1) || (255 <? zlen p)) eqn:Ep; [done|].
    apply orb_false_iff in Ep as [? ?]. b2p. exists p. split; [done|lia]. }
  case_bool_decide as E3; [by left|done].
Qed.

(** [ptGetProxy] accepts only URIs that the dialers can use, and writes a line
    exactly when it refuses one. *)
Lemma ptGetProxy_ok spec r ls : ptGetProxy spec = (r, ls) ->
  (exists msg, r = Err msg /\ ls = [ProxyError msg]) \/ ls = [] /\ (r = Ok None /\ spec = []
   \/ exists u, r = Ok (Some u) /\ GoURL.Parse spec = Some u /\ usable u).
Proof.
  unfold ptGetProxy. case_bool_decide as E0; [intros [= <- <-]; auto|].
  destruct (GoURL.Parse spec) as [u|] eqn:Eu; [|intros [= <- <-]; left; eauto].
  destruct (GoURL.IsAbs u) eqn:Ea; cbn [negb]; [|intros [= <- <-]; left; eauto].
  case_bool_decide as E1; [intros [= <- <-]; left; eauto|].
  case_bool_decide as E2; [intros [= <- <-]; left; eauto|].
  case_bool_decide as E3; [intros [= <- <-]; left; eauto|].
  destruct (credentials u) as [msg|] eqn:Ec; [intros [= <- <-]; left; eauto|].
  destruct (resolveAddrStr (GoURL.Host u)) as [[ip port]|] eqn:Er; [|intros [= <- <-]; left; eauto].
  intros [= <- <-]. right. split; [done|]. right. exists u. split; [done|]. split; [done|].
  split; [eauto|]. split_and!; [done..|by apply credentials_ok].
Qed.

(** Nothing is lost between the CONNECT answer and the stream of the proxy. *)
Definition to_come (c : httpConn) : bytes := default [] (staleReader c) ++ concat (map fst (hijacked c)).

Lemma read_net_data k net d e net' : GoNet.read_net k net = Some (d, e, net') ->
  concat (map fst net) = d ++ concat (map fst net').
Proof.
  destruct net as [|[rd er] net]; [done|]. cbn. destruct (k <? zlen rd); intros [= <- <- <-]; cbn; [|done].
  by rewrite app_assoc, ztake_zdrop.
Qed.

Lemma http_Read_order k c d e c' : http_Read k c = Some (d, e, c') -> to_come c = d ++ to_come c'.
Proof.
  unfold http_Read, to_come. destruct c as [stale net]. cbn [staleReader hijacked].
  assert (Hr : ('(rd, e0, net) ← GoNet.read_net k net; Some (rd, e0, mkHttpConn None net)) = Some (d, e, c') ->
    concat (map fst net) = d ++ to_come c').
  { destruct (GoNet.read_net k net) as [[[rd e0] net']|] eqn:E; [|done]. intros [= -> -> <-].
    by apply read_net_data in E. }
  destruct stale as [[|x l]|]; [apply Hr| |apply Hr].
  intros [= <- <- <-]. change (default [] (Some (x :: l))) with (x :: l).
  cbn [staleReader hijacked].
  change (default [] (Some (zdrop k (x :: l)))) with (zdrop k (x :: l)).
  by rewrite app_assoc, ztake_zdrop.
Qed.

Example ptGetProxy_socks4 : ptGetProxy (str "socks4a://me@192.0.2.1:1080")
  = (Ok (Some (GoURL.mkURL (str "socks4a") [] (Some (GoURL.mkUser (str "me") None)) (str "192.0.2.1:1080") [] [] [])), []).
Proof. vm_compute. reflexivity. Qed.
(** A user name with a NUL passes the check, and then ends early for the proxy
    ([Socks4.username_nul]). *)
Example ptGetProxy_nul : exists u, ptGetProxy (str "socks4a://me%00x@192.0.2.1:1080") = (Ok (Some u), [])
  /\ Socks4.connect_of (Socks4.request (newSOCKS4 u).2 [Byte.x0a; Byte.x00; Byte.x00; Byte.x01] 80)
     = Some (Socks4.socks4CommandConnect, 80, [Byte.x0a; Byte.x00; Byte.x00; Byte.x01], str "me", [Byte.x78; Byte.x00]).
Proof. eexists. split; vm_compute; reflexivity. Qed.
End PtExtras.
