(* ===== verification/TermMon.v ===== *)
(** * The termination monitor: [obfs4proxy/termmon.go] and the end of [main]

    [wait] receives from two unbuffered channels: signals and the counts of the
    handlers.  What it receives, in the order it receives it, is a list of
    messages; [None] says that it waits for more.  Nobody but [wait] receives, so
    a handler cannot start while [main] is not in it. *)
From S2P Require Import Prelude.

Module TermMon.
Inductive signal := SIGINT | SIGTERM.
#[export] Instance signal_eq_dec : EqDecision signal.
Proof. solve_decision. Defined.

(** What arrives: on [handlerChan] a number, on [sigChan] a signal. *)
Inductive message := Handlers (n : Z) | Sig (s : signal).
Definition onHandlerStart : message := Handlers 1.
Definition onHandlerFinish : message := Handlers (-1).

Record termMonitor := mkMon { numHandlers : Z }.
Definition newTermMonitor : termMonitor := mkMon 0.

(** The loop of [wait]: the signal, the monitor, and what is not received yet. *)
Fixpoint wait (termOnNoHandlers : bool) (m : termMonitor) (inbox : list message)
    : option (signal * termMonitor * list message) :=
  match inbox with
  | [] => None
  | Sig s :: inbox => Some (s, m, inbox)
  | Handlers n :: inbox =>
      let m := mkMon (i64 (numHandlers m + n)) in
      if termOnNoHandlers && (numHandlers m =? 0) then Some (SIGTERM, m, inbox)
      else wait termOnNoHandlers m inbox
  end.

(** The goroutines that watch the parent process.  [termOnStdinClose] sends one
    SIGTERM when standard input ends, with an error or without;
    [termOnPPIDChange] when [Getppid] first answers something else. *)
Definition termOnStdinClose : list signal := [SIGTERM].
Fixpoint termOnPPIDChange (ppid : Z) (polls : list Z) : option (list signal) :=
  match polls with
  | [] => None
  | p :: polls => if ppid =? p then termOnPPIDChange ppid polls else Some [SIGTERM]
  end.

(** Which watchers [newTermMonitor] starts: the value of
    [TOR_PT_EXIT_ON_STDIN_CLOSE], whether the platform has a hook and what the
    hook says ([None]: success), and whether it is Windows. *)
Inductive watcher := WatchStdin | WatchPPID | WatchOS.
Definition watchers {E} (exitOnStdinClose : bool) (hook : option (option E)) (windows : bool) : list watcher :=
  if exitOnStdinClose then [WatchStdin]
  else match hook with
       | Some None => [WatchOS]
       | _ => if windows then [] else [WatchPPID]
       end.

(** From "accepting connections" on: the listeners are closed at the first
    SIGINT; [None] says that the process runs. *)
Record exit := mkExit { listeners_closed : bool; left : list message }.
Definition main_wait (inbox : list message) : option exit :=
  '(sig, m, inbox) ← wait false newTermMonitor inbox;
  if bool_decide (sig = SIGTERM) then Some (mkExit false inbox)
  else '(_, _, inbox) ← wait true m inbox; Some (mkExit true inbox).

(** ** Proofs *)

(** Messages of handlers that start and finish: the count never goes below zero. *)
Fixpoint handlers (n : Z) (inbox : list message) : Prop :=
  match inbox with
  | [] => 0 <= n < 2 ^ 63
  | Handlers d :: inbox => 0 <= n < 2 ^ 63 /\ (d = 1 \/ d = -1) /\ handlers (n + d) inbox
  | Sig _ :: _ => False
  end.
Fixpoint pending (n : Z) (inbox : list message) : Z :=
  match inbox with
  | Handlers d :: inbox => pending (n + d) inbox
  | _ => n
  end.

Lemma i64_count z : 0 <= z < 2 ^ 63 -> i64 z = z.
Proof. intros. unfold i64, swrap. rewrite Z.mod_small by lia. lia. Qed.
Lemma handlers_count n l : handlers n l -> 0 <= n < 2 ^ 63.
Proof. destruct l as [|[] l]; cbn; tauto. Qed.

Lemma wait_handlers : forall l n later, handlers n l ->
  wait false (mkMon n) (l ++ later) = wait false (mkMon (pending n l)) later.
Proof.
  induction l as [|[d|s] l IH]; cbn; intros n later Hh; [done| |done].
  destruct Hh as (_ & _ & Hh). rewrite i64_count; [by apply IH|].
  by apply handlers_count in Hh.
Qed.

Lemma wait_sig b m s later : wait b m (Sig s :: later) = Some (s, m, later).
Proof. done. Qed.

(** The handlers that are left: the count is positive until the last message. *)
Fixpoint draining (n : Z) (l : list message) : Prop :=
  match l with
  | [] => False
  | Handlers d :: l => (d = 1 \/ d = -1) /\ 0 <= n + d < 2 ^ 63
                       /\ (if n + d =? 0 then l = [] else draining (n + d) l)
  | Sig _ :: _ => False
  end.

Lemma wait_drained : forall l n later, draining n l ->
  wait true (mkMon n) (l ++ later) = Some (SIGTERM, mkMon 0, later).
Proof.
  induction l as [|[d|s] l IH]; cbn; intros n later Hd; [done| |done].
  destruct Hd as (_ & Hn & Hd). rewrite i64_count by lia.
  destruct (n + d =? 0) eqn:E; b2p; [by rewrite E; subst l|by apply IH].
Qed.

(** While handlers are left, nothing but a signal ends the second wait. *)
Fixpoint busy (n : Z) (l : list message) : Prop :=
  match l with
  | [] => True
  | Handlers d :: l => 0 < n + d < 2 ^ 63 /\ busy (n + d) l
  | Sig _ :: _ => False
  end.
Lemma wait_busy : forall l n later, busy n l ->
  wait true (mkMon n) (l ++ later) = wait true (mkMon (pending n l)) later.
Proof.
  induction l as [|[d|s] l IH]; cbn; intros n later Hd; [done| |done].
  destruct Hd as (Hn & Hd). rewrite i64_count by lia.
  rewrite eqb_false by lia. by apply IH.
Qed.

(** How the process ends.  Connections may come and go in any order: (1) a
    SIGTERM ends it at once, with the listeners open; (2) a SIGINT closes the
    listeners, and then it ends with the message by which the number of handlers
    reaches zero; (3) or with the next signal if some are left; (4) but a process
    without connections keeps running after a SIGINT, until the next signal. *)
Theorem graceful_exit (before after later : list message) (s : signal) (Hb : handlers 0 before) :
  main_wait (before ++ Sig SIGTERM :: later) = Some (mkExit false later)
  /\ (draining (pending 0 before) after ->
      main_wait (before ++ Sig SIGINT :: after ++ later) = Some (mkExit true later))
  /\ (busy (pending 0 before) after ->
      main_wait (before ++ Sig SIGINT :: after ++ Sig s :: later) = Some (mkExit true later)
      /\ main_wait (before ++ Sig SIGINT :: after) = None)
  /\ (pending 0 before = 0 -> main_wait (before ++ [Sig SIGINT]) = None
      /\ main_wait (before ++ Sig SIGINT :: Sig s :: later) = Some (mkExit true later)).
Proof.
  assert (Hw : forall l, wait false newTermMonitor (before ++ l)
                         = wait false (mkMon (pending 0 before)) l) by (intros; by apply wait_handlers).
  unfold main_wait. split_and!.
  - by rewrite Hw.
  - intros Hd. rewrite Hw. cbn. by rewrite wait_drained.
  - intros Hd. rewrite !Hw. cbn. rewrite wait_busy by done. split; [done|].
    rewrite <- (app_nil_r after), wait_busy by done. done.
  - intros E. rewrite !Hw, E. done.
Qed.

Lemma graceful_exit_witness :
  main_wait ([onHandlerStart; onHandlerStart; onHandlerFinish] ++ [Sig SIGTERM]) = Some (mkExit false [])
  /\ main_wait ([onHandlerStart; onHandlerStart; onHandlerFinish] ++ Sig SIGINT :: [onHandlerFinish] ++ [])
     = Some (mkExit true []).
Proof.
  assert (H : handlers 0 [onHandlerStart; onHandlerStart; onHandlerFinish])
    by (vm_compute; intuition congruence).
  destruct (graceful_exit [onHandlerStart; onHandlerStart; onHandlerFinish] [onHandlerFinish] [] SIGINT H)
    as (H1 & H2 & _).
  split; [exact H1|]. apply H2. vm_compute. intuition congruence.
Defined.
End TermMon.
