(* ===== verification/CopyLoop.v ===== *)
(** * The relay: [copyLoop] of [obfs4proxy/obfs4proxy.go]

    Two goroutines copy between the SOCKS or ORPort connection [a] and the
    transport's connection [b] with [io.Copy]; whichever ends closes both.  The
    loop of [io.Copy] reads into a buffer of 32 KB and writes it; what the reads
    and writes of the connections answer, and when, is the environment's choice,
    after [Close] too: [Close] of a connection of this repository need not make
    them fail ([Meek.closed_read_answers]).  (A
    transport with a [ReadFrom] of its own takes the place of the copier from [a]
    to [b]; the files of the defense transports model those.) *)
From S2P Require Import Prelude Packet Cells.

Module CopyLoop.
(** What a connection answers, and the error of [io.Copy] itself. *)
Inductive error := NetError (e : Packet.net_error) | ErrClosed | ErrShortWrite.
(** The error of a read: end of file is not one for [io.Copy]. *)
Inductive read_error := EOF | ReadError (e : error).

Definition bufsize : Z := 32768.

(** [read] and [written] are history: the bytes that the reads and writes of the
    connection carried so far. *)
Record conn := mkConn { closed : bool; read : bytes; written : bytes }.
Definition set_closed (c : conn) : conn := mkConn true (read c) (written c).
Definition add_read (d : bytes) (c : conn) : conn := mkConn (closed c) (read c ++ d) (written c).
Definition add_written (d : bytes) (c : conn) : conn := mkConn (closed c) (read c) (written c ++ d).

(** Where a copier is; it closes its source before its destination. *)
Inductive copier :=
| CRead
| CWrite (buf : bytes) (er : option read_error)
| CSend (err : option error)     (* errChan <- err *)
| CCloseSrc
| CCloseDst
| CDone.

Inductive dir := AtoB | BtoA.
#[export] Instance dir_eq_dec : EqDecision dir.
Proof. solve_decision. Defined.

(** [errChan] has room for two errors; whose each is, is history. *)
Definition err_cap : Z := 2.
Record st := mkSt { a : conn; b : conn; up : copier; down : copier; errChan : list (dir * option error) }.

Definition src (d : dir) (s : st) : conn := match d with AtoB => a s | BtoA => b s end.
Definition dst (d : dir) (s : st) : conn := match d with AtoB => b s | BtoA => a s end.
Definition pc (d : dir) (s : st) : copier := match d with AtoB => up s | BtoA => down s end.
Definition set_src (d : dir) (c : conn) (s : st) : st :=
  match d with AtoB => mkSt c (b s) (up s) (down s) (errChan s)
             | BtoA => mkSt (a s) c (up s) (down s) (errChan s) end.
Definition set_dst (d : dir) (c : conn) (s : st) : st :=
  match d with AtoB => set_src BtoA c s | BtoA => set_src AtoB c s end.
Definition set_pc (d : dir) (k : copier) (s : st) : st :=
  match d with AtoB => mkSt (a s) (b s) k (down s) (errChan s)
             | BtoA => mkSt (a s) (b s) (up s) k (errChan s) end.
Definition push (d : dir) (e : option error) (s : st) : st :=
  mkSt (a s) (b s) (up s) (down s) (errChan s ++ [(d, e)]).

Definition init : st := mkSt (mkConn false [] []) (mkConn false [] []) CRead CRead [].

(** How the loop goes on after a buffer was written, or there was none. *)
Definition next (er : option read_error) : copier :=
  match er with
  | None => CRead
  | Some EOF => CSend None
  | Some (ReadError e) => CSend (Some e)
  end.

Inductive event :=
| Read (d : dir) (buf : bytes) (er : option read_error)
| Write (d : dir) (n : Z) (ew : option error)
| Step (d : dir).               (* the end of a goroutine, one statement at a time *)

(** What [Read] and [Write] may answer, on a closed connection as well. *)
Definition may_read (buf : bytes) : bool := zlen buf <=? bufsize.
Definition may_write (buf : bytes) (n : Z) : bool := (0 <=? n) && (n <=? zlen buf).

Definition exec (ev : event) (s : st) : option st :=
  match ev with
  | Read d buf er =>
      match pc d s with
      | CRead =>
          if may_read buf then
            let s := set_src d (add_read buf (src d s)) s in
            Some (set_pc d (match buf with [] => next er | _ => CWrite buf er end) s)
          else None
      | _ => None
      end
  | Write d n ew =>
      match pc d s with
      | CWrite buf er =>
          if may_write buf n then
            let s := set_dst d (add_written (ztake n buf) (dst d s)) s in
            Some (set_pc d (match ew with
                            | Some e => CSend (Some e)
                            | None => if n =? zlen buf then next er else CSend (Some ErrShortWrite)
                            end) s)
          else None
      | _ => None
      end
  | Step d =>
      match pc d s with
      | CSend e => if zlen (errChan s) <? err_cap then Some (set_pc d CCloseSrc (push d e s)) else None
      | CCloseSrc => Some (set_pc d CCloseDst (set_src d (set_closed (src d s)) s))
      | CCloseDst => Some (set_pc d CDone (set_dst d (set_closed (dst d s)) s))
      | _ => None
      end
  end.

(** [wg.Wait ()], and the first error. *)
Definition returned (s : st) : option (option error) :=
  match up s, down s with
  | CDone, CDone => Some (match errChan s with (_, e) :: _ => e | [] => None end)
  | _, _ => None
  end.

Abbreviation step := (Cells.does exec).

(** ** What is relayed *)

(** What a copier still holds of what it read. *)
Definition held (k : copier) (rest : bytes) : Prop :=
  match k with
  | CRead | CSend None => rest = []
  | CWrite buf _ => rest = buf
  | _ => True
  end.
Definition copying (k : copier) : Prop := match k with CRead | CWrite _ _ => True | _ => False end.
Definition sent (k : copier) : Prop :=
  match k with CCloseSrc | CCloseDst | CDone => True | _ => False end.
(** All that was read of the source was written to the destination. *)
Definition complete (d : dir) (s : st) : Prop := read (src d s) = written (dst d s).

Record Inv (s : st) : Prop := {
  inv_rest d : exists rest, read (src d s) = written (dst d s) ++ rest /\ held (pc d s) rest;
  inv_errs d e : (d, e) ∈ errChan s -> sent (pc d s) /\ (e = None -> complete d s);
  inv_sent d : sent (pc d s) -> exists e, (d, e) ∈ errChan s;
  inv_one : NoDup (errChan s).*1;
  inv_src d : pc d s = CCloseDst -> closed (src d s) = true;
  inv_done d : pc d s = CDone -> closed (a s) = true /\ closed (b s) = true
}.

Lemma copy_Inv_init : Inv init.
Proof.
  split; cbn.
  - intros []; by exists [].
  - intros [] e H; by apply not_elem_of_nil in H.
  - by intros [].
  - constructor.
  - by intros [].
  - by intros [].
Qed.

Lemma next_held er : held (next er) [].
Proof. by destruct er as [[]|]. Qed.
Lemma next_not_sent er : ~ sent (next er).
Proof. destruct er as [[]|]; by intros []. Qed.

(** A copier that is still copying reported nothing. *)
Lemma copying_unsent s d : Inv s -> ~ sent (pc d s) -> d ∉ (errChan s).*1.
Proof.
  intros Hi Hp (x & -> & Hx)%list_elem_of_fmap. destruct x as [d e]. by apply (inv_errs s Hi) in Hx as [? _].
Qed.

(** Reading and writing move bytes and the copier. *)
Lemma moved_inv d s s' : Inv s -> ~ sent (pc d s) ->
  errChan s' = errChan s -> closed (a s') = closed (a s) -> closed (b s') = closed (b s) ->
  (forall d', d' <> d -> pc d' s' = pc d' s /\ read (src d' s') = read (src d' s)
                         /\ written (dst d' s') = written (dst d' s)) ->
  ~ sent (pc d s') -> (exists rest, read (src d s') = written (dst d s') ++ rest /\ held (pc d s') rest) ->
  Inv s'.
Proof.
  intros Hi Hp He Ha Hb Ho Hp' Hr. pose proof (copying_unsent s d Hi Hp) as Hun.
  assert (Hd : forall d', d' = d \/ d' <> d) by (intros []; destruct d; auto).
  assert (Hc : forall d', closed (src d' s') = closed (src d' s)) by (by intros []).
  split.
  - intros d'. destruct (Hd d') as [->|(-> & -> & ->)%Ho]; [done|apply (inv_rest s Hi)].
  - intros d' e. rewrite He. intros H. destruct (Hd d') as [->|(Ep & Er & Ew)%Ho].
    + destruct Hun. apply list_elem_of_fmap. by exists (d, e).
    + unfold complete. rewrite Ep, Er, Ew. by apply (inv_errs s Hi).
  - intros d'. rewrite He. destruct (Hd d') as [->|(-> & _ & _)%Ho]; [done|apply (inv_sent s Hi)].
  - rewrite He. apply (inv_one s Hi).
  - intros d'. rewrite Hc. destruct (Hd d') as [->|(-> & _ & _)%Ho]; [|apply (inv_src s Hi)].
    intros E. rewrite E in Hp'. by destruct Hp'.
  - intros d'. rewrite Ha, Hb. destruct (Hd d') as [->|(-> & _ & _)%Ho]; [|apply (inv_done s Hi)].
    intros E. rewrite E in Hp'. by destruct Hp'.
Qed.

Lemma reported_inv d e s : Inv s -> pc d s = CSend e -> Inv (set_pc d CCloseSrc (push d e s)).
Proof.
  intros Hi Ep. assert (Hun : d ∉ (errChan s).*1) by (apply copying_unsent; [done|rewrite Ep; intros []]).
  pose proof (inv_rest s Hi d) as (rest & Hr & Hh). rewrite Ep in Hh. destruct Hi as [I1 I2 I3 I4 I5 I6].
  assert (Ec : errChan (set_pc d CCloseSrc (push d e s)) = errChan s ++ [(d, e)]) by (by destruct d).
  split; rewrite ?Ec.
  - intros d'. destruct (I1 AtoB) as (r1 & ? & ?), (I1 BtoA) as (r2 & ? & ?). destruct d, d'; cbn in *; eauto.
  - intros d' e' [H|H%list_elem_of_singleton]%elem_of_app.
    + destruct (decide (d' = d)) as [->|Hd].
      * destruct Hun. apply list_elem_of_fmap. by exists (d, e').
      * apply I2 in H. by destruct d, d'.
    + injection H as -> ->. split; [by destruct d|]. intros ->. cbn in Hh. subst rest.
      unfold complete. rewrite app_nil_r in Hr. by destruct d.
  - intros d' Hs. destruct (decide (d' = d)) as [->|Hd].
    + exists e. apply elem_of_app. right. by apply list_elem_of_singleton.
    + destruct (I3 d') as (e' & H); [by destruct d, d'|]. exists e'. apply elem_of_app. by left.
  - rewrite fmap_app. apply NoDup_app. split; [done|]. split; [|apply NoDup_singleton].
    intros x Hx ->%list_elem_of_singleton. done.
  - intros d'. specialize (I5 d'). destruct d, d'; cbn in *; auto; discriminate.
  - intros d'. specialize (I6 d'). destruct d, d'; cbn in *; auto; discriminate.
Qed.

Lemma closing_inv d s : Inv s -> pc d s = CCloseSrc ->
  Inv (set_pc d CCloseDst (set_src d (set_closed (src d s)) s)).
Proof.
  intros [I1 I2 I3 I4 I5 I6] Ep. split.
  - intros d'. destruct (I1 AtoB) as (r1 & ? & ?), (I1 BtoA) as (r2 & ? & ?). destruct d, d'; cbn in *; eauto.
  - intros d' e H. destruct (I2 d' e) as [H1 H2]; [by destruct d|]. by destruct d, d'.
  - intros d' H. destruct (I3 d') as (e & He); [destruct d, d'; cbn in *; by rewrite ?Ep|].
    exists e. by destruct d.
  - by destruct d.
  - intros d' H. specialize (I5 d'). destruct d, d'; cbn in *; auto; discriminate.
  - intros d' H. specialize (I6 d'). destruct d, d'; cbn in *; try done; by destruct I6.
Qed.

Lemma closed_inv d s : Inv s -> pc d s = CCloseDst ->
  Inv (set_pc d CDone (set_dst d (set_closed (dst d s)) s)).
Proof.
  intros [I1 I2 I3 I4 I5 I6] Ep. pose proof (I5 d Ep) as Hc. split.
  - intros d'. destruct (I1 AtoB) as (r1 & ? & ?), (I1 BtoA) as (r2 & ? & ?). destruct d, d'; cbn in *; eauto.
  - intros d' e H. destruct (I2 d' e) as [H1 H2]; [by destruct d|]. by destruct d, d'.
  - intros d' H. destruct (I3 d') as (e & He); [destruct d, d'; cbn in *; by rewrite ?Ep|].
    exists e. by destruct d.
  - by destruct d.
  - intros d' H. specialize (I5 d'). destruct d, d'; cbn in *; try done; by apply I5.
  - intros d' H. specialize (I6 d'). destruct d, d'; cbn in *; try done; by destruct I6.
Qed.

Lemma copy_exec_inv ev s s' : Inv s -> exec ev s = Some s' -> Inv s'.
Proof.
  intros Hi E. destruct ev as [d buf er|d n ew|d]; cbn in E.
  - destruct (pc d s) eqn:Ep; try done. destruct (may_read _); [|done]. injection E as <-.
    destruct (inv_rest s Hi d) as (rest & Hr & Hh). rewrite Ep in Hh. cbn in Hh. subst rest.
    assert (Hp' : ~ sent (match buf with [] => next er | _ => CWrite buf er end))
      by (destruct buf; [apply next_not_sent|intros []]).
    apply (moved_inv d s); [done|rewrite Ep; intros []|by destruct d..|intros []; by destruct d| |].
    + by destruct d.
    + exists buf. rewrite app_nil_r in Hr. split; [destruct d; cbn in *; by rewrite Hr|].
      destruct buf; [|by destruct d]. destruct d; cbn; apply next_held.
  - destruct (pc d s) as [|buf er| | | |] eqn:Ep; try done. destruct (may_write _ _); [|done].
    injection E as <-. destruct (inv_rest s Hi d) as (rest & Hr & Hh). rewrite Ep in Hh. cbn in Hh. subst rest.
    assert (Hr' : exists rest, read (src d s) = (written (dst d s) ++ ztake n buf) ++ rest
      /\ held (match ew with Some e => CSend (Some e)
               | None => if n =? zlen buf then next er else CSend (Some ErrShortWrite) end) rest).
    { exists (zdrop n buf). rewrite <- app_assoc, ztake_zdrop. split; [done|].
      destruct ew; [done|]. destruct (n =? zlen buf) eqn:En; [|done]. b2p.
      rewrite zdrop_ge by lia. apply next_held. }
    assert (Hp' : ~ sent (match ew with Some e => CSend (Some e)
               | None => if n =? zlen buf then next er else CSend (Some ErrShortWrite) end))
      by (destruct ew; [intros []|]; destruct (_ =? _); [apply next_not_sent|intros []]).
    apply (moved_inv d s); [done|rewrite Ep; intros []|by destruct d..|intros []; by destruct d|by destruct d|by destruct d].
  - destruct (pc d s) as [| |e| | |] eqn:Ep; try done.
    + destruct (_ <? _); [|done]. injection E as <-. by apply reported_inv.
    + injection E as <-. by apply (closing_inv d s).
    + injection E as <-. by apply (closed_inv d s).
Qed.

Lemma copy_reach_inv s : rtc step init s -> Inv s.
Proof. intros Hr. eapply Cells.does_invariant; [intros ev s1 s2; apply copy_exec_inv|apply copy_Inv_init|done]. Qed.

Lemma returned_inv s r : Inv s -> returned s = Some r ->
  closed (a s) = true /\ closed (b s) = true /\ exists d l, errChan s = (d, r) :: l.
Proof.
  unfold returned. intros Hi. destruct (up s) eqn:Eu; try done. destruct (down s) eqn:Ed; try done.
  intros [= <-]. destruct (inv_done s Hi AtoB Eu) as [-> ->].
  destruct (inv_sent s Hi AtoB) as (e & He); [by cbn; rewrite Eu|].
  destruct (errChan s) as [|[d e'] l]; [by apply not_elem_of_nil in He|eauto].
Qed.

(** C27: the relay, for every interleaving of its two goroutines and whatever the
    connections answer: in both directions what was written is a prefix of what was
    read, short of at most what the copier holds; a goroutine that reports no error
    wrote all that it read; and when [copyLoop] returns, both connections are
    closed, and it returns the error of the goroutine that reported first, so that
    without an error everything of that direction was relayed. *)
Theorem copy_relays (s : st) (Hr : rtc step init s) :
  (forall d, exists rest, read (src d s) = written (dst d s) ++ rest /\ held (pc d s) rest)
  /\ (forall d, (d, None) ∈ errChan s -> complete d s)
  /\ (forall r, returned s = Some r ->
        closed (a s) = true /\ closed (b s) = true
        /\ exists d l, errChan s = (d, r) :: l /\ (r = None -> complete d s)).
Proof.
  apply copy_reach_inv in Hr as Hi. split_and!.
  - apply (inv_rest s Hi).
  - intros d H. by apply (inv_errs s Hi) in H as [_ H]; apply H.
  - intros r H. destruct (returned_inv s r Hi H) as (-> & -> & d & l & E). split_and!; [done..|].
    exists d, l. split; [done|]. intros ->. apply (inv_errs s Hi d None); [|done]. rewrite E. left.
Qed.

(** ** The end *)

(** What is left to do when both connections are closed. *)
Definition todo (k : copier) : nat :=
  match k with
  | CWrite _ None => 6 | CRead => 5 | CWrite _ (Some _) => 4
  | CSend _ => 3 | CCloseSrc => 2 | CCloseDst => 1 | CDone => 0
  end.
Definition both_closed (s : st) : Prop := closed (a s) = true /\ closed (b s) = true.

(** The reads that were answered without an error. *)
Definition answers (ev : event) : nat := match ev with Read _ _ None => 1 | _ => 0 end.
Definition answered (evs : list event) : nat := sum_list (map answers evs).

Lemma next_todo er : (todo (next er) <= if er is Some _ then 3 else 5)%nat.
Proof. destruct er as [[]|]; cbn; lia. Qed.

Lemma closed_decreases ev s s' : both_closed s -> exec ev s = Some s' ->
  both_closed s'
  /\ (todo (up s') + todo (down s') < todo (up s) + todo (down s) + 2 * answers ev)%nat.
Proof.
  intros [Ha Hb] E. unfold both_closed. destruct ev as [d buf er|d n ew|d]; cbn [exec] in E.
  - destruct (pc d s) eqn:Ep; try done. destruct (may_read _); [|done]. injection E as <-.
    assert (Ht : (todo (match buf with [] => next er | _ => CWrite buf er end)
                  < todo CRead + 2 * answers (Read d buf er))%nat).
    { pose proof (next_todo er). destruct buf, er; cbn in *; lia. }
    revert Ht. generalize (match buf with [] => next er | _ => CWrite buf er end). intros k Ht.
    destruct d; cbn in *; rewrite Ep; cbn [todo]; (split; [by split|lia]).
  - destruct (pc d s) as [|buf er| | | |] eqn:Ep; try done.
    destruct (may_write _ _); [|done]. injection E as <-.
    assert (Ht : (todo (match ew with Some e => CSend (Some e)
       | None => if (n =? zlen buf)%Z then next er else CSend (Some ErrShortWrite) end)
                  < todo (CWrite buf er))%nat).
    { pose proof (next_todo er). destruct ew; [|destruct (_ =? _)]; destruct er; cbn in *; lia. }
    revert Ht. generalize (match ew with Some e => CSend (Some e)
       | None => if (n =? zlen buf)%Z then next er else CSend (Some ErrShortWrite) end). intros k Ht.
    destruct d; cbn [pc up down todo answers] in *; rewrite Ep; cbn in *; (split; [by split|lia]).
  - destruct (pc d s) eqn:Ep; try done; [destruct (_ <? _); [|done]| |]; injection E as <-;
      destruct d; cbn in *; rewrite Ep; cbn [todo]; (split; [by split|lia]).
Qed.

Lemma closed_bounded evs : forall s s', both_closed s -> Cells.runs exec evs s = Some s' ->
  both_closed s'
  /\ (length evs + todo (up s') + todo (down s') <= todo (up s) + todo (down s) + 2 * answered evs)%nat.
Proof.
  unfold answered. induction evs as [|ev evs IH]; cbn; intros s s' Hc; [intros [= <-]; split; [done|lia]|].
  destruct (exec ev s) as [s1|] eqn:E; [|done]. cbn. intros Hr.
  destruct (closed_decreases _ _ _ Hc E) as [Hc1 Hl]. destruct (IH _ _ Hc1 Hr) as [Hc' Hl']. split; [done|lia].
Qed.

(** There is always room for an error that was not reported. *)
Lemma report_room s d : Inv s -> ~ sent (pc d s) -> zlen (errChan s) < err_cap.
Proof.
  intros Hi Hp. pose proof (copying_unsent s d Hi Hp) as Hun. pose proof (inv_one s Hi) as Hn.
  destruct (errChan s) as [|[d1 e1] [|[d2 e2] l]]; [done..|]. exfalso. cbn in Hun, Hn.
  apply NoDup_cons in Hn as [Hn _].
  assert (d1 <> d) by (intros ->; apply Hun; left).
  assert (d2 <> d) by (intros ->; apply Hun; right; left).
  apply Hn. replace d1 with d2 by (destruct d, d1, d2; done). left.
Qed.

(** A copier that has ended can go on by itself. *)
Lemma step_enabled s d : Inv s -> ~ copying (pc d s) -> pc d s <> CDone -> exists s',
  exec (Step d) s = Some s' /\ ~ copying (pc d s') /\ todo (pc d s') = (todo (pc d s) - 1)%nat.
Proof.
  intros Hi Hc Hn. cbn. destruct (pc d s) eqn:Ep; try (by destruct (Hc I)); [|eexists; (split; [done|])..|done].
  - rewrite ltb_true by (by apply (report_room s d); [|rewrite Ep; intros []]).
    eexists. split; [done|]. destruct d; cbn; rewrite ?Ep; split; [intros []|done|intros []|done].
  - destruct d; cbn; rewrite ?Ep; split; [intros []|done|intros []|done].
  - destruct d; cbn; rewrite ?Ep; split; [intros []|done|intros []|done].
Qed.

Lemma closes n : forall s d, Inv s -> ~ copying (pc d s) -> todo (pc d s) = n ->
  exists s', Cells.runs exec (replicate n (Step d)) s = Some s' /\ Inv s' /\ pc d s' = CDone.
Proof.
  induction n as [|n IH]; intros s d Hi Hc Hn.
  - exists s. split; [done|]. split; [done|]. destruct (pc d s) as [|? []| | | |]; try done.
  - destruct (step_enabled s d Hi Hc) as (s1 & E & Hc1 & Ht); [by intros Ep; rewrite Ep in Hn|].
    destruct (IH s1 d) as (s' & Hr & Hi' & Hp); [by eapply copy_exec_inv|done|lia|].
    exists s'. split; [|done]. cbn [replicate Cells.runs]. by rewrite E.
Qed.

(** What the copiers need to go on: their own next statement, or the answer of the
    [Read] or [Write] they are in; here the calls fail. *)
Definition fails (d : dir) (k : copier) : event :=
  match k with
  | CRead => Read d [] (Some (ReadError ErrClosed))
  | CWrite _ _ => Write d 0 (Some ErrClosed)
  | _ => Step d
  end.

Lemma fails_enabled s d : Inv s -> pc d s <> CDone ->
  exists s', exec (fails d (pc d s)) s = Some s' /\ answers (fails d (pc d s)) = 0%nat.
Proof.
  intros Hi Hd. destruct (pc d s) as [|buf er| | | |] eqn:Ep;
    try (destruct (step_enabled s d Hi) as (s' & E & _); [rewrite Ep; by intros []|by rewrite Ep|by eauto]).
  - eexists. cbn. by rewrite Ep.
  - eexists. cbn. rewrite Ep. unfold may_write. by rewrite leb_true by zlia.
Qed.

Lemma not_returned s : returned s = None -> exists d, pc d s <> CDone.
Proof.
  unfold returned. intros Hn. destruct (up s) eqn:Eu; try (exists AtoB; cbn; by rewrite Eu).
  destruct (down s) eqn:Ed; try (exists BtoA; cbn; by rewrite Ed).
Qed.

Lemma failing_run n : forall s, Inv s -> both_closed s -> (todo (up s) + todo (down s) <= n)%nat ->
  exists evs s', Cells.runs exec evs s = Some s' /\ answered evs = 0%nat /\ (length evs <= n)%nat
    /\ returned s' <> None.
Proof.
  induction n as [|n IH]; intros s Hi Hc Hn;
    (destruct (returned s) as [r|] eqn:Er; [exists [], s; split_and!; cbn; [done|done|lia|by rewrite Er]|]);
    apply not_returned in Er as [d Hd]; destruct (fails_enabled s d Hi Hd) as (s1 & E & Ha);
    destruct (closed_decreases _ _ _ Hc E) as [Hc1 Hl]; [lia|].
  destruct (IH s1) as (evs & s' & Hr & Hz & Hle & Hret); [by eapply copy_exec_inv|done|lia|].
  exists (fails d (pc d s) :: evs), s'. split_and!; [cbn; by rewrite E| |cbn; lia|done].
  unfold answered in *. cbn [map sum_list]. by rewrite Ha, Hz.
Qed.

(** C28: the end of the relay. A goroutine whose copy has ended closes both connections
    by itself, in at most three statements, whatever the other one does. From then
    on only the connections can hold the relay up: as long as [copyLoop] has not
    returned, a goroutine can take its next statement or is inside [Read] or
    [Write] of a closed connection; every schedule has at most nine more steps, and
    two more for each read that a closed connection still answers without an error;
    and if these calls fail, as [Close] is meant to make them, [copyLoop] has
    returned after at most nine steps and what such answers still cost. (A
    [meekConn] does not make them fail at once: what its worker queued is still
    handed out, and a read waits for the worker's round trip.) *)
Theorem copy_loop_ends (s : st) (d : dir) (Hr : rtc step init s) (He : ~ copying (pc d s)) :
  (exists n s', (n <= 3)%nat /\ Cells.runs exec (replicate n (Step d)) s = Some s' /\ both_closed s')
  /\ (both_closed s -> forall evs s', Cells.runs exec evs s = Some s' ->
        (length evs <= 9 + 2 * answered evs)%nat
        /\ (returned s' = None -> exists d', copying (pc d' s') \/ exists s'', exec (Step d') s' = Some s'')
        /\ exists evs' s'', Cells.runs exec evs' s' = Some s'' /\ answered evs' = 0%nat
             /\ (length evs + length evs' <= 9 + 2 * answered evs)%nat /\ returned s'' <> None).
Proof.
  apply copy_reach_inv in Hr as Hi.
  assert (H3 : (todo (pc d s) <= 3)%nat) by (destruct (pc d s); cbn in *; try lia; by destruct He).
  split.
  - destruct (closes (todo (pc d s)) s d Hi He eq_refl) as (s' & E & Hi' & Hp).
    exists (todo (pc d s)), s'. split; [done|]. split; [done|]. by apply (inv_done s' Hi' d).
  - intros Hc evs s' E. destruct (closed_bounded _ _ _ Hc E) as [Hc' Hl].
    assert (Hi' : Inv s') by (apply copy_reach_inv; etrans; [done|by eapply Cells.runs_rtc]).
    assert (Ht : (todo (up s) + todo (down s) <= 9)%nat).
    { assert (forall k, (todo k <= 6)%nat) as H6 by (intros [|? []| | | |]; cbn; lia).
      pose proof (H6 (up s)). pose proof (H6 (down s)). destruct d; cbn in H3; lia. }
    split_and!; [lia| |].
    + intros [d' Hd]%not_returned. exists d'. destruct (pc d' s') eqn:Ep; try (by left).
      all: right; destruct (step_enabled s' d' Hi') as (s'' & E' & _); [rewrite Ep; by intros []|by rewrite Ep|eauto].
    + destruct (failing_run _ s' Hi' Hc' (Nat.le_refl _)) as (evs' & s'' & Hr' & Ha & Hle & Hret).
      exists evs', s''. split_and!; [done|done|lia|done].
Qed.

(** A run: two bytes up, end of file there, and the other copier is cut off. *)
Definition toy_run : list event :=
  [Read AtoB (str "hi") None; Write AtoB 2 None; Read BtoA (str "yo") None; Read AtoB [] (Some EOF);
   Step AtoB; Step AtoB; Step AtoB].
Definition toy_rest : list event :=
  [Write BtoA 0 (Some ErrClosed); Step BtoA; Step BtoA; Step BtoA].
Definition toy_closed : st := Eval vm_compute in default init (Cells.runs exec toy_run init).
Definition toy_end : st := Eval vm_compute in default init (Cells.runs exec (toy_run ++ toy_rest) init).

Lemma toy_closed_reached : rtc step init toy_closed.
Proof. apply (Cells.runs_rtc exec toy_run). vm_compute. reflexivity. Qed.
Lemma toy_end_reached : rtc step init toy_end.
Proof. apply (Cells.runs_rtc exec (toy_run ++ toy_rest)). vm_compute. reflexivity. Qed.

Lemma copy_relays_witness : returned toy_end = Some None
  /\ exists d l, errChan toy_end = (d, None) :: l /\ complete d toy_end.
Proof.
  split; [reflexivity|].
  destruct (copy_relays toy_end toy_end_reached) as (_ & _ & H).
  destruct (H None eq_refl) as (_ & _ & d & l & E & Hc). exists d, l. split; [exact E|exact (Hc eq_refl)].
Defined.

Lemma copy_loop_ends_witness :
  (exists d', copying (pc d' toy_closed) \/ exists s'', exec (Step d') toy_closed = Some s'')
  /\ exists evs' s'', Cells.runs exec evs' toy_closed = Some s'' /\ answered evs' = 0%nat
      /\ (length evs' <= 9)%nat /\ returned s'' <> None.
Proof.
  destruct (copy_loop_ends toy_closed AtoB toy_closed_reached) as [_ H].
  - vm_compute. intros [].
  - destruct (H ltac:(by split) [] toy_closed eq_refl) as (_ & H1 & evs' & s'' & H2 & H3 & H4 & H5).
    split; [exact (H1 eq_refl)|]. exists evs', s''. split_and!; [exact H2|exact H3|exact H4|exact H5].
Defined.
End CopyLoop.
