(* ===== verification/ObfsProxy.v ===== *)
(** * The proxy: [obfs4proxy/obfs4proxy.go] and the registry of transports

    [main] configures the process, sets up one listener for each transport that
    tor asked for, and runs a handler for each connection.  What goptlib, the
    operating system and the transports answer are arguments; the SOCKS
    conversation is that of [Socks5.v], the relay that of [CopyLoop.v] and the
    end of the process that of [TermMon.v]. *)
From S2P Require Import Prelude GoStd GoText GoAddr GoURL Rand Packet GoNet Args Socks5 CopyLoop Log TermMon PtExtras.


(** ** [transports/transports.go] *)
Module Transports.
Inductive Transport :=
| Meeklite | Obfs2 | Obfs3 | Obfs4 | Scramblesuit | Wfgan | Tamaraw | Front | Randomwt
| Regulator | Null | Defconn.
#[export] Instance transport_eq_dec : EqDecision Transport.
Proof. solve_decision. Defined.

Definition Name (t : Transport) : bytes :=
  match t with
  | Meeklite => str "meek_lite" | Obfs2 => str "obfs2" | Obfs3 => str "obfs3" | Obfs4 => str "obfs4"
  | Scramblesuit => str "scramblesuit" | Wfgan => str "wfgan" | Tamaraw => str "tamaraw"
  | Front => str "front" | Randomwt => str "randomwt" | Regulator => str "regulator"
  | Null => str "null" | Defconn => str "defconn"
  end.

Abbreviation transportMap := (gmap bytes Transport).

Definition Register (t : Transport) (m : transportMap) : result bytes unit * transportMap :=
  match m !! Name t with
  | Some _ => (Err (str "transport '" ++ Name t ++ str "' already registered"), m)
  | None => (Ok tt, <[Name t := t]> m)
  end.
Definition Get (name : bytes) (m : transportMap) : option Transport := m !! name.
(** [Transports]: the order of Go's maps is not determined. *)
Definition is_Transports (l : list bytes) (m : transportMap) : Prop := l ≡ₚ (map_to_list m).*1.

Definition integrated : list Transport :=
  [Meeklite; Obfs2; Obfs3; Obfs4; Scramblesuit; Wfgan; Tamaraw; Front; Randomwt; Regulator; Null; Defconn].
Fixpoint register_all (ts : list Transport) (m : transportMap) : result bytes unit * transportMap :=
  match ts with
  | [] => (Ok tt, m)
  | t :: ts => match Register t m with
               | (Ok _, m) => register_all ts m
               | r => r
               end
  end.
Definition Init (m : transportMap) : result bytes unit * transportMap := register_all integrated m.

#[export] Instance Name_inj : Inj (=) (=) Name.
Proof. intros [] []; cbn; intros H; by (reflexivity || (apply (f_equal (fun l => bool_decide (l = [])) ) in H; done) || discriminate H). Qed.

(** The registry maps names to the transports that have them. *)
Definition named (m : transportMap) : Prop := map_Forall (fun n t => Name t = n) m.

Lemma Register_spec t m : named m ->
  named (Register t m).2
  /\ ((Register t m).1 = Ok tt <-> m !! Name t = None)
  /\ Get (Name t) (Register t m).2 = Some t
  /\ forall n, n <> Name t -> Get n (Register t m).2 = Get n m.
Proof.
  intros Hm. unfold Register, Get. destruct (m !! Name t) as [t'|] eqn:E; cbn.
  - apply Hm in E as Et. apply (inj Name) in Et as ->. by split_and!.
  - split_and!; [by apply map_Forall_insert_2|done|by rewrite lookup_insert_eq|].
    intros n Hn. by rewrite lookup_insert_ne.
Qed.

(** Every transport is registered, under its own name, whatever was registered
    before; and it fails if any of them was. *)
Lemma register_all_ok ts : forall m, named m -> NoDup ts -> (forall t, t ∈ ts -> m !! Name t = None) ->
  exists m', register_all ts m = (Ok tt, m') /\ named m' /\ (forall t, t ∈ ts -> Get (Name t) m' = Some t)
  /\ (forall n, (forall t, t ∈ ts -> n <> Name t) -> Get n m' = Get n m).
Proof.
  induction ts as [|t ts IH]; intros m Hm Hd Hf; cbn.
  { exists m. split_and!; [done..|by intros t ?%not_elem_of_nil|done]. }
  inversion Hd as [|? ? Ht Hd1]; subst; clear Hd; rename Hd1 into Hd.
  destruct (Register_spec t m Hm) as (Hn & Hok & Hg & Ho).
  destruct (Register t m) as [r m1]. cbn in *.
  rewrite (proj2 Hok) by (apply Hf; left).
  assert (Hne : forall t', t' ∈ ts -> Name t' <> Name t) by (intros t' H' E; apply (inj Name) in E as ->; done).
  destruct (IH m1 Hn Hd) as (m' & E & Hn' & Hg' & Ho').
  { intros t' H'. change (Get (Name t') m1 = None). rewrite Ho by auto. apply Hf. by right. }
  exists m'. split_and!; [done..| |].
  - intros t' [->|H']%elem_of_cons; [|by apply Hg'].
    rewrite Ho'; [done|]. intros t'' H'' E'. apply (Hne t'' H''). congruence.
  - intros n H. rewrite Ho' by (intros t' H'; apply H; by right). apply Ho, H. left.
Qed.

Lemma Init_ok : exists m, Init ∅ = (Ok tt, m) /\ forall t, Get (Name t) m = Some t.
Proof.
  destruct (register_all_ok integrated ∅) as (m & E & _ & H & _).
  - apply map_Forall_empty.
  - apply (bool_decide_eq_true_1 (NoDup integrated)). by vm_compute.
  - intros t _. apply lookup_empty.
  - exists m. split; [done|]. intros t. apply H.
    apply (bool_decide_eq_true_1 (t ∈ integrated)). by destruct t; vm_compute.
Qed.
End Transports.

(** ** [obfs4proxy.go] *)
Module ObfsProxy.
Definition socksAddr : bytes := str "127.0.0.1:0".
Definition obfs4proxyVersion : bytes := str "0.0.12-dev".
Definition getVersion : bytes := str "obfs4proxy-" ++ obfs4proxyVersion.

(** *** Set-up *)

(** What goptlib is told, in this order. *)
Inductive answer (Addr A : Type) :=
| CmethodError (name msg : bytes)
| Cmethod (name : bytes) (addr : Addr)              (* over SOCKS 5 *)
| CmethodsDone
| SmethodError (name msg : bytes)
| SmethodArgs (name : bytes) (addr : Addr) (args : option A)
| SmethodsDone.
#[global] Arguments CmethodError {Addr A} _ _. #[global] Arguments Cmethod {Addr A} _ _.
#[global] Arguments CmethodsDone {Addr A}. #[global] Arguments SmethodError {Addr A} _ _.
#[global] Arguments SmethodArgs {Addr A} _ _ _. #[global] Arguments SmethodsDone {Addr A}.

Section setup.
Context {Addr A CF SF : Type} (m : Transports.transportMap).

(** The client: what [ClientFactory] and [net.Listen] answer for the transports in
    turn, [i] being the position of the request. *)
Section client.
Context (clientFactory : nat -> Transports.Transport -> bytes + CF) (listen : nat -> bytes -> bytes + Addr).

Definition client_method (i : nat) (name : bytes) : answer Addr A * option (CF * Addr) :=
  match Transports.Get name m with
  | None => (CmethodError name (str "no such transport is supported"), None)
  | Some t =>
      match clientFactory i t with
      | inr f =>
          match listen i socksAddr with
          | inr ln => (Cmethod name ln, Some (f, ln))
          | inl msg => (CmethodError name msg, None)
          end
      | inl _ => (CmethodError name (str "failed to get ClientFactory"), None)
      end
  end.

Fixpoint client_loop (i : nat) (names : list bytes) (out : list (answer Addr A)) (lns : list (CF * Addr))
    : list (answer Addr A) * list (CF * Addr) :=
  match names with
  | [] => (out ++ [CmethodsDone], lns)
  | name :: names =>
      let '(a, ln) := client_method i name in
      client_loop (S i) names (out ++ [a]) (match ln with Some ln => lns ++ [ln] | None => lns end)
  end.
(** [clientSetup] from the list of methods on: the answers, [launched], and the
    listeners. *)
Definition clientSetup (names : list bytes) : list (answer Addr A) * bool * list (CF * Addr) :=
  let '(out, lns) := client_loop 0 names [] [] in (out, match lns with [] => false | _ => true end, lns).
End client.

(** The server: [bindaddrs] are pairs of a method and an address, with the options. *)
Section server.
Context (serverFactory : nat -> Transports.Transport -> A -> bytes + SF) (listenTCP : nat -> Addr -> bytes + Addr)
  (Args_of : SF -> option A).

Definition server_method (i : nat) (b : bytes * Addr * A) : answer Addr A * option (SF * Addr) :=
  let '(name, addr, options) := b in
  match Transports.Get name m with
  | None => (SmethodError name (str "no such transport is supported"), None)
  | Some t =>
      match serverFactory i t options with
      | inr f =>
          match listenTCP i addr with
          | inr ln => (SmethodArgs name ln (Args_of f), Some (f, ln))
          | inl msg => (SmethodError name msg, None)
          end
      | inl msg => (SmethodError name msg, None)
      end
  end.

Fixpoint server_loop (i : nat) (bs : list (bytes * Addr * A)) (out : list (answer Addr A)) (lns : list (SF * Addr))
    : list (answer Addr A) * list (SF * Addr) :=
  match bs with
  | [] => (out ++ [SmethodsDone], lns)
  | b :: bs =>
      let '(a, ln) := server_method i b in
      server_loop (S i) bs (out ++ [a]) (match ln with Some ln => lns ++ [ln] | None => lns end)
  end.
Definition serverSetup (bs : list (bytes * Addr * A)) : list (answer Addr A) * bool * list (SF * Addr) :=
  let '(out, lns) := server_loop 0 bs [] [] in (out, match lns with [] => false | _ => true end, lns).
End server.
End setup.

(** *** Handlers *)

(** What a handler does besides the SOCKS conversation, in this order.  A panic that
    nobody recovers runs the deferred calls and ends the process. *)
Inductive action (R : Type) :=
| HandlerStart | DialRemote (target : bytes) | Relay (remote : R) | CloseRemote (remote : R)
| CloseOr | HandlerFinish | CloseConn | Die (why : String.string).
#[global] Arguments HandlerStart {R}. #[global] Arguments DialRemote {R} _. #[global] Arguments Relay {R} _.
#[global] Arguments CloseRemote {R} _. #[global] Arguments CloseOr {R}. #[global] Arguments HandlerFinish {R}.
#[global] Arguments CloseConn {R}. #[global] Arguments Die {R} _.

(** A handler: [onHandlerStart], what it does, the deferred calls, and the end of
    the process if it panicked. *)
Definition handled {R} (acts : list (action R)) (died : option String.string) : list (action R) :=
  HandlerStart :: acts ++ [HandlerFinish; CloseConn] ++ match died with Some w => [Die w] | None => [] end.

Section client_handler.
Context `{PtArgs} {A D R E : Type} (netWrite : list bytes -> bytes -> option Packet.net_error).
(** [f.ParseArgs]; the dialer of the proxy, [None] when [proxy.FromURL] fails; and
    [f.Dial].  Those of the transports can panic. *)
Context (ParseArgs : option Args -> result E A) (dialer : option D)
  (Dial : D -> bytes -> A -> result Socks5.go_error R).

(** [_ = socksReq.Reply (code); return]. *)
Definition reply_only (code : Socks5.ReplyCode) (r : Socks5.Request) : Socks5.Request :=
  (Socks5.Reply netWrite code r).2.

(** [clientHandler] after [onHandlerStart]: the conversation it leaves, what it
    does, its own deferred [remote.Close] included, and whether it panicked. *)
Definition serve (deadline : option Packet.net_error) (r : Socks5.Request)
  : Socks5.Request * list (action R) * option String.string :=
  match Socks5.Handshake netWrite deadline r with
  | (Ok _, r) =>
      match ParseArgs (Socks5.RArgs r), dialer with
      | Panic w, _ => (r, [], Some w)
      | Ok args, Some d =>
          let target := Socks5.Target r in
          match Dial d target args with
          | Ok remote =>
              match Socks5.Reply netWrite Socks5.ReplySucceeded r with
              | (Ok _, r) => (r, [DialRemote target; Relay remote; CloseRemote remote], None)
              | (Err _, r) => (r, [DialRemote target; CloseRemote remote], None)
              | (Panic w, r) => (r, [DialRemote target; CloseRemote remote], Some w)
              end
          | Err e => (reply_only (Socks5.ErrorToReplyCode e) r, [DialRemote target], None)
          | Panic w => (r, [DialRemote target], Some w)
          end
      | _, _ => (reply_only Socks5.ReplyGeneralFailure r, [], None)
      end
  | (Err _, r) => (r, [], None)
  | (Panic w, r) => (r, [], Some w)
  end.
Definition clientHandler (deadline : option Packet.net_error) (r : Socks5.Request) : Socks5.Request * list (action R) :=
  let '(r, acts, died) := serve deadline r in (r, handled acts died).
End client_handler.

Section server_handler.
Context {R : Type}.
(** [serverHandler]; [WrapConn] and [pt.DialOr] are given by what they answer.  The
    connection of the transport is not closed by itself: the one it wraps is. *)
Definition serverHandler {E E'} (WrapConn : result E R) (DialOr : result E' unit) : list (action R) :=
  match WrapConn, DialOr with
  | Ok remote, Ok _ => handled [Relay remote; CloseOr] None
  | Panic w, _ | Ok _, Panic w => handled [] (Some w)
  | _, _ => handled [] None
  end.
End server_handler.

(** *** The accept loops and [main] *)

(** What [Accept] answers: the loop ends at an error that is a [net.Error] and not
    temporary. *)
Inductive accepted (C : Type) := Conn (c : C) | NetworkError (temporary : bool) | OtherError.
#[global] Arguments Conn {C} _. #[global] Arguments NetworkError {C} _. #[global] Arguments OtherError {C}.

(** The connections for which a handler is started; whether the loop has returned, so
    that the listener is closed. *)
Fixpoint acceptLoop {C} (answers : list (accepted C)) : list C * bool :=
  match answers with
  | [] => ([], false)
  | Conn c :: answers => let '(cs, e) := acceptLoop answers in (c :: cs, e)
  | NetworkError false :: _ => ([], true)
  | _ :: answers => acceptLoop answers
  end.

(** How [main] ends: with a status of [os.Exit] or [log.Fatal], or by its return at
    the end of the process. *)
Inductive ending := Status (code : Z) | Returned (e : TermMon.exit).

Section main.
Context (showVer : bool) (logLevelStr : bytes) (enableLogging unsafeLogging : bool)
  (clientEnv serverEnv : bytes) (stateDir : option bytes) (logFile : option unit)
  (setup : bool -> Transports.transportMap -> bool) (inbox : list TermMon.message).

(** [None]: it runs.  [setup isClient] says whether a method was launched. *)
Definition main : option ending :=
  if showVer then Some (Status 0) else
  match Log.SetLogLevel logLevelStr Log.defaults with
  | (Ok _, cfg) =>
      match (PtExtras.ptIsClient clientEnv serverEnv).1 with
      | Ok isClient =>
          match stateDir with
          | None => Some (Status 1)
          | Some _ =>
              match Log.Init enableLogging unsafeLogging logFile cfg with
              | (Ok _, _) =>
                  match Transports.Init ∅ with
                  | (Ok _, m) =>
                      if setup isClient m then Returned <$> TermMon.main_wait inbox
                      else Some (Status 255)
                  | _ => Some (Status 255)
                  end
              | _ => Some (Status 1)
              end
          end
      | _ => Some (Status 1)
      end
  | _ => Some (Status 1)
  end.

(** A process that is told what to be, with a state directory, a valid level and a
    log file, runs until the monitor ends it if a method was launched. *)
Lemma main_runs isClient cfg : showVer = false -> Log.SetLogLevel logLevelStr Log.defaults = (Ok tt, cfg) ->
  PtExtras.ptIsClient clientEnv serverEnv = (Ok isClient, []) -> stateDir <> None ->
  enableLogging = false \/ logFile = None ->
  exists m, (forall t, Transports.Get (Transports.Name t) m = Some t)
    /\ main = (if setup isClient m then Returned <$> TermMon.main_wait inbox else Some (Status 255)).
Proof.
  intros Hv Hl Hc Hs Hf. destruct Transports.Init_ok as (m & Em & Hg). exists m. split; [done|].
  unfold main. rewrite Hv, Hl, Hc. cbn [fst]. destruct stateDir; [|done].
  assert (Log.Init enableLogging unsafeLogging logFile cfg
          = (Ok tt, Log.mkConfig (Log.logLevel cfg) enableLogging unsafeLogging)) as ->
    by (unfold Log.Init; destruct Hf as [-> | ->]; [done|by destruct enableLogging]).
  by rewrite Em.
Qed.
End main.

(** *** Every request for a transport is answered *)

(** The methods one after the other. *)
Fixpoint launch {X Y L} (f : nat -> X -> Y * option L) (i : nat) (xs : list X) : list (Y * option L) :=
  match xs with [] => [] | x :: xs => f i x :: launch f (S i) xs end.

Section setup_proofs.
Context {Addr A CF SF : Type} (m : Transports.transportMap).

Lemma client_loop_spec clientFactory listen names : forall i out lns,
  client_loop (Addr := Addr) (A := A) (CF := CF) m clientFactory listen i names out lns
  = (out ++ map fst (launch (client_method m clientFactory listen) i names) ++ [CmethodsDone],
     lns ++ omap snd (launch (client_method (A := A) m clientFactory listen) i names)).
Proof.
  induction names as [|n names IH]; intros i out lns; cbn; [by rewrite app_nil_r|].
  destruct (client_method m clientFactory listen i n) as [a [ln|]]; rewrite IH; cbn;
    by rewrite <- ?app_assoc.
Qed.
Lemma server_loop_spec serverFactory listenTCP Args_of bs : forall i out lns,
  server_loop (Addr := Addr) (A := A) (SF := SF) m serverFactory listenTCP Args_of i bs out lns
  = (out ++ map fst (launch (server_method m serverFactory listenTCP Args_of) i bs) ++ [SmethodsDone],
     lns ++ omap snd (launch (server_method m serverFactory listenTCP Args_of) i bs)).
Proof.
  induction bs as [|b bs IH]; intros i out lns; cbn; [by rewrite app_nil_r|].
  destruct (server_method m serverFactory listenTCP Args_of i b) as [a [ln|]]; rewrite IH; cbn;
    by rewrite <- ?app_assoc.
Qed.

(** One answer for each method that tor asked for, in order, then the end; and the
    process goes on exactly when a method was announced. *)
Lemma clientSetup_answers clientFactory listen names :
  let '(out, launched, lns) := clientSetup (Addr := Addr) (A := A) (CF := CF) m clientFactory listen names in
  (exists answers, out = answers ++ [CmethodsDone]
    /\ Forall2 (fun n a => (exists msg, a = CmethodError n msg) \/ exists ln f, a = Cmethod n ln /\ (f, ln) ∈ lns) names answers)
  /\ (launched = true <-> exists n ln, Cmethod n ln ∈ out).
Proof.
  unfold clientSetup. rewrite client_loop_spec. cbn [app].
  assert (Hm : forall i n, let '(a, ln) := client_method (Addr := Addr) (A := A) (CF := CF) m clientFactory listen i n in
    (ln = None /\ exists msg, a = CmethodError n msg) \/ exists f addr, ln = Some (f, addr) /\ a = Cmethod n addr).
  { intros i n. unfold client_method. destruct (Transports.Get n m) as [t|]; [|left; eauto].
    destruct (clientFactory i t) as [e|f]; [left; eauto|].
    destruct (listen i socksAddr) as [e|ln]; [left|right]; eauto. }
  generalize 0%nat. split.
  - eexists. split; [done|]. generalize n. clear n.
    induction names as [|x names IH]; intros i; cbn; [constructor|].
    specialize (Hm i x). destruct (client_method m clientFactory listen i x) as [a ln].
    constructor.
    + destruct Hm as [[-> (msg & ->)]|(f & addr & -> & ->)]; [left; eauto|right].
      exists addr, f. split; [done|]. left.
    + eapply List.Forall2_impl; [|apply IH]. cbn. intros x' a' [?|(l & f & -> & H)]; [by left|].
      right. exists l, f. split; [done|]. destruct ln; [by right|done].
  - generalize n. clear n.
    induction names as [|x names IH]; intros i; cbn.
    + split; [done|]. intros (y & ln & H%list_elem_of_singleton). done.
    + specialize (Hm i x). destruct (client_method m clientFactory listen i x) as [a ln]. cbn.
      destruct Hm as [[-> (msg & ->)]|(f & addr & -> & ->)]; cbn.
      * rewrite IH. split; intros (y & l & H); exists y, l; [by right|by apply elem_of_cons in H as [?|?]].
      * split; [|done]. intros _. exists x, addr. left.
Qed.
End setup_proofs.

(** *** A client's connection *)

Section client_proofs.
Context `{PtArgs} {A D R E : Type} (netWrite : list bytes -> bytes -> option Packet.net_error).
Context (ParseArgs : option Args -> result E A) (dialer : option D)
  (Dial : D -> bytes -> A -> result Socks5.go_error R).

(** What becomes of a request for [target] with the arguments [args]: the reply, if
    there is one; the connection to the bridge; the panic. *)
Definition fate (args : option Args) (target : bytes)
  : option Socks5.ReplyCode * list (action R) * option String.string :=
  match ParseArgs args, dialer with
  | Panic w, _ => (None, [], Some w)
  | Ok a, Some d =>
      match Dial d target a with
      | Ok remote => (Some Socks5.ReplySucceeded, [DialRemote target; Relay remote; CloseRemote remote], None)
      | Err e => (Some (Socks5.ErrorToReplyCode e), [DialRemote target], None)
      | Panic w => (None, [DialRemote target], Some w)
      end
  | _, _ => (Some Socks5.ReplyGeneralFailure, [], None)
  end.
Definition answered (o : option Socks5.ReplyCode) : list bytes :=
  match o with Some code => [Socks5.reply_bytes code] | None => [] end.

Lemma reply_failure e : Socks5.ErrorToReplyCode e <> Socks5.ReplySucceeded.
Proof. by destruct e as [[[]|]|]. Qed.

(** Whatever the network does with the replies: only a connection that was made is
    relayed, and only after the reply "succeeded" went out. *)
Lemma relay_after_reply refusing deadline r remote :
  Relay remote ∈ (clientHandler refusing ParseArgs dialer Dial deadline r).2 ->
  exists r1 d a, Socks5.Handshake refusing deadline r = (Ok tt, r1) /\ dialer = Some d
    /\ ParseArgs (Socks5.RArgs r1) = Ok a /\ Dial d (Socks5.Target r1) a = Ok remote
    /\ is_ok (Socks5.Reply refusing Socks5.ReplySucceeded r1).1 = true.
Proof.
  unfold clientHandler, serve, handled. intros Hin.
  destruct (Socks5.Handshake _ _ _) as [[[]|e|w] r1]; [|cbn in Hin; set_solver..].
  destruct (ParseArgs _) as [a|e|w] eqn:Ea; [|cbn in Hin; set_solver..].
  destruct dialer as [d|]; [|cbn in Hin; set_solver].
  destruct (Dial _ _ _) as [k|e|w] eqn:Ed; [|cbn in Hin; set_solver..].
  exists r1, d, a. destruct (Socks5.Reply _ _ _) as [[] ?]; cbn in Hin; [|set_solver..].
  assert (remote = k) as -> by set_solver. by split_and!.
Qed.

Hypothesis net_ok : forall s b, netWrite s b = None.

Lemma Reply_idle code t a e sn :
  Socks5.Reply netWrite code (Socks5.mkReq _ t a [] [] e [] None sn)
  = (Ok tt, Socks5.mkReq _ t a [] [] e [] None (sn ++ [Socks5.reply_bytes code])).
Proof.
  unfold Socks5.Reply. rewrite (Socks5.bind_ok _ _ _ _ _ (Socks5.write_ok _ _ _ _ _ _ _ _)).
  rewrite (Socks5.flushBuffers_turn netWrite net_ok t a [] [] [] e _ sn) by (by exists []).
  rewrite decide_False; [done|]. unfold Socks5.reply_bytes. by destruct code.
Qed.

Lemma clientHandler_idle r target a e sn :
  Socks5.Handshake netWrite None r = (Ok tt, Socks5.mkReq _ target a [] [] e [] None sn) ->
  let '(code, acts, died) := fate a target in
  clientHandler netWrite ParseArgs dialer Dial None r
  = (Socks5.mkReq _ target a [] [] e [] None (sn ++ answered code), handled acts died).
Proof.
  intros Hh. unfold fate, clientHandler, serve, reply_only. rewrite Hh. cbn [Socks5.RArgs Socks5.Target].
  destruct (ParseArgs a) as [y|x|w]; cbn [answered]; [|by rewrite Reply_idle|by rewrite app_nil_r].
  destruct dialer as [d|]; cbn [answered]; [|by rewrite Reply_idle].
  destruct (Dial d target y) as [remote|er|w]; cbn [answered]; [by rewrite Reply_idle..|by rewrite app_nil_r].
Qed.

Lemma fate_cases args target :
  ((fate args target).1.1 = Some Socks5.ReplySucceeded <->
   exists d a remote, dialer = Some d /\ ParseArgs args = Ok a /\ Dial d target a = Ok remote
     /\ (fate args target).1.2 = [DialRemote target; Relay remote; CloseRemote remote])
  /\ (forall w, (fate args target).1.1 = None /\ (fate args target).2 = Some w <->
       ParseArgs args = Panic w
       \/ exists d a, dialer = Some d /\ ParseArgs args = Ok a /\ Dial d target a = Panic w).
Proof.
  unfold fate. split; [|intros w]; split.
  - destruct (ParseArgs args) as [a| |]; [|done..]. destruct dialer as [d|]; [|done].
    destruct (Dial d target a) as [k|e|] eqn:Ed; cbn; [eauto 10| |done].
    intros [= Hx]. by destruct (reply_failure e).
  - by intros (d & a & k & -> & -> & -> & _).
  - destruct (ParseArgs args) as [a| |]; cbn; [|by intros []|intros [_ [= ->]]; by left].
    destruct dialer as [d|]; [|by intros []].
    destruct (Dial d target a) as [k|e|] eqn:Ed; cbn; [by intros []..|].
    intros [_ [= ->]]. right. by exists d, a.
  - by intros [->|(d & a & -> & -> & ->)].
Qed.

(** C26: a whole connection of a client, however the network segments it: it gets the
    negotiation, at most one answer to its request, and nothing else from the SOCKS
    side. The target it named is dialed if its arguments are those of the transport
    and the dialer of the upstream proxy is there, with exactly these; the answer is
    "succeeded" exactly when that connection was made, else it is the code for the
    error. There is no answer exactly when the transport's [ParseArgs] or [Dial]
    panics - [ParseArgs] of tamaraw, front, wfgan and regulator does on a bad
    certificate -, and then the whole process dies. A client that offers no usable
    method gets [05 ff], and nothing is dialed. All that is for a network that takes
    the replies; when it refuses some of them, bytes are still relayed only if the
    reply "succeeded" was written, and the connection to the bridge is closed in
    any case. Start and end of the handler are always counted, and its own
    connection always closed. *)
Theorem client_connection methods addr port gs cs e :
  zlen methods <= 255 -> concat gs = Socks5.greeting methods ->
  Socks5.address_ok addr -> 0 <= port < 65536 -> concat cs = Socks5.command addr port ->
  Forall (fun c => c <> []) gs -> Forall (fun c => c <> []) cs ->
  let target := Socks5.address_host addr ++ str ":" ++ Strconv.FormatInt port in
  let run rs := clientHandler netWrite ParseArgs dialer Dial None (Socks5.newRequest rs e) in
  (forall us uname passwd args,
     Socks5.authUsernamePassword ∈ methods ->
     1 <= zlen uname <= 255 -> 1 <= zlen passwd <= 255 ->
     ClientParameters.parseClientParameters (Socks5.arg_string uname passwd) = Ok args ->
     concat us = Socks5.auth_message uname passwd -> Forall (fun c => c <> []) us ->
     let '(code, acts, died) := fate (Some args) target in
     Socks5.sent (run (gs ++ us ++ cs)).1
       = [[Socks5.version; Socks5.authUsernamePassword]; [Socks5.authRFC1929Ver; Socks5.authRFC1929Success]]
         ++ answered code
     /\ (run (gs ++ us ++ cs)).2 = handled acts died)
  /\ (Socks5.authUsernamePassword ∉ methods -> Socks5.authNoneRequired ∈ methods ->
     let '(code, acts, died) := fate None target in
     Socks5.sent (run (gs ++ cs)).1 = [[Socks5.version; Socks5.authNoneRequired]] ++ answered code
     /\ (run (gs ++ cs)).2 = handled acts died)
  /\ (Socks5.authUsernamePassword ∉ methods -> Socks5.authNoneRequired ∉ methods ->
     forall later, Socks5.sent (run (gs ++ later)).1 = [[Socks5.version; Socks5.authNoAcceptableMethods]]
       /\ (run (gs ++ later)).2 = handled [] None)
  /\ (forall args,
       ((fate args target).1.1 = Some Socks5.ReplySucceeded <->
        exists d a remote, dialer = Some d /\ ParseArgs args = Ok a /\ Dial d target a = Ok remote
          /\ (fate args target).1.2 = [DialRemote target; Relay remote; CloseRemote remote])
       /\ (forall w, (fate args target).1.1 = None /\ (fate args target).2 = Some w <->
            ParseArgs args = Panic w
            \/ exists d a, dialer = Some d /\ ParseArgs args = Ok a /\ Dial d target a = Panic w))
  /\ (forall refusing deadline r remote,
       Relay remote ∈ (clientHandler refusing ParseArgs dialer Dial deadline r).2 ->
       exists r1 d a, Socks5.Handshake refusing deadline r = (Ok tt, r1) /\ dialer = Some d
         /\ ParseArgs (Socks5.RArgs r1) = Ok a /\ Dial d (Socks5.Target r1) a = Ok remote
         /\ is_ok (Socks5.Reply refusing Socks5.ReplySucceeded r1).1 = true)
  /\ (forall refusing deadline r r1 d a remote,
       Socks5.Handshake refusing deadline r = (Ok tt, r1) -> dialer = Some d ->
       ParseArgs (Socks5.RArgs r1) = Ok a -> Dial d (Socks5.Target r1) a = Ok remote ->
       is_ok (Socks5.Reply refusing Socks5.ReplySucceeded r1).1 = false ->
       exists died, (clientHandler refusing ParseArgs dialer Dial deadline r).2
         = handled [DialRemote (Socks5.Target r1); CloseRemote remote] died).
Proof.
  intros Hm Hg Ha Hp Hc Hgs Hcs target run.
  destruct (Socks5.handshake_conversation netWrite net_ok methods addr port gs cs e Hm Hg Ha Hp Hc Hgs Hcs)
    as (H1 & H2 & H3).
  split_and!.
  - intros us uname passwd args Hin Hu Hpw Hargs Hus Hune.
    pose proof (clientHandler_idle _ _ _ _ _ (H1 us uname passwd args Hin Hu Hpw Hargs Hus Hune)) as E1.
    fold target in E1. unfold run. destruct (fate (Some args) target) as [[code acts] died]. by rewrite E1.
  - intros Hn Hin. pose proof (clientHandler_idle _ _ _ _ _ (H2 Hn Hin)) as E1.
    fold target in E1. unfold run. destruct (fate None target) as [[code acts] died]. by rewrite E1.
  - intros Hn Hn' later. destruct (H3 Hn Hn' later) as [E1 E2]. unfold run, clientHandler, serve.
    destruct (Socks5.Handshake netWrite None (Socks5.newRequest (gs ++ later) e)) as [x r].
    cbn in E1, E2. subst x. cbn. by rewrite E2.
  - intros args. apply fate_cases.
  - intros refusing deadline r remote. apply relay_after_reply.
  - intros refusing deadline r r1 d a remote Hh Hd Hpa Hdial Hno. unfold clientHandler, serve.
    rewrite Hh, Hpa, Hd, Hdial. destruct (Socks5.Reply _ _ _) as [[|er|w] r2]; [done|by exists None|by exists (Some w)].
Qed.
End client_proofs.

Import ToyArgs.

(** A bridge that refuses the connection: the client is told so. *)
Definition refused (d : unit) (target : bytes) (args : bytes) : result Socks5.go_error unit :=
  Err (Socks5.OpError (Some Socks5.ECONNREFUSED)).
Definition w_conversation : list bytes :=
  [Socks5.greeting w_methods] ++ [Socks5.auth_message (str "cert=abc;") (str "iat-mode=1")]
  ++ [Socks5.command w_addr 8443].
(** [ParseArgs] returns, or it panics. *)
Definition w_parse (panics : bool) (args : option Args) : result unit bytes :=
  if panics then Panic "interface conversion: interface is nil" else Ok (str "cert").
Lemma client_connection_witness :
  let run panics := clientHandler w_net (w_parse panics) (Some tt) refused None
    (Socks5.newRequest w_conversation Packet.EOF) in
  let negotiation := [[Byte.x05; Byte.x02]; [Byte.x01; Byte.x00]] in
  (Socks5.sent (run false).1 = negotiation ++ [Socks5.reply_bytes Socks5.ReplyConnectionRefused]
   /\ (run false).2 = [HandlerStart; DialRemote (str "192.0.2.7:8443"); HandlerFinish; CloseConn])
  /\ (Socks5.sent (run true).1 = negotiation
      /\ (run true).2 = [HandlerStart; HandlerFinish; CloseConn; Die "interface conversion: interface is nil"]).
Proof.
  intros run negotiation. split.
  2: refine (proj1 (client_connection w_net (w_parse true) (Some tt) refused
    (fun _ _ => eq_refl) w_methods w_addr 8443 [Socks5.greeting w_methods] [Socks5.command w_addr 8443]
    Packet.EOF _ _ _ _ _ _ _)
    [Socks5.auth_message (str "cert=abc;") (str "iat-mode=1")] (str "cert=abc;") (str "iat-mode=1")
    [(str "cert", str "abc"); (str "iat-mode", str "1")] _ _ _ _ _ _).
  1: refine (proj1 (client_connection w_net (w_parse false) (Some tt) refused
    (fun _ _ => eq_refl) w_methods w_addr 8443 [Socks5.greeting w_methods] [Socks5.command w_addr 8443]
    Packet.EOF _ _ _ _ _ _ _)
    [Socks5.auth_message (str "cert=abc;") (str "iat-mode=1")] (str "cert=abc;") (str "iat-mode=1")
    [(str "cert", str "abc"); (str "iat-mode", str "1")] _ _ _ _ _ _).
  all: first [ done | intros; reflexivity | vm_compute; reflexivity
             | vm_compute; split; congruence | vm_compute; congruence
             | repeat constructor; discriminate | set_solver ].
Defined.
End ObfsProxy.
