(* ===== verification/GoCrypto.v ===== *)
(** * Symmetric cryptography of Go's standard library

    [crypto/aes] (FIPS 197) and the counter mode of [crypto/cipher], and
    [encoding/base32], for the older transports.  A block cipher is an interface:
    what the transports prove holds of any keyed function on blocks, AES being
    the one that they use. *)
From S2P Require Import Prelude GoStd Packet GoNet GoFloat GoText.

(** ** Block ciphers *)

(** [NewCipher] succeeds on the valid keys; a block is encrypted to a block. *)
Class BlockCipher := {
  valid_key : bytes -> bool;
  encrypt_block : bytes -> bytes -> bytes
}.

(** The key sizes that the code uses are valid. *)
Class BlockCipherLaws `{BlockCipher} := {
  valid_key_16 k : zlen k = 16 -> valid_key k = true;
  valid_key_32 k : zlen k = 32 -> valid_key k = true
}.

Module Aes.
Definition BlockSize : Z := 16.

Definition xtime (b : Z) : Z :=
  let c := 2 * b in if c <? 256 then c else Z.lxor (c - 256) 27.
Fixpoint gmul (fuel : nat) (a b : Z) : Z :=
  match fuel with
  | O => 0
  | S fuel => Z.lxor (if Z.odd b then a else 0) (gmul fuel (xtime a) (b / 2))
  end.
(** [b^254], the inverse of [b] in the field of 256 elements. *)
Fixpoint gpow (n : nat) (b : Z) : Z := match n with O => 1 | S n => gmul 8 b (gpow n b) end.
Definition rotl8 (k b : Z) : Z := (b * 2 ^ k + b / 2 ^ (8 - k)) mod 256.
Definition affine (b : Z) : Z :=
  Z.lxor 99 (Z.lxor b (Z.lxor (rotl8 1 b) (Z.lxor (rotl8 2 b) (Z.lxor (rotl8 3 b) (rotl8 4 b))))).
Definition sbox0 : list Z := Eval vm_compute in
  map (fun n => affine (gpow 254 (Z.of_nat n))) (seq 0 256).
Definition sbox (b : Z) : Z := nth (Z.to_nat b) sbox0 0.

Definition xor_words : list Z -> list Z -> list Z := zip_with Z.lxor.
Definition rotw (w : list Z) : list Z := match w with a :: l => l ++ [a] | [] => [] end.

(** The key schedule; [w] lists the words so far, the last one first. *)
Fixpoint expand (fuel : nat) (nk i rcon : Z) (w : list (list Z)) : list (list Z) :=
  match fuel with
  | O => rev w
  | S fuel =>
      let prev := nth 0 w [] in
      let back := nth (Z.to_nat (nk - 1)) w [] in
      let first := i mod nk =? 0 in
      let t := if first then xor_words (map sbox (rotw prev)) [rcon; 0; 0; 0]
               else if (6 <? nk) && (i mod nk =? 4) then map sbox prev else prev in
      expand fuel nk (i + 1) (if first then xtime rcon else rcon) (xor_words back t :: w)
  end.

Fixpoint chunks4 (fuel : nat) (l : list Z) : list (list Z) :=
  match fuel with O => [] | S fuel => take 4 l :: chunks4 fuel (drop 4 l) end.

Definition key_valid (key : bytes) : bool :=
  (zlen key =? 16) || (zlen key =? 24) || (zlen key =? 32).

(** The round keys, of sixteen bytes each. *)
Definition schedule (key : bytes) : list (list Z) :=
  let nk := zlen key / 4 in
  let nr := nk + 6 in
  let w0 := rev (chunks4 (Z.to_nat nk) (map b2z key)) in
  let w := expand (Z.to_nat (4 * (nr + 1) - nk)) nk nk 1 w0 in
  map (fun r => concat (take 4 (drop (4 * r) w))) (seq 0 (Z.to_nat (nr + 1))).

Definition shift_rows (s : list Z) : list Z :=
  map (fun i => nth ((i + 4 * (i mod 4)) mod 16)%nat s 0) (seq 0 16).
Definition mix_column (s : list Z) (c : nat) : list Z :=
  let a k := nth (4 * c + k mod 4)%nat s 0 in
  map (fun r => Z.lxor (xtime (a r)) (Z.lxor (Z.lxor (xtime (a (r + 1)%nat)) (a (r + 1)%nat))
                  (Z.lxor (a (r + 2)%nat) (a (r + 3)%nat)))) (seq 0 4).
Definition mix_columns (s : list Z) : list Z := concat (map (mix_column s) (seq 0 4)).

Fixpoint rounds (keys : list (list Z)) (s : list Z) : list Z :=
  match keys with
  | [] => s
  | [k] => xor_words (shift_rows (map sbox s)) k
  | k :: keys => rounds keys (xor_words (mix_columns (shift_rows (map sbox s))) k)
  end.

Definition encrypt (key block : bytes) : bytes :=
  match schedule key with
  | [] => block
  | k :: keys => map z2b (rounds keys (xor_words (map b2z block) k))
  end.

Definition text (s : String.string) : bytes :=
  match Hex.DecodeString (str s) with Ok b => b | _ => [] end.

(** The examples of FIPS 197, appendix C. *)
Example fips197_128 :
  encrypt (text "000102030405060708090a0b0c0d0e0f") (text "00112233445566778899aabbccddeeff")
  = text "69c4e0d86a7b0430d8cdb78070b4c55a".
Proof. vm_compute. reflexivity. Qed.
Example fips197_256 :
  encrypt (text "000102030405060708090a0b0c0d0e0f101112131415161718191a1b1c1d1e1f")
          (text "00112233445566778899aabbccddeeff")
  = text "8ea2b7ca516745bfeafc49904b496089".
Proof. vm_compute. reflexivity. Qed.
End Aes.

Module AesCipher.
#[export] Instance aes : BlockCipher :=
  {| valid_key := Aes.key_valid; encrypt_block := Aes.encrypt |}.
#[export] Instance aes_laws : BlockCipherLaws.
Proof. by split; intros k Hk; cbn; unfold Aes.key_valid; rewrite Hk. Qed.
End AesCipher.

(** A cipher for examples: the block is the key and the counter together. *)
Module ToyCipher.
#[export] Instance toy : BlockCipher :=
  {| valid_key k := (zlen k =? 16) || (zlen k =? 32);
     encrypt_block k b := zip_with xor_byte (ztake 16 k) b |}.
#[export] Instance toy_laws : BlockCipherLaws.
Proof. by split; intros k Hk; cbn; rewrite Hk. Qed.
End ToyCipher.

(** ** [cipher.NewCTR] *)
Module Ctr.
Section ctr.
Context `{BlockCipher}.

(** The key, the initial counter and the bytes of key stream that were used. *)
Record Stream := mkStream { key : bytes; iv : bytes; pos : Z }.

Definition NewCTR (k v : bytes) : Stream := mkStream k v 0.

(** The counter is a big-endian number of sixteen bytes, which wraps around. *)
Definition key_byte (k v : bytes) (p : Z) : byte :=
  nth (Z.to_nat (p mod 16)) (encrypt_block k (be_encode 16 (be_decode v + p / 16)))
    Byte.x00.

Fixpoint xor_from (k v : bytes) (p : Z) (src : bytes) : bytes :=
  match src with [] => [] | c :: src => xor_byte c (key_byte k v p) :: xor_from k v (p + 1) src end.

Definition XORKeyStream (src : bytes) (s : Stream) : bytes * Stream :=
  (xor_from (key s) (iv s) (pos s) src, mkStream (key s) (iv s) (pos s + zlen src)).

Lemma zlen_xor_from k v src : forall p, zlen (xor_from k v p src) = zlen src.
Proof. induction src as [|c src IH]; intros p; [done|]. cbn [xor_from]. zlen_simpl. by rewrite IH. Qed.

Lemma xor_from_app k v a b : forall p,
  xor_from k v p (a ++ b) = xor_from k v p a ++ xor_from k v (p + zlen a) b.
Proof.
  induction a as [|c a IH]; intros p; cbn [app xor_from].
  - by rewrite zlen_nil, Z.add_0_r.
  - rewrite IH, zlen_cons. cbn [app]. do 3 f_equal. lia.
Qed.

Lemma xor_byte_twice a b : xor_byte (xor_byte a b) b = a.
Proof.
  unfold xor_byte. rewrite b2z_z2b. apply b2z_inj. rewrite b2z_z2b.
  pose proof (b2z_range a). pose proof (b2z_range b).
  rewrite (Z.mod_small (Z.lxor (b2z a) (b2z b))), Z.lxor_assoc, Z.lxor_nilpotent, Z.lxor_0_r;
    [by apply Z.mod_small|].
  split; [by apply Z.lxor_nonneg; lia|].
  destruct (Z.eq_dec (Z.lxor (b2z a) (b2z b)) 0) as [->|Hn]; [lia|].
  change 256 with (2 ^ 8) at 1. apply Z.log2_lt_pow2; [pose proof (proj2 (Z.lxor_nonneg (b2z a) (b2z b)) ltac:(lia)); lia|].
  eapply Z.le_lt_trans; [apply Z.log2_lxor; lia|].
  apply Z.max_lub_lt;
    match goal with |- Z.log2 ?x < 8 =>
      destruct (Z.eq_dec x 0) as [->|]; [cbn; lia|apply Z.log2_lt_pow2; lia] end.
Qed.

Lemma xor_from_twice k v src : forall p, xor_from k v p (xor_from k v p src) = src.
Proof.
  induction src as [|c src IH]; intros p; [done|]. cbn [xor_from]. by rewrite xor_byte_twice, IH.
Qed.

(** Two ends with the same key stream decrypt what was encrypted, however it is cut. *)
Lemma XORKeyStream_app a b s :
  XORKeyStream (a ++ b) s =
    let '(x, s1) := XORKeyStream a s in let '(y, s2) := XORKeyStream b s1 in (x ++ y, s2).
Proof.
  unfold XORKeyStream. cbn. rewrite xor_from_app, zlen_app. do 2 f_equal. lia.
Qed.

Lemma XORKeyStream_inverse a s :
  XORKeyStream (XORKeyStream a s).1 s = (a, (XORKeyStream a s).2).
Proof. unfold XORKeyStream. cbn. by rewrite xor_from_twice, zlen_xor_from. Qed.
End ctr.
End Ctr.

(** ** [cipher.StreamWriter] and [cipher.StreamReader] on a socket. *)
Module CipherIO.
Section io.
Context `{BlockCipher} (netWrite : list bytes -> bytes -> option GoNet.net_error).
Abbreviation S := (Ctr.Stream * GoNet.sock)%type.

(** The key stream is used up, also when the network fails. *)
Definition Write (src : bytes) : IO S GoNet.error unit := fun '(st, k) =>
  let '(c, st) := Ctr.XORKeyStream src st in
  match GoNet.Write netWrite c k with
  | Some (r, k) => Some (r, (st, k))
  | None => None
  end.
(** The data that was read is decrypted, with an error or not. *)
Definition Read (n : Z) : IO S GoNet.error (bytes * option GoNet.net_error) := fun '(st, k) =>
  match GoNet.Read n k with
  | Some (Ok (rd, e), k) => let '(p, st) := Ctr.XORKeyStream rd st in Some (Ok (p, e), (st, k))
  | Some (Err e, k) => Some (Err e, (st, k))
  | Some (Panic w, k) => Some (Panic w, (st, k))
  | None => None
  end.
(** [io.ReadFull] on the reader: decrypting the pieces is decrypting the whole. *)
Definition ReadFull (n : Z) : IO S GoNet.error bytes := fun '(st, k) =>
  match GoNet.ReadFull n k with
  | Some (Ok rd, k) => let '(p, st) := Ctr.XORKeyStream rd st in Some (Ok p, (st, k))
  | Some (Err e, k) => Some (Err e, (st, k))
  | Some (Panic w, k) => Some (Panic w, (st, k))
  | None => None
  end.
End io.
End CipherIO.

(** ** [encoding/base32]: [StdEncoding] *)
Module Base32.
Definition alphabet : bytes := str "ABCDEFGHIJKLMNOPQRSTUVWXYZ234567".
Definition padChar : byte := Byte.x3d.
Definition digit (n : Z) : byte := nth (Z.to_nat n) alphabet padChar.
Definition value (c : byte) : option Z :=
  match list_find (fun d => d = c) alphabet with
  | Some (i, _) => Some (Z.of_nat i)
  | None => None
  end.

(** Big-endian digits in base 32. *)
Fixpoint digits32 (n : nat) (v : Z) : list Z :=
  match n with O => [] | S n => digits32 n (v / 32) ++ [v mod 32] end.
Definition number32 (l : list Z) : Z := foldl (fun acc d => acc * 32 + d) 0 l.

(** How many digits the bytes of a last group take. *)
Definition group_digits (n : nat) : nat :=
  match n with O => 0 | 1 => 2 | 2 => 4 | 3 => 5 | 4 => 7 | _ => 8 end%nat.

Definition encode_group (l : bytes) : bytes :=
  let v := be_decode (l ++ replicate (5 - length l) Byte.x00) in
  let m := group_digits (length l) in
  map digit (take m (digits32 8 v)) ++ replicate (8 - m) padChar.

Fixpoint EncodeToString (src : bytes) : bytes :=
  match src with
  | [] => []
  | a :: b :: c :: d :: e :: src => encode_group [a; b; c; d; e] ++ EncodeToString src
  | l => encode_group l
  end.

Definition group_bytes (l : list Z) : bytes :=
  let v := number32 (l ++ replicate (8 - length l) 0) in
  let n := match length l with 8 => 5 | 7 => 4 | 5 => 3 | 4 => 2 | 2 => 1 | _ => 0 end%nat in
  take n (be_encode 5 v).

(** [acc] holds the digits of the group that is being read.  The only error is
    [CorruptInputError]. *)
Fixpoint decode (acc : list Z) (s : bytes) : option bytes :=
  match s with
  | [] => match acc with [] => Some [] | _ => None end
  | c :: r =>
      let j := length acc in
      if bool_decide (c = padChar) && (2 <=? Z.of_nat j) && (zlen r <? 8) then
        if zlen r + Z.of_nat j <? 7 then None
        else if forallb (fun c => bool_decide (c = padChar)) (take (7 - j) r) then
          if bool_decide (j = 3%nat \/ j = 6%nat) then None else Some (group_bytes acc)
        else None
      else
        d ← value c;
        let acc := acc ++ [d] in
        if bool_decide (length acc = 8%nat) then
          rest ← decode [] r; Some (group_bytes acc ++ rest)
        else decode acc r
  end.
Definition DecodeString (s : bytes) : option bytes :=
  decode [] (List.filter (fun c => negb (Base64.newline c)) s).

Lemma digit_value n : 0 <= n < 32 ->
  value (digit n) = Some n /\ digit n <> padChar /\ Base64.newline (digit n) = false.
Proof.
  intros Hn. rewrite <- (Z2Nat.id n) by lia. assert (Hb : (Z.to_nat n < 32)%nat) by lia.
  revert Hb. generalize (Z.to_nat n). clear. intros n.
  do 32 (destruct n as [|n]; [intros _; split; [reflexivity|split; [discriminate|reflexivity]]|]).
  lia.
Qed.

Lemma digits32_range n : forall v, Forall (fun d => 0 <= d < 32) (digits32 n v).
Proof.
  induction n as [|n IH]; intros v; [constructor|]. cbn [digits32].
  apply Forall_app. split; [apply IH|]. repeat constructor; apply Z.mod_pos_bound; lia.
Qed.
Lemma length_digits32 n : forall v, length (digits32 n v) = n.
Proof. induction n as [|n IH]; intros v; [done|]. cbn. rewrite length_app, IH. cbn. lia. Qed.
Lemma number32_digits n : forall v, 0 <= v -> number32 (digits32 n v) = v mod 32 ^ Z.of_nat n.
Proof.
  induction n as [|n IH]; intros v Hv; [by rewrite Z.mod_1_r|].
  cbn [digits32]. unfold number32 in *. rewrite foldl_app. cbn [foldl].
  rewrite IH by (apply Z.div_pos; lia). rewrite Nat2Z.inj_succ, Z.pow_succ_r by lia.
  rewrite Z.rem_mul_r by lia. lia.
Qed.

(** Reading the digits of a group. *)
Lemma decode_digits ds : forall acc r, Forall (fun d => 0 <= d < 32) ds ->
  (length acc + length ds < 8)%nat ->
  decode acc (map digit ds ++ r) = decode (acc ++ ds) r.
Proof.
  induction ds as [|d ds IH]; intros acc r Hd Hl; cbn [map app]; [by rewrite app_nil_r|].
  apply Forall_cons in Hd as [Hd Hds]. cbn in Hl.
  destruct (digit_value d Hd) as (Hv & Hp & _). cbn [decode].
  rewrite (bool_decide_false _ Hp). cbn [andb]. rewrite Hv. cbn [mbind option_bind].
  rewrite bool_decide_false by (rewrite length_app; cbn; lia).
  rewrite IH by (done || rewrite length_app; cbn; lia). by rewrite <- app_assoc.
Qed.

Lemma full_group l : length l = 5%nat ->
  group_bytes (digits32 8 (be_decode l)) = l.
Proof.
  intros Hl. unfold group_bytes. rewrite length_digits32. cbn [Nat.sub replicate]. rewrite app_nil_r.
  pose proof (be_decode_range l) as Hr.
  rewrite number32_digits by lia. unfold zlen in Hr. rewrite Hl in Hr.
  rewrite Z.mod_small by (change (32 ^ Z.of_nat 8) with (256 ^ Z.of_nat 5); lia).
  rewrite (be_encode_decode 5) by done. apply take_ge. lia.
Qed.

Lemma digits32_8 v : digits32 8 v = digits32 7 (v / 32) ++ [v mod 32].
Proof. done. Qed.

Lemma decode_full l r : length l = 5%nat ->
  decode [] (encode_group l ++ r) = (rest ← decode [] r; Some (l ++ rest)).
Proof.
  intros Hl. unfold encode_group. rewrite Hl. cbn [Nat.sub replicate group_digits].
  rewrite !app_nil_r, take_ge by (by rewrite length_digits32).
  pose proof (full_group l Hl) as Hg. revert Hg. generalize (be_decode l). intros v Hg.
  pose proof (digits32_range 8 v) as Hr.
  rewrite digits32_8 in Hg, Hr |- *. apply Forall_app in Hr as [Hr Hd].
  apply Forall_cons in Hd as [Hd _]. rewrite map_app, <- app_assoc. cbn [map app].
  rewrite decode_digits by (done || rewrite length_digits32; cbn; lia).
  destruct (digit_value (v mod 32) Hd) as (Hv & Hp & _). cbn [decode app].
  rewrite (bool_decide_false _ Hp). cbn [andb]. rewrite Hv. cbn [mbind option_bind].
  rewrite bool_decide_true by (rewrite length_app, length_digits32; done). by rewrite Hg.
Qed.

Lemma decode_tail4 l : length l = 4%nat -> decode [] (encode_group l) = Some l.
Proof.
  intros Hl. unfold encode_group. rewrite Hl. cbn [Nat.sub replicate group_digits].
  pose proof (full_group (l ++ [Byte.x00]) ltac:(rewrite length_app; cbn; lia)) as Hg.
  assert (Hz : be_decode (l ++ [Byte.x00]) mod 32 = 0).
  { rewrite be_decode_snoc. change (b2z Byte.x00) with 0. rewrite Z.add_0_r.
    replace (be_decode l * 256) with (be_decode l * 8 * 32) by ring. by rewrite Z.mod_mul. }
  revert Hg Hz. generalize (be_decode (l ++ [Byte.x00])). intros v Hg Hz.
  rewrite digits32_8, Hz in *. rewrite take_app_le by (by rewrite length_digits32).
  rewrite take_ge by (by rewrite length_digits32).
  rewrite decode_digits by (apply digits32_range || rewrite length_digits32; cbn; lia).
  cbn [app decode]. rewrite length_digits32.
  change (bool_decide (padChar = padChar) && (2 <=? Z.of_nat 7) && (zlen (@nil byte) <? 8)) with true.
  change (zlen (@nil byte) + Z.of_nat 7 <? 7) with false.
  change (forallb (fun c => bool_decide (c = padChar)) (take (7 - 7) [])) with true.
  change (bool_decide (7%nat = 3%nat \/ 7%nat = 6%nat)) with false.
  cbn [andb]. cbv iota. f_equal. unfold group_bytes in *. rewrite length_app in Hg. rewrite length_digits32 in *.
  cbn [length Nat.add Nat.sub replicate app] in *. rewrite app_nil_r in Hg.
  rewrite take_ge in Hg by (by rewrite length_be_encode). rewrite Hg.
  rewrite <- Hl. apply take_app_length.
Qed.

Lemma newlines_none l : Forall (fun c => Base64.newline c = false) l ->
  List.filter (fun c => negb (Base64.newline c)) l = l.
Proof. induction 1 as [|c l Hc _ IH]; [done|]. cbn. by rewrite Hc, IH. Qed.

Lemma encode_group_plain l : Forall (fun c => Base64.newline c = false) (encode_group l).
Proof.
  unfold encode_group. apply Forall_app. split.
  - apply Forall_map. apply Forall_take. eapply Forall_impl; [apply digits32_range|].
    intros d Hd. by apply digit_value.
  - by apply Forall_replicate.
Qed.

Lemma bytes_ind5 (P : bytes -> Prop) :
  (forall l, (length l < 5)%nat -> P l) ->
  (forall a b c d e l, P l -> P (a :: b :: c :: d :: e :: l)) -> forall l, P l.
Proof.
  intros H0 H5. fix IH 1. intros [|a [|b [|c [|d [|e l]]]]];
    [apply H0; cbn; lia..|apply H5, IH].
Qed.

(** The lengths the code encodes: nothing, or four bytes, in the last group. *)
Theorem Base32_roundtrip src :
  (length src mod 5 = 0 \/ length src mod 5 = 4)%nat ->
  DecodeString (EncodeToString src) = Some src.
Proof.
  intros Hm. unfold DecodeString.
  assert (Hp : Forall (fun c => Base64.newline c = false) (EncodeToString src)).
  { clear Hm. induction src as [l Hl|a b c d e l IH] using bytes_ind5.
    - destruct l as [|? [|? [|? [|? [|]]]]]; try (cbn in Hl; lia); cbn [EncodeToString];
        [constructor|apply encode_group_plain..].
    - cbn [EncodeToString]. apply Forall_app. split; [apply encode_group_plain|done]. }
  rewrite newlines_none by done. clear Hp.
  induction src as [l Hl|a b c d e l IH] using bytes_ind5.
  - rewrite Nat.mod_small in Hm by lia.
    destruct l as [|? [|? [|? [|? [|]]]]]; cbn in Hl, Hm; try lia; [done|].
    cbn [EncodeToString]. by apply decode_tail4.
  - cbn [EncodeToString]. rewrite decode_full by done. rewrite IH; [done|].
    change (length (a :: b :: c :: d :: e :: l)) with (5 + length l)%nat in Hm.
    rewrite <- Nat.Div0.add_mod_idemp_l in Hm. exact Hm.
Qed.
End Base32.
