(* ===== verification/Front.v ===== *)
(** * The FRONT defense: [transports/front]

    The packet handler ([packet.go]) and the goroutines of
    [frontConn.ReadFrom] ([front.go]): the main loop, which sends what it reads
    at once; the padding factory, which fills a queue of timestamps when the
    defense starts and empties it when it stops; the padding routine, which
    sends one dummy per timestamp; the ticker and the sender.  The sampled
    timestamps come from the environment, the queue is [Fifo]. *)
From S2P Require Import Prelude GoStd Rand Drbg Framing ProbDist Packet DefConn Cells Fifo.

Module Front.
Import DefConn Cells.

(** ** [packet.go] *)

(** [paddingChan] holds what the handler sent to the padding factory. *)
Record app := mkApp { conn : DefConn.app; paddingChan : list bool }.
Definition set_conn (c : DefConn.app) (a : app) : app := mkApp c (paddingChan a).

Section packets.
Context `{SipHash} `{SecretBox} (fuel : nat).

(** The [switch] of [readPackets]. *)
Definition handle : Packet.handler app := fun pktType payload _ a =>
  if pktType =? PacketTypePayload then
    (Ok tt, if 0 <? zlen payload then set_conn (receive payload (conn a)) a else a)
  else if pktType =? PacketTypePrngSeed then
    let '(r, c) := handle_seed fuel payload (conn a) in (r, set_conn c a)
  else if pktType =? PacketTypeSignalStart then
    if negb (IsServer (conn a)) then (Panic "Client receive SignalStart pkt from server?", a)
    else
      (Ok tt, if decide (curState (ConnState (conn a)) = StateStart) then a
              else mkApp (set_ConnState (SetState StateStart (ConnState (conn a))) (conn a))
                         (paddingChan a ++ [true]))
  else if pktType =? PacketTypeSignalStop then
    if negb (IsServer (conn a)) then (Panic "Client receive SignalStop pkt from server?", a)
    else
      (Ok tt, if decide (curState (ConnState (conn a)) = StateStop) then a
              else mkApp (set_ConnState (SetState StateStop (ConnState (conn a))) (conn a))
                         (paddingChan a ++ [false]))
  else (Ok tt, a).

Definition readPackets := Packet.readPackets handle.
End packets.

(** ** The goroutines of [ReadFrom] *)

Inductive main_pc :=
| MSelect | MRead                  (* the [select]; in [r.Read] *)
| MGate (g : gate_pc)              (* a client's signalling *)
| MPad                             (* paddingChan <- true *)
| MChop                            (* the loop over receiveBuf *)
| MSendPayload (p : bytes)         (* SendChan <- Payload *)
| MInc                             (* NRealSegSentIncrement *)
| MDone (err : Packet.error).      (* returned, CloseChan is closed *)

(** The padding factory, with [initFrontArgs] inlined. *)
Inductive factory_pc :=
| FSelect
| FSample                          (* the samplers *)
| FEmpty (ts : list Z)             (* the queue is emptied before the refill *)
| FStore (ts : list Z)             (* frontInitTime.Store *)
| FFill (ts : list Z)              (* Enqueue, one timestamp per turn *)
| FReport                          (* ErrChan <- err, and exit *)
| FDrain                           (* a stop: the queue is emptied *)
| FDone.

(** The padding routine. *)
Inductive padding_pc :=
| PCheck                           (* load: StateStop? *)
| PLen                             (* GetLen () == 0? *)
| PWait                            (* DequeueOrWaitForNextElementContext *)
| PSleep (timestamp : Z)           (* SleepRho *)
| PSend                            (* SendChan <- Dummy *)
| PReport (e : Packet.error) | PDone.

(** The [Read] of a server: between the two steps of a signal. *)
Inductive handler_pc := HIdle | HPad (start : bool) | HSet (start : bool).

Section machine.
Context `{Fifo Z} (queue_full : Packet.error).

Record st := mkSt {
  server : bool;
  maxPaddingN : Z;
  shd : shared;
  chans : io Packet.packet;
  receiveBuf : bytes;
  written : Z;
  tsQueue : fifo Z;
  main : main_pc; factory : factory_pc; padding : padding_pc; ticker : ticker_pc;
  handler : handler_pc;
  (* history: how often the factory was started, and the timestamps sampled *)
  starts : Z; sampled : Z
}.

Definition init (isServer : bool) (nServer nClient : Z) (s : State) : st :=
  let n := if isServer then nServer else nClient in
  mkSt isServer n (shared_init s) io_init [] 0 (NewFixedFIFO n)
       MSelect FSelect PCheck TWait HIdle 0 0.

Definition set_main m s := mkSt (server s) (maxPaddingN s) (shd s) (chans s) (receiveBuf s)
  (written s) (tsQueue s) m (factory s) (padding s) (ticker s) (handler s) (starts s) (sampled s).
Definition set_factory f s := mkSt (server s) (maxPaddingN s) (shd s) (chans s) (receiveBuf s)
  (written s) (tsQueue s) (main s) f (padding s) (ticker s) (handler s) (starts s) (sampled s).
Definition set_padding p s := mkSt (server s) (maxPaddingN s) (shd s) (chans s) (receiveBuf s)
  (written s) (tsQueue s) (main s) (factory s) p (ticker s) (handler s) (starts s) (sampled s).
Definition set_ticker t s := mkSt (server s) (maxPaddingN s) (shd s) (chans s) (receiveBuf s)
  (written s) (tsQueue s) (main s) (factory s) (padding s) t (handler s) (starts s) (sampled s).
Definition set_handler h s := mkSt (server s) (maxPaddingN s) (shd s) (chans s) (receiveBuf s)
  (written s) (tsQueue s) (main s) (factory s) (padding s) (ticker s) h (starts s) (sampled s).
Definition set_shd c s := mkSt (server s) (maxPaddingN s) c (chans s) (receiveBuf s)
  (written s) (tsQueue s) (main s) (factory s) (padding s) (ticker s) (handler s) (starts s) (sampled s).
Definition set_chans x s := mkSt (server s) (maxPaddingN s) (shd s) x (receiveBuf s)
  (written s) (tsQueue s) (main s) (factory s) (padding s) (ticker s) (handler s) (starts s) (sampled s).
Definition set_buf b w s := mkSt (server s) (maxPaddingN s) (shd s) (chans s) b
  w (tsQueue s) (main s) (factory s) (padding s) (ticker s) (handler s) (starts s) (sampled s).
Definition set_queue q s := mkSt (server s) (maxPaddingN s) (shd s) (chans s) (receiveBuf s)
  (written s) q (main s) (factory s) (padding s) (ticker s) (handler s) (starts s) (sampled s).
Definition set_ghost a b s := mkSt (server s) (maxPaddingN s) (shd s) (chans s) (receiveBuf s)
  (written s) (tsQueue s) (main s) (factory s) (padding s) (ticker s) (handler s) a b.

(** A packet on [SendChan], an error on [ErrChan]. *)
Definition send (p : Packet.packet) (s : st) : option st :=
  x ← enqueue p (chans s); Some (set_chans x s).
Definition fail (e : Packet.error) (s : st) : option st :=
  x ← report e (chans s); Some (set_chans x s).

(** Who sends on [paddingChan]. *)
Inductive padder := ByMain | ByTicker | ByHandler.

(** The choices of the scheduler and of the environment. *)
Inductive event :=
| EvRead (data : bytes) | EvReadErr (e : Packet.error)   (* [r.Read] returns *)
| EvMain | EvFactory | EvPadding | EvTicker | EvHandler  (* a goroutine makes a step *)
| EvSend (ev : send_event)                               (* and so does the sender *)
| EvTick                                                 (* the ticker fires *)
| EvPadChan (who : padder)                               (* paddingChan passes a value *)
| EvSample (ts : list Z)                                 (* the samplers return *)
| EvTimeout | EvQueueErr (e : Packet.error)              (* the wait on the queue ends *)
| EvWake                                                 (* SleepRho returns *)
| EvExit                                                 (* the others see CloseChan closed *)
| EvRecv                                                 (* [readPackets] counts a payload packet *)
| EvSignal (start : bool).                               (* a server's [readPackets] gets a signal *)

Definition start_signal : Packet.packet := cell PacketTypeSignalStart [].
Definition stop_signal : Packet.packet := cell PacketTypeSignalStop [].

Definition main_step (s : st) : option st :=
  match main s with
  | MSelect =>
      match take_err (chans s) with
      | Some (e, x) => Some (set_main (MDone e) (set_chans x s))
      | None => Some (set_main MRead s)
      end
  | MRead | MPad | MDone _ => None
  | MGate g =>
      '(g, c, x) ← gate_step start_signal g (shd s) (chans s);
      Some (set_main (match g with GStarted => MPad | GOver => MChop | _ => MGate g end)
                     (set_shd c (set_chans x s)))
  | MChop =>
      if zlen (receiveBuf s) =? 0 then Some (set_main MSelect s)
      else
        let p := ztake MaxPacketPayloadLength (receiveBuf s) in
        Some (set_main (MSendPayload p)
                (set_buf (zdrop MaxPacketPayloadLength (receiveBuf s)) (written s + zlen p) s))
  | MSendPayload p => set_main MInc <$> send (cell PacketTypePayload p) s
  | MInc => Some (set_main MChop (set_shd (inc_sent (shd s)) s))
  end.

(** One turn of [for tsQueue.GetLen () > 0 { tsQueue.Dequeue () }]. *)
Definition drain (again over : factory_pc) (s : st) : st :=
  if 0 <? GetLen (tsQueue s) then
    set_factory again
      (match Dequeue (tsQueue s) with Some (_, q) => set_queue q s | None => s end)
  else set_factory over s.

Definition factory_step (s : st) : option st :=
  match factory s with
  | FSelect | FSample | FDone => None
  | FEmpty ts => Some (drain (FEmpty ts) (FStore ts) s)
  | FStore ts => Some (set_factory (FFill ts) s)
  | FFill [] => Some (set_factory FSelect s)
  | FFill (t :: ts) =>
      match Enqueue t (tsQueue s) with
      | Some q => Some (set_factory (FFill ts) (set_queue q s))
      | None => Some (set_factory FReport s)
      end
  | FReport => set_factory FDone <$> fail queue_full s
  | FDrain => Some (drain FDrain FSelect s)
  end.

Definition padding_step (s : st) : option st :=
  match padding s with
  | PCheck => Some (set_padding (if bool_decide (load (shd s) = StateStop) then PCheck else PLen) s)
  | PLen => Some (set_padding (if GetLen (tsQueue s) =? 0 then PCheck else PWait) s)
  | PWait =>
      '(t, q) ← Dequeue (tsQueue s); Some (set_padding (PSleep t) (set_queue q s))
  | PSleep _ | PDone => None
  | PSend => set_padding PCheck <$> send (cell PacketTypeDummy []) s
  | PReport e => set_padding PDone <$> fail e s
  end.

Definition closed (s : st) : bool := match main s with MDone _ => true | _ => false end.

(** [paddingChan] is unbuffered: the sender and the factory's [select] meet. *)
Definition pad_chan (who : padder) (s : st) : option st :=
  match factory s with
  | FSelect =>
      '(b, s') ← match who with
                 | ByMain => match main s with MPad => Some (true, set_main MChop s) | _ => None end
                 | ByTicker =>
                     match ticker s with
                     | TStopped => Some (false, set_ticker TResetSent s)
                     | _ => None
                     end
                 | ByHandler =>
                     match handler s with HPad b => Some (b, set_handler (HSet b) s) | _ => None end
                 end;
      Some (if b : bool then set_factory FSample (set_ghost (starts s' + 1) (sampled s') s')
            else set_factory FDrain s')
  | _ => None
  end.

(** [n_sampler] is uniform on the interval from 1 to [N]. *)
Definition sample_ok (n : Z) (ts : list Z) : bool :=
  (Z.min 1 n <=? zlen ts) && (zlen ts <=? Z.max 1 n).

Definition exec (ev : event) (s : st) : option st :=
  match ev with
  | EvRead data =>
      match main s with
      | MRead =>
          if zlen data >? 65535 then None
          else if zlen data =? 0 then Some (set_main (MDone (Packet.NetError Packet.EOF)) s)
          else
            Some (set_main (if server s then MChop else MGate (GLoad1 (zlen data)))
                    (set_buf (receiveBuf s ++ data) (written s)
                       (set_chans (log_read data (chans s)) s)))
      | _ => None
      end
  | EvReadErr e => match main s with MRead => Some (set_main (MDone e) s) | _ => None end
  | EvMain => main_step s
  | EvFactory => factory_step s
  | EvPadding => padding_step s
  | EvTicker =>
      '(t, c, x) ← ticker_step stop_signal (ticker s) (shd s) (chans s);
      Some (set_ticker t (set_shd c (set_chans x s)))
  | EvHandler =>
      match handler s with
      | HSet b =>
          Some (set_handler HIdle
                  (set_shd (set_state (if b then StateStart else StateStop) (shd s)) s))
      | _ => None
      end
  | EvSend ev => x ← send_step (closed s) ev (chans s); Some (set_chans x s)
  | EvTick =>
      match ticker s with
      | TWait => Some (set_ticker (if server s then TResetSent else TLoad) s)
      | _ => None
      end
  | EvPadChan who => pad_chan who s
  | EvSample ts =>
      match factory s with
      | FSample =>
          if sample_ok (maxPaddingN s) ts
          then Some (set_factory (FEmpty ts) (set_ghost (starts s) (sampled s + zlen ts) s))
          else None
      | _ => None
      end
  | EvTimeout => match padding s with PWait => Some (set_padding PCheck s) | _ => None end
  | EvQueueErr e => match padding s with PWait => Some (set_padding (PReport e) s) | _ => None end
  | EvWake => match padding s with PSleep _ => Some (set_padding PSend s) | _ => None end
  | EvExit =>
      if closed s then
        Some (set_factory (match factory s with FSelect => FDone | f => f end)
                (set_padding (match padding s with PCheck => PDone | p => p end)
                   (set_ticker (match ticker s with TWait => TDone | t => t end) s)))
      else None
  | EvRecv => match handler s with HIdle => Some (set_shd (inc_rcv (shd s)) s) | _ => None end
  | EvSignal b =>
      match handler s with
      | HIdle =>
          if server s then
            Some (if decide (load (shd s) = (if b then StateStart else StateStop)) then s
                  else set_handler (HPad b) s)
          else None
      | _ => None
      end
  end.

Definition step : st -> st -> Prop := does exec.

(** ** Invariants of every interleaving *)

Definition hand (m : main_pc) : bytes := match m with MSendPayload p => p | _ => [] end.

(** What holds at the program points of the main loop: it waits with an empty
    buffer, and only a client signals. *)
Definition main_ok (b : bool) (buf : bytes) (m : main_pc) : Prop :=
  match m with
  | MSelect | MRead | MDone _ => buf = []
  | MGate _ | MPad => b = false
  | MSendPayload p => zlen p <= MaxPacketPayloadLength
  | MChop | MInc => True
  end.
Record Inv (s : st) : Prop := {
  inv_io : IoInv packet_payload (any_cell (server s)) (hand (main s) ++ receiveBuf s) (chans s);
  inv_main : main_ok (server s) (receiveBuf s) (main s);
  inv_ticker : ticker_ok (server s) (ticker s)
}.

Lemma front_init_Inv b n1 n2 x : Inv (init b n1 n2 x).
Proof. split; [apply IoInv_init|done..]. Qed.

Lemma send_Some p s s' : send p s = Some s' -> exists x, enqueue p (chans s) = Some x /\ s' = set_chans x s.
Proof. unfold send. destruct (enqueue _ _) as [x|]; cbn; [|done]. intros [= <-]. eauto. Qed.
Lemma fail_Some e s s' : fail e s = Some s' -> exists x, report e (chans s) = Some x /\ s' = set_chans x s.
Proof. unfold fail. destruct (report _ _) as [x|]; cbn; [|done]. intros [= <-]. eauto. Qed.

Lemma start_ok : any_cell false start_signal. Proof. split_and!; try done. right. auto. Qed.
Lemma stop_ok : any_cell false stop_signal. Proof. split_and!; try done. right. auto. Qed.
Lemma dummy_ok b : any_cell b (cell PacketTypeDummy []). Proof. split_and!; try done. right. auto. Qed.
Lemma payload_ok b d : zlen d <= MaxPacketPayloadLength -> any_cell b (cell PacketTypePayload d).
Proof. intros Hd. destruct (full_cell_cell PacketTypePayload d) as [? ?]; [done..|]. by split_and!; [| |left]. Qed.

Lemma front_main_step_Inv s s' : Inv s -> main_step s = Some s' -> Inv s'.
Proof.
  intros [Hi Hm Ht]. unfold main_step. destruct (main s) eqn:Em; cbn [hand main_ok] in *; try done.
  - destruct (take_err _) as [[e x]|] eqn:E; intros [= <-]; split; cbn; try done.
    by eapply IoInv_take_err.
  - destruct (gate_step _ _ _ _) as [[[g' c] x]|] eqn:E; cbn; [|done]. intros [= <-].
    rewrite Hm in *. eapply IoInv_gate in Hi; [|exact E|exact start_ok|done].
    split; cbn; rewrite ?Hm; [by destruct g'|by destruct g'|done].
  - destruct (_ =? 0) eqn:E; b2p; intros [= <-]; split; cbn; try done.
    + by apply zlen_0.
    + by rewrite ztake_zdrop.
    + rewrite zlen_ztake. unfold MaxPacketPayloadLength. lia.
  - destruct (send _ s) as [s1|] eqn:E; cbn; [|done]. intros [= <-].
    apply send_Some in E as (x & E & ->). split; cbn; try done.
    eapply IoInv_enqueue; [exact E|by apply payload_ok|done].
  - intros [= <-]. by split.
Qed.

Lemma drain_Inv f1 f2 s : Inv s -> Inv (drain f1 f2 s).
Proof.
  intros [Hi Hm Ht]. unfold drain. destruct (0 <? _); [|by split].
  destruct (Dequeue _) as [[? ?]|]; by split.
Qed.
Lemma factory_step_Inv s s' : Inv s -> factory_step s = Some s' -> Inv s'.
Proof.
  intros Hi. unfold factory_step. destruct (factory s) as [| |ts|ts|[|t ts]| | |]; try done.
  - intros [= <-]. by apply drain_Inv.
  - intros [= <-]. by destruct Hi.
  - intros [= <-]. by destruct Hi.
  - destruct (Enqueue _ _); intros [= <-]; by destruct Hi.
  - destruct (fail _ s) as [s1|] eqn:E; cbn; [|done]. intros [= <-].
    apply fail_Some in E as (x & E & ->). destruct Hi. split; cbn; try done.
    by eapply IoInv_report.
  - intros [= <-]. by apply drain_Inv.
Qed.

Lemma padding_step_Inv s s' : Inv s -> padding_step s = Some s' -> Inv s'.
Proof.
  intros [Hi Hm Ht]. unfold padding_step. destruct (padding s); try done.
  - intros [= <-]. by split.
  - intros [= <-]. by split.
  - destruct (Dequeue _) as [[? ?]|]; cbn; [|done]. intros [= <-]. by split.
  - destruct (send _ s) as [s1|] eqn:E; cbn; [|done]. intros [= <-].
    apply send_Some in E as (x & E & ->). split; cbn; try done.
    eapply IoInv_enqueue_nil; [exact E|apply dummy_ok|done|done].
  - destruct (fail _ s) as [s1|] eqn:E; cbn; [|done]. intros [= <-].
    apply fail_Some in E as (x & E & ->). split; cbn; try done. by eapply IoInv_report.
Qed.

Lemma pad_chan_Inv w s s' : Inv s -> pad_chan w s = Some s' -> Inv s'.
Proof.
  intros [Hi Hm Ht]. unfold pad_chan. destruct (factory s), w; try done.
  - destruct (main s) eqn:Em; try done. intros [= <-]. by split.
  - destruct (ticker s) eqn:Et; try done. intros [= <-]. by split.
  - destruct (handler s) as [|[]|]; try done; intros [= <-]; by split.
Qed.

Lemma front_exec_Inv ev s s' : Inv s -> exec ev s = Some s' -> Inv s'.
Proof.
  intros Hi. pose proof Hi as [Hio Hm Ht].
  destruct ev; cbn [exec];
    try solve [by apply front_main_step_Inv | by apply factory_step_Inv | by apply padding_step_Inv
              | by apply pad_chan_Inv].
  - destruct (main s) eqn:Em; try done. destruct (_ >? _); [done|].
    destruct (_ =? 0) eqn:E; intros [= <-]; [by split|]. cbn [hand] in Hio.
    destruct (server s) eqn:Es; split; cbn; rewrite ?Es; try done; by apply IoInv_read.
  - destruct (main s) eqn:Em; try done. intros [= <-]. by split.
  - destruct (ticker_step _ _ _ _) as [[[t c] x]|] eqn:E; cbn; [|done]. intros [= <-].
    split; cbn; [|done|by eapply ticker_step_ok].
    eapply IoInv_ticker; [exact E|exact Ht|intros ->; exact stop_ok|done|done].
  - destruct (handler s); try done. intros [= <-]. by split.
  - destruct (send_step _ _ _) as [x|] eqn:E; cbn; [|done]. intros [= <-].
    split; cbn; try done. by eapply IoInv_send.
  - destruct (ticker s) eqn:Et; try done. intros [= <-]. split; cbn; try done. by destruct (server s).
  - destruct (factory s); try done. destruct (sample_ok _ _); [|done]. intros [= <-]. by split.
  - destruct (padding s); try done. intros [= <-]. by split.
  - destruct (padding s); try done. intros [= <-]. by split.
  - destruct (padding s); try done. intros [= <-]. by split.
  - destruct (closed s); [|done]. intros [= <-]. split; cbn; try done. by destruct (ticker s).
  - destruct (handler s); try done. intros [= <-]. by split.
  - destruct (handler s); try done. destruct (server s) eqn:Es; [|done].
    intros [= <-]. destruct (decide _); [done|]. split; cbn; by rewrite ?Es in *.
Qed.

Lemma front_server ev s s' : exec ev s = Some s' -> server s' = server s /\ maxPaddingN s' = maxPaddingN s.
Proof.
  intros E. destruct ev; cbn [exec] in E;
    unfold main_step, factory_step, drain, padding_step, pad_chan, send, fail in E;
    step_cases E; subst; try done; repeat case_match; simplify_eq; done.
Qed.

Lemma front_reachable b n1 n2 x s :
  rtc step (init b n1 n2 x) s ->
  Inv s /\ server s = b /\ maxPaddingN s = if b then n1 else n2.
Proof.
  apply (does_invariant exec (fun s => Inv s /\ server s = b /\ maxPaddingN s = if b then n1 else n2)).
  - intros ev s1 s2 (Hi & <- & <-) E. split; [by eapply front_exec_Inv|by eapply front_server].
  - split; [apply front_init_Inv|done].
Qed.

(** FRONT delays nothing: whenever the main loop waits (for data, at the
    [select], or for good), every byte that was read from upstream has been
    queued, in order; at any moment what is queued, the cell in hand and the
    receive buffer are what was read; and every packet queued is a full cell. *)
Theorem front_zero_delay b n1 n2 x s :
  rtc step (init b n1 n2 x) s ->
  upstream (chans s) = payload_of (queued (chans s)) ++ hand (main s) ++ receiveBuf s
  /\ (main s = MSelect \/ main s = MRead ->
      upstream (chans s) = payload_of (queued (chans s)))
  /\ Forall (any_cell b) (queued (chans s)).
Proof.
  intros ([[Hst Hc _] Hm _] & Hb & _)%front_reachable. rewrite stream_of_packets in Hst.
  rewrite <- Hst, <- Hb in *. split_and!; [done| |done].
  intros [E|E]; rewrite E in *; cbn in Hm; rewrite Hm; by rewrite app_nil_r.
Qed.

(** ** The padding budget *)

Definition is_dummy : Packet.packet -> bool := of_type PacketTypeDummy.
Definition is_start : Packet.packet -> bool := of_type PacketTypeSignalStart.
Definition dummies (s : st) : Z := count is_dummy (queued (chans s)).

(** Dummies to come: one in the padding routine, what is queued, what the
    factory is about to queue. *)
Definition in_padding (p : padding_pc) : Z := match p with PSleep _ | PSend => 1 | _ => 0 end.
Definition to_fill (f : factory_pc) : Z :=
  match f with FEmpty ts | FStore ts | FFill ts => zlen ts | _ => 0 end.
Definition sampling (f : factory_pc) : Z := match f with FSample => 1 | _ => 0 end.
Definition announced (m : main_pc) : Z := match m with MPad => 1 | _ => 0 end.

Context `{!FifoLaws Z}.

Record Budget (s : st) : Prop := {
  bud_dummies : dummies s + in_padding (padding s) + zlen (contents (tsQueue s))
                + to_fill (factory s) <= sampled s;
  bud_sampled : sampled s + Z.max 1 (maxPaddingN s) * sampling (factory s)
                <= Z.max 1 (maxPaddingN s) * starts s;
  bud_starts : server s = false -> 
    match main s with MGate (GStarted | GOver) => False | _ => True end
    /\ starts s + announced (main s) <= count is_start (queued (chans s));
  bud_handler : server s = false -> handler s = HIdle
}.

(** What a step does to the counts: nothing, or one packet is queued. *)
Lemma dummies_enqueue p x x' :
  enqueue p x = Some x' ->
  count is_dummy (queued x') = count is_dummy (queued x) + (if is_dummy p then 1 else 0)
  /\ count is_start (queued x') = count is_start (queued x) + (if is_start p then 1 else 0).
Proof. intros ->%io_enqueue_Some. cbn. by rewrite !count_app, !count_one. Qed.

Ltac budget :=
  split; cbn in *; try done; try (intros; split_and!); try lia;
  repeat match goal with
         | H : server ?s = _ -> _, E : server ?s = _ |- _ => specialize (H E)
         end; try tauto; try lia.

Lemma main_step_Budget s s' : Inv s -> Budget s -> main_step s = Some s' -> Budget s'.
Proof.
  intros [_ Hm _] [Hd Hs Hc Hh]. unfold main_step, dummies in *.
  destruct (main s) eqn:Em; cbn [main_ok] in *; try done.
  - destruct (take_err _) as [[e x]|] eqn:E; intros [= <-]; [|budget].
    unfold take_err in E. destruct (errChan _); [done|]. injection E as <- <-. budget.
  - destruct (gate_step _ _ _ _) as [[[g' c] x]|] eqn:E; cbn; [|done]. intros [= <-].
    apply gate_step_cases in E as [[Hg ->]|(-> & -> & -> & E)].
    + split; cbn; try done. intros Hsv. destruct (Hc Hsv). by destruct g'.
    + apply dummies_enqueue in E as [E1 E2]. cbn in E1, E2.
      split; unfold dummies; cbn; try lia; try done. intros Hsv. destruct (Hc Hsv). cbn in *. lia.
  - destruct (_ =? 0); intros [= <-]; budget.
  - destruct (send _ s) as [s1|] eqn:E; cbn; [|done]. intros [= <-].
    apply send_Some in E as (x & E & ->). apply dummies_enqueue in E as [E1 E2]. cbn in E1, E2.
    split; unfold dummies; cbn; try lia; try done. intros Hsv. destruct (Hc Hsv). cbn in *. lia.
  - intros [= <-]. budget.
Qed.

Lemma drain_Budget f1 f2 s :
  Budget s -> to_fill f1 = to_fill (factory s) -> to_fill f2 = to_fill (factory s) ->
  sampling f1 = 0 -> sampling f2 = 0 -> sampling (factory s) = 0 -> Budget (drain f1 f2 s).
Proof.
  intros [Hd Hs Hc Hh] E1 E2 E3 E4 E5. unfold drain, dummies in *. destruct (0 <? _).
  - pose proof (Dequeue_spec (tsQueue s)) as Hq. destruct (Dequeue _) as [[t q]|].
    + destruct Hq as [Hq _]. rewrite Hq, zlen_cons in Hd. split; unfold dummies; cbn; lia || done.
    + split; unfold dummies; cbn; lia || done.
  - split; unfold dummies; cbn; lia || done.
Qed.

Lemma factory_step_Budget s s' : Budget s -> factory_step s = Some s' -> Budget s'.
Proof.
  intros Hb. pose proof Hb as [Hd Hs Hc Hh]. unfold factory_step.
  destruct (factory s) as [| |ts|ts|[|t ts]| | |] eqn:Ef; try done.
  - intros [= <-]. apply drain_Budget; rewrite ?Ef; done.
  - intros [= <-]. unfold dummies in *. budget.
  - intros [= <-]. unfold dummies in *. budget.
  - pose proof (Enqueue_spec t (tsQueue s)) as Hq. destruct (Enqueue _ _) as [q|]; intros [= <-].
    + destruct Hq as (_ & Hq & _). cbn in Hd. rewrite zlen_cons in Hd.
      split; unfold dummies in *; cbn; rewrite ?Hq, ?zlen_app, ?zlen_cons, ?(zlen_nil (A := Z)); lia || done.
    + split; unfold dummies in *; cbn in *; rewrite ?zlen_cons in Hd; zlia || done.
  - destruct (fail _ s) as [s1|] eqn:E; cbn; [|done]. intros [= <-].
    apply fail_Some in E as (x & E%report_Some & ->). subst x. unfold dummies in *. budget.
  - intros [= <-]. apply drain_Budget; rewrite ?Ef; done.
Qed.

Lemma padding_step_Budget s s' : Budget s -> padding_step s = Some s' -> Budget s'.
Proof.
  intros [Hd Hs Hc Hh]. unfold padding_step, dummies in *. destruct (padding s) eqn:Ep; try done.
  - intros [= <-]. split; unfold dummies; cbn in *; try done. by destruct (bool_decide _).
  - intros [= <-]. split; unfold dummies; cbn in *; try done. by destruct (_ =? _).
  - pose proof (Dequeue_spec (tsQueue s)) as Hq. destruct (Dequeue _) as [[t q]|]; [|done].
    destruct Hq as [Hq _]. cbn. intros [= <-]. rewrite Hq, zlen_cons in Hd.
    split; unfold dummies; cbn in *; lia || done.
  - destruct (send _ s) as [s1|] eqn:E; cbn; [|done]. intros [= <-].
    apply send_Some in E as (x & E & ->). apply dummies_enqueue in E as [E1 E2]. cbn in E1, E2.
    split; unfold dummies; cbn in *; try lia; try done. intros Hsv. destruct (Hc Hsv). split; [done|lia].
  - destruct (fail _ s) as [s1|] eqn:E; cbn; [|done]. intros [= <-].
    apply fail_Some in E as (x & E%report_Some & ->). subst x. budget.
Qed.

Lemma pad_chan_Budget w s s' : Inv s -> Budget s -> pad_chan w s = Some s' -> Budget s'.
Proof.
  intros [_ Hm _] [Hd Hs Hc Hh]. unfold pad_chan, dummies in *.
  destruct (factory s) eqn:Ef, w; cbn; try done.
  - destruct (main s) eqn:Em; try done. intros [= <-]. cbn in *.
    split; unfold dummies; cbn; try lia; try done. intros Hsv. destruct (Hc Hsv). split; [done|lia].
  - destruct (ticker s) eqn:Et; try done. intros [= <-]. budget.
  - destruct (handler s) as [|b|] eqn:Eh; try done. 
    destruct b; intros [= <-]; cbn in *; split; unfold dummies; cbn; try lia; try done;
      intros Hsv; specialize (Hh Hsv); done.
Qed.

Lemma exec_Budget ev s s' : Inv s -> Budget s -> exec ev s = Some s' -> Budget s'.
Proof.
  intros Hi Hb. pose proof Hb as [Hd Hs Hc Hh].
  destruct ev; cbn [exec];
    try solve [by apply main_step_Budget | by apply factory_step_Budget | by apply padding_step_Budget
              | by apply pad_chan_Budget]; unfold dummies in *.
  - destruct (main s) eqn:Em; try done. destruct (_ >? _); [done|].
    destruct (_ =? 0); intros [= <-]; [budget|]. split; unfold dummies; cbn in *; try done.
    intros Hsv. rewrite Hsv. destruct (Hc Hsv). by split.
  - destruct (main s) eqn:Em; try done. intros [= <-]. budget.
  - destruct (ticker_step _ _ _ _) as [[[t c] x]|] eqn:E; cbn; [|done]. intros [= <-].
    apply ticker_step_io in E as [->|[_ E]]; [budget|]. apply dummies_enqueue in E as [E1 E2].
    cbn in E1, E2. split; unfold dummies; cbn in *; rewrite ?E1, ?E2, ?Z.add_0_r; done.
  - destruct (handler s) eqn:Eh; try done. intros [= <-]. budget.
  - destruct (send_step _ _ _) as [x|] eqn:E; cbn; [|done]. intros [= <-].
    destruct (send_step_queued _ _ _ _ E) as [Eq _].
    split; unfold dummies; cbn; rewrite ?Eq; done.
  - destruct (ticker s) eqn:Et; try done. intros [= <-]. budget.
  - destruct (factory s) eqn:Ef; try done. destruct (sample_ok _ _) eqn:Eo; [|done].
    intros [= <-]. unfold sample_ok in Eo. b2p. cbn in *. split; unfold dummies; cbn; try lia; done.
  - destruct (padding s); try done. intros [= <-]. budget.
  - destruct (padding s); try done. intros [= <-]. budget.
  - destruct (padding s); try done. intros [= <-]. budget.
  - destruct (closed s); [|done]. intros [= <-]. split; unfold dummies; cbn; try done.
    + by destruct (padding s), (factory s).
    + by destruct (factory s).
  - destruct (handler s) eqn:Eh; try done. intros [= <-]. budget.
  - destruct (handler s) eqn:Eh; try done. destruct (server s) eqn:Es; [|done].
    intros [= <-]. destruct (decide _); [done|]. split; unfold dummies; cbn; try done; by rewrite Es.
Qed.

(** C12: the padding budget of FRONT: whatever the interleaving and the samples,
    the dummies queued so far, with those still in the queue of timestamps and
    in the padding routine, are at most [N] per start of the factory; and on a
    client a start of the factory follows a [SignalStart], so that they are at
    most [N] per [SignalStart] queued. *)
Theorem front_budget b n1 n2 x s :
  0 <= n1 -> 0 <= n2 -> rtc step (init b n1 n2 x) s ->
  let n := Z.max 1 (if b then n1 else n2) in
  dummies s + in_padding (padding s) + zlen (contents (tsQueue s)) <= n * starts s
  /\ (b = false -> dummies s <= n * count is_start (queued (chans s))).
Proof.
  intros H1 H2 Hr n. destruct (front_reachable _ _ _ _ _ Hr) as (_ & Hb & Hn).
  assert (Hbud : Budget s).
  { revert Hr. apply (does_invariant exec (fun s => Inv s /\ Budget s)).
    - intros ev s1 s2 [Hi Hbu] E. split; [by eapply front_exec_Inv|by eapply exec_Budget].
    - split; [apply front_init_Inv|]. destruct (New_empty (if b then n1 else n2)) as [E _]; [by destruct b|].
      split; unfold dummies, init; cbn; rewrite ?E; cbn; try done; lia. }
  destruct Hbud as [Hd Hs Hc _]. rewrite Hn in Hs. fold n in Hs.
  assert (0 <= to_fill (factory s)) by (destruct (factory s); cbn; zlia).
  assert (0 <= n * sampling (factory s)) by (destruct (factory s); cbn; lia).
  split; [lia|]. intros ->. destruct (Hc Hb) as [_ Hst].
  assert (0 <= in_padding (padding s)) by by destruct (padding s).
  assert (0 <= announced (main s)) by by destruct (main s).
  pose proof (zlen_nonneg (contents (tsQueue s))). nia.
Qed.

(** ** After a stop *)

Definition awake (p : padding_pc) : Z := match p with PLen | PWait | PSleep _ | PSend => 1 | _ => 0 end.

(** Only the padding routine queues dummies, and only when it is awake. *)
Lemma main_step_dummies s s' :
  main_step s = Some s' -> dummies s' = dummies s /\ padding s' = padding s.
Proof.
  unfold main_step, dummies. intros E. destruct (main s) eqn:Em; try done.
  - destruct (take_err _) as [[e x]|] eqn:Ee; injection E as <-; [|done].
    unfold take_err in Ee. destruct (errChan _); [done|]. by injection Ee as <- <-.
  - destruct (gate_step _ _ _ _) as [[[g' c] x]|] eqn:Eg; cbn in E; [|done]. injection E as <-.
    apply gate_step_cases in Eg as [[_ ->]|(_ & _ & _ & Ee)]; [done|].
    apply dummies_enqueue in Ee as [E1 _]. cbn in *. split; [lia|done].
  - destruct (_ =? 0); by injection E as <-.
  - destruct (send _ s) as [s1|] eqn:Es; cbn in E; [|done]. injection E as <-.
    apply send_Some in Es as (x & Es & ->). apply dummies_enqueue in Es as [E1 _].
    cbn in *. split; [lia|done].
  - by injection E as <-.
Qed.

Lemma stopped_step ev s s' :
  exec ev s = Some s' -> load (shd s) = StateStop ->
  dummies s' + awake (padding s') <= dummies s + awake (padding s).
Proof.
  intros E Hl. destruct ev; cbn [exec] in E.
  3: { apply main_step_dummies in E as [-> ->]. lia. }
  3: { unfold factory_step, drain, fail in E. step_cases E; subst;
         repeat match goal with H : report _ _ = Some _ |- _ => apply report_Some in H as -> end;
         unfold dummies; cbn; lia. }
  3: { unfold padding_step in E. destruct (padding s) eqn:Ep; try done.
       - rewrite bool_decide_eq_true_2 in E by done. injection E as <-. unfold dummies. cbn. lia.
       - injection E as <-. unfold dummies. destruct (_ =? _); cbn; lia.
       - destruct (Dequeue _) as [[t q]|]; [|done]. injection E as <-. unfold dummies. cbn. lia.
       - destruct (send _ s) as [s1|] eqn:Es; cbn in E; [|done]. injection E as <-.
         apply send_Some in Es as (x & Es & ->). apply dummies_enqueue in Es as [E1 _].
         unfold dummies. cbn in *. lia.
       - destruct (fail _ s) as [s1|] eqn:Es; cbn in E; [|done]. injection E as <-.
         apply fail_Some in Es as (x & Es%report_Some & ->). subst x. unfold dummies. cbn. lia. }
  3: { destruct (ticker_step _ _ _ _) as [[[t c] x]|] eqn:Et; cbn in E; [|done]. injection E as <-.
       unfold dummies. apply ticker_step_io in Et as [->|[_ Et]]; cbn; [lia|].
       apply dummies_enqueue in Et as [E1 _]. cbn in E1. lia. }
  4: { destruct (send_step _ _ _) as [x|] eqn:Es; cbn in E; [|done]. injection E as <-.
       apply send_step_queued in Es as [Es _]. unfold dummies. cbn. rewrite Es. lia. }
  all: unfold pad_chan in E; step_cases E; subst; unfold dummies; cbn; try lia;
    try (repeat case_match; simplify_eq; cbn; lia).
Qed.

(** C13: the end of FRONT's padding: as long as the connection is in [StateStop],
    whatever else happens, at most one more dummy is queued, the one the
    padding routine had begun with, and none if it had not. *)
Theorem front_stop s s' :
  rtc (fun s1 s2 => load (shd s1) = StateStop /\ step s1 s2) s s' ->
  dummies s' <= dummies s + awake (padding s).
Proof.
  intros Hr.
  assert (H1 : dummies s' + awake (padding s') <= dummies s + awake (padding s)).
  { induction Hr as [|s s1 s2 [Hl [ev E]] _ IH]; [lia|].
    pose proof (stopped_step _ _ _ E Hl). lia. }
  assert (0 <= awake (padding s')) by by destruct (padding s'). lia.
Qed.
End machine.

(** ** The wire *)

Section wire.
Context `{SipHashLaws} `{SecretBoxLaws} `{FifoLaws Z}.

(** The handler does to the connection what [transports/defconn] does. *)
Lemma handle_proj fuel t p r a :
  (handle fuel t p r a).1 = (DefConn.handle fuel t p r (conn a)).1
  /\ conn (handle fuel t p r a).2 = (DefConn.handle fuel t p r (conn a)).2.
Proof.
  unfold handle, DefConn.handle. destruct (t =? _); [by destruct (0 <? _)|].
  destruct (t =? _); [by destruct (handle_seed _ _ _)|].
  destruct (t =? _); [by destruct (negb _); repeat case_decide|].
  destruct (t =? _); [by destruct (negb _); repeat case_decide|done].
Qed.

(** What a list of packets makes the handler of a server in state [d] tell the
    padding factory: one value per change of the state. *)
Fixpoint changes (d : cstate) (ps : list Packet.packet) : list bool :=
  match ps with
  | [] => []
  | p :: ps =>
      let d' := signal_of d p in
      (if decide (d = d') then [] else [bool_decide (d' = StateStart)]) ++ changes d' ps
  end.

Lemma handle_changes fuel p r a :
  any_cell (negb (IsServer (conn a))) p ->
  let a' := (handle fuel (Packet.pktType p) (Packet.data p) r a).2 in
  paddingChan a' = paddingChan a ++ changes (curState (ConnState (conn a))) [p]
  /\ curState (ConnState (conn a')) = signal_of (curState (ConnState (conn a))) p.
Proof.
  intros (_ & _ & Ht). unfold handle, changes, signal_of.
  destruct Ht as [Ht|(_ & [Ht|[Hs [Ht|Ht]]])]; rewrite Ht; cbn.
  - destruct (0 <? _); cbn; by rewrite decide_True, app_nil_r.
  - by rewrite decide_True, app_nil_r.
  - destruct (IsServer (conn a)); [|done]. cbn.
    by repeat case_decide; cbn; rewrite ?app_nil_r.
  - destruct (IsServer (conn a)); [|done]. cbn.
    by repeat case_decide; cbn; rewrite ?app_nil_r.
Qed.

Lemma deliver_changes fuel ps : forall a r a',
  Forall (any_cell (negb (IsServer (conn a)))) ps ->
  Packet.deliver (handle fuel) ps (Ok tt) a = (r, a') ->
  paddingChan a' = paddingChan a ++ changes (curState (ConnState (conn a))) ps.
Proof.
  induction ps as [|p ps IH]; intros a r a' Hc; cbn [Packet.deliver changes].
  { intros [= _ <-]. by rewrite app_nil_r. }
  apply Forall_cons in Hc as [Hp Hc].
  set (z := zrepeat (Packet.padLen p) Byte.x00).
  destruct (handle_changes fuel p z a Hp) as [Ec Es].
  destruct (handle_proj fuel (Packet.pktType p) (Packet.data p) z a) as [E1 E2].
  destruct (Cells.tam_handle_cell fuel p z (conn a) Hp) as (c & Eh & R).
  rewrite Eh in E1, E2. destruct (handle _ _ _ _ a) as [o a1]. cbn in *. subst o.
  intros E. apply IH in E; [|rewrite E2, (rcv_role _ _ _ R); done].
  rewrite E, Ec, Es, <- app_assoc, app_nil_r. done.
Qed.

(** C11: end to end under FRONT: for every interleaving at the sender and every
    way the network cuts the bytes, the wire image is 557 bytes per packet
    whatever the packets are, the peer appends to its stream exactly the payload
    on the wire, a prefix of what the sender read, and never panics; dummies
    leave no trace; and a server's padding factory is told exactly the changes
    of state that the client's signals make. *)
Theorem front_peer_receives full fuel b n1 n2 x s t e d w e' chunks a :
  rtc (step full) (init b n1 n2 x) s -> IsServer (conn a) = negb b ->
  Framing.synced e d ->
  Packet.makePackets MaxPacketPayloadLength (wire (chans s)) e = (Ok w, e') -> concat chunks = w ->
  let out := Packet.readAll (handle fuel) chunks (Packet.mkConn (Framing.mkD d [] t) a) in
  zlen w = 557 * zlen (wire (chans s))
  /\ received (wire (chans s)) (conn a) (conn (Packet.app out.2))
  /\ paddingChan (Packet.app out.2)
     = paddingChan a ++ changes (curState (ConnState (conn a))) (wire (chans s))
  /\ (exists rest, upstream (chans s) = payload_of (wire (chans s)) ++ rest)
  /\ Forall (fun r => is_panic r = false) out.1.
Proof.
  intros Hr Hb Hs Hm Hc out. apply front_reachable in Hr as ([Hio _ _] & Hsv & _).
  rewrite Hsv in Hio. destruct (IoInv_wire _ _ _ _ Hio) as (Hup & _ & Hcells).
  assert (Hcells' : Forall (any_cell (negb (IsServer (conn a)))) (wire (chans s)))
    by (by rewrite Hb, negb_involutive).
  destruct (Cells.tam_deliver_cells fuel _ (conn a) Hcells') as (a' & Hd & Hrec).
  destruct (deliver_proj (handle fuel) conn fuel (handle_proj fuel) (wire (chans s)) (Ok tt) a)
    as [D1 D2]. rewrite Hd in D1, D2. cbn in D1, D2.
  assert (Hok : Forall (Packet.packet_ok MaxPacketPayloadLength) (wire (chans s)))
    by (eapply Forall_impl; [exact Hcells|]; by intros p []).
  destruct (Packet.stream_delivery (handle fuel) _ cell_payload_fits t _ e d a w e' chunks
    Hs Hok Hm Hc) as (Ha & Hp & _); [by rewrite D1|].
  split_and!; [|by unfold out; rewrite Ha, D2| |done..].
  - eapply Packet.makePackets_zlen in Hm; [exact Hm|apply cell_payload_fits|exact Hok|].
    eapply Forall_impl; [exact Hcells|]. by intros p (_ & ? & _).
  - unfold out. rewrite Ha. eapply deliver_changes; [exact Hcells'|]. by apply surjective_pairing.
Qed.
End wire.
End Front.

(** ** Witnesses *)

Section witnesses.
Import ToySip ToyBox DefConn Cells Front.

Definition w_full : Packet.error := Packet.NetError (Packet.NetFailure "full queue").
(** A client with a budget of two reads 540 bytes, starts, samples two
    timestamps and sends a dummy. *)
Definition w_data : bytes := zrepeat 540 Byte.x61.
Definition w_evs : list event :=
  [EvMain; EvRead w_data; EvMain; EvMain; EvMain; EvPadChan ByMain] ++ replicate 7 EvMain
  ++ [EvSample [5; 7]] ++ replicate 5 EvFactory ++ [EvPadding; EvPadding; EvPadding; EvWake; EvPadding]
  ++ replicate 4 (EvSend SndWrite).
Definition w_s0 : st := init false 3 2 NewState.
Definition w_s : st := Eval vm_compute in default w_s0 (runs (exec w_full) w_evs w_s0).
Lemma front_w_reach : rtc (step w_full) w_s0 w_s.
Proof. apply (runs_rtc _ w_evs). vm_compute. reflexivity. Qed.

Lemma front_zero_delay_witness :
  map Packet.pktType (queued (chans w_s))
  = [PacketTypeSignalStart; PacketTypePayload; PacketTypePayload; PacketTypeDummy]
  /\ upstream (chans w_s) = payload_of (queued (chans w_s)).
Proof.
  split; [reflexivity|].
  apply (proj1 (proj2 (front_zero_delay w_full false 3 2 NewState w_s front_w_reach))). by left.
Defined.

Lemma front_budget_witness :
  dummies w_s = 1 /\ dummies w_s <= 2 * count is_start (queued (chans w_s)).
Proof.
  split; [reflexivity|].
  exact (proj2 (front_budget w_full false 3 2 NewState w_s ltac:(lia) ltac:(lia) front_w_reach) eq_refl).
Defined.

(** The ticker stops the defense while the padding routine sleeps. *)
Definition w_t : st := Eval vm_compute in
  default w_s0 (runs (exec w_full) ([EvPadding; EvPadding; EvPadding; EvTick] ++ replicate 4 EvTicker) w_s).
Definition w_t' : st := Eval vm_compute in
  default w_s0 (runs (exec w_full) [EvWake; EvPadding; EvPadding] w_t).
Lemma front_stop_witness :
  load (shd w_t) = StateStop /\ dummies w_t' = dummies w_t + 1
  /\ dummies w_t' <= dummies w_t + awake (padding w_t).
Proof.
  split_and!; [reflexivity..|]. apply (front_stop w_full).
  assert (H1 : exists s1, exec w_full EvWake w_t = Some s1 /\ load (shd s1) = StateStop
               /\ exists s2, exec w_full EvPadding s1 = Some s2 /\ load (shd s2) = StateStop
               /\ exec w_full EvPadding s2 = Some w_t').
  { eexists. split; [vm_compute; reflexivity|]. split; [reflexivity|].
    eexists. split; [vm_compute; reflexivity|]. split; [reflexivity|vm_compute; reflexivity]. }
  destruct H1 as (s1 & E1 & L1 & s2 & E2 & L2 & E3).
  eapply rtc_l; [split; [reflexivity|by exists EvWake]|].
  eapply rtc_l; [split; [exact L1|by exists EvPadding]|].
  eapply rtc_l; [split; [exact L2|by exists EvPadding]|]. apply rtc_refl.
Defined.

Definition w_out : result Packet.error bytes * Framing.Encoder := Eval vm_compute in
  Packet.makePackets MaxPacketPayloadLength (wire (chans w_s)) toy_enc.
Definition w_wire : bytes := Eval vm_compute in match w_out.1 with Ok w => w | _ => [] end.
Definition w_ld : ProbDist.WeightedDist := ProbDist.mkWDist 0 3 false [] [] [] [].
Definition w_app : app := mkApp (DefConn.mkApp true w_ld NewState 0 (str "before ")) [].
Definition w_chunks : list bytes := [ztake 700 w_wire; zdrop 700 w_wire].

Lemma front_peer_receives_witness :
  let out := Packet.readAll (handle 9) w_chunks (Packet.mkConn (Framing.mkD toy_dec [] []) w_app) in
  ReceiveDecodedBuffer (conn (Packet.app out.2)) = str "before " ++ w_data
  /\ paddingChan (Packet.app out.2) = [true]
  /\ zlen w_wire = 557 * 4
  /\ received (wire (chans w_s)) (conn w_app) (conn (Packet.app out.2)).
Proof.
  intros out. split_and!; [vm_compute; reflexivity..|].
  assert (Hs : Framing.synced toy_enc toy_dec) by (split_and!; reflexivity).
  assert (E : Packet.makePackets MaxPacketPayloadLength (wire (chans w_s)) toy_enc
              = (Ok w_wire, w_out.2)) by (vm_compute; reflexivity).
  assert (Hc : concat w_chunks = w_wire) by (vm_compute; reflexivity).
  exact (proj1 (proj2 (front_peer_receives w_full 9 false 3 2 NewState w_s [] toy_enc toy_dec
    w_wire w_out.2 w_chunks w_app front_w_reach eq_refl Hs E Hc))).
Defined.
End witnesses.
