(* ===== verification/Wfgan.v ===== *)
(** * The WF-GAN defense: [transports/wfgan]

    The packet handler ([packet.go]) and the goroutines of [ReadFromClient] and
    [ReadFromServer] ([wfgan.go]).  A client that defends itself sends bursts
    whose sizes come from a queue that a gRPC service fills, each followed by a
    [Finish] packet with the size of the answer it wants; the server answers
    each with a burst.  The service, the samplers and the clock are the
    environment's choices, the queue is [Fifo]. *)
From S2P Require Import Prelude GoStd Rand GoFloat Drbg Framing ProbDist Packet DefConn Cells Fifo.

Module Wfgan.
Import GoFloat DefConn Cells.

Definition maxQueueSize : Z := 1000 * 3.
Definition canSend_cap : Z := 100.
Definition refill_cap : Z := 1000.

(** ** [packet.go] *)

(** [canSendChan] holds what the handler sent to the main loop. *)
Record app := mkApp { conn : DefConn.app; randomP : spec_float; canSendChan : list Z }.
Definition set_conn (c : DefConn.app) (a : app) : app := mkApp c (randomP a) (canSendChan a).

(** [ReceiveDecodedBuffer.Write (payload)], not counted. *)
Definition append (p : bytes) (a : DefConn.app) : DefConn.app :=
  DefConn.mkApp (IsServer a) (LenDist a) (ConnState a) (nRealSegRcv a) (ReceiveDecodedBuffer a ++ p).

Section packets.
Context `{SipHash} `{SecretBox} (fuel : nat).
(** [utils.Beta (float64 (conn.p))], as it is sampled next. *)
Context (beta : app -> spec_float).

(** The [switch] of [readPackets]. *)
Definition handle : Packet.handler app := fun pktType payload _ a =>
  if pktType =? PacketTypePayload then
    (Ok tt, if 0 <? zlen payload then
              set_conn (if IsServer (conn a) then append payload (conn a)
                        else receive payload (conn a)) a
            else a)
  else if pktType =? PacketTypePrngSeed then
    let '(r, c) := handle_seed fuel payload (conn a) in (r, set_conn c a)
  else if pktType =? PacketTypeSignalStart then
    if negb (IsServer (conn a)) then (Panic "Client receive SignalStart pkt from server?", a)
    else
      (Ok tt, if decide (curState (ConnState (conn a)) = StateStart) then a
              else mkApp (set_ConnState (SetState StateStart (ConnState (conn a))) (conn a))
                         (beta a) (canSendChan a))
  else if pktType =? PacketTypeSignalStop then
    if negb (IsServer (conn a)) then (Panic "Client receive SignalStop pkt from server?", a)
    else
      (Ok tt, if decide (curState (ConnState (conn a)) = StateStop) then a
              else set_conn (set_ConnState (SetState StateStop (ConnState (conn a))) (conn a)) a)
  else if pktType =? PacketTypeFinish then
    if negb (IsServer (conn a)) then (Panic "Client receive SignalFinish pkt from server?", a)
    else if zlen payload <? 4 then (Panic "index out of range", a)
    else (Ok tt, mkApp (conn a) (randomP a) (canSendChan a ++ [be_decode (ztake 4 payload)]))
  else (Ok tt, a).

Definition readPackets := Packet.readPackets handle.
End packets.

(** ** The size of a burst *)

Section sizes.
(** What Go leaves to the implementation. *)
Context (overflow : spec_float -> Z).

Definition lowerBound (tol : spec_float) (refBurstSize : Z) : Z :=
  Z.max (round_int overflow (f64_mul (f64_of_Z refBurstSize) (widen (f32_sub (f32_of_Z 1) tol)))) 536.
Definition upperBound (tol : spec_float) (refBurstSize : Z) : Z :=
  round_int overflow (f64_mul (f64_of_Z refBurstSize) (widen (f32_add (f32_of_Z 1) tol))).

Definition toSend (tol : spec_float) (refBurstSize bufSize : Z) : Z :=
  let lower := lowerBound tol refBurstSize in
  let upper := upperBound tol refBurstSize in
  if bufSize <? lower then lower else if bufSize <? upper then bufSize else upper.
End sizes.

(** ** The goroutines of [ReadFromClient] and [ReadFromServer] *)

(** What follows a burst in the main loop. *)
Inductive after := ASelect | AFinish (response : Z) | ASleep.

Inductive main_pc :=
| MSelect
| MState                           (* client: load: StateStart? *)
| MDequeue                         (* client: DequeueOrWaitForNextElementContext *)
| MDecide (n : Z)                  (* server: Bernoulli, GetLen () == 0? *)
| MIpt (n : Z)                     (* server: SleepRho before a burst *)
| BBounds (n : Z) (k : after)      (* sendRefBurst: GetLen () against the bounds *)
| BLoop (toSend : Z) (k : after)   (* the condition of its loop *)
| BRead (toSend : Z) (k : after)   (* receiveBuf.Read *)
| BInc (p : bytes) (toSend : Z) (k : after)
| BSend (p : bytes) (toSend : Z) (k : after)
| RLen (k : after)                 (* sendRealBurst: GetLen () > 0? *)
| RRead (k : after) | RSend (p : bytes) (k : after) | RInc (k : after)
| MFinish (response : Z)           (* SendChan <- Finish *)
| MSleep                           (* client: a sleep *)
| MDone (err : Packet.error).

(** The goroutine that reads upstream. *)
Inductive reader_pc :=
| URead | UWrite (d : bytes) | UGate (g : gate_pc) | UReport (e : Packet.error) | UDone.

(** A server's on/off detector and a client's queue keeper. *)
Inductive detector_pc := DLoad | DSend | DDone.
Inductive keeper_pc :=
| KSelect | KQuery | KFill (packets : list Z) | KRefill | KReport (e : Packet.error)
| KDone | KPanic.

(** A server's [Read], when a [Finish] has to go to [canSendChan]. *)
Inductive handler_pc := HIdle | HFinish (n : Z).

Section machine.
Context `{Fifo (Z * Z)} (overflow : spec_float -> Z).

Record st := mkSt {
  server : bool;
  tol : spec_float;
  shd : shared;
  chans : io Packet.packet;
  receiveBuf : bytes;
  written : Z; writtenTmp : Z;
  canSend : list Z;
  burstQueue : fifo (Z * Z);
  refillChan : Z;
  main : main_pc; reader : reader_pc; detector : detector_pc; keeper : keeper_pc;
  ticker : ticker_pc; handler : handler_pc;
  (* history: the tuples taken from the queue *)
  taken : list (Z * Z)
}.

Definition init (isServer : bool) (t : spec_float) (s : State) : st :=
  mkSt isServer t (shared_init s) io_init [] 0 0 [] (NewFixedFIFO maxQueueSize) 0
       MSelect URead DLoad KSelect TWait HIdle [].

Definition set_main m s := mkSt (server s) (tol s) (shd s) (chans s) (receiveBuf s) (written s)
  (writtenTmp s) (canSend s) (burstQueue s) (refillChan s) m (reader s) (detector s) (keeper s)
  (ticker s) (handler s) (taken s).
Definition set_reader r s := mkSt (server s) (tol s) (shd s) (chans s) (receiveBuf s) (written s)
  (writtenTmp s) (canSend s) (burstQueue s) (refillChan s) (main s) r (detector s) (keeper s)
  (ticker s) (handler s) (taken s).
Definition set_detector d s := mkSt (server s) (tol s) (shd s) (chans s) (receiveBuf s) (written s)
  (writtenTmp s) (canSend s) (burstQueue s) (refillChan s) (main s) (reader s) d (keeper s)
  (ticker s) (handler s) (taken s).
Definition set_keeper k s := mkSt (server s) (tol s) (shd s) (chans s) (receiveBuf s) (written s)
  (writtenTmp s) (canSend s) (burstQueue s) (refillChan s) (main s) (reader s) (detector s) k
  (ticker s) (handler s) (taken s).
Definition set_ticker t s := mkSt (server s) (tol s) (shd s) (chans s) (receiveBuf s) (written s)
  (writtenTmp s) (canSend s) (burstQueue s) (refillChan s) (main s) (reader s) (detector s)
  (keeper s) t (handler s) (taken s).
Definition set_handler h s := mkSt (server s) (tol s) (shd s) (chans s) (receiveBuf s) (written s)
  (writtenTmp s) (canSend s) (burstQueue s) (refillChan s) (main s) (reader s) (detector s)
  (keeper s) (ticker s) h (taken s).
Definition set_shd c s := mkSt (server s) (tol s) c (chans s) (receiveBuf s) (written s)
  (writtenTmp s) (canSend s) (burstQueue s) (refillChan s) (main s) (reader s) (detector s)
  (keeper s) (ticker s) (handler s) (taken s).
Definition set_chans x s := mkSt (server s) (tol s) (shd s) x (receiveBuf s) (written s)
  (writtenTmp s) (canSend s) (burstQueue s) (refillChan s) (main s) (reader s) (detector s)
  (keeper s) (ticker s) (handler s) (taken s).
Definition set_buf b w t s := mkSt (server s) (tol s) (shd s) (chans s) b w
  t (canSend s) (burstQueue s) (refillChan s) (main s) (reader s) (detector s)
  (keeper s) (ticker s) (handler s) (taken s).
Definition set_canSend l s := mkSt (server s) (tol s) (shd s) (chans s) (receiveBuf s) (written s)
  (writtenTmp s) l (burstQueue s) (refillChan s) (main s) (reader s) (detector s)
  (keeper s) (ticker s) (handler s) (taken s).
Definition set_queue q n s := mkSt (server s) (tol s) (shd s) (chans s) (receiveBuf s) (written s)
  (writtenTmp s) (canSend s) q n (main s) (reader s) (detector s)
  (keeper s) (ticker s) (handler s) (taken s).
Definition set_taken l s := mkSt (server s) (tol s) (shd s) (chans s) (receiveBuf s) (written s)
  (writtenTmp s) (canSend s) (burstQueue s) (refillChan s) (main s) (reader s) (detector s)
  (keeper s) (ticker s) (handler s) l.

Definition send (p : Packet.packet) (s : st) : option st :=
  x ← enqueue p (chans s); Some (set_chans x s).
Definition fail (e : Packet.error) (s : st) : option st :=
  x ← report e (chans s); Some (set_chans x s).
(** [canSendChan <- n]. *)
Definition can_send (n : Z) (s : st) : option st :=
  if zlen (canSend s) <? canSend_cap then Some (set_canSend (canSend s ++ [n]) s) else None.

Definition start_signal : Packet.packet := cell PacketTypeSignalStart [].
Definition stop_signal : Packet.packet := cell PacketTypeSignalStop [].
Definition finish (responseSize : Z) : Packet.packet :=
  cell PacketTypeFinish (be_encode 4 (u32 responseSize)).

(** [written += writtenTmp], behind a burst. *)
Definition burst_over (k : after) (s : st) : st :=
  set_main (match k with ASelect => MSelect | AFinish r => MFinish r | ASleep => MSleep end)
    (set_buf (receiveBuf s) (written s + writtenTmp s) 0 s).

(** [receiveBuf.Read (payload [:])], counted in [writtenTmp]. *)
Definition take_cell (s : st) : bytes * st :=
  let p := ztake MaxPacketPayloadLength (receiveBuf s) in
  (p, set_buf (zdrop MaxPacketPayloadLength (receiveBuf s)) (written s) (writtenTmp s + zlen p) s).

Inductive event :=
| EvRead (data : bytes) | EvReadErr (e : Packet.error)    (* [r.Read] returns *)
| EvMain | EvReader | EvDetector | EvKeeper | EvTicker | EvHandler
| EvSend (ev : send_event)
| EvTick
| EvCanSend                          (* the server's [select] takes [canSendChan] *)
| EvBernoulli (skip : bool)          (* the sampler returns *)
| EvWake                             (* a sleep of the main loop ends *)
| EvTimeout                          (* the wait on the queue ends *)
| EvDialErr (e : Packet.error) | EvResponse (packets : list Z) | EvQueryErr   (* gRPC *)
| EvExit                             (* the others see CloseChan closed *)
| EvRecv                             (* a client's [readPackets] counts a payload packet *)
| EvSignal (start : bool) | EvFinish (n : Z).             (* a server's [readPackets] *)

Definition main_step (s : st) : option st :=
  match main s with
  | MSelect =>
      match take_err (chans s) with
      | Some (e, x) => Some (set_main (MDone e) (set_chans x s))
      | None => if server s then None else Some (set_main MState s)
      end
  | MState =>
      Some (set_main (if bool_decide (load (shd s) = StateStart) then MDequeue else RLen ASleep) s)
  | MDequeue =>
      '((request, response), q) ← Dequeue (burstQueue s);
      Some (set_main (BBounds (u32 request) (AFinish response))
              (set_taken (taken s ++ [(request, response)]) (set_queue q (refillChan s) s)))
  | BBounds n k => Some (set_main (BLoop (toSend overflow (tol s) n (zlen (receiveBuf s))) k) s)
  | BLoop m k =>
      Some (if m >=? MaxPacketPayloadLength then set_main (BRead m k) s else burst_over k s)
  | BRead m k =>
      let '(p, s) := take_cell s in
      Some (set_main (if (0 <? zlen p) && negb (server s) then BInc p m k else BSend p m k) s)
  | BInc p m k => Some (set_main (BSend p m k) (set_shd (inc_sent (shd s)) s))
  | BSend p m k =>
      set_main (BLoop (m - MaxPacketPayloadLength) k)
        <$> send (cell (if 0 <? zlen p then PacketTypePayload else PacketTypeDummy) p) s
  | RLen k => Some (if 0 <? zlen (receiveBuf s) then set_main (RRead k) s else burst_over k s)
  | RRead k =>
      let eof := zlen (receiveBuf s) =? 0 in
      let '(p, s) := take_cell s in
      Some (if eof then set_main (MDone (Packet.NetError Packet.EOF)) (burst_over k s)
            else set_main (RSend p k) s)
  | RSend p k =>
      set_main (if server s then RLen k else RInc k) <$> send (cell PacketTypePayload p) s
  | RInc k => Some (set_main (RLen k) (set_shd (inc_sent (shd s)) s))
  | MFinish r => set_main MSleep <$> send (finish r) s
  | MDecide _ | MIpt _ | MSleep | MDone _ => None
  end.

Definition reader_step (s : st) : option st :=
  match reader s with
  | UWrite d =>
      Some (set_reader (if server s then URead else UGate (GLoad1 (zlen d)))
              (set_buf (receiveBuf s ++ d) (written s) (writtenTmp s) s))
  | UGate g =>
      '(g, c, x) ← gate_step start_signal g (shd s) (chans s);
      Some (set_reader (match g with GStarted | GOver => URead | _ => UGate g end)
                       (set_shd c (set_chans x s)))
  | UReport e => set_reader UDone <$> fail e s
  | URead | UDone => None
  end.

Definition detector_step (s : st) : option st :=
  match detector s with
  | DLoad => Some (set_detector (if bool_decide (load (shd s) = StateStop) then DSend else DLoad) s)
  | DSend => set_detector DLoad <$> can_send 0 s
  | DDone => None
  end.

Definition keeper_step (s : st) : option st :=
  match keeper s with
  | KSelect =>
      if 0 <? refillChan s
      then Some (set_keeper KQuery (set_queue (burstQueue s) (refillChan s - 1) s))
      else Some (set_keeper (if GetLen (burstQueue s) * 10 <? maxQueueSize then KRefill else KSelect) s)
  | KRefill =>
      if refillChan s <? refill_cap
      then Some (set_keeper KSelect (set_queue (burstQueue s) (refillChan s + 1) s)) else None
  | KFill (request :: response :: packets) =>
      match Enqueue (request, response) (burstQueue s) with
      | Some q => Some (set_keeper (KFill packets) (set_queue q (refillChan s) s))
      | None => Some (set_keeper KSelect s)
      end
  | KFill _ => Some (set_keeper KSelect s)
  | KReport e => set_keeper KDone <$> fail e s
  | KQuery | KDone | KPanic => None
  end.

Definition closed (s : st) : bool := match main s with MDone _ => true | _ => false end.

(** The gRPC service: [DialContext] and [Query].  When [Query] fails, the
    response is nil and its field is read all the same. *)
Definition grpc (ev : event) (s : st) : option st :=
  match ev, keeper s with
  | EvDialErr e, KQuery => Some (set_keeper (KReport e) s)
  | EvResponse packets, KQuery => Some (set_keeper (KFill packets) s)
  | EvQueryErr, KQuery => Some (set_keeper KPanic s)
  | _, _ => None
  end.

Definition exec_event (ev : event) (s : st) : option st :=
  match ev with
  | EvRead data =>
      match reader s with
      | URead =>
          if zlen data >? 65535 then None
          else if zlen data =? 0 then Some (set_reader (UReport (Packet.NetError Packet.EOF)) s)
          else Some (set_reader (UWrite data) (set_chans (log_read data (chans s)) s))
      | _ => None
      end
  | EvReadErr e => match reader s with URead => Some (set_reader (UReport e) s) | _ => None end
  | EvMain => main_step s
  | EvReader => reader_step s
  | EvDetector => if server s then detector_step s else None
  | EvKeeper => if server s then None else keeper_step s
  | EvTicker =>
      '(t, c, x) ← ticker_step stop_signal (ticker s) (shd s) (chans s);
      Some (set_ticker (match t with TStopped => TResetSent | t => t end) (set_shd c (set_chans x s)))
  | EvHandler =>
      match handler s with
      | HFinish n => set_handler HIdle <$> can_send n s
      | HIdle => None
      end
  | EvSend ev => x ← send_step (closed s) ev (chans s); Some (set_chans x s)
  | EvTick =>
      match ticker s with
      | TWait => if server s then None else Some (set_ticker TLoad s)
      | _ => None
      end
  | EvCanSend =>
      match main s, canSend s with
      | MSelect, n :: ns =>
          Some (set_main (if n =? 0 then RLen ASelect else MDecide n) (set_canSend ns s))
      | _, _ => None
      end
  | EvBernoulli skip =>
      match main s with
      | MDecide n =>
          Some (set_main (if (zlen (receiveBuf s) =? 0) && skip then MSelect else MIpt n) s)
      | _ => None
      end
  | EvWake =>
      match main s with
      | MIpt n => Some (set_main (BBounds n ASelect) s)
      | MSleep => Some (set_main MSelect s)
      | _ => None
      end
  | EvTimeout => match main s with MDequeue => Some (set_main MSelect s) | _ => None end
  | EvDialErr _ | EvResponse _ | EvQueryErr => grpc ev s
  | EvExit =>
      if closed s then
        Some (set_reader (match reader s with URead => UDone | r => r end)
                (set_detector (match detector s with DLoad => DDone | d => d end)
                   (set_keeper (match keeper s with KSelect => KDone | k => k end)
                      (set_ticker (match ticker s with TWait => TDone | t => t end) s))))
      else None
  | EvRecv => if server s then None else Some (set_shd (inc_rcv (shd s)) s)
  | EvSignal b =>
      match handler s with
      | HIdle =>
          let target := if b then StateStart else StateStop in
          if server s then
            Some (if decide (load (shd s) = target) then s else set_shd (set_state target (shd s)) s)
          else None
      | _ => None
      end
  | EvFinish n =>
      match handler s with
      | HIdle => if server s then Some (set_handler (HFinish n) s) else None
      | _ => None
      end
  end.

(** A panic of one goroutine ends the process. *)
Definition crashed (s : st) : bool := match keeper s with KPanic => true | _ => false end.
Definition exec (ev : event) (s : st) : option st := if crashed s then None else exec_event ev s.
Definition step : st -> st -> Prop := does exec.

(** ** Invariants of every interleaving *)

(** A cell of WF-GAN: payload, dummy, or a client's signal or [Finish]. *)
Definition gan_cell (b : bool) (p : Packet.packet) : Prop :=
  any_cell b p
  \/ b = false /\ full_cell p /\ Packet.pktType p = PacketTypeFinish /\ zlen (Packet.data p) = 4.

Definition hand (m : main_pc) : bytes :=
  match m with BInc p _ _ | BSend p _ _ | RSend p _ => p | _ => [] end.
Definition reader_hand (r : reader_pc) : bytes := match r with UWrite d => d | _ => [] end.

(** The answer the client will ask for behind the burst it is in. *)
Definition after_asks (k : after) : list Z := match k with AFinish r => [r] | _ => [] end.
Definition asks (m : main_pc) : list Z :=
  match m with
  | BBounds _ k | BLoop _ k | BRead _ k | BInc _ _ k | BSend _ _ k
  | RLen k | RRead k | RSend _ k | RInc k => after_asks k
  | MFinish r => [r]
  | _ => []
  end.

Definition main_ok (b : bool) (buf : bytes) (m : main_pc) : Prop :=
  (asks m = [] \/ b = false)
  /\ match m with
     | BInc p _ _ | BSend p _ _ | RSend p _ => zlen p <= MaxPacketPayloadLength
     | RRead k => 0 < zlen buf
     | MState | MDequeue => b = false
     | _ => True
     end.
Definition reader_ok (b : bool) (r : reader_pc) : Prop :=
  match r with UGate _ => b = false | _ => True end.

(** The sizes in the [Finish] packets. *)
Definition finish_sizes (ps : list Packet.packet) : list Z :=
  concat (map (fun p => if of_type PacketTypeFinish p then [be_decode (ztake 4 (Packet.data p))] else []) ps).
#[global] Arguments finish_sizes : simpl never.
Lemma finish_sizes_app ps qs : finish_sizes (ps ++ qs) = finish_sizes ps ++ finish_sizes qs.
Proof. unfold finish_sizes. by rewrite map_app, concat_app. Qed.
Lemma finish_sizes_one p :
  finish_sizes [p] = if of_type PacketTypeFinish p then [be_decode (ztake 4 (Packet.data p))] else [].
Proof. apply app_nil_r. Qed.

Record Inv (s : st) : Prop := {
  inv_io : IoInv packet_payload (gan_cell (server s))
             (hand (main s) ++ receiveBuf s ++ reader_hand (reader s)) (chans s);
  inv_main : main_ok (server s) (receiveBuf s) (main s);
  inv_reader : reader_ok (server s) (reader s);
  inv_ticker : ticker_ok (server s) (ticker s);
  inv_finish : finish_sizes (queued (chans s)) ++ map u32 (asks (main s))
               = map u32 (map snd (taken s))
}.

Lemma gan_init_Inv b t x : Inv (init b t x).
Proof. split; [apply IoInv_init|split; [by left|done]|done..]. Qed.

Lemma gan_send_Some p s s' :
  send p s = Some s' -> exists x, enqueue p (chans s) = Some x /\ s' = set_chans x s.
Proof. unfold send. destruct (enqueue _ _) as [x|]; cbn; [|done]. intros [= <-]. eauto. Qed.
Lemma gan_fail_Some e s s' :
  fail e s = Some s' -> exists x, report e (chans s) = Some x /\ s' = set_chans x s.
Proof. unfold fail. destruct (report _ _) as [x|]; cbn; [|done]. intros [= <-]. eauto. Qed.
Lemma can_send_Some n s s' : can_send n s = Some s' -> s' = set_canSend (canSend s ++ [n]) s.
Proof. unfold can_send. destruct (_ <? _); [by intros [= <-]|done]. Qed.

Lemma queued_enqueue (p : Packet.packet) x x' :
  enqueue p x = Some x' -> queued x' = queued x ++ [p].
Proof. by intros ->%io_enqueue_Some. Qed.
Lemma finish_cell r : gan_cell false (finish r).
Proof.
  right. pose proof (zlen_be_encode 4 (u32 r)) as Hl.
  destruct (full_cell_cell PacketTypeFinish (be_encode 4 (u32 r))) as [? ?]; [done|by rewrite Hl|].
  by split_and!.
Qed.
Lemma finish_cell_size r : finish_sizes [finish r] = [u32 r].
Proof.
  rewrite finish_sizes_one. change (of_type _ _) with true. cbn [finish cell Packet.data].
  pose proof (zlen_be_encode 4 (u32 r)) as Hl. rewrite ztake_ge by lia.
  rewrite be_decode_encode. f_equal. unfold u32. apply Z.mod_small.
  change (256 ^ Z.of_nat 4) with (2 ^ 32). apply Z.mod_pos_bound. lia.
Qed.

(** The steps that keep the channel, and those that queue a packet. *)
Lemma Inv_main m s :
  Inv s -> hand m = hand (main s) -> asks m = asks (main s) ->
  main_ok (server s) (receiveBuf s) m -> Inv (set_main m s).
Proof. intros [Hi Hm Hr Ht Hf] E1 E2 Hm'. split; cbn; rewrite ?E1, ?E2; done. Qed.

Lemma Inv_shd c s : Inv s -> Inv (set_shd c s).
Proof. by intros []. Qed.

Lemma Inv_send p m s s1 :
  Inv s -> send p s = Some s1 -> gan_cell (server s) p ->
  packet_payload p ++ hand m = hand (main s) ->
  finish_sizes [p] ++ map u32 (asks m) = map u32 (asks (main s)) ->
  main_ok (server s) (receiveBuf s) m -> Inv (set_main m s1).
Proof.
  intros [Hi Hm Hr Ht Hf] (x & E & ->)%gan_send_Some Hp Eh Ea Hm'. split; cbn; try done.
  - eapply IoInv_enqueue; [exact E|done|]. by rewrite (app_assoc _ (hand m)), Eh.
  - by rewrite (queued_enqueue _ _ _ E), finish_sizes_app, <- app_assoc, Ea.
Qed.

Lemma gan_payload b d : zlen d <= MaxPacketPayloadLength -> gan_cell b (cell PacketTypePayload d).
Proof.
  intros Hd. left. destruct (full_cell_cell PacketTypePayload d) as [? ?]; [done..|].
  by split_and!; [| |left].
Qed.
Lemma gan_no_data b ty :
  ty = PacketTypeDummy \/ b = false /\ (ty = PacketTypeSignalStart \/ ty = PacketTypeSignalStop) ->
  gan_cell b (cell ty []).
Proof. intros Ht. left. split_and!; [destruct Ht as [->|[_ [->| ->]]]; by split_and!|done|]. right. auto. Qed.

(** The end of a burst. *)
Lemma Inv_burst_over k s :
  Inv s -> hand (main s) = [] -> asks (main s) = after_asks k -> Inv (burst_over k s).
Proof.
  intros [Hi [Ha _] Hr Ht Hf] Eh Ea. rewrite Eh in Hi. rewrite Ea in *.
  unfold burst_over. destruct k; split; cbn in *; try done; (split; [|done]); auto.
Qed.

(** Taking a cell from the buffer. *)
Lemma Inv_take_cell m s :
  Inv s -> hand (main s) = [] -> hand m = ztake MaxPacketPayloadLength (receiveBuf s) ->
  asks m = asks (main s) ->
  main_ok (server s) (zdrop MaxPacketPayloadLength (receiveBuf s)) m ->
  Inv (set_main m (take_cell s).2).
Proof.
  intros [Hi Hm Hr Ht Hf] Eh Em Ea Hm'. split; cbn; rewrite ?Em, ?Ea; try done.
  rewrite Eh in Hi. by rewrite (app_assoc (ztake _ _)), ztake_zdrop.
Qed.

Lemma zlen_cell (b : bytes) : zlen (ztake MaxPacketPayloadLength b) <= MaxPacketPayloadLength.
Proof. rewrite zlen_ztake. unfold MaxPacketPayloadLength. lia. Qed.

Context `{!FifoLaws (Z * Z)}.

Lemma gan_main_step_Inv s s' : Inv s -> main_step s = Some s' -> Inv s'.
Proof.
  intros Hi. pose proof Hi as [Hio [Ha Hm] Hr Ht Hf]. unfold main_step.
  destruct (main s) eqn:Em; try done.
  - destruct (take_err _) as [[e x]|] eqn:E.
    + intros [= <-]. split; cbn; try done; [by eapply IoInv_take_err|].
      unfold take_err in E. destruct (errChan _); [done|]. injection E as <- <-. exact Hf.
    + destruct (server s) eqn:Es; [done|]. intros [= <-]. apply Inv_main; rewrite ?Em, ?Es; done.
  - intros [= <-]. cbn in Hm. apply Inv_main; try (by destruct (bool_decide _); rewrite Em).
    + exact Hi.
    + destruct (bool_decide _); (split; [by left|done]).
  - pose proof (Dequeue_spec (burstQueue s)) as _. cbn in Hm.
    destruct (Dequeue _) as [[[req resp] q]|]; cbn; [|done]. intros [= <-].
    split; cbn; try done; [split; [by right|done]|].
    rewrite !map_app. cbn. f_equal. cbn in Hf. by rewrite app_nil_r in Hf.
  - intros [= <-]. apply Inv_main; rewrite ?Em; try done; by split.
  - destruct (_ >=? _); intros [= <-].
    + apply Inv_main; rewrite ?Em; try done; by split.
    + apply Inv_burst_over; by rewrite ?Em.
  - pose proof (zlen_cell (receiveBuf s)) as Hl.
    destruct (take_cell s) as [p s1] eqn:Et. unfold take_cell in Et. injection Et as Ep Es. intros [= <-].
    change s1 with (p, s1).2. rewrite <- Es, <- Ep.
    match goal with |- Inv (set_main ?m _) => change (Inv (set_main m (take_cell s).2)) end.
    apply Inv_take_cell; rewrite ?Em; try done; destruct (_ && _); try done; by split.
  - intros [= <-]. apply Inv_main; cbn; rewrite ?Em; try done; by apply Inv_shd.
  - destruct (send _ s) as [s1|] eqn:E; cbn; [|done]. intros [= <-]. cbn in Hm.
    assert (Hz : zlen p <= 0 -> p = []) by (intros; apply zlen_0; zlia).
    eapply Inv_send; [done|exact E|..]; rewrite ?Em; try (by split); destruct (0 <? zlen p) eqn:E0; b2p.
    + by apply gan_payload.
    + rewrite (Hz E0). apply gan_no_data. by left.
    + apply app_nil_r.
    + by rewrite (Hz E0).
    + done.
    + done.
  - destruct (0 <? _) eqn:E; b2p; intros [= <-].
    + apply Inv_main; rewrite ?Em; try done; by split.
    + apply Inv_burst_over; by rewrite ?Em.
  - cbn in Hm. rewrite eqb_false by lia. pose proof (zlen_cell (receiveBuf s)) as Hl.
    destruct (take_cell s) as [p s1] eqn:Et. unfold take_cell in Et. injection Et as Ep Es. intros [= <-].
    rewrite <- Es, <- Ep.
    match goal with |- Inv (set_main ?m _) => change (Inv (set_main m (take_cell s).2)) end.
    apply Inv_take_cell; rewrite ?Em; try done; by split.
  - destruct (send _ s) as [s1|] eqn:E; cbn; [|done]. intros [= <-]. cbn in Hm.
    eapply Inv_send; [done|exact E|by apply gan_payload|..]; rewrite ?Em; destruct (server s); try done;
      try apply app_nil_r; by split.
  - intros [= <-]. apply Inv_main; cbn; rewrite ?Em; try done; by apply Inv_shd.
  - destruct (send _ s) as [s1|] eqn:E; cbn; [|done]. intros [= <-].
    destruct Ha as [Ha|Hb]; [done|].
    eapply Inv_send; [done|exact E|rewrite Hb; apply finish_cell|..]; rewrite ?Em; try done.
    + by rewrite finish_cell_size.
    + by split; [left|].
Qed.

(** Nothing of the invariant is touched. *)
Lemma Inv_same s s' :
  Inv s -> server s' = server s -> chans s' = chans s -> receiveBuf s' = receiveBuf s ->
  main s' = main s -> reader_hand (reader s') = reader_hand (reader s) ->
  reader_ok (server s) (reader s') -> ticker_ok (server s) (ticker s') -> taken s' = taken s -> Inv s'.
Proof. intros [] E1 E2 E3 E4 E5 H1 H2 E6. split; rewrite ?E1, ?E2, ?E3, ?E4, ?E5, ?E6; done. Qed.

(** A signal or an error goes through the channels. *)
Lemma Inv_chans x s :
  Inv s -> (forall rest, IoInv packet_payload (gan_cell (server s)) rest (chans s) ->
                         IoInv packet_payload (gan_cell (server s)) rest x) ->
  finish_sizes (queued x) = finish_sizes (queued (chans s)) -> Inv (set_chans x s).
Proof. intros [] H1 E. split; cbn; rewrite ?E; auto. Qed.

Lemma finish_sizes_signal p q :
  of_type PacketTypeFinish p = false -> finish_sizes (q ++ [p]) = finish_sizes q.
Proof. intros E. by rewrite finish_sizes_app, finish_sizes_one, E, app_nil_r. Qed.

Lemma Inv_fail e s s' : Inv s -> fail e s = Some s' -> Inv s'.
Proof.
  intros Hi (x & E & ->)%gan_fail_Some. apply Inv_chans; [done|intros rest; by eapply IoInv_report|].
  by apply report_Some in E as ->.
Qed.

Lemma reader_step_Inv s s' : Inv s -> reader_step s = Some s' -> Inv s'.
Proof.
  intros Hi. pose proof Hi as [Hio Hm Hr Ht Hf]. unfold reader_step.
  destruct (reader s) as [|d|g|e|] eqn:Er; try done.
  - intros [= <-]. split; cbn; try done.
    + destruct (server s); cbn; by rewrite app_nil_r.
    + destruct Hm as [? Hm]. split; [done|]. destruct (main s); try done. rewrite zlen_app. zlia.
    + by destruct (server s).
  - destruct (gate_step _ _ _ _) as [[[g' c] x]|] eqn:E; cbn; [|done]. intros [= <-].
    cbn in Hr.
    apply (Inv_same (set_chans x s)); try done; [|cbn; rewrite Er; by destruct g'|by destruct g'].
    apply Inv_chans; [done|intros rest; eapply IoInv_gate; [exact E| |done]|].
    + rewrite Hr. apply gan_no_data. auto.
    + apply gate_step_cases in E as [[_ ->]|(_ & _ & _ & E)]; [done|].
      rewrite (queued_enqueue _ _ _ E). by apply finish_sizes_signal.
  - destruct (fail _ s) as [s1|] eqn:E; cbn; [|done]. intros [= <-].
    assert (Hs : reader s1 = reader s) by (by apply gan_fail_Some in E as (x & _ & ->)).
    apply (Inv_fail _ _ _ Hi) in E. apply (Inv_same s1); try done; [by rewrite Hs, Er|by destruct E].
Qed.

Lemma gan_exec_Inv ev s s' : Inv s -> exec ev s = Some s' -> Inv s'.
Proof.
  intros Hi. pose proof Hi as [Hio Hm Hr Ht Hf]. unfold exec.
  destruct (crashed s); [done|]. destruct ev; cbn [exec_event];
    try solve [by apply gan_main_step_Inv | by apply reader_step_Inv].
  - destruct (reader s) eqn:Er; try done. destruct (_ >? _); [done|].
    destruct (_ =? 0); intros [= <-]; [apply (Inv_same s); by rewrite ?Er|].
    split; cbn; try done. cbn [reader_hand] in Hio. rewrite app_nil_r in Hio.
    apply (IoInv_read _ _ data) in Hio. by rewrite <- app_assoc in Hio.
  - destruct (reader s) eqn:Er; try done. intros [= <-]. apply (Inv_same s); by rewrite ?Er.
  - destruct (server s) eqn:Es; [|done]. unfold detector_step. intros E.
    step_cases E; repeat match goal with H : can_send _ _ = _ |- _ => apply can_send_Some in H as -> end;
      subst; by apply (Inv_same s); rewrite ?Es.
  - destruct (server s) eqn:Es; [done|]. unfold keeper_step. intros E. destruct (keeper s) eqn:Ek; try done.
    4: { destruct (fail _ s) as [s1|] eqn:Ef; cbn in E; [|done]. injection E as <-.
         apply (Inv_fail _ _ _ Hi) in Ef. by destruct Ef. }
    all: step_cases E; subst; by apply (Inv_same s); rewrite ?Es.
  - destruct (ticker_step _ _ _ _) as [[[t c] x]|] eqn:E; cbn; [|done]. intros [= <-].
    pose proof (ticker_step_ok _ _ _ _ _ _ _ _ E Ht) as Ht'.
    apply (Inv_same (set_chans x s)); try done; [|by destruct t].
    apply Inv_chans; [done| |].
    + intros rest. eapply IoInv_ticker; [exact E|exact Ht| |done].
      intros ->. apply gan_no_data. auto.
    + apply ticker_step_io in E as [->|[_ E]]; [done|].
      rewrite (queued_enqueue _ _ _ E). by apply finish_sizes_signal.
  - destruct (handler s); [done|]. destruct (can_send _ s) as [s1|] eqn:E; cbn; [|done].
    intros [= <-]. apply can_send_Some in E as ->. by apply (Inv_same s).
  - destruct (send_step _ _ _) as [x|] eqn:E; cbn; [|done]. intros [= <-].
    apply Inv_chans; [done|intros rest; by eapply IoInv_send|].
    by apply send_step_queued in E as [-> _].
  - destruct (ticker s), (server s) eqn:Es; try done. intros [= <-]. by apply (Inv_same s); rewrite ?Es.
  - destruct (main s) eqn:Em, (canSend s) as [|m ns]; try done. intros [= <-].
    apply Inv_main; cbn; rewrite ?Em; try (by destruct (m =? 0)); by apply (Inv_same s).
  - destruct (main s) eqn:Em; try done. intros [= <-].
    apply Inv_main; cbn; rewrite ?Em; try done; by destruct (_ && _).
  - destruct (main s) eqn:Em; try done; intros [= <-]; apply Inv_main; rewrite ?Em; try done; (split; [by left|done]).
  - destruct (main s) eqn:Em; try done; intros [= <-]; apply Inv_main; rewrite ?Em; try done; (split; [by left|done]).
  - unfold grpc. destruct (keeper s); try done; intros [= <-]; by apply (Inv_same s).
  - unfold grpc. destruct (keeper s); try done; intros [= <-]; by apply (Inv_same s).
  - unfold grpc. destruct (keeper s); try done; intros [= <-]; by apply (Inv_same s).
  - destruct (closed s); [|done]. intros [= <-].
    apply (Inv_same s); try done; cbn; try (by destruct (reader s)); by destruct (ticker s).
  - destruct (server s) eqn:Es; [done|]. intros [= <-]. by apply (Inv_same s); rewrite ?Es.
  - destruct (handler s), (server s) eqn:Es; try done. intros [= <-].
    destruct (decide _); [done|]. by apply (Inv_same s); rewrite ?Es.
  - destruct (handler s), (server s) eqn:Es; try done. intros [= <-].
    by apply (Inv_same s); rewrite ?Es.
Qed.

Lemma gan_server ev s s' : exec ev s = Some s' -> server s' = server s /\ tol s' = tol s.
Proof.
  unfold exec. destruct (crashed s); [done|]. intros E. destruct ev; cbn [exec_event] in E;
    unfold main_step, reader_step, detector_step, keeper_step, grpc, take_cell, burst_over, send, fail,
      can_send in E; step_cases E; subst; try done; repeat case_match; simplify_eq; done.
Qed.

Lemma gan_reachable b t x s :
  rtc step (init b t x) s -> Inv s /\ server s = b /\ tol s = t.
Proof.
  apply (does_invariant exec (fun s => Inv s /\ server s = b /\ tol s = t)).
  - intros ev s1 s2 (Hi & <- & <-) E. split; [by eapply gan_exec_Inv|by eapply gan_server].
  - split; [apply gan_init_Inv|done].
Qed.

(** ** The size of a burst *)

Definition is_cell (p : Packet.packet) : bool :=
  of_type PacketTypePayload p || of_type PacketTypeDummy p.
Definition cells (s : st) : Z := count is_cell (queued (chans s)).

Definition in_burst (m : main_pc) : bool :=
  match m with BBounds _ _ | BLoop _ _ | BRead _ _ | BInc _ _ _ | BSend _ _ _ => true | _ => false end.
Definition n_cells (toSend : Z) : Z := Z.max 0 (toSend / MaxPacketPayloadLength).
(** The cells a burst whose size is known has still to send. *)
Definition cells_left (m : main_pc) : Z :=
  match m with
  | BLoop n _ | BRead n _ | BInc _ n _ | BSend _ n _ => n_cells n
  | _ => 0
  end.
Definition is_bounds (m : main_pc) : bool := match m with BBounds _ _ => true | _ => false end.
(** The loop reads only when there is a cell left to send. *)
Definition burst_ok (m : main_pc) : Prop :=
  match m with
  | BRead n _ | BInc _ n _ | BSend _ n _ => MaxPacketPayloadLength <= n
  | _ => True
  end.

Lemma n_cells_less n : n < MaxPacketPayloadLength -> n_cells n = 0.
Proof.
  unfold n_cells, MaxPacketPayloadLength. intros.
  pose proof (Z.div_lt_upper_bound n 536 1 ltac:(lia) ltac:(lia)). lia.
Qed.
Lemma n_cells_more n :
  MaxPacketPayloadLength <= n -> n_cells n = 1 + n_cells (n - MaxPacketPayloadLength).
Proof.
  unfold n_cells, MaxPacketPayloadLength. intros.
  pose proof (Z.div_pos (n - 536) 536 ltac:(lia) ltac:(lia)).
  replace n with (n - 536 + 1 * 536) at 1 by lia. rewrite Z.div_add by lia. lia.
Qed.

(** Only the main loop queues cells, and only in a burst. *)
Lemma cells_enqueue p x x' :
  enqueue p x = Some x' -> count is_cell (queued x') = count is_cell (queued x) + (if is_cell p then 1 else 0).
Proof. intros ->%io_enqueue_Some. cbn. by rewrite count_app, count_one. Qed.

Lemma burst_main_step s s' :
  main_step s = Some s' -> in_burst (main s) = true -> burst_ok (main s) ->
  burst_ok (main s') /\ is_bounds (main s') = false
  /\ match main s with
     | BBounds n _ => cells s' = cells s
         /\ cells_left (main s') = n_cells (toSend overflow (tol s) n (zlen (receiveBuf s)))
     | _ => cells s' + cells_left (main s') = cells s + cells_left (main s)
     end.
Proof.
  unfold main_step, cells. intros E Hb Ho. destruct (main s) eqn:Em; try done.
  - by injection E as <-.
  - injection E as <-. destruct (_ >=? _) eqn:E'; b2p; cbn.
    + by split_and!; [lia| |].
    + unfold burst_over. rewrite (n_cells_less toSend0) by lia. by destruct k.
  - unfold take_cell in E. injection E as <-. by destruct (_ && _).
  - by injection E as <-.
  - destruct (send _ s) as [s1|] eqn:Es; cbn in E; [|done]. injection E as <-. split_and!; [done..|].
    apply gan_send_Some in Es as (x & Es & ->). apply cells_enqueue in Es. cbn in *.
    rewrite (n_cells_more toSend0) by done.
    replace (is_cell _) with true in Es by (by destruct (0 <? _)). lia.
Qed.

Lemma burst_other_step ev s s' :
  exec ev s = Some s' -> in_burst (main s) = true -> ev <> EvMain ->
  main s' = main s /\ cells s' = cells s.
Proof.
  unfold exec, cells. destruct (crashed s); [done|]. intros E Hb Hn.
  destruct ev; cbn [exec_event] in E; try done.
  - step_cases E; subst; done.
  - step_cases E; subst; done.
  - unfold reader_step in E. destruct (reader s) as [|d|g|e|]; try done.
    + by injection E as <-.
    + destruct (gate_step _ _ _ _) as [[[g' c] x]|] eqn:Eg; cbn in E; [|done]. injection E as <-.
      split; [done|]. apply gate_step_cases in Eg as [[_ ->]|(_ & _ & _ & Eg)]; [done|].
      apply cells_enqueue in Eg. cbn in *. lia.
    + destruct (fail _ s) as [s1|] eqn:Ef; cbn in E; [|done]. injection E as <-.
      apply gan_fail_Some in Ef as (x & Ef%report_Some & ->). by subst x.
  - unfold detector_step, can_send in E. step_cases E; subst; repeat case_match; by simplify_eq.
  - unfold keeper_step, fail in E. step_cases E;
      repeat match goal with H : report _ _ = Some _ |- _ => apply report_Some in H as -> end; by subst.
  - destruct (ticker_step _ _ _ _) as [[[t c] x]|] eqn:Et; cbn in E; [|done]. injection E as <-.
    split; [done|]. apply ticker_step_io in Et as [->|[_ Et]]; [done|].
    apply cells_enqueue in Et. cbn in *. lia.
  - unfold can_send in E. step_cases E; subst; repeat case_match; by simplify_eq.
  - destruct (send_step _ _ _) as [x|] eqn:Es; cbn in E; [|done]. injection E as <-.
    apply send_step_queued in Es as [Es _]. cbn. by rewrite Es.
  - step_cases E; by subst.
  - destruct (main s); done.
  - destruct (main s); done.
  - destruct (main s); done.
  - destruct (main s); done.
  - unfold grpc in E. step_cases E; by subst.
  - unfold grpc in E. step_cases E; by subst.
  - unfold grpc in E. step_cases E; by subst.
  - destruct (closed s); [|done]. by injection E as <-.
  - step_cases E; by subst.
  - step_cases E; subst; by case_decide.
  - step_cases E; by subst.
Qed.

Definition burst_step (s1 s2 : st) : Prop := in_burst (main s1) = true /\ step s1 s2.

Lemma burst_step_cases ev s s' :
  exec ev s = Some s' -> in_burst (main s) = true ->
  main_step s = Some s' \/ main s' = main s /\ cells s' = cells s.
Proof.
  intros E Hb. destruct ev; try (right; by eapply burst_other_step).
  left. unfold exec in E. by destruct (crashed s).
Qed.

Lemma burst_tail s s' :
  rtc burst_step s s' -> is_bounds (main s) = false -> burst_ok (main s) ->
  cells s' + cells_left (main s') = cells s + cells_left (main s).
Proof.
  induction 1 as [|s s1 s2 [Hb [ev E]] _ IH]; [done|]. intros Hn Ho.
  apply burst_step_cases in E as [E|[Em Ec]]; [|rewrite Em, Ec in *; auto|done].
  apply burst_main_step in E as (Ho' & Hn' & Hl); [|done..].
  rewrite IH by done. by destruct (main s).
Qed.

Lemma burst_size s s1 s' n k :
  main s = BBounds n k -> exec EvMain s = Some s1 -> rtc burst_step s1 s' -> in_burst (main s') = false ->
  cells s' = cells s + n_cells (toSend overflow (tol s) n (zlen (receiveBuf s))).
Proof.
  intros Em E Hr Hs. unfold exec in E. destruct (crashed s); [done|]. cbn [exec_event] in E.
  apply burst_main_step in E as (Ho & Hn & Hl); [|by rewrite Em..]. rewrite Em in Hl. destruct Hl as [Hc Hl].
  pose proof (burst_tail _ _ Hr Hn Ho) as Ht. assert (cells_left (main s') = 0) by by destruct (main s'). lia.
Qed.

Lemma toSend_range t n b :
  lowerBound overflow t n <= upperBound overflow t n ->
  lowerBound overflow t n <= toSend overflow t n b <= upperBound overflow t n.
Proof.
  intros. unfold toSend. destruct (b <? _) eqn:E1; [lia|]. destruct (b <? upperBound _ _ _) eqn:E2; b2p; lia.
Qed.

(** C15: the shape of WF-GAN's bursts: a burst for the reference size [n] queues
    [toSend / 536] full cells, payload or dummy, where [toSend] is the size of
    the receive buffer when [GetLen] looks at it, or the nearer of the two bounds
    if it is not between them, whatever comes in and whatever the other goroutines
    do while it is sent; so when the bounds are in order, the number of cells
    shows the reference within its tolerance and nothing else of the traffic. *)
Theorem wfgan_burst_cells b t x s s1 s' n k :
  rtc step (init b t x) s -> main s = BBounds n k -> exec EvMain s = Some s1 ->
  rtc burst_step s1 s' -> in_burst (main s') = false ->
  let lower := lowerBound overflow t n in
  let upper := upperBound overflow t n in
  let bufSize := zlen (receiveBuf s) in
  cells s' = cells s + n_cells (if bufSize <? lower then lower else if bufSize <? upper then bufSize else upper)
  /\ Forall (gan_cell b) (queued (chans s'))
  /\ (lower <= upper -> 1 <= lower / 536 <= cells s' - cells s /\ cells s' - cells s <= upper / 536).
Proof.
  intros Hr0 Em E1 Hr Hs lower upper bufSize. destruct (gan_reachable _ _ _ _ Hr0) as (_ & _ & Ht).
  pose proof (burst_size _ _ _ _ _ Em E1 Hr Hs) as Hc. rewrite Ht in Hc.
  split_and!; [exact Hc| |].
  - assert (Hr1 : rtc step (init b t x) s').
    { etrans; [exact Hr0|]. eapply rtc_l; [by exists EvMain|].
      clear -Hr. induction Hr as [|s2 s3 s4 [_ H1] _ IH]; [done|by eapply rtc_l]. }
    destruct (gan_reachable _ _ _ _ Hr1) as ([[_ Hcells _] _ _ _ _] & <- & _). exact Hcells.
  - intros Hle. pose proof (toSend_range t n bufSize Hle) as [H1 H2]. rewrite Hc.
    change (lowerBound overflow t n) with lower in H1. change (upperBound overflow t n) with upper in H2.
    change (zlen (receiveBuf s)) with bufSize.
    assert (536 <= lower) by (unfold lower, lowerBound; lia).
    unfold n_cells, MaxPacketPayloadLength.
    pose proof (Z.div_le_mono _ _ 536 ltac:(lia) H1). pose proof (Z.div_le_mono _ _ 536 ltac:(lia) H2).
    assert (1 <= lower / 536) by (apply (Z.div_le_lower_bound _ 536 1); lia). lia.
Qed.

(** Nothing is lost or reordered under WF-GAN, and the answers asked for are
    those of the queue: for every interleaving of the goroutines, what was
    queued, the cell in hand, the receive buffer and what the reader holds are,
    in this order, what was read from upstream; every packet is a full cell; and
    the sizes in the [Finish] packets, with the one behind the burst in
    progress, are the response sizes of the tuples taken from the queue, in
    order. *)
Theorem wfgan_integrity b t x s :
  rtc step (init b t x) s ->
  upstream (chans s) = payload_of (queued (chans s)) ++ hand (main s) ++ receiveBuf s
                       ++ reader_hand (reader s)
  /\ Forall (gan_cell b) (queued (chans s))
  /\ finish_sizes (queued (chans s)) ++ map u32 (asks (main s)) = map u32 (map snd (taken s)).
Proof.
  intros ([[Hst Hc _] _ _ _ Hf] & <- & _)%gan_reachable. rewrite stream_of_packets in Hst. auto.
Qed.
End machine.

(** ** The wire *)

Section wire.
Context `{SipHashLaws} `{SecretBoxLaws} `{FifoLaws (Z * Z)} (beta : app -> spec_float).

(** What a list of packets does to the receiver. *)
Record gan_received (ps : list Packet.packet) (a a' : app) : Prop := {
  gan_role : IsServer (conn a') = IsServer (conn a);
  gan_dist : LenDist (conn a') = LenDist (conn a);
  gan_buffer : ReceiveDecodedBuffer (conn a') = ReceiveDecodedBuffer (conn a) ++ payload_of ps;
  gan_state : curState (ConnState (conn a')) = last_signal (curState (ConnState (conn a))) ps;
  gan_asked : canSendChan a' = canSendChan a ++ finish_sizes ps
}.

Lemma handle_gan fuel p r a :
  gan_cell (negb (IsServer (conn a))) p ->
  exists a', handle fuel beta (Packet.pktType p) (Packet.data p) r a = (Ok tt, a')
             /\ gan_received [p] a a'.
Proof.
  intros Hp.
  assert (Ht : Packet.pktType p = PacketTypePayload \/ Packet.pktType p = PacketTypeDummy
    \/ IsServer (conn a) = true /\ (Packet.pktType p = PacketTypeSignalStart
         \/ Packet.pktType p = PacketTypeSignalStop
         \/ Packet.pktType p = PacketTypeFinish /\ zlen (Packet.data p) = 4)).
  { destruct Hp as [(_ & _ & [?|(_ & [?|[Hs ?]])])|(Hs & _ & ? & ?)];
      try (apply negb_false_iff in Hs); tauto. }
  clear Hp. unfold handle.
  destruct Ht as [Ht|[Ht|[Hs [Ht|[Ht|[Ht Hl]]]]]]; rewrite Ht; cbn; rewrite ?Hs; cbn.
  - eexists; split; [reflexivity|].
    assert (Hz : zlen (Packet.data p) <= 0 -> Packet.data p = []) by (intros; apply zlen_0; zlia).
    split; rewrite ?payload_of_one, ?finish_sizes_one; unfold of_type, last_signal, signal_of; cbn;
      rewrite ?Ht; cbn; destruct (0 <? _) eqn:E; b2p; rewrite ?app_nil_r; try done;
      try (cbn; by destruct (IsServer (conn a)) eqn:Hb).
    by rewrite (Hz E), app_nil_r.
  - eexists; split; [reflexivity|].
    by split; rewrite ?payload_of_one, ?finish_sizes_one; unfold of_type, last_signal, signal_of; cbn;
      rewrite ?Ht; cbn; rewrite ?app_nil_r.
  - eexists; split; [reflexivity|].
    split; rewrite ?payload_of_one, ?finish_sizes_one; unfold of_type, last_signal, signal_of; cbn;
      rewrite ?Ht; cbn; rewrite ?app_nil_r; by case_decide.
  - eexists; split; [reflexivity|].
    split; rewrite ?payload_of_one, ?finish_sizes_one; unfold of_type, last_signal, signal_of; cbn;
      rewrite ?Ht; cbn; rewrite ?app_nil_r; by case_decide.
  - rewrite ltb_false by lia. eexists; split; [reflexivity|].
    by split; rewrite ?payload_of_one, ?finish_sizes_one; unfold of_type, last_signal, signal_of; cbn;
      rewrite ?Ht; cbn; rewrite ?app_nil_r.
Qed.

Lemma gan_received_cons p ps a a1 a2 :
  gan_received [p] a a1 -> gan_received ps a1 a2 -> gan_received (p :: ps) a a2.
Proof.
  intros [R1 R2 R3 R4 R5] [K1 K2 K3 K4 K5]. split; try congruence.
  - by rewrite K3, R3, <- app_assoc, <- payload_of_app.
  - by rewrite K4, R4.
  - by rewrite K5, R5, <- app_assoc, <- finish_sizes_app.
Qed.

Lemma gan_deliver fuel ps : forall a,
  Forall (gan_cell (negb (IsServer (conn a)))) ps ->
  exists a', Packet.deliver (handle fuel beta) ps (Ok tt) a = (Ok tt, a') /\ gan_received ps a a'.
Proof.
  induction ps as [|p ps IH]; intros a Hc; cbn [Packet.deliver].
  { exists a. split; [done|]. by split; rewrite ?app_nil_r. }
  apply Forall_cons in Hc as [Hp Hc].
  destruct (handle_gan fuel p (zrepeat (Packet.padLen p) Byte.x00) a Hp) as (a1 & -> & R1).
  destruct (IH a1) as (a2 & -> & K2); [by rewrite (gan_role _ _ _ R1)|].
  exists a2. split; [done|]. by eapply gan_received_cons.
Qed.

Lemma gan_cell_full b p : gan_cell b p -> full_cell p.
Proof. intros [(? & ? & _)|(_ & ? & _)]; [by split|done]. Qed.

(** C14: end to end under WF-GAN: for every interleaving at the sender and every
    way the network cuts the bytes, the wire image is 557 bytes per packet
    whatever the packets are; the peer appends to its stream exactly the payload
    on the wire, a prefix of what the sender read, and never panics; and the
    sizes its main loop is asked to answer with are a prefix of the response
    sizes of the tuples the client took from its queue. *)
Theorem wfgan_peer_receives overflow fuel b tl x s t e d w e' chunks a :
  rtc (step overflow) (init b tl x) s -> IsServer (conn a) = negb b ->
  Framing.synced e d ->
  Packet.makePackets MaxPacketPayloadLength (wire (chans s)) e = (Ok w, e') -> concat chunks = w ->
  let out := Packet.readAll (handle fuel beta) chunks (Packet.mkConn (Framing.mkD d [] t) a) in
  zlen w = 557 * zlen (wire (chans s))
  /\ gan_received (wire (chans s)) a (Packet.app out.2)
  /\ (exists rest, upstream (chans s) = payload_of (wire (chans s)) ++ rest)
  /\ (exists rest, map u32 (map snd (taken s)) = finish_sizes (wire (chans s)) ++ rest)
  /\ Forall (fun r => is_panic r = false) out.1.
Proof.
  intros Hr Hb Hs Hm Hc out. destruct (gan_reachable overflow _ _ _ _ Hr) as ([Hio _ _ _ Hf] & Hsv & _).
  rewrite Hsv in Hio. destruct (IoInv_wire _ _ _ _ Hio) as (Hup & _ & Hcells).
  assert (Hcells' : Forall (gan_cell (negb (IsServer (conn a)))) (wire (chans s)))
    by (by rewrite Hb, negb_involutive).
  destruct (gan_deliver fuel _ a Hcells') as (a' & Hd & Hrec).
  assert (Hok : Forall (Packet.packet_ok MaxPacketPayloadLength) (wire (chans s)))
    by (eapply Forall_impl; [exact Hcells|]; by intros p []%gan_cell_full).
  destruct (Packet.stream_delivery (handle fuel beta) _ cell_payload_fits t _ e d a w e' chunks
    Hs Hok Hm Hc) as (Ha & Hp & _); [by rewrite Hd|].
  split_and!; [|by unfold out; rewrite Ha, Hd|done| |done].
  - eapply Packet.makePackets_zlen in Hm; [exact Hm|apply cell_payload_fits|exact Hok|].
    eapply Forall_impl; [exact Hcells|]. by intros p []%gan_cell_full.
  - destruct Hio as [_ _ (lost & Hq & _)]. rewrite <- Hf, Hq, finish_sizes_app, <- app_assoc. eauto.
Qed.

(** The panics of the handler. *)
Definition gan_panics (isServer : bool) (w : String.string) : Prop :=
  handler_panics isServer w
  \/ (if isServer then w = "index out of range"%string
      else w = "Client receive SignalFinish pkt from server?"%string).

Lemma gan_handle_total fuel b ty p r a :
  dist_wf (conn a) /\ IsServer (conn a) = b ->
  (dist_wf (conn (handle fuel beta ty p r a).2) /\ IsServer (conn (handle fuel beta ty p r a).2) = b)
  /\ (forall w, (handle fuel beta ty p r a).1 = Panic w -> gan_panics b w).
Proof.
  intros [Hd <-]. unfold handle, gan_panics, handler_panics.
  destruct (ty =? _); [by destruct (0 <? _); cbn; destruct (IsServer (conn a)) eqn:Es|].
  destruct (ty =? _).
  { pose proof (handle_seed_total fuel p (conn a) Hd) as (H1' & H2' & H3').
    destruct (handle_seed fuel p (conn a)) as [o c]. cbn in *. auto. }
  destruct (IsServer (conn a)) eqn:Es; cbn.
  - destruct (ty =? _); [by case_decide|]. destruct (ty =? _); [by case_decide|].
    destruct (ty =? _); [|done]. destruct (_ <? 4); [|done].
    split; [done|]. intros w [= <-]. by right.
  - destruct (ty =? _); [split; [done|]; intros w [= <-]; left; right; auto|].
    destruct (ty =? _); [split; [done|]; intros w [= <-]; left; right; auto|].
    destruct (ty =? _); [|done]. split; [done|]. intros w [= <-]. by right.
Qed.

(** [readPackets] of WF-GAN on anything the network delivers: it returns,
    keeps the decoder and the distribution well formed, and panics only as the
    handler of defconn does, on a client that gets a [Finish], or on a server
    that gets one with less than four bytes; and that last panic is real: any
    such packet causes it. *)
Theorem wfgan_readPackets_safe fuel rd rdErr c :
  Framing.dec_wf (Framing.dec (Packet.rx c)) -> dist_wf (conn (Packet.app c)) ->
  let out := readPackets fuel beta rd rdErr c in
  Framing.dec_wf (Framing.dec (Packet.rx out.2)) /\ dist_wf (conn (Packet.app out.2))
  /\ (forall w, out.1 = Panic w ->
        w = "crypto/rand failed"%string \/ gan_panics (IsServer (conn (Packet.app c))) w)
  /\ (forall p r a, IsServer (conn a) = true -> zlen p < 4 ->
        handle fuel beta PacketTypeFinish p r a = (Panic "index out of range", a)).
Proof.
  intros Hd Ha. destruct (Packet.readPackets_total (handle fuel beta)
    (fun a => dist_wf (conn a) /\ IsServer (conn a) = IsServer (conn (Packet.app c)))
    (gan_panics (IsServer (conn (Packet.app c))))
    (fun t p r a _ Ha => gan_handle_total fuel _ t p r a Ha) rd rdErr c) as [[? [? _]] Hp];
    [by split_and!|].
  split_and!; [done|done|exact Hp|]. intros p r a Hs Hl. unfold handle. cbn. rewrite Hs. cbn.
  by rewrite ltb_true.
Qed.
End wire.

(** ** What goes wrong *)

(** A tolerance of 0.1, as [float32]. *)
Definition tenth : spec_float := S754_finite false 13421773 (-27).

(** The two bounds of [sendRefBurst] are out of order below 536: with a tolerance
    of 0.1 and a reference of 400, an empty buffer makes a cell and a full one
    makes none. *)
Theorem small_burst_stalls overflow :
  (forall b, b < 536 -> n_cells (toSend overflow tenth 400 b) = 1)
  /\ (forall b, 536 <= b -> n_cells (toSend overflow tenth 400 b) = 0).
Proof.
  assert (El : lowerBound overflow tenth 400 = 536) by (vm_compute; reflexivity).
  assert (Eu : upperBound overflow tenth 400 = 440) by (vm_compute; reflexivity).
  split; intros b Hb; unfold toSend; rewrite El, Eu.
  - by rewrite ltb_true.
  - by rewrite !ltb_false by lia.
Qed.

(** A client crashes when the gRPC service accepts the connection and fails the
    query; and a server that defends itself, asked for an answer of size zero,
    sends its whole buffer at once. *)
Definition evs_query : list event := [EvKeeper; EvKeeper; EvKeeper; EvQueryErr].
Definition evs_flush : list event :=
  [EvSignal true; EvRead (zrepeat 2000 Byte.x61); EvReader; EvFinish 0; EvHandler; EvCanSend]
  ++ replicate 13 EvMain.
Theorem wfgan_crash_and_flush :
  (exists s, runs (exec (fun _ => 0)) evs_query (init false tenth NewState) = Some s
     /\ crashed s = true)
  /\ (exists s, runs (exec (fun _ => 0)) evs_flush (init true tenth NewState) = Some s
     /\ load (shd s) = StateStart /\ main s = MSelect /\ cells s = 4 /\ receiveBuf s = []).
Proof. split; (eexists; split; [vm_compute; reflexivity|]); repeat split. Qed.
End Wfgan.

(** ** Witnesses *)

Section witnesses.
Import ToySip ToyBox DefConn Cells Wfgan.

Definition w_over : spec_float -> Z := fun _ => 0.
Definition w_s0 : st := init false tenth NewState.
(** A client fills its queue, reads 600 bytes, starts and takes a tuple. *)
Definition w_evs : list event :=
  [EvKeeper; EvKeeper; EvKeeper; EvResponse [1000; 2000; 500; 700]; EvKeeper; EvKeeper; EvKeeper;
   EvRead (zrepeat 600 Byte.x61)] ++ replicate 4 EvReader ++ [EvMain; EvMain; EvMain].
Definition w_s1 : st := Eval vm_compute in default w_s0 (runs (exec w_over) w_evs w_s0).
(** Its burst, and the [Finish] behind it. *)
Definition w_burst : list event := replicate 5 EvMain ++ [EvTick; EvMain].
Definition w_s2 : st := Eval vm_compute in default w_s0 (runs (exec w_over) w_burst w_s1).
Definition w_s3 : st := Eval vm_compute in
  default w_s0 (runs (exec w_over) (EvMain :: replicate 3 (EvSend SndWrite)) w_s2).
Lemma w_s1_reach : rtc (step w_over) w_s0 w_s1.
Proof. apply (runs_rtc _ w_evs). vm_compute. reflexivity. Qed.
Lemma gan_w_s3_reach : rtc (step w_over) w_s0 w_s3.
Proof.
  apply (runs_rtc _ (w_evs ++ w_burst ++ EvMain :: replicate 3 (EvSend SndWrite))).
  vm_compute. reflexivity.
Qed.

(** Every step of a run starts in the burst. *)
Fixpoint burst_run (evs : list event) (s : st) : bool :=
  match evs with
  | [] => true
  | ev :: evs => in_burst (main s)
                 && match exec w_over ev s with Some s' => burst_run evs s' | None => false end
  end.
Lemma burst_run_rtc evs : forall s s',
  runs (exec w_over) evs s = Some s' -> burst_run evs s = true -> rtc (burst_step w_over) s s'.
Proof.
  induction evs as [|ev evs IH]; intros s s'; cbn; [by intros [= <-]|].
  destruct (exec w_over ev s) as [s1|] eqn:E; cbn; [|done].
  intros Hr [Hb Hr']%andb_true_iff. eapply rtc_l; [split; [done|by exists ev]|by apply IH].
Qed.

Definition w_s1' : st := Eval vm_compute in default w_s0 (exec w_over EvMain w_s1).
Lemma wfgan_burst_cells_witness :
  main w_s1 = BBounds 1000 (AFinish 2000)
  /\ lowerBound w_over tenth 1000 = 900 /\ upperBound w_over tenth 1000 = 1100
  /\ cells w_s2 - cells w_s1 = 1
  /\ 1 <= lowerBound w_over tenth 1000 / 536 <= cells w_s2 - cells w_s1
  /\ cells w_s2 - cells w_s1 <= upperBound w_over tenth 1000 / 536.
Proof.
  split; [reflexivity|]. split; [vm_compute; reflexivity|]. split; [vm_compute; reflexivity|].
  split; [vm_compute; reflexivity|].
  apply (wfgan_burst_cells w_over false tenth NewState w_s1 w_s1' w_s2 1000 (AFinish 2000) w_s1_reach eq_refl
    ltac:(vm_compute; reflexivity)
    (burst_run_rtc (tail w_burst) w_s1' w_s2 ltac:(vm_compute; reflexivity) ltac:(vm_compute; reflexivity))
    eq_refl).
  vm_compute. discriminate.
Defined.

Lemma wfgan_integrity_witness :
  map Packet.pktType (queued (chans w_s3)) = [PacketTypeSignalStart; PacketTypePayload; PacketTypeFinish]
  /\ finish_sizes (queued (chans w_s3)) = [2000]
  /\ upstream (chans w_s3) = payload_of (queued (chans w_s3)) ++ hand (main w_s3) ++ receiveBuf w_s3
                             ++ reader_hand (reader w_s3).
Proof.
  split_and!; [vm_compute; reflexivity..|].
  exact (proj1 (wfgan_integrity w_over false tenth NewState w_s3 gan_w_s3_reach)).
Defined.

Definition w_out : result Packet.error bytes * Framing.Encoder := Eval vm_compute in
  Packet.makePackets MaxPacketPayloadLength (wire (chans w_s3)) toy_enc.
Definition w_wire : bytes := Eval vm_compute in match w_out.1 with Ok w => w | _ => [] end.
Definition w_ld : ProbDist.WeightedDist :=
  ProbDist.mkWDist 0 1448 false [30; 0] [ProbDist.fone; ProbDist.fone] [1; 0]
    [ProbDist.fone; ProbDist.fone].
Definition w_app : app := mkApp (DefConn.mkApp true w_ld NewState 0 (str "before ")) tenth [].
Definition w_chunks : list bytes := [ztake 700 w_wire; zdrop 700 w_wire].
Definition w_beta : app -> spec_float := fun _ => tenth.

Lemma wfgan_peer_receives_witness :
  let out := Packet.readAll (handle 9 w_beta) w_chunks (Packet.mkConn (Framing.mkD toy_dec [] []) w_app) in
  zlen (ReceiveDecodedBuffer (conn (Packet.app out.2))) = 7 + 536
  /\ canSendChan (Packet.app out.2) = [2000]
  /\ gan_received (wire (chans w_s3)) w_app (Packet.app out.2).
Proof.
  intros out. split_and!; [vm_compute; reflexivity..|].
  assert (Hs : Framing.synced toy_enc toy_dec) by (split_and!; reflexivity).
  assert (E : Packet.makePackets MaxPacketPayloadLength (wire (chans w_s3)) toy_enc
              = (Ok w_wire, w_out.2)) by (vm_compute; reflexivity).
  assert (Hc : concat w_chunks = w_wire) by (vm_compute; reflexivity).
  exact (proj1 (proj2 (wfgan_peer_receives w_beta w_over 9 false tenth NewState w_s3 [] toy_enc toy_dec
    w_wire w_out.2 w_chunks w_app gan_w_s3_reach eq_refl Hs E Hc))).
Defined.

Lemma wfgan_readPackets_safe_witness :
  Framing.dec_wf (Framing.dec (Packet.rx
    (readPackets 9 w_beta (str "noise from the network") None
       (Packet.mkConn (Framing.mkD toy_dec [] []) w_app)).2)).
Proof.
  apply (wfgan_readPackets_safe w_beta 9 (str "noise from the network") None
           (Packet.mkConn (Framing.mkD toy_dec [] []) w_app)).
  - split; [split; [reflexivity|vm_compute; split; congruence]|].
    split; [reflexivity|left; reflexivity].
  - split; [|reflexivity]. split; cbn; try done.
    + repeat constructor; lia.
    + apply (bool_decide_unpack _). vm_compute. done.
    + repeat constructor; cbn; lia.
Defined.
End witnesses.
