(* ===== verification/Regulator.v ===== *)
(** * The Regulator defense: [transports/regulator]

    Packets that carry the start of the surge ([packet.go]), the rate and the
    padding budget ([params.go]) and the goroutines of [serverReadFrom] and
    [clientReadFrom] ([regulator.go]).  A server that defends itself sends a
    cell whenever its decaying rate says so, payload or, while the budget lasts,
    a dummy; the client follows at a fraction of that rate. *)
From S2P Require Import Prelude GoStd Rand GoFloat Drbg Framing ProbDist Packet DefConn Cells Fifo.

Module Regulator.
Import GoFloat DefConn Cells.

(** ** [packet.go] *)

Definition regulatorOverhead : Z := 8.
Record packetInfo := mkPacketInfo { pktType : Z; data : bytes; padLen : Z; t0 : Z (* int64 *) }.

(** [pkt[:pktLen]] as [MakePacket] fills it. *)
Definition packet_bytes (p : packetInfo) : bytes :=
  z2b (pktType p) :: be_encode 2 (u16 (zlen (data p))) ++ data p
  ++ be_encode 8 (u64 (t0 p)) ++ zrepeat (padLen p) Byte.x00.

Section packets.
Context `{SipHash} `{SecretBox}.

Definition MakePacket (p : packetInfo) : M Framing.Encoder Packet.error bytes :=
  if zlen (data p) + padLen p >? MaxPacketPayloadLength + regulatorOverhead
  then panic "BUG: MakePacket() len(Data) + PadLen > MaxPacketPayloadLength + RegulatorOverhead"
  else if padLen p >? MaxPacketPaddingLength then panic "slice bounds out of range"
  else map_err Packet.FrameError (Framing.Encode Framing.MaximumSegmentLength (packet_bytes p)).

(** All packets of a list, one after the other. *)
Fixpoint MakePackets (ps : list packetInfo) : M Framing.Encoder Packet.error bytes :=
  match ps with
  | [] => mret []
  | p :: ps => f ← MakePacket p; fs ← MakePackets ps; mret (f ++ fs)
  end.

(** [ct0] is the connection's [t0], [paddingChan] what the handler sent to the
    goroutine that starts and stops the defense. *)
Record app := mkApp { conn : DefConn.app; ct0 : Z; paddingChan : list bool }.
Definition set_conn (c : DefConn.app) (a : app) : app := mkApp c (ct0 a) (paddingChan a).
Definition tell (b : bool) (a : app) : app := mkApp (conn a) (ct0 a) (paddingChan a ++ [b]).

(** [ReceiveDecodedBuffer.Write (payload)], not counted. *)
Definition append (p : bytes) (a : DefConn.app) : DefConn.app :=
  DefConn.mkApp (IsServer a) (LenDist a) (ConnState a) (nRealSegRcv a) (ReceiveDecodedBuffer a ++ p).

Context (fuel : nat).

(** From [t0 := ...] to the end of the [switch] of [readPackets]. *)
Definition handle : Packet.handler app := fun pktType payload rest a =>
  if zlen rest <? 8 then (Panic "index out of range", a)
  else
    let t0 := i64 (be_decode (ztake 8 rest)) in
    let isServer := IsServer (conn a) in
    if pktType =? PacketTypePayload then
      (Ok tt,
       if 0 <? zlen payload then
         if isServer then set_conn (append payload (conn a)) a
         else mkApp (receive payload (conn a)) (if ct0 a =? t0 then ct0 a else t0) (paddingChan a)
       else a)
    else if pktType =? PacketTypePrngSeed then
      let '(r, c) := handle_seed fuel payload (conn a) in (r, set_conn c a)
    else if pktType =? PacketTypeSignalStart then
      if negb isServer then (Panic "Client receive SignalStart pkt from server?", a)
      else (Ok tt, tell true a)
    else if pktType =? PacketTypeSignalStop then
      if negb isServer then (Panic "Client receive SignalStop pkt from server?", a)
      else (Ok tt, tell false a)
    else if pktType =? PacketTypeDummy then
      (Ok tt, if negb isServer && (ct0 a <? t0) then mkApp (conn a) t0 (paddingChan a) else a)
    else (Ok tt, a).

Definition readPackets := Packet.readPackets handle.
End packets.

(** ** [params.go] *)

(** [math.Pow], and what Go leaves to the implementation when a float does not
    fit an integer. *)
Class Pow := {
  pow : spec_float -> spec_float -> spec_float;
  overflow : spec_float -> Z
}.
(** [Pow (x, ±0) = 1 for any x]. *)
Class PowLaws `{Pow} := { pow_zero x s : pow x (S754_zero s) = f64_of_Z 1 }.

(** The parameters of a connection: the initial rate, its decay, the threshold,
    the padding budget, the ratio of the rates and the largest delay. *)
Record params := mkParams {
  r : Z; d : spec_float; t : spec_float; n : Z; u : spec_float; c : spec_float
}.

(** Times are in nanoseconds. *)
Record serverParams := mkSp { lastSend : Z; targetRate : Z; paddingBudget : Z }.

(** [t.Sub (u)] saturates. *)
Definition Sub (t u : Z) : Z := Z.max (- 2 ^ 63) (Z.min (2 ^ 63 - 1) (t - u)).

Definition CalTargetRateWithLast `{Pow} (lastTime currentTime r : Z) (d : spec_float) : Z :=
  let timeElapsed := Sub currentTime lastTime in
  if 0 <=? timeElapsed then
    let newRate := trunc_int overflow 32
                     (f64_mul (f64_of_Z r) (pow (widen d) (seconds timeElapsed))) in
    if newRate <? 1 then 1 else newRate
  else 0.

Definition SetLastSend (now : Z) (sp : serverParams) : serverParams :=
  mkSp now (targetRate sp) (paddingBudget sp).
Definition SetTargetRate (v : Z) (sp : serverParams) : serverParams :=
  mkSp (lastSend sp) v (paddingBudget sp).
(** [sample] is [utils.Uniform (0, int (n))]. *)
Definition SetPaddingBudget (sample : Z) (sp : serverParams) : serverParams :=
  mkSp (lastSend sp) (targetRate sp) sample.
Definition CalTargetRate `{Pow} (currentTime r : Z) (d : spec_float) (sp : serverParams) : serverParams :=
  SetTargetRate (CalTargetRateWithLast (lastSend sp) currentTime r d) sp.
Definition ConsumePaddingBudget (sp : serverParams) : bool * serverParams :=
  if 0 <? paddingBudget sp then (true, mkSp (lastSend sp) (targetRate sp) (paddingBudget sp - 1))
  else (false, sp).
Definition Init (r sample now : Z) (sp : serverParams) : serverParams :=
  SetLastSend now (SetPaddingBudget sample (SetTargetRate r sp)).

(** [int (conn.t * float32 (rate))]. *)
Definition threshold `{Pow} (p : params) (rate : Z) : Z :=
  trunc_int overflow 64 (f32_mul (t p) (f32_of_Z rate)).
(** [time.Duration (int64 (1.0 / float64 (rate) * 1e9))]. *)
Definition serverRho `{Pow} (rate : Z) : Z :=
  trunc_int overflow 64 (f64_mul (f64_div (f64_of_Z 1) (f64_of_Z rate)) (f64_of_Z 1000000000)).

(** ** The rate of a client *)

(** [int32 (float32 (conn.r) / conn.u)]. *)
Definition initialRate `{Pow} (p : params) : Z :=
  trunc_int overflow 32 (f32_div (f32_of_Z (r p)) (u p)).
(** [time.Duration (1.0 / newRate * 1e9)], with the defense on. *)
Definition clientRho `{Pow} (p : params) (ct0 now : Z) : Z :=
  let newRate := f32_div (f32_of_Z (CalTargetRateWithLast ct0 now (r p) (d p))) (u p) in
  trunc_int overflow 64 (f32_mul (f32_div (f32_of_Z 1) newRate) (f32_of_Z 1000000000)).
(** [time.Duration (1.0 / initialRate * 1e9)], with the defense off: the
    constants are converted to [int32], the division is that of integers, and
    it panics when the rate is zero. *)
Definition idleRho `{Pow} (p : params) : option Z :=
  if initialRate p =? 0 then None else Some (i32 (Z.quot 1 (initialRate p) * 1000000000)).

(** ** The wire *)

Definition raw_of (p : packetInfo) : Packet.raw :=
  Packet.mkRaw (pktType p) (data p) (be_encode 8 (u64 (t0 p)) ++ zrepeat (padLen p) Byte.x00).
Definition payload (p : packetInfo) : bytes :=
  if pktType p =? PacketTypePayload then data p else [].

(** What the goroutines send: full cells with an [int64] in [t0]; dummies are
    empty on a client and carry the budgets, in eight bytes, on a server; only
    a client signals. *)
Record reg_cell (b : bool) (p : packetInfo) : Prop := {
  rc_full : zlen (data p) + padLen p = MaxPacketPayloadLength;
  rc_pad : 0 <= padLen p;
  rc_t0 : - 2 ^ 63 <= t0 p < 2 ^ 63;
  rc_type : pktType p = PacketTypePayload
    \/ pktType p = PacketTypeDummy /\ zlen (data p) = (if b then 8 else 0)
    \/ b = false /\ data p = []
       /\ (pktType p = PacketTypeSignalStart \/ pktType p = PacketTypeSignalStop)
}.

Lemma reg_cell_raw b p : reg_cell b p -> Packet.raw_ok (raw_of p).
Proof.
  intros [Hf Hp _ Ht]. split; cbn.
  - destruct Ht as [-> |[[-> _]|(_ & _ & [-> | ->])]]; done.
  - rewrite zlen_app, zlen_be_encode, zlen_zrepeat. unfold MaxPacketPayloadLength in Hf.
    change (Framing.MaximumFramePayloadLength - Packet.packetOverhead) with 1427. lia.
Qed.

Definition total_of (l : list Z) : Z := foldr Z.add 0 l.
#[global] Arguments total_of : simpl never.
Lemma total_of_snoc l x : total_of (l ++ [x]) = total_of l + x.
Proof. unfold total_of. induction l as [|y l IH]; cbn in *; lia. Qed.

Section wire.
Context `{SipHashLaws} `{SecretBoxLaws}.

Lemma MakePacket_encode b p e :
  reg_cell b p ->
  MakePacket p e
  = map_err Packet.FrameError (Framing.Encode Framing.MaximumSegmentLength (Packet.raw_bytes (raw_of p))) e.
Proof.
  intros [Hf Hp _ _]. unfold MakePacket. zlen_pos.
  unfold MaxPacketPayloadLength, regulatorOverhead, MaxPacketPaddingLength, MaxPacketPayloadLength in *.
  rewrite !gtb_false by zlia. done.
Qed.

Lemma MakePackets_encodeAll b ps : forall e,
  Forall (reg_cell b) ps -> MakePackets ps e = Packet.encodeAll (map raw_of ps) e.
Proof.
  induction ps as [|p ps IH]; intros e Hc; cbn [MakePackets Packet.encodeAll map]; [done|].
  apply Forall_cons in Hc as [Hp Hc]. unfold mbind, M_bind, mret, M_ret.
  rewrite (MakePacket_encode b) by done. destruct (map_err _ _ e) as [[f|?|?] e1]; try done.
  by rewrite IH.
Qed.

(** 565 bytes on the wire per packet. *)
Lemma MakePackets_zlen b ps : forall e w e',
  Forall (reg_cell b) ps -> MakePackets ps e = (Ok w, e') -> zlen w = 565 * zlen ps.
Proof.
  induction ps as [|p ps IH]; intros e w e' Hc; cbn [MakePackets].
  { mrun. intros [= <- <-]. by rewrite zlen_nil, (zlen_nil (A := packetInfo)). }
  apply Forall_cons in Hc as [Hp Hc]. unfold mbind, M_bind, mret, M_ret.
  rewrite (MakePacket_encode b) by done. destruct (map_err _ _ e) as [[f|?|?] e1] eqn:E; try done.
  destruct (MakePackets ps e1) as [[fs|?|?] e2] eqn:E2; try done. intros [= <- <-].
  apply Packet.encode_cases in E as [(m & _ & Ef & _)|[? _]]; [|done|by eapply reg_cell_raw].
  injection Ef as ->. apply IH in E2; [|done].
  rewrite zlen_app, E2, Framing.frame_of_zlen, Packet.zlen_raw_bytes, (zlen_cons (A := packetInfo)).
  cbn [raw_of Packet.rdata Packet.rrest]. rewrite zlen_app, zlen_be_encode, zlen_zrepeat.
  destruct Hp as [Hf Hp _ _]. unfold MaxPacketPayloadLength in Hf.
  change Packet.packetOverhead with 3. change Framing.FrameOverhead with 18. lia.
Qed.

(** What a list of packets does to the receiver. *)
Definition t0_after (x : Z) (p : packetInfo) : Z :=
  if (pktType p =? PacketTypePayload) && (0 <? zlen (data p)) then t0 p
  else if pktType p =? PacketTypeDummy then Z.max x (t0 p) else x.
Definition told (p : packetInfo) : list bool :=
  if pktType p =? PacketTypeSignalStart then [true]
  else if pktType p =? PacketTypeSignalStop then [false] else [].
Definition told_all (ps : list packetInfo) : list bool := concat (map told ps).

Record reg_received (ps : list packetInfo) (a a' : app) : Prop := {
  reg_role : IsServer (conn a') = IsServer (conn a);
  reg_dist : LenDist (conn a') = LenDist (conn a);
  reg_state : ConnState (conn a') = ConnState (conn a);
  reg_buffer : ReceiveDecodedBuffer (conn a') = ReceiveDecodedBuffer (conn a) ++ stream_of payload ps;
  reg_t0 : ct0 a' = if IsServer (conn a) then ct0 a else foldl t0_after (ct0 a) ps;
  reg_told : paddingChan a' = paddingChan a ++ told_all ps
}.

Lemma t0_decode x rest :
  - 2 ^ 63 <= x < 2 ^ 63 -> i64 (be_decode (ztake 8 (be_encode 8 (u64 x) ++ rest))) = x.
Proof.
  intros Hx. rewrite ztake_app by (by rewrite zlen_be_encode). rewrite be_decode_encode.
  change (256 ^ Z.of_nat 8) with (2 ^ 64). unfold u64. rewrite Z.mod_mod by lia.
  unfold i64, swrap. rewrite Zplus_mod_idemp_l. rewrite Z.mod_small by lia. lia.
Qed.

Lemma handle_reg fuel p a :
  reg_cell (negb (IsServer (conn a))) p ->
  exists a', handle fuel (pktType p) (data p) (Packet.rrest (raw_of p)) a = (Ok tt, a')
             /\ reg_received [p] a a'.
Proof.
  intros [_ _ Ht0 Ht]. unfold handle, raw_of. cbn [Packet.rrest].
  rewrite ltb_false by (rewrite zlen_app, zlen_be_encode; zlen_pos; lia).
  rewrite t0_decode by done. zlen_pos.
  assert (Hcase : pktType p = PacketTypePayload \/ pktType p = PacketTypeDummy
    \/ IsServer (conn a) = true
       /\ (pktType p = PacketTypeSignalStart \/ pktType p = PacketTypeSignalStop)).
  { destruct Ht as [?|[[? _]|(Hs & _ & ?)]]; [tauto..|]. apply negb_false_iff in Hs. tauto. }
  clear Ht. destruct Hcase as [Ht|[Ht|[Hs Ht]]].
  - rewrite Ht. cbn. eexists; split; [reflexivity|].
    assert (Hz : (0 <? zlen (data p)) = false -> data p = []) by (intros; b2p; apply zlen_0; lia).
    split; rewrite ?stream_of_one; unfold payload, told_all, told, t0_after; cbn;
      rewrite ?Ht; cbn; destruct (0 <? zlen (data p)) eqn:E; cbn;
      destruct (IsServer (conn a)) eqn:Hb; cbn; rewrite ?Hb, ?app_nil_r; try done.
    all: first [by rewrite (Hz eq_refl), app_nil_r|by destruct (ct0 a =? t0 p) eqn:E2; b2p].
  - rewrite Ht. cbn. eexists; split; [reflexivity|].
    split; rewrite ?stream_of_one; unfold payload, told_all, told, t0_after; cbn;
      rewrite ?Ht; cbn; destruct (IsServer (conn a)) eqn:Hb; cbn; rewrite ?Hb, ?app_nil_r; try done;
      destruct (ct0 a <? t0 p) eqn:E; b2p; cbn; rewrite ?Hb; try done; lia.
  - destruct Ht as [Ht|Ht]; rewrite Ht; cbn; rewrite Hs; cbn; eexists; (split; [reflexivity|]);
      split; rewrite ?stream_of_one; unfold payload, told_all, told, t0_after; cbn;
      rewrite ?Ht; cbn; rewrite ?Hs, ?app_nil_r; done.
Qed.

Lemma reg_received_cons p ps a a1 a2 :
  reg_received [p] a a1 -> reg_received ps a1 a2 -> reg_received (p :: ps) a a2.
Proof.
  intros [R1 R2 R3 R4 R5 R6] [K1 K2 K3 K4 K5 K6]. split; try congruence.
  - rewrite K4, R4, <- app_assoc, <- stream_of_app. done.
  - rewrite K5, R5, R1. by destruct (IsServer (conn a)).
  - rewrite K6, R6, <- app_assoc. unfold told_all. cbn. by rewrite app_nil_r.
Qed.

Lemma reg_deliver fuel ps : forall a,
  Forall (reg_cell (negb (IsServer (conn a)))) ps ->
  exists a', Packet.deliver_raw (handle fuel) (map raw_of ps) (Ok tt) a = (Ok tt, a')
             /\ reg_received ps a a'.
Proof.
  induction ps as [|p ps IH]; intros a Hc; cbn [Packet.deliver_raw map].
  { exists a. split; [done|]. split; rewrite ?app_nil_r; try done. by destruct (IsServer _). }
  apply Forall_cons in Hc as [Hp Hc].
  destruct (handle_reg fuel p a Hp) as (a1 & E1 & R1). cbn [raw_of Packet.rtype Packet.rdata].
  rewrite E1. destruct (IH a1) as (a2 & -> & K2); [by rewrite (reg_role _ _ _ R1)|].
  exists a2. split; [done|]. by eapply reg_received_cons.
Qed.

(** The link: whatever the segmentation of the bytes, [readPackets] does what
    the packets say, and panics never. *)
Lemma reg_delivery fuel ps e d w e' chunks t a :
  Forall (reg_cell (negb (IsServer (conn a)))) ps -> Framing.synced e d ->
  MakePackets ps e = (Ok w, e') -> concat chunks = w ->
  let out := Packet.readAll (handle fuel) chunks (Packet.mkConn (Framing.mkD d [] t) a) in
  reg_received ps a (Packet.app out.2) /\ Forall (fun r => is_panic r = false) out.1.
Proof.
  intros Hc Hs Hm Hw out.
  rewrite (MakePackets_encodeAll (negb (IsServer (conn a)))) in Hm by done.
  assert (Hok : Forall Packet.raw_ok (map raw_of ps))
    by (apply Forall_map; eapply Forall_impl; [exact Hc|]; intros; by eapply reg_cell_raw).
  destruct (reg_deliver fuel ps a Hc) as (a' & Hd & Hr).
  destruct (Packet.raw_stream_delivery (handle fuel) t (map raw_of ps) e d a w e' chunks Hs Hok Hm Hw)
    as (Ha & Hp & _); [by rewrite Hd|].
  unfold out. by rewrite Ha, Hd.
Qed.

(** The panics of the handler: the packets of anything but this transport may
    lack the eight bytes. *)
Definition reg_panics (isServer : bool) (w : String.string) : Prop :=
  handler_panics isServer w \/ w = "index out of range"%string.

Lemma reg_handle_total fuel b ty p r a :
  dist_wf (conn a) /\ IsServer (conn a) = b ->
  (dist_wf (conn (handle fuel ty p r a).2) /\ IsServer (conn (handle fuel ty p r a).2) = b)
  /\ (forall w, (handle fuel ty p r a).1 = Panic w -> reg_panics b w).
Proof.
  intros [Hd <-]. unfold handle, reg_panics, handler_panics.
  destruct (zlen r <? 8); [split; [done|]; intros w [= <-]; by right|].
  destruct (ty =? _); [by destruct (0 <? _), (IsServer (conn a)) eqn:Es|].
  destruct (ty =? _).
  { pose proof (handle_seed_total fuel p (conn a) Hd) as (H1' & H2' & H3').
    destruct (handle_seed fuel p (conn a)) as [o c]. cbn in *. auto. }
  destruct (IsServer (conn a)) eqn:Es; cbn;
    repeat (destruct (ty =? _); [split; [done|]; intros w [= <-]; left; right; auto|]);
    repeat case_match; done.
Qed.

(** [readPackets] of Regulator on anything the network delivers: it returns,
    keeps the decoder and the distribution well formed, and panics only as the
    handler of defconn does or on a packet with less than eight bytes behind its
    payload; that panic is real on both sides, for every type; and the seed cell
    of the handshake, which defconn makes, does not cause it. *)
Theorem regulator_readPackets_safe fuel rd rdErr c :
  Framing.dec_wf (Framing.dec (Packet.rx c)) -> dist_wf (conn (Packet.app c)) ->
  let out := readPackets fuel rd rdErr c in
  Framing.dec_wf (Framing.dec (Packet.rx out.2)) /\ dist_wf (conn (Packet.app out.2))
  /\ (forall w, out.1 = Panic w ->
        w = "crypto/rand failed"%string \/ reg_panics (IsServer (conn (Packet.app c))) w)
  /\ (forall ty p r a, zlen r < 8 -> handle fuel ty p r a = (Panic "index out of range", a))
  /\ (forall seed a, zlen seed <= SeedPacketPayloadLength ->
        let p := DefConn.cell PacketTypePrngSeed seed in
        handle fuel (Packet.pktType p) (Packet.data p) (zrepeat (Packet.padLen p) Byte.x00) a
        = let '(o, c') := handle_seed fuel seed (conn a) in (o, set_conn c' a)).
Proof.
  intros Hd Ha. destruct (Packet.readPackets_total (handle fuel)
    (fun a => dist_wf (conn a) /\ IsServer (conn a) = IsServer (conn (Packet.app c)))
    (reg_panics (IsServer (conn (Packet.app c))))
    (fun t p r a _ Ha => reg_handle_total fuel _ t p r a Ha) rd rdErr c) as [[? [? _]] Hp];
    [by split_and!|].
  split_and!; [done|done|exact Hp| |].
  - intros ty p r a Hl. unfold handle. by rewrite ltb_true.
  - intros seed a Hl p. unfold handle. cbn [p DefConn.cell Packet.padLen Packet.pktType Packet.data].
    rewrite ltb_false; [done|]. rewrite zlen_zrepeat.
    unfold MaxPacketPaddingLength, MaxPacketPayloadLength, SeedPacketPayloadLength in *.
    change Drbg.SeedLength with 24 in *. lia.
Qed.
End wire.
End Regulator.

Section witnesses.
Import ToySip ToyBox DefConn Regulator.
Definition reg_client : app :=
  mkApp (DefConn.mkApp false (ProbDist.mkWDist 0 1448 false [30; 0] [ProbDist.fone; ProbDist.fone] [1; 0]
    [ProbDist.fone; ProbDist.fone]) NewState 0 []) 0 [].

Lemma regulator_readPackets_safe_witness :
  let c := Packet.mkConn (Framing.mkD toy_dec [] []) reg_client in
  forall w, (readPackets 9 (str "noise from the network") None c).1 = Panic w ->
    w = "crypto/rand failed"%string \/ reg_panics false w.
Proof.
  intros c. apply (regulator_readPackets_safe 9 (str "noise from the network") None c).
  - split; [split; [reflexivity|vm_compute; split; congruence]|].
    split; [reflexivity|left; reflexivity].
  - split; [|reflexivity]. split; cbn; try done.
    + repeat constructor; lia.
    + apply (bool_decide_unpack _). vm_compute. done.
    + repeat constructor; cbn; lia.
Defined.
End witnesses.
