(* ===== verification/RegServer.v ===== *)
(** * A server's end of Regulator: [serverReadFrom]

    The main loop, the goroutine that starts and stops the defense, the reader
    of the upstream and [Send], interleaved in every order.  One step is one
    access to what they share; the clock only moves forward. *)
From S2P Require Import Prelude GoStd Rand GoFloat Drbg Framing ProbDist Packet DefConn Cells Regulator.
From Stdlib Require Import Sorting.Sorted.

Module RegServer.
Import GoFloat DefConn Cells Regulator.

Inductive main_pc :=
| MSelect
| MLoad                            (* load: StateStart? *)
| MNow                             (* curTime := time.Now () *)
| MCal (curTime : Z)               (* CalTargetRate: GetLastSend () *)
| MCmp (newRate : Z)               (* GetTargetRate () != newRate? *)
| MSetRate (newRate : Z)
| MThreshold                       (* GetTargetRate () *)
| MBufLen (threshold : Z)          (* GetLen () / max > threshold? *)
| MSurge                           (* SetLastSend () *)
| MOff                             (* defense off: SetLastSend () *)
| MOffRate                         (* SetTargetRate (conn.r) *)
| MLen                             (* GetLen () > 0? *)
| MRead                            (* receiveBuf.Read *)
| MStart                           (* load: StateStart? *)
| MConsume                         (* ConsumePaddingBudget () *)
| MCurrent                         (* GetPaddingBudget () *)
| MTotal (current : Z)             (* LoadInt32 (&paddingBudget) *)
| MT0 (pktType : Z) (data : bytes) (* GetLastSend () *)
| MSend (p : packetInfo)
| MRho                             (* GetTargetRate () *)
| MSleep (rho : Z)                 (* SleepRho (lastSend, rho) *)
| MDone (err : Packet.error).

(** The goroutine behind [paddingChan], inside [sp.Init] first. *)
Inductive starter_pc :=
| PWait | PRate | PBudget | PLast | PTotal | PStore (v : Z) | PSetStart
| PLoad | PSetStop | PDone.
Inductive reader_pc := URead | UWrite (d : bytes) | UReport (e : Packet.error) | UDone.

Section machine.
Context `{Pow} (prm : params).

Record st := mkSt {
  shd : shared;
  chans : io packetInfo;
  receiveBuf : bytes;
  written : Z;
  sp : serverParams;
  total : Z;                       (* the atomic [paddingBudget] *)
  main : main_pc; starter : starter_pc; reader : reader_pc;
  handler : option bool;           (* a [Read] that sends to [paddingChan] *)
  lastSent : Z;                    (* [lastSend] of the main loop *)
  clock : Z;
  (* history *)
  budgets : list Z;                (* what [SetPaddingBudget] sampled *)
  pauses : list Z;                 (* the [rho] of the pauses that are over *)
  began : Z                        (* when the main loop began *)
}.

Definition set_main m s := mkSt (shd s) (chans s) (receiveBuf s) (written s) (sp s) (total s)
  m (starter s) (reader s) (handler s) (lastSent s) (clock s) (budgets s) (pauses s) (began s).
Definition set_starter p s := mkSt (shd s) (chans s) (receiveBuf s) (written s) (sp s) (total s)
  (main s) p (reader s) (handler s) (lastSent s) (clock s) (budgets s) (pauses s) (began s).
Definition set_reader r s := mkSt (shd s) (chans s) (receiveBuf s) (written s) (sp s) (total s)
  (main s) (starter s) r (handler s) (lastSent s) (clock s) (budgets s) (pauses s) (began s).
Definition set_handler h s := mkSt (shd s) (chans s) (receiveBuf s) (written s) (sp s) (total s)
  (main s) (starter s) (reader s) h (lastSent s) (clock s) (budgets s) (pauses s) (began s).
Definition set_shd c s := mkSt c (chans s) (receiveBuf s) (written s) (sp s) (total s)
  (main s) (starter s) (reader s) (handler s) (lastSent s) (clock s) (budgets s) (pauses s) (began s).
Definition set_chans x s := mkSt (shd s) x (receiveBuf s) (written s) (sp s) (total s)
  (main s) (starter s) (reader s) (handler s) (lastSent s) (clock s) (budgets s) (pauses s) (began s).
Definition set_buf b w s := mkSt (shd s) (chans s) b w (sp s) (total s)
  (main s) (starter s) (reader s) (handler s) (lastSent s) (clock s) (budgets s) (pauses s) (began s).
Definition set_sp p s := mkSt (shd s) (chans s) (receiveBuf s) (written s) p (total s)
  (main s) (starter s) (reader s) (handler s) (lastSent s) (clock s) (budgets s) (pauses s) (began s).
Definition set_total v s := mkSt (shd s) (chans s) (receiveBuf s) (written s) (sp s) v
  (main s) (starter s) (reader s) (handler s) (lastSent s) (clock s) (budgets s) (pauses s) (began s).
Definition set_clock t s := mkSt (shd s) (chans s) (receiveBuf s) (written s) (sp s) (total s)
  (main s) (starter s) (reader s) (handler s) (lastSent s) t (budgets s) (pauses s) (began s).
Definition add_budget v s := mkSt (shd s) (chans s) (receiveBuf s) (written s) (sp s) (total s)
  (main s) (starter s) (reader s) (handler s) (lastSent s) (clock s) (budgets s ++ [v]) (pauses s)
  (began s).
Definition wake rho s := mkSt (shd s) (chans s) (receiveBuf s) (written s) (sp s) (total s)
  (main s) (starter s) (reader s) (handler s) (clock s) (clock s) (budgets s) (pauses s ++ [rho])
  (began s).

(** What [utils.Uniform (0, int (n))] may return. *)
Definition sample_ok (v : Z) : bool := (0 <=? v) && (v <=? n prm).

(** [sp.Init] and the state in which the goroutines begin, at [now]; with
    [n < 0] the sampler panics. *)
Definition begin (c : State) (v now : Z) : option st :=
  if sample_ok v && (0 <=? now) && (now <? 2 ^ 63) then
    Some (mkSt (shared_init c) io_init [] 0 (Init (r prm) v now (mkSp 0 0 0)) 0
               MSelect PWait URead None now now [v] [] now)
  else None.

Definition send (p : packetInfo) (s : st) : option st :=
  x ← enqueue p (chans s); Some (set_chans x s).
Definition fail (e : Packet.error) (s : st) : option st :=
  x ← report e (chans s); Some (set_chans x s).

(** Full cells, with [padLen = MaxPacketPaddingLength - len (data)]. *)
Definition cell (ty : Z) (d : bytes) (t0 : Z) : packetInfo :=
  mkPacketInfo ty d (MaxPacketPaddingLength - zlen d) t0.

(** [dataArr]: the budget left and the budget sampled. *)
Definition dataArr (current total : Z) : bytes :=
  be_encode 4 (u32 current) ++ be_encode 4 (u32 total).
#[local] Arguments dataArr : simpl never.

Definition main_step (s : st) : option st :=
  match main s with
  | MSelect =>
      match take_err (chans s) with
      | Some (e, x) => Some (set_main (MDone e) (set_chans x s))
      | None => Some (set_main MLoad s)
      end
  | MLoad => Some (set_main (if bool_decide (load (shd s) = StateStart) then MNow else MOff) s)
  | MNow => Some (set_main (MCal (clock s)) s)
  | MCal cur => Some (set_main (MCmp (CalTargetRateWithLast (lastSend (sp s)) cur (r prm) (d prm))) s)
  | MCmp v => Some (set_main (if targetRate (sp s) =? v then MThreshold else MSetRate v) s)
  | MSetRate v => Some (set_main MThreshold (set_sp (SetTargetRate v (sp s)) s))
  | MThreshold => Some (set_main (MBufLen (threshold prm (targetRate (sp s)))) s)
  | MBufLen thr =>
      Some (set_main (if zlen (receiveBuf s) / MaxPacketPayloadLength >? thr then MSurge else MLen) s)
  | MSurge => Some (set_main MLen (set_sp (SetLastSend (clock s) (sp s)) s))
  | MOff => Some (set_main MOffRate (set_sp (SetLastSend (clock s) (sp s)) s))
  | MOffRate => Some (set_main MLen (set_sp (SetTargetRate (r prm) (sp s)) s))
  | MLen => Some (set_main (if 0 <? zlen (receiveBuf s) then MRead else MStart) s)
  | MRead =>
      let p := ztake MaxPacketPayloadLength (receiveBuf s) in
      if zlen (receiveBuf s) =? 0 then Some (set_main (MDone (Packet.NetError Packet.EOF)) s)
      else Some (set_main (MT0 PacketTypePayload p)
                   (set_buf (zdrop MaxPacketPayloadLength (receiveBuf s)) (written s + zlen p) s))
  | MStart => Some (set_main (if bool_decide (load (shd s) = StateStart) then MConsume else MRho) s)
  | MConsume =>
      let '(ok, p) := ConsumePaddingBudget (sp s) in
      Some (set_main (if ok then MCurrent else MRho) (set_sp p s))
  | MCurrent => Some (set_main (MTotal (paddingBudget (sp s))) s)
  | MTotal cur =>
      Some (set_main (MT0 PacketTypeDummy (dataArr cur (total s))) s)
  | MT0 ty d => Some (set_main (MSend (cell ty d (lastSend (sp s)))) s)
  | MSend p => set_main MRho <$> send p s
  | MRho => Some (set_main (MSleep (serverRho (targetRate (sp s)))) s)
  | MSleep rho => if lastSent s + rho <=? clock s then Some (set_main MSelect (wake rho s)) else None
  | MDone _ => None
  end.

Inductive event :=
| EvRead (data : bytes) | EvReadErr (e : Packet.error)
| EvMain | EvReader | EvSend (ev : send_event)
| EvStarter | EvBudget (v : Z)       (* SetPaddingBudget samples [v] *)
| EvSignal (start : bool)            (* [readPackets] got a signal *)
| EvClock (t : Z)
| EvExit.

Definition starter_step (s : st) : option st :=
  match starter s with
  | PWait =>
      match handler s with
      | Some b => Some (set_starter (if b then PRate else PLoad) (set_handler None s))
      | None => None
      end
  | PRate => Some (set_starter PBudget (set_sp (SetTargetRate (r prm) (sp s)) s))
  | PLast => Some (set_starter PTotal (set_sp (SetLastSend (clock s) (sp s)) s))
  | PTotal => Some (set_starter (PStore (paddingBudget (sp s))) s)
  | PStore v => Some (set_starter PSetStart (set_total v s))
  | PSetStart => Some (set_starter PWait (set_shd (set_state StateStart (shd s)) s))
  | PLoad => Some (set_starter (if bool_decide (load (shd s) = StateStop) then PWait else PSetStop) s)
  | PSetStop => Some (set_starter PWait (set_shd (set_state StateStop (shd s)) s))
  | PBudget | PDone => None
  end.

Definition reader_step (s : st) : option st :=
  match reader s with
  | UWrite d => Some (set_reader URead (set_buf (receiveBuf s ++ d) (written s) s))
  | UReport e => set_reader UDone <$> fail e s
  | URead | UDone => None
  end.

Definition closed (s : st) : bool := match main s with MDone _ => true | _ => false end.

Definition exec (ev : event) (s : st) : option st :=
  match ev with
  | EvRead data =>
      match reader s with
      | URead =>
          if zlen data >? 65535 then None
          else if zlen data =? 0 then Some (set_reader (UReport (Packet.NetError Packet.EOF)) s)
          else Some (set_reader (UWrite data) (set_chans (log_read data (chans s)) s))
      | _ => None
      end
  | EvReadErr e => match reader s with URead => Some (set_reader (UReport e) s) | _ => None end
  | EvMain => main_step s
  | EvReader => reader_step s
  | EvSend ev => x ← send_step (closed s) ev (chans s); Some (set_chans x s)
  | EvStarter => starter_step s
  | EvBudget v =>
      match starter s with
      | PBudget =>
          if sample_ok v
          then Some (set_starter PLast (add_budget v (set_sp (SetPaddingBudget v (sp s)) s)))
          else None
      | _ => None
      end
  | EvSignal b => match handler s with None => Some (set_handler (Some b) s) | Some _ => None end
  | EvClock t => if (clock s <=? t) && (t <? 2 ^ 63) then Some (set_clock t s) else None
  | EvExit =>
      if closed s then
        Some (set_reader (match reader s with URead => UDone | u => u end)
                (set_starter (match starter s with PWait => PDone | p => p end) s))
      else None
  end.
Definition step : st -> st -> Prop := does exec.

(** ** Invariants of every interleaving *)

Ltac machine_cases E :=
  unfold exec, main_step, starter_step, reader_step, send, fail, ConsumePaddingBudget in E;
  step_cases E; subst.

(** What the main loop and the reader hold of the stream. *)
Definition hand (m : main_pc) : bytes :=
  match m with
  | MT0 ty d => if ty =? PacketTypePayload then d else []
  | MSend p => payload p
  | _ => []
  end.
Definition reader_hand (u : reader_pc) : bytes := match u with UWrite d => d | _ => [] end.

(** The times only grow, down to the packets of the channel. *)
Definition t0s (s : st) : list Z := map t0 (queued (chans s)).
Definition main_ok (s : st) : Prop :=
  match main s with
  | MRead => 0 < zlen (receiveBuf s)
  | MT0 ty d => ty = PacketTypePayload /\ 0 < zlen d <= MaxPacketPayloadLength
                \/ ty = PacketTypeDummy /\ zlen d = 8
  | MSend p => reg_cell true p /\ 0 < zlen (data p) /\ t0 p <= lastSend (sp s) /\ Forall (fun x => x <= t0 p) (t0s s)
  | _ => True
  end.

Record Inv (s : st) : Prop := {
  inv_io : IoInv payload (reg_cell true)
             (hand (main s) ++ receiveBuf s ++ reader_hand (reader s)) (chans s);
  inv_main : main_ok s;
  inv_clock : 0 <= lastSend (sp s) <= clock s /\ clock s < 2 ^ 63;
  inv_t0s : Forall (fun x => x <= lastSend (sp s)) (t0s s);
  inv_sorted : StronglySorted Z.le (t0s s);
  inv_data : Forall (fun p => 0 < zlen (data p)) (queued (chans s))
}.

Lemma reg_payload b d t : zlen d <= MaxPacketPayloadLength -> - 2 ^ 63 <= t < 2 ^ 63 ->
  reg_cell b (cell PacketTypePayload d t).
Proof.
  intros Hd Ht. split; cbn [cell pktType data padLen t0]; auto;
    unfold MaxPacketPaddingLength; lia.
Qed.
Lemma reg_dummy d t : zlen d = 8 -> - 2 ^ 63 <= t < 2 ^ 63 -> reg_cell true (cell PacketTypeDummy d t).
Proof.
  intros Hd Ht. split; cbn [cell pktType data padLen t0]; auto;
    unfold MaxPacketPaddingLength, MaxPacketPayloadLength; lia.
Qed.

Lemma regs_begin_Inv c v now s : begin c v now = Some s -> Inv s.
Proof.
  unfold begin. destruct (_ && _) eqn:E; [|done]. b2p. intros [= <-].
  split; cbn; [apply IoInv_init|done|lia|done|constructor|done].
Qed.

Lemma sorted_snoc l x : StronglySorted Z.le l -> Forall (fun y => y <= x) l -> StronglySorted Z.le (l ++ [x]).
Proof.
  induction 1 as [|y l Hs IH Hy]; cbn; intros Hx; [by repeat constructor|].
  apply Forall_cons in Hx as [Hyx Hx]. constructor; [by apply IH|].
  by apply Forall_app_2; [|apply Forall_singleton].
Qed.

(** Steps that leave the channel, the buffer and the hands alone. *)
Lemma regs_Inv_same s s' :
  Inv s -> chans s' = chans s -> hand (main s') = hand (main s) -> receiveBuf s' = receiveBuf s ->
  reader_hand (reader s') = reader_hand (reader s) ->
  lastSend (sp s) <= lastSend (sp s') <= clock s' -> clock s' < 2 ^ 63 -> main_ok s' -> Inv s'.
Proof.
  intros [Hio Hm Hc Ht Hs Hda] E1 E2 E3 E4 Hl Hcl Hm'. split; unfold t0s; rewrite ?E1, ?E2, ?E3, ?E4; try done.
  - lia.
  - eapply Forall_impl; [exact Ht|]. cbn. lia.
Qed.

Lemma sorted_app_l l1 l2 : StronglySorted Z.le (l1 ++ l2) -> StronglySorted Z.le l1.
Proof.
  induction l1 as [|x l1 IH]; cbn; [constructor|]. inversion 1 as [|? ? Hs Hx]; subst.
  constructor; [by apply IH|]. by apply Forall_app in Hx as [? _].
Qed.

Lemma regs_Inv_send p s s1 :
  Inv s -> main s = MSend p -> send p s = Some s1 -> Inv (set_main MRho s1).
Proof.
  intros [Hio Hm Hc Ht Hs Hda] Em. unfold main_ok in Hm. rewrite Em in *. destruct Hm as (Hp & Hd & Hl & Hle).
  unfold send. destruct (enqueue p (chans s)) as [x|] eqn:E; cbn; [|done]. intros [= <-].
  assert (Eq : t0s (set_main MRho (set_chans x s)) = t0s s ++ [t0 p]).
  { unfold t0s. cbn. apply io_enqueue_Some in E as ->. cbn. by rewrite map_app. }
  split; rewrite ?Eq; cbn; try done.
  - by eapply IoInv_enqueue.
  - by apply Forall_app_2; [|apply Forall_singleton].
  - by apply sorted_snoc.
  - apply io_enqueue_Some in E as ->. by apply Forall_app_2; [|apply Forall_singleton].
Qed.

Lemma regs_main_step_Inv s s' : Inv s -> main_step s = Some s' -> Inv s'.
Proof.
  intros Hi E. pose proof Hi as [Hio Hm Hc Ht Hs Hda]. unfold main_ok in Hm. unfold main_step in E.
  destruct (main s) eqn:Em; try done.
  all: try solve [step_cases E; subst; apply (regs_Inv_same s); cbn; rewrite ?Em; unfold main_ok; cbn;
                  b2p; try done; lia].
  - destruct (take_err _) as [[e x]|] eqn:Ee; injection E as <-.
    + split; cbn; try done; [by eapply IoInv_take_err|..]; unfold t0s in *; cbn;
        unfold take_err in Ee; destruct (errChan _); simplify_eq; done.
    + apply (regs_Inv_same s); cbn; rewrite ?Em; try done; lia.
  - rewrite eqb_false in E by lia. injection E as <-. split; cbn; try done.
    + rewrite (app_assoc (ztake _ _)), ztake_zdrop. done.
    + unfold main_ok; cbn. left. split; [done|]. rewrite zlen_ztake. cbn in Hm.
      unfold MaxPacketPayloadLength. zlen_pos. lia.
  - unfold ConsumePaddingBudget in E. destruct (0 <? _); injection E as <-;
      apply (regs_Inv_same s); cbn; rewrite ?Em; try done; cbn; lia.
  - injection E as <-. apply (regs_Inv_same s); cbn; rewrite ?Em; try done; [lia|lia|].
    right. split; [done|]. unfold dataArr. by rewrite zlen_app, !zlen_be_encode.
  - injection E as <-. assert (Hb : - 2 ^ 63 <= lastSend (sp s) < 2 ^ 63) by lia.
    split; cbn; try done.
    + unfold main_ok; cbn. split_and!; [|destruct Hm as [[_ ?]|[_ ?]]; lia|lia|done].
      destruct Hm as [[-> Hd]|[-> Hd]]; [apply reg_payload; [lia|done]|by apply reg_dummy].
  - destruct (send p s) as [s1|] eqn:E1; cbn in E; [|done]. injection E as <-. by eapply regs_Inv_send.
Qed.

Lemma regs_exec_Inv ev s s' : Inv s -> exec ev s = Some s' -> Inv s'.
Proof.
  intros Hi E. pose proof Hi as [Hio Hm Hc Ht Hs Hda].
  assert (Hsame : forall s1, chans s1 = chans s -> receiveBuf s1 = receiveBuf s ->
    main s1 = main s -> reader_hand (reader s1) = reader_hand (reader s) ->
    lastSend (sp s) <= lastSend (sp s1) <= clock s1 -> clock s1 < 2 ^ 63 -> Inv s1).
  { intros s1 E1 E2 E3 E4 Hl Hcl. apply (regs_Inv_same s); rewrite ?E3; try done.
    unfold main_ok, t0s in *. rewrite E1, E2, E3. destruct (main s); try done.
    destruct Hm as (? & ? & ? & ?). split_and!; [done|done|lia|done]. }
  assert (Hchans : forall x, (forall rest, IoInv payload (reg_cell true) rest (chans s) ->
                                IoInv payload (reg_cell true) rest x) ->
                             queued x = queued (chans s) -> Inv (set_chans x s)).
  { intros x Hx Eq. split; unfold main_ok, t0s in *; cbn; rewrite ?Eq; try done. by apply Hx. }
  destruct ev; cbn [exec] in E.
  - destruct (reader s) eqn:Er; try done. destruct (_ >? _); [done|].
    destruct (_ =? 0); injection E as <-; [apply Hsame; cbn; rewrite ?Er; try done; lia|].
    split; cbn; try done. cbn [reader_hand] in Hio. rewrite app_nil_r in Hio.
    rewrite (app_assoc (hand _)). by apply IoInv_read.
  - destruct (reader s) eqn:Er; try done. injection E as <-. apply Hsame; cbn; rewrite ?Er; try done; lia.
  - by eapply regs_main_step_Inv.
  - unfold reader_step in E. destruct (reader s) eqn:Er; try done.
    + injection E as <-. split; cbn; try done.
      * by rewrite app_nil_r.
      * unfold main_ok, t0s in *; cbn. destruct (main s); try done. rewrite zlen_app. zlia.
    + unfold fail in E. destruct (report _ _) as [x|] eqn:Ex; cbn in E; [|done]. injection E as <-.
      assert (Hx : Inv (set_chans x s)).
      { apply Hchans; [intros rest; by eapply IoInv_report|]. by apply report_Some in Ex as ->. }
      destruct Hx as [Hx1 Hx2 Hx3 Hx4 Hx5 Hx6]. split; try done. cbn in *. by rewrite Er in Hx1.
  - destruct (send_step _ _ _) as [x|] eqn:Ex; cbn in E; [|done]. injection E as <-.
    apply Hchans; [intros rest; by eapply IoInv_send|]. by apply send_step_queued in Ex as [-> _].
  - unfold starter_step in E. step_cases E; subst; apply Hsame; cbn; try done; lia.
  - step_cases E; subst; apply Hsame; cbn; try done; lia.
  - step_cases E; subst; apply Hsame; cbn; try done; lia.
  - step_cases E; subst; b2p; apply Hsame; cbn; try done; lia.
  - step_cases E; subst; apply Hsame; cbn; repeat case_match; try done; lia.
Qed.

Lemma regs_reachable c v now s0 s :
  begin c v now = Some s0 -> rtc step s0 s -> Inv s.
Proof.
  intros Hb. apply does_invariant; [by intros; eapply regs_exec_Inv|]. by eapply regs_begin_Inv.
Qed.

(** ** The budget and the pace *)

Definition is_dummy (p : packetInfo) : bool := pktType p =? PacketTypeDummy.
(** A dummy that is paid for and not queued yet. *)
Definition in_flight (m : main_pc) : Z :=
  match m with
  | MCurrent | MTotal _ => 1
  | MT0 ty _ => if ty =? PacketTypeDummy then 1 else 0
  | MSend p => if is_dummy p then 1 else 0
  | _ => 0
  end.
Definition dummies (s : st) : Z := count is_dummy (queued (chans s)) + in_flight (main s).
Definition starting (p : starter_pc) : bool :=
  match p with PLast | PTotal | PStore _ | PSetStart => true | _ => false end.

(** What is sampled pays for the dummies; the first sample, of a connection
    that has not started, pays for none. *)
Record budget_ok (s : st) : Prop := {
  bo_left : 0 <= paddingBudget (sp s);
  bo_paid : 1 < zlen (budgets s) -> dummies s + paddingBudget (sp s) <= total_of (tail (budgets s));
  bo_some : 1 <= zlen (budgets s);
  bo_samples : Forall (fun v => 0 <= v <= n prm) (budgets s);
  bo_idle : zlen (budgets s) = 1 ->
    load (shd s) <> StateStart /\ dummies s = 0 /\ main s <> MConsume /\ starting (starter s) = false
}.

(** The starts that the client signalled, those that wait to be sampled for among
    them, pay for the samples. *)
Definition is_start (ev : event) : Z := match ev with EvSignal true => 1 | _ => 0 end.
Definition starts (evs : list event) : Z := foldr (fun ev acc => is_start ev + acc) 0 evs.
Definition pending (s : st) : Z :=
  match handler s with Some true => 1 | _ => 0 end + match starter s with PRate | PBudget => 1 | _ => 0 end.
Definition signalled (k : Z) (s : st) : Prop := zlen (budgets s) - 1 + pending s <= k.

Lemma regs_exec_signalled ev k s s' : signalled k s -> exec ev s = Some s' -> signalled (k + is_start ev) s'.
Proof.
  unfold signalled, pending. intros Hk E. destruct ev; cbn [is_start] in *; try (case_match; subst); machine_cases E; cbn in *;
    rewrite ?zlen_app; try change (zlen [v]) with 1; repeat case_match; try lia; try discriminate.
Qed.

(** The rate [r * d^e], [e] after the surge began, at least one; and the pause [1 / v]. *)
Definition decayed (e : Z) : Z :=
  Z.max 1 (trunc_int overflow 32 (f64_mul (f64_of_Z (r prm)) (pow (widen (d prm)) (seconds e)))).
Definition pause_of (v : Z) : Z :=
  trunc_int overflow 64 (f64_mul (f64_div (f64_of_Z 1) (f64_of_Z v)) (f64_of_Z 1000000000)).

(** A rate is the configured one, one that has decayed for no longer than the
    connection lasts, or zero, after the race of [rate_zero_race]. *)
Definition rate_ok (k v : Z) : Prop := v = r prm \/ v = 0 \/ exists e, 0 <= e <= k /\ v = decayed e.
Definition rho_ok (k rho : Z) : Prop := exists v, rate_ok k v /\ rho = pause_of v.
Definition after_send (m : main_pc) : Z := match m with MRho | MSleep _ => 1 | _ => 0 end.
Definition age (s : st) : Z := clock s - began s.

(** At most one packet per pause, and the pauses take their time. *)
Record pace_ok (s : st) : Prop := {
  po_count : zlen (queued (chans s)) <= zlen (pauses s) + after_send (main s);
  po_sum : total_of (map (Z.max 0) (pauses s)) <= lastSent s - began s;
  po_clock : lastSent s <= clock s /\ 0 <= began s /\ clock s < 2 ^ 63;
  po_last : began s <= lastSend (sp s) <= clock s;
  po_rate : rate_ok (age s) (targetRate (sp s));
  po_main : match main s with
            | MCal cur => began s <= cur <= clock s
            | MCmp v | MSetRate v => rate_ok (age s) v
            | MSleep rho => rho_ok (age s) rho
            | _ => True
            end;
  po_pauses : Forall (rho_ok (age s)) (pauses s)
}.

Lemma cal_decayed last cur : 0 <= last < 2 ^ 63 -> 0 <= cur < 2 ^ 63 ->
  CalTargetRateWithLast last cur (r prm) (d prm) = if last <=? cur then decayed (cur - last) else 0.
Proof.
  intros Hl Hc. unfold CalTargetRateWithLast, decayed, Sub.
  rewrite (Z.min_r (2 ^ 63 - 1)), Z.max_r by lia.
  destruct (Z.leb_spec last cur); [rewrite leb_true by lia|by rewrite leb_false by lia].
  destruct (Z.ltb_spec (trunc_int overflow 32 (f64_mul (f64_of_Z (r prm)) (pow (widen (d prm)) (seconds (cur - last))))) 1); lia.
Qed.
Lemma rate_cal b k last cur : 0 <= b -> b + k < 2 ^ 63 -> b <= last <= b + k -> b <= cur <= b + k ->
  rate_ok k (CalTargetRateWithLast last cur (r prm) (d prm)).
Proof.
  intros Hb Hk Hl Hc. rewrite cal_decayed by lia. right. destruct (Z.leb_spec last cur); [|by left].
  right. exists (cur - last). split; [lia|done].
Qed.
Lemma rate_mono k k' v : k <= k' -> rate_ok k v -> rate_ok k' v.
Proof. intros Hk [->|[->|(e & He & ->)]]; [by left|by right; left|]. right. right. exists e. split; [lia|done]. Qed.
Lemma rho_mono k k' rho : k <= k' -> rho_ok k rho -> rho_ok k' rho.
Proof. intros Hk (v & Hv & ->). exists v. split; [by eapply rate_mono|done]. Qed.

Lemma regs_enqueued (p : packetInfo) s s' :
  send p s = Some s' -> exists x, enqueue p (chans s) = Some x /\ s' = set_chans x s.
Proof. unfold send. destruct (enqueue _ _) as [x|]; cbn; [|done]. intros [= <-]. eauto. Qed.

Lemma regs_quiet_queued ev s s' :
  exec ev s = Some s' -> (forall p, main s <> MSend p) \/ ev <> EvMain ->
  queued (chans s') = queued (chans s).
Proof.
  intros E Hq. destruct ev; cbn [exec] in E.
  3: { unfold main_step in E. destruct (main s) eqn:Em; try (exfalso; destruct Hq as [Hq|Hq]; [exact (Hq _ eq_refl)|done]).
       all: unfold ConsumePaddingBudget in E; step_cases E; subst; try done.
       cbn. match goal with H : take_err _ = Some _ |- _ => by apply take_err_queued in H as [-> _] end. }
  4: { destruct (send_step _ _ _) as [x|] eqn:Ex; cbn in E; [|done]. injection E as <-. cbn.
       by apply send_step_queued in Ex as [-> _]. }
  all: unfold reader_step, starter_step, fail in E; step_cases E; subst; try done.
  all: cbn; match goal with H : report _ _ = Some _ |- _ => by apply report_queued in H as [-> _] end.
Qed.

(** What a step queues. *)
Lemma regs_queued ev s s' :
  exec ev s = Some s' ->
  queued (chans s') = queued (chans s) /\ ((forall p, main s <> MSend p) \/ ev <> EvMain)
  \/ exists p x, main s = MSend p /\ ev = EvMain /\ queued x = queued (chans s) ++ [p]
       /\ s' = set_main MRho (set_chans x s).
Proof.
  intros E. assert (ev = EvMain \/ ev <> EvMain) as [->|Hne] by (destruct ev; auto);
    [|left; split; [eapply regs_quiet_queued|]; eauto].
  assert ((exists p, main s = MSend p) \/ forall p, main s <> MSend p) as [[p Em]|Hq]
    by (destruct (main s); eauto; right; done);
    [|left; split; [eapply regs_quiet_queued|]; eauto].
  right. cbn in E. unfold main_step in E. rewrite Em in E.
  destruct (send p s) as [s1|] eqn:E1; cbn in E; [|done]. injection E as <-.
  apply regs_enqueued in E1 as (x & Ex & ->). exists p, x. by apply io_enqueue_Some in Ex as ->.
Qed.

Lemma regs_begin_budget c v now s :
  begin c v now = Some s -> curState c <> StateStart -> budget_ok s.
Proof.
  unfold begin, sample_ok. destruct (_ && _) eqn:E; [|done]. b2p. intros [= <-] Hc.
  split; cbn; try done; try lia. by repeat constructor.
Qed.

Lemma regs_budget_main s s' :
  budget_ok s -> main_step s = Some s' -> (forall p, main s <> MSend p) ->
  queued (chans s') = queued (chans s) -> budget_ok s'.
Proof.
  intros [Hl Hp Hn Hs Hi] E Hq Eq. unfold main_step in E. unfold dummies in *.
  destruct (main s) eqn:Em; cbn [in_flight] in *; try (exfalso; exact (Hq _ eq_refl)); try done.
  15: { unfold ConsumePaddingBudget in E. destruct (0 <? _) eqn:E0; b2p; injection E as <-;
        split; unfold dummies; cbn in *; try done; try lia; intros Hz; by destruct (Hi Hz) as (_ & _ & ? & _). }
  all: step_cases E; subst; split; unfold dummies in *; rewrite ?Eq; cbn; try done; try lia.
  all: intros Hz; destruct (Hi Hz) as (H1 & H2 & H3 & H4); split_and!; try done; try lia.
  all: by match goal with Hd : bool_decide _ = true |- _ => apply bool_decide_eq_true in Hd end.
Qed.

Lemma regs_exec_budget ev s s' : budget_ok s -> exec ev s = Some s' -> budget_ok s'.
Proof.
  intros Hb E. destruct (regs_queued _ _ _ E) as [[Eq Hq]|(p & x & Em & -> & Ex & ->)].
  2: { destruct Hb as [Hl Hp Hn Hs Hi]. split; unfold dummies in *; cbn; try done;
       rewrite Em in *; rewrite ?Ex, ?count_app, ?count_one; cbn [in_flight] in *; [lia|].
       intros Hz. destruct (Hi Hz) as (H1 & H2 & H3 & H4). split_and!; try done. lia. }
  assert ((exists m, ev = EvMain /\ m = main s) \/ ev <> EvMain) as [(m & -> & _)|Hne]
    by (destruct ev; eauto).
  { destruct Hq as [Hq|?]; [|done]. by eapply regs_budget_main. }
  clear Hq. destruct Hb as [Hl Hp Hn Hs Hi]. unfold dummies in Hp, Hi.
  destruct ev; cbn [exec] in E; try done; unfold reader_step, starter_step, fail, sample_ok in E;
    step_cases E; subst; split; unfold dummies; rewrite ?Eq; cbn in *; try done; b2p;
    rewrite ?total_of_snoc; try lia; try (intros Hz; destruct (Hi Hz) as (H1 & H2 & H3 & H4)); try done.
  all: rewrite ?zlen_app in *; change (zlen [v]) with 1 in *; try (exfalso; lia); try lia.
  - intros _. destruct (budgets s) as [|b l]; [by cbn in Hn|].
    change (tail ((b :: l) ++ [v])) with (l ++ [v]). cbn [tail] in Hp. rewrite total_of_snoc, zlen_cons in *. pose proof (zlen_nonneg l). destruct (decide (1 < 1 + zlen l)); [lia|].
    assert (l = []) as -> by (apply zlen_0; lia). destruct Hi as (_ & Hd & _); [done|]. unfold total_of. cbn. lia.
  - by apply Forall_app_2; [|apply Forall_singleton].
Qed.

Lemma regs_begin_signalled c v now s : begin c v now = Some s -> signalled 0 s.
Proof. unfold begin. destruct (_ && _); [|done]. by intros [= <-]. Qed.
Lemma in_flight_nonneg m : 0 <= in_flight m.
Proof. unfold in_flight. repeat case_match; done. Qed.
Lemma pending_nonneg s : 0 <= pending s.
Proof. unfold pending. repeat case_match; lia. Qed.
Lemma total_of_samples l : Forall (fun v => 0 <= v <= n prm) l -> total_of l <= n prm * zlen l.
Proof.
  unfold total_of. induction 1 as [|v l Hv _ IH]; cbn; [unfold zlen; cbn; lia|].
  rewrite zlen_cons. lia.
Qed.

Lemma regs_begin_pace c v now s : begin c v now = Some s -> pace_ok s.
Proof.
  unfold begin. destruct (_ && _) eqn:E; [|done]. intros [= <-].
  b2p. split; unfold age, total_of; cbn; try done; try lia. by left.
Qed.

(** The rate of a turn, by its steps. *)
Lemma turn_rate s : 0 <= lastSend (sp s) <= clock s /\ clock s < 2 ^ 63 -> main s = MLoad ->
  exists k s', runs exec (replicate k EvMain) s = Some s'
    /\ main s' = (if bool_decide (load (shd s) = StateStart) then MThreshold else MLen)
    /\ targetRate (sp s') = if bool_decide (load (shd s) = StateStart) then decayed (clock s - lastSend (sp s)) else r prm.
Proof.
  intros Hc Em.
  assert (Ed : CalTargetRateWithLast (lastSend (sp s)) (clock s) (r prm) (d prm) = decayed (clock s - lastSend (sp s)))
    by (rewrite cal_decayed, leb_true by lia; done).
  destruct (bool_decide (load (shd s) = StateStart)) eqn:El.
  - destruct (targetRate (sp s) =? decayed (clock s - lastSend (sp s))) eqn:Et;
      [exists 4%nat|exists 5%nat]; eexists; (split; [|split]);
      try (cbn [replicate runs exec]; unfold main_step; rewrite Em; cbn -[Z.eqb CalTargetRateWithLast decayed bool_decide];
           rewrite El; cbn -[Z.eqb CalTargetRateWithLast decayed bool_decide]; rewrite Ed, Et; reflexivity); try reflexivity.
    b2p. exact Et.
  - exists 3%nat. eexists. split.
    + cbn [replicate runs exec]; unfold main_step; rewrite Em; cbn -[bool_decide]; rewrite El; reflexivity.
    + by split.
Qed.

Lemma regs_exec_pace ev s s' : pace_ok s -> exec ev s = Some s' -> pace_ok s'.
Proof.
  intros Hb E. destruct (regs_queued _ _ _ E) as [[Eq Hq]|(p & x & Em & -> & Ex & ->)].
  2: { destruct Hb as [Hc Hs Hl Hla Hr Hm Hp]. split; unfold age in *; cbn; try done. rewrite Em in Hc; cbn in Hc.
       rewrite Ex, zlen_app. change (zlen [p]) with 1. lia. }
  destruct Hb as [Hc Hs Hl Hla Hr Hm Hp]. destruct ev; cbn [exec] in E.
  3: { unfold main_step in E. destruct Hq as [Hq|?]; [|done]. unfold age in *.
       destruct (main s) eqn:Em; cbn [after_send] in *; try (exfalso; exact (Hq _ eq_refl)); try done.
       all: unfold ConsumePaddingBudget in E; step_cases E; subst; split; unfold age; rewrite ?Eq; cbn; try done; try lia.
       all: try (match goal with Hc : _ = (_, _) |- _ => destruct (0 <? _); simplify_eq; done end).
       - apply (rate_cal (began s)); lia.
       - by left.
       - by exists (targetRate (sp s)).
       - rewrite zlen_app. change (zlen [rho]) with 1. lia.
       - rewrite map_app. cbn [map]. rewrite total_of_snoc. b2p. lia.
       - by apply Forall_app_2; [|apply Forall_singleton]. }
  all: unfold reader_step, starter_step, fail in E; step_cases E; subst; split; unfold age in *; rewrite ?Eq; cbn in *;
    try done; b2p; try lia; try (by left).
  all: assert (Hk : clock s - began s <= t1 - began s) by lia.
  - by eapply rate_mono.
  - destruct (main s); try done; [lia|by eapply rate_mono..|by eapply rho_mono].
  - eapply List.Forall_impl, Hp. intros x. by apply rho_mono.
Qed.

(** C9: the padding of a Regulator server, for every interleaving: the dummies
    it ever queues are at most the budgets it sampled since the client first
    started the defense, each between 0 and [n], and there is at most one such
    budget for every start that the client signalled, so that there are at most
    [n] dummies for each start, and none before the first. *)
Theorem regulator_budget c v now s0 evs s :
  begin c v now = Some s0 -> curState c <> StateStart -> runs exec evs s0 = Some s ->
  count is_dummy (queued (chans s)) <= total_of (tail (budgets s)) <= n prm * starts evs
  /\ Forall (fun v => 0 <= v <= n prm) (budgets s)
  /\ zlen (tail (budgets s)) <= starts evs
  /\ 0 <= paddingBudget (sp s).
Proof.
  intros Hb Hc Hr.
  assert (budget_ok s) as [Hl Hp Hn Hs Hi].
  { eapply (does_invariant exec); [intros; by eapply regs_exec_budget|by eapply regs_begin_budget|by eapply runs_rtc]. }
  assert (Hk : signalled (0 + starts evs) s).
  { eapply (runs_sum exec is_start); [intros; by eapply regs_exec_signalled| |exact Hr]. by eapply regs_begin_signalled. }
  pose proof (count_nonneg is_dummy (queued (chans s))). pose proof (in_flight_nonneg (main s)).
  pose proof (pending_nonneg s). unfold signalled, dummies in *.
  destruct (budgets s) as [|b l] eqn:E; [by cbn in Hn|]. cbn [tail] in *. rewrite zlen_cons in *.
  assert (Hl' : Forall (fun v => 0 <= v <= n prm) l) by (by apply Forall_cons in Hs as [_ ?]).
  pose proof (total_of_samples l Hl'). assert (H0n : 0 <= n prm) by (apply Forall_cons in Hs as [? _]; lia).
  split_and!; [|nia|done|lia|done]. pose proof (zlen_nonneg l). destruct (decide (1 < 1 + zlen l)); [lia|].
  destruct Hi as (_ & Hd & _); [lia|]. assert (l = []) as -> by (apply zlen_0; lia). change (total_of []) with 0. lia.
Qed.


Lemma last_default (l : list Z) : forall y x, List.last (y :: l) x = List.last l y.
Proof. induction l as [|z l IH]; intros y x; [done|]. change (List.last (z :: l) x = List.last (z :: l) y). by rewrite !IH. Qed.

(** A client that takes the packets in order, and whose own surge began before
    them, knows the surge of the last of them. *)
Lemma t0_sync ps : forall x,
  Forall (reg_cell true) ps -> Forall (fun p => 0 < zlen (data p)) ps ->
  StronglySorted Z.le (map t0 ps) -> Forall (fun y => x <= y) (map t0 ps) ->
  foldl t0_after x ps = List.last (map t0 ps) x.
Proof.
  induction ps as [|p ps IH]; intros x Hc Hd Hs Hx; cbn [foldl map]; [done|].
  apply Forall_cons in Hc as [Hp Hc]. apply Forall_cons in Hd as [Hl Hd].
  apply Forall_cons in Hx as [Hxp _]. cbn [map] in Hs. inversion Hs as [|? ? Hs' Hle]; subst.
  assert (Ht : t0_after x p = t0 p).
  { unfold t0_after. rewrite (ltb_true 0) by done. rewrite andb_true_r.
    destruct Hp as [_ _ _ [-> |[[-> _]|(? & _)]]]; cbn; [done|lia|done]. }
  by rewrite Ht, IH, last_default.
Qed.

Lemma told_server ps : Forall (reg_cell true) ps -> told_all ps = [].
Proof.
  unfold told_all. induction 1 as [|p ps Hp _ IH]; cbn; [done|]. rewrite IH, app_nil_r.
  destruct Hp as [_ _ _ [Ht|[[Ht _]|(? & _)]]]; unfold told; try rewrite Ht; done.
Qed.
End machine.

Section wire.
Context `{SipHashLaws} `{SecretBoxLaws}.

(** C7: the downstream end to end under Regulator: for every interleaving at the
    server and every way the network cuts the bytes, the wire image is 565 bytes
    per packet whatever the packets are, the client appends to its stream exactly
    the payload on the wire, a prefix of what the server read, and never panics;
    and the surge the client computes its own rate from becomes that of the last
    packet it got, provided its own did not begin after the first one. *)
Theorem regulator_client_follows `{Pow} prm c v now s0 s fuel t e d w e' chunks a :
  begin prm c v now = Some s0 -> rtc (step prm) s0 s -> IsServer (conn a) = false ->
  Framing.synced e d -> MakePackets (wire (chans s)) e = (Ok w, e') -> concat chunks = w ->
  let out := Packet.readAll (handle fuel) chunks (Packet.mkConn (Framing.mkD d [] t) a) in
  zlen w = 565 * zlen (wire (chans s))
  /\ ReceiveDecodedBuffer (conn (Packet.app out.2))
     = ReceiveDecodedBuffer (conn a) ++ stream_of payload (wire (chans s))
  /\ (exists rest, upstream (chans s) = stream_of payload (wire (chans s)) ++ rest)
  /\ (Forall (fun y => ct0 a <= y) (map t0 (wire (chans s))) ->
      ct0 (Packet.app out.2) = List.last (map t0 (wire (chans s))) (ct0 a))
  /\ Forall (fun o => is_panic o = false) out.1.
Proof.
  intros Hb Hr Hrole Hs Hm Hw out.
  destruct (regs_reachable _ _ _ _ _ _ Hb Hr) as [Hio _ _ _ Hsort Hda].
  destruct (IoInv_wire _ _ _ _ Hio) as (Hup & _ & Hcells).
  destruct Hio as [_ _ (lost & Hq & _)].
  rewrite Hq in Hda. apply Forall_app in Hda as [Hda _].
  unfold t0s in Hsort. rewrite Hq, map_app in Hsort. apply sorted_app_l in Hsort.
  destruct (reg_delivery fuel (wire (chans s)) e d w e' chunks t a) as ([_ _ _ Hbuf Hct0 _] & Hp);
    [by rewrite Hrole|done..|].
  split_and!; [by eapply MakePackets_zlen|done|done| |done].
  intros Hx. unfold out. rewrite Hct0, Hrole. by apply t0_sync.
Qed.
End wire.

(** ** A race on the start of the surge *)

Definition f32_half : spec_float := S754_finite false 8388608 (-24).
(** A configuration: 100 cells per second at first, [n = 3]. *)
Definition example_params : params :=
  mkParams 100 f32_half (f32_of_Z 1) 3 (f32_of_Z 4) (f32_of_Z 2).
Definition evs_start (v : Z) : list event := [EvSignal true; EvStarter; EvStarter; EvBudget v].
Definition evs_race : list event :=
  evs_start 2 ++ replicate 4 EvStarter ++ replicate 3 EvMain
  ++ [EvSignal false; EvStarter; EvStarter; EvStarter]
  ++ evs_start 1 ++ [EvClock 200; EvStarter; EvMain; EvMain; EvMain].

(** Between [curTime := time.Now ()] and [GetLastSend ()] the defense may be
    started anew; then the time that passed is negative, the rate becomes zero,
    and the pause is what the conversion of an infinity to [int64] gives. *)
Theorem rate_zero_race `{Pow} :
  exists s0 s, begin example_params NewState 3 100 = Some s0 /\ rtc (step example_params) s0 s
  /\ targetRate (sp s) = 0 /\ serverRho 0 = overflow (S754_infinity false).
Proof.
  eexists _, _. split; [vm_compute; reflexivity|]. split; [apply (runs_rtc _ evs_race); vm_compute; reflexivity|].
  split; vm_compute; reflexivity.
Qed.
End RegServer.

Section witnesses.
Import ToySip ToyBox GoFloat DefConn Cells Regulator RegServer.

Definition srv_pow : Pow := {| pow := fun _ _ => f64_of_Z 1; overflow := fun _ => 0 |}.
#[local] Existing Instance srv_pow.
Definition srv_s0 : st :=
  Eval vm_compute in default (mkSt (shared_init NewState) io_init [] 0 (mkSp 0 0 0) 0 MSelect PWait
    URead None 0 0 [] [] 0) (begin example_params NewState 3 100).
(** A start, a payload packet, and a dummy. *)
Definition srv_evs : list event :=
  evs_start 2 ++ replicate 4 EvStarter
  ++ [EvRead (str "hello"); EvReader] ++ replicate 12 EvMain ++ [EvClock 10000100; EvMain]
  ++ replicate 14 EvMain ++ [EvSend SndWrite; EvSend SndWrite].
Definition srv_s : st := Eval vm_compute in default srv_s0 (runs (exec example_params) srv_evs srv_s0).

Lemma srv_reach : rtc (step example_params) srv_s0 srv_s.
Proof. apply (runs_rtc _ srv_evs). vm_compute. reflexivity. Qed.

Lemma regulator_budget_witness :
  count is_dummy (queued (chans srv_s)) = 1 /\ starts srv_evs = 1
  /\ count is_dummy (queued (chans srv_s)) <= total_of (tail (budgets srv_s)) <= n example_params * starts srv_evs.
Proof.
  split; [vm_compute; reflexivity|]. split; [reflexivity|].
  apply (regulator_budget example_params NewState 3 100 srv_s0 srv_evs srv_s); [reflexivity|done|].
  vm_compute. reflexivity.
Defined.


Definition srv_out : result Packet.error bytes * Framing.Encoder := Eval vm_compute in
  MakePackets (wire (chans srv_s)) toy_enc.
Definition srv_wire : bytes := Eval vm_compute in match srv_out.1 with Ok w => w | _ => [] end.
Definition srv_ld : ProbDist.WeightedDist :=
  ProbDist.mkWDist 0 1448 false [30; 0] [ProbDist.fone; ProbDist.fone] [1; 0]
    [ProbDist.fone; ProbDist.fone].
Definition srv_client : app := mkApp (DefConn.mkApp false srv_ld NewState 0 (str "well, ")) 50 [].
Definition srv_chunks : list bytes := [ztake 700 srv_wire; zdrop 700 srv_wire].

Lemma regulator_client_follows_witness :
  let out := Packet.readAll (handle 9) srv_chunks (Packet.mkConn (Framing.mkD toy_dec [] []) srv_client) in
  zlen srv_wire = 1130 /\ ReceiveDecodedBuffer (conn (Packet.app out.2)) = str "well, hello"
  /\ ct0 (Packet.app out.2) = 100.
Proof.
  intros out. split_and!; [vm_compute; reflexivity..|].
  assert (Hs : Framing.synced toy_enc toy_dec) by (split_and!; reflexivity).
  assert (E : MakePackets (wire (chans srv_s)) toy_enc = (Ok srv_wire, srv_out.2))
    by (vm_compute; reflexivity).
  assert (Hc : concat srv_chunks = srv_wire) by (vm_compute; reflexivity).
  assert (Ht : Forall (fun y => 50 <= y) (map t0 (wire (chans srv_s))))
    by (vm_compute; repeat constructor; discriminate).
  assert (Hb : begin example_params NewState 3 100 = Some srv_s0) by reflexivity.
  exact (proj1 (proj2 (proj2 (proj2 (regulator_client_follows example_params NewState 3 100 srv_s0 srv_s 9
    [] toy_enc toy_dec srv_wire srv_out.2 srv_chunks srv_client Hb srv_reach eq_refl Hs E Hc)))) Ht).
Defined.
End witnesses.
