(* ===== verification/RegClient.v ===== *)
(** * A client's end of Regulator: [clientReadFrom]

    The main loop that follows the server's rate, the reader that cuts what
    comes in into cells and stamps them, the ticker, [Send] and the part of
    [readPackets] that learns of surges, interleaved in every order. *)
From S2P Require Import Prelude GoStd Rand GoFloat Drbg Framing ProbDist Packet DefConn Cells Fifo Regulator.

Module RegClient.
Import GoFloat DefConn Cells Regulator.

Inductive main_pc :=
| MBegin                           (* lastSend = time.Now () *)
| MStoreT0                         (* StoreInt64 (&conn.t0, lastSend) *)
| MSelect
| MLoad                            (* load: StateStart? *)
| MNow                             (* curTime := time.Now () *)
| MRate (curTime : Z)              (* LoadInt64 (&conn.t0) *)
| MLen (rho : Z)                   (* GetLen () > 0? *)
| MDequeue (rho : Z)
| MSend (p : packetInfo) (rho : Z)
| MInc (rho : Z)                   (* NRealSegSentIncrement () *)
| MStart (rho : Z)                 (* load: StateStart? *)
| MPeek (rho : Z)                  (* GetLen () > 0? *)
| MGet (rho : Z)                   (* Get (0), and the gap to its stamp *)
| MSleep (rho : Z)                 (* SleepRho (lastSend, rho) *)
| MDone (err : Packet.error)
| MPanic.

Inductive reader_pc :=
| URead
| UChunk (rest : bytes) (rdLen : Z)    (* the loop over the cells of [buf] *)
| UGate (g : gate_pc)
| UStoreT0                             (* StoreInt64 (&conn.t0, time.Now ()) *)
| UReport (e : Packet.error) | UDone.

(** A [Read] that learns of a surge. *)
Inductive handler_pc :=
| HIdle
| HLoad (t : Z)                        (* a payload: LoadInt64 (&conn.t0) != t? *)
| HStore (t : Z).                      (* StoreInt64 (&conn.t0, t) *)

Section machine.
Context `{Pow} `{Queue (bytes * Z)} (prm : params).

Record st := mkSt {
  shd : shared;
  chans : io packetInfo;
  receiveQ : queue (bytes * Z);
  written : Z;
  ct0 : Z;                         (* [conn.t0] *)
  main : main_pc; reader : reader_pc; ticker : ticker_pc; handler : handler_pc;
  lastSend : Z;
  clock : Z;
  (* history *)
  pauses : list Z;
  began : Z
}.

Definition set_main m s := mkSt (shd s) (chans s) (receiveQ s) (written s) (ct0 s)
  m (reader s) (ticker s) (handler s) (lastSend s) (clock s) (pauses s) (began s).
Definition set_reader u s := mkSt (shd s) (chans s) (receiveQ s) (written s) (ct0 s)
  (main s) u (ticker s) (handler s) (lastSend s) (clock s) (pauses s) (began s).
Definition set_ticker t s := mkSt (shd s) (chans s) (receiveQ s) (written s) (ct0 s)
  (main s) (reader s) t (handler s) (lastSend s) (clock s) (pauses s) (began s).
Definition set_handler h s := mkSt (shd s) (chans s) (receiveQ s) (written s) (ct0 s)
  (main s) (reader s) (ticker s) h (lastSend s) (clock s) (pauses s) (began s).
Definition set_shd c s := mkSt c (chans s) (receiveQ s) (written s) (ct0 s)
  (main s) (reader s) (ticker s) (handler s) (lastSend s) (clock s) (pauses s) (began s).
Definition set_chans x s := mkSt (shd s) x (receiveQ s) (written s) (ct0 s)
  (main s) (reader s) (ticker s) (handler s) (lastSend s) (clock s) (pauses s) (began s).
Definition set_queue q w s := mkSt (shd s) (chans s) q w (ct0 s)
  (main s) (reader s) (ticker s) (handler s) (lastSend s) (clock s) (pauses s) (began s).
Definition set_t0 t s := mkSt (shd s) (chans s) (receiveQ s) (written s) t
  (main s) (reader s) (ticker s) (handler s) (lastSend s) (clock s) (pauses s) (began s).
Definition set_clock t s := mkSt (shd s) (chans s) (receiveQ s) (written s) (ct0 s)
  (main s) (reader s) (ticker s) (handler s) (lastSend s) t (pauses s) (began s).
Definition start_loop s := mkSt (shd s) (chans s) (receiveQ s) (written s) (ct0 s)
  (main s) (reader s) (ticker s) (handler s) (clock s) (clock s) (pauses s) (clock s).
Definition wake rho s := mkSt (shd s) (chans s) (receiveQ s) (written s) (ct0 s)
  (main s) (reader s) (ticker s) (handler s) (clock s) (clock s) (pauses s ++ [rho]) (began s).

Definition init (c : State) (now : Z) : st :=
  mkSt (shared_init c) io_init NewFIFO 0 0 MBegin URead TWait HIdle now now [] now.

Definition send (p : packetInfo) (s : st) : option st :=
  x ← enqueue p (chans s); Some (set_chans x s).
Definition fail (e : Packet.error) (s : st) : option st :=
  x ← report e (chans s); Some (set_chans x s).

(** A client's packets carry no surge. *)
Definition cell (ty : Z) (d : bytes) : packetInfo :=
  mkPacketInfo ty d (MaxPacketPaddingLength - zlen d) 0.
Definition start_signal : packetInfo := cell PacketTypeSignalStart [].
Definition stop_signal : packetInfo := cell PacketTypeSignalStop [].

(** The pause when the next cell came in at [stamp]: none when it would be
    delayed for more than [c] seconds. *)
Definition hurry (rho now stamp : Z) : Z :=
  if fltb (widen (c prm)) (seconds (Sub (now + rho) stamp)) then 0 else rho.

Definition main_step (s : st) : option st :=
  match main s with
  | MBegin => Some (set_main MStoreT0 (start_loop s))
  | MStoreT0 => Some (set_main MSelect (set_t0 (lastSend s) s))
  | MSelect =>
      match take_err (chans s) with
      | Some (e, x) => Some (set_main (MDone e) (set_chans x s))
      | None => Some (set_main MLoad s)
      end
  | MLoad =>
      Some (set_main (if bool_decide (load (shd s) = StateStart) then MNow
                      else match idleRho prm with Some rho => MLen rho | None => MPanic end) s)
  | MNow => Some (set_main (MRate (clock s)) s)
  | MRate cur => Some (set_main (MLen (clientRho prm (ct0 s) cur)) s)
  | MLen rho => Some (set_main (if 0 <? QGetLen (receiveQ s) then MDequeue rho else MStart rho) s)
  | MDequeue rho =>
      match QDequeue (receiveQ s) with
      | None => Some (set_main (MDone (Packet.NetError Packet.EOF)) s)
      | Some ((d, _), q) =>
          Some (set_main (MSend (cell PacketTypePayload d) rho) (set_queue q (written s + zlen d) s))
      end
  | MSend p rho =>
      set_main (if pktType p =? PacketTypePayload then MInc rho else MPeek rho) <$> send p s
  | MInc rho => Some (set_main (MPeek rho) (set_shd (inc_sent (shd s)) s))
  | MStart rho =>
      Some (set_main (if bool_decide (load (shd s) = StateStart)
                      then MSend (cell PacketTypeDummy []) rho else MPeek rho) s)
  | MPeek rho => Some (set_main (if 0 <? QGetLen (receiveQ s) then MGet rho else MSleep rho) s)
  | MGet rho =>
      Some (set_main (MSleep match QGet0 (receiveQ s) with
                             | Some (_, stamp) => hurry rho (clock s) stamp
                             | None => rho
                             end) s)
  | MSleep rho => if lastSend s + rho <=? clock s then Some (set_main MSelect (wake rho s)) else None
  | MDone _ | MPanic => None
  end.

Definition reader_step (s : st) : option st :=
  match reader s with
  | UChunk rest n =>
      if zlen rest =? 0 then Some (set_reader (UGate (GLoad1 n)) s)
      else Some (set_reader (UChunk (zdrop MaxPacketPayloadLength rest) n)
                   (set_queue (QEnqueue (ztake MaxPacketPayloadLength rest, clock s) (receiveQ s))
                      (written s) s))
  | UGate g =>
      '(g', c, x) ← gate_step start_signal g (shd s) (chans s);
      Some (set_reader (match g' with GStarted | GOver => URead | GSetStart => UStoreT0 | _ => UGate g' end)
                       (set_shd c (set_chans x s)))
  | UStoreT0 => Some (set_reader (UGate GSetStart) (set_t0 (clock s) s))
  | UReport e => set_reader UDone <$> fail e s
  | URead | UDone => None
  end.

Inductive event :=
| EvRead (data : bytes) | EvReadErr (e : Packet.error)
| EvMain | EvReader | EvTicker | EvTick | EvSend (ev : send_event)
| EvPayload (t : Z) | EvDummy (t : Z) | EvHandler   (* [readPackets] got one *)
| EvClock (t : Z)
| EvExit.

Definition closed (s : st) : bool := match main s with MDone _ => true | _ => false end.

Definition exec_event (ev : event) (s : st) : option st :=
  match ev with
  | EvRead data =>
      match reader s with
      | URead =>
          if zlen data >? 65535 then None
          else if zlen data =? 0 then Some (set_reader (UReport (Packet.NetError Packet.EOF)) s)
          else Some (set_reader (UChunk data (zlen data)) (set_chans (log_read data (chans s)) s))
      | _ => None
      end
  | EvReadErr e => match reader s with URead => Some (set_reader (UReport e) s) | _ => None end
  | EvMain => main_step s
  | EvReader => reader_step s
  | EvTicker =>
      '(t, c, x) ← ticker_step stop_signal (ticker s) (shd s) (chans s);
      Some (set_ticker (match t with TStopped => TResetSent | t => t end) (set_shd c (set_chans x s)))
  | EvTick => match ticker s with TWait => Some (set_ticker TLoad s) | _ => None end
  | EvSend ev => x ← send_step (closed s) ev (chans s); Some (set_chans x s)
  | EvPayload t =>
      match handler s with
      | HIdle => Some (set_handler (HLoad t) (set_shd (inc_rcv (shd s)) s))
      | _ => None
      end
  | EvDummy t =>
      match handler s with
      | HIdle => Some (set_handler (if ct0 s <? t then HStore t else HIdle) s)
      | _ => None
      end
  | EvHandler =>
      match handler s with
      | HIdle => None
      | HLoad t => Some (set_handler (if ct0 s =? t then HIdle else HStore t) s)
      | HStore t => Some (set_handler HIdle (set_t0 t s))
      end
  | EvClock t => if (clock s <=? t) && (t <? 2 ^ 63) then Some (set_clock t s) else None
  | EvExit =>
      if closed s then
        Some (set_reader (match reader s with URead => UDone | u => u end)
                (set_ticker (match ticker s with TWait => TDone | t => t end) s))
      else None
  end.

(** A panic of the main loop ends the process. *)
Definition exec (ev : event) (s : st) : option st :=
  match main s with MPanic => None | _ => exec_event ev s end.
Definition step : st -> st -> Prop := does exec.

(** ** Invariants of every interleaving *)

Definition hand (m : main_pc) : bytes := match m with MSend p _ => payload p | _ => [] end.
Definition reader_hand (u : reader_pc) : bytes := match u with UChunk rest _ => rest | _ => [] end.
(** What waits in the queue. *)
Context `{!QueueLaws (bytes * Z)}.
Definition waiting (s : st) : bytes := concat (map fst (elements (receiveQ s))).

Definition main_ok (s : st) : Prop :=
  match main s with
  | MSend p _ => reg_cell false p /\ t0 p = 0
  | MDequeue _ => elements (receiveQ s) <> []
  | _ => True
  end.

Record Inv (s : st) : Prop := {
  inv_io : IoInv payload (reg_cell false) (hand (main s) ++ waiting s ++ reader_hand (reader s)) (chans s);
  inv_main : main_ok s;
  inv_queue : Forall (fun x => 0 < zlen x.1 <= MaxPacketPayloadLength) (elements (receiveQ s))
}.

Lemma reg_client_cell ty d :
  zlen d <= MaxPacketPayloadLength ->
  ty = PacketTypePayload
  \/ d = [] /\ (ty = PacketTypeDummy \/ ty = PacketTypeSignalStart \/ ty = PacketTypeSignalStop) ->
  reg_cell false (cell ty d).
Proof.
  intros Hd Ht. split; cbn [cell pktType data padLen t0]; unfold MaxPacketPaddingLength; try lia.
  destruct Ht as [->|[-> [->|[->| ->]]]]; auto 7.
Qed.

Lemma regc_init_Inv c now : Inv (init c now).
Proof.
  assert (E : elements (NewFIFO (T := bytes * Z)) = []) by apply NewFIFO_empty.
  split; unfold waiting, main_ok; cbn; rewrite ?E; [apply IoInv_init|done|done].
Qed.

(** Steps that leave the channel, the queue and the hands alone. *)
Lemma regc_Inv_same s s' :
  Inv s -> chans s' = chans s -> hand (main s') = hand (main s) -> receiveQ s' = receiveQ s ->
  reader_hand (reader s') = reader_hand (reader s) -> main_ok s' -> Inv s'.
Proof.
  intros [Hio Hm Hq] E1 E2 E3 E4 Hm'.
  split; unfold waiting in *; rewrite ?E1, ?E2, ?E3, ?E4; done.
Qed.

(** A signal or an error goes through the channels. *)
Lemma regc_Inv_chans x s :
  Inv s -> (forall rest, IoInv payload (reg_cell false) rest (chans s) ->
                         IoInv payload (reg_cell false) rest x) -> Inv (set_chans x s).
Proof. intros [] H1. split; cbn; auto. Qed.

Lemma regc_main_step_Inv s s' : Inv s -> main_step s = Some s' -> Inv s'.
Proof.
  intros Hi E. pose proof Hi as [Hio Hm Hq]. unfold main_ok in Hm. unfold main_step in E.
  destruct (main s) eqn:Em; try done.
  all: try solve [step_cases E; subst; apply (regc_Inv_same s); cbn; rewrite ?Em; unfold main_ok; cbn; done].
  - destruct (take_err _) as [[e x]|] eqn:Ee; injection E as <-.
    + split; cbn; try done. by eapply IoInv_take_err.
    + apply (regc_Inv_same s); cbn; rewrite ?Em; done.
  - injection E as <-. rewrite QGetLen_spec. destruct (0 <? _) eqn:E0; b2p;
      apply (regc_Inv_same s); cbn; rewrite ?Em; try done. unfold main_ok; cbn.
    intros Hn. by rewrite Hn in E0.
  - pose proof (QDequeue_spec (receiveQ s)) as Hd. destruct (QDequeue _) as [[[d stamp] q]|]; [|done].
    injection E as <-. rewrite Hd in Hq. apply Forall_cons in Hq as [Hl Hq]. cbn in Hl.
    split; unfold waiting in *; cbn; try done.
    + rewrite Hd in Hio. cbn in Hio. by rewrite <- app_assoc in Hio.
    + unfold main_ok; cbn. split; [|done]. apply reg_client_cell; [lia|auto].
  - unfold send in E. destruct (enqueue p (chans s)) as [x|] eqn:Ex; cbn in E; [|done]. injection E as <-.
    destruct Hm as [Hp Ht]. split; cbn; try done.
    + eapply IoInv_enqueue; [exact Ex|done|]. by destruct (_ =? _).
    + unfold main_ok; cbn. by destruct (_ =? _).
  - injection E as <-. destruct (bool_decide _); apply (regc_Inv_same s); cbn; rewrite ?Em; try done.
    unfold main_ok; cbn. split; [|done]. apply reg_client_cell; [done|auto].
Qed.

Lemma regc_reader_step_Inv s s' : Inv s -> reader_step s = Some s' -> Inv s'.
Proof.
  intros Hi E. pose proof Hi as [Hio Hm Hq]. unfold reader_step in E.
  destruct (reader s) as [|rest m|g| |e|] eqn:Er; try done.
  - destruct (zlen rest =? 0) eqn:E0; b2p; injection E as <-.
    { apply zlen_0 in E0 as ->. apply (regc_Inv_same s); cbn; rewrite ?Er; done. }
    assert (Eq : elements (QEnqueue (ztake MaxPacketPayloadLength rest, clock s) (receiveQ s))
                 = elements (receiveQ s) ++ [(ztake MaxPacketPayloadLength rest, clock s)])
      by apply QEnqueue_spec.
    split; unfold waiting, main_ok in *; cbn; rewrite ?Eq.
    + rewrite map_app, concat_app. cbn. rewrite app_nil_r, <- app_assoc, ztake_zdrop. done.
    + destruct (main s); try done. by destruct (elements (receiveQ s)).
    + apply Forall_app_2; [done|]. apply Forall_singleton. cbn.
      rewrite zlen_ztake. zlen_pos. unfold MaxPacketPayloadLength. lia.
  - destruct (gate_step _ _ _ _) as [[[g' c] x]|] eqn:Eg; cbn in E; [|done]. injection E as <-.
    apply (regc_Inv_same (set_chans x s)); try done; [|cbn; rewrite Er; by destruct g'].
    apply regc_Inv_chans; [done|]. intros rest. eapply IoInv_gate; [exact Eg| |done].
    apply reg_client_cell; [done|auto].
  - injection E as <-. apply (regc_Inv_same s); cbn; rewrite ?Er; done.
  - unfold fail in E. destruct (report _ _) as [x|] eqn:Ex; cbn in E; [|done]. injection E as <-.
    apply (regc_Inv_same (set_chans x s)); try done; [|cbn; by rewrite Er].
    apply regc_Inv_chans; [done|]. intros rest. by eapply IoInv_report.
Qed.

Lemma regc_exec_Inv ev s s' : Inv s -> exec ev s = Some s' -> Inv s'.
Proof.
  intros Hi E. pose proof Hi as [Hio Hm Hq].
  assert (E' : exec_event ev s = Some s') by (unfold exec in E; by destruct (main s)).
  clear E. rename E' into E. destruct ev; cbn [exec_event] in E.
  - destruct (reader s) eqn:Er; try done. destruct (_ >? _); [done|].
    destruct (_ =? 0); injection E as <-; [apply (regc_Inv_same s); by rewrite ?Er|].
    split; cbn; try done. cbn [reader_hand] in Hio. rewrite app_nil_r in Hio.
    rewrite (app_assoc (hand _)). by apply IoInv_read.
  - destruct (reader s) eqn:Er; try done. injection E as <-. apply (regc_Inv_same s); cbn; by rewrite ?Er.
  - by eapply regc_main_step_Inv.
  - by eapply regc_reader_step_Inv.
  - destruct (ticker_step _ _ _ _) as [[[t c] x]|] eqn:Et; cbn in E; [|done]. injection E as <-.
    apply (regc_Inv_same (set_chans x s)); try done.
    apply regc_Inv_chans; [done|]. intros rest.
    eapply (IoInv_ticker _ _ _ false); [exact Et|by destruct (ticker s)|intros _; apply reg_client_cell; auto|done].
    done.
  - step_cases E; subst; by apply (regc_Inv_same s).
  - destruct (send_step _ _ _) as [x|] eqn:Ex; cbn in E; [|done]. injection E as <-.
    apply regc_Inv_chans; [done|]. intros rest. by eapply IoInv_send.
  - step_cases E; subst; by apply (regc_Inv_same s).
  - step_cases E; subst; by apply (regc_Inv_same s).
  - step_cases E; subst; by apply (regc_Inv_same s).
  - step_cases E; subst; by apply (regc_Inv_same s).
  - destruct (closed s); [|done]. injection E as <-. apply (regc_Inv_same s); cbn; try done.
    by destruct (reader s).
Qed.

Lemma regc_reachable c now s : rtc step (init c now) s -> Inv s.
Proof.
  apply does_invariant; [by intros; eapply regc_exec_Inv|]. apply regc_init_Inv.
Qed.

(** The pause of a client whose defense is off is a quotient of integers: from
    two cells per second on there is none, and below one the loop panics. *)
Lemma idle_rate :
  (2 <= initialRate prm -> idleRho prm = Some 0)
  /\ (initialRate prm = 1 -> idleRho prm = Some 1000000000)
  /\ (initialRate prm = 0 ->
      forall s, main s = MLoad -> load (shd s) <> StateStart ->
        exists s', step s s' /\ main s' = MPanic /\ forall s'', ~ step s' s'').
Proof.
  unfold idleRho. split_and!.
  - intros Hr. rewrite eqb_false by lia. rewrite Z.quot_small by lia. done.
  - by intros ->.
  - intros Hz s Em Hl. exists (set_main MPanic s). split_and!; [|done|].
    + exists EvMain. unfold exec. rewrite Em. cbn [exec_event]. unfold main_step. rewrite Em.
      rewrite bool_decide_eq_false_2 by done. unfold idleRho. by rewrite Hz.
    + by intros s'' [ev E].
Qed.
End machine.

Section wire.
Context `{SipHashLaws} `{SecretBoxLaws}.

(** C8: the upstream end to end under Regulator: for every interleaving at the
    client and every way the network cuts the bytes, the wire image is 565 bytes
    per packet whatever the packets are; the server appends to its stream exactly
    the payload on the wire and tells its starter exactly the signals, in order,
    and never panics; and while the sender runs, the payload on the wire and what
    waits in the channel, the hands and the queue of stamped cells (none empty or
    longer than a cell) is all that was read. *)
Theorem regulator_server_receives `{Pow} `{QueueLaws (bytes * Z)} prm c now s fuel t e d w e' chunks a :
  rtc (step prm) (init c now) s -> IsServer (conn a) = true -> Framing.synced e d ->
  MakePackets (wire (chans s)) e = (Ok w, e') -> concat chunks = w ->
  let out := Packet.readAll (handle fuel) chunks (Packet.mkConn (Framing.mkD d [] t) a) in
  zlen w = 565 * zlen (wire (chans s))
  /\ ReceiveDecodedBuffer (conn (Packet.app out.2))
     = ReceiveDecodedBuffer (conn a) ++ stream_of payload (wire (chans s))
  /\ paddingChan (Packet.app out.2) = paddingChan a ++ told_all (wire (chans s))
  /\ (sender (chans s) = SWait ->
      upstream (chans s)
      = stream_of payload (wire (chans s)) ++ stream_of payload (sendChan (chans s))
        ++ hand (main s) ++ waiting s ++ reader_hand (reader s))
  /\ Forall (fun x => 0 < zlen x.1 <= MaxPacketPayloadLength) (elements (receiveQ s))
  /\ Forall (fun o => is_panic o = false) out.1.
Proof.
  intros Hr Hrole Hs Hm Hw out. destruct (regc_reachable _ _ _ _ Hr) as [Hio _ Hq].
  destruct (IoInv_wire _ _ _ _ Hio) as (_ & Hup & Hcells).
  destruct (reg_delivery fuel (wire (chans s)) e d w e' chunks t a) as ([_ _ _ Hbuf _ Htold] & Hp);
    [by rewrite Hrole|done..|].
  split_and!; try done. by eapply MakePackets_zlen.
Qed.
End wire.
End RegClient.

Section witnesses.
Import ToySip ToyBox GoFloat DefConn Cells Regulator RegClient.

Definition cli_pow : Pow := {| pow := fun _ _ => f64_of_Z 1; overflow := fun _ => 0 |}.
#[local] Existing Instance cli_pow.
#[local] Existing Instance list_queue.
#[local] Existing Instance list_queue_laws.
Definition cli_params : params :=
  mkParams 100 (S754_finite false 8388608 (-24)) (f32_of_Z 1) 3 (f32_of_Z 4) (f32_of_Z 2).
Definition cli_s0 : st := init NewState 100.
(** 600 bytes come in: two cells, a start; one cell goes out. *)
Definition cli_evs : list event :=
  [EvMain; EvMain; EvRead (zrepeat 600 Byte.x41)] ++ replicate 4 EvReader
  ++ replicate 3 EvReader ++ replicate 8 EvMain ++ [EvSend SndWrite; EvSend SndWrite].
Definition cli_s : st := Eval vm_compute in default cli_s0 (runs (exec cli_params) cli_evs cli_s0).
Lemma cli_reach : rtc (step cli_params) cli_s0 cli_s.
Proof. apply (runs_rtc _ cli_evs). vm_compute. reflexivity. Qed.

Definition cli_out : result Packet.error bytes * Framing.Encoder := Eval vm_compute in
  MakePackets (wire (chans cli_s)) toy_enc.
Definition cli_wire : bytes := Eval vm_compute in match cli_out.1 with Ok w => w | _ => [] end.
Definition cli_server : app :=
  mkApp (DefConn.mkApp true (ProbDist.mkWDist 0 1448 false [30; 0] [ProbDist.fone; ProbDist.fone] [1; 0]
    [ProbDist.fone; ProbDist.fone]) NewState 0 []) 0 [].
Definition cli_chunks : list bytes := [ztake 100 cli_wire; zdrop 100 cli_wire].

Lemma regulator_server_receives_witness :
  let out := Packet.readAll (handle 9) cli_chunks (Packet.mkConn (Framing.mkD toy_dec [] []) cli_server) in
  zlen cli_wire = 1130 /\ zlen (ReceiveDecodedBuffer (conn (Packet.app out.2))) = 536
  /\ paddingChan (Packet.app out.2) = [true].
Proof.
  intros out. split_and!; [vm_compute; reflexivity..|].
  assert (Hs : Framing.synced toy_enc toy_dec) by (split_and!; reflexivity).
  assert (E : MakePackets (wire (chans cli_s)) toy_enc = (Ok cli_wire, cli_out.2))
    by (vm_compute; reflexivity).
  assert (Hc : concat cli_chunks = cli_wire) by (vm_compute; reflexivity).
  exact (proj1 (proj2 (proj2 (regulator_server_receives cli_params NewState 100 cli_s 9 []
    toy_enc toy_dec cli_wire cli_out.2 cli_chunks cli_server cli_reach eq_refl Hs E Hc)))).
Defined.
End witnesses.
