(* ===== verification/WalkieTalkie.v ===== *)
(** * The two ends of a Walkie-Talkie connection: [ReadFrom] of [transports/randomwt]

    A client and a server with their goroutines (main loop, sender, ticker, and
    the reader of the network), joined by two wires that carry packets in order
    (what they do to bytes is [Packet.stream_delivery]).  The right to send
    travels as a finish packet, a signal in [canSendChan], or a place in the main
    loop: the file counts these turns. *)
From S2P Require Import Prelude GoStd Rand Drbg Framing ProbDist Packet DefConn Randomwt Cells.

Module WalkieTalkie.
Import Cells Randomwt.

(** ** One end *)

Definition writeChan_cap : Z := 65535.
Definition errChan_cap : Z := 5.
Definition canSend_cap : Z := 1.

Inductive main_pc :=
| WInit                            (* client: canSendChan <- signalReal *)
| WSelect
| WTalk (sg : signal)              (* clientTalkie, serverTalkie *)
| WCoin                            (* Bernoulli (pFake) *)
| WSkip                            (* canSendChan <- signalReal *)
| WDeadline                        (* padRealBurst: SetReadDeadline *)
| WRead                            (* r.Read *)
| WNext (d : bytes)                (* client: the next state *)
| WSignal (next : wstate) (d : bytes)   (* writeChan <- SignalStart *)
| WStore (next : wstate) (d : bytes)    (* StoreUint32 (&conn.state, nextState) *)
| WChop (rest : bytes)             (* the loop over receiveBuf *)
| WPut (p rest : bytes)            (* writeChan <- Payload *)
| WLoadDummy (n fin : Z)           (* sampleDummyBurst: stateStop? *)
| WSample (n fin : Z)              (* Uniform (0, n) *)
| WDummies (k fin : Z)             (* writeChan <- Dummy, k times *)
| WFin (fin : Z)                   (* writeChan <- RealFinish or FakeFinish *)
| WFlip                            (* isFakeTurn = (isFakeTurn + 1) % 2 *)
| WAlarm                           (* isAliveTimer: writeChan <- RealFinish *)
| WTear (err : Packet.error)       (* the deferred tearDown *)
| WDone (err : Packet.error)       (* returned, closeChan is closed *)
| WPanic.

Inductive sender_pc := SWait | SHold (p : Packet.packet) | SReport (e : Packet.error) | SDone.
Inductive ticker_pc := TWait | TLoad | TCount | TPut | TStore | TReset | TDone.
(** The [readPackets] under [Read]: between packets, blocked on [canSendChan],
    between the two steps of a signal. *)
Inductive handler_pc := HIdle | HPush (sg : signal) | HStore (s : wstate) | HPanic.

Record ep := mkEp {
  server : bool;
  wstate_ : wstate;                (* conn.state *)
  chan : list signal;              (* canSendChan *)
  wchan : list Packet.packet;      (* writeChan *)
  realNSeg : Z;
  errs : list Packet.error;
  fakeTurn : Z;
  written_ : Z;
  main : main_pc; sender : sender_pc; ticker : ticker_pc; handler : handler_pc;
  received : bytes;                (* what went to receiveDecodedBuffer *)
  (* history *)
  upstream : bytes;                (* what r.Read returned *)
  alarms : Z                       (* how often isAliveTimer fired *)
}.

Definition init_ep (isServer : bool) : ep :=
  mkEp isServer stateStop [] [] 0 [] 0 0 (if isServer then WSelect else WInit) SWait TWait HIdle [] [] 0.

Definition set_main m e := mkEp (server e) (wstate_ e) (chan e) (wchan e) (realNSeg e) (errs e)
  (fakeTurn e) (written_ e) m (sender e) (ticker e) (handler e) (received e) (upstream e) (alarms e).
Definition set_sender x e := mkEp (server e) (wstate_ e) (chan e) (wchan e) (realNSeg e) (errs e)
  (fakeTurn e) (written_ e) (main e) x (ticker e) (handler e) (received e) (upstream e) (alarms e).
Definition set_ticker t e := mkEp (server e) (wstate_ e) (chan e) (wchan e) (realNSeg e) (errs e)
  (fakeTurn e) (written_ e) (main e) (sender e) t (handler e) (received e) (upstream e) (alarms e).
Definition set_handler h e := mkEp (server e) (wstate_ e) (chan e) (wchan e) (realNSeg e) (errs e)
  (fakeTurn e) (written_ e) (main e) (sender e) (ticker e) h (received e) (upstream e) (alarms e).
Definition set_state s e := mkEp (server e) s (chan e) (wchan e) (realNSeg e) (errs e)
  (fakeTurn e) (written_ e) (main e) (sender e) (ticker e) (handler e) (received e) (upstream e) (alarms e).
Definition set_chan c e := mkEp (server e) (wstate_ e) c (wchan e) (realNSeg e) (errs e)
  (fakeTurn e) (written_ e) (main e) (sender e) (ticker e) (handler e) (received e) (upstream e) (alarms e).
Definition set_wchan w e := mkEp (server e) (wstate_ e) (chan e) w (realNSeg e) (errs e)
  (fakeTurn e) (written_ e) (main e) (sender e) (ticker e) (handler e) (received e) (upstream e) (alarms e).
Definition set_nseg n e := mkEp (server e) (wstate_ e) (chan e) (wchan e) n (errs e)
  (fakeTurn e) (written_ e) (main e) (sender e) (ticker e) (handler e) (received e) (upstream e) (alarms e).
Definition set_errs x e := mkEp (server e) (wstate_ e) (chan e) (wchan e) (realNSeg e) x
  (fakeTurn e) (written_ e) (main e) (sender e) (ticker e) (handler e) (received e) (upstream e) (alarms e).
Definition set_turn t e := mkEp (server e) (wstate_ e) (chan e) (wchan e) (realNSeg e) (errs e)
  t (written_ e) (main e) (sender e) (ticker e) (handler e) (received e) (upstream e) (alarms e).
Definition set_written w e := mkEp (server e) (wstate_ e) (chan e) (wchan e) (realNSeg e) (errs e)
  (fakeTurn e) w (main e) (sender e) (ticker e) (handler e) (received e) (upstream e) (alarms e).
Definition set_received b e := mkEp (server e) (wstate_ e) (chan e) (wchan e) (realNSeg e) (errs e)
  (fakeTurn e) (written_ e) (main e) (sender e) (ticker e) (handler e) b (upstream e) (alarms e).
Definition log_read d e := mkEp (server e) (wstate_ e) (chan e) (wchan e) (realNSeg e) (errs e)
  (fakeTurn e) (written_ e) (main e) (sender e) (ticker e) (handler e) (received e) (upstream e ++ d) (alarms e).
Definition log_alarm e := mkEp (server e) (wstate_ e) (chan e) (wchan e) (realNSeg e) (errs e)
  (fakeTurn e) (written_ e) (main e) (sender e) (ticker e) (handler e) (received e) (upstream e) (alarms e + 1).

(** [writeChan <- p], [canSendChan <- sg] and [errChan <- e] block on a full
    channel. *)
Definition put_pkt (p : Packet.packet) (e : ep) : option ep :=
  if zlen (wchan e) <? writeChan_cap then Some (set_wchan (wchan e ++ [p]) e) else None.
Definition push (sg : signal) (e : ep) : option ep :=
  if zlen (chan e) <? canSend_cap then Some (set_chan (chan e ++ [sg]) e) else None.
Definition report (x : Packet.error) (e : ep) : option ep :=
  if zlen (errs e) <? errChan_cap then Some (set_errs (errs e ++ [x]) e) else None.

Section ends.
Context (cf : config).

Definition nReal (e : ep) : Z := if server e then nServerReal cf else nClientReal cf.
Definition nFake (e : ep) : Z := if server e then nServerFake cf else nClientFake cf.

(** The steps of the main loop that need nothing from outside. *)
Definition main_step (e : ep) : option ep :=
  match main e with
  | WInit => set_main WSelect <$> push signalReal e
  | WSelect =>
      match errs e with x :: xs => Some (set_main (WTear x) (set_errs xs e)) | [] => None end
  | WTalk sg =>
      Some (set_main
        (if server e then
           match sg with
           | signalDummy => WLoadDummy (nServerFake cf) packetTypeFakeFinish
           | signalReal => WDeadline
           | signalTearDown => WPanic
           end
         else if negb (bool_decide (wstate_ e = stateStop)) && (fakeTurn e mod 2 =? 1) then WCoin
         else WDeadline) e)
  | WSkip => set_main WFlip <$> push signalReal e
  | WNext d =>
      let next := nextState (wstate_ e) (zlen d) in
      Some (set_main (if bool_decide (next = stateStart) && negb (bool_decide (wstate_ e = stateStart))
                      then WSignal next d else WStore next d) e)
  | WSignal next d => set_main (WStore next d) <$> put_pkt (cell packetTypeSignalStart []) e
  | WStore next d => Some (set_main (WChop d) (set_state next e))
  | WChop rest =>
      if zlen rest =? 0 then Some (set_main (WLoadDummy (nReal e) packetTypeRealFinish) e)
      else
        let p := ztake maxPacketPayloadLength rest in
        Some (set_main (WPut p (zdrop maxPacketPayloadLength rest)) (set_written (written_ e + zlen p) e))
  | WPut p rest => set_main (WChop rest) <$> put_pkt (cell packetTypePayload p) e
  | WLoadDummy n fin =>
      Some (set_main (if bool_decide (wstate_ e = stateStop) then WFin fin else WSample n fin) e)
  | WSample n fin => if n <? 0 then Some (set_main WPanic e) else None
  | WDummies k fin =>
      if 0 <? k then set_main (WDummies (k - 1) fin) <$> put_pkt (cell packetTypeDummy []) e
      else Some (set_main (WFin fin) e)
  | WFin fin => set_main WFlip <$> put_pkt (cell fin []) e
  | WFlip => Some (set_main WSelect (set_turn (if server e then fakeTurn e else (fakeTurn e + 1) mod 2) e))
  | WAlarm => set_main WSelect <$> put_pkt (cell packetTypeRealFinish []) e
  | WCoin | WDeadline | WRead | WTear _ | WDone _ | WPanic => None
  end.

Definition ticker_step (e : ep) : option ep :=
  match ticker e with
  | TLoad => Some (set_ticker (if bool_decide (wstate_ e = stateStop) then TReset else TCount) e)
  | TCount => Some (set_ticker (if realNSeg e <? 2 then TPut else TReset) e)
  | TPut => set_ticker TStore <$> put_pkt (cell packetTypeSignalStop []) e
  | TStore => Some (set_ticker TReset (set_state stateStop e))
  | TReset => Some (set_ticker TWait (set_nseg 0 e))
  | TWait | TDone => None
  end.

(** The [switch] of [readPackets], on a packet. *)
Definition deliver (p : Packet.packet) (e : ep) : ep :=
  let ty := Packet.pktType p in
  if ty =? packetTypePayload then
    if 0 <? zlen (Packet.data p) then set_received (received e ++ Packet.data p) e else e
  else if ty =? packetTypeRealFinish then set_handler (HPush signalReal) e
  else if ty =? packetTypeFakeFinish then set_handler (HPush signalDummy) e
  else if ty =? packetTypeTearDown then set_handler (HPush signalTearDown) e
  else if ty =? packetTypeSignalStart then
    if negb (server e) then set_handler HPanic e
    else if decide (wstate_ e = stateStart) then e else set_handler (HStore stateStart) e
  else if ty =? packetTypeSignalStop then
    if negb (server e) then set_handler HPanic e
    else if decide (wstate_ e = stateStop) then e else set_handler (HStore stateStop) e
  else e.

Definition handler_step (e : ep) : option ep :=
  match handler e with
  | HPush sg => set_handler HIdle <$> push sg e
  | HStore s => Some (set_handler HIdle (set_state s e))
  | HIdle | HPanic => None
  end.

Inductive event :=
| EvMain | EvTicker | EvHandler      (* a goroutine makes a step *)
| EvSignal                           (* the select takes canSendChan *)
| EvAlarm                            (* isAliveTimer fires *)
| EvCoin (fake : bool)
| EvDeadline (err : option Packet.error)
| EvRead (d : bytes) | EvTimeout | EvReadErr (err : Packet.error)
| EvSample (k : Z)
| EvTearDown (ok : bool)             (* the packet is written, or not *)
| EvTake                             (* the sender takes a packet, *)
| EvWrite | EvWriteErr (err : Packet.error) | EvReport   (* writes it, or fails *)
| EvTick
| EvDeliver                          (* a packet arrives *)
| EvExit.                            (* the others see closeChan closed *)

Definition closed (e : ep) : bool := match main e with WDone _ => true | _ => false end.
Definition crashed (e : ep) : bool :=
  match main e, handler e with WPanic, _ | _, HPanic => true | _, _ => false end.

(** A step of an end: [out] leads to the other one, [inn] comes from it. *)
Definition ep_exec (ev : event) (e : ep) (out inn : list Packet.packet)
  : option (ep * list Packet.packet * list Packet.packet) :=
  let loc (r : option ep) := e' ← r; Some (e', out, inn) in
  match ev with
  | EvMain => loc (main_step e)
  | EvTicker => loc (ticker_step e)
  | EvHandler => loc (handler_step e)
  | EvSignal =>
      match main e, chan e with
      | WSelect, sg :: c =>
          loc (Some (set_main (match sg with
                               | signalTearDown => WTear (Packet.NetError Packet.EOF)
                               | _ => WTalk sg
                               end) (set_chan c e)))
      | _, _ => None
      end
  | EvAlarm => match main e with WSelect => loc (Some (set_main WAlarm (log_alarm e))) | _ => None end
  | EvCoin fake =>
      match main e with
      | WCoin => loc (Some (set_main (if fake then WLoadDummy (nClientFake cf) packetTypeFakeFinish
                                      else WSkip) e))
      | _ => None
      end
  | EvDeadline err =>
      match main e with
      | WDeadline => loc (Some (set_main (match err with Some x => WTear x | None => WRead end) e))
      | _ => None
      end
  | EvRead d =>
      match main e with
      | WRead =>
          if zlen d >? 65535 then None
          else loc (Some (set_main (if server e then WChop d else WNext d) (log_read d e)))
      | _ => None
      end
  | EvTimeout =>
      match main e with
      | WRead => loc (Some (set_main (WLoadDummy (nFake e) packetTypeRealFinish) e))
      | _ => None
      end
  | EvReadErr x => match main e with WRead => loc (Some (set_main (WTear x) e)) | _ => None end
  | EvSample k =>
      match main e with
      | WSample n fin => if (0 <=? k) && (k <=? n) then loc (Some (set_main (WDummies k fin) e)) else None
      | _ => None
      end
  | EvTearDown ok =>
      match main e with
      | WTear x =>
          if ok : bool then Some (set_main (WDone x) e, out ++ [cell packetTypeTearDown []], inn)
          else Some (set_main (WDone x) e, out, inn)
      | _ => None
      end
  | EvTake =>
      match sender e, wchan e with
      | SWait, p :: ps =>
          loc (Some (set_sender (SHold p) (set_wchan ps
            (if Packet.pktType p =? packetTypePayload then set_nseg (u32 (realNSeg e + 1)) e else e))))
      | _, _ => None
      end
  | EvWrite =>
      match sender e with SHold p => Some (set_sender SWait e, out ++ [p], inn) | _ => None end
  | EvWriteErr x => match sender e with SHold p => loc (Some (set_sender (SReport x) e)) | _ => None end
  | EvReport =>
      match sender e with SReport x => loc (set_sender SDone <$> report x e) | _ => None end
  | EvTick =>
      match ticker e with
      | TWait => loc (Some (set_ticker (if server e then TReset else TLoad) e))
      | _ => None
      end
  | EvDeliver =>
      match handler e, inn with HIdle, p :: ps => Some (deliver p e, out, ps) | _, _ => None end
  | EvExit =>
      if closed e then
        loc (Some (set_sender (match sender e with SWait => SDone | x => x end)
                     (set_ticker (match ticker e with TWait => TDone | t => t end) e)))
      else None
  end.

(** ** The two ends *)

Record sys := mkSys { cl : ep; sv : ep; up : list Packet.packet; down : list Packet.packet }.
Definition init : sys := mkSys (init_ep false) (init_ep true) [] [].

(** A panic ends the process of its side. *)
Definition exec (ev : bool * event) (s : sys) : option sys :=
  if ev.1 then
    if crashed (sv s) then None
    else '(e, out, inn) ← ep_exec ev.2 (sv s) (down s) (up s); Some (mkSys (cl s) e inn out)
  else
    if crashed (cl s) then None
    else '(e, out, inn) ← ep_exec ev.2 (cl s) (up s) (down s); Some (mkSys e (sv s) out inn).
Definition step : sys -> sys -> Prop := does exec.

(** ** Turns *)

(** What is on the way from an end: on the wire, at the sender, in [writeChan]. *)
Definition hand (x : sender_pc) : list Packet.packet := match x with SHold p => [p] | _ => [] end.
Definition transit (e : ep) (out : list Packet.packet) : list Packet.packet :=
  out ++ hand (sender e) ++ wchan e.

(** The main loop has the turn. *)
Definition held (m : main_pc) : Z :=
  match m with WSelect | WFlip | WTear _ | WDone _ | WPanic => 0 | _ => 1 end.
Definition gives_turn (sg : signal) : bool := match sg with signalTearDown => false | _ => true end.
Definition pushing (h : handler_pc) : Z :=
  match h with HPush sg => if gives_turn sg then 1 else 0 | _ => 0 end.
(** The turns an end has: in its main loop, on the way from it, and waiting for
    its main loop. *)
Definition turns (e : ep) (out : list Packet.packet) : Z :=
  held (main e) + count is_finish (transit e out) + (count gives_turn (chan e) + pushing (handler e)).

Lemma put_pkt_Some p e e' : put_pkt p e = Some e' -> e' = set_wchan (wchan e ++ [p]) e.
Proof. unfold put_pkt. destruct (_ <? _); [by intros [= <-]|done]. Qed.
Lemma push_Some sg e e' : push sg e = Some e' -> e' = set_chan (chan e ++ [sg]) e /\ chan e = [].
Proof.
  unfold push. destruct (_ <? _) eqn:E; [|done]. intros [= <-]. b2p. split; [done|].
  unfold canSend_cap in E. destruct (chan e); [done|]. rewrite zlen_cons in E. zlia.
Qed.
Lemma wt_report_Some x e e' : report x e = Some e' -> e' = set_errs (errs e ++ [x]) e.
Proof. unfold report. destruct (_ <? _); [by intros [= <-]|done]. Qed.

Ltac ep_cases E :=
  cbn [ep_exec] in E;
  lazymatch type of E with
  | context [main_step ?e] =>
      let H := fresh in destruct (main_step e) eqn:H; cbn in E; [|discriminate E];
      unfold main_step in H; destruct (main e) eqn:?; step_cases H
  | context [ticker_step ?e] =>
      let H := fresh in destruct (ticker_step e) eqn:H; cbn in E; [|discriminate E];
      unfold ticker_step in H; destruct (ticker e) eqn:?; step_cases H
  | context [handler_step ?e] =>
      let H := fresh in destruct (handler_step e) eqn:H; cbn in E; [|discriminate E];
      unfold handler_step in H; destruct (handler e) eqn:?; step_cases H
  | _ => step_cases E
  end;
  repeat match goal with H : fmap _ (report _ _) = Some _ |- _ => step_cases H end;
  repeat match goal with
  | H : put_pkt _ _ = Some _ |- _ => apply put_pkt_Some in H
  | H : push _ _ = Some _ |- _ => apply push_Some in H as [H ?]
  | H : report _ _ = Some _ |- _ => apply wt_report_Some in H
  end; simplify_eq; subst.

Lemma count_cons {P} (f : P -> bool) p ps : count f (p :: ps) = (if f p then 1 else 0) + count f ps.
Proof. change (p :: ps) with ([p] ++ ps). by rewrite count_app, count_one. Qed.

(** The program points in the goal, and the lengths of the lists of turns. *)
Ltac pcs :=
  repeat match goal with
  | H : main _ = _ |- _ => rewrite H
  | H : sender _ = _ |- _ => rewrite H
  | H : handler _ = _ |- _ => rewrite H
  | H : chan _ = _ |- _ => rewrite H
  | H : wchan _ = _ |- _ => rewrite H
  end; cbn [held hand pushing gives_turn Datatypes.app].
Ltac at_pcs :=
  repeat match goal with
  | H : main _ = _ |- _ => rewrite H in *; clear H
  | H : sender _ = _ |- _ => rewrite H in *; clear H
  end.
Ltac count_turns := rewrite ?app_nil_r, ?count_app, ?count_cons, ?count_nil.

(** What the arrival of a packet leaves alone. *)
Lemma deliver_same p e :
  let e' := deliver p e in
  server e' = server e /\ wstate_ e' = wstate_ e /\ chan e' = chan e /\ wchan e' = wchan e
  /\ errs e' = errs e /\ main e' = main e /\ sender e' = sender e /\ ticker e' = ticker e
  /\ upstream e' = upstream e /\ alarms e' = alarms e
  /\ received e' = received e ++ (if Packet.pktType p =? packetTypePayload then Packet.data p else []).
Proof.
  unfold deliver. destruct (_ =? packetTypePayload) eqn:E.
  { destruct (0 <? _) eqn:E0; [done|]. b2p.
    assert (Packet.data p = []) as -> by (apply zlen_0; zlia). cbn. by rewrite app_nil_r. }
  rewrite app_nil_r. by repeat case_match.
Qed.
Lemma deliver_pushing p e :
  handler e = HIdle -> pushing (handler (deliver p e)) = (if is_finish p then 1 else 0).
Proof.
  intros Hh. unfold deliver, is_finish.
  destruct (_ =? packetTypePayload) eqn:E0; [b2p; rewrite E0; cbn; by case_match; cbn; rewrite Hh|].
  destruct (_ =? packetTypeRealFinish) eqn:E1; [done|].
  destruct (_ =? packetTypeFakeFinish) eqn:E2; [done|].
  repeat case_match; cbn; rewrite ?Hh; done.
Qed.

Lemma ep_turns ev e out inn e' out' inn' :
  ep_exec ev e out inn = Some (e', out', inn') ->
  turns e' out' + count is_finish inn' <= turns e out + count is_finish inn + (alarms e' - alarms e)
  /\ alarms e <= alarms e'.
Proof.
  intros E. unfold turns, transit. destruct ev.
  all: ep_cases E.
  all: cbn; pcs; count_turns; try lia.
  all: try (repeat case_match; cbn in *; try discriminate; lia).
  destruct (deliver_same p e) as (_ & _ & -> & -> & _ & -> & -> & _ & _ & -> & _).
  rewrite deliver_pushing by done. lia.
Qed.

(** ** What is on the way *)

(** The packets of a burst; the others are the ticker's and the gate's signals,
    the seed and the tear-down. *)
Definition burst (p : Packet.packet) : bool :=
  (Packet.pktType p =? packetTypePayload) || (Packet.pktType p =? packetTypeDummy) || is_finish p.
Definition bursts (ps : list Packet.packet) : list Packet.packet := filter (fun p => burst p) ps.
Lemma bursts_app ps qs : bursts (ps ++ qs) = bursts ps ++ bursts qs.
Proof. apply filter_app. Qed.
Lemma bursts_one p : bursts [p] = if burst p then [p] else [].
Proof. unfold bursts. rewrite filter_cons. by destruct (burst p), (decide _). Qed.

(** The last packet passes the turn. *)
Definition complete (ps : list Packet.packet) : Prop :=
  ps = [] \/ exists qs p, ps = qs ++ [p] /\ is_finish p = true.
Lemma complete_snoc ps p : is_finish p = true -> complete (ps ++ [p]).
Proof. right. eauto. Qed.
Lemma complete_tail p ps : complete (p :: ps) -> complete ps.
Proof.
  intros [?|(qs & q & E & Hq)]; [done|]. destruct qs as [|x qs]; cbn in E; simplify_eq; [by left|].
  by apply complete_snoc.
Qed.
Lemma complete_suffix ps qs : complete (ps ++ qs) -> complete qs.
Proof. induction ps as [|p ps IH]; [done|]. intros H%complete_tail. auto. Qed.
Lemma complete_none ps : complete ps -> count is_finish ps = 0 -> ps = [].
Proof.
  intros [->|(qs & p & -> & Hp)]; [done|]. rewrite count_app, count_one, Hp.
  pose proof (count_nonneg is_finish qs). lia.
Qed.

(** The loop is between two bursts, or nothing of its burst is out yet. *)
Definition between (m : main_pc) : bool :=
  match m with
  | WChop _ | WPut _ _ | WLoadDummy _ _ | WSample _ _ | WDummies _ _ | WFin _
  | WTear _ | WDone _ | WPanic => false
  | _ => true
  end.
Definition finishing (m : main_pc) : Prop :=
  match m with
  | WLoadDummy _ fin | WSample _ fin | WDummies _ fin | WFin fin =>
      fin = packetTypeRealFinish \/ fin = packetTypeFakeFinish
  | _ => True
  end.
Definition sending (x : sender_pc) : bool := match x with SWait | SHold _ => true | _ => false end.
Definition quiet (e : ep) (out : list Packet.packet) : Prop :=
  finishing (main e)
  /\ (between (main e) && sending (sender e) = true -> complete (bursts (transit e out))).

Lemma ep_quiet ev e out inn e' out' inn' :
  ep_exec ev e out inn = Some (e', out', inn') -> quiet e out -> quiet e' out'.
Proof.
  intros E [Hf Hq]. unfold quiet, transit in *. destruct ev.
  all: ep_cases E; cbn; pcs; at_pcs; cbn in *.
  all: try (split; [tauto|]); rewrite ?andb_true_r, ?andb_false_r in *; try done.
  all: rewrite ?bursts_app, ?bursts_one in *; rewrite ?app_nil_r; try done.
  - intros _. assert (is_finish (cell fin []) = true) as Hfin by (by destruct Hf as [-> | ->]).
    assert (burst (cell fin []) = true) as -> by (unfold burst; rewrite Hfin; apply orb_true_r).
    rewrite !app_assoc. by apply complete_snoc.
  - intros _. rewrite !app_assoc. by apply complete_snoc.
  - change (p :: wchan e) with ([p] ++ wchan e) in Hq. rewrite bursts_app, bursts_one in Hq.
    by rewrite <- app_assoc.
  - by destruct (deliver_same p e) as (_ & _ & _ & -> & _ & -> & -> & _).
Qed.

(** ** The packets and the stream *)

(** A full cell of a type the transport sends; signals are a client's. *)
Definition pkt_ok (b : bool) (p : Packet.packet) : Prop :=
  cell_ok p
  /\ (Packet.pktType p = packetTypePayload \/ Packet.pktType p = packetTypeDummy
      \/ Packet.pktType p = packetTypeRealFinish \/ Packet.pktType p = packetTypeFakeFinish
      \/ Packet.pktType p = packetTypeTearDown
      \/ b = false /\ (Packet.pktType p = packetTypeSignalStart
                       \/ Packet.pktType p = packetTypeSignalStop)).
Definition content (p : Packet.packet) : bytes :=
  if Packet.pktType p =? packetTypePayload then Packet.data p else [].
Definition main_hand (m : main_pc) : bytes :=
  match m with
  | WNext d | WSignal _ d | WStore _ d | WChop d => d
  | WPut p rest => p ++ rest
  | _ => []
  end.

(** The places only a client gets to, and what main loops hold there. *)
Definition main_ok (b : bool) (m : main_pc) : Prop :=
  match m with
  | WInit | WCoin | WSkip | WNext _ | WSignal _ _ | WStore _ _ => b = false
  | WTalk sg => gives_turn sg = true
  | WPut p _ => zlen p <= maxPacketPayloadLength
  | WLoadDummy n _ | WSample n _ => 0 <= n
  | WPanic => False
  | _ => True
  end.
Definition ticker_ok (b : bool) (t : ticker_pc) : Prop :=
  match t with TWait | TReset | TDone => True | _ => b = false end.

(** An end of role [b] whose peer received [r]. *)
Record end_ok (b : bool) (e : ep) (out : list Packet.packet) (r : bytes) : Prop := {
  eo_role : server e = b;
  eo_main : main_ok b (main e);
  eo_ticker : ticker_ok b (ticker e);
  eo_handler : handler e <> HPanic;
  eo_packets : Forall (pkt_ok b) (transit e out);
  eo_quiet : quiet e out;
  eo_stream : exists lost,
    upstream e = r ++ stream_of content out ++ stream_of content (hand (sender e)) ++ lost
                   ++ stream_of content (wchan e) ++ main_hand (main e)
    /\ (sending (sender e) = true -> lost = [])
}.

Hypothesis config_ok :
  0 <= nClientReal cf /\ 0 <= nServerReal cf /\ 0 <= nClientFake cf /\ 0 <= nServerFake cf.

Lemma nFake_ok e : 0 <= nFake e. Proof. unfold nFake. destruct (server e); lia. Qed.
Lemma nReal_ok e : 0 <= nReal e. Proof. unfold nReal. destruct (server e); lia. Qed.

Lemma pkt_ok_cell b ty d :
  zlen d <= maxPacketPayloadLength ->
  ty = packetTypePayload \/ ty = packetTypeDummy \/ ty = packetTypeRealFinish
  \/ ty = packetTypeFakeFinish \/ ty = packetTypeTearDown
  \/ b = false /\ (ty = packetTypeSignalStart \/ ty = packetTypeSignalStop) ->
  pkt_ok b (cell ty d).
Proof.
  intros Hd Ht. split; [|exact Ht]. apply cell_cell_ok; [|done].
  destruct Ht as [->|[->|[->|[->|[->|[_ [->| ->]]]]]]]; done.
Qed.

(** The arrival of a packet that the other role may send. *)
Lemma deliver_handler p e :
  pkt_ok (negb (server e)) p -> handler e <> HPanic -> handler (deliver p e) <> HPanic.
Proof.
  intros [_ Ht] Hh. unfold deliver.
  assert (Hs : server e = true \/ (Packet.pktType p =? packetTypeSignalStart) = false
                                 /\ (Packet.pktType p =? packetTypeSignalStop) = false).
  { destruct Ht as [->|[->|[->|[->|[->|[Hs _]]]]]]; auto. left. by apply negb_false_iff. }
  repeat (case_match; cbn; try done). all: destruct Hs as [Hs|[? ?]]; try congruence;
    by rewrite Hs in *.
Qed.

Lemma ep_ok_step ev b e out inn e' out' inn' :
  ep_exec ev e out inn = Some (e', out', inn') ->
  server e = b -> main_ok b (main e) -> ticker_ok b (ticker e) -> handler e <> HPanic ->
  Forall (pkt_ok b) (transit e out) -> Forall (pkt_ok (negb b)) inn -> finishing (main e) ->
  server e' = b /\ main_ok b (main e') /\ ticker_ok b (ticker e') /\ handler e' <> HPanic
  /\ Forall (pkt_ok b) (transit e' out').
Proof.
  intros E Hb Hm Ht Hh Hp Hi Hf. unfold transit in *. pose proof (nFake_ok e). pose proof (nReal_ok e).
  assert (ev = EvDeliver \/ ev <> EvDeliver) as [->|Hne] by (destruct ev; auto).
  { cbn in E. destruct (handler e) eqn:Eh, inn as [|p ps]; simplify_eq.
    apply Forall_cons in Hi as [Hi _].
    destruct (deliver_same p e) as (-> & _ & _ & -> & _ & -> & -> & -> & _).
    split_and!; try done. apply deliver_handler; [done|]. by rewrite Eh. }
  destruct ev; try done.
  all: ep_cases E; cbn; pcs; at_pcs; cbn in *; b2p; try lia.
  all: rewrite ?Forall_app in *; split_and!; try tauto; try done; try lia.
  all: try (apply Forall_singleton, pkt_ok_cell; [done|tauto]).
  all: repeat match goal with H : wchan _ = _ |- _ => rewrite H in * end.
  all: rewrite ?Forall_cons, ?Forall_nil in *; try tauto.
  rewrite zlen_ztake. unfold maxPacketPayloadLength. lia.
Qed.

Lemma content_empty ty : content (cell ty []) = [].
Proof. unfold content. by case_match. Qed.
Lemma content_payload d : content (cell packetTypePayload d) = d.
Proof. done. Qed.
Lemma stream_of_cons p ps : stream_of content (p :: ps) = content p ++ stream_of content ps.
Proof. done. Qed.
Lemma stream_of_nil : stream_of content [] = [].
Proof. done. Qed.
Ltac streams :=
  rewrite ?stream_of_app, ?stream_of_cons, ?stream_of_nil, ?content_empty, ?content_payload,
    ?ztake_zdrop, ?app_nil_l, ?app_nil_r, <- ?app_assoc, ?app_nil_r.

Lemma ep_stream ev e out inn e' out' inn' r :
  ep_exec ev e out inn = Some (e', out', inn') ->
  (exists lost,
    upstream e = r ++ stream_of content out ++ stream_of content (hand (sender e)) ++ lost
                   ++ stream_of content (wchan e) ++ main_hand (main e)
    /\ (sending (sender e) = true -> lost = [])) ->
  finishing (main e) ->
  (exists lost,
    upstream e' = r ++ stream_of content out' ++ stream_of content (hand (sender e')) ++ lost
                    ++ stream_of content (wchan e') ++ main_hand (main e')
    /\ (sending (sender e') = true -> lost = []))
  /\ received e' ++ stream_of content inn' = received e ++ stream_of content inn.
Proof.
  intros E (lost & Hs & Hl) Hf.
  assert (ev = EvDeliver \/ ev <> EvDeliver) as [->|Hne] by (destruct ev; auto).
  { cbn in E. destruct (handler e) eqn:Eh, inn as [|p ps]; simplify_eq.
    destruct (deliver_same p e) as (_ & _ & _ & -> & _ & -> & -> & _ & -> & _ & ->).
    split; [by exists lost|]. change (p :: inn') with ([p] ++ inn').
    rewrite stream_of_app, stream_of_one, <- app_assoc. done. }
  destruct ev; try done.
  all: ep_cases E; (split; [|done]); cbn; pcs; at_pcs; cbn in *; b2p; try by exists lost.
  all: repeat match goal with H : wchan _ = _ |- _ => rewrite H in *; clear H end.
  all: try (exists lost; split; [|done]; rewrite Hs; by streams).
  - apply zlen_0 in Heqb as ->. by exists lost.
  - exists lost. split; [|done]. rewrite Hs, (Hl eq_refl). by streams.
  - exists lost. split; [|done]. rewrite Hs, (Hl eq_refl). by streams.
  - exists (content p). split; [|done]. rewrite Hs, (Hl eq_refl). by streams.
Qed.

Lemma ep_inn ev e out inn e' out' inn' :
  ep_exec ev e out inn = Some (e', out', inn') -> inn' = inn \/ exists p, inn = p :: inn'.
Proof.
  intros E. destruct ev; cbn [ep_exec] in E; step_cases E; simplify_eq; eauto.
Qed.

(** ** The two ends together *)

Lemma turns_wire e out : turns e out = turns e [] + count is_finish out.
Proof. unfold turns, transit. cbn. rewrite !count_app. lia. Qed.
Lemma turns_nonneg e out :
  0 <= held (main e) <= 1 /\ 0 <= count is_finish (transit e out)
  /\ turns e out = held (main e) + count is_finish (transit e out)
                   + (count gives_turn (chan e) + pushing (handler e))
  /\ 0 <= count gives_turn (chan e) + pushing (handler e).
Proof.
  pose proof (count_nonneg is_finish (transit e out)). pose proof (count_nonneg gives_turn (chan e)).
  assert (0 <= pushing (handler e)) by (unfold pushing; repeat case_match; done).
  split_and!; try done; try lia; by destruct (main e).
Qed.

Lemma end_step ev b e out inn e' out' inn' f r :
  ep_exec ev e out inn = Some (e', out', inn') ->
  end_ok b e out r -> end_ok (negb b) f inn (received e) ->
  end_ok b e' out' r /\ end_ok (negb b) f inn' (received e')
  /\ turns e' out' + turns f inn' <= turns e out + turns f inn + (alarms e' - alarms e).
Proof.
  intros E [H1 H2 H3 H4 H5 H6 H7] [P1 P2 P3 P4 P5 P6 (lost & Ps & Pl)].
  assert (Hinn : Forall (pkt_ok (negb b)) inn) by (by apply Forall_app in P5 as [? _]).
  destruct (ep_ok_step _ _ _ _ _ _ _ _ E H1 H2 H3 H4 H5 Hinn (proj1 H6)) as (N1 & N2 & N3 & N4 & N5).
  destruct (ep_stream _ _ _ _ _ _ _ _ E H7 (proj1 H6)) as [N7 Nr].
  pose proof (ep_quiet _ _ _ _ _ _ _ E H6) as N6.
  destruct (ep_turns _ _ _ _ _ _ _ E) as [Nt _].
  split_and!; [done| |rewrite (turns_wire f inn), (turns_wire f inn'); lia].
  split; try done.
  - destruct (ep_inn _ _ _ _ _ _ _ E) as [->|[p ->]]; [done|]. by apply Forall_cons in P5 as [_ ?].
  - destruct P6 as [Pf Pq]. split; [done|]. intros Hb. specialize (Pq Hb).
    destruct (ep_inn _ _ _ _ _ _ _ E) as [->|[p ->]]; [done|].
    eapply (complete_suffix (bursts [p])). by rewrite <- bursts_app.
  - exists lost. split; [|done]. by rewrite (app_assoc (received e')), Nr, <- app_assoc.
Qed.

Record Inv (s : sys) : Prop := {
  inv_cl : end_ok false (cl s) (up s) (received (sv s));
  inv_sv : end_ok true (sv s) (down s) (received (cl s));
  inv_turns : turns (cl s) (up s) + turns (sv s) (down s) <= 1 + alarms (cl s) + alarms (sv s)
}.

Lemma wt_init_Inv : Inv init.
Proof.
  split; [| |done].
  all: split; cbn; try done; [split; [done|]; intros _; by left|]; by exists [].
Qed.

Lemma wt_exec_Inv ev s s' : Inv s -> exec ev s = Some s' -> Inv s'.
Proof.
  intros [Hc Hs Ht]. unfold exec. destruct ev as [[] ev]; cbn [fst snd].
  - destruct (crashed (sv s)); [done|]. destruct (ep_exec _ _ _ _) as [[[e out] inn]|] eqn:E; cbn; [|done].
    intros [= <-]. destruct (end_step _ _ _ _ _ _ _ _ (cl s) _ E Hs Hc) as (? & ? & ?).
    split; cbn; try done. lia.
  - destruct (crashed (cl s)); [done|]. destruct (ep_exec _ _ _ _) as [[[e out] inn]|] eqn:E; cbn; [|done].
    intros [= <-]. destruct (end_step _ _ _ _ _ _ _ _ (sv s) _ E Hc Hs) as (? & ? & ?).
    split; cbn; try done. lia.
Qed.

Lemma wt_reachable s : rtc step init s -> Inv s.
Proof. apply does_invariant; [by intros; eapply wt_exec_Inv|apply wt_init_Inv]. Qed.

(** What the turns say of one end when the other has one. *)
Lemma other_quiet b e out r f inn :
  end_ok b e out r -> turns e out + turns f inn <= 1 -> held (main f) = 1 ->
  held (main e) = 0 /\ count is_finish (transit e out) = 0
  /\ (between (main e) = true -> sending (sender e) = true -> bursts (transit e out) = []).
Proof.
  intros [_ _ _ _ _ [_ Hq] _] Ht Hf.
  destruct (turns_nonneg e out) as (? & ? & He & ?), (turns_nonneg f inn) as (? & ? & Hf' & ?).
  split_and!; [lia|lia|]. intros Hbe Hse. apply complete_none; [apply Hq; by rewrite Hbe, Hse|].
  assert (Hle : count is_finish (bursts (transit e out)) <= count is_finish (transit e out)).
  { clear. induction (transit e out) as [|p ps IH]; [done|].
    change (p :: ps) with ([p] ++ ps). rewrite bursts_app, !count_app, bursts_one.
    destruct (burst p); [lia|]. rewrite count_nil, count_one. destruct (is_finish p); lia. }
  pose proof (count_nonneg is_finish (bursts (transit e out))). lia.
Qed.

(** C16: Walkie-Talkie is half-duplex: for every interleaving of the goroutines of
    both ends and of the network, as long as no [isAliveTimer] has fired there is
    at most one turn, wherever it is (in a main loop, in a finish packet at any
    place of the way, in a [canSendChan]); and while one end has it in its main
    loop, the other has none, and of the other's bursts nothing is on the way
    any more, unless its loop or its sender is over. *)
Theorem wt_half_duplex s :
  rtc step init s -> alarms (cl s) = 0 -> alarms (sv s) = 0 ->
  turns (cl s) (up s) + turns (sv s) (down s) <= 1
  /\ (held (main (sv s)) = 1 ->
      held (main (cl s)) = 0
      /\ (between (main (cl s)) = true -> sending (sender (cl s)) = true ->
          bursts (transit (cl s) (up s)) = []))
  /\ (held (main (cl s)) = 1 ->
      held (main (sv s)) = 0
      /\ (between (main (sv s)) = true -> sending (sender (sv s)) = true ->
          bursts (transit (sv s) (down s)) = [])).
Proof.
  intros Hr H1 H2. destruct (wt_reachable s Hr) as [Hc Hs Ht]. rewrite H1, H2 in Ht.
  split_and!; [lia| |]; intros Hh.
  - by destruct (other_quiet _ _ _ _ _ _ Hc Ht Hh) as (? & _ & ?).
  - rewrite Z.add_comm in Ht. by destruct (other_quiet _ _ _ _ _ _ Hs Ht Hh) as (? & _ & ?).
Qed.

(** C17: Walkie-Talkie end to end, alarms or not, for burst counts ([n-client-real],
    [n-server-real], [n-client-fake], [n-server-fake]) none of which is negative:
    for every interleaving, neither end panics; what each end received is a prefix
    of what the other read upstream; and while the sender of an end runs, what is
    on the way from it and in the hands of its main loop is exactly the rest.
    The argument parsers accept negative counts as well, and with one [utils.Uniform]
    panics ([negative_count_panics]). *)
Theorem wt_stream s :
  rtc step init s ->
  crashed (cl s) = false /\ crashed (sv s) = false
  /\ (exists rest, upstream (cl s) = received (sv s) ++ rest)
  /\ (exists rest, upstream (sv s) = received (cl s) ++ rest)
  /\ (sending (sender (cl s)) = true ->
      upstream (cl s) = received (sv s) ++ stream_of content (transit (cl s) (up s)) ++ main_hand (main (cl s)))
  /\ (sending (sender (sv s)) = true ->
      upstream (sv s) = received (cl s) ++ stream_of content (transit (sv s) (down s)) ++ main_hand (main (sv s))).
Proof.
  intros Hr. destruct (wt_reachable s Hr) as [Hc Hs _].
  assert (Hside : forall b e out r, end_ok b e out r ->
    crashed e = false /\ (exists rest, upstream e = r ++ rest)
    /\ (sending (sender e) = true -> upstream e = r ++ stream_of content (transit e out) ++ main_hand (main e))).
  { intros b e out r [_ Hm _ Hh _ _ (lost & Hu & Hl)]. split_and!.
    - unfold crashed. destruct (main e), (handler e); done.
    - eauto.
    - intros H1. rewrite Hu, (Hl H1). unfold transit. rewrite !stream_of_app, <- !app_assoc. done. }
  destruct (Hside _ _ _ _ Hc) as (? & ? & ?), (Hside _ _ _ _ Hs) as (? & ? & ?). by split_and!.
Qed.

(** A client at [canSendChan <- signalReal] with a full channel never gets on. *)
Lemma stuck_forever s s' :
  main (cl s) = WSkip -> chan (cl s) <> [] -> rtc step s s' -> main (cl s') = WSkip.
Proof.
  clear config_ok.
  intros Hm Hc Hr.
  enough (main (cl s') = WSkip /\ chan (cl s') <> []) by tauto.
  revert Hr. apply (does_invariant _ (fun s => main (cl s) = WSkip /\ chan (cl s) <> [])); [|done].
  clear. intros [b ev] s s' [Hm Hc]. unfold exec. destruct b; cbn [fst snd].
  - destruct (crashed (sv s)); [done|]. destruct (ep_exec _ _ _ _) as [[[e out] inn]|]; cbn; [|done].
    by intros [= <-].
  - destruct (crashed (cl s)); [done|]. destruct (ep_exec _ _ _ _) as [[[e out] inn]|] eqn:E; cbn; [|done].
    intros [= <-]. cbn. destruct ev.
    all: cbn [ep_exec] in E; rewrite ?Hm in E.
    1: { unfold main_step in E. rewrite Hm in E. destruct (push _ _) eqn:Ep; [|done].
         by apply push_Some in Ep as [_ ?]. }
    all: ep_cases E; cbn; try done.
    by destruct (deliver_same p (cl s)) as (_ & _ & -> & _ & _ & -> & _).
Qed.
End ends.

(** ** A deadlock *)

Definition example_config : config := mkConfig 3 3 2 2.
(** The steps of an end that take a turn with [sample] dummies. *)
Definition burst_of (b : bool) (rd : event) (n : nat) : list (bool * event) :=
  map (pair b) ([EvSignal; EvMain; EvDeadline None; rd] ++ replicate n EvMain
                ++ [EvSample 0; EvMain; EvMain; EvMain]).
Definition ship (b : bool) : list (bool * event) := [(b, EvTake); (b, EvWrite)].
Definition arrive (b : bool) : list (bool * event) := [(b, EvDeliver); (b, EvHandler)].
Definition evs_client : list (bool * event) :=
  [(false, EvMain)] ++ burst_of false (EvRead (zrepeat 600 Byte.x41)) 9.
(** The alarm of the client passes the turn a second time; the server answers
    twice; the client skips its fake turn while the second answer waits. *)
Definition evs_deadlock : list (bool * event) :=
  evs_client ++ [(false, EvAlarm); (false, EvMain)] ++ concat (replicate 5 (ship false))
  ++ arrive true ++ [(true, EvDeliver); (true, EvDeliver)] ++ arrive true ++ burst_of true EvTimeout 1
  ++ arrive true ++ burst_of true EvTimeout 1 ++ ship true ++ ship true ++ arrive false
  ++ [(false, EvSignal); (false, EvMain)] ++ arrive false ++ [(false, EvCoin false)].

(** The alarm that is there to break a deadlock can cause one: the client blocks
    for ever on its own channel. *)
Theorem alarm_deadlock :
  exists s, rtc (step example_config) init s /\ alarms (cl s) = 1
  /\ forall s', rtc (step example_config) s s' -> main (cl s') = WSkip.
Proof.
  eexists. split; [apply (runs_rtc _ evs_deadlock); vm_compute; reflexivity|].
  split; [reflexivity|]. intros s' Hr.
  refine (stuck_forever _ _ _ _ _ Hr); [reflexivity|discriminate].
Qed.

(** A negative count, which no parser of the arguments refuses, ends the process
    at the first real burst: [rand.Intn] panics. *)
Theorem negative_count_panics :
  exists s, rtc (step (mkConfig (-1) 3 2 2)) init s /\ crashed (cl s) = true.
Proof.
  eexists. split; [apply (runs_rtc _ (take 14 evs_client ++ [(false, EvMain)])); vm_compute; reflexivity|].
  reflexivity.
Qed.
End WalkieTalkie.

Section witnesses.
Import Cells Randomwt WalkieTalkie.

(** A burst of the client is over and delivered; the server answers. *)
Definition wt_evs : list (bool * event) :=
  evs_client ++ concat (replicate 4 (ship false)) ++ arrive true
  ++ [(true, EvDeliver); (true, EvDeliver)] ++ arrive true
  ++ map (pair true) [EvSignal; EvMain; EvDeadline None; EvRead (zrepeat 40 Byte.x42); EvMain; EvMain].
Definition wt_s : sys := Eval vm_compute in default init (runs (exec example_config) wt_evs init).
Lemma wt_reach : rtc (step example_config) init wt_s.
Proof. apply (runs_rtc _ wt_evs). vm_compute. reflexivity. Qed.
Lemma example_config_ok :
  0 <= nClientReal example_config /\ 0 <= nServerReal example_config
  /\ 0 <= nClientFake example_config /\ 0 <= nServerFake example_config.
Proof. cbn. lia. Qed.

Lemma wt_half_duplex_witness :
  held (main (sv wt_s)) = 1 /\ held (main (cl wt_s)) = 0
  /\ bursts (transit (cl wt_s) (up wt_s)) = [].
Proof.
  split; [reflexivity|].
  destruct (wt_half_duplex example_config example_config_ok wt_s wt_reach eq_refl eq_refl) as (_ & H & _).
  destruct (H eq_refl) as [H1 H2]. split; [exact H1|]. apply H2; reflexivity.
Defined.

Lemma wt_stream_witness :
  zlen (received (sv wt_s)) = 600
  /\ upstream (sv wt_s)
     = received (cl wt_s) ++ stream_of content (transit (sv wt_s) (down wt_s)) ++ main_hand (main (sv wt_s)).
Proof.
  split; [vm_compute; reflexivity|].
  apply (wt_stream example_config example_config_ok wt_s wt_reach). reflexivity.
Defined.
End witnesses.
