(* ===== verification/ObfsState.v ===== *)
(** * Certificates, state files and factories of obfs4

    [transports/obfs4/statefile.go] and the factories of [obfs4.go]: how a
    server finds or creates its identity, what it publishes for its clients,
    and what a client makes of it.

    The state directory holds two files of each transport, the state and the
    bridge line; a state file is a JSON document.  What a [WriteFile] does to
    the file is the environment's choice. *)
From S2P Require Import Prelude GoStd Rand Drbg Framing ProbDist ReplayFilter Packet Ntor Handshake Obfs4 Args Links GoFloat GoText.

(** goptlib's [args.Get]: the first value of a key. *)
Class PtArgsGet `{PtArgs} := { Get : bytes -> Args -> option bytes }.
Class PtArgsLaws `{PtArgsGet} : Prop := {
  Get_make k : Get k make_Args = None;
  Get_Add k v a : Get k (Add k v a) = Some (default v (Get k a));
  Get_Add_ne k k' v a : k <> k' -> Get k (Add k' v a) = Get k a
}.

(** ** The environment of the set-up code *)
Module Env.
Inductive file := Document (d : Json.document) | Text (b : bytes) | Unreadable.
(** A failed [WriteFile] leaves the old file, nothing, or part of the new one. *)
Inductive outcome := Written | Failed (left : option file).

Record World := mkWorld {
  tape : bytes;                (* the entropy behind [csrand] *)
  state_file : option file;    (* [None]: it does not exist *)
  bridge_file : option file;
  outcomes : list outcome      (* of the calls of [WriteFile] to come; then they succeed *)
}.

Inductive error :=
| MissingArg (name : bytes)
| Malformed (name : bytes)
| Invalid (name : bytes)
| NtorError (e : Ntor.error)
| SeedError (e : Drbg.error)
| EntropyError (e : Csrand.error)
| CertDecode
| CertLength (n : Z)
| ReadError          (* of [ioutil.ReadFile] *)
| LoadError          (* failed to load statefile: [json.Unmarshal] *)
| MarshalError
| WriteError
| NetError (e : Packet.net_error)
| LinkError (e : Obfs4.hs_error).

Abbreviation S := (M World error).

(** Code that draws from [csrand]. *)
Definition draw {E A} (f : E -> error) (m : M bytes E A) : S A :=
  on_part tape (fun t w => mkWorld t (state_file w) (bridge_file w) (outcomes w)) (map_err f m).

Definition as_error {E A} (f : E -> error) (r : result E A) : S A :=
  match r with Ok a => mret a | Err e => fail (f e) | Panic w => panic w end.

Definition next_outcome (w : World) : outcome * list outcome :=
  match outcomes w with [] => (Written, []) | o :: l => (o, l) end.

(** [ioutil.WriteFile] of the state file and of the bridge line. *)
Definition write_state (f : file) : S unit := fun w =>
  match next_outcome w with
  | (Written, l) => (Ok tt, mkWorld (tape w) (Some f) (bridge_file w) l)
  | (Failed f, l) => (Err WriteError, mkWorld (tape w) f (bridge_file w) l)
  end.
Definition write_bridge (f : file) : S unit := fun w =>
  match next_outcome w with
  | (Written, l) => (Ok tt, mkWorld (tape w) (state_file w) (Some f) l)
  | (Failed f, l) => (Err WriteError, mkWorld (tape w) (state_file w) f l)
  end.

Lemma write_state_run f w : outcomes w = [] ->
  write_state f w = (Ok tt, mkWorld (tape w) (Some f) (bridge_file w) []).
Proof. unfold write_state, next_outcome. by intros ->. Qed.
Lemma write_bridge_run f w : outcomes w = [] ->
  write_bridge f w = (Ok tt, mkWorld (tape w) (state_file w) (Some f) []).
Proof. unfold write_bridge, next_outcome. by intros ->. Qed.

(** [json.Marshal] of a struct with these fields, then [ioutil.WriteFile]. *)
Definition write_json (fields : list (bytes * Json.value)) : S unit :=
  match Json.Marshal fields with
  | None => fail MarshalError
  | Some d => write_state (Document d)
  end.

(** The file as [ioutil.ReadFile] and [json.Unmarshal] see it; [create] runs
    when it does not exist. *)
Definition read_json {J} (set : bytes -> Json.value -> J -> option J) (create : J -> S J) (js : J)
  : S J :=
  w ← get;
  match state_file w with
  | None => create js
  | Some Unreadable => fail ReadError
  | Some (Text _) => fail LoadError
  | Some (Document d) =>
      match Json.Unmarshal set d js with Some js => mret js | None => fail LoadError end
  end.
End Env.

(** ** The code that obfs4, defconn and randomwt have copies of *)
Module ServerCert.
Import Env.
Definition certSuffix : bytes := str "==".
Definition certLength : Z := Ntor.NodeIDLength + Ntor.PublicKeyLength.

Definition String (raw : bytes) : bytes :=
  Strings.TrimSuffix (Base64.EncodeToString raw) certSuffix.

Definition unpack (raw : bytes) : result error (Ntor.NodeID * Ntor.PublicKey) :=
  if negb (zlen raw =? certLength) then Panic "cert length is invalid"
  else
    match gslice 0 Ntor.NodeIDLength raw, gslice Ntor.NodeIDLength (zlen raw) raw with
    | Some id, Some key =>
        match Ntor.NewNodeID id, Ntor.NewPublicKey key with
        | Ok id, Ok key => Ok (id, key)
        | _, _ => Panic "nil pointer" (* the errors are dropped; not reached *)
        end
    | _, _ => Panic "slice bounds out of range"
    end.

Definition serverCertFromString (encoded : bytes) : result error bytes :=
  match Base64.DecodeString (encoded ++ certSuffix) with
  | None => Err CertDecode
  | Some decoded =>
      if negb (zlen decoded =? certLength) then Err (CertLength (zlen decoded)) else Ok decoded
  end.

Definition serverCertFromState (nodeID : Ntor.NodeID) (identityKey : Ntor.Keypair) : bytes :=
  nodeID ++ Ntor.public identityKey.

Lemma unpack_cert id key :
  zlen id = Ntor.NodeIDLength -> zlen key = Ntor.PublicKeyLength ->
  unpack (id ++ key) = Ok (id, key).
Proof.
  intros Hid Hkey. unfold unpack. rewrite zlen_app, Hid, Hkey. cbn [negb].
  change (negb (_ =? certLength)) with false. cbn iota.
  assert (G1 : gslice 0 Ntor.NodeIDLength (id ++ key) = Some id).
  { apply (gslice_app_mid [] id key); [done|]. rewrite zlen_nil. lia. }
  assert (G2 : gslice Ntor.NodeIDLength (Ntor.NodeIDLength + Ntor.PublicKeyLength) (id ++ key)
               = Some key).
  { rewrite <- (app_nil_r key) at 1. apply gslice_app_mid; lia. }
  rewrite G1, G2. unfold Ntor.NewNodeID, Ntor.NewPublicKey. by rewrite Hid, Hkey.
Qed.

(** The certificate of an identity is read back as this identity. *)
Lemma cert_roundtrip id key :
  zlen id = Ntor.NodeIDLength -> zlen key = Ntor.PublicKeyLength ->
  serverCertFromString (String (id ++ key)) = Ok (id ++ key).
Proof.
  intros Hid Hkey. unfold serverCertFromString, String.
  assert (Hl : zlen (id ++ key) = certLength) by (rewrite zlen_app, Hid, Hkey; reflexivity).
  destruct (Base64.encode_suffix 17 (id ++ key)) as [s Hs].
  { unfold zlen in Hl. change certLength with 52 in Hl. lia. }
  rewrite Hs. change certSuffix with [Base64.padChar; Base64.padChar].
  by rewrite Strings.TrimSuffix_app, <- Hs, Base64.Base64_roundtrip, Hl, Z.eqb_refl.
Qed.

(** A certificate that was read can be unpacked. *)
Lemma cert_read_length s raw : serverCertFromString s = Ok raw -> zlen raw = certLength.
Proof.
  unfold serverCertFromString. destruct (Base64.DecodeString _) as [b|]; [|done].
  destruct (zlen b =? certLength) eqn:E; b2p; cbn; intros [= <-]. done.
Qed.

Lemma unpack_ok raw : zlen raw = certLength ->
  exists id key, unpack raw = Ok (id, key) /\ raw = id ++ key
    /\ zlen id = Ntor.NodeIDLength /\ zlen key = Ntor.PublicKeyLength.
Proof.
  intros Hl. exists (ztake Ntor.NodeIDLength raw), (zdrop Ntor.NodeIDLength raw).
  assert (H1 : zlen (ztake Ntor.NodeIDLength raw) = Ntor.NodeIDLength)
    by (rewrite zlen_ztake, Hl; reflexivity).
  assert (H2 : zlen (zdrop Ntor.NodeIDLength raw) = Ntor.PublicKeyLength)
    by (rewrite zlen_zdrop, Hl; reflexivity).
  rewrite <- (ztake_zdrop Ntor.NodeIDLength raw) at 1. rewrite unpack_cert by done.
  split; [done|]. split; [by rewrite ztake_zdrop|done].
Qed.
End ServerCert.

(** ** obfs4 *)
Module ObfsState.
Import Env ServerCert.
Definition nodeIDArg : bytes := str "node-id".
Definition publicKeyArg : bytes := str "public-key".
Definition privateKeyArg : bytes := str "private-key".
Definition seedArg : bytes := str "drbg-seed".
Definition iatArg : bytes := str "iat-mode".
Definition certArg : bytes := str "cert".
#[global] Arguments nodeIDArg : simpl never.
#[global] Arguments publicKeyArg : simpl never.
#[global] Arguments privateKeyArg : simpl never.
#[global] Arguments seedArg : simpl never.
#[global] Arguments iatArg : simpl never.
#[global] Arguments certArg : simpl never.
Definition replayTTL : Z := 3 * 3600 * 1000000000.
Definition maxIATDelay : Z := 100.
Definition maxCloseDelay : Z := 60.
Definition iatNone : Z := 0.
Definition iatParanoid : Z := 2.

Record jsonServerState := mkJson {
  NodeID : bytes; PrivateKey : bytes; PublicKey : bytes; DrbgSeed : bytes; IATMode : Z
}.
(** The fields by the names of their tags. *)
Definition json_fields (js : jsonServerState) : list (bytes * Json.value) :=
  [(nodeIDArg, Json.JString (NodeID js)); (privateKeyArg, Json.JString (PrivateKey js));
   (publicKeyArg, Json.JString (PublicKey js)); (seedArg, Json.JString (DrbgSeed js));
   (iatArg, Json.JInt (IATMode js))].
Definition json_set (key : bytes) (v : Json.value) (js : jsonServerState) : option jsonServerState :=
  let '(mkJson id priv pub seed iat) := js in
  if bool_decide (key = nodeIDArg) then
    id ← Json.to_string v id; Some (mkJson id priv pub seed iat)
  else if bool_decide (key = privateKeyArg) then
    priv ← Json.to_string v priv; Some (mkJson id priv pub seed iat)
  else if bool_decide (key = publicKeyArg) then
    pub ← Json.to_string v pub; Some (mkJson id priv pub seed iat)
  else if bool_decide (key = seedArg) then
    seed ← Json.to_string v seed; Some (mkJson id priv pub seed iat)
  else if bool_decide (key = iatArg) then
    iat ← Json.to_int v iat; Some (mkJson id priv pub seed iat)
  else Some js.

Record obfs4ServerState := mkState {
  nodeID : Ntor.NodeID; identityKey : Ntor.Keypair; drbgSeed : bytes; iatMode : Z; cert : bytes
}.

Definition clientString (st : obfs4ServerState) : bytes :=
  certArg ++ str "=" ++ String (cert st) ++ str " " ++ iatArg ++ str "=" ++ Atoi.Itoa (iatMode st).

Definition nl : bytes := [Byte.x0a].
Definition bridge_prefix : bytes :=
  str "# obfs4 torrc client bridge line" ++ nl ++ str "#" ++ nl
  ++ str "# This file is an automatically generated bridge line based on" ++ nl
  ++ str "# the current obfs4proxy configuration.  EDITING IT WILL HAVE" ++ nl
  ++ str "# NO EFFECT." ++ nl ++ str "#" ++ nl
  ++ str "# Before distributing this Bridge, edit the placeholder fields" ++ nl
  ++ str "# to contain the actual values:" ++ nl
  ++ str "#  <IP ADDRESS>  - The public IP address of your obfs4 bridge." ++ nl
  ++ str "#  <PORT>        - The TCP/IP port of your obfs4 bridge." ++ nl
  ++ str "#  <FINGERPRINT> - The bridge's fingerprint." ++ nl ++ nl.
Definition newBridgeFile (st : obfs4ServerState) : S unit :=
  write_bridge (Text (bridge_prefix ++ str "Bridge obfs4 <IP ADDRESS>:<PORT> <FINGERPRINT> "
                      ++ clientString st ++ nl)).

Section server.
Context `{SipHash} `{Curve25519} `{Elligator} `{PtArgsGet}.

Definition writeJSONServerState (js : jsonServerState) : S unit := write_json (json_fields js).

Definition newJSONServerState (js : jsonServerState) : S jsonServerState :=
  rawID ← draw EntropyError (Csrand.Bytes Ntor.NodeIDLength);
  id ← as_error NtorError (Ntor.NewNodeID rawID);
  key ← draw NtorError (Ntor.NewKeypair false);
  seed ← draw SeedError Drbg.NewSeed;
  let js := mkJson (Ntor.key_Hex id) (Ntor.key_Hex (Ntor.private key))
                   (Ntor.key_Hex (Ntor.public key)) (Drbg.SeedHex seed) iatNone in
  _ ← writeJSONServerState js; mret js.

Definition jsonServerStateFromFile : jsonServerState -> S jsonServerState :=
  read_json json_set newJSONServerState.

Definition serverStateFromJSONServerState (js : jsonServerState) : S obfs4ServerState :=
  id ← as_error NtorError (Ntor.NodeIDFromHex (NodeID js));
  key ← as_error NtorError (Ntor.KeypairFromHex (PrivateKey js));
  seed ← as_error SeedError (Drbg.SeedFromHex (DrbgSeed js));
  if (IATMode js <? iatNone) || (iatParanoid <? IATMode js) then fail (Invalid iatArg)
  else
    let st := mkState id key seed (IATMode js) (serverCertFromState id key) in
    _ ← newBridgeFile st; _ ← writeJSONServerState js; mret st.

Definition serverStateFromArgs (args : Args) : S obfs4ServerState :=
  let id := Get nodeIDArg args in
  let priv := Get privateKeyArg args in
  let seed := Get seedArg args in
  let js := mkJson (default [] id) (default [] priv) [] (default [] seed) 0 in
  js ← match priv, id, seed with
       | None, None, None => jsonServerStateFromFile js
       | None, _, _ => fail (MissingArg privateKeyArg)
       | _, None, _ => fail (MissingArg nodeIDArg)
       | _, _, None => fail (MissingArg seedArg)
       | Some _, Some _, Some _ => mret js
       end;
  js ← match Get iatArg args with
       | None => mret js
       | Some iatStr =>
           match Atoi.Atoi iatStr with
           | None => fail (Malformed iatArg)
           | Some v => mret (mkJson (NodeID js) (PrivateKey js) (PublicKey js) (DrbgSeed js) v)
           end
       end;
  serverStateFromJSONServerState js.

Record obfs4ServerFactory := mkServerFactory {
  sf_args : Args; sf_nodeID : Ntor.NodeID; sf_identityKey : Ntor.Keypair; lenSeed : bytes;
  iatSeed : option bytes; sf_iatMode : Z; replayFilter : ReplayFilter.ReplayFilter;
  closeDelay : Z
}.

(** [rand.New (drbg).Intn (maxCloseDelay)]; [fuel] bounds the draws. *)
Definition close_delay (fuel : nat) (seed : bytes) : S Z :=
  d ← draw SeedError (Drbg.NewHashDrbg (Some seed));
  as_error SeedError (MathRand.Intn Drbg.Int63 fuel maxCloseDelay d).1.

Definition iat_seed (seed : bytes) : result Drbg.error bytes :=
  Drbg.SeedFromBytes (Sha256.Sum256 (Drbg.SeedBytes seed)).

Definition ServerFactory (fuel : nat) (args : Args) : S obfs4ServerFactory :=
  st ← serverStateFromArgs args;
  iatSeed ← (if negb (iatMode st =? iatNone)
             then s ← as_error SeedError (iat_seed (drbgSeed st)); mret (Some s)
             else mret None);
  let ptArgs := Add certArg (String (cert st)) make_Args in
  let ptArgs := Add iatArg (Atoi.Itoa (iatMode st)) ptArgs in
  filter ← draw EntropyError (ReplayFilter.New replayTTL);
  delay ← close_delay fuel (drbgSeed st);
  mret (mkServerFactory ptArgs (nodeID st) (identityKey st) (drbgSeed st) iatSeed (iatMode st)
          filter delay).

Record obfs4ClientArgs := mkClientArgs {
  ca_nodeID : Ntor.NodeID; ca_publicKey : Ntor.PublicKey; ca_sessionKey : Ntor.Keypair;
  ca_iatMode : Z
}.

(** The identity of the server from either style of bridge line. *)
Definition server_identity (args : Args) : result error (Ntor.NodeID * Ntor.PublicKey) :=
  let ntor {A} (r : result Ntor.error A) : result error A :=
    match r with Ok a => Ok a | Err e => Err (NtorError e) | Panic w => Panic w end in
  match Get certArg args with
  | Some certStr => raw ← serverCertFromString certStr; unpack raw
  | None =>
      match Get nodeIDArg args with
      | None => Err (MissingArg nodeIDArg)
      | Some nodeIDStr =>
          id ← ntor (Ntor.NodeIDFromHex nodeIDStr);
          match Get publicKeyArg args with
          | None => Err (MissingArg publicKeyArg)
          | Some publicKeyStr => key ← ntor (Ntor.PublicKeyFromHex publicKeyStr); Ok (id, key)
          end
      end
  end.

Definition ParseArgs (args : Args) : S obfs4ClientArgs :=
  identity ← as_error id (server_identity args);
  match Get iatArg args with
  | None => fail (MissingArg iatArg)
  | Some iatStr =>
      match Atoi.Atoi iatStr with
      | None => fail (Invalid iatArg)
      | Some iat =>
          if (iat <? iatNone) || (iatParanoid <? iat) then fail (Invalid iatArg)
          else
            sessionKey ← draw NtorError (Ntor.NewKeypair true);
            mret (mkClientArgs identity.1 identity.2 sessionKey iat)
      end
  end.
End server.

(** *** Connections *)
Section conns.
Context `{SipHash} `{SecretBox} `{Curve25519} `{Elligator} `{Hkdf} `{PtArgsGet}.
(** The draws [math/rand] may need, the flag [-obfs4-distBias], and the limit,
    type and padding of the seed packet. *)
Context (fuel : nat) (biasedDist : bool).
Abbreviation net_error := (option Packet.net_error).

Record obfs4Conn := mkConn { c_app : Obfs4.app; c_iatMode : Z; c_link : option Obfs4.link }.

Definition seed_result {A} (r : result Drbg.error A) : result error A :=
  match r with Ok a => Ok a | Err e => Err (SeedError e) | Panic p => Panic p end.

(** The distributions of a connection, from its seeds. *)
Definition new_app (isServer : bool) (lenSeed : bytes) (iatSeed : option bytes)
  : result error Obfs4.app :=
  lenDist ← seed_result (ProbDist.New fuel lenSeed 0 Framing.MaximumSegmentLength biasedDist);
  iatDist ← match iatSeed with
            | None => Ok None
            | Some s => d ← seed_result (ProbDist.New fuel s 0 maxIATDelay biasedDist); Ok (Some d)
            end;
  Ok (Obfs4.mkApp isServer lenDist iatDist []).

(** [newObfs4ClientConn]: [None] when the handshake blocks, and what was
    written.  The two deadlines and the [Write] have their outcome. *)
Definition newObfs4ClientConn (args : obfs4ClientArgs) (hour : Z) (tape : bytes)
    (deadline1 deadline2 : net_error) (writeErr : Links.write_result)
    (net : list (bytes * net_error))
  : option (result error obfs4Conn) * list bytes :=
  match Drbg.NewSeed tape with
  | (Err e, _) => (Some (Err (SeedError e)), [])
  | (Panic p, _) => (Some (Panic p), [])
  | (Ok seed, tape) =>
      match (iatSeed ← (if negb (ca_iatMode args =? iatNone)
                        then s ← seed_result (iat_seed seed); Ok (Some s) else Ok None);
             new_app false seed iatSeed), deadline1 with
      | Err e, _ => (Some (Err e), [])
      | Panic p, _ => (Some (Panic p), [])
      | _, Some e => (Some (Err (NetError e)), [])
      | Ok a, None =>
          let '(r, sent) := Links.clientHandshake false (ca_nodeID args) (ca_publicKey args)
            (ca_sessionKey args) hour tape writeErr net in
          (match r, deadline2 with
           | None, _ => None
           | Some (Err e), _ => Some (Err (LinkError e))
           | Some (Panic p), _ => Some (Panic p)
           | Some (Ok _), Some e => Some (Err (NetError e))
           | Some (Ok l), None => Some (Ok (mkConn a (ca_iatMode args) (Some l)))
           end, sent)
      end
  end.

(** [Dial]: the connection is closed when the transport's handshake fails. *)
Definition Dial (args : obfs4ClientArgs) (dialErr : net_error) (hour : Z) (tape : bytes)
    (deadline1 deadline2 : net_error) (writeErr : Links.write_result)
    (net : list (bytes * net_error))
  : option (result error obfs4Conn) * list bytes * bool :=
  match dialErr with
  | Some e => (Some (Err (NetError e)), [], false)
  | None =>
      let '(r, sent) := newObfs4ClientConn args hour tape deadline1 deadline2 writeErr net in
      (r, sent, match r with Some (Err _) => true | _ => false end)
  end.

(** What [closeAfterDelay] does with the connection; times in nanoseconds. *)
Inductive action := SetReadDeadline (t : Z) | Discard | Close.
Definition serverHandshakeTimeout : Z := 30 * 1000000000.
Definition closeAfterDelay (closeDelay startTime now : Z) (deadlineErr : net_error) : list action :=
  let deadline := startTime + (closeDelay * 1000000000 + serverHandshakeTimeout) in
  if deadline <? now then [Close]
  else match deadlineErr with
       | Some _ => [SetReadDeadline deadline; Close]
       | None => [SetReadDeadline deadline; Discard; Close]
       end.

(** [WrapConn]; the replay filter is shared by the connections of a factory. *)
Definition WrapConn (sf : obfs4ServerFactory) (tape : bytes) (startTime now : Z)
    (deadline1 deadline2 : net_error) (writeErr : Links.write_result) (deadline3 : net_error)
    (net : list (bytes * net_error * Z * Z)) (rf : ReplayFilter.ReplayFilter)
  : option (result error obfs4Conn) * list bytes * list action * ReplayFilter.ReplayFilter :=
  match Ntor.NewKeypair true tape with
  | (Err e, _) => (Some (Err (NtorError e)), [], [], rf)
  | (Panic p, _) => (Some (Panic p), [], [], rf)
  | (Ok sessionKey, tape) =>
      match new_app true (lenSeed sf) (iatSeed sf) with
      | Err e => (Some (Err e), [], [], rf)
      | Panic p => (Some (Panic p), [], [], rf)
      | Ok a =>
          let '(r, sent, rf) := Links.serverHandshake Obfs4.maxPacketPayloadLength
            Obfs4.packetTypePrngSeed 0 true (sf_nodeID sf) (sf_identityKey sf) sessionKey
            (lenSeed sf) tape deadline1 deadline2 writeErr net rf in
          match r with
          | None => (None, sent, [], rf)
          | Some (Panic p) => (Some (Panic p), sent, [], rf)
          | Some (Err e) => (Some (Err (LinkError e)), sent,
                             closeAfterDelay (closeDelay sf) startTime now deadline3, rf)
          | Some (Ok l) => (Some (Ok (mkConn a (sf_iatMode sf) l)), sent, [], rf)
          end
      end
  end.

(** Did a message of the client pass [parseClientHandshake]? *)
Definition client_accepted (sf : obfs4ServerFactory) (tape : bytes)
    (net : list (bytes * net_error * Z * Z)) (rf : ReplayFilter.ReplayFilter) : bool :=
  match Ntor.NewKeypair true tape with
  | (Ok key, t) =>
      match Handshake.newServerHandshake (sf_nodeID sf) (sf_identityKey sf) key t with
      | (Ok hs, _) =>
          match Obfs4.server_loop net [] hs rf with (Some (Ok _), _) => true | _ => false end
      | _ => false
      end
  | _ => false
  end.
End conns.

(** ** Proofs *)

Lemma bind_inv {St E A B} (m : M St E A) (k : A -> M St E B) s b s' :
  (m ≫= k) s = (Ok b, s') -> exists a s1, m s = (Ok a, s1) /\ k a s1 = (Ok b, s').
Proof.
  unfold mbind, M_bind. destruct (m s) as [[a|e|p] s1]; try done. by exists a, s1.
Qed.

Lemma as_error_inv {E A} (f : E -> error) (r : result E A) w a w' :
  as_error f r w = (Ok a, w') -> r = Ok a /\ w' = w.
Proof. destruct r; cbn; mrun; intros; by simplify_eq. Qed.

Lemma draw_inv {E A} (f : E -> error) (m : M bytes E A) w a w' :
  draw f m w = (Ok a, w') -> exists t, m (tape w) = (Ok a, t)
    /\ w' = mkWorld t (state_file w) (bridge_file w) (outcomes w).
Proof.
  unfold draw, on_part, map_err. destruct (m (tape w)) as [[x|e|p] t]; intros; simplify_eq.
  by exists t.
Qed.

Lemma write_state_inv f w w' : write_state f w = (Ok tt, w') -> state_file w' = Some f.
Proof. unfold write_state. destruct (next_outcome w) as [[|l] o]; intros; by simplify_eq. Qed.

(** Take one step of a successful run apart. *)
Ltac step H x :=
  let w := fresh "w" in let E := fresh "E" in
  apply bind_inv in H as (x & w & E & H);
  first [ apply as_error_inv in E as [E ->]
        | apply draw_inv in E as (? & E & ->)
        | idtac ].

#[global] Arguments Ntor.NewKeypair : simpl never.

Section proofs.
Context `{SipHash} `{Curve25519Laws} `{Elligator} `{PtArgsLaws}.

(** What a loaded record and the state made of it have in common. *)
Record loaded (js : jsonServerState) (st : obfs4ServerState) : Prop := {
  ld_id : Ntor.NodeIDFromHex (NodeID js) = Ok (nodeID st);
  ld_key : Ntor.KeypairFromHex (PrivateKey js) = Ok (identityKey st);
  ld_seed : Drbg.SeedFromHex (DrbgSeed js) = Ok (drbgSeed st);
  ld_iat : iatMode st = IATMode js /\ iatNone <= IATMode js <= iatParanoid;
  ld_cert : cert st = serverCertFromState (nodeID st) (identityKey st)
}.

Lemma from_json_inv js w st w' :
  serverStateFromJSONServerState js w = (Ok st, w') ->
  loaded js st /\ state_file w' = Some (Document (Json.Object (json_fields js))).
Proof.
  unfold serverStateFromJSONServerState. intros E.
  step E i. step E key. step E seed.
  destruct (_ <? iatNone) eqn:?, (iatParanoid <? _) eqn:?; try done. b2p. cbn [orb] in E.
  apply bind_inv in E as ([] & w1 & _ & E). apply bind_inv in E as ([] & w2 & E3 & E).
  mrun_in E. simplify_eq. split; [by constructor|].
  unfold writeJSONServerState, write_json in E3. by apply write_state_inv in E3.
Qed.

(** Decide the comparisons of literals in the goal. *)
Ltac compare_keys :=
  repeat match goal with |- context [bool_decide ?P] =>
    let v := eval vm_compute in (bool_decide P) in
    change (bool_decide P) with v; cbn iota end.

(** What was written is what is read. *)
Lemma unmarshal_fields js js0 :
  iatNone <= IATMode js <= iatParanoid ->
  Json.Unmarshal json_set (Json.Object (json_fields js)) js0 = Some js.
Proof.
  intros Hi. destruct js as [a b c d i], js0 as [a0 b0 c0 d0 i0]. cbn in Hi.
  assert (Hr : Json.to_int (Json.JInt i) i0 = Some i).
  { cbn. unfold iatNone, iatParanoid in Hi.
    destruct (_ <=? i) eqn:?; destruct (i <? _) eqn:?; b2p; try done; lia. }
  cbn [Json.Unmarshal json_fields foldl fst snd NodeID PrivateKey PublicKey DrbgSeed IATMode].
  change (Json.fold_key nodeIDArg) with nodeIDArg.
  change (Json.fold_key privateKeyArg) with privateKeyArg.
  change (Json.fold_key publicKeyArg) with publicKeyArg.
  change (Json.fold_key seedArg) with seedArg. change (Json.fold_key iatArg) with iatArg.
  unfold json_set. compare_keys. cbn [Json.to_string mbind option_bind]. by rewrite Hr.
Qed.

(** The record a run of [serverStateFromArgs] settles on: where the identity
    comes from, then the mode. *)
Definition override (args : Args) (js : jsonServerState) : option jsonServerState :=
  match Get iatArg args with
  | None => Some js
  | Some s => v ← Atoi.Atoi s;
              Some (mkJson (NodeID js) (PrivateKey js) (PublicKey js) (DrbgSeed js) v)
  end.

Lemma from_args_inv args w st w' :
  serverStateFromArgs args w = (Ok st, w') -> exists js0 js w1,
    match Get privateKeyArg args, Get nodeIDArg args, Get seedArg args with
    | None, None, None => True
    | Some p, Some i, Some s => js0 = mkJson i p [] s 0
    | _, _, _ => False
    end /\ override args js0 = Some js /\ serverStateFromJSONServerState js w1 = (Ok st, w').
Proof.
  unfold serverStateFromArgs, override. intros E.
  apply bind_inv in E as (js0 & w1 & E0 & E). apply bind_inv in E as (js & w2 & E1 & E).
  exists js0, js, w2. split.
  - destruct (Get privateKeyArg args), (Get nodeIDArg args), (Get seedArg args); try done.
    by mrun_in E0; simplify_eq.
  - split; [|done]. destruct (Get iatArg args) as [s|]; [destruct (Atoi.Atoi s)|];
      mrun_in E1; by simplify_eq.
Qed.

(** The identity arguments, which are given all or not at all. *)
Definition identity_args (args : Args) : option bytes * option bytes * option bytes :=
  (Get privateKeyArg args, Get nodeIDArg args, Get seedArg args).

(** The mode a server that starts again comes up with: what the argument says;
    without one, that of the state file when the identity is read from there too,
    and 0 when the identity is given again. *)
Definition restart_mode (args : Args) (st : obfs4ServerState) : option Z :=
  match Get iatArg args with
  | Some s => Atoi.Atoi s
  | None => Some (if bool_decide (identity_args args = (None, None, None)) then iatMode st else iatNone)
  end.

(** A record with the identity and the seed of [js] makes the state of [js] with
    its own mode. *)
Lemma from_json_mode js st m p w :
  loaded js st -> outcomes w = [] ->
  (serverStateFromJSONServerState (mkJson (NodeID js) (PrivateKey js) p (DrbgSeed js) m) w).1
  = if (m <? iatNone) || (iatParanoid <? m) then Err (Invalid iatArg)
    else Ok (mkState (nodeID st) (identityKey st) (drbgSeed st) m (cert st)).
Proof.
  intros [L1 L2 L3 [L4 L5] L6] Ho. unfold serverStateFromJSONServerState. cbn [NodeID PrivateKey DrbgSeed IATMode].
  mrun. rewrite L1, L2, L3. cbn. destruct (_ || _); [done|]. cbn.
  unfold newBridgeFile, writeJSONServerState, write_json. cbn.
  rewrite write_bridge_run, write_state_run by done. by rewrite L6.
Qed.

Lemma override_same args js js' :
  override args js = Some js' ->
  NodeID js' = NodeID js /\ PrivateKey js' = PrivateKey js /\ DrbgSeed js' = DrbgSeed js.
Proof.
  unfold override. destruct (Get iatArg args) as [s|]; [destruct (Atoi.Atoi s)|];
    intros E; try done; by injection E as <-.
Qed.

(** C19: A server that starts again comes up as the same server: whatever its
    arguments and its state file were, once [serverStateFromArgs] returned a
    state, a later run on the state file it left, with the same identity
    arguments (node id, private key and seed) or with none of them, and whose
    writes succeed, returns the same identity, key, seed and certificate. Its
    inter-arrival mode is the one its own argument gives; without that argument
    it is the mode of the earlier run if the identity arguments are left out as
    well, and falls back to 0 if they are given. The run fails only if that
    argument is no number ([Malformed]) or out of range ([Invalid]). *)
Theorem state_persists args args' w st w' w2 :
  serverStateFromArgs args w = (Ok st, w') ->
  identity_args args' = (None, None, None) \/ identity_args args' = identity_args args ->
  state_file w2 = state_file w' -> outcomes w2 = [] ->
  (serverStateFromArgs args' w2).1 =
    match restart_mode args' st with
    | None => Err (Malformed iatArg)
    | Some m =>
        if (m <? iatNone) || (iatParanoid <? m) then Err (Invalid iatArg)
        else Ok (mkState (nodeID st) (identityKey st) (drbgSeed st) m (cert st))
    end.
Proof.
  intros E Hid Hf Ho.
  apply from_args_inv in E as (js0 & js & w1 & Hjs0 & Hjs & E).
  apply from_json_inv in E as [L Hdoc]. rewrite Hdoc in Hf.
  pose proof (override_same _ _ _ Hjs) as (Hn & Hp & Hs).
  assert (Hstart : exists js1,
    (match Get privateKeyArg args', Get nodeIDArg args', Get seedArg args' with
     | None, None, None => jsonServerStateFromFile (mkJson (default [] (Get nodeIDArg args'))
         (default [] (Get privateKeyArg args')) [] (default [] (Get seedArg args')) 0)
     | None, _, _ => fail (MissingArg privateKeyArg)
     | _, None, _ => fail (MissingArg nodeIDArg)
     | _, _, None => fail (MissingArg seedArg)
     | Some _, Some _, Some _ => mret (mkJson (default [] (Get nodeIDArg args'))
         (default [] (Get privateKeyArg args')) [] (default [] (Get seedArg args')) 0)
     end) w2 = (Ok js1, w2)
    /\ (NodeID js1 = NodeID js /\ PrivateKey js1 = PrivateKey js /\ DrbgSeed js1 = DrbgSeed js)
    /\ IATMode js1 = if bool_decide (identity_args args' = (None, None, None)) then iatMode st else iatNone).
  { unfold identity_args in *. destruct Hid as [Hid|Hid].
    - rewrite Hid, bool_decide_eq_true_2 by done. injection Hid as -> -> ->. exists js.
      destruct L as [_ _ _ [-> Hr] _].
      split; [|done]. unfold jsonServerStateFromFile, read_json. mrun.
      by rewrite Hf, unmarshal_fields by done.
    - rewrite Hid. injection Hid as Hp' Hi' Hs'. rewrite Hp', Hi', Hs'.
      destruct (Get privateKeyArg args), (Get nodeIDArg args), (Get seedArg args); try done.
      + subst js0. cbn in *. rewrite bool_decide_eq_false_2 by done. eexists. by split_and!.
      + rewrite bool_decide_eq_true_2 by done. exists js. destruct L as [_ _ _ [-> Hr] _].
        split; [|done]. unfold jsonServerStateFromFile, read_json. mrun.
        by rewrite Hf, unmarshal_fields by done. }
  destruct Hstart as (js1 & Hrun & (Hn1 & Hp1 & Hs1) & Hi1).
  unfold serverStateFromArgs, restart_mode, mbind at 1, M_bind at 1. rewrite Hrun, <- Hi1.
  pose proof (from_json_mode js st) as HF. rewrite <- Hn1, <- Hp1, <- Hs1 in HF.
  destruct (Get iatArg args') as [s|]; [destruct (Atoi.Atoi s)|]; mrun; try done; cbn.
  - by apply HF.
  - specialize (HF (IATMode js1) (PublicKey js1) w2 L Ho). by destruct js1.
Qed.

Lemma id_length s i : Ntor.NodeIDFromHex s = Ok i -> zlen i = Ntor.NodeIDLength.
Proof.
  unfold Ntor.NodeIDFromHex, Ntor.from_hex, Ntor.NewNodeID.
  destruct (Hex.DecodeString s) as [raw| |]; try done.
  destruct (zlen raw =? _) eqn:E; cbn; intros; simplify_eq. by b2p.
Qed.

Lemma public_length s k : Ntor.PublicKeyFromHex s = Ok k -> zlen k = Ntor.PublicKeyLength.
Proof.
  unfold Ntor.PublicKeyFromHex, Ntor.from_hex, Ntor.NewPublicKey.
  destruct (Hex.DecodeString s) as [raw| |]; try done.
  destruct (zlen raw =? _) eqn:E; cbn; intros; simplify_eq. by b2p.
Qed.

Lemma hex_total n : forall s p, (length s <= n)%nat -> Hex.DecodeString s <> Panic p.
Proof.
  induction n as [|n IH]; intros [|c [|d s]] p Hn; cbn in *; try done; try lia.
  - by destruct (Hex.fromHexChar c).
  - destruct (Hex.fromHexChar c), (Hex.fromHexChar d); try done.
    destruct (Hex.DecodeString s) eqn:E; cbn; try done. exfalso. eapply IH; [|exact E]. lia.
Qed.

Lemma from_hex_total {A} s (k : bytes -> result Ntor.error A) p :
  (forall raw p, k raw <> Panic p) -> Ntor.from_hex s k <> Panic p.
Proof.
  intros Hk. unfold Ntor.from_hex. destruct (Hex.DecodeString s) eqn:E; [apply Hk|done|].
  exfalso. by eapply hex_total.
Qed.

Lemma key_length s k : Ntor.KeypairFromHex s = Ok k -> zlen (Ntor.public k) = Ntor.PublicKeyLength.
Proof.
  unfold Ntor.KeypairFromHex, Ntor.from_hex.
  destruct (Hex.DecodeString s) as [raw| |]; try done.
  destruct (zlen raw =? _); cbn; intros; simplify_eq. apply ScalarBaseMult_size.
Qed.

(** C18: What the server factory publishes is what its clients need: [ParseArgs]
    on the arguments of a server draws a session key and returns the node
    identity, the public key of the identity key and the mode of the server. *)
Theorem published_args fuel args w sf w' w1 :
  ServerFactory fuel args w = (Ok sf, w') ->
  (ParseArgs (sf_args sf) w1).1 =
    (k ← match (Ntor.NewKeypair true (tape w1)).1 with
         | Ok k => Ok k | Err e => Err (NtorError e) | Panic p => Panic p end;
     Ok (mkClientArgs (sf_nodeID sf) (Ntor.public (sf_identityKey sf)) k (sf_iatMode sf))).
Proof.
  unfold ServerFactory. intros E.
  apply bind_inv in E as (st & w2 & E0 & E).
  apply from_args_inv in E0 as (js0 & js & w3 & _ & _ & E0).
  apply from_json_inv in E0 as [[L1 L2 _ [L4 L5] L6] _].
  apply bind_inv in E as (iat & w4 & _ & E). apply bind_inv in E as (rf & w5 & _ & E).
  apply bind_inv in E as (delay & w6 & _ & E). mrun_in E. injection E as <- _.
  assert (Hid : zlen (nodeID st) = Ntor.NodeIDLength) by (by eapply id_length).
  assert (Hkey : zlen (Ntor.public (identityKey st)) = Ntor.PublicKeyLength)
    by (by eapply key_length).
  unfold ParseArgs, server_identity. cbn [sf_args sf_nodeID sf_identityKey sf_iatMode].
  rewrite Get_Add, (Get_Add_ne iatArg certArg), Get_make by discriminate.
  rewrite (Get_Add_ne certArg iatArg) by discriminate. rewrite Get_Add, Get_make.
  change (default ?a None) with a.
  rewrite L6. unfold serverCertFromState. rewrite cert_roundtrip by done.
  rewrite Atoi.Atoi_Itoa by (unfold Atoi.int_ok, iatNone, iatParanoid in *; lia).
  change (Ok ?x ≫= ?f) with (f x). cbn beta. rewrite unpack_cert by done.
  assert (Hd : draw NtorError (Ntor.NewKeypair true) w1 =
    (match (Ntor.NewKeypair true (tape w1)).1 with
     | Ok k => Ok k | Err e => Err (NtorError e) | Panic p => Panic p end,
     mkWorld (Ntor.NewKeypair true (tape w1)).2 (state_file w1) (bridge_file w1) (outcomes w1)))
    by (unfold draw, on_part, map_err; by destruct (Ntor.NewKeypair true (tape w1)) as [[]]).
  revert Hd. generalize (draw NtorError (Ntor.NewKeypair true)), (Ntor.NewKeypair true (tape w1)).
  intros D K Hd.
  destruct (_ <? iatNone) eqn:?, (iatParanoid <? _) eqn:?; b2p; try lia. mrun. cbn.
  rewrite Hd. by destruct K as [[]].
Qed.

(** [ParseArgs] is total on the arguments of a bridge line: it never
    panics, and it returns a value exactly when the identity is well formed,
    the mode is 0, 1 or 2, and a session key could be drawn; the identity is
    then of the right size and the session key has a representative. *)
Theorem ParseArgs_total `{!ElligatorLaws} args w :
  match (ParseArgs args w).1 with
  | Panic _ => False
  | Ok ca => server_identity args = Ok (ca_nodeID ca, ca_publicKey ca)
      /\ zlen (ca_nodeID ca) = Ntor.NodeIDLength /\ zlen (ca_publicKey ca) = Ntor.PublicKeyLength
      /\ iatNone <= ca_iatMode ca <= iatParanoid
      /\ (Get iatArg args ≫= Atoi.Atoi) = Some (ca_iatMode ca)
      /\ Ntor.keypair_wf (ca_sessionKey ca) /\ Ntor.HasElligator (ca_sessionKey ca) = true
  | Err e => server_identity args = Err e \/ e = MissingArg iatArg \/ e = Invalid iatArg
      \/ e = NtorError (Ntor.EntropyError Csrand.ErrEntropy)
  end.
Proof.
  assert (Hid : match server_identity args with
                | Panic _ => False
                | Ok (i, k) => zlen i = Ntor.NodeIDLength /\ zlen k = Ntor.PublicKeyLength
                | Err _ => True end).
  { unfold server_identity. destruct (Get certArg args) as [c|].
    - destruct (serverCertFromString c) as [raw|e|p] eqn:E; cbn; [|done|].
      + apply cert_read_length in E. by destruct (unpack_ok raw E) as (i & k & -> & _ & ? & ?).
      + unfold serverCertFromString in E. destruct (Base64.DecodeString _) as [d|]; [|done].
        by destruct (negb _).
    - destruct (Get nodeIDArg args) as [n|]; [|done].
      destruct (Ntor.NodeIDFromHex n) as [i|e|p] eqn:E; cbn; [|done|].
      2: { by apply from_hex_total in E; [|intros raw q; unfold Ntor.NewNodeID; destruct (negb _)]. }
      destruct (Get publicKeyArg args) as [k|]; [|done].
      destruct (Ntor.PublicKeyFromHex k) as [pk|e|p] eqn:E'; cbn; [|done|].
      2: { by apply from_hex_total in E'; [|intros raw q; unfold Ntor.NewPublicKey; destruct (negb _)]. }
      split; [by eapply id_length|by eapply public_length]. }
  unfold ParseArgs. mrun. destruct (server_identity args) as [[i k]|e|p]; cbn; [|by left|done].
  destruct (Get iatArg args) as [s|]; cbn; [|by right; left].
  destruct (Atoi.Atoi s) as [v|]; cbn; [|by right; right; left].
  destruct (v <? iatNone) eqn:?, (iatParanoid <? v) eqn:?; try (by right; right; left). b2p.
  unfold draw, on_part, map_err. pose proof (Ntor.NewKeypair_wf true (tape w)) as Hk.
  destruct (Ntor.NewKeypair true (tape w)) as [[key|e|p] t] eqn:Ek; revert Hk;
    cbn; rewrite Ek; cbn.
  - intros (Hwf & _ & He). by destruct Hid.
  - intros ->. by right; right; right.
  - done.
Qed.
End proofs.

Section conn_proofs.
Context `{SipHash} `{SecretBox} `{Curve25519} `{Elligator} `{Hkdf} `{PtArgsGet}.

(** Bytes are written by a driver that fails only when the message was accepted
    and [Write] itself failed in the middle of the response. *)
Lemma server_error_silent maxPayload t pad srv i key skey seed tape d1 d2 we net rf e sent rf' :
  Links.serverHandshake maxPayload t pad srv i key skey seed tape d1 d2 we net rf
    = (Some (Err e), sent, rf') ->
  sent = [] \/ exists n ne resp hs t' r rf1, we = Some (n, ne) /\ sent = [ztake n resp]
    /\ e = Obfs4.PacketError (Packet.NetError ne)
    /\ Handshake.newServerHandshake i key skey tape = (Ok hs, t')
    /\ Obfs4.server_loop net [] hs rf = (Some (Ok r), rf1).
Proof.
  unfold Links.serverHandshake, Links.net_err.
  destruct srv; [|cbn; intros; simplify_eq; by left]. cbn [negb].
  destruct (Handshake.newServerHandshake _ _ _ _) as [[hs|?|?] t'];
    [|intros; simplify_eq; by left..].
  destruct d1; [intros; simplify_eq; by left|].
  destruct (Obfs4.server_loop net [] hs rf) as [[[[lk hs0]| |]|] rf1] eqn:El;
    [|intros; simplify_eq; by left..].
  destruct d2; [congruence|].
  destruct (Links.server_response _ _ _ _ _ _ _) as [[resp l']| |];
    [|intros; simplify_eq; by left..].
  destruct we as [[n ne]|]; [|congruence]. intros; simplify_eq. right. cbn [Links.written].
  exists n, ne, resp, hs, t', (lk, hs0), rf'. by split_and!.
Qed.

Lemma new_app_err fuel biased srv ls oiat e :
  new_app fuel biased srv ls oiat = Err e -> exists e', e = SeedError e'.
Proof.
  unfold new_app, seed_result.
  destruct (ProbDist.New fuel ls _ _ _); try (cbn; intros; simplify_eq; by eexists).
  destruct oiat as [s|]; [|done]. unfold mbind, result_bind.
  destruct (ProbDist.New fuel s _ _ _); intros; simplify_eq; by eexists.
Qed.

End conn_proofs.
End ObfsState.

(** The instance of [Args.v] with its lookup. *)
Module ToyGet.
Export ToyArgs.
Definition get (k : bytes) (a : list (bytes * bytes)) : option bytes :=
  snd <$> (list_find (fun kv => kv.1 = k) a ≫= fun i => Some i.2).
#[export] Instance toy_get : PtArgsGet := {| Get := get |}.

Lemma get_app k a v k' : get k (a ++ [(k', v)]) =
  match get k a with Some x => Some x | None => if decide (k' = k) then Some v else None end.
Proof.
  unfold get. induction a as [|[k0 v0] a IH]; cbn.
  - by destruct (decide (k' = k)).
  - destruct (decide (k0 = k)); [done|]. cbn in *.
    destruct (list_find _ (a ++ _)) as [[]|], (list_find _ a) as [[]|]; exact IH.
Qed.

#[export] Instance toy_args_laws : PtArgsLaws.
Proof.
  split.
  - done.
  - intros k v a. change (get k (a ++ [(k, v)]) = Some (default v (get k a))).
    rewrite get_app, decide_True by done. by destruct (get k a).
  - intros k k' v a Hk. change (get k (a ++ [(k', v)]) = get k a). rewrite get_app, decide_False by congruence. by destruct (get k a).
Qed.
End ToyGet.

Section witnesses.
Import ToySip ToyBox ToyCurve ToyGet Env ObfsState.

Definition w_world : World := mkWorld (zrepeat 400 Byte.x5a) None None [].
Definition w_client : World := mkWorld (zrepeat 64 Byte.x07) None None [].
Definition w_args : Args := Add iatArg (str "1") make_Args.

Definition w_factory : obfs4ServerFactory := Eval vm_compute in
  match (ServerFactory 60 w_args w_world).1 with
  | Ok sf => sf
  | _ => mkServerFactory [] [] (toy_keypair Byte.x00) [] None 0 (ReplayFilter.mkFilter ∅ [] 0 0 0) 0
  end.
Definition w_left : World := Eval vm_compute in (ServerFactory 60 w_args w_world).2.

Lemma w_started : ServerFactory 60 w_args w_world = (Ok w_factory, w_left).
Proof. vm_compute. reflexivity. Qed.

Lemma published_args_witness :
  is_ok (ParseArgs (sf_args w_factory) w_client).1 = true
  /\ (ParseArgs (sf_args w_factory) w_client).1 =
    (k ← match (Ntor.NewKeypair true (tape w_client)).1 with
         | Ok k => Ok k | Err e => Err (NtorError e) | Panic p => Panic p end;
     Ok (mkClientArgs (sf_nodeID w_factory) (Ntor.public (sf_identityKey w_factory)) k
           (sf_iatMode w_factory))).
Proof.
  split; [vm_compute; reflexivity|]. exact (published_args 60 w_args w_world _ _ w_client w_started).
Defined.

Definition w_state : obfs4ServerState := Eval vm_compute in
  match (serverStateFromArgs w_args w_world).1 with
  | Ok st => st | _ => mkState [] (toy_keypair Byte.x00) [] 0 [] end.

(** Mode 1 survives a restart without arguments. *)
Lemma state_persists_witness :
  let w' := (serverStateFromArgs w_args w_world).2 in
  (serverStateFromArgs make_Args (mkWorld [] (state_file w') None [])).1 = Ok w_state
  /\ iatMode w_state = 1.
Proof.
  cbn zeta. split; [|reflexivity].
  rewrite (state_persists w_args make_Args w_world w_state
    (serverStateFromArgs w_args w_world).2 (mkWorld [] (state_file _) None [])).
  - vm_compute. reflexivity.
  - vm_compute. reflexivity.
  - left. reflexivity.
  - reflexivity.
  - reflexivity.
Defined.

End witnesses.

(** A hash whose value is constant: [ProbDist.New] draws some 1,500 blocks. *)
Module FlatSip.
#[export] Instance flat_sip : SipHash :=
  {| sip_Sum k m := zrepeat 8 Byte.x13; sip_Hash k0 k1 m := 19 |}.
End FlatSip.

Section probe.
Import FlatSip ToyBox ToyCurve ToyGet Env ObfsState.

Definition p_factory : obfs4ServerFactory := Eval vm_compute in
  match (ServerFactory 60 w_args w_world).1 with Ok sf => sf | _ => w_factory end.
Definition p_left : World := Eval vm_compute in (ServerFactory 60 w_args w_world).2.
Lemma p_started : ServerFactory 60 w_args w_world = (Ok p_factory, p_left).
Proof. vm_compute. reflexivity. Qed.

Definition w_tape : bytes := zrepeat 200 Byte.x07.
(** A prober: garbage, then the end of the stream. *)
Definition w_probe : list (bytes * option Packet.net_error * Z * Z) :=
  [(zrepeat 300 Byte.x47, None, 473000, 7); ([], Some Packet.EOF, 473000, 8)].

End probe.
