(* ===== verification/DefState.v ===== *)
(** * State, certificates and factories of defconn

    [transports/defconn/statefile.go] and the factories of [defconn.go], which
    the defense transports embed; with the argument readers of
    [common/utils].  The code is a copy of obfs4's with the mode taken out, so
    what does not depend on the mode is taken from [ObfsState.v]. *)
From S2P Require Import Prelude GoStd Rand Drbg Framing ProbDist ReplayFilter Packet Ntor Handshake Obfs4 DefConn Args Links DefconnLink GoFloat GoText ObfsState.

(** ** [common/utils/utils.go]: arguments *)
Module ArgUtils.
Import Env.
Section args.
Context `{PtArgsGet}.

(** A parameter that must be given and well formed. *)
Definition required {A} (parse : bytes -> option A) (name : bytes) (args : Args) : S A :=
  match Get name args with
  | None => fail (MissingArg name)
  | Some s => match parse s with None => fail (Malformed name) | Some v => mret v end
  end.

Definition GetIntArgFromStr : bytes -> Args -> S Z := required Atoi.Atoi.
Definition GetFloatArgFromStr : bytes -> Args -> S spec_float :=
  required (FloatText.ParseFloat FloatText.binary64).

(** [ParseArgByKey] with the kinds it is called with. *)
Inductive arg := IntArg (v : Z) | FloatArg (v : spec_float).
Definition ParseArgByKey (args : Args) (key kind : bytes) : S arg :=
  let kind := map Strings.lower kind in
  match Get key args with
  | None => fail (MissingArg key)
  | Some s =>
      if bool_decide (kind = str "int") then
        match Atoi.Atoi s with None => fail (Malformed key) | Some v => mret (IntArg v) end
      else if bool_decide (kind = str "float32" \/ kind = str "float64") then
        match (if bool_decide (kind = str "float32")
               then FloatText.ParseFloat FloatText.binary32 s
               else FloatText.ParseFloat FloatText.binary64 s) with
        | None => fail (Malformed key)
        | Some v => mret (FloatArg v)
        end
      else fail (Invalid kind)
  end.
End args.

(** [float32 (x)] of a [float64]; [x <= 0] and [x < 0], false for NaN. *)
Definition narrow (x : spec_float) : spec_float :=
  match x with
  | S754_finite s m e => binary_normalize 24 128 (if s then Zneg m else Zpos m) e s
  | _ => x
  end.
Definition le_zero (x : spec_float) : bool :=
  match SFcompare x (S754_zero false) with Some (Lt | Eq) => true | _ => false end.
Definition lt_zero (x : spec_float) : bool :=
  match SFcompare x (S754_zero false) with Some Lt => true | _ => false end.

(** A call whose error the caller drops. *)
Definition attempt {A} (m : S A) : S (option A) := fun w =>
  match m w with
  | (Ok a, w) => (Ok (Some a), w)
  | (Err _, w) => (Ok None, w)
  | (Panic p, w) => (Panic p, w)
  end.
(** The same, keeping the error for later. *)
Definition outcome_of {A} (m : S A) : S (option error) := fun w =>
  match m w with
  | (Ok _, w) => (Ok None, w)
  | (Err e, w) => (Ok (Some e), w)
  | (Panic p, w) => (Panic p, w)
  end.
End ArgUtils.

Module DefState.
Import Env ArgUtils.
Definition nodeIDArg : bytes := ObfsState.nodeIDArg.
Definition publicKeyArg : bytes := ObfsState.publicKeyArg.
Definition privateKeyArg : bytes := ObfsState.privateKeyArg.
Definition seedArg : bytes := ObfsState.seedArg.
Definition certArg : bytes := ObfsState.certArg.

Record JsonServerState := mkJson {
  NodeID : bytes; PrivateKey : bytes; PublicKey : bytes; DrbgSeed : bytes
}.
Definition json_fields (js : JsonServerState) : list (bytes * Json.value) :=
  [(nodeIDArg, Json.JString (NodeID js)); (privateKeyArg, Json.JString (PrivateKey js));
   (publicKeyArg, Json.JString (PublicKey js)); (seedArg, Json.JString (DrbgSeed js))].
Definition json_set (key : bytes) (v : Json.value) (js : JsonServerState) : option JsonServerState :=
  let '(mkJson id priv pub seed) := js in
  if bool_decide (key = nodeIDArg) then
    id ← Json.to_string v id; Some (mkJson id priv pub seed)
  else if bool_decide (key = privateKeyArg) then
    priv ← Json.to_string v priv; Some (mkJson id priv pub seed)
  else if bool_decide (key = publicKeyArg) then
    pub ← Json.to_string v pub; Some (mkJson id priv pub seed)
  else if bool_decide (key = seedArg) then
    seed ← Json.to_string v seed; Some (mkJson id priv pub seed)
  else Some js.

Definition cert_String : bytes -> bytes := ServerCert.String.
Definition unpack : bytes -> result error (Ntor.NodeID * Ntor.PublicKey) := ServerCert.unpack.
Definition serverCertFromString : bytes -> result error bytes := ServerCert.serverCertFromString.
Definition serverCertFromState : Ntor.NodeID -> Ntor.Keypair -> bytes :=
  ServerCert.serverCertFromState.

Record DefConnServerState := mkState {
  nodeID : Ntor.NodeID; identityKey : Ntor.Keypair; drbgSeed : bytes; cert : bytes
}.

(** [None] is the zero value, of which [fmt] prints the certificate as [<nil>]. *)
Definition ClientString (st : option DefConnServerState) : bytes :=
  certArg ++ str "=" ++ (match st with Some st => cert_String (cert st) | None => str "<nil>" end)
  ++ str " ".

Definition nl : bytes := [Byte.x0a].
Definition bridge_prefix : bytes :=
  str "# DefConn torrc client bridge line" ++ nl ++ str "#" ++ nl
  ++ str "# This file is an automatically generated bridge line based on" ++ nl
  ++ str "# the current defConnproxy configuration.  EDITING IT WILL HAVE" ++ nl
  ++ str "# NO EFFECT." ++ nl ++ str "#" ++ nl
  ++ str "# Before distributing this Bridge, edit the placeholder fields" ++ nl
  ++ str "# to contain the actual values:" ++ nl
  ++ str "#  <IP ADDRESS>  - The public IP address of your DefConn bridge." ++ nl
  ++ str "#  <PORT>        - The TCP/IP port of your DefConn bridge." ++ nl
  ++ str "#  <FINGERPRINT> - The bridge's fingerprint." ++ nl ++ nl.
Definition NewBridgeFile (line : bytes) : S unit :=
  write_bridge (Text (bridge_prefix ++ str "Bridge DefConn <IP ADDRESS>:<PORT> <FINGERPRINT> "
                      ++ line ++ nl)).

(** [WriteJSONServerState] of a struct with these fields. *)
Definition WriteJSONServerState : list (bytes * Json.value) -> S unit := write_json.

Section server.
Context `{SipHash} `{Curve25519} `{Elligator} `{PtArgsGet}.

Definition NewJsonServerState (js : JsonServerState) : S JsonServerState :=
  rawID ← draw EntropyError (Csrand.Bytes Ntor.NodeIDLength);
  id ← as_error NtorError (Ntor.NewNodeID rawID);
  key ← draw NtorError (Ntor.NewKeypair false);
  seed ← draw SeedError Drbg.NewSeed;
  let js := mkJson (Ntor.key_Hex id) (Ntor.key_Hex (Ntor.private key))
                   (Ntor.key_Hex (Ntor.public key)) (Drbg.SeedHex seed) in
  _ ← WriteJSONServerState (json_fields js); mret js.

Definition jsonServerStateFromFile : JsonServerState -> S JsonServerState :=
  read_json json_set NewJsonServerState.

Definition ServerStateFromArgsInternal (args : Args) : S JsonServerState :=
  let id := Get nodeIDArg args in
  let priv := Get privateKeyArg args in
  let seed := Get seedArg args in
  let js := mkJson (default [] id) (default [] priv) [] (default [] seed) in
  match priv, id, seed with
  | None, None, None => jsonServerStateFromFile js
  | None, _, _ => fail (MissingArg privateKeyArg)
  | _, None, _ => fail (MissingArg nodeIDArg)
  | _, _, None => fail (MissingArg seedArg)
  | Some _, Some _, Some _ => mret js
  end.

Definition ServerStateFromJsonServerStateInternal (js : JsonServerState) : S DefConnServerState :=
  id ← as_error NtorError (Ntor.NodeIDFromHex (NodeID js));
  key ← as_error NtorError (Ntor.KeypairFromHex (PrivateKey js));
  seed ← as_error SeedError (Drbg.SeedFromHex (DrbgSeed js));
  mret (mkState id key seed (serverCertFromState id key)).

Definition ServerStateFromJsonServerState (js : JsonServerState) : S DefConnServerState :=
  st ← ServerStateFromJsonServerStateInternal js;
  _ ← NewBridgeFile (ClientString (Some st));
  _ ← WriteJSONServerState (json_fields js);
  mret st.

Definition ServerStateFromArgs (args : Args) : S DefConnServerState :=
  js ← ServerStateFromArgsInternal args; ServerStateFromJsonServerState js.

Record DefConnServerFactory := mkServerFactory {
  sf_args : Args; sf_nodeID : Ntor.NodeID; sf_identityKey : Ntor.Keypair; lenSeed : bytes;
  replayFilter : ReplayFilter.ReplayFilter; closeDelay : Z
}.

Definition ServerFactory (fuel : nat) (args : Args) : S DefConnServerFactory :=
  st ← ServerStateFromArgs args;
  let ptArgs := Add certArg (cert_String (cert st)) make_Args in
  filter ← draw EntropyError (ReplayFilter.New ObfsState.replayTTL);
  delay ← ObfsState.close_delay fuel (drbgSeed st);
  mret (mkServerFactory ptArgs (nodeID st) (identityKey st) (drbgSeed st) filter delay).

Record DefConnClientArgs := mkClientArgs {
  ca_nodeID : Ntor.NodeID; ca_publicKey : Ntor.PublicKey; ca_sessionKey : Ntor.Keypair
}.

Definition ParseArgs (args : Args) : S DefConnClientArgs :=
  identity ← as_error id (ObfsState.server_identity args);
  sessionKey ← draw NtorError (Ntor.NewKeypair true);
  mret (mkClientArgs identity.1 identity.2 sessionKey).
End server.

(** *** Connections *)
Section conns.
Context `{SipHash} `{SecretBox} `{Curve25519} `{Elligator} `{Hkdf} `{PtArgsGet}.
Context (fuel : nat).
Abbreviation net_error := (option Packet.net_error).

(** The channels of a new [DefConn] are empty; the state is that of [DefConn.v]. *)
Record DefConnConn := mkConn { c_app : DefConn.app; c_link : option Obfs4.link }.

Definition new_app (isServer : bool) (seed : bytes) : result error DefConn.app :=
  match ProbDist.New fuel seed 0 Framing.MaximumSegmentLength false with
  | Ok lenDist => Ok (DefConn.mkApp isServer lenDist DefConn.NewState 0 [])
  | Err e => Err (SeedError e)
  | Panic p => Panic p
  end.

Definition newdefconnClientConn (args : DefConnClientArgs) (hour : Z) (tape : bytes)
    (deadline1 deadline2 : net_error) (writeErr : Links.write_result)
    (net : list (bytes * net_error))
  : option (result error DefConnConn) * list bytes :=
  match Drbg.NewSeed tape with
  | (Err e, _) => (Some (Err (SeedError e)), [])
  | (Panic p, _) => (Some (Panic p), [])
  | (Ok seed, tape) =>
      match new_app false seed, deadline1 with
      | Err e, _ => (Some (Err e), [])
      | Panic p, _ => (Some (Panic p), [])
      | _, Some e => (Some (Err (NetError e)), [])
      | Ok a, None =>
          let '(r, sent) := DefconnLink.connClientHandshake false (ca_nodeID args)
            (ca_publicKey args) (ca_sessionKey args) hour tape writeErr net in
          (match r, deadline2 with
           | None, _ => None
           | Some (Err e), _ => Some (Err (LinkError e))
           | Some (Panic p), _ => Some (Panic p)
           | Some (Ok _), Some e => Some (Err (NetError e))
           | Some (Ok l), None => Some (Ok (mkConn a (Some l)))
           end, sent)
      end
  end.

Definition Dial (args : DefConnClientArgs) (dialErr : net_error) (hour : Z) (tape : bytes)
    (deadline1 deadline2 : net_error) (writeErr : Links.write_result)
    (net : list (bytes * net_error))
  : option (result error DefConnConn) * (list bytes * bool) :=
  match dialErr with
  | Some e => (Some (Err (NetError e)), ([], false))
  | None =>
      let '(r, sent) := newdefconnClientConn args hour tape deadline1 deadline2 writeErr net in
      (r, (sent, match r with Some (Err _) => true | _ => false end))
  end.

Definition closeAfterDelay := ObfsState.closeAfterDelay.

Definition WrapConn (sf : DefConnServerFactory) (tape : bytes) (startTime now : Z)
    (deadline1 deadline2 : net_error) (writeErr : Links.write_result) (deadline3 : net_error)
    (net : list (bytes * net_error * Z * Z)) (rf : ReplayFilter.ReplayFilter)
  : option (result error DefConnConn)
    * (list bytes * list ObfsState.action * ReplayFilter.ReplayFilter) :=
  match Ntor.NewKeypair true tape with
  | (Err e, _) => (Some (Err (NtorError e)), ([], [], rf))
  | (Panic p, _) => (Some (Panic p), ([], [], rf))
  | (Ok sessionKey, tape) =>
      match new_app true (lenSeed sf) with
      | Err e => (Some (Err e), ([], [], rf))
      | Panic p => (Some (Panic p), ([], [], rf))
      | Ok a =>
          let '(r, sent, rf) := DefconnLink.connServerHandshake true (sf_nodeID sf)
            (sf_identityKey sf) sessionKey (lenSeed sf) tape deadline1 deadline2 writeErr net rf in
          match r with
          | None => (None, (sent, [], rf))
          | Some (Panic p) => (Some (Panic p), (sent, [], rf))
          | Some (Err e) => (Some (Err (LinkError e)),
              (sent, closeAfterDelay (closeDelay sf) startTime now deadline3, rf))
          | Some (Ok l) => (Some (Ok (mkConn a l)), (sent, [], rf))
          end
      end
  end.
End conns.

(** What the embedding transports do with the connection they get: [mk] builds
    theirs around it. *)
Definition embed {C A} (mk : DefConnConn -> C) (r : option (result error DefConnConn) * A)
  : option (result error C) * A :=
  (match r.1 with
   | None => None
   | Some (Ok c) => Some (Ok (mk c))
   | Some (Err e) => Some (Err e)
   | Some (Panic w) => Some (Panic w)
   end, r.2).

(** *** What the embedding transports rely on *)
Section proofs.
Context `{SipHash} `{Curve25519Laws} `{Elligator} `{PtArgsLaws}.

(** The published certificate identifies the server, and nothing else is published. *)
Lemma published fuel args w sf w' :
  ServerFactory fuel args w = (Ok sf, w') ->
  (forall args', Get certArg args' = Get certArg (sf_args sf) ->
     ObfsState.server_identity args' = Ok (sf_nodeID sf, Ntor.public (sf_identityKey sf)))
  /\ (forall k, k <> certArg -> Get k (sf_args sf) = None).
Proof.
  unfold ServerFactory. intros E.
  apply ObfsState.bind_inv in E as (st & w1 & E0 & E). apply ObfsState.bind_inv in E as (rf & w2 & _ & E).
  apply ObfsState.bind_inv in E as (delay & w3 & _ & E). mrun_in E. injection E as <- _.
  unfold ServerStateFromArgs, ServerStateFromJsonServerState in E0.
  apply ObfsState.bind_inv in E0 as (js & w4 & _ & E0). apply ObfsState.bind_inv in E0 as (st' & w5 & E1 & E0).
  apply ObfsState.bind_inv in E0 as ([] & w6 & _ & E0). apply ObfsState.bind_inv in E0 as ([] & w7 & _ & E0).
  mrun_in E0. simplify_eq. unfold ServerStateFromJsonServerStateInternal in E1.
  ObfsState.step E1 i. ObfsState.step E1 key. ObfsState.step E1 seed. mrun_in E1. simplify_eq. cbn. split.
  - intros args' Hc. rewrite Get_Add, Get_make in Hc. unfold ObfsState.server_identity.
    change certArg with ObfsState.certArg in Hc.
    rewrite Hc. change (default ?a None) with a. unfold cert_String, serverCertFromState.
    unfold ServerCert.serverCertFromState.
    rewrite ServerCert.cert_roundtrip by (by eapply ObfsState.id_length || by eapply ObfsState.key_length).
    change (Ok ?x ≫= ?f) with (f x). cbn beta.
    by rewrite ServerCert.unpack_cert by (by eapply ObfsState.id_length || by eapply ObfsState.key_length).
  - intros k Hk. by rewrite Get_Add_ne, Get_make.
Qed.

(** [ParseArgs] once the identity is known; the world that is left. *)
Lemma ParseArgs_identity args i k w :
  ObfsState.server_identity args = Ok (i, k) ->
  exists w', attempt (ParseArgs args) w =
    (match (Ntor.NewKeypair true (tape w)).1 with
     | Ok key => Ok (Some (mkClientArgs i k key)) | Err e => Ok None | Panic p => Panic p
     end, w').
Proof.
  intros E. unfold attempt, ParseArgs. mrun. rewrite E. cbn.
  unfold draw, on_part, map_err. cbn. destruct (Ntor.NewKeypair true (tape w)) as [[key|e|p] t];
    by eexists.
Qed.

(** Without a valid identity the embedded factory returns an error. *)
Lemma ParseArgs_no_identity args e w :
  ObfsState.server_identity args = Err e -> attempt (ParseArgs args) w = (Ok None, w).
Proof. intros E. unfold attempt, ParseArgs. mrun. by rewrite E. Qed.

(** Reading a parameter that both sides were given. *)
Lemma required_same {A} (parse : bytes -> option A) name args args' w v w' w1 :
  required parse name args w = (Ok v, w') -> Get name args' = Get name args ->
  required parse name args' w1 = (Ok v, w1).
Proof.
  unfold required. intros E ->. destruct (Get name args) as [s|]; [|done].
  destruct (parse s); [|done]. mrun_in E. by simplify_eq.
Qed.
End proofs.
End DefState.
