(* ===== verification/MeekArgs.v ===== *)
(** * meek_lite: arguments, pins and the choice of the HTTP transport

    [newClientArgs] and [newSessionID] of [transports/meeklite/meek.go], [hpkp_lite.go]
    and [transport.go].  HTTP, TLS and their libraries answer as the environment
    chooses; [idna.Lookup.ToASCII] of golang.org/x/net is a parameter. *)
From S2P Require Import Prelude GoStd Rand Packet GoText GoAddr GoURL Args ObfsState.


Module MeekArgs.
(** *** Fingerprints *)

(** The values of package utls that the map names. *)
Inductive ClientHelloID :=
| HelloRandomized | HelloRandomizedALPN | HelloRandomizedNoALPN
| HelloFirefox_Auto | HelloFirefox_55 | HelloFirefox_56 | HelloFirefox_63 | HelloFirefox_65
| HelloChrome_Auto | HelloChrome_58 | HelloChrome_62 | HelloChrome_70 | HelloChrome_72
| HelloIOS_Auto | HelloIOS_11_1 | HelloIOS_12_1.

(** A key that maps to nil is [Some None]. *)
Definition clientHelloIDMap : list (bytes * option ClientHelloID) :=
  [(str "hellogolang", None);
   (str "hellorandomized", Some HelloRandomized);
   (str "hellorandomizedalpn", Some HelloRandomizedALPN);
   (str "hellorandomizednoalpn", Some HelloRandomizedNoALPN);
   (str "hellofirefox_auto", Some HelloFirefox_Auto);
   (str "hellofirefox_55", Some HelloFirefox_55);
   (str "hellofirefox_56", Some HelloFirefox_56);
   (str "hellofirefox_63", Some HelloFirefox_63);
   (str "hellofirefix_65", Some HelloFirefox_65);
   (str "hellochrome_auto", Some HelloChrome_Auto);
   (str "hellochrome_58", Some HelloChrome_58);
   (str "hellochrome_62", Some HelloChrome_62);
   (str "hellochrome_70", Some HelloChrome_70);
   (str "hellochrome_72", Some HelloChrome_72);
   (str "helloios_auto", Some HelloIOS_Auto);
   (str "helloios_11_1", Some HelloIOS_11_1);
   (str "helloios_12_1", Some HelloIOS_12_1)].
Definition defaultClientHello : ClientHelloID := HelloFirefox_Auto.

Fixpoint lookup_key {A} (k : bytes) (m : list (bytes * A)) : option A :=
  match m with
  | [] => None
  | (k', a) :: m => if bool_decide (k = k') then Some a else lookup_key k m
  end.

(** [strings.ToLower], as far as its result can be ASCII: of the other characters
    only the Kelvin sign and the dotted capital I ([i] and a combining dot) lower to
    something with an ASCII letter, and only the first to one alone. *)
Fixpoint ToLower (s : bytes) : bytes :=
  match s with
  | Byte.xe2 :: Byte.x84 :: Byte.xaa :: s => Byte.x6b :: ToLower s
  | c :: s => Strings.lower c :: ToLower s
  | [] => []
  end.

(** [parseClientHelloID]: an error, nil ([Ok None]), or a fingerprint. *)
Definition parseClientHelloID (s : bytes) : result bytes (option ClientHelloID) :=
  let s := ToLower s in
  if bool_decide (s = str "none") then Ok None
  else if bool_decide (s = []) then Ok (Some defaultClientHello)
  else match lookup_key s clientHelloIDMap with
       | Some (Some id) => Ok (Some id)
       | _ => Err (str "invalid ClientHelloID: '" ++ s ++ str "'")
       end.

(** *** Arguments *)
Record meekClientArgs := mkArgs { url : GoURL.URL; front : bytes; utls : option ClientHelloID; disableHPKP : bool }.

Section args.
Context `{PtArgsGet}.
Definition newClientArgs (args : Args) : result bytes meekClientArgs :=
  match Get (str "url") args with
  | None => Err (str "missing argument 'url'")
  | Some s =>
      match GoURL.Parse s with
      | None => Err (str "malformed url: '" ++ s ++ str "'")
      | Some u =>
          if bool_decide (GoURL.Scheme u = str "http" \/ GoURL.Scheme u = str "https") then
            let opt k := default [] (Get (str k) args) in
            match parseClientHelloID (opt "utls") with
            | Ok id => Ok (mkArgs u (opt "front") id (bool_decide (ToLower (opt "disableHPKP") = str "true")))
            | Err e => Err e
            | Panic w => Panic w
            end
          else Err (str "invalid scheme: '" ++ GoURL.Scheme u ++ str "'")
      end
  end.
End args.

(** [newSessionID]: 64 bytes of entropy, hashed, in hexadecimal. *)
Definition newSessionID (tape : bytes) : option bytes :=
  if zlen tape <? 64 then None
  else Some (Hex.EncodeToString (ztake 16 (Sha256.Sum256 (ztake 64 tape)))).

(** *** Public key pins: [hpkp_lite.go] *)
Section pins.
Context (ToASCII : bytes -> option bytes) {Cert : Type} (RawSubjectPublicKeyInfo : Cert -> bytes).

Record pinEntry := mkPin { digests : list bytes; expiry : Z }.
Abbreviation hpkpDatabase := (gmap bytes pinEntry).

Definition Add (host : bytes) (pins : list bytes) (expiry : Z) (db : hpkpDatabase) : result bytes hpkpDatabase :=
  match ToASCII host with
  | None => Panic "failed to add hpkp pin, invalid host"
  | Some h => Ok (<[h := mkPin pins expiry]> db)
  end.

(** The clock is an argument. *)
Definition HasPins (host : bytes) (now : Z) (db : hpkpDatabase) : bytes * bool :=
  match ToASCII host with
  | None => ([], false)
  | Some h => (h, match db !! host with Some entry => now <? expiry entry | None => false end)
  end.

Definition derivedPin (c : Cert) : bytes := Base64.EncodeToString (Sha256.Sum256 (RawSubjectPublicKeyInfo c)).
Definition Validate (host : bytes) (chains : list (list Cert)) (now : Z) (db : hpkpDatabase) : bool :=
  match ToASCII host with
  | None => false
  | Some host =>
      match db !! host with
      | None => false
      | Some entry =>
          if expiry entry <? now then true
          else existsb (existsb (fun c => bool_decide (derivedPin c ∈ digests entry))) chains
      end
  end.
End pins.
Abbreviation hpkpDatabase := (gmap bytes pinEntry).

(** *** The HTTP transport: [transport.go] *)

(** [net.JoinHostPort], and the address to dial for a URL; [net.LookupPort] knows the
    ports of both schemes. *)
Definition JoinHostPort (host port : bytes) : bytes :=
  if GoAddr.contains GoAddr.colon host then str "[" ++ host ++ str "]:" ++ port
  else host ++ str ":" ++ port.
Definition LookupPort (service : bytes) : Z :=
  if bool_decide (service = str "https") then 443 else if bool_decide (service = str "http") then 80 else 0.
Definition getDialTLSAddr (u : GoURL.URL) : bytes :=
  match GoAddr.SplitHostPort (GoURL.Host u) with
  | Some (host, port) => JoinHostPort host port
  | None => JoinHostPort (GoURL.Host u) (Strconv.FormatInt (LookupPort (GoURL.Scheme u)))
  end.

Section transport.
Context {Conn Cert E : Type} (ToASCII : bytes -> option bytes) (RawSubjectPublicKeyInfo : Cert -> bytes)
  (db : hpkpDatabase).

Inductive kind := PlainHTTP | HTTP1 | HTTP2.
Record roundTripper := mkRT { transport : option kind; initConn : option Conn; rtDisableHPKP : bool }.

Inductive tls_error := DialFailed (e : E) | HandshakeFailed (e : E) | PinMismatch (host : bytes) | ProtocolNegotiated
  | InvalidScheme (s : bytes).

(** A dial: the outcome of the TCP dial; of the TLS handshake, which shows the
    verified chains and, if nothing objects, ends with a connection and the protocol
    that was negotiated ([true]: HTTP 2). *)
Record outcome := mkOutcome { tcp : E + unit; chains : list (list Cert); tls : E + (Conn * bool); now : Z; later : Z }.

(** What the callback [verifyPeerCertificateFn] says. *)
Definition verify (disabled : bool) (host : bytes) (o : outcome) : option bytes :=
  if disabled then None
  else match HasPins ToASCII host (now o) db with
       | (pinHost, true) =>
           if Validate ToASCII RawSubjectPublicKeyInfo pinHost (chains o) (later o) db then None else Some pinHost
       | _ => None
       end.

Definition dialTLS (addr : bytes) (o : outcome) (rt : roundTripper) : (tls_error + Conn) * roundTripper :=
  match initConn rt with
  | Some conn => (inr conn, mkRT (transport rt) None (rtDisableHPKP rt))
  | None =>
      match tcp o with
      | inl e => (inl (DialFailed e), rt)
      | inr _ =>
          let host := match GoAddr.SplitHostPort addr with Some (host, _) => host | None => addr end in
          match verify (rtDisableHPKP rt) host o with
          | Some pinHost => (inl (PinMismatch pinHost), rt)
          | None =>
              match tls o with
              | inl e => (inl (HandshakeFailed e), rt)
              | inr (conn, h2) =>
                  match transport rt with
                  | Some _ => (inr conn, rt)
                  | None => (inl ProtocolNegotiated,
                             mkRT (Some (if h2 then HTTP2 else HTTP1)) (Some conn) (rtDisableHPKP rt))
                  end
              end
          end
      end
  end.

(** [getTransport]; the panic says that [dialTLS] returned no error. *)
Definition getTransport (u : GoURL.URL) (o : outcome) (rt : roundTripper) : result tls_error unit * roundTripper :=
  let scheme := ToLower (GoURL.Scheme u) in
  if bool_decide (scheme = str "http") then (Ok tt, mkRT (Some PlainHTTP) (initConn rt) (rtDisableHPKP rt))
  else if bool_decide (scheme = str "https") then
    match dialTLS (getDialTLSAddr u) o rt with
    | (inl ProtocolNegotiated, rt) => (Ok tt, rt)
    | (inl e, rt) => (Err e, rt)
    | (inr _, rt) => (Panic "meek_lite: dialTLS returned no error when determining transport", rt)
    end
  else (Err (InvalidScheme (GoURL.Scheme u)), rt).

(** [RoundTrip] up to the call of the transport it chose. *)
Definition prepare (u : GoURL.URL) (o : outcome) (rt : roundTripper) : result tls_error unit * roundTripper :=
  match transport rt with Some _ => (Ok tt, rt) | None => getTransport u o rt end.
Definition newRoundTripper (disable : bool) : roundTripper := mkRT None None disable.

(** A connection is stashed only together with a transport. *)
Definition rt_ok (rt : roundTripper) : Prop := transport rt = None -> initConn rt = None.

Lemma dialTLS_ok addr o rt : rt_ok rt -> rt_ok (dialTLS addr o rt).2
  /\ (transport rt = None -> forall c, (dialTLS addr o rt).1 <> inr c)
  /\ ((dialTLS addr o rt).1 = inl ProtocolNegotiated -> transport (dialTLS addr o rt).2 <> None).
Proof.
  unfold rt_ok, dialTLS. intros Hrt. destruct (initConn rt) as [c|] eqn:Ei.
  { cbn. destruct (transport rt); split_and!; try done; intros H; by specialize (Hrt H). }
  destruct (tcp o) as [e|]; [by split_and!|]. destruct (verify _ _ _) as [h|]; [by split_and!|].
  destruct (tls o) as [e|[c h2]]; [by split_and!|]. destruct (transport rt) eqn:Et; cbn; [by split_and!|].
  split_and!; [done|done|by destruct h2].
Qed.

(** The panic "should never happen", and does not, however the calls of the HTTP
    client to [dialTLS] and those of [RoundTrip] follow each other. *)
Lemma prepare_ok u o rt : rt_ok rt ->
  rt_ok (prepare u o rt).2 /\ (forall w, (prepare u o rt).1 <> Panic w)
  /\ ((prepare u o rt).1 = Ok tt -> transport (prepare u o rt).2 <> None).
Proof.
  intros Hrt. unfold prepare. destruct (transport rt) eqn:Et; [cbn; split_and!; [done|done|by rewrite Et]|].
  unfold getTransport. case_bool_decide; [by split_and!|]. case_bool_decide; [|by split_and!].
  destruct (dialTLS_ok (getDialTLSAddr u) o rt Hrt) as (H1 & H2 & H3). specialize (H2 Et).
  destruct (dialTLS (getDialTLSAddr u) o rt) as [[e|c] rt']; cbn in *; [|by destruct (H2 c)].
  destruct e; cbn; split_and!; try done. intros _. by apply H3.
Qed.
End transport.

(** ** What the arguments mean *)

Lemma lookup_key_elem {A} k (m : list (bytes * A)) a : lookup_key k m = Some a -> (k, a) ∈ m.
Proof.
  induction m as [|[k' a'] m IH]; [done|]. cbn. case_bool_decide as E; [intros [= ->]; subst; left|right; auto].
Qed.

(** Every fingerprint of the map can be asked for by its key, except the one that
    the comment says should not use utls at all: [hellogolang] is refused. *)
Lemma fingerprints : Forall (fun e => parseClientHelloID e.1
  = match e.2 with Some id => Ok (Some id) | None => Err (str "invalid ClientHelloID: 'hellogolang'") end) clientHelloIDMap.
Proof. apply Forall_forall. intros e He. repeat (apply elem_of_cons in He as [->|He]; [vm_compute; reflexivity|]). by apply not_elem_of_nil in He. Qed.
(** The key of [HelloFirefox_65] is misspelt: the documented one is refused. *)
Lemma firefox_65 : parseClientHelloID (str "HelloFirefox_65") = Err (str "invalid ClientHelloID: 'hellofirefox_65'")
  /\ parseClientHelloID (str "hellofirefix_65") = Ok (Some HelloFirefox_65).
Proof. split; vm_compute; reflexivity. Qed.

Section args_proofs.
Context `{PtArgsGet}.
(** Arguments that are accepted name a URL over HTTP, with or without TLS. *)
Lemma newClientArgs_ok args ca : newClientArgs args = Ok ca ->
  exists s, Get (str "url") args = Some s /\ GoURL.Parse s = Some (url ca)
    /\ (GoURL.Scheme (url ca) = str "http" \/ GoURL.Scheme (url ca) = str "https")
    /\ front ca = default [] (Get (str "front") args).
Proof.
  unfold newClientArgs. destruct (Get (str "url") args) as [s|]; [|done].
  destruct (GoURL.Parse s) as [u|] eqn:Eu; [|done]. case_bool_decide as Hs; [|done].
  destruct (parseClientHelloID _) as [id|e|w]; try done. intros [= <-]. by exists s.
Qed.
End args_proofs.

(** An IPv6 host without a port gets a second pair of brackets: what is dialed is
    not an address. *)
Lemma ipv6_without_port : exists u, GoURL.Parse (str "https://[2001:db8::1]/") = Some u
  /\ getDialTLSAddr u = str "[[2001:db8::1]]:443" /\ GoAddr.SplitHostPort (getDialTLSAddr u) = None.
Proof. eexists. split; [vm_compute; reflexivity|]. by split; vm_compute. Qed.

Section pin_proofs.
Context (ToASCII : bytes -> option bytes) {Cert : Type} (RawSubjectPublicKeyInfo : Cert -> bytes).

(** Pins are stored under the normalized host and looked up under the host as it is
    written, so they are found only if it is written in its normal form: *)
Lemma pins_found host h pins exp now db db' :
  ToASCII host = Some h -> Add ToASCII host pins exp db = Ok db' ->
  (HasPins ToASCII h now db').2 = bool_decide (ToASCII h <> None) && (now <? exp)
  /\ (host <> h -> db !! host = None -> HasPins ToASCII host now db' = (h, false)).
Proof.
  unfold Add, HasPins. intros Hh. rewrite Hh. intros [= <-]. split.
  - destruct (ToASCII h); [|done]. by rewrite lookup_insert_eq.
  - intros Hne Hdb. rewrite lookup_insert_ne by done. by rewrite Hdb.
Qed.

(** While they are valid, a chain without a pinned key is refused. *)
Lemma Validate_pinned (host h : bytes) (entry : pinEntry) (chains : list (list Cert)) (now : Z) (db : hpkpDatabase) :
  ToASCII host = Some h -> db !! h = Some entry -> now <= expiry entry ->
  Validate ToASCII RawSubjectPublicKeyInfo host chains now db = true ->
  exists chain c, chain ∈ chains /\ c ∈ chain /\ derivedPin RawSubjectPublicKeyInfo c ∈ digests entry.
Proof.
  unfold Validate. intros -> -> Hn. rewrite ltb_false by lia. intros (chain & Hc & H)%existsb_exists.
  apply existsb_exists in H as (c & Hc' & H%bool_decide_eq_true_1).
  exists chain, c. split_and!; [by apply list_elem_of_In..|done].
Qed.
End pin_proofs.
End MeekArgs.
