(* ===== verification/Meek.v ===== *)
(** * meek_lite: the connection of [transports/meeklite/meek.go]

    [Read], [Write], [Close] and the goroutine [ioWorker] share three channels.
    The worker carries what is written in the bodies of HTTP requests, at most
    65536 bytes each, and polls when there is nothing to send.  The machine below
    has one step for every channel operation; the timer, the answers of the HTTP
    transport and the callers are the environment's choices.  Reads come from one
    goroutine, as [rdBuf] has no lock. *)
From S2P Require Import Prelude GoStd Rand Packet GoFloat Cells.

Module Meek.
Definition maxChanBacklog : Z := 16.
Definition maxPayloadLength : Z := 65536.
Definition initPollInterval : Z := 100000000.        (* nanoseconds *)
Definition maxPollInterval : Z := 5000000000.
Definition maxRetries : Z := 10.
Definition retryDelay : Z := 30000000000.
Definition three_halves : spec_float := S754_finite false 3 (-1).     (* pollIntervalMultiplier *)

(** [time.Duration (float64 (interval) * pollIntervalMultiplier)]. *)
Definition backoff (interval : Z) : Z :=
  GoFloat.trunc_int (fun _ => 0) 64 (GoFloat.f64_mul (GoFloat.f64_of_Z interval) three_halves).
Definition next_interval (interval wrSz : Z) (rdBuf : bytes) : Z :=
  if 0 <? zlen rdBuf then 0
  else if 0 <? wrSz then 0
  else if interval =? 0 then initPollInterval
  else Z.min (backoff interval) maxPollInterval.

(** Where [ioWorker] is. *)
Inductive worker :=
| WSelect (interval : Z) (leftBuf : bytes)
| WCombine (interval : Z) (sndBuf : bytes)                    (* the loop over waiting writes *)
| WTrip (interval : Z) (sndBuf : bytes) (retries : Z)         (* in [roundTrip] *)
| WSleep (interval : Z) (sndBuf : bytes) (retries : Z)        (* time.Sleep (retryDelay) *)
| WPut (interval : Z) (leftBuf : bytes) (rdBuf : bytes)       (* workerRdChan <- rdBuf *)
| WCloseRd | WCloseWr | WClose | WDone.

Record conn := mkConn {
  rdBuf : option bytes;
  workerWrChan : list bytes; wrClosed : bool;
  workerRdChan : list bytes; rdClosed : bool;
  workerCloseChan : bool;             (* it is closed *)
  pc : worker;
  writers : list bytes;               (* calls of [Write] that wait to enqueue *)
  (* history *)
  accepted : bytes;                   (* what was enqueued by [Write]s *)
  posted : list bytes;                (* the bodies of the requests, retries included *)
  acked : bytes;                      (* the bodies that were answered with 200 *)
  received : list bytes;              (* the whole bodies of these answers *)
  delivered : bytes                   (* what [Read] returned *)
}.

Definition newMeekConn : conn :=
  mkConn None [] false [] false false (WSelect initPollInterval []) [] [] [] [] [] [].

Definition set_pc (k : worker) (c : conn) : conn :=
  mkConn (rdBuf c) (workerWrChan c) (wrClosed c) (workerRdChan c) (rdClosed c) (workerCloseChan c) k (writers c)
    (accepted c) (posted c) (acked c) (received c) (delivered c).

(** *** [Read] with a buffer of [n] bytes *)
Inductive read_result := RData (d : bytes) | RErrClosedPipe | RPanic.

(** [bytes.Buffer.Read] of a buffer that is not empty: the rest is kept, if any. *)
Definition stash (b : bytes) : option bytes := match b with [] => None | _ => Some b end.
Definition set_read (rb : option bytes) (ch : list bytes) (d : bytes) (c : conn) : conn :=
  mkConn rb (workerWrChan c) (wrClosed c) ch (rdClosed c) (workerCloseChan c) (pc c) (writers c)
    (accepted c) (posted c) (acked c) (received c) (delivered c ++ d).

Definition Read (n : Z) (c : conn) : option (read_result * conn) :=
  match rdBuf c with
  | Some [] => Some (RPanic, c)
  | Some b => Some (RData (ztake n b), set_read (stash (zdrop n b)) (workerRdChan c) (ztake n b) c)
  | None =>
      match workerRdChan c with
      | b :: ch => Some (RData (ztake n b), set_read (stash (zdrop n b)) ch (ztake n b) c)
      | [] => if rdClosed c then Some (RErrClosedPipe, c) else None
      end
  end.

(** *** [Write], in two steps: the check, and [enqueueWrite] *)
Inductive write_result := WErrClosedPipe | WOk (n : Z).
Definition set_writers (ws : list bytes) (c : conn) : conn :=
  mkConn (rdBuf c) (workerWrChan c) (wrClosed c) (workerRdChan c) (rdClosed c) (workerCloseChan c) (pc c) ws
    (accepted c) (posted c) (acked c) (received c) (delivered c).

(** [None] as the result: the call goes on. *)
Definition Write (b : bytes) (c : conn) : option write_result * conn :=
  if workerCloseChan c then (Some WErrClosedPipe, c)
  else match b with
       | [] => (Some (WOk 0), c)
       | _ => (None, set_writers (writers c ++ [b]) c)
       end.

(** The send of the [i]-th waiting call: it blocks on a full channel; on a closed
    one it panics, which [enqueueWrite] recovers from. *)
Definition enqueueWrite (i : nat) (c : conn) : option (write_result * conn) :=
  b ← writers c !! i;
  let ws := take i (writers c) ++ drop (S i) (writers c) in
  if wrClosed c then Some (WErrClosedPipe, set_writers ws c)
  else if zlen (workerWrChan c) <? maxChanBacklog then
    Some (WOk (zlen b),
          mkConn (rdBuf c) (workerWrChan c ++ [b]) (wrClosed c) (workerRdChan c) (rdClosed c) (workerCloseChan c) (pc c) ws
            (accepted c ++ b) (posted c) (acked c) (received c) (delivered c))
  else None.

(** [Close]: only the first call succeeds. *)
Definition Close (c : conn) : bool * conn :=
  (negb (workerCloseChan c),
   mkConn (rdBuf c) (workerWrChan c) (wrClosed c) (workerRdChan c) (rdClosed c) true (pc c) (writers c)
     (accepted c) (posted c) (acked c) (received c) (delivered c)).

(** *** The worker *)

(** An attempt of [roundTrip]: an error, or a status and a body, with the error of
    reading it if there is one. *)
Inductive response := RTError | RTStatus (code : Z) (body : bytes) (broken : bool).

Definition take_write (k : bytes -> worker) (c : conn) : option conn :=
  match workerWrChan c with
  | [] => None
  | b :: ch =>
      Some (mkConn (rdBuf c) ch (wrClosed c) (workerRdChan c) (rdClosed c) (workerCloseChan c) (k b) (writers c)
              (accepted c) (posted c) (acked c) (received c) (delivered c))
  end.

(** What is posted of the buffer. *)
Definition body (sndBuf : bytes) : bytes := ztake maxPayloadLength sndBuf.
Definition post (sndBuf : bytes) (k : worker) (c : conn) : conn :=
  mkConn (rdBuf c) (workerWrChan c) (wrClosed c) (workerRdChan c) (rdClosed c) (workerCloseChan c) k (writers c)
    (accepted c) (posted c ++ [body sndBuf]) (acked c) (received c) (delivered c).
Definition ack (sndBuf d : bytes) (c : conn) : conn :=
  mkConn (rdBuf c) (workerWrChan c) (wrClosed c) (workerRdChan c) (rdClosed c) (workerCloseChan c) (pc c) (writers c)
    (accepted c) (posted c) (acked c ++ body sndBuf) (received c ++ [d]) (delivered c).

Inductive event :=
| EvRead (n : Z)
| EvWrite (b : bytes)
| EvEnqueue (i : nat)
| EvClose
| EvPoll                          (* the select: the timer *)
| EvTake                          (* the select: a write *)
| EvStop                          (* the select: workerCloseChan *)
| EvStep                          (* the worker goes on *)
| EvResponse (r : response).      (* an attempt of roundTrip *)

Definition worker_step (c : conn) : option conn :=
  match pc c with
  | WCombine iv sbuf =>
      if negb (bool_decide (workerWrChan c = [])) && (zlen sbuf <? maxPayloadLength)
      then take_write (fun b => WCombine iv (sbuf ++ b)) c
      else Some (set_pc (WTrip iv sbuf 0) c)
  | WPut iv lft rb =>
      if zlen (workerRdChan c) <? maxChanBacklog then
        Some (mkConn (rdBuf c) (workerWrChan c) (wrClosed c) (workerRdChan c ++ [rb]) (rdClosed c) (workerCloseChan c)
                (WSelect 0 lft) (writers c) (accepted c) (posted c) (acked c) (received c) (delivered c))
      else None
  | WSleep iv sbuf retries =>
      Some (set_pc (if retries <? maxRetries then WTrip iv sbuf retries else WCloseRd) c)
  | WCloseRd =>
      Some (mkConn (rdBuf c) (workerWrChan c) (wrClosed c) (workerRdChan c) true (workerCloseChan c) WCloseWr (writers c)
              (accepted c) (posted c) (acked c) (received c) (delivered c))
  | WCloseWr =>
      Some (mkConn (rdBuf c) (workerWrChan c) true (workerRdChan c) (rdClosed c) (workerCloseChan c) WClose (writers c)
              (accepted c) (posted c) (acked c) (received c) (delivered c))
  | WClose => Some (set_pc WDone (Close c).2)
  | _ => None
  end.

(** The limit of [io.LimitReader]. *)
Definition limited (d : bytes) : bytes := ztake maxPayloadLength d.

Definition respond (r : response) (c : conn) : option conn :=
  match pc c with
  | WTrip iv sbuf retries =>
      match r with
      | RTError => Some (post sbuf WCloseRd c)
      | RTStatus code d broken =>
          if code =? 200 then
            if broken then Some (post sbuf WCloseRd c)
            else
              let rd := limited d in
              let lft := zdrop maxPayloadLength sbuf in
              let next := if 0 <? zlen rd then WPut iv lft rd
                          else WSelect (next_interval iv (zlen (body sbuf)) rd) lft in
              Some (set_pc next (ack sbuf d (post sbuf (pc c) c)))
          else Some (post sbuf (WSleep iv sbuf (retries + 1)) c)
      end
  | _ => None
  end.

Definition exec (ev : event) (c : conn) : option conn :=
  match ev with
  | EvRead n => snd <$> Read n c
  | EvWrite b => Some (Write b c).2
  | EvEnqueue i => snd <$> enqueueWrite i c
  | EvClose => Some (Close c).2
  | EvPoll => match pc c with WSelect iv lft => Some (set_pc (WCombine iv lft) c) | _ => None end
  | EvTake => match pc c with WSelect iv lft => take_write (fun b => WCombine iv (lft ++ b)) c | _ => None end
  | EvStop => match pc c with
              | WSelect _ _ => if workerCloseChan c then Some (set_pc WCloseRd c) else None
              | _ => None
              end
  | EvStep => worker_step c
  | EvResponse r => respond r c
  end.
Abbreviation step := (Cells.does exec).

(** ** Invariants *)

(** The intervals of the backoff: those that the worker can ever wait. *)
Definition intervals : list Z := Eval vm_compute in
  0 :: map (fun n => Nat.iter n (fun iv => Z.min (backoff iv) maxPollInterval) initPollInterval) (seq 0 11).
Lemma intervals_closed iv wrSz d : iv ∈ intervals -> next_interval iv wrSz d ∈ intervals.
Proof.
  intros Hi. unfold next_interval.
  destruct (0 <? zlen d); [by apply (bool_decide_eq_true_1 (0 ∈ intervals))|].
  destruct (0 <? wrSz); [by apply (bool_decide_eq_true_1 (0 ∈ intervals))|].
  assert (H : Forall (fun iv => (if iv =? 0 then initPollInterval else Z.min (backoff iv) maxPollInterval) ∈ intervals) intervals).
  { apply (bool_decide_eq_true_1 (Forall _ _)). vm_compute. reflexivity. }
  rewrite Forall_forall in H. by apply H.
Qed.
Lemma intervals_range iv : iv ∈ intervals -> iv = 0 \/ initPollInterval <= iv <= maxPollInterval.
Proof.
  revert iv. rewrite <- Forall_forall. apply (bool_decide_eq_true_1 (Forall _ _)). vm_compute. reflexivity.
Qed.

Definition interval_of (k : worker) : option Z :=
  match k with WSelect iv _ | WCombine iv _ | WTrip iv _ _ | WSleep iv _ _ | WPut iv _ _ => Some iv | _ => None end.
(** How long the worker waits where it is. *)
Definition wait_of (k : worker) : option Z :=
  match k with WSelect iv _ => Some iv | WSleep _ _ _ => Some retryDelay | _ => None end.
(** What the worker took and did not get an answer for. *)
Definition held (k : worker) : option bytes :=
  match k with
  | WSelect _ b | WCombine _ b | WTrip _ b _ | WSleep _ b _ | WPut _ b _ => Some b
  | _ => None
  end.
(** What it received and did not pass on. *)
Definition in_hand (k : worker) : bytes := match k with WPut _ _ d => d | _ => [] end.

Record Inv (c : conn) : Prop := {
  inv_up : exists rest, accepted c = acked c ++ rest ++ concat (workerWrChan c)
                        /\ forall b, held (pc c) = Some b -> rest = b;
  inv_down : concat (map limited (received c)) = delivered c ++ default [] (rdBuf c) ++ concat (workerRdChan c) ++ in_hand (pc c);
  inv_bodies : Forall (fun b => zlen b <= maxPayloadLength) (posted c);
  inv_rdbuf : rdBuf c <> Some [];
  inv_rdchan : Forall (fun b => b <> []) (workerRdChan c);
  inv_put iv l d : pc c = WPut iv l d -> d <> [];
  inv_caps : zlen (workerWrChan c) <= maxChanBacklog /\ zlen (workerRdChan c) <= maxChanBacklog;
  inv_iv iv : interval_of (pc c) = Some iv -> iv ∈ intervals;
  inv_run b : held (pc c) = Some b -> rdClosed c = false /\ wrClosed c = false
}.

Lemma meek_Inv_init : Inv newMeekConn.
Proof.
  split; cbn; try done.
  - exists []. split; [done|]. by intros b [= <-].
  - intros iv [= <-]. apply (bool_decide_eq_true_1 (initPollInterval ∈ intervals)). by vm_compute.
Qed.

Lemma stash_default b : default [] (stash b) = b.
Proof. by destruct b. Qed.
Lemma stash_nonempty b : stash b <> Some [].
Proof. by destruct b. Qed.
Lemma body_length b : zlen (body b) <= maxPayloadLength.
Proof. unfold body. rewrite zlen_ztake. unfold maxPayloadLength. lia. Qed.

Lemma body_rest b r : body b ++ zdrop maxPayloadLength b ++ r = b ++ r.
Proof. unfold body. by rewrite app_assoc, ztake_zdrop. Qed.

Lemma read_inv n c r c' : Inv c -> Read n c = Some (r, c') -> Inv c' /\ r <> RPanic.
Proof.
  intros Hi E. pose proof Hi as [I1 I2 I3 I4 I5 I6 I7 I8 I9]. unfold Read in E. destruct (rdBuf c) as [[|x b]|] eqn:Eb; [done| |].
  - injection E as <- <-. split; [|done]. split; cbn -[ztake zdrop stash]; try done; [|apply stash_nonempty].
    change (default [] (Some (x :: b))) with (x :: b) in I2.
    rewrite stash_default, I2, <- app_assoc. by rewrite (app_assoc (ztake _ _) (zdrop _ _)), ztake_zdrop.
  - destruct (workerRdChan c) as [|b ch] eqn:Ec.
    + destruct (rdClosed c); [|done]. by injection E as <- <-.
    + injection E as <- <-. split; [|done].
      assert (Hch : Forall (fun b => b <> []) ch) by (by apply Forall_cons in I5 as [_ ?]).
      split; cbn -[ztake zdrop stash]; try done; [|apply stash_nonempty|].
      * cbn in I2. rewrite stash_default, I2, <- !app_assoc.
        by rewrite (app_assoc (ztake _ _) (zdrop _ _)), ztake_zdrop.
      * destruct I7 as [? H]. rewrite zlen_cons in H. split; [done|lia].
Qed.

Lemma enqueue_inv i c r c' : Inv c -> enqueueWrite i c = Some (r, c') -> Inv c'.
Proof.
  intros [I1 I2 I3 I4 I5 I6 I7 I8 I9] E. unfold enqueueWrite in E.
  destruct (writers c !! i) as [b|]; [|done]. cbn in E. destruct (wrClosed c) eqn:Ew.
  { injection E as <- <-. split; cbn; try done. by rewrite Ew. }
  destruct (_ <? _) eqn:El; [|done]. b2p. injection E as <- <-. split; cbn; try done.
  - destruct I1 as (rest & E1 & H1). exists rest. split; [|done].
    rewrite E1, concat_app. cbn. by rewrite app_nil_r, !app_assoc.
  - rewrite zlen_app. change (zlen [b]) with 1. split; [lia|by apply I7].
Qed.

(** Taking the next write makes it part of what the worker holds. *)
Lemma take_inv k b0 iv c c' : Inv c -> held (pc c) = Some b0 -> interval_of (pc c) = Some iv -> in_hand (pc c) = [] ->
  (forall b, held (k b) = Some (b0 ++ b) /\ interval_of (k b) = Some iv /\ in_hand (k b) = [] /\ forall i l d, k b <> WPut i l d) ->
  take_write k c = Some c' -> Inv c'.
Proof.
  intros [I1 I2 I3 I4 I5 I6 I7 I8 I9] Hh Hi Hd Hk E. unfold take_write in E.
  destruct (workerWrChan c) as [|b ch] eqn:Ec; [done|]. injection E as <-.
  destruct (Hk b) as (K1 & K2 & K3 & K4). split; cbn; try done.
  - destruct I1 as (rest & E1 & H1). exists (b0 ++ b). rewrite K1. split; [|by intros ? [= <-]].
    rewrite E1, (H1 b0 Hh). cbn. by rewrite <- !app_assoc.
  - by rewrite K3, I2, Hd.
  - intros i l d E. by apply K4 in E.
  - rewrite zlen_cons in I7. split; [lia|by apply I7].
  - intros iv'. rewrite K2. intros [= <-]. by apply I8.
  - intros b'. rewrite K1. intros _. by apply (I9 b0).
Qed.

(** Steps of the worker that move nothing. *)
Lemma set_pc_inv k c : Inv c -> (forall b, held k = Some b -> held (pc c) = Some b) ->
  (forall iv, interval_of k = Some iv -> interval_of (pc c) = Some iv) ->
  in_hand k = in_hand (pc c) -> (forall i l d, k <> WPut i l d) -> Inv (set_pc k c).
Proof.
  intros [I1 I2 I3 I4 I5 I6 I7 I8 I9] Hh Hi Hd Hk. split; cbn; try done.
  - destruct I1 as (rest & E1 & H1). exists rest. split; [done|]. intros b Hb. by apply H1, Hh.
  - by rewrite Hd.
  - intros i l d E. by apply Hk in E.
  - intros iv Hv. by apply I8, Hi.
  - intros b Hb. by apply (I9 b), Hh.
Qed.

Lemma post_inv sbuf k c : Inv c -> (forall b, held k = Some b -> held (pc c) = Some b) ->
  (forall iv, interval_of k = Some iv -> interval_of (pc c) = Some iv) ->
  in_hand k = in_hand (pc c) -> (forall i l d, k <> WPut i l d) -> Inv (post sbuf k c).
Proof.
  intros Hi H1 H2 H3 H4. destruct (set_pc_inv k c Hi H1 H2 H3 H4) as [I1 I2 I3 I4 I5 I6 I7 I8 I9].
  split; try done. cbn. apply Forall_app. split; [done|]. constructor; [apply body_length|constructor].
Qed.

(** A request that was answered: what was posted is done with, the rest stays. *)
Lemma answered_inv iv sbuf retries d c : Inv c -> pc c = WTrip iv sbuf retries ->
  let rd := limited d in
  let lft := zdrop maxPayloadLength sbuf in
  Inv (set_pc (if 0 <? zlen rd then WPut iv lft rd else WSelect (next_interval iv (zlen (body sbuf)) rd) lft)
              (ack sbuf d (post sbuf (pc c) c))).
Proof.
  intros Hi Ep d' lft. pose proof (inv_iv c Hi) as Hiv. rewrite Ep in Hiv. specialize (Hiv iv eq_refl).
  pose proof (inv_up c Hi) as (rest & E1 & H1). rewrite Ep in H1. specialize (H1 sbuf eq_refl). subst rest.
  pose proof (inv_run c Hi sbuf) as Hrun. rewrite Ep in Hrun. specialize (Hrun eq_refl).
  pose proof (inv_down c Hi) as Hd. rewrite Ep in Hd. cbn [in_hand] in Hd. rewrite app_nil_r in Hd.
  assert (Hrec : concat (map limited (received c ++ [d])) = concat (map limited (received c)) ++ d')
    by (by rewrite map_app, concat_app; cbn [map concat]; rewrite app_nil_r).
  destruct (0 <? zlen d') eqn:Ed; b2p; split; cbn -[ztake zdrop limited]; try (by apply Hi || done).
  - exists lft. split; [|by intros b [= <-]]. by rewrite E1, <- app_assoc, body_rest.
  - by rewrite Hrec, Hd, <- !app_assoc.
  - apply Forall_app. split; [apply Hi|]. constructor; [apply body_length|constructor].
  - intros i l x [= _ _ <-]. intros E. rewrite E in Ed. done.
  - by intros i [= <-].
  - exists lft. split; [|by intros b [= <-]]. by rewrite E1, <- app_assoc, body_rest.
  - assert (d' = []) as -> by (apply zlen_0; pose proof (zlen_nonneg d'); lia). by rewrite Hrec, Hd, !app_nil_r.
  - apply Forall_app. split; [apply Hi|]. constructor; [apply body_length|constructor].
  - intros i [= <-]. by apply intervals_closed.
Qed.

Lemma respond_inv r c c' : Inv c -> respond r c = Some c' -> Inv c'.
Proof.
  intros Hi E. unfold respond in E. destruct (pc c) as [| |iv sbuf retries| | | | | |] eqn:Ep; try done.
  assert (Hend : Inv (post sbuf WCloseRd c)) by (apply post_inv; rewrite ?Ep; done).
  destruct r as [|code d broken]; [by injection E as <-|].
  destruct (code =? 200).
  - destruct broken; injection E as <-; [done|]. rewrite <- Ep. by apply (answered_inv iv sbuf retries).
  - injection E as <-. apply post_inv; rewrite ?Ep; done.
Qed.

Lemma worker_step_inv c c' : Inv c -> worker_step c = Some c' -> Inv c'.
Proof.
  intros Hi E. unfold worker_step in E. destruct (pc c) as [|iv b| |iv b k|iv l d| | | |] eqn:Ep; try done.
  - destruct (negb _ && _).
    + by apply (take_inv _ b iv c c' Hi) in E; rewrite ?Ep.
    + injection E as <-. apply set_pc_inv; rewrite ?Ep; done.
  - injection E as <-. destruct (_ <? _); apply set_pc_inv; rewrite ?Ep; done.
  - destruct (_ <? _) eqn:El; [|done]. b2p. injection E as <-.
    pose proof (inv_put c Hi iv l d Ep) as Hd. destruct Hi as [I1 I2 I3 I4 I5 I6 I7 I8 I9]. rewrite Ep in *.
    split; cbn; try done.
    + by rewrite concat_app, I2, app_nil_r, !app_assoc; cbn; rewrite app_nil_r.
    + apply Forall_app. split; [done|]. by constructor.
    + rewrite zlen_app. change (zlen [d]) with 1. split; [by apply I7|lia].
    + intros i [= <-]. by apply (bool_decide_eq_true_1 (0 ∈ intervals)).
  - injection E as <-. destruct Hi as [I1 I2 I3 I4 I5 I6 I7 I8 I9]. rewrite Ep in *. by split.
  - injection E as <-. destruct Hi as [I1 I2 I3 I4 I5 I6 I7 I8 I9]. rewrite Ep in *. by split.
  - injection E as <-. destruct Hi as [I1 I2 I3 I4 I5 I6 I7 I8 I9]. rewrite Ep in *. by split.
Qed.

Lemma meek_exec_inv ev c c' : Inv c -> exec ev c = Some c' -> Inv c'.
Proof.
  intros Hi E. destruct ev as [n|b|i| | | | | |r]; cbn in E.
  - destruct (Read n c) as [[r c1]|] eqn:Er; [|done]. injection E as <-. by apply (read_inv n c r c1 Hi).
  - injection E as <-. unfold Write. destruct (workerCloseChan c); [done|].
    destruct b; [done|]. by destruct Hi.
  - destruct (enqueueWrite i c) as [[r c1]|] eqn:Er; [|done]. injection E as <-. by apply (enqueue_inv i c r c1 Hi).
  - injection E as <-. by destruct Hi.
  - destruct (pc c) eqn:Ep; try done. injection E as <-. apply set_pc_inv; rewrite ?Ep; done.
  - destruct (pc c) as [iv b| | | | | | | |] eqn:Ep; try done.
    by apply (take_inv _ b iv c c' Hi) in E; rewrite ?Ep.
  - destruct (pc c) eqn:Ep; try done. destruct (workerCloseChan c); [|done]. injection E as <-.
    apply set_pc_inv; rewrite ?Ep; done.
  - by apply worker_step_inv in E.
  - by apply respond_inv in E.
Qed.

Lemma meek_reach_inv c : rtc step newMeekConn c -> Inv c.
Proof. intros Hr. eapply Cells.does_invariant; [intros ev s1 s2; apply meek_exec_inv|apply meek_Inv_init|done]. Qed.

Lemma limited_map l : map limited l = map (fun d => ztake 65536 d) l.
Proof. apply map_ext. intros d. unfold limited. f_equal. Qed.


(** ** After [Close] *)

(** [Close] changes nothing for [Read]: what is queued is still handed out. *)
Lemma closed_read_answers n c : fst <$> Read n (Close c).2 = fst <$> Read n c.
Proof.
  unfold Read, Close. cbn. destruct (rdBuf c) as [[]|]; [done..|].
  destruct (workerRdChan c); [|done]. by destruct (rdClosed c).
Qed.

(** [Read] waits, and the worker is in a round trip. *)
Definition waiting (c : conn) : Prop :=
  rdBuf c = None /\ workerRdChan c = [] /\ rdClosed c = false /\ exists iv b k, pc c = WTrip iv b k.

(** A [Read] that waits while the worker is in a round trip waits until that ends,
    whatever happens otherwise, [Close] included; and nothing bounds the time the
    HTTP transport takes. *)
Theorem closed_read_blocks c c' evs n : waiting c ->
  Forall (fun ev => match ev with EvResponse _ => False | _ => True end) evs ->
  Cells.runs exec evs c = Some c' -> waiting c' /\ Read n c' = None.
Proof.
  intros Hw Hevs. revert c Hw. induction Hevs as [|ev evs Hev Hevs IH]; intros c Hw; cbn.
  - intros [= <-]. split; [done|]. destruct Hw as (E1 & E2 & E3 & _). unfold Read. by rewrite E1, E2, E3.
  - destruct (exec ev c) as [c1|] eqn:E; [|done]. cbn. apply IH.
    destruct Hw as (E1 & E2 & E3 & iv & b & k & Ep). unfold waiting.
    destruct ev as [m|w|i| | | | | |r]; cbn in E; rewrite ?Ep in E; try done.
    + unfold Read in E. by rewrite E1, E2, E3 in E.
    + injection E as <-. unfold Write. destruct (workerCloseChan c); [|destruct w]; cbn; eauto 10.
    + unfold enqueueWrite in E. destruct (writers c !! i); [|done]. cbn in E.
      destruct (wrClosed c); [injection E as <-; cbn; eauto 10|].
      destruct (_ <? _); [injection E as <-; cbn; eauto 10|done].
    + injection E as <-. cbn. eauto 10.
    + unfold worker_step in E. by rewrite Ep in E.
Qed.

(** The worker waits to pass an answer on, and there is no room. *)
Definition stuck (c : conn) : Prop :=
  maxChanBacklog <= zlen (workerRdChan c) /\ exists iv l d, pc c = WPut iv l d.
Definition is_read (ev : event) : bool := match ev with EvRead _ => true | _ => false end.

Lemma stuck_step ev c c' : is_read ev = false -> stuck c -> exec ev c = Some c' ->
  stuck c' /\ pc c' = pc c /\ workerRdChan c' = workerRdChan c.
Proof.
  intros Hev [Hl (iv & l & d & Ep)] E.
  assert (Hk : pc c' = pc c /\ workerRdChan c' = workerRdChan c).
  { destruct ev as [n|b|i| | | | | |r]; cbn in E; try done; rewrite ?Ep in E; try done.
    - injection E as <-. unfold Write. destruct (workerCloseChan c); [done|]. by destruct b.
    - unfold enqueueWrite in E. destruct (writers c !! i) as [b|]; [|done]. cbn in E.
      destruct (wrClosed c); [by injection E as <-|]. destruct (_ <? _); [by injection E as <-|done].
    - by injection E as <-.
    - unfold worker_step in E. rewrite Ep, ltb_false in E by lia. done.
    - unfold respond in E. by rewrite Ep in E. }
  destruct Hk as [Hk Hc]. split; [|done]. split; [by rewrite Hc|]. exists iv, l, d. by rewrite Hk.
Qed.

(** [Close] does not always stop the worker: if sixteen answers wait to be read
    and the worker holds another one, then as long as nobody calls [Read], whatever
    else happens, it stays where it is and never looks at the channel that [Close]
    closed; a [Write] that waits for room waits for good.  A reachable state
    of this kind is the one in which a client goes away during a download. *)
Theorem close_leaks_worker (c c' : conn) (evs : list event) (Hs : stuck c)
    (Hn : Forall (fun ev => is_read ev = false) evs) (He : Cells.runs exec evs c = Some c') :
  pc c' = pc c /\ workerRdChan c' = workerRdChan c
  /\ (maxChanBacklog <= zlen (workerWrChan c') -> wrClosed c' = false -> forall i, enqueueWrite i c' = None).
Proof.
  split_and!.
  1, 2: revert c Hs He; induction Hn as [|ev evs Hev Hn IH]; intros c Hs; cbn; [by intros [= <-]|];
    destruct (exec ev c) as [c1|] eqn:E; [|done]; cbn; intros Hr;
    destruct (stuck_step ev c c1 Hev Hs E) as (Hs1 & E1 & E2); rewrite <- ?E1, <- ?E2; by apply IH.
  - intros Hl Hc i. unfold enqueueWrite. destruct (writers c' !! i); [|done]. cbn.
    by rewrite Hc, ltb_false by lia.
Qed.

(** Seventeen answers of one byte each, and then [Close]. *)
Definition toy_answers : list event :=
  [EvWrite (str "GET"); EvEnqueue 0; EvTake; EvStep]
  ++ concat (replicate 16 [EvResponse (RTStatus 200 (str "x") false); EvStep; EvPoll; EvStep])
  ++ [EvResponse (RTStatus 200 (str "x") false); EvClose].
Definition toy_stuck : conn := Eval vm_compute in default newMeekConn (Cells.runs exec toy_answers newMeekConn).
Lemma toy_stuck_reached : rtc step newMeekConn toy_stuck.
Proof. apply (Cells.runs_rtc exec toy_answers). vm_compute. reflexivity. Qed.


Lemma close_leaks_worker_witness : workerCloseChan toy_stuck = true /\ stuck toy_stuck
  /\ exists c', Cells.runs exec [EvWrite (str "more"); EvClose] toy_stuck = Some c' /\ pc c' = pc toy_stuck.
Proof.
  assert (Hs : stuck toy_stuck) by (split; [vm_compute; congruence|by eexists _, _, _]).
  split; [reflexivity|]. split; [exact Hs|]. eexists. split; [reflexivity|].
  eapply (proj1 (close_leaks_worker toy_stuck _ [EvWrite (str "more"); EvClose] Hs _ eq_refl)).
  Unshelve. repeat constructor.
Defined.
End Meek.
