(* ===== verification/TamarawState.v ===== *)
(** * Configuration of tamaraw

    [transports/tamaraw/statefile.go] and the factories of [tamaraw.go]: the
    parameters of the defense on top of the identity of [DefState.v]. *)
From S2P Require Import Prelude GoStd Rand Drbg Framing ReplayFilter Packet Ntor Obfs4 DefConn Args Socks5 ObfsProxy GoFloat GoText ObfsState DefState.

Module TamarawState.
Import Env ArgUtils.
Definition rhoServerArg : bytes := str "rho-server".
Definition rhoClientArg : bytes := str "rho-client".
Definition nSegArg : bytes := str "nseg".
#[global] Arguments rhoServerArg : simpl never.
#[global] Arguments rhoClientArg : simpl never.
#[global] Arguments nSegArg : simpl never.

Record params := mkParams { nSeg : Z; rhoServer : Z; rhoClient : Z }.
Record jsonServerState := mkJson { js_base : DefState.JsonServerState; js_params : params }.
(** The embedded identity is [None] where the code leaves its zero value. *)
Record tamarawServerState := mkState {
  base : option DefState.DefConnServerState; st_params : params
}.

Definition json_fields (js : jsonServerState) : list (bytes * Json.value) :=
  DefState.json_fields (js_base js)
  ++ [(nSegArg, Json.JInt (nSeg (js_params js)));
      (rhoServerArg, Json.JInt (rhoServer (js_params js)));
      (rhoClientArg, Json.JInt (rhoClient (js_params js)))].

Definition clientString (st : tamarawServerState) : bytes :=
  DefState.ClientString (base st)
  ++ nSegArg ++ str "=" ++ Atoi.Itoa (nSeg (st_params st)) ++ str " "
  ++ rhoServerArg ++ str "=" ++ Atoi.Itoa (rhoServer (st_params st)) ++ str " "
  ++ rhoClientArg ++ str "=" ++ Atoi.Itoa (rhoClient (st_params st)).

Section server.
Context `{SipHash} `{Curve25519} `{Elligator} `{PtArgsGet}.

(** The error of the identity is overwritten by the next assignment to [err]. *)
Definition serverStateFromJSONServerState (js : jsonServerState) : S tamarawServerState :=
  st ← attempt (DefState.ServerStateFromJsonServerStateInternal (js_base js));
  let p := js_params js in
  if nSeg p <? 0 then fail (Invalid nSegArg)
  else if rhoServer p <? 0 then fail (Invalid rhoServerArg)
  else if rhoClient p <? 0 then fail (Invalid rhoClientArg)
  else
    let st := mkState st p in
    _ ← DefState.NewBridgeFile (clientString st);
    _ ← DefState.WriteJSONServerState (json_fields js);
    mret st.

Definition serverStateFromArgs (args : Args) : S tamarawServerState :=
  js ← DefState.ServerStateFromArgsInternal args;
  nSeg ← required Atoi.Atoi nSegArg args;
  rhoClient ← required Atoi.Atoi rhoClientArg args;
  rhoServer ← required Atoi.Atoi rhoServerArg args;
  serverStateFromJSONServerState (mkJson js (mkParams nSeg rhoServer rhoClient)).

Record tamarawServerFactory := mkServerFactory {
  sf_base : DefState.DefConnServerFactory; sf_params : params
}.

Definition ServerFactory (fuel : nat) (args : Args) : S tamarawServerFactory :=
  sf ← DefState.ServerFactory fuel args;
  st ← serverStateFromArgs args;
  mret (mkServerFactory sf (st_params st)).

Record tamarawClientArgs := mkClientArgs {
  ca_base : DefState.DefConnClientArgs; ca_params : params
}.

(** The error of the embedded factory is overwritten too; asserting the type
    of the [nil] that came with it panics. *)
Definition ParseArgs (args : Args) : S tamarawClientArgs :=
  arguments ← attempt (DefState.ParseArgs args);
  nSeg ← GetIntArgFromStr nSegArg args;
  rhoServer ← GetIntArgFromStr rhoServerArg args;
  rhoClient ← GetIntArgFromStr rhoClientArg args;
  match arguments with
  | Some a => mret (mkClientArgs a (mkParams nSeg rhoServer rhoClient))
  | None => panic "interface conversion: interface is nil"
  end.
End server.

(** A [tamarawConn] is the connection of defconn with the parameters. *)
Record tamarawConn := mkConn { conn : DefState.DefConnConn; c_params : params }.

Section conns.
Context `{SipHash} `{SecretBox} `{Curve25519} `{Elligator} `{Hkdf} `{PtArgsGet} (fuel : nat).
Definition WrapConn (sf : tamarawServerFactory) tape startTime now d1 d2 w d3 net rf :=
  DefState.embed (fun c => mkConn c (sf_params sf))
    (DefState.WrapConn fuel (sf_base sf) tape startTime now d1 d2 w d3 net rf).
Definition Dial (args : tamarawClientArgs) dialErr hour tape d1 d2 w net :=
  DefState.embed (fun c => mkConn c (ca_params args))
    (DefState.Dial fuel (ca_base args) dialErr hour tape d1 d2 w net).
End conns.

Section proofs.
Context `{SipHash} `{Curve25519Laws} `{Elligator} `{PtArgsLaws}.

Lemma factory_params fuel args w sf w' :
  ServerFactory fuel args w = (Ok sf, w') ->
  (exists w0 w1, DefState.ServerFactory fuel args w0 = (Ok (sf_base sf), w1))
  /\ exists w1 w2 w3 w4 w5 w6,
    required Atoi.Atoi nSegArg args w1 = (Ok (nSeg (sf_params sf)), w2)
    /\ required Atoi.Atoi rhoClientArg args w3 = (Ok (rhoClient (sf_params sf)), w4)
    /\ required Atoi.Atoi rhoServerArg args w5 = (Ok (rhoServer (sf_params sf)), w6)
    /\ 0 <= nSeg (sf_params sf) /\ 0 <= rhoClient (sf_params sf) /\ 0 <= rhoServer (sf_params sf).
Proof.
  unfold ServerFactory. intros E. apply ObfsState.bind_inv in E as (sf0 & w1 & E0 & E).
  apply ObfsState.bind_inv in E as (st & w2 & E1 & E). mrun_in E. injection E as <- <-. cbn [sf_base sf_params].
  split; [by eexists _, _|].
  unfold serverStateFromArgs in E1.
  apply ObfsState.bind_inv in E1 as (js & w3 & _ & E1). apply ObfsState.bind_inv in E1 as (n & w4 & En & E1).
  apply ObfsState.bind_inv in E1 as (rc & w5 & Ec & E1). apply ObfsState.bind_inv in E1 as (rs & w6 & Es & E1).
  unfold serverStateFromJSONServerState in E1. apply ObfsState.bind_inv in E1 as (b & w7 & _ & E1).
  cbn [js_params nSeg rhoServer rhoClient] in E1.
  destruct (n <? 0) eqn:?, (rs <? 0) eqn:?, (rc <? 0) eqn:?; try done. b2p.
  apply ObfsState.bind_inv in E1 as ([] & w8 & _ & E1). apply ObfsState.bind_inv in E1 as ([] & w9 & _ & E1).
  mrun_in E1. injection E1 as <- _. cbn [st_params nSeg rhoServer rhoClient].
  exists w3, w4, w4, w5, w5, w6. repeat split; done.
Qed.

(** The two ends of a tamaraw connection run with the same parameters: a
    client that is given the server's certificate and the same strings for
    [nseg], [rho-server] and [rho-client] as the server computes from them
    the server's identity and the server's parameters, none of them negative. *)
Theorem same_arguments fuel args w sf w' args' w1 key t :
  ServerFactory fuel args w = (Ok sf, w') ->
  Get DefState.certArg args' = Get DefState.certArg (DefState.sf_args (sf_base sf)) ->
  (forall k, k ∈ [nSegArg; rhoServerArg; rhoClientArg] -> Get k args' = Get k args) ->
  Ntor.NewKeypair true (tape w1) = (Ok key, t) ->
  (ParseArgs args' w1).1 =
    Ok (mkClientArgs (DefState.mkClientArgs (DefState.sf_nodeID (sf_base sf))
          (Ntor.public (DefState.sf_identityKey (sf_base sf))) key) (sf_params sf))
  /\ 0 <= nSeg (sf_params sf) /\ 0 <= rhoClient (sf_params sf) /\ 0 <= rhoServer (sf_params sf).
Proof.
  intros E Hcert Hk Hkey.
  apply factory_params in E as [(w2 & w3 & E) (a1 & a2 & a3 & a4 & a5 & a6 & En & Ec & Es & Hpos)].
  split; [|exact Hpos].
  destruct (DefState.published _ _ _ _ _ E) as [Hpub _].
  destruct (DefState.ParseArgs_identity _ _ _ w1 (Hpub _ Hcert)) as [w4 Ea].
  unfold ParseArgs. mrun. rewrite Ea, Hkey. cbn [fst].
  unfold GetIntArgFromStr.
  rewrite (DefState.required_same _ _ _ args' _ _ _ _ En) by (apply Hk; set_solver).
  rewrite (DefState.required_same _ _ _ args' _ _ _ _ Es) by (apply Hk; set_solver).
  rewrite (DefState.required_same _ _ _ args' _ _ _ _ Ec) by (apply Hk; set_solver).
  cbn. by destruct (sf_params sf).
Qed.

(** What a server publishes is not what a client needs: the parameters are
    missing from its [Args]. *)
Lemma published_incomplete fuel args w sf w' w1 :
  ServerFactory fuel args w = (Ok sf, w') ->
  match (ParseArgs (DefState.sf_args (sf_base sf)) w1).1 with
  | Err e => e = MissingArg nSegArg
  | Panic p => (Ntor.NewKeypair true (tape w1)).1 = Panic p
  | Ok _ => False
  end.
Proof.
  intros E. apply factory_params in E as [(w2 & w3 & E) _].
  destruct (DefState.published _ _ _ _ _ E) as [Hpub Hnone].
  destruct (DefState.ParseArgs_identity _ _ _ w1 (Hpub _ eq_refl)) as [w4 Ea].
  unfold ParseArgs. mrun. rewrite Ea.
  destruct (Ntor.NewKeypair true (tape w1)) as [[k|e|p] t]; cbn [fst]; [..|done];
    unfold GetIntArgFromStr, required; by rewrite Hnone by discriminate.
Qed.

(** A client whose certificate is malformed does not get an error: with
    well-formed parameters, [ParseArgs] panics. *)
Lemma bad_certificate_panics args e n rs rc w :
  ObfsState.server_identity args = Err e ->
  (Get nSegArg args ≫= Atoi.Atoi) = Some n -> (Get rhoServerArg args ≫= Atoi.Atoi) = Some rs ->
  (Get rhoClientArg args ≫= Atoi.Atoi) = Some rc ->
  (ParseArgs args w).1 = Panic "interface conversion: interface is nil".
Proof.
  intros Hid Hn Hs Hc. unfold ParseArgs. mrun.
  rewrite (DefState.ParseArgs_no_identity _ _ _ Hid). unfold GetIntArgFromStr, required.
  destruct (Get nSegArg args); cbn in Hn; [|done]. rewrite Hn. cbn.
  destruct (Get rhoServerArg args); cbn in Hs; [|done]. rewrite Hs. cbn.
  destruct (Get rhoClientArg args); cbn in Hc; [|done]. by rewrite Hc.
Qed.

(** In the proxy: the client that sent them gets no answer, and the process dies. *)
Lemma bad_certificate_kills {D R} netWrite (dialer : option D)
    (Dial : D -> bytes -> tamarawClientArgs -> result Socks5.Socks5.go_error R)
    deadline r r1 args e n rs rc w :
  Socks5.Socks5.Handshake netWrite deadline r = (Ok tt, r1) -> Socks5.Socks5.RArgs r1 = Some args ->
  ObfsState.server_identity args = Err e ->
  (Get nSegArg args ≫= Atoi.Atoi) = Some n -> (Get rhoServerArg args ≫= Atoi.Atoi) = Some rs ->
  (Get rhoClientArg args ≫= Atoi.Atoi) = Some rc ->
  ObfsProxy.ObfsProxy.clientHandler netWrite (fun o => (ParseArgs (default make_Args o) w).1)
    dialer Dial deadline r
  = (r1, ObfsProxy.ObfsProxy.handled [] (Some "interface conversion: interface is nil")).
Proof.
  intros Hh Ha Hid Hn Hs Hc. unfold ObfsProxy.ObfsProxy.clientHandler, ObfsProxy.ObfsProxy.serve.
  rewrite Hh, Ha. cbn [default]. by erewrite bad_certificate_panics.
Qed.

(** A record whose keys are not hexadecimal is accepted: the error is lost. *)
Lemma bad_identity_accepted js p w :
  0 <= nSeg p -> 0 <= rhoServer p -> 0 <= rhoClient p -> outcomes w = [] ->
  is_ok (Ntor.NodeIDFromHex (DefState.NodeID js)) = false ->
  (serverStateFromJSONServerState (mkJson js p) w).1 = Ok (mkState None p).
Proof.
  intros H1' H2' H3' Ho Hbad. unfold serverStateFromJSONServerState, attempt.
  unfold DefState.ServerStateFromJsonServerStateInternal. mrun. cbn [js_base js_params].
  assert (Hnp : forall q, Ntor.NodeIDFromHex (DefState.NodeID js) <> Panic q).
  { intros q. apply ObfsState.from_hex_total. intros raw q'. unfold Ntor.NewNodeID. by destruct (negb _). }
  destruct (Ntor.NodeIDFromHex (DefState.NodeID js)) as [i|e|q]; [done| |by destruct (Hnp q)].
  cbn [as_error]. mrun.
  destruct (nSeg p <? 0) eqn:?, (rhoServer p <? 0) eqn:?, (rhoClient p <? 0) eqn:?; b2p; try lia.
  unfold DefState.NewBridgeFile, DefState.WriteJSONServerState, write_json. cbn.
  by rewrite write_bridge_run, write_state_run.
Qed.
End proofs.
End TamarawState.

Section witnesses.
Import ToySip ToyBox ToyCurve ToyGet Env TamarawState.

Definition tw_args : Args :=
  Add nSegArg (str "100") (Add rhoServerArg (str "5") (Add rhoClientArg (str "20") make_Args)).
Definition tw_world : World := mkWorld (zrepeat 400 Byte.x5a) None None [].
Definition tw_client : World := mkWorld (zrepeat 32 Byte.x07) None None [].
Definition tw_key : Ntor.Keypair := Eval vm_compute in
  match (Ntor.NewKeypair true (tape tw_client)).1 with Ok k => k | _ => toy_keypair Byte.x00 end.

Lemma same_arguments_witness :
  exists sf w', ServerFactory 60 tw_args tw_world = (Ok sf, w')
  /\ sf_params sf = mkParams 100 5 20
  /\ (ParseArgs (Add DefState.certArg
        (default [] (Get DefState.certArg (DefState.sf_args (sf_base sf)))) tw_args) tw_client).1
     = Ok (mkClientArgs (DefState.mkClientArgs (DefState.sf_nodeID (sf_base sf))
          (Ntor.public (DefState.sf_identityKey (sf_base sf))) tw_key) (sf_params sf)).
Proof.
  destruct (ServerFactory 60 tw_args tw_world) as [[sf|e|p] w'] eqn:E;
    [|vm_compute in E; discriminate E..].
  exists sf, w'. split; [reflexivity|]. split.
  - vm_compute in E. injection E as <- _. reflexivity.
  - refine (proj1 (same_arguments 60 tw_args tw_world sf w' _ tw_client tw_key [] E _ _ _)).
    + vm_compute in E. injection E as <- _. reflexivity.
    + intros k Hk. repeat (apply elem_of_cons in Hk as [->|Hk]; [reflexivity|]).
      exfalso. exact (not_elem_of_nil k Hk).
    + vm_compute. reflexivity.
Defined.
End witnesses.
