(* ===== verification/FrontState.v ===== *)
(** * Configuration of front

    [transports/front/statefile.go] and the factories of [front.go]: the
    parameters of the defense on top of the identity of [DefState.v]. *)
From S2P Require Import Prelude GoStd Rand Drbg Framing ReplayFilter Packet Ntor Obfs4 DefConn Args GoFloat GoText ObfsState DefState.

Module FrontState.
Import Env ArgUtils.
Definition wMinArg : bytes := str "w-min".
Definition wMaxArg : bytes := str "w-max".
Definition nServerArg : bytes := str "n-server".
Definition nClientArg : bytes := str "n-client".
#[global] Arguments wMinArg : simpl never.
#[global] Arguments wMaxArg : simpl never.
#[global] Arguments nServerArg : simpl never.
#[global] Arguments nClientArg : simpl never.

Record params := mkParams { wMin : spec_float; wMax : spec_float; nServer : Z; nClient : Z }.
Record jsonServerState := mkJson { js_base : DefState.JsonServerState; js_params : params }.
(** The embedded identity is [None] where the code leaves its zero value. *)
Record frontServerState := mkState {
  base : option DefState.DefConnServerState; st_params : params
}.

Definition json_fields (js : jsonServerState) : list (bytes * Json.value) :=
  let p := js_params js in
  DefState.json_fields (js_base js)
  ++ [(wMinArg, Json.of_float FloatText.binary32 (wMin p));
      (wMaxArg, Json.of_float FloatText.binary32 (wMax p));
      (nServerArg, Json.JInt (nServer p));
      (nClientArg, Json.JInt (nClient p))].

Definition clientString (st : frontServerState) : bytes :=
  let p := st_params st in
  DefState.ClientString (base st)
  ++ wMinArg ++ str "=" ++ FloatText.fixed 1 (wMin p) ++ str " "
  ++ wMaxArg ++ str "=" ++ FloatText.fixed 1 (wMax p) ++ str " "
  ++ nServerArg ++ str "=" ++ Atoi.Itoa (nServer p) ++ str " "
  ++ nClientArg ++ str "=" ++ Atoi.Itoa (nClient p).

Section server.
Context `{SipHash} `{Curve25519} `{Elligator} `{PtArgsGet}.

(** The error of the identity is overwritten by the next assignment to [err]. *)
Definition serverStateFromJSONServerState (js : jsonServerState) : S frontServerState :=
  st ← attempt (DefState.ServerStateFromJsonServerStateInternal (js_base js));
  let p := js_params js in
  if (nServer p <=? 0) || (nClient p <=? 0) then fail (Invalid nServerArg)
  else if le_zero (wMin p) || le_zero (wMax p) then fail (Invalid wMinArg)
  else
    let st := mkState st p in
    _ ← DefState.NewBridgeFile (clientString st);
    _ ← DefState.WriteJSONServerState (json_fields js);
    mret st.

Definition serverStateFromArgs (args : Args) : S frontServerState :=
  js ← DefState.ServerStateFromArgsInternal args;
  wMax ← required (FloatText.ParseFloat FloatText.binary32) wMaxArg args;
  wMin ← match Get wMinArg args with
         | None => mret (GoFloat.f32_of_Z 1)
         | Some s => required (FloatText.ParseFloat FloatText.binary32) wMinArg args
         end;
  nServer ← required Atoi.Atoi nServerArg args;
  nClient ← required Atoi.Atoi nClientArg args;
  serverStateFromJSONServerState (mkJson js (mkParams wMin wMax nServer nClient)).

Record frontServerFactory := mkServerFactory {
  sf_base : DefState.DefConnServerFactory; sf_params : params
}.

Definition ServerFactory (fuel : nat) (args : Args) : S frontServerFactory :=
  sf ← DefState.ServerFactory fuel args;
  st ← serverStateFromArgs args;
  mret (mkServerFactory sf (st_params st)).

Record frontClientArgs := mkClientArgs {
  ca_base : DefState.DefConnClientArgs; ca_params : params
}.

(** The error of the embedded factory is overwritten too; asserting the type
    of the [nil] that came with it panics. *)
Definition ParseArgs (args : Args) : S frontClientArgs :=
  arguments ← attempt (DefState.ParseArgs args);
  nClient ← GetIntArgFromStr nClientArg args;
  nServer ← GetIntArgFromStr nServerArg args;
  wMin ← GetFloatArgFromStr wMinArg args;
  wMax ← GetFloatArgFromStr wMaxArg args;
  match arguments with
  | Some a => mret (mkClientArgs a (mkParams (narrow wMin) (narrow wMax) nServer nClient))
  | None => panic "interface conversion: interface is nil"
  end.
End server.

(** The padding channel of a new connection is empty. *)
Record frontConn := mkConn { conn : DefState.DefConnConn; c_params : params; paddingChan : list bool }.

Section conns.
Context `{SipHash} `{SecretBox} `{Curve25519} `{Elligator} `{Hkdf} `{PtArgsGet} (fuel : nat).
Definition WrapConn (sf : frontServerFactory) tape startTime now d1 d2 w d3 net rf :=
  DefState.embed (fun c => mkConn c (sf_params sf) [])
    (DefState.WrapConn fuel (sf_base sf) tape startTime now d1 d2 w d3 net rf).
Definition Dial (args : frontClientArgs) dialErr hour tape d1 d2 w net :=
  DefState.embed (fun c => mkConn c (ca_params args) [])
    (DefState.Dial fuel (ca_base args) dialErr hour tape d1 d2 w net).
End conns.

Section proofs.
Context `{SipHash} `{Curve25519Laws} `{Elligator} `{PtArgsLaws}.

(** A client whose certificate is malformed does not get an error: with
    well-formed parameters, [ParseArgs] panics. *)
Lemma front_bad_certificate args e w :
  ObfsState.server_identity args = Err e ->
  is_Some (Get nClientArg args ≫= Atoi.Atoi) ->
  is_Some (Get nServerArg args ≫= Atoi.Atoi) ->
  is_Some (Get wMinArg args ≫= FloatText.ParseFloat FloatText.binary64) ->
  is_Some (Get wMaxArg args ≫= FloatText.ParseFloat FloatText.binary64) ->
  (ParseArgs args w).1 = Panic "interface conversion: interface is nil".
Proof.
  intros Hid [v0 H0'] [v1 H1'] [v2 H2'] [v3 H3']. unfold ParseArgs. mrun.
  rewrite (DefState.ParseArgs_no_identity _ _ _ Hid).
  unfold GetIntArgFromStr, GetFloatArgFromStr, required.
  destruct (Get nClientArg args); [|done]. cbn [mbind option_bind] in H0'. rewrite H0'. mrun.
  destruct (Get nServerArg args); [|done]. cbn [mbind option_bind] in H1'. rewrite H1'. mrun.
  destruct (Get wMinArg args); [|done]. cbn [mbind option_bind] in H2'. rewrite H2'. mrun.
  destruct (Get wMaxArg args); [|done]. cbn [mbind option_bind] in H3'. rewrite H3'. mrun.
  done.
Qed.
End proofs.
End FrontState.
