(* ===== verification/WfganState.v ===== *)
(** * Configuration of wfgan

    [transports/wfgan/statefile.go] and the factories of [wfgan.go]: the
    parameters of the defense on top of the identity of [DefState.v]. *)
From S2P Require Import Prelude GoStd Rand Drbg Framing ReplayFilter Packet Ntor Obfs4 DefConn Args GoFloat GoText ObfsState DefState.

Module WfganState.
Import Env ArgUtils.
Definition tolArg : bytes := str "tol".
Definition pArg : bytes := str "p".
#[global] Arguments tolArg : simpl never.
#[global] Arguments pArg : simpl never.

Record params := mkParams { tol : spec_float; prob : spec_float }.
Record jsonServerState := mkJson { js_base : DefState.JsonServerState; js_params : params }.
(** The embedded identity is [None] where the code leaves its zero value. *)
Record wfganServerState := mkState {
  base : option DefState.DefConnServerState; st_params : params
}.

Definition json_fields (js : jsonServerState) : list (bytes * Json.value) :=
  let p := js_params js in
  DefState.json_fields (js_base js)
  ++ [(tolArg, Json.of_float FloatText.binary32 (tol p));
      (pArg, Json.of_float FloatText.binary32 (prob p))].

Definition clientString (st : wfganServerState) : bytes :=
  let p := st_params st in
  DefState.ClientString (base st)
  ++ tolArg ++ str "=" ++ FloatText.fixed 1 (tol p) ++ str " "
  ++ pArg ++ str "=" ++ FloatText.fixed 1 (prob p).

Section server.
Context `{SipHash} `{Curve25519} `{Elligator} `{PtArgsGet}.

(** The error of the identity is overwritten by the next assignment to [err]. *)
Definition serverStateFromJSONServerState (js : jsonServerState) : S wfganServerState :=
  st ← attempt (DefState.ServerStateFromJsonServerStateInternal (js_base js));
  let p := js_params js in
  if lt_zero (tol p) then fail (Invalid tolArg)
  else if lt_zero (prob p) then fail (Invalid pArg)
  else
    let st := mkState st p in
    _ ← DefState.NewBridgeFile (clientString st);
    _ ← DefState.WriteJSONServerState (json_fields js);
    mret st.

Definition serverStateFromArgs (args : Args) : S wfganServerState :=
  js ← DefState.ServerStateFromArgsInternal args;
  tol ← required (FloatText.ParseFloat FloatText.binary32) tolArg args;
  p ← required (FloatText.ParseFloat FloatText.binary32) pArg args;
  serverStateFromJSONServerState (mkJson js (mkParams tol p)).

Record wfganServerFactory := mkServerFactory {
  sf_base : DefState.DefConnServerFactory; sf_params : params
}.

Definition ServerFactory (fuel : nat) (args : Args) : S wfganServerFactory :=
  sf ← DefState.ServerFactory fuel args;
  st ← serverStateFromArgs args;
  mret (mkServerFactory sf (st_params st)).

Record wfganClientArgs := mkClientArgs {
  ca_base : DefState.DefConnClientArgs; ca_params : params
}.

(** The error of the embedded factory is overwritten too; asserting the type
    of the [nil] that came with it panics. *)
Definition ParseArgs (args : Args) : S wfganClientArgs :=
  arguments ← attempt (DefState.ParseArgs args);
  tol ← GetFloatArgFromStr tolArg args;
  p ← GetFloatArgFromStr pArg args;
  match arguments with
  | Some a => mret (mkClientArgs a (mkParams (narrow tol) (narrow p)))
  | None => panic "interface conversion: interface is nil"
  end.
End server.

(** [utils.ReadFloatFromFile] on the lines of the file: those that are not
    numbers are skipped. *)
Definition ReadFloatFromFile (lines : list bytes) : list spec_float :=
  omap (FloatText.ParseFloat FloatText.binary64) lines.

(** [o2iEnabled] is false, so the server has no list; a client reads its own.
    [canSendChan] is [nil] on the client. *)
Record wfganConn := mkConn { conn : DefState.DefConnConn; c_params : params;
  randomP : spec_float; canSendChan : option (list Z); iptList : list spec_float }.

Section conns.
Context `{SipHash} `{SecretBox} `{Curve25519} `{Elligator} `{Hkdf} `{PtArgsGet} (fuel : nat).
Definition WrapConn (sf : wfganServerFactory) tape startTime now d1 d2 w d3 net rf :=
  DefState.embed (fun c => mkConn c (sf_params sf) (GoFloat.widen (prob (sf_params sf))) (Some []) [])
    (DefState.WrapConn fuel (sf_base sf) tape startTime now d1 d2 w d3 net rf).
Definition Dial (args : wfganClientArgs) dialErr hour tape d1 d2 w net (ipt : list bytes) :=
  DefState.embed (fun c => mkConn c (ca_params args)
      (GoFloat.widen (prob (ca_params args))) None (ReadFloatFromFile ipt))
    (DefState.Dial fuel (ca_base args) dialErr hour tape d1 d2 w net).
End conns.

Section proofs.
Context `{SipHash} `{Curve25519Laws} `{Elligator} `{PtArgsLaws}.

(** A client whose certificate is malformed does not get an error: with
    well-formed parameters, [ParseArgs] panics. *)
Lemma wfgan_bad_certificate args e w :
  ObfsState.server_identity args = Err e ->
  is_Some (Get tolArg args ≫= FloatText.ParseFloat FloatText.binary64) ->
  is_Some (Get pArg args ≫= FloatText.ParseFloat FloatText.binary64) ->
  (ParseArgs args w).1 = Panic "interface conversion: interface is nil".
Proof.
  intros Hid [v0 H0'] [v1 H1']. unfold ParseArgs. mrun.
  rewrite (DefState.ParseArgs_no_identity _ _ _ Hid).
  unfold GetIntArgFromStr, GetFloatArgFromStr, required.
  destruct (Get tolArg args); [|done]. cbn [mbind option_bind] in H0'. rewrite H0'. mrun.
  destruct (Get pArg args); [|done]. cbn [mbind option_bind] in H1'. rewrite H1'. mrun.
  done.
Qed.

(** The bridge line rounds to one decimal: a client that follows it runs with
    another probability than its server. *)
Lemma bridge_line_rounds :
  let x := S754_finite false 8388608 (-25) in
  FloatText.ParseFloat FloatText.binary32 (str "0.25") = Some x
  /\ clientString (mkState None (mkParams (GoFloat.f32_of_Z 1) x))
     = str "cert=<nil> tol=1.0 p=0.2".
Proof. split; vm_compute; reflexivity. Qed.
End proofs.
End WfganState.
