(* ===== verification/RegulatorState.v ===== *)
(** * Configuration of regulator

    [transports/regulator/statefile.go] and the factories of [regulator.go]: the
    parameters of the defense on top of the identity of [DefState.v]. *)
From S2P Require Import Prelude GoStd Rand Drbg Framing ReplayFilter Packet Ntor Obfs4 DefConn Args GoFloat GoText ObfsState DefState Cells Regulator.

Module RegulatorState.
Import Env ArgUtils.
Definition rArg : bytes := str "r".
Definition dArg : bytes := str "d".
Definition tArg : bytes := str "t".
Definition nArg : bytes := str "n".
Definition uArg : bytes := str "u".
Definition cArg : bytes := str "c".
#[global] Arguments rArg : simpl never.
#[global] Arguments dArg : simpl never.
#[global] Arguments tArg : simpl never.
#[global] Arguments nArg : simpl never.
#[global] Arguments uArg : simpl never.
#[global] Arguments cArg : simpl never.

(** The parameters are those of the machines of [Regulator.v]. *)
Definition params : Type := Regulator.params.
Record jsonServerState := mkJson { js_base : DefState.JsonServerState; js_params : params }.
(** The embedded identity is [None] where the code leaves its zero value. *)
Record regulatorServerState := mkState {
  base : option DefState.DefConnServerState; st_params : params
}.

Definition json_fields (js : jsonServerState) : list (bytes * Json.value) :=
  let p := js_params js in
  DefState.json_fields (js_base js)
  ++ [(rArg, Json.JInt (Regulator.r p));
      (dArg, Json.of_float FloatText.binary32 (Regulator.d p));
      (tArg, Json.of_float FloatText.binary32 (Regulator.t p));
      (nArg, Json.JInt (Regulator.n p));
      (uArg, Json.of_float FloatText.binary32 (Regulator.u p));
      (cArg, Json.of_float FloatText.binary32 (Regulator.c p))].

Definition clientString (st : regulatorServerState) : bytes :=
  let p := st_params st in
  DefState.ClientString (base st)
  ++ rArg ++ str "=" ++ Atoi.Itoa (Regulator.r p) ++ str " "
  ++ dArg ++ str "=" ++ FloatText.fixed 2 (Regulator.d p) ++ str " "
  ++ tArg ++ str "=" ++ FloatText.fixed 2 (Regulator.t p) ++ str " "
  ++ nArg ++ str "=" ++ Atoi.Itoa (Regulator.n p) ++ str " "
  ++ uArg ++ str "=" ++ FloatText.fixed 2 (Regulator.u p) ++ str " "
  ++ cArg ++ str "=" ++ FloatText.fixed 2 (Regulator.c p).

Section server.
Context `{SipHash} `{Curve25519} `{Elligator} `{PtArgsGet}.

(** The error of the identity is overwritten by the next assignment to [err]. *)
Definition serverStateFromJSONServerState (js : jsonServerState) : S regulatorServerState :=
  st ← attempt (DefState.ServerStateFromJsonServerStateInternal (js_base js));
  let p := js_params js in
  if (Regulator.r p <=? 0) || (Regulator.n p <=? 0) then fail (Invalid rArg)
  else if le_zero (Regulator.d p) || le_zero (Regulator.t p) || le_zero (Regulator.u p)
          || le_zero (Regulator.c p) then fail (Invalid dArg)
  else
    let st := mkState st p in
    _ ← DefState.NewBridgeFile (clientString st);
    _ ← DefState.WriteJSONServerState (json_fields js);
    mret st.

Definition serverStateFromArgs (args : Args) : S regulatorServerState :=
  js ← DefState.ServerStateFromArgsInternal args;
  r ← required (Atoi.ParseInt 32) rArg args;
  d ← required (FloatText.ParseFloat FloatText.binary32) dArg args;
  t ← required (FloatText.ParseFloat FloatText.binary32) tArg args;
  n ← required (Atoi.ParseInt 32) nArg args;
  u ← required (FloatText.ParseFloat FloatText.binary32) uArg args;
  c ← required (FloatText.ParseFloat FloatText.binary32) cArg args;
  serverStateFromJSONServerState (mkJson js (Regulator.mkParams r d t n u c)).

Record regulatorServerFactory := mkServerFactory {
  sf_base : DefState.DefConnServerFactory; sf_params : params
}.

Definition ServerFactory (fuel : nat) (args : Args) : S regulatorServerFactory :=
  sf ← DefState.ServerFactory fuel args;
  st ← serverStateFromArgs args;
  mret (mkServerFactory sf (st_params st)).

Record regulatorClientArgs := mkClientArgs {
  ca_base : DefState.DefConnClientArgs; ca_params : params
}.

(** The error of the embedded factory is overwritten too; asserting the type
    of the [nil] that came with it panics. *)
Definition ParseArgs (args : Args) : S regulatorClientArgs :=
  arguments ← attempt (DefState.ParseArgs args);
  r ← GetIntArgFromStr rArg args;
  d ← GetFloatArgFromStr dArg args;
  t ← GetFloatArgFromStr tArg args;
  n ← GetIntArgFromStr nArg args;
  u ← GetFloatArgFromStr uArg args;
  c ← GetFloatArgFromStr cArg args;
  match arguments with
  | Some a => mret (mkClientArgs a
      (Regulator.mkParams (i32 r) (narrow d) (narrow t) (i32 n) (narrow u) (narrow c)))
  | None => panic "interface conversion: interface is nil"
  end.
End server.

(** The surge has not started and the channels are empty. *)
Record regulatorConn := mkConn { conn : DefState.DefConnConn; c_params : params;
  t0 : Z; sendChan : list Packet.packet; paddingChan : list bool }.

Section conns.
Context `{SipHash} `{SecretBox} `{Curve25519} `{Elligator} `{Hkdf} `{PtArgsGet} (fuel : nat).
Definition WrapConn (sf : regulatorServerFactory) tape startTime now d1 d2 w d3 net rf :=
  DefState.embed (fun c => mkConn c (sf_params sf) 0 [] [])
    (DefState.WrapConn fuel (sf_base sf) tape startTime now d1 d2 w d3 net rf).
Definition Dial (args : regulatorClientArgs) dialErr hour tape d1 d2 w net :=
  DefState.embed (fun c => mkConn c (ca_params args) 0 [] [])
    (DefState.Dial fuel (ca_base args) dialErr hour tape d1 d2 w net).
End conns.

Section proofs.
Context `{SipHash} `{Curve25519Laws} `{Elligator} `{PtArgsLaws}.

(** A client whose certificate is malformed does not get an error: with
    well-formed parameters, [ParseArgs] panics. *)
Lemma regulator_bad_certificate args e w :
  ObfsState.server_identity args = Err e ->
  is_Some (Get rArg args ≫= Atoi.Atoi) ->
  is_Some (Get dArg args ≫= FloatText.ParseFloat FloatText.binary64) ->
  is_Some (Get tArg args ≫= FloatText.ParseFloat FloatText.binary64) ->
  is_Some (Get nArg args ≫= Atoi.Atoi) ->
  is_Some (Get uArg args ≫= FloatText.ParseFloat FloatText.binary64) ->
  is_Some (Get cArg args ≫= FloatText.ParseFloat FloatText.binary64) ->
  (ParseArgs args w).1 = Panic "interface conversion: interface is nil".
Proof.
  intros Hid [v0 H0'] [v1 H1'] [v2 H2'] [v3 H3'] [v4 H4'] [v5 H5']. unfold ParseArgs. mrun.
  rewrite (DefState.ParseArgs_no_identity _ _ _ Hid).
  unfold GetIntArgFromStr, GetFloatArgFromStr, required.
  destruct (Get rArg args); [|done]. cbn [mbind option_bind] in H0'. rewrite H0'. mrun.
  destruct (Get dArg args); [|done]. cbn [mbind option_bind] in H1'. rewrite H1'. mrun.
  destruct (Get tArg args); [|done]. cbn [mbind option_bind] in H2'. rewrite H2'. mrun.
  destruct (Get nArg args); [|done]. cbn [mbind option_bind] in H3'. rewrite H3'. mrun.
  destruct (Get uArg args); [|done]. cbn [mbind option_bind] in H4'. rewrite H4'. mrun.
  destruct (Get cArg args); [|done]. cbn [mbind option_bind] in H5'. rewrite H5'. mrun.
  done.
Qed.

Definition positive (x : spec_float) : Prop := exists m e, x = S754_finite false m e.

Lemma supported_positive f x :
  Json.supported (Json.of_float f x) = true -> le_zero x = false -> positive x.
Proof. destruct x as [[]|[]| |[] m e]; cbn; try done. intros. by eexists _, _. Qed.

(** A server that has started runs with positive rates and budgets and with
    positive finite numbers, although the checks let NaN pass and infinities
    too: the state file cannot hold them. *)
Lemma started_params fuel args w sf w' :
  ServerFactory fuel args w = (Ok sf, w') ->
  let p := sf_params sf in
  0 < Regulator.r p < 2 ^ 31 /\ 0 < Regulator.n p < 2 ^ 31
  /\ positive (Regulator.d p) /\ positive (Regulator.t p) /\ positive (Regulator.u p)
  /\ positive (Regulator.c p).
Proof.
  unfold ServerFactory. intros E. apply ObfsState.bind_inv in E as (sf0 & w1 & _ & E).
  apply ObfsState.bind_inv in E as (st & w2 & E1 & E). mrun_in E. injection E as <- _.
  cbn [sf_params]. unfold serverStateFromArgs in E1.
  apply ObfsState.bind_inv in E1 as (js & ? & _ & E1).
  apply ObfsState.bind_inv in E1 as (r & ? & Hr & E1).
  apply ObfsState.bind_inv in E1 as (d & ? & _ & E1).
  apply ObfsState.bind_inv in E1 as (t & ? & _ & E1).
  apply ObfsState.bind_inv in E1 as (n & ? & Hn & E1).
  apply ObfsState.bind_inv in E1 as (u & ? & _ & E1).
  apply ObfsState.bind_inv in E1 as (c & ? & _ & E1).
  assert (H31 : forall name v a b, required (Atoi.ParseInt 32) name args a = (Ok v, b) -> v < 2 ^ 31).
  { intros name v a b. unfold required, Atoi.ParseInt.
    destruct (Get name args) as [s|]; [|done]. destruct (Atoi.signed s) as [z|]; [|done].
    cbn [mbind option_bind]. destruct (_ <=? z); destruct (z <? _) eqn:Ez; try done.
    cbn. mrun. intros. simplify_eq. by b2p. }
  apply H31 in Hr, Hn. unfold serverStateFromJSONServerState in E1.
  apply ObfsState.bind_inv in E1 as (b & ? & _ & E1).
  cbn [js_params Regulator.r Regulator.d Regulator.t Regulator.n Regulator.u Regulator.c] in E1.
  destruct (r <=? 0) eqn:?, (n <=? 0) eqn:?; try done. cbn [orb] in E1.
  destruct (le_zero d) eqn:?, (le_zero t) eqn:?, (le_zero u) eqn:?, (le_zero c) eqn:?; try done.
  apply ObfsState.bind_inv in E1 as ([] & ? & _ & E1).
  apply ObfsState.bind_inv in E1 as ([] & ? & Hw & E1). mrun_in E1. injection E1 as <- _.
  unfold DefState.WriteJSONServerState, write_json, Json.Marshal in Hw.
  destruct (forallb _ _) eqn:Hs; [|done]. unfold json_fields in Hs.
  cbn [forallb DefState.json_fields app snd Json.supported js_params andb st_params] in Hs.
  repeat (apply andb_true_iff in Hs as [? Hs]). b2p. cbn [st_params].
  cbn [Regulator.r Regulator.d Regulator.t Regulator.n Regulator.u Regulator.c] in *.
  repeat split; try lia; by eapply supported_positive.
Qed.

(** [float32 (strconv.ParseFloat (s, 64))] of a client is not the
    [strconv.ParseFloat (s, 32)] of a server: rounding twice may end elsewhere. *)
Lemma double_rounding :
  let s := str "1.000000059604644775390626" in
  (narrow <$> FloatText.ParseFloat FloatText.binary64 s) <> FloatText.ParseFloat FloatText.binary32 s.
Proof. vm_compute. discriminate. Qed.
End proofs.
End RegulatorState.
