(* ===== verification/RandomwtState.v ===== *)
(** * State file and factories of randomwt

    [transports/randomwt/statefile.go] and the factories of [randomwt.go]: the
    set-up code of obfs4 once more, with the numbers of Walkie-Talkie's bursts
    in the place of the mode. *)
From S2P Require Import Prelude GoStd Rand Drbg Framing ProbDist ReplayFilter Packet Ntor Handshake Obfs4 Args Links Randomwt GoFloat GoText ObfsState DefState.

Module RandomwtState.
Import Env ArgUtils.
Definition nodeIDArg : bytes := ObfsState.nodeIDArg.
Definition publicKeyArg : bytes := ObfsState.publicKeyArg.
Definition privateKeyArg : bytes := ObfsState.privateKeyArg.
Definition seedArg : bytes := ObfsState.seedArg.
Definition certArg : bytes := ObfsState.certArg.
Definition nClientRealArg : bytes := str "n-client-real".
Definition nServerRealArg : bytes := str "n-server-real".
Definition nClientFakeArg : bytes := str "n-client-fake".
Definition nServerFakeArg : bytes := str "n-server-fake".
Definition pFakeArg : bytes := str "p-fake".
#[global] Arguments nClientRealArg : simpl never.
#[global] Arguments nServerRealArg : simpl never.
#[global] Arguments nClientFakeArg : simpl never.
#[global] Arguments nServerFakeArg : simpl never.
#[global] Arguments pFakeArg : simpl never.

(** The burst numbers are those of [Randomwt.v]. *)
Record params := mkParams { bursts : Randomwt.config; pFake : spec_float }.
Definition ints (p : params) : Z * Z * Z * Z :=
  (Randomwt.nClientReal (bursts p), Randomwt.nServerReal (bursts p),
   Randomwt.nClientFake (bursts p), Randomwt.nServerFake (bursts p)).

Record jsonServerState := mkJson {
  NodeID : bytes; PrivateKey : bytes; PublicKey : bytes; DrbgSeed : bytes;
  NClientReal : Z; NServerReal : Z; NClientFake : Z; NServerFake : Z; PFake : spec_float
}.
Definition json_fields (js : jsonServerState) : list (bytes * Json.value) :=
  [(nodeIDArg, Json.JString (NodeID js)); (privateKeyArg, Json.JString (PrivateKey js));
   (publicKeyArg, Json.JString (PublicKey js)); (seedArg, Json.JString (DrbgSeed js));
   (nClientRealArg, Json.JInt (NClientReal js)); (nServerRealArg, Json.JInt (NServerReal js));
   (nClientFakeArg, Json.JInt (NClientFake js)); (nServerFakeArg, Json.JInt (NServerFake js));
   (pFakeArg, Json.of_float FloatText.binary64 (PFake js))].
Definition json_set (key : bytes) (v : Json.value) (js : jsonServerState) : option jsonServerState :=
  let '(mkJson id priv pub seed cr sr cf sf pf) := js in
  if bool_decide (key = nodeIDArg) then
    id ← Json.to_string v id; Some (mkJson id priv pub seed cr sr cf sf pf)
  else if bool_decide (key = privateKeyArg) then
    priv ← Json.to_string v priv; Some (mkJson id priv pub seed cr sr cf sf pf)
  else if bool_decide (key = publicKeyArg) then
    pub ← Json.to_string v pub; Some (mkJson id priv pub seed cr sr cf sf pf)
  else if bool_decide (key = seedArg) then
    seed ← Json.to_string v seed; Some (mkJson id priv pub seed cr sr cf sf pf)
  else if bool_decide (key = nClientRealArg) then
    cr ← Json.to_int v cr; Some (mkJson id priv pub seed cr sr cf sf pf)
  else if bool_decide (key = nServerRealArg) then
    sr ← Json.to_int v sr; Some (mkJson id priv pub seed cr sr cf sf pf)
  else if bool_decide (key = nClientFakeArg) then
    cf ← Json.to_int v cf; Some (mkJson id priv pub seed cr sr cf sf pf)
  else if bool_decide (key = nServerFakeArg) then
    sf ← Json.to_int v sf; Some (mkJson id priv pub seed cr sr cf sf pf)
  else if bool_decide (key = pFakeArg) then
    pf ← Json.to_float64 v pf; Some (mkJson id priv pub seed cr sr cf sf pf)
  else Some js.

Definition cert_String : bytes -> bytes := ServerCert.String.
Definition unpack : bytes -> result error (Ntor.NodeID * Ntor.PublicKey) := ServerCert.unpack.
Definition serverCertFromString : bytes -> result error bytes := ServerCert.serverCertFromString.
Definition serverCertFromState : Ntor.NodeID -> Ntor.Keypair -> bytes :=
  ServerCert.serverCertFromState.

Record randomwtServerState := mkState {
  nodeID : Ntor.NodeID; identityKey : Ntor.Keypair; drbgSeed : bytes; st_params : params;
  cert : bytes
}.

Definition setting (name v : bytes) : bytes := name ++ str "=" ++ v.
Definition clientString (st : randomwtServerState) : bytes :=
  let '(cr, sr, cf, sf) := ints (st_params st) in
  NetIP.join (str " ")
    [setting certArg (cert_String (cert st)); setting nClientRealArg (Atoi.Itoa cr);
     setting nServerRealArg (Atoi.Itoa sr); setting nClientFakeArg (Atoi.Itoa cf);
     setting nServerFakeArg (Atoi.Itoa sf);
     setting pFakeArg (FloatText.fixed 1 (pFake (st_params st)))].

Definition nl : bytes := [Byte.x0a].
Definition bridge_prefix : bytes :=
  str "# randomwt torrc client bridge line" ++ nl ++ str "#" ++ nl
  ++ str "# This file is an automatically generated bridge line based on" ++ nl
  ++ str "# the current randomwtproxy configuration.  EDITING IT WILL HAVE" ++ nl
  ++ str "# NO EFFECT." ++ nl ++ str "#" ++ nl
  ++ str "# Before distributing this Bridge, edit the placeholder fields" ++ nl
  ++ str "# to contain the actual values:" ++ nl
  ++ str "#  <IP ADDRESS>  - The public IP address of your randomwt bridge." ++ nl
  ++ str "#  <PORT>        - The TCP/IP port of your randomwt bridge." ++ nl
  ++ str "#  <FINGERPRINT> - The bridge's fingerprint." ++ nl ++ nl.
Definition newBridgeFile (st : randomwtServerState) : S unit :=
  write_bridge (Text (bridge_prefix ++ str "Bridge randomwt <IP ADDRESS>:<PORT> <FINGERPRINT> "
                      ++ clientString st ++ nl)).

Section server.
Context `{SipHash} `{Curve25519} `{Elligator} `{PtArgsGet}.

Definition writeJSONServerState (js : jsonServerState) : S unit := write_json (json_fields js).

Definition newJSONServerState (js : jsonServerState) : S jsonServerState :=
  rawID ← draw EntropyError (Csrand.Bytes Ntor.NodeIDLength);
  id ← as_error NtorError (Ntor.NewNodeID rawID);
  key ← draw NtorError (Ntor.NewKeypair false);
  seed ← draw SeedError Drbg.NewSeed;
  let js := mkJson (Ntor.key_Hex id) (Ntor.key_Hex (Ntor.private key))
              (Ntor.key_Hex (Ntor.public key)) (Drbg.SeedHex seed)
              (NClientReal js) (NServerReal js) (NClientFake js) (NServerFake js) (PFake js) in
  _ ← writeJSONServerState js; mret js.

Definition jsonServerStateFromFile : jsonServerState -> S jsonServerState :=
  read_json json_set newJSONServerState.

Definition serverStateFromJSONServerState (js : jsonServerState) : S randomwtServerState :=
  id ← as_error NtorError (Ntor.NodeIDFromHex (NodeID js));
  key ← as_error NtorError (Ntor.KeypairFromHex (PrivateKey js));
  seed ← as_error SeedError (Drbg.SeedFromHex (DrbgSeed js));
  if (NClientReal js <? 0) || (NServerReal js <? 0) || (NClientFake js <? 0) || (NServerFake js <? 0)
  then fail (Invalid nClientRealArg)
  else if lt_zero (PFake js) || GoFloat.fltb (MathRand.one) (PFake js) then fail (Invalid pFakeArg)
  else
    let p := mkParams (Randomwt.mkConfig (NClientReal js) (NServerReal js) (NClientFake js)
                         (NServerFake js)) (PFake js) in
    let st := mkState id key seed p (serverCertFromState id key) in
    _ ← newBridgeFile st; _ ← writeJSONServerState js; mret st.

Definition serverStateFromArgs (args : Args) : S randomwtServerState :=
  let id := Get nodeIDArg args in
  let priv := Get privateKeyArg args in
  let seed := Get seedArg args in
  let js := mkJson (default [] id) (default [] priv) [] (default [] seed) 0 0 0 0 (S754_zero false) in
  js ← match priv, id, seed with
       | None, None, None => jsonServerStateFromFile js
       | None, _, _ => fail (MissingArg privateKeyArg)
       | _, None, _ => fail (MissingArg nodeIDArg)
       | _, _, None => fail (MissingArg seedArg)
       | Some _, Some _, Some _ => mret js
       end;
  js ← match Get nClientRealArg args, Get nServerRealArg args, Get nClientFakeArg args,
             Get nServerFakeArg args with
       | Some crStr, Some srStr, Some cfStr, Some sfStr =>
           match Atoi.Atoi crStr, Atoi.Atoi srStr, Atoi.Atoi cfStr, Atoi.Atoi sfStr with
           | None, _, _, _ => fail (Malformed nClientRealArg)
           | _, None, _, _ => fail (Malformed nServerRealArg)
           | _, _, None, _ => fail (Malformed nClientFakeArg)
           | _, _, _, None => fail (Malformed nServerFakeArg)
           | Some cr, Some sr, Some cf, Some sf =>
               mret (mkJson (NodeID js) (PrivateKey js) (PublicKey js) (DrbgSeed js)
                       cr sr cf sf (PFake js))
           end
       | _, _, _, _ => fail (MissingArg nClientRealArg)
       end;
  pFake ← required (FloatText.ParseFloat FloatText.binary64) pFakeArg args;
  serverStateFromJSONServerState
    (mkJson (NodeID js) (PrivateKey js) (PublicKey js) (DrbgSeed js)
       (NClientReal js) (NServerReal js) (NClientFake js) (NServerFake js) pFake).

Record randomwtServerFactory := mkServerFactory {
  sf_args : Args; sf_nodeID : Ntor.NodeID; sf_identityKey : Ntor.Keypair; lenSeed : bytes;
  sf_params : params; replayFilter : ReplayFilter.ReplayFilter; closeDelay : Z
}.

Definition ServerFactory (fuel : nat) (args : Args) : S randomwtServerFactory :=
  st ← serverStateFromArgs args;
  let '(cr, sr, cf, sf) := ints (st_params st) in
  let ptArgs := Add certArg (cert_String (cert st)) make_Args in
  let ptArgs := Add nClientRealArg (Atoi.Itoa cr) ptArgs in
  let ptArgs := Add nServerRealArg (Atoi.Itoa sr) ptArgs in
  let ptArgs := Add nClientFakeArg (Atoi.Itoa cf) ptArgs in
  let ptArgs := Add nServerFakeArg (Atoi.Itoa sf) ptArgs in
  let ptArgs := Add pFakeArg
    (FloatText.FormatShortest FloatText.binary64 (pFake (st_params st))) ptArgs in
  filter ← draw EntropyError (ReplayFilter.New ObfsState.replayTTL);
  delay ← ObfsState.close_delay fuel (drbgSeed st);
  mret (mkServerFactory ptArgs (nodeID st) (identityKey st) (drbgSeed st) (st_params st)
          filter delay).

Record randomwtClientArgs := mkClientArgs {
  ca_nodeID : Ntor.NodeID; ca_publicKey : Ntor.PublicKey; ca_sessionKey : Ntor.Keypair;
  ca_params : params
}.

(** Asserting the type of what [ParseArgByKey] returned. *)
Definition as_int (a : arg) : S Z :=
  match a with IntArg v => mret v | FloatArg _ => panic "interface conversion" end.
Definition as_float (a : arg) : S spec_float :=
  match a with FloatArg v => mret v | IntArg _ => panic "interface conversion" end.

Definition ParseArgs (args : Args) : S randomwtClientArgs :=
  identity ← as_error id (ObfsState.server_identity args);
  nClientReal ← ParseArgByKey args nClientRealArg (str "int");
  nServerReal ← ParseArgByKey args nServerRealArg (str "int");
  nClientFake ← ParseArgByKey args nClientFakeArg (str "int");
  nServerFake ← ParseArgByKey args nServerFakeArg (str "int");
  pFake ← ParseArgByKey args pFakeArg (str "float64");
  sessionKey ← draw NtorError (Ntor.NewKeypair true);
  cr ← as_int nClientReal; sr ← as_int nServerReal;
  cf ← as_int nClientFake; sf ← as_int nServerFake; pf ← as_float pFake;
  mret (mkClientArgs identity.1 identity.2 sessionKey (mkParams (Randomwt.mkConfig cr sr cf sf) pf)).
End server.

(** *** Connections *)
Section conns.
Context `{SipHash} `{SecretBox} `{Curve25519} `{Elligator} `{Hkdf} `{PtArgsGet} (fuel : nat).
Abbreviation net_error := (option Packet.net_error).

Record randomwtConn := mkConn {
  c_app : Randomwt.app; c_params : params; c_link : option Obfs4.link
}.

Definition new_app (isServer : bool) (seed : bytes) : result error Randomwt.app :=
  match ProbDist.New fuel seed 0 Framing.MaximumSegmentLength false with
  | Ok lenDist => Ok (Randomwt.mkApp isServer lenDist Randomwt.stateStop [] [])
  | Err e => Err (SeedError e)
  | Panic p => Panic p
  end.

Definition newRandomwtClientConn (args : randomwtClientArgs) (hour : Z) (tape : bytes)
    (deadline1 deadline2 : net_error) (writeErr : Links.write_result)
    (net : list (bytes * net_error))
  : option (result error randomwtConn) * list bytes :=
  match Drbg.NewSeed tape with
  | (Err e, _) => (Some (Err (SeedError e)), [])
  | (Panic p, _) => (Some (Panic p), [])
  | (Ok seed, tape) =>
      match new_app false seed, deadline1 with
      | Err e, _ => (Some (Err e), [])
      | Panic p, _ => (Some (Panic p), [])
      | _, Some e => (Some (Err (NetError e)), [])
      | Ok a, None =>
          let '(r, sent) := Randomwt.connClientHandshake false (ca_nodeID args)
            (ca_publicKey args) (ca_sessionKey args) hour tape writeErr net in
          (match r, deadline2 with
           | None, _ => None
           | Some (Err e), _ => Some (Err (LinkError e))
           | Some (Panic p), _ => Some (Panic p)
           | Some (Ok _), Some e => Some (Err (NetError e))
           | Some (Ok l), None => Some (Ok (mkConn a (ca_params args) (Some l)))
           end, sent)
      end
  end.

Definition Dial (args : randomwtClientArgs) (dialErr : net_error) (hour : Z) (tape : bytes)
    (deadline1 deadline2 : net_error) (writeErr : Links.write_result)
    (net : list (bytes * net_error))
  : option (result error randomwtConn) * (list bytes * bool) :=
  match dialErr with
  | Some e => (Some (Err (NetError e)), ([], false))
  | None =>
      let '(r, sent) := newRandomwtClientConn args hour tape deadline1 deadline2 writeErr net in
      (r, (sent, match r with Some (Err _) => true | _ => false end))
  end.

Definition closeAfterDelay := ObfsState.closeAfterDelay.

Definition WrapConn (sf : randomwtServerFactory) (tape : bytes) (startTime now : Z)
    (deadline1 deadline2 : net_error) (writeErr : Links.write_result) (deadline3 : net_error)
    (net : list (bytes * net_error * Z * Z)) (rf : ReplayFilter.ReplayFilter)
  : option (result error randomwtConn)
    * (list bytes * list ObfsState.action * ReplayFilter.ReplayFilter) :=
  match Ntor.NewKeypair true tape with
  | (Err e, _) => (Some (Err (NtorError e)), ([], [], rf))
  | (Panic p, _) => (Some (Panic p), ([], [], rf))
  | (Ok sessionKey, tape) =>
      match new_app true (lenSeed sf) with
      | Err e => (Some (Err e), ([], [], rf))
      | Panic p => (Some (Panic p), ([], [], rf))
      | Ok a =>
          let '(r, sent, rf) := Randomwt.connServerHandshake true (sf_nodeID sf)
            (sf_identityKey sf) sessionKey (lenSeed sf) tape deadline1 deadline2 writeErr net rf in
          match r with
          | None => (None, (sent, [], rf))
          | Some (Panic p) => (Some (Panic p), (sent, [], rf))
          | Some (Err e) => (Some (Err (LinkError e)),
              (sent, closeAfterDelay (closeDelay sf) startTime now deadline3, rf))
          | Some (Ok l) => (Some (Ok (mkConn a (sf_params sf) l)), (sent, [], rf))
          end
      end
  end.
End conns.

Section proofs.
Context `{SipHash} `{Curve25519Laws} `{Elligator} `{PtArgsLaws}.

Lemma Atoi_ok s v : Atoi.Atoi s = Some v -> Atoi.int_ok 64 v.
Proof.
  unfold Atoi.Atoi, Atoi.ParseInt. destruct (Atoi.signed s) as [z|]; [|done]. cbn.
  destruct (_ <=? z) eqn:?; destruct (z <? _) eqn:?; try done. cbn. intros. simplify_eq. by b2p.
Qed.

(** What a state that was accepted is made of. *)
Lemma wt_from_args_inv args w st w' :
  serverStateFromArgs args w = (Ok st, w') ->
  zlen (nodeID st) = Ntor.NodeIDLength /\ zlen (Ntor.public (identityKey st)) = Ntor.PublicKeyLength
  /\ cert st = serverCertFromState (nodeID st) (identityKey st)
  /\ let '(a, b, c, d) := ints (st_params st) in
     Atoi.int_ok 64 a /\ Atoi.int_ok 64 b /\ Atoi.int_ok 64 c /\ Atoi.int_ok 64 d.
Proof.
  unfold serverStateFromArgs. intros E. apply ObfsState.bind_inv in E as (js0 & w1 & _ & E).
  apply ObfsState.bind_inv in E as (js & w2 & E1 & E).
  apply ObfsState.bind_inv in E as (pf & w3 & _ & E).
  assert (Hi : Atoi.int_ok 64 (NClientReal js) /\ Atoi.int_ok 64 (NServerReal js)
            /\ Atoi.int_ok 64 (NClientFake js) /\ Atoi.int_ok 64 (NServerFake js)).
  { repeat (case_match; [|done]). mrun_in E1. simplify_eq. cbn.
    by repeat split; eapply Atoi_ok. }
  unfold serverStateFromJSONServerState in E.
  ObfsState.step E i. ObfsState.step E key. ObfsState.step E seed.
  repeat (case_match; [done|]).
  apply ObfsState.bind_inv in E as ([] & w5 & _ & E).
  apply ObfsState.bind_inv in E as ([] & w6 & _ & E). mrun_in E. simplify_eq. cbn.
  split; [by eapply ObfsState.id_length|]. split; [by eapply ObfsState.key_length|]. done.
Qed.

(** Look up the arguments in the goal. *)
Ltac get_args :=
  repeat match goal with
  | |- context [Get ?k (Add ?k _ _)] => rewrite (Get_Add k)
  | |- context [Get ?k (Add ?k' _ _)] => rewrite (Get_Add_ne k k') by discriminate
  | |- context [Get _ make_Args] => rewrite Get_make
  end; repeat change (default ?a None) with a.

Lemma draw_run {E A} (f : E -> error) (m : M bytes E A) w a t :
  m (tape w) = (Ok a, t) ->
  draw f m w = (Ok a, mkWorld t (state_file w) (bridge_file w) (outcomes w)).
Proof. unfold draw, on_part, map_err. by intros ->. Qed.

Lemma int_arg args k v w : Atoi.int_ok 64 v -> Get k args = Some (Atoi.Itoa v) ->
  ParseArgByKey args k (str "int") w = (Ok (IntArg v), w).
Proof. intros Hv Hk. unfold ParseArgByKey. rewrite Hk. cbn. by rewrite Atoi.Atoi_Itoa. Qed.

Lemma float_arg args k s x w : FloatText.ParseFloat FloatText.binary64 s = Some x ->
  Get k args = Some s -> ParseArgByKey args k (str "float64") w = (Ok (FloatArg x), w).
Proof.
  intros Hx Hk. unfold ParseArgByKey. rewrite Hk.
  change (bool_decide (map Strings.lower (str "float64") = str "int")) with false.
  change (bool_decide (map Strings.lower (str "float64") = str "float32")) with false.
  rewrite bool_decide_true by (by right). by rewrite Hx.
Qed.

(** The published arguments of a server give its clients its identity and its
    burst numbers, and the probability as its shortest decimal reads back. *)
Lemma randomwt_published fuel args w sf w' w1 key t x :
  ServerFactory fuel args w = (Ok sf, w') ->
  FloatText.ParseFloat FloatText.binary64
    (FloatText.FormatShortest FloatText.binary64 (pFake (sf_params sf))) = Some x ->
  Ntor.NewKeypair true (tape w1) = (Ok key, t) ->
  (ParseArgs (sf_args sf) w1).1 =
    Ok (mkClientArgs (sf_nodeID sf) (Ntor.public (sf_identityKey sf)) key
          (mkParams (bursts (sf_params sf)) x)).
Proof.
  unfold ServerFactory. intros E Hx Hkey.
  apply ObfsState.bind_inv in E as (st & w2 & E0 & E).
  apply wt_from_args_inv in E0 as (Hid & Hpub & Hcert & Hi).
  destruct (ints (st_params st)) as [[[cr sr] cf] sf0] eqn:Ei.
  apply ObfsState.bind_inv in E as (rf & w3 & _ & E).
  apply ObfsState.bind_inv in E as (dl & w4 & _ & E). mrun_in E. injection E as <- _.
  cbn [sf_params] in Hx. cbn [sf_args sf_nodeID sf_identityKey sf_params].
  destruct Hi as (Hc & Hs & Hcf & Hsf).
  assert (Hident : forall a, Get certArg a = Some (cert_String (cert st)) ->
    ObfsState.server_identity a = Ok (nodeID st, Ntor.public (identityKey st))).
  { intros a Ha. unfold ObfsState.server_identity. change ObfsState.certArg with certArg.
    rewrite Ha, Hcert. unfold cert_String, serverCertFromState, ServerCert.serverCertFromState.
    rewrite ServerCert.cert_roundtrip by done. change (Ok ?x ≫= ?f) with (f x). cbn beta.
    by apply ServerCert.unpack_cert. }
  unfold ParseArgs. rewrite Hident by (by get_args). mrun. cbn [as_error]. mrun.
  rewrite (int_arg _ _ cr), (int_arg _ _ sr), (int_arg _ _ cf), (int_arg _ _ sf0)
    by (done || by get_args).
  rewrite (float_arg _ _ _ x _ Hx) by (by get_args). rewrite (draw_run _ _ _ _ _ Hkey). cbn.
  destruct st as [? ? ? [[? ? ? ?] ?] ?]. unfold ints in Ei. cbn in Ei |- *. by simplify_eq.
Qed.
End proofs.
End RandomwtState.
