(* ===== verification/Obfs2.v ===== *)
(** * obfs2: [transports/obfs2]

    Each side sends a seed and, under a key that the seed gives, a magic value and
    padding; the keys of the session come from both seeds.  Nothing is secret: the
    transport hides the protocol from one who does not know it. *)
From S2P Require Import Prelude GoStd Rand Packet Args GoNet GoFloat GoText GoCrypto ObfsState.

Module Obfs2.

Definition transportName : bytes := str "obfs2".
Definition sharedSecretArg : bytes := str "shared-secret".
Definition magicValue : Z := 0x2bf5ca7e.
Definition initiatorPadString : bytes := str "Initiator obfuscation padding".
Definition responderPadString : bytes := str "Responder obfuscation padding".
Definition initiatorKdfString : bytes := str "Initiator obfuscated data".
Definition responderKdfString : bytes := str "Responder obfuscated data".
Definition maxPadding : Z := 8192.
Definition keyLen : Z := 16.
Definition seedLen : Z := 16.
Definition hsLen : Z := 4 + 4.

Inductive error :=
| NetErr (e : GoNet.error)
| KeySizeError
| InvalidMagic (m : Z)
| PadLenTooLong (n : Z).

Record conn := mkConn {
  net : GoNet.sock;
  isInitiator : bool;
  rx : option Ctr.Stream;
  tx : option Ctr.Stream
}.
Definition set_net (n : GoNet.sock) (c : conn) := mkConn n (isInitiator c) (rx c) (tx c).
Definition set_rx (s : Ctr.Stream) (c : conn) := mkConn (net c) (isInitiator c) (Some s) (tx c).
Definition set_tx (s : Ctr.Stream) (c : conn) := mkConn (net c) (isInitiator c) (rx c) (Some s).
Definition Close (c : conn) : conn := set_net (GoNet.Close (net c)) c.

Definition mac (s x : bytes) : bytes := Sha256.Sum256 (s ++ x ++ s).
(** The key and the initial counter; [isInitiator] is not used. *)
Definition hsKdf (magic seed : bytes) (isInitiator : bool) : bytes * bytes :=
  let m := mac magic seed in (ztake keyLen m, zdrop keyLen m).
Definition padString (init : bool) : bytes := if init then initiatorPadString else responderPadString.
Definition kdfString (init : bool) : bytes := if init then initiatorKdfString else responderKdfString.

Section obfs2.
Context `{BlockCipher} (netWrite : list bytes -> bytes -> option GoNet.net_error).
Abbreviation C := (IO conn error).

Definition on_net {A} : IO GoNet.sock GoNet.error A -> C A := GoNet.lift_net net set_net NetErr.
Definition pure {A} (r : result error A) : C A := fun c => Some (r, c).
Definition newCipher (kv : bytes * bytes) : C Ctr.Stream :=
  pure (if valid_key kv.1 then Ok (Ctr.NewCTR kv.1 kv.2) else Err KeySizeError).
Definition nil_pointer {A} : C A := pure (Panic "nil pointer dereference").

(** [conn.rx.Read], [io.ReadFull (conn, ..)] and [conn.tx.Write]. *)
Definition with_rx {A} (m : IO (Ctr.Stream * GoNet.sock) GoNet.error A) : C A := fun c =>
  match rx c with
  | None => nil_pointer c
  | Some st => GoNet.lift_net (fun c => (st, net c)) (fun '(st, k) c => set_rx st (set_net k c)) NetErr m c
  end.
Definition with_tx {A} (m : IO (Ctr.Stream * GoNet.sock) GoNet.error A) : C A := fun c =>
  match tx c with
  | None => nil_pointer c
  | Some st => GoNet.lift_net (fun c => (st, net c)) (fun '(st, k) c => set_tx st (set_net k c)) NetErr m c
  end.
Definition Read (n : Z) : C (bytes * option GoNet.net_error) := with_rx (CipherIO.Read n).
Definition Write (b : bytes) : C unit := with_tx (CipherIO.Write netWrite b).

(** The first half of [handshake]: the seed, then
    [E(PAD_KEY, MAGIC_VALUE | PADLEN | WR(PADLEN))]. *)
Definition hello : C bytes :=
  seed ← on_net (GoNet.random (Csrand.Bytes seedLen));
  init ← run (gets isInitiator);
  padLen ← on_net (GoNet.random (Csrand.IntRange 0 maxPadding));
  pad ← (if padLen >? 0 then on_net (GoNet.random (Csrand.Bytes padLen)) else mret []);
  txStream ← newCipher (hsKdf (padString init) seed init);
  _ ← run (modify (set_tx txStream));
  _ ← on_net (GoNet.Write netWrite seed);
  _ ← Write (be_encode 4 magicValue ++ be_encode 4 (u32 padLen) ++ pad);
  mret seed.

Definition kdf (seed peerSeed : bytes) : C unit :=
  init ← run (gets isInitiator);
  let combSeed := if init : bool then seed ++ peerSeed else peerSeed ++ seed in
  initStream ← newCipher (hsKdf initiatorKdfString combSeed true);
  respStream ← newCipher (hsKdf responderKdfString combSeed false);
  run (modify (fun c => if isInitiator c then set_rx respStream (set_tx initStream c)
                        else set_rx initStream (set_tx respStream c))).

Definition handshake : C unit :=
  seed ← hello;
  peerSeed ← on_net (GoNet.ReadFull seedLen);
  init ← run (gets isInitiator);
  rxStream ← newCipher (hsKdf (padString (negb init)) peerSeed (negb init));
  _ ← run (modify (set_rx rxStream));
  hsHdr ← with_rx (CipherIO.ReadFull hsLen);
  let peerMagic := be_decode (ztake 4 hsHdr) in
  let padLen := be_decode (ztake 4 (zdrop 4 hsHdr)) in
  if negb (peerMagic =? magicValue) then pure (Err (InvalidMagic peerMagic))
  else if padLen >? maxPadding then pure (Err (PadLenTooLong padLen))
  else
    _ ← on_net (GoNet.ReadFull padLen);
    kdf seed peerSeed.

(** [newObfs2ClientConn] and [newObfs2ServerConn]; [d1] and [d2] are what the
    two [SetDeadline]s return. *)
Definition newConn (initiator : bool) (d1 d2 : option GoNet.net_error) (k : GoNet.sock)
  : option (result error unit * conn) :=
  (_ ← on_net (GoNet.deadline d1);
   _ ← handshake;
   on_net (GoNet.deadline d2)) (mkConn k initiator None None).
Definition newObfs2ClientConn := newConn true.
Definition newObfs2ServerConn := newConn false.

Fixpoint Writes (ms : list bytes) : C unit :=
  match ms with [] => mret tt | m :: ms => _ ← Write m; Writes ms end.
(** Calls of [Read] in a row until one blocks or fails: what was read, and whether
    all calls returned. *)
Fixpoint Reads (ns : list Z) (c : conn) : list bytes * option (result error unit) :=
  match ns with
  | [] => ([], Some (Ok tt))
  | n :: ns =>
      match Read n c with
      | None => ([], None)
      | Some (Ok (rd, None), c) => let '(l, r) := Reads ns c in (rd :: l, r)
      | Some (Ok (rd, Some e), c) => ([rd], Some (Err (NetErr (GoNet.NetError e))))
      | Some (Err e, _) => ([], Some (Err e))
      | Some (Panic w, _) => ([], Some (Panic w))
      end
  end.

(** ** The factories *)
Inductive args_error := UnsupportedArgument.
Section args.
Context `{PtArgsGet}.
Definition validateArgs (args : Args) : result args_error unit :=
  match Get sharedSecretArg args with Some _ => Err UnsupportedArgument | None => Ok tt end.
(** [ServerFactory] and [ParseArgs] only validate. *)
Definition ServerFactory := validateArgs.
Definition ParseArgs := validateArgs.
End args.

Inductive dial_error := DialFnError (e : GoNet.net_error) | ConnError (e : error).
Definition Dial (dialed : result GoNet.net_error GoNet.sock) (d1 d2 : option GoNet.net_error)
  : option (result dial_error unit * option conn) :=
  match dialed with
  | Err e => Some (Err (DialFnError e), None)
  | Panic w => Some (Panic w, None)
  | Ok k =>
      match newObfs2ClientConn d1 d2 k with
      | None => None
      | Some (Ok _, c) => Some (Ok tt, Some c)
      | Some (Err e, c) => Some (Err (ConnError e), Some (Close c))
      | Some (Panic w, c) => Some (Panic w, Some c)
      end
  end.
Definition WrapConn := newObfs2ServerConn.
End obfs2.

(** ** Lemmas *)
Section lemmas.
Context `{BlockCipherLaws} (netWrite : list bytes -> bytes -> option GoNet.net_error).
Hypothesis writes_ok : forall sent b, netWrite sent b = None.

(** A connection before its handshake. *)
Definition start (init : bool) (net : GoNet.reads) (tape : bytes) : conn :=
  mkConn (GoNet.mkSock net [] tape false) init None None.
(** The second message: what is enciphered with the padding key of a side. *)
Definition pad_stream (init : bool) (seed : bytes) (p : bytes) : bytes :=
  let kv := hsKdf (padString init) seed init in Ctr.xor_from kv.1 kv.2 0 p.
Definition header (pad : bytes) : bytes :=
  be_encode 4 magicValue ++ be_encode 4 (u32 (zlen pad)) ++ pad.
(** The key stream of the session of the side that sends. *)
Definition stream_of (init : bool) (initSeed respSeed : bytes) : Ctr.Stream :=
  let kv := hsKdf (kdfString init) (initSeed ++ respSeed) init in Ctr.NewCTR kv.1 kv.2.
Definition seeds (init : bool) (seed peer : bytes) (k : bytes -> bytes -> Ctr.Stream) : Ctr.Stream :=
  if init then k seed peer else k peer seed.

Lemma newCipher_ok magic seed init c :
  newCipher (hsKdf magic seed init) c
  = Some (Ok (Ctr.NewCTR (hsKdf magic seed init).1 (hsKdf magic seed init).2), c).
Proof.
  unfold newCipher, pure. rewrite valid_key_16; [done|].
  unfold hsKdf, mac. cbn [fst]. rewrite zlen_ztake, Sha256.zlen_Sum256. done.
Qed.

(** What [hello] sends. *)
Lemma hello_inv init inc t seed c :
  hello netWrite (start init inc t) = Some (Ok seed, c) ->
  exists pad t' st, zlen seed = seedLen /\ 0 <= zlen pad <= maxPadding
    /\ c = mkConn (GoNet.mkSock inc [seed; pad_stream init seed (header pad)] t' false)
              init None (Some st).
Proof.
  intros Hh. unfold hello in Hh. apply IO_bind_inv in Hh as (sd & c1 & Hk & Hh).
  apply GoNet.lift_net_inv in Hk as (k1 & Hk & ->).
  apply GoNet.draw_bytes in Hk as (Ls & t1 & ->); [|done].
  apply IO_bind_inv in Hh as (i & c1 & Hi & Hh). injection Hi as <- <-.
  apply IO_bind_inv in Hh as (n & c2 & Hn & Hh). apply GoNet.lift_net_inv in Hn as (k2 & Hn & ->).
  apply GoNet.draw_pad in Hn as (Hn & t2 & ->).
  apply IO_bind_inv in Hh as (pad & c3 & Hp & Hh).
  assert (Hpad : zlen pad = n /\ exists t3, c3 = start init inc t3).
  { destruct (n >? 0) eqn:En; b2p.
    - apply GoNet.lift_net_inv in Hp as (k3 & Hp & ->). apply GoNet.draw_bytes in Hp as (Lp & t3 & ->); [|lia].
      split; [done|]. by exists t3.
    - injection Hp as <- <-. split; [rewrite zlen_nil; lia|]. by exists t2. }
  clear Hp. destruct Hpad as (Lp & t3 & ->).
  apply IO_bind_inv in Hh as (st & c4 & Hst & Hh). cbn [isInitiator start set_net] in Hst.
  rewrite newCipher_ok in Hst. injection Hst as <- <-.
  apply IO_bind_inv in Hh as ([] & c5 & Hm & Hh). injection Hm as <-.
  apply IO_bind_inv in Hh as ([] & c6 & Hw & Hh). apply GoNet.lift_net_inv in Hw as (k4 & Hw & ->).
  apply (GoNet.write_out _ writes_ok) in Hw as ->.
  apply IO_bind_inv in Hh as ([] & c7 & Hw & Hh). injection Hh as <- <-.
  unfold Write, with_tx in Hw. cbn in Hw. unfold GoNet.lift_net in Hw. cbn in Hw.
  unfold GoNet.Write in Hw. rewrite writes_ok in Hw. injection Hw as <-.
  eexists pad, t3, _. split; [done|]. split; [lia|]. rewrite <- Lp. reflexivity.
Qed.

Lemma kdf_ok seed peer k init rx0 tx0 :
  kdf seed peer (mkConn k init rx0 tx0)
  = Some (Ok tt, mkConn k init (Some (seeds init seed peer (stream_of (negb init))))
                   (Some (seeds init seed peer (stream_of init)))).
Proof.
  unfold kdf. erewrite IO_bind_Ok by reflexivity. cbn [isInitiator]. cbv zeta.
  erewrite IO_bind_Ok by apply newCipher_ok. erewrite IO_bind_Ok by apply newCipher_ok.
  by destruct init.
Qed.

Lemma header_fields pad : zlen pad <= maxPadding ->
  zlen (header pad) = hsLen + zlen pad
  /\ be_decode (ztake 4 (ztake hsLen (header pad))) = magicValue
  /\ be_decode (ztake 4 (zdrop 4 (ztake hsLen (header pad)))) = zlen pad.
Proof.
  intros Hp. pose proof (zlen_nonneg pad). unfold maxPadding in Hp.
  assert (Et : ztake hsLen (header pad) = be_encode 4 magicValue ++ be_encode 4 (u32 (zlen pad))).
  { unfold header. rewrite app_assoc. by apply ztake_app. }
  rewrite Et. split; [unfold header, hsLen; zlen_simpl; rewrite !zlen_be_encode; lia|].
  rewrite ztake_app, zdrop_app by done. rewrite ztake_ge by (by rewrite zlen_be_encode).
  rewrite !be_decode_encode. split; [done|]. unfold u32. rewrite !Z.mod_small; [done|..]; try lia.
  rewrite Z.mod_small by lia. change (256 ^ Z.of_nat 4) with (2 ^ 32). lia.
Qed.

(** The second message is read in two parts: the header, then as many bytes as it says. *)
Lemma pad_stream_split side peer pad l : zlen pad <= maxPadding ->
  let kv := hsKdf (padString side) peer side in
  exists rest, zlen rest = zlen pad
    /\ ztake hsLen (pad_stream side peer (header pad) ++ l)
       = Ctr.xor_from kv.1 kv.2 0 (ztake hsLen (header pad))
    /\ zdrop hsLen (pad_stream side peer (header pad) ++ l) = rest ++ l.
Proof.
  intros Lp kv. destruct (header_fields pad Lp) as (Lh & _).
  exists (Ctr.xor_from kv.1 kv.2 hsLen (zdrop hsLen (header pad))).
  assert (E : pad_stream side peer (header pad)
    = Ctr.xor_from kv.1 kv.2 0 (ztake hsLen (header pad))
      ++ Ctr.xor_from kv.1 kv.2 hsLen (zdrop hsLen (header pad))).
  { unfold pad_stream. fold kv. cbv zeta. rewrite <- (ztake_zdrop hsLen (header pad)) at 1.
    by rewrite Ctr.xor_from_app. }
  assert (Lt : hsLen = zlen (Ctr.xor_from kv.1 kv.2 0 (ztake hsLen (header pad)))) by
    (rewrite Ctr.zlen_xor_from, zlen_ztake, Lh; pose proof (zlen_nonneg pad); unfold hsLen; lia).
  split; [rewrite Ctr.zlen_xor_from, zlen_zdrop, Lh; pose proof (zlen_nonneg pad); unfold hsLen; lia|].
  rewrite E, <- app_assoc. by rewrite (ztake_app hsLen), (zdrop_app hsLen).
Qed.

(** The handshake of one side, from its first message and the peer's two. *)
Lemma newConn_ok init inc t seed c0 peer pad l :
  hello netWrite (start init inc t) = Some (Ok seed, c0) ->
  zlen peer = seedLen -> zlen pad <= maxPadding ->
  GoNet.stream inc (peer ++ pad_stream (negb init) peer (header pad) ++ l) ->
  exists inc', GoNet.stream inc' l
    /\ newConn netWrite init None None (GoNet.mkSock inc [] t false)
       = Some (Ok tt, mkConn (GoNet.mkSock inc' (GoNet.sent (net c0)) (GoNet.tape (net c0)) false) init
                        (Some (seeds init seed peer (stream_of (negb init))))
                        (Some (seeds init seed peer (stream_of init)))).
Proof.
  intros Hh Ls Lp Hs. destruct (hello_inv _ _ _ _ _ Hh) as (pad0 & t' & st & _ & _ & ->).
  destruct (header_fields pad Lp) as (Lh & Em & En). pose proof (zlen_nonneg pad). pose proof (zlen_nonneg l).
  destruct (GoNet.ReadFull_stream seedLen
    (GoNet.mkSock inc [seed; pad_stream init seed (header pad0)] t' false) _ Hs) as (inc1 & E1 & Hs1);
    [rewrite zlen_app, Ls; pose proof (zlen_nonneg (pad_stream (negb init) peer (header pad) ++ l)); by split; [|lia]|].
  rewrite ztake_app in E1 by done. rewrite zdrop_app in Hs1 by done.
  destruct (GoNet.ReadFull_stream hsLen
    (GoNet.mkSock inc1 [seed; pad_stream init seed (header pad0)] t' false) _ Hs1) as (inc2 & E2 & Hs2);
    [unfold pad_stream; rewrite zlen_app, Ctr.zlen_xor_from, Lh; unfold hsLen; lia|].
  destruct (pad_stream_split (negb init) peer pad l Lp) as (rest & Lr & Et & Ed).
  rewrite Et in E2. rewrite Ed in Hs2.
  destruct (GoNet.ReadFull_stream (zlen pad)
    (GoNet.mkSock inc2 [seed; pad_stream init seed (header pad0)] t' false) _ Hs2) as (inc3 & E3 & Hs3);
    [rewrite zlen_app; lia|].
  rewrite zdrop_app in Hs3 by done.
  exists inc3. split; [done|]. unfold newConn. fold (start init inc t).
  erewrite IO_bind_Ok by reflexivity.
  match goal with |- _ = Some (_, ?c) =>
    assert (Hhs : handshake netWrite (start init inc t) = Some (Ok tt, c));
      [|by erewrite IO_bind_Ok by exact Hhs] end.
  unfold handshake. erewrite IO_bind_Ok by exact Hh.
  erewrite IO_bind_Ok by (unfold on_net, GoNet.lift_net; cbn [net]; rewrite E1; reflexivity).
  erewrite IO_bind_Ok by reflexivity. cbn [isInitiator set_net].
  erewrite IO_bind_Ok by apply newCipher_ok.
  erewrite IO_bind_Ok by reflexivity.
  erewrite IO_bind_Ok.
  2:{ unfold with_rx, GoNet.lift_net, CipherIO.ReadFull. cbn [rx set_rx net set_net GoNet.sent GoNet.tape GoNet.closed].
      rewrite E2. unfold Ctr.XORKeyStream, Ctr.NewCTR. cbn [Ctr.key Ctr.iv Ctr.pos].
      rewrite Ctr.xor_from_twice. reflexivity. }
  cbv zeta. rewrite Em, En, Z.eqb_refl. cbn [negb]. rewrite gtb_false by done.
  erewrite IO_bind_Ok by (unfold on_net, GoNet.lift_net; cbn [net set_rx set_net GoNet.sent GoNet.tape GoNet.closed]; rewrite E3; reflexivity).
  apply kdf_ok.
Qed.

Lemma newConn_hello init inc t c1 :
  newConn netWrite init None None (GoNet.mkSock inc [] t false) = Some (Ok tt, c1) ->
  exists seed c0, hello netWrite (start init inc t) = Some (Ok seed, c0).
Proof.
  intros Hc. unfold newConn in Hc. fold (start init inc t) in Hc.
  apply IO_bind_inv in Hc as ([] & c & Hd & Hc). injection Hd as <-.
  apply IO_bind_inv in Hc as ([] & c2 & Hh & _).
  change (set_net _ (start init inc t)) with (start init inc t) in Hh.
  apply IO_bind_inv in Hh as (seed & c0 & Hk & _). eauto.
Qed.

Lemma Writes_ok ms : forall c c' k v p,
  tx c = Some (Ctr.mkStream k v p) -> Writes netWrite ms c = Some (Ok tt, c') ->
  exists cts, GoNet.sent (net c') = GoNet.sent (net c) ++ cts
    /\ concat cts = Ctr.xor_from k v p (concat ms).
Proof.
  induction ms as [|b ms IH]; intros c c' k v p Ht; cbn [Writes].
  - intros [= <-]. exists []. by rewrite app_nil_r.
  - intros Hw. apply IO_bind_inv in Hw as ([] & c1 & Hw & Hr).
    unfold Write, with_tx in Hw. rewrite Ht in Hw. cbn in Hw. unfold GoNet.lift_net in Hw. cbn in Hw.
    unfold GoNet.Write in Hw. rewrite writes_ok in Hw. injection Hw as <-.
    eapply IH in Hr as (cts & Ec & Ex); [|reflexivity].
    exists (Ctr.xor_from k v p b :: cts). rewrite Ec. cbn. rewrite <- app_assoc. split; [done|].
    by rewrite Ex, Ctr.xor_from_app.
Qed.

Lemma Reads_ok ns : forall c k v p ct, Forall (fun n => 0 <= n) ns ->
  rx c = Some (Ctr.mkStream k v p) -> GoNet.stream (GoNet.incoming (net c)) ct ->
  exists outs r, Reads ns c = (outs, r)
    /\ ((r = Some (Ok tt) /\ concat outs `prefix_of` Ctr.xor_from k v p ct)
        \/ (r = None /\ concat outs = Ctr.xor_from k v p ct)).
Proof.
  induction ns as [|n ns IH]; intros c k v p ct Hf Hr Hs; cbn [Reads].
  - eexists [], _. split; [done|]. left. split; [done|]. apply prefix_nil.
  - apply Forall_cons in Hf as [Hn Hf]. unfold Read, with_rx. rewrite Hr.
    unfold GoNet.lift_net. cbn. unfold GoNet.Read.
    destruct (GoNet.read_net n (GoNet.incoming (net c))) as [[[rd e] net']|] eqn:Er.
    + destruct (GoNet.read_net_stream _ _ _ _ _ _ Hn Hs Er) as (-> & _ & l' & -> & Hs' & _). cbn.
      edestruct (IH (set_rx (Ctr.mkStream k v (p + zlen rd))
        (set_net (GoNet.mkSock net' (GoNet.sent (net c)) (GoNet.tape (net c)) (GoNet.closed (net c))) c)))
        as (outs & r & -> & Ho); [done|reflexivity|exact Hs'|].
      eexists (_ :: outs), r. split; [done|]. cbn [concat]. rewrite Ctr.xor_from_app.
      destruct Ho as [[-> Ho]|[-> ->]]; [left|by right]. split; [done|]. by apply prefix_app.
    + eexists [], _. split; [done|]. right. split; [done|].
      destruct (GoNet.incoming (net c)) as [|[rd e] net']; cbn in Er; [by destruct Hs as [<- _]|by case_match].
Qed.
End lemmas.

Section theorems.
Context `{BlockCipherLaws} (netWrite : list bytes -> bytes -> option GoNet.net_error).

(** C25: obfs2 delivers what is written, for both directions.  A side whose
    handshake read what its peer sends first, and that writes the messages [ms],
    sends bytes that the peer, however they are segmented, handshakes with (the
    padding is skipped without being deciphered) and reads back: whatever sizes the
    calls of [Read] ask for, none fails, what they return is the front of the
    messages, and one blocks only when all of them were read. *)
Theorem obfs2_delivers init ta tb netA netB ca1 ca2 sb cb0 la ms ns :
  (forall sent b, netWrite sent b = None) ->
  newConn netWrite init None None (GoNet.mkSock netA [] ta false) = Some (Ok tt, ca1) ->
  Writes netWrite ms ca1 = Some (Ok tt, ca2) ->
  hello netWrite (start (negb init) netB tb) = Some (Ok sb, cb0) ->
  GoNet.stream netA (concat (GoNet.sent (net cb0)) ++ la) ->
  GoNet.stream netB (concat (GoNet.sent (net ca2))) ->
  Forall (fun n => 0 <= n) ns ->
  exists cb1 outs r,
    newConn netWrite (negb init) None None (GoNet.mkSock netB [] tb false) = Some (Ok tt, cb1)
    /\ Reads ns cb1 = (outs, r)
    /\ ((r = Some (Ok tt) /\ concat outs `prefix_of` concat ms)
        \/ (r = None /\ concat outs = concat ms)).
Proof.
  intros Hw Ha1 Ha2 Hb0 HsA HsB Hns.
  destruct (newConn_hello _ _ _ _ _ Ha1) as (sa & ca0 & Ha0).
  destruct (hello_inv _ Hw _ _ _ _ _ Ha0) as (pa & ta' & sta & La & Lpa & Ea0).
  destruct (hello_inv _ Hw _ _ _ _ _ Hb0) as (pb & tb' & stb & Lb & Lpb & Eb0).
  rewrite Eb0 in HsA. cbn [net GoNet.sent concat] in HsA. rewrite app_nil_r, <- app_assoc in HsA.
  destruct (newConn_ok _ Hw _ _ _ _ _ _ _ _ Ha0 Lb (proj2 Lpb) HsA) as (incA & _ & E1).
  rewrite Ha1 in E1. injection E1 as ->.
  assert (Htx : exists k v, seeds init sa sb (stream_of init) = Ctr.mkStream k v 0)
    by (unfold seeds, stream_of, Ctr.NewCTR; destruct init; eauto).
  destruct Htx as (k & v & Htx).
  apply (Writes_ok _ Hw _ _ _ k v 0) in Ha2 as (cts & Es & Ec); [|cbn [tx]; by rewrite Htx].
  cbn [net GoNet.sent] in Es. rewrite Ea0 in Es. cbn [net GoNet.sent app] in Es.
  rewrite Es in HsB. cbn [concat] in HsB. rewrite Ec in HsB.
  rewrite <- (negb_involutive init) in HsB at 1.
  destruct (newConn_ok _ Hw _ _ _ _ _ _ _ _ Hb0 La (proj2 Lpa) HsB) as (incB & HsB' & E2).
  assert (Hrx : seeds (negb init) sb sa (stream_of (negb (negb init))) = Ctr.mkStream k v 0)
    by (rewrite negb_involutive, <- Htx; by destruct init).
  eexists. edestruct (Reads_ok ns) as (outs & r & Er & Ho); [exact Hns|..|eexists outs, r; split; [exact E2|];
    split; [exact Er|]].
  - cbn [rx]. by rewrite Hrx.
  - exact HsB'.
  - rewrite Ctr.xor_from_twice in Ho. exact Ho.
Qed.
End theorems.
End Obfs2.

Section witnesses.
Import Obfs2 ToyCipher.
Definition w2_write (sent : list bytes) (b : bytes) : option GoNet.net_error := None.
(** A seed, a draw of three bytes of padding, and the padding. *)
Definition w2_tape (k : Z) : bytes := be_encode 16 k ++ be_encode 8 (3 * 2 ^ 32) ++ str "abc".
Definition w2_conn (r : option (result error unit * conn)) : conn :=
  match r with Some (_, c) => c | None => start true [] [] end.
Definition w2_hello (init : bool) (t : bytes) : conn :=
  w2_conn (match hello w2_write (start init [] t) with Some (_, c) => Some (Ok tt, c) | None => None end).
Definition w2_sentB : bytes := Eval vm_compute in concat (GoNet.sent (net (w2_hello false (w2_tape 9)))).
Definition w2_netA : GoNet.reads := Eval vm_compute in [(ztake 20 w2_sentB, None); (zdrop 20 w2_sentB ++ str "more", None)].
Definition w2_ca1 := Eval vm_compute in
  w2_conn (newConn w2_write true None None (GoNet.mkSock w2_netA [] (w2_tape 7) false)).
Definition w2_ca2 := Eval vm_compute in w2_conn (Writes w2_write [str "hello"; str "world"] w2_ca1).
Definition w2_netB : GoNet.reads := Eval vm_compute in
  let l := concat (GoNet.sent (net w2_ca2)) in [(ztake 10 l, None); ([], None); (zdrop 10 l, None)].
Definition w2_cb0 : conn := Eval vm_compute in
  w2_conn (match hello w2_write (start false w2_netB (w2_tape 9)) with
           | Some (_, c) => Some (Ok tt, c) | None => None end).

Lemma obfs2_delivers_witness : exists cb1 outs r,
  newConn w2_write (negb true) None None (GoNet.mkSock w2_netB [] (w2_tape 9) false) = Some (Ok tt, cb1)
  /\ Reads [3; 100] cb1 = (outs, r)
  /\ ((r = Some (Ok tt) /\ concat outs `prefix_of` concat [str "hello"; str "world"])
      \/ (r = None /\ concat outs = concat [str "hello"; str "world"])).
Proof.
  apply (obfs2_delivers w2_write true (w2_tape 7) (w2_tape 9) w2_netA w2_netB w2_ca1 w2_ca2
           (be_encode 16 9) w2_cb0 (str "more") [str "hello"; str "world"] [3; 100]).
  - reflexivity.
  - vm_compute. reflexivity.
  - vm_compute. reflexivity.
  - vm_compute. reflexivity.
  - split; [vm_compute; reflexivity|repeat constructor].
  - split; [vm_compute; reflexivity|repeat constructor].
  - repeat constructor; lia.
Defined.
End witnesses.
