(* ===== verification/Obfs3.v ===== *)
(** * obfs3: [transports/obfs3]

    A UniformDH exchange with random padding, then two AES streams; the first
    [Write] of each side is preceded by padding and a magic value, for which the
    first [Read] of the other side scans. *)
From S2P Require Import Prelude GoStd Rand Packet UniformDH GoNet GoFloat GoText GoCrypto.

Module Obfs3.

Definition transportName : bytes := str "obfs3".
Definition initiatorKdfString : bytes := str "Initiator obfuscated data".
Definition responderKdfString : bytes := str "Responder obfuscated data".
Definition initiatorMagicString : bytes := str "Initiator magic".
Definition responderMagicString : bytes := str "Responder magic".
Definition maxPadding : Z := 8194.
Definition keyLen : Z := 16.

Inductive error :=
| NetErr (e : GoNet.error)
| DHErr (e : UniformDH.error)
| KeySizeError
| NoMagic            (* failed to find peer magic value *)
| TooMuchPadding     (* peer sent too much pre-magic-padding *)
.

(** [rx.R] is [rxBuf] as long as there is one, then the network. *)
Record conn := mkConn {
  net : GoNet.sock;
  isInitiator : bool;
  rxMagic : option bytes;
  txMagic : option bytes;
  rxBuf : option bytes;
  rx : option Ctr.Stream;
  tx : option Ctr.Stream
}.
Definition set_net (n : GoNet.sock) (c : conn) :=
  mkConn n (isInitiator c) (rxMagic c) (txMagic c) (rxBuf c) (rx c) (tx c).
Definition set_rxBuf (b : option bytes) (c : conn) :=
  mkConn (net c) (isInitiator c) (rxMagic c) (txMagic c) b (rx c) (tx c).
Definition set_rxMagic (m : option bytes) (c : conn) :=
  mkConn (net c) (isInitiator c) m (txMagic c) (rxBuf c) (rx c) (tx c).
Definition set_txMagic (m : option bytes) (c : conn) :=
  mkConn (net c) (isInitiator c) (rxMagic c) m (rxBuf c) (rx c) (tx c).
Definition set_rx (s : Ctr.Stream) (c : conn) :=
  mkConn (net c) (isInitiator c) (rxMagic c) (txMagic c) (rxBuf c) (Some s) (tx c).
Definition set_tx (s : Ctr.Stream) (c : conn) :=
  mkConn (net c) (isInitiator c) (rxMagic c) (txMagic c) (rxBuf c) (rx c) (Some s).

Definition Close (c : conn) : conn := set_net (GoNet.Close (net c)) c.

Section obfs3.
Context `{BlockCipher} (netWrite : list bytes -> bytes -> option GoNet.net_error).
Abbreviation C := (IO conn error).

Definition on_net {A} : IO GoNet.sock GoNet.error A -> C A := GoNet.lift_net net set_net NetErr.
Definition pure {A} (r : result error A) : C A := fun c => Some (r, c).
Definition dh {A} (r : result UniformDH.error A) : C A :=
  pure (match r with Ok a => Ok a | Err e => Err (DHErr e) | Panic w => Panic w end).

Definition newCipher (key iv : bytes) : C Ctr.Stream :=
  pure (if valid_key key then Ok (Ctr.NewCTR key iv) else Err KeySizeError).

(** [GenerateKey (csrand.Reader)]. *)
Definition GenerateKey : C UniformDH.PrivateKey := fun c =>
  let '(r, t) := UniformDH.GenerateKey (GoNet.tape (net c)) in
  Some (match r with Ok k => Ok k | Err e => Err (DHErr e) | Panic w => Panic w end,
        set_net (GoNet.mkSock (GoNet.incoming (net c)) (GoNet.sent (net c)) t (GoNet.closed (net c))) c).

(** The secret and the magic value of each direction. *)
Definition secrets (sharedSecret : bytes) : (bytes * bytes) * (bytes * bytes) :=
  ((Hmac.sum sharedSecret initiatorKdfString, Hmac.sum sharedSecret initiatorMagicString),
   (Hmac.sum sharedSecret responderKdfString, Hmac.sum sharedSecret responderMagicString)).

Definition kdf (sharedSecret : bytes) : C unit :=
  let '((initSecret, initMagic), (respSecret, respMagic)) := secrets sharedSecret in
  initStream ← newCipher (ztake keyLen initSecret) (zdrop keyLen initSecret);
  respStream ← newCipher (ztake keyLen respSecret) (zdrop keyLen respSecret);
  run (fun c => (Ok tt,
    if isInitiator c
    then mkConn (net c) true (Some respMagic) (Some initMagic) (rxBuf c) (Some respStream) (Some initStream)
    else mkConn (net c) false (Some initMagic) (Some respMagic) (rxBuf c) (Some initStream) (Some respStream))).

(** The first half of [handshake]: [PUB_KEY | WR(PADLEN)] is sent. *)
Definition hello : C UniformDH.PrivateKey :=
  privateKey ← GenerateKey;
  padLen ← on_net (GoNet.random (Csrand.IntRange 0 (maxPadding / 2)));
  publicKey ← dh (UniformDH.Bytes (UniformDH.public privateKey));
  pad ← on_net (GoNet.random (Csrand.Bytes padLen));
  _ ← on_net (GoNet.Write netWrite (publicKey ++ pad));
  mret privateKey.

Definition handshake : C unit :=
  privateKey ← hello;
  rawPeerPublicKey ← on_net (GoNet.ReadFull UniformDH.Size);
  peerPublicKey ← dh (UniformDH.SetBytes rawPeerPublicKey);
  sharedSecret ← dh (UniformDH.Handshake privateKey peerPublicKey);
  kdf sharedSecret.

(** [newObfs3ClientConn] and [newObfs3ServerConn]; [d1] and [d2] are what the
    two [SetDeadline]s return. *)
Definition newConn (initiator : bool) (d1 d2 : option GoNet.net_error) (k : GoNet.sock)
  : option (result error unit * conn) :=
  (_ ← on_net (GoNet.deadline d1);
   _ ← handshake;
   on_net (GoNet.deadline d2)) (mkConn k initiator None None (Some []) None None).
Definition newObfs3ClientConn := newConn true.
Definition newObfs3ServerConn := newConn false.

(** [findPeerMagic]; a round that goes on has used up a segment. *)
Fixpoint find_loop (fuel : nat) (magic : bytes) : C unit :=
  match fuel with
  | O => pure (Panic out_of_fuel)
  | S fuel =>
      '(rd, err) ← on_net (GoNet.Read (maxPadding + Sha256.Size));
      match err with
      | Some e => pure (Err (NetErr (GoNet.NetError e)))
      | None => fun c =>
          let buf := default [] (rxBuf c) ++ rd in
          let c := set_rxBuf (Some buf) c in
          let pos := bytes_Index buf magic in
          if pos =? -1 then
            if zlen buf >=? maxPadding + Sha256.Size then Some (Err NoMagic, c)
            else find_loop fuel magic c
          else if pos >? maxPadding then Some (Err TooMuchPadding, c)
          else Some (Ok tt, set_rxBuf (Some (zdrop (pos + zlen magic) buf)) c)
      end
  end.
Definition findPeerMagic (magic : bytes) : C unit := fun c =>
  find_loop (S (length (GoNet.incoming (net c)))) magic c.

(** The magic value is looked for once. *)
Definition scan : C unit := fun c =>
  match rxMagic c with
  | None => Some (Ok tt, c)
  | Some magic =>
      (_ ← on_err (findPeerMagic magic) Close;
       run (fun c => (Ok tt, set_rxMagic None c))) c
  end.
(** An empty handshake buffer gives way to the network. *)
Definition rewire : C unit := run (fun c =>
  (Ok tt, match rxBuf c with Some [] => set_rxBuf None c | _ => c end)).
(** [conn.rx.Read (b)]. *)
Definition rx_Read (n : Z) : C (bytes * option GoNet.net_error) := fun c =>
  match rx c, rxBuf c with
  | None, _ => Some (Panic "nil pointer dereference", c)
  | Some st, Some buf =>
      let '(p, st) := Ctr.XORKeyStream (ztake n buf) st in
      Some (Ok (p, None), set_rx st (set_rxBuf (Some (zdrop n buf)) c))
  | Some st, None =>
      match CipherIO.Read n (st, net c) with
      | Some (Ok r, (st, k)) => Some (Ok r, set_rx st (set_net k c))
      | Some (Err e, (st, k)) => Some (Err (NetErr e), set_rx st (set_net k c))
      | Some (Panic w, (st, k)) => Some (Panic w, set_rx st (set_net k c))
      | None => None
      end
  end.
(** [Read (b)] with [len (b) = n]: the data and the error that comes with it. *)
Definition Read (n : Z) : C (bytes * option GoNet.net_error) :=
  _ ← scan; _ ← rewire; rx_Read n.

(** The padding and the magic value are sent once. *)
Definition send_magic : C unit := fun c =>
  match txMagic c with
  | None => Some (Ok tt, c)
  | Some magic =>
      (padLen ← on_net (GoNet.random (Csrand.IntRange 0 (maxPadding / 2)));
       pad ← on_err (on_net (GoNet.random (Csrand.Bytes padLen))) Close;
       _ ← on_err (on_net (GoNet.Write netWrite (pad ++ magic))) Close;
       run (fun c => (Ok tt, set_txMagic None c))) c
  end.
(** [conn.tx.Write (b)]. *)
Definition tx_Write (b : bytes) : C unit := fun c =>
  match tx c with
  | None => Some (Panic "nil pointer dereference", c)
  | Some st =>
      match CipherIO.Write netWrite b (st, net c) with
      | Some (Ok r, (st, k)) => Some (Ok r, set_tx st (set_net k c))
      | Some (Err e, (st, k)) => Some (Err (NetErr e), set_tx st (set_net k c))
      | Some (Panic w, (st, k)) => Some (Panic w, set_tx st (set_net k c))
      | None => None
      end
  end.
(** [Write (b)]. *)
Definition Write (b : bytes) : C unit := _ ← send_magic; tx_Write b.

(** Calls of [Write] in a row. *)
Fixpoint Writes (ms : list bytes) : C unit :=
  match ms with [] => mret tt | m :: ms => _ ← Write m; Writes ms end.

(** Calls of [Read] in a row until one blocks or fails: what was read, and whether
    all calls returned. *)
Fixpoint Reads (ns : list Z) (c : conn) : list bytes * option (result error unit) :=
  match ns with
  | [] => ([], Some (Ok tt))
  | n :: ns =>
      match Read n c with
      | None => ([], None)
      | Some (Ok (rd, None), c) => let '(l, r) := Reads ns c in (rd :: l, r)
      | Some (Ok (rd, Some e), c) => ([rd], Some (Err (NetErr (GoNet.NetError e))))
      | Some (Err e, _) => ([], Some (Err e))
      | Some (Panic w, _) => ([], Some (Panic w))
      end
  end.

(** ** The factories: no arguments are read or published *)
Inductive dial_error := DialFnError (e : GoNet.net_error) | ConnError (e : error).

(** [dialFn] gives a socket or fails; the socket of a failed handshake is closed. *)
Definition Dial (dialed : result GoNet.net_error GoNet.sock) (d1 d2 : option GoNet.net_error)
  : option (result dial_error unit * option conn) :=
  match dialed with
  | Err e => Some (Err (DialFnError e), None)
  | Panic w => Some (Panic w, None)
  | Ok k =>
      match newObfs3ClientConn d1 d2 k with
      | None => None
      | Some (Ok _, c) => Some (Ok tt, Some c)
      | Some (Err e, c) => Some (Err (ConnError e), Some (Close c))
      | Some (Panic w, c) => Some (Panic w, Some c)
      end
  end.
Definition WrapConn := newObfs3ServerConn.
End obfs3.

(** ** Lemmas *)
Section lemmas.
Context `{BlockCipherLaws} (netWrite : list bytes -> bytes -> option GoNet.net_error).
Hypothesis writes_ok : forall sent b, netWrite sent b = None.

(** A connection before its handshake. *)
Definition start (init : bool) (net : GoNet.reads) (tape : bytes) : conn :=
  mkConn (GoNet.mkSock net [] tape false) init None None (Some []) None None.
(** The magic value and the key stream of the side that sends. *)
Definition magic (init : bool) (ss : bytes) : bytes :=
  let s := if init then (secrets ss).1 else (secrets ss).2 in s.2.
Definition stream_of (init : bool) (ss : bytes) : Ctr.Stream :=
  let s := (if init then (secrets ss).1 else (secrets ss).2).1 in
  Ctr.NewCTR (ztake keyLen s) (zdrop keyLen s).

Lemma zlen_magic i ss : zlen (magic i ss) = 32.
Proof. unfold magic, secrets. destruct i; apply Hmac.zlen_sum. Qed.

Lemma dh_inv {A} (r : result UniformDH.error A) c a c' :
  dh r c = Some (Ok a, c') -> r = Ok a /\ c' = c.
Proof. unfold dh, pure. destruct r; try done. by intros [= -> ->]. Qed.

(** What [hello] leaves: a key pair, and a message of the key and padding. *)
Lemma obfs3_hello_inv init inc t ka c :
  hello netWrite (start init inc t) = Some (Ok ka, c) ->
  exists a pad t', UniformDH.generateKey a = Ok ka /\ 0 <= zlen pad <= maxPadding / 2
    /\ c = mkConn (GoNet.mkSock inc [UniformDH.keyBytes (UniformDH.public ka) ++ pad] t' false)
              init None None (Some []) None None.
Proof.
  intros Hh. unfold hello in Hh. apply IO_bind_inv in Hh as (k & c1 & Hk & Hh).
  unfold GenerateKey in Hk. cbn in Hk. unfold UniformDH.GenerateKey in Hk.
  destruct (zlen t <? UniformDH.Size); [done|].
  destruct (UniformDH.generateKey _) as [k0|e|w] eqn:Eg; try done.
  assert (k = k0) as -> by congruence. injection Hk as Hc1. cbn in Hc1.
  apply IO_bind_inv in Hh as (n & c2 & Hn & Hh).
  apply GoNet.lift_net_inv in Hn as (s2 & Hn & ->). apply GoNet.draw_pad in Hn as (Hn & t2 & ->).
  apply IO_bind_inv in Hh as (pk & c3 & Hp & Hh). apply dh_inv in Hp as (Hp & ->).
  apply IO_bind_inv in Hh as (pad & c4 & Hpad & Hh).
  apply GoNet.lift_net_inv in Hpad as (s4 & Hpad & ->). apply GoNet.draw_bytes in Hpad as (Hl & t4 & ->); [|lia].
  apply IO_bind_inv in Hh as ([] & c5 & Hw & Hh).
  apply GoNet.lift_net_inv in Hw as (s5 & Hw & ->). apply (GoNet.write_out _ writes_ok) in Hw as ->.
  injection Hh as <- <-. unfold UniformDH.Bytes in Hp. case_match; [|done]. injection Hp as <-.
  subst c1. exists (ztake UniformDH.Size t), pad, t4. by split_and!; [|lia|lia|].
Qed.

Lemma obfs3_kdf_ok ss k init b rm tm rx0 tx0 :
  kdf ss (mkConn k init rm tm b rx0 tx0)
  = Some (Ok tt, mkConn k init (Some (magic (negb init) ss)) (Some (magic init ss)) b
                   (Some (stream_of (negb init) ss)) (Some (stream_of init ss))).
Proof.
  assert (Hv : forall s, zlen s = 32 -> valid_key (ztake keyLen s) = true).
  { intros s Hs. apply valid_key_16. unfold keyLen. zlen_simpl. rewrite Hs. lia. }
  unfold kdf, secrets.
  erewrite IO_bind_Ok by (unfold newCipher, pure; rewrite Hv by apply Hmac.zlen_sum; reflexivity).
  erewrite IO_bind_Ok by (unfold newCipher, pure; rewrite Hv by apply Hmac.zlen_sum; reflexivity).
  by destruct init.
Qed.

(** The handshake of one side, from its first message and the peer's. *)
Lemma obfs3_newConn_ok init inc t ka c0 pk pb ss l :
  hello netWrite (start init inc t) = Some (Ok ka, c0) ->
  zlen pk = UniformDH.Size -> UniformDH.SetBytes pk = Ok pb -> UniformDH.Handshake ka pb = Ok ss ->
  GoNet.stream inc (pk ++ l) ->
  exists inc', GoNet.stream inc' l
    /\ newConn netWrite init None None (GoNet.mkSock inc [] t false)
       = Some (Ok tt, mkConn (GoNet.mkSock inc' (GoNet.sent (net c0)) (GoNet.tape (net c0)) false) init
                        (Some (magic (negb init) ss)) (Some (magic init ss)) (Some [])
                        (Some (stream_of (negb init) ss)) (Some (stream_of init ss))).
Proof.
  intros Hh Hl Hpk Hss Hs. destruct (obfs3_hello_inv _ _ _ _ _ Hh) as (a & pad & t' & _ & _ & ->).
  assert (Hn : 0 <= UniformDH.Size <= zlen (pk ++ l)) by (rewrite zlen_app, Hl; pose proof (zlen_nonneg l); by split; [|lia]).
  destruct (GoNet.ReadFull_stream UniformDH.Size
    (GoNet.mkSock inc [UniformDH.keyBytes (UniformDH.public ka) ++ pad] t' false) (pk ++ l) Hs Hn)
    as (inc' & E & Hs').
  rewrite ztake_app in E by done. rewrite zdrop_app in Hs' by done.
  exists inc'. split; [done|]. unfold newConn. fold (start init inc t).
  erewrite IO_bind_Ok by reflexivity.
  match goal with |- _ = Some (_, ?c) =>
    assert (Hhs : handshake netWrite (start init inc t) = Some (Ok tt, c));
      [|by erewrite IO_bind_Ok by exact Hhs] end.
  unfold handshake.
  erewrite IO_bind_Ok by exact Hh.
  erewrite IO_bind_Ok by (unfold on_net, GoNet.lift_net; cbn [net start]; rewrite E; reflexivity).
  erewrite IO_bind_Ok by (unfold dh, pure; rewrite Hpk; reflexivity).
  erewrite IO_bind_Ok by (unfold dh, pure; rewrite Hss; reflexivity).
  apply obfs3_kdf_ok.
Qed.

(** *** The writer *)
Lemma tx_Write_ok b c k v p :
  tx c = Some (Ctr.mkStream k v p) -> exists c',
    tx_Write netWrite b c = Some (Ok tt, c')
    /\ GoNet.sent (net c') = GoNet.sent (net c) ++ [Ctr.xor_from k v p b]
    /\ tx c' = Some (Ctr.mkStream k v (p + zlen b)) /\ txMagic c' = txMagic c.
Proof.
  intros Ht. unfold tx_Write. rewrite Ht. cbn. unfold GoNet.Write. rewrite writes_ok. eauto.
Qed.

Lemma Writes_plain ms : forall c c' k v p,
  txMagic c = None -> tx c = Some (Ctr.mkStream k v p) -> Writes netWrite ms c = Some (Ok tt, c') ->
  exists cts, GoNet.sent (net c') = GoNet.sent (net c) ++ cts
    /\ concat cts = Ctr.xor_from k v p (concat ms).
Proof.
  induction ms as [|b ms IH]; intros c c' k v p Hm Ht; cbn [Writes].
  - intros [= <-]. exists []. by rewrite app_nil_r.
  - intros Hw. apply IO_bind_inv in Hw as ([] & c1 & Hw & Hr). unfold Write, send_magic in Hw.
    apply IO_bind_inv in Hw as ([] & c0 & H1 & Hw). rewrite Hm in H1. injection H1 as <-.
    destruct (tx_Write_ok b c k v p Ht) as (c2 & E & Es & Et & Em). rewrite E in Hw. injection Hw as <-.
    destruct (IH c2 c' k v (p + zlen b)) as (cts & Ec & Ex); [congruence|done..|].
    exists (Ctr.xor_from k v p b :: cts). rewrite Ec, Es, <- app_assoc. split; [done|].
    cbn [concat]. by rewrite Ex, Ctr.xor_from_app.
Qed.

Lemma Writes_magic b ms c c' m k v p :
  txMagic c = Some m -> tx c = Some (Ctr.mkStream k v p) ->
  Writes netWrite (b :: ms) c = Some (Ok tt, c') ->
  exists pad cts, 0 <= zlen pad <= maxPadding / 2
    /\ GoNet.sent (net c') = GoNet.sent (net c) ++ (pad ++ m) :: cts
    /\ concat cts = Ctr.xor_from k v p (concat (b :: ms)).
Proof.
  intros Hm Ht Hw. cbn [Writes] in Hw. apply IO_bind_inv in Hw as ([] & c1 & Hw & Hr).
  unfold Write, send_magic in Hw. apply IO_bind_inv in Hw as ([] & c0 & H1 & Hw). rewrite Hm in H1.
  apply IO_bind_inv in H1 as (n & s1 & Hn & H1). apply GoNet.lift_net_inv in Hn as (k1 & Hn & ->).
  apply GoNet.draw_pad in Hn as (Hn & t1 & ->).
  apply IO_bind_inv in H1 as (pad & s2 & Hp & H1). unfold on_err in Hp. case_match eqn:Ep; [|done].
  destruct p0 as [[] c2]; try done. injection Hp as -> ->.
  apply GoNet.lift_net_inv in Ep as (k2 & Ep & ->). apply GoNet.draw_bytes in Ep as (Hl & t2 & ->); [|lia].
  apply IO_bind_inv in H1 as ([] & s3 & Hq & H1). unfold on_err in Hq. case_match eqn:Eq; [|done].
  destruct p0 as [[[]| |] c3]; try done. injection Hq as ->.
  apply GoNet.lift_net_inv in Eq as (k3 & Eq & ->). apply (GoNet.write_out _ writes_ok) in Eq as ->.
  injection H1 as <-.
  assert (Hw' : Writes netWrite (b :: ms) (set_txMagic None
    (set_net (GoNet.mkSock (GoNet.incoming (net c)) (GoNet.sent (net c) ++ [pad ++ m]) t2
       (GoNet.closed (net c))) c)) = Some (Ok tt, c')).
  { cbn [Writes]. erewrite IO_bind_Ok; [exact Hr|]. exact Hw. }
  apply (Writes_plain _ _ _ k v p) in Hw' as (cts & Es & Ex); [|done|done].
  exists pad, cts. split; [lia|]. split; [|done]. rewrite Es. cbn. by rewrite <- app_assoc.
Qed.

(** *** The reader *)
Lemma find_ok m pad ct : GoNet.first_mark m pad -> zlen m = 32 -> zlen pad <= maxPadding ->
  forall fuel c buf l, rxBuf c = Some buf -> GoNet.stream (GoNet.incoming (net c)) l ->
    buf ++ l = pad ++ m ++ ct -> zlen buf < zlen pad + 32 ->
    (length (GoNet.incoming (net c)) < fuel)%nat ->
  exists c' l' buf', find_loop fuel m c = Some (Ok tt, c')
    /\ rxBuf c' = Some buf' /\ GoNet.stream (GoNet.incoming (net c')) l' /\ buf' ++ l' = ct
    /\ rx c' = rx c.
Proof.
  intros Hm Lm Lp. pose proof (zlen_nonneg pad) as Hp0.
  assert (Hmax : maxPadding = 8194) by done.
  induction fuel as [|fuel IH]; intros c buf l Hb Hs E Hl Hf; [lia|]. cbn [find_loop].
  assert (Hne : exists rd e net', GoNet.read_net (maxPadding + Sha256.Size) (GoNet.incoming (net c))
                = Some (rd, e, net')
            /\ (zlen rd <= maxPadding + Sha256.Size -> zlen rd = maxPadding + Sha256.Size
                \/ (length net' < length (GoNet.incoming (net c)))%nat)).
  { destruct (GoNet.incoming (net c)) as [|[rd e] net'].
    - exfalso. destruct Hs as [<- _]. apply (f_equal zlen) in E. cbn in E.
      rewrite !zlen_app, zlen_nil in E. pose proof (zlen_nonneg ct). lia.
    - cbn [GoNet.read_net]. case_match eqn:El; b2p; eexists _, _, _; (split; [done|]); intros _.
      + left. rewrite zlen_ztake. change Sha256.Size with 32 in *. lia.
      + right. cbn. lia. }
  destruct Hne as (rd & e & net' & Er & Hshort).
  destruct (GoNet.read_net_stream (maxPadding + Sha256.Size) _ _ _ _ _ ltac:(done) Hs Er) as (-> & Hrd & l' & -> & Hs' & _).
  specialize (Hshort Hrd).
  erewrite IO_bind_Ok by (unfold on_net, GoNet.lift_net, GoNet.Read; rewrite Er; reflexivity).
  cbv beta iota zeta. change (rxBuf (set_net _ c)) with (rxBuf c). rewrite Hb.
  change (default [] (Some buf)) with buf.
  rewrite app_assoc in E.
  destruct (decide (zlen (buf ++ rd) < zlen pad + 32)) as [Hlt|Hge].
  - rewrite (GoNet.index_before m pad (buf ++ rd) l' ct) by (done || lia). cbn [Z.eqb].
    rewrite Z.geb_leb, leb_false by (change (maxPadding + Sha256.Size) with 8226; lia).
    match goal with |- context [find_loop fuel m ?x] => apply (IH x (buf ++ rd) l') end; try done.
    cbn. change (maxPadding + Sha256.Size) with 8226 in Hshort. rewrite zlen_app in Hlt.
    pose proof (zlen_nonneg buf). destruct Hshort; lia.
  - assert (Hx : exists x, buf ++ rd = pad ++ m ++ x /\ x ++ l' = ct).
    { exists (zdrop (zlen pad + 32) (buf ++ rd)).
      assert (Ht : ztake (zlen pad + 32) (buf ++ rd) = pad ++ m).
      { rewrite <- (ztake_app_le _ (buf ++ rd) l') by lia. rewrite E, app_assoc.
        apply ztake_app. zlia. }
      split; [by rewrite app_assoc, <- Ht, ztake_zdrop|].
      rewrite <- zdrop_app_le by lia. rewrite E, app_assoc. apply zdrop_app. zlia. }
    destruct Hx as (x & Ex & Ect). rewrite Ex, (GoNet.index_first m pad x Hm).
    rewrite eqb_false by lia. rewrite gtb_false by lia.
    eexists _, l', x. split; [reflexivity|]. cbn. split_and!; try done.
    f_equal. rewrite app_assoc. apply zdrop_app. zlia.
Qed.

(** The rest of the stream is [ct], to be decrypted from position [p] on. *)
Definition reading (c : conn) (k v : bytes) (p : Z) (ct : bytes) : Prop :=
  rxMagic c = None /\ rx c = Some (Ctr.mkStream k v p)
  /\ exists l, GoNet.stream (GoNet.incoming (net c)) l /\ default [] (rxBuf c) ++ l = ct.

Lemma Read_reading n c k v p ct : 0 <= n -> reading c k v p ct ->
  (Read n c = None /\ ct = [])
  \/ exists rd c' ct', Read n c = Some (Ok (Ctr.xor_from k v p rd, None), c') /\ ct = rd ++ ct'
       /\ reading c' k v (p + zlen rd) ct'.
Proof.
  intros Hn (Hm & Hr & l & Hs & <-). unfold Read, scan, rewire.
  erewrite IO_bind_Ok by (rewrite Hm; reflexivity).
  erewrite IO_bind_Ok by reflexivity. unfold rx_Read.
  destruct (rxBuf c) as [[|b buf]|] eqn:Eb; cbn [default].
  2:{ right. rewrite Hr, Eb. cbn -[ztake zdrop].
      exists (ztake n (b :: buf)). eexists _, (zdrop n (b :: buf) ++ l).
      split; [reflexivity|]. split; [by rewrite app_assoc, ztake_zdrop|].
      split_and!; [done|done|]. exists l. by split. }
  all: rewrite ?Hr, ?Eb; cbn; rewrite ?Hr; cbn; unfold GoNet.Read; cbn;
    destruct (GoNet.read_net n (GoNet.incoming (net c))) as [[[rd e] net']|] eqn:Er;
    [right; destruct (GoNet.read_net_stream _ _ _ _ _ _ Hn Hs Er) as (-> & _ & l' & -> & Hs' & _);
      eexists rd, _, l'; (split; [reflexivity|]); (split; [done|]); (split; [done|]); (split; [done|]);
      exists l'; cbn; by rewrite ?Eb
    |left; split; [done|]; destruct (GoNet.incoming (net c)) as [|[rd e] net']; cbn in Er;
      [by destruct Hs as [<- _]|by case_match]].
Qed.

Lemma Reads_reading ns : forall c k v p ct, Forall (fun n => 0 <= n) ns -> reading c k v p ct ->
  exists outs r, Reads ns c = (outs, r)
    /\ ((r = Some (Ok tt) /\ concat outs `prefix_of` Ctr.xor_from k v p ct)
        \/ (r = None /\ concat outs = Ctr.xor_from k v p ct)).
Proof.
  induction ns as [|n ns IH]; intros c k v p ct Hf Hr; cbn [Reads].
  - eexists [], _. split; [done|]. left. split; [done|]. apply prefix_nil.
  - apply Forall_cons in Hf as [Hn Hf].
    destruct (Read_reading n c k v p ct Hn Hr) as [[-> ->]|(rd & c' & ct' & -> & -> & Hr')].
    + eexists [], _. split; [done|]. by right.
    + destruct (IH c' k v (p + zlen rd) ct' Hf Hr') as (outs & r & -> & Ho).
      eexists (_ :: outs), r. split; [done|]. cbn [concat]. rewrite Ctr.xor_from_app.
      destruct Ho as [[-> Ho]|[-> ->]]; [left|by right]. split; [done|]. by apply prefix_app.
Qed.

(** The first read finds the magic value and goes on. *)
Lemma Reads_first ns c m pad ct k v p :
  Forall (fun n => 0 <= n) ns ->
  rxMagic c = Some m -> rxBuf c = Some [] -> rx c = Some (Ctr.mkStream k v p) ->
  GoNet.stream (GoNet.incoming (net c)) (pad ++ m ++ ct) ->
  GoNet.first_mark m pad -> zlen m = 32 -> zlen pad <= maxPadding ->
  exists outs r, Reads ns c = (outs, r)
    /\ ((r = Some (Ok tt) /\ concat outs `prefix_of` Ctr.xor_from k v p ct)
        \/ (r = None /\ concat outs = Ctr.xor_from k v p ct)).
Proof.
  intros Hf Hm Hb Hr Hs Hfm Lm Lp. destruct ns as [|n ns].
  { eexists [], _. split; [done|]. left. split; [done|]. apply prefix_nil. }
  destruct (find_ok m pad ct Hfm Lm Lp (S (length (GoNet.incoming (net c)))) c [] _ Hb Hs)
    as (c' & l' & buf' & E & Eb & Hs' & Ect & Er);
    [done|pose proof (zlen_nonneg pad); rewrite zlen_nil; lia|lia|].
  set (c1 := set_rxMagic None c').
  assert (Hreads : Reads (n :: ns) c = Reads (n :: ns) c1).
  { cbn [Reads]. enough (Read n c = Read n c1) as -> by done. unfold Read.
    erewrite IO_bind_Ok; [erewrite IO_bind_Ok by reflexivity; reflexivity|].
    unfold scan. rewrite Hm. unfold on_err, findPeerMagic. unfold mbind, IO_bind. rewrite E. done. }
  rewrite Hreads. apply Reads_reading; [done|].
  split_and!; [done|by rewrite <- Hr, <- Er|]. exists l'. split; [done|]. cbn. by rewrite Eb.
Qed.

(** A handshake that returned had a [hello], and read the peer's key. *)
Lemma newConn_inv init inc t pk l c1 :
  zlen pk = UniformDH.Size -> GoNet.stream inc (pk ++ l) ->
  newConn netWrite init None None (GoNet.mkSock inc [] t false) = Some (Ok tt, c1) ->
  exists ka c0 pb ss, hello netWrite (start init inc t) = Some (Ok ka, c0)
    /\ UniformDH.SetBytes pk = Ok pb /\ UniformDH.Handshake ka pb = Ok ss.
Proof.
  intros Lp Hs Hc. unfold newConn in Hc. fold (start init inc t) in Hc.
  apply IO_bind_inv in Hc as ([] & c & Hd & Hc). injection Hd as <-.
  apply IO_bind_inv in Hc as ([] & c2 & Hh & _).
  change (set_net _ (start init inc t)) with (start init inc t) in Hh.
  unfold handshake in Hh. apply IO_bind_inv in Hh as (ka & c0 & Hk & Hh).
  exists ka, c0. destruct (obfs3_hello_inv _ _ _ _ _ Hk) as (a & pad & t' & _ & _ & E0).
  apply IO_bind_inv in Hh as (raw & c3 & Hr & Hh). apply GoNet.lift_net_inv in Hr as (k & Hr & ->).
  assert (Hn : 0 <= UniformDH.Size <= zlen (pk ++ l))
    by (rewrite zlen_app, Lp; pose proof (zlen_nonneg l); by split; [|lia]).
  destruct (GoNet.ReadFull_stream UniformDH.Size (net c0) (pk ++ l)) as (inc' & E & _); [by subst c0|done|].
  rewrite ztake_app in E by done. rewrite E in Hr. injection Hr as <- <-.
  apply IO_bind_inv in Hh as (pb & c4 & Hp & Hh). apply dh_inv in Hp as [Hp ->].
  apply IO_bind_inv in Hh as (ss & c5 & Hq & Hh). apply dh_inv in Hq as [Hq ->]. eauto.
Qed.
End lemmas.

(** The bytes behind the public key are padding up to the first occurrence of the
    magic value, the last 32 bytes of the second message. *)
Definition magic_unique (sent : list bytes) : Prop :=
  match sent with
  | hello :: first :: _ =>
      let n := zlen first - 32 in
      GoNet.first_mark (zdrop n first) (zdrop UniformDH.Size hello ++ ztake n first)
  | _ => False
  end.

Section theorems.
Context `{BlockCipherLaws} (netWrite : list bytes -> bytes -> option GoNet.net_error).

(** C24: obfs3 delivers what is written, for both directions.  A side whose
    handshake read what its peer sends first, and that writes the messages [ms],
    sends bytes that the peer, however they are segmented, handshakes with and
    reads back: whatever sizes the calls of [Read] ask for, none fails, what they
    return is the front of the messages, and one blocks only when all of them were
    read.  (The padding must not contain the magic value by chance.) *)
Theorem obfs3_delivers init ta tb netA netB ca1 ca2 kb cb0 la b ms ns :
  (forall sent b, netWrite sent b = None) ->
  newConn netWrite init None None (GoNet.mkSock netA [] ta false) = Some (Ok tt, ca1) ->
  Writes netWrite (b :: ms) ca1 = Some (Ok tt, ca2) ->
  hello netWrite (start (negb init) netB tb) = Some (Ok kb, cb0) ->
  GoNet.stream netA (concat (GoNet.sent (net cb0)) ++ la) ->
  GoNet.stream netB (concat (GoNet.sent (net ca2))) ->
  magic_unique (GoNet.sent (net ca2)) ->
  Forall (fun n => 0 <= n) ns ->
  exists cb1 outs r,
    newConn netWrite (negb init) None None (GoNet.mkSock netB [] tb false) = Some (Ok tt, cb1)
    /\ Reads ns cb1 = (outs, r)
    /\ ((r = Some (Ok tt) /\ concat outs `prefix_of` concat (b :: ms))
        \/ (r = None /\ concat outs = concat (b :: ms))).
Proof.
  intros Hw Ha1 Ha2 Hb0 HsA HsB Hmu Hns.
  destruct (obfs3_hello_inv _ Hw _ _ _ _ _ Hb0) as (xb & padB & tb' & Gb & _ & Eb0).
  rewrite Eb0 in HsA. cbn [net GoNet.sent concat] in HsA. rewrite app_nil_r, <- app_assoc in HsA.
  destruct (UniformDH.exchange _ _ _ _ Gb Gb) as (Lb & _).
  destruct (newConn_inv _ Hw _ _ _ _ _ _ Lb HsA Ha1) as (ka & ca0 & pb & ss & Ha0 & Hpb & Hss).
  destruct (obfs3_hello_inv _ Hw _ _ _ _ _ Ha0) as (xa & padA & ta' & Ga & LpadA & Ea0).
  destruct (UniformDH.exchange _ _ _ _ Ga Gb) as (La & _ & pa & pb' & ss' & Hpa & Hpb' & Hsa & Hsb & _).
  rewrite Hpb in Hpb'. injection Hpb' as <-. rewrite Hss in Hsa. injection Hsa as <-.
  destruct (obfs3_newConn_ok _ Hw _ _ _ _ _ _ _ _ _ Ha0 Lb Hpb Hss HsA) as (incA & _ & E1).
  rewrite Ha1 in E1. injection E1 as ->.
  eapply (Writes_magic _ Hw) in Ha2 as (pad2 & cts & Lp2 & Es & Ec); [|reflexivity|reflexivity].
  cbn [net GoNet.sent] in Es. rewrite Ea0 in Es. cbn [net GoNet.sent app] in Es.
  rewrite Es in HsB, Hmu. cbn [concat] in HsB. rewrite Ec, <- !app_assoc in HsB.
  unfold magic_unique in Hmu. cbv zeta in Hmu.
  assert (Ln : zlen (pad2 ++ magic init ss) - 32 = zlen pad2) by (zlen_simpl; rewrite zlen_magic; lia).
  rewrite Ln, zdrop_app, ztake_app, zdrop_app in Hmu by done.
  destruct (obfs3_newConn_ok _ Hw _ _ _ _ _ _ _ _ _ Hb0 La Hpa Hsb HsB) as (incB & HsB' & E2).
  eexists. edestruct (Reads_first ns) as (outs & r & Er & Ho); [exact Hns|..|eexists outs, r; split; [exact E2|];
    split; [exact Er|]]; rewrite ?negb_involutive; try reflexivity.
  - cbn [net GoNet.incoming]. rewrite app_assoc in HsB'. exact HsB'.
  - done.
  - apply zlen_magic.
  - zlen_simpl. change (maxPadding / 2) with 4097 in *. unfold maxPadding. lia.
  - rewrite Ctr.xor_from_twice in Ho. exact Ho.
Qed.
End theorems.
End Obfs3.

Section witnesses.
Import Obfs3 ToyCipher.
Definition w_write (sent : list bytes) (b : bytes) : option GoNet.net_error := None.
(** Private keys 5 and 6, and no padding. *)
Definition w_tape (k : Z) : bytes := be_encode 192 k ++ zrepeat 16 Byte.x00.
Definition w_conn (r : option (result error unit * conn)) : conn :=
  match r with Some (_, c) => c | None => start true [] [] end.
Definition key_of (k : Z) : UniformDH.PrivateKey :=
  match UniformDH.generateKey (be_encode 192 k) with
  | Ok x => x | _ => UniformDH.mkPrivate (UniformDH.mkPublic [] 0) 0
  end.
Definition w_key6 : UniformDH.PrivateKey := Eval vm_compute in key_of 6.
(** The client reads the server's hello in two segments, and writes two messages. *)
Definition w_netA : GoNet.reads := Eval vm_compute in
  let pk := UniformDH.keyBytes (UniformDH.public w_key6) in
  [(ztake 100 pk, None); (zdrop 100 pk ++ str "more", None)].
Definition w_ca1 := Eval vm_compute in w_conn (newConn w_write true None None (GoNet.mkSock w_netA [] (w_tape 5) false)).
Definition w_ca2 := Eval vm_compute in w_conn (Writes w_write [str "hello"; str "world"] w_ca1).
(** The server reads all that it sent, cut after 200 bytes. *)
Definition w_netB : GoNet.reads := Eval vm_compute in
  let l := concat (GoNet.sent (net w_ca2)) in [(ztake 200 l, None); (zdrop 200 l, None)].
Definition w_cb0 : conn := Eval vm_compute in w_conn
  (match hello w_write (start false w_netB (w_tape 6)) with Some (_, c) => Some (Ok tt, c) | None => None end).

Lemma obfs3_delivers_witness : exists cb1 outs r,
  newConn w_write (negb true) None None (GoNet.mkSock w_netB [] (w_tape 6) false) = Some (Ok tt, cb1)
  /\ Reads [3; 100] cb1 = (outs, r)
  /\ ((r = Some (Ok tt) /\ concat outs `prefix_of` concat [str "hello"; str "world"])
      \/ (r = None /\ concat outs = concat [str "hello"; str "world"])).
Proof.
  apply (obfs3_delivers w_write true (w_tape 5) (w_tape 6) w_netA w_netB w_ca1 w_ca2 w_key6 w_cb0
           (str "more") (str "hello") [str "world"] [3; 100]).
  - reflexivity.
  - vm_compute. reflexivity.
  - vm_compute. reflexivity.
  - vm_compute. reflexivity.
  - split; [vm_compute; reflexivity|repeat constructor].
  - split; [vm_compute; reflexivity|repeat constructor].
  - vm_compute. reflexivity.
  - repeat constructor; lia.
Defined.
End witnesses.
