(* ===== verification/SsTicket.v ===== *)
(** * Session tickets: [transports/scramblesuit/handshake_ticket.go]

    The ticket store, a map from server addresses to tickets that is
    checkpointed to a JSON file at every change.  The file is the map of JSON
    values that [encoding/json] reads and writes; what a [WriteFile] does to it is
    the environment's choice, and the clock is an argument. *)
From S2P Require Import Prelude GoStd Rand Drbg Framing ProbDist ReplayFilter Packet Ntor Handshake Obfs4 Args Links GoNet GoFloat GoText GoCrypto ObfsState.


Module SsTicket.

Definition ticketKeyLength : Z := 32.
Definition ticketLength : Z := 112.
Definition ticketLifetime : Z := 60 * 60 * 24 * 7.

Record ssTicket := mkTicket { key : bytes; ticket : bytes; issuedAt : Z }.
Record ssTicketJSON := mkJSON { KeyTicket : bytes; IssuedAt : Z }.

(** The file: an object whose values are looked at as structs, or no such thing. *)
Inductive file :=
| Tickets (l : list (bytes * Json.document))
| NotObject (v : Json.value)
| NotJson
| Unreadable.

(** The store, its file ([None]: it does not exist), and the outcomes of the
    calls of [WriteFile] to come; then they succeed. *)
Inductive outcome := Written | Failed (left : option file).
Record ssTicketStore := mkStore {
  store : gmap bytes ssTicket;
  disk : option file;
  outcomes : list outcome
}.

Inductive error :=
| InvalidTicket
| WriteError
| ReadError
| LoadError.

Definition isValid (now : Z) (t : ssTicket) : bool := i64 (issuedAt t + ticketLifetime) >? now.

(** [copy] of the raw bytes into the two arrays. *)
Definition fill (raw : bytes) (issued : Z) : ssTicket :=
  mkTicket (go_copy (zrepeat ticketKeyLength Byte.x00) raw)
           (go_copy (zrepeat ticketLength Byte.x00) (zdrop ticketKeyLength raw)) issued.
Definition newTicket (now : Z) (raw : bytes) : result error ssTicket :=
  if negb (zlen raw =? ticketKeyLength + ticketLength) then Err InvalidTicket
  else Ok (fill raw now).

(** [serialize]: the map is written whole. *)
Definition toJSON (t : ssTicket) : ssTicketJSON :=
  mkJSON (Base32.EncodeToString (key t ++ ticket t)) (issuedAt t).
Definition document_of (j : ssTicketJSON) : Json.document :=
  Json.Object [(str "key-ticket", Json.JString (KeyTicket j)); (str "issuedAt", Json.JInt (IssuedAt j))].
Definition encode (m : gmap bytes ssTicket) : file :=
  Tickets (map (fun kt => (kt.1, document_of (toJSON kt.2))) (map_to_list m)).
Definition serialize : M ssTicketStore error unit := fun s =>
  match outcomes s with
  | [] => (Ok tt, mkStore (store s) (Some (encode (store s))) [])
  | Written :: l => (Ok tt, mkStore (store s) (Some (encode (store s))) l)
  | Failed f :: l => (Err WriteError, mkStore (store s) f l)
  end.
Definition set_store (m : gmap bytes ssTicket) (s : ssTicketStore) : ssTicketStore :=
  mkStore m (disk s) (outcomes s).

(** [storeTicket]: failures are ignored. *)
Definition storeTicket (now : Z) (addr rawT : bytes) (s : ssTicketStore) : ssTicketStore :=
  match newTicket now rawT with
  | Ok t => (serialize (set_store (<[addr := t]> (store s)) s)).2
  | _ => s
  end.

(** [getTicket]: the ticket, and the error of the checkpoint. *)
Definition getTicket (now : Z) (addr : bytes) (s : ssTicketStore)
  : option ssTicket * result error unit * ssTicketStore :=
  match store s !! addr with
  | Some t =>
      let '(err, s) := serialize (set_store (delete addr (store s)) s) in
      (if isValid now t then Some t else None, err, s)
  | None => (None, Ok tt, s)
  end.

(** ** [loadTicketStore] *)

(** [json.Unmarshal] into a [ssTicketJSON]. *)
Definition set_field (k : bytes) (v : Json.value) (j : ssTicketJSON) : option ssTicketJSON :=
  if bool_decide (k = str "key-ticket") then
    s ← Json.to_string v (KeyTicket j); Some (mkJSON s (IssuedAt j))
  else if bool_decide (k = str "issuedat") then
    n ← Json.to_int v (IssuedAt j); Some (mkJSON (KeyTicket j) n)
  else Some j.
(** A value of the map: [Some None] is a nil pointer, for [null]. *)
Definition pointer (d : Json.document) : option (option ssTicketJSON) :=
  match d with
  | Json.Other Json.JNull => Some None
  | _ => Some <$> Json.Unmarshal set_field d (mkJSON [] 0)
  end.
(** Of equal keys the last one counts; a value of another type is an error. *)
Definition unmarshal (l : list (bytes * Json.document)) : option (gmap bytes (option ssTicketJSON)) :=
  foldl (fun r kd => m ← r; p ← pointer kd.2; Some (<[kd.1 := p]> m)) (Some ∅) l.

(** A ticket of the file; corrupted and expired ones are skipped. *)
Definition load_ticket (now : Z) (j : ssTicketJSON) : option ssTicket :=
  match Base32.DecodeString (KeyTicket j) with
  | Some raw =>
      if negb (zlen raw =? ticketKeyLength + ticketLength) then None
      else
        let t := fill raw (IssuedAt j) in
        if isValid now t then Some t else None
  | None => None
  end.
(** The loop visits every entry: a nil pointer is dereferenced. *)
Definition load_entries (now : Z) (m : gmap bytes (option ssTicketJSON))
  : result error (gmap bytes ssTicket) :=
  if decide (map_Forall (fun _ p => p <> None) m)
  then Ok (omap (fun p => p ≫= load_ticket now) m)
  else Panic "nil pointer dereference".

Definition loadTicketStore (now : Z) (f : option file) (outs : list outcome)
  : result error ssTicketStore :=
  match f with
  | None => Ok (mkStore ∅ f outs)
  | Some Unreadable => Err ReadError
  | Some NotJson => Err LoadError
  | Some (NotObject Json.JNull) => Ok (mkStore ∅ f outs)
  | Some (NotObject _) => Err LoadError
  | Some (Tickets l) =>
      match unmarshal l with
      | None => Err LoadError
      | Some m => s ← load_entries now m; Ok (mkStore s f outs)
      end
  end.

(** ** Lemmas *)

Definition ticket_wf (t : ssTicket) : Prop :=
  zlen (key t) = ticketKeyLength /\ zlen (ticket t) = ticketLength
  /\ - 2 ^ 63 <= issuedAt t < 2 ^ 63.
Definition store_wf (s : ssTicketStore) : Prop := map_Forall (fun _ => ticket_wf) (store s).

Lemma fill_app k t n : zlen k = ticketKeyLength -> zlen t = ticketLength ->
  fill (k ++ t) n = mkTicket k t n.
Proof.
  intros Hk Ht. unfold fill. rewrite (zdrop_app _ k t) by done.
  rewrite (go_copy_full _ t) by (by rewrite zlen_zrepeat). f_equal. unfold go_copy.
  rewrite zlen_zrepeat, zdrop_ge, app_nil_r by (zlen_simpl; unfold ticketKeyLength, ticketLength in *; lia).
  apply ztake_app. rewrite Hk. done.
Qed.
Lemma fill_raw raw n : zlen raw = ticketKeyLength + ticketLength ->
  zlen (key (fill raw n)) = ticketKeyLength /\ zlen (ticket (fill raw n)) = ticketLength
  /\ key (fill raw n) ++ ticket (fill raw n) = raw.
Proof.
  intros Hr. unfold ticketKeyLength, ticketLength in *.
  assert (E : fill raw n = mkTicket (ztake 32 raw) (zdrop 32 raw) n).
  { rewrite <- (ztake_zdrop 32 raw) at 1. apply fill_app; zlen_simpl; unfold ticketKeyLength, ticketLength; lia. }
  rewrite E. cbn. zlen_simpl. rewrite ztake_zdrop. repeat split; lia.
Qed.

Lemma load_toJSON now t : ticket_wf t ->
  load_ticket now (toJSON t) = if isValid now t then Some t else None.
Proof.
  intros (Hk & Ht & _). unfold load_ticket, toJSON. cbn [KeyTicket IssuedAt].
  rewrite Base32.Base32_roundtrip.
  - rewrite zlen_app, Hk, Ht. cbn [negb Z.eqb]. rewrite fill_app by done. by destruct t.
  - right. unfold zlen in Hk, Ht. rewrite length_app.
    replace (length (key t) + length (ticket t))%nat with 144%nat
      by (unfold ticketKeyLength, ticketLength in *; lia). done.
Qed.

Lemma pointer_document j : - 2 ^ 63 <= IssuedAt j < 2 ^ 63 ->
  pointer (document_of j) = Some (Some j).
Proof.
  intros Hi. unfold pointer, document_of, Json.Unmarshal. cbn [foldl fst snd mbind option_bind].
  change (Json.fold_key (str "key-ticket")) with (str "key-ticket").
  change (Json.fold_key (str "issuedAt")) with (str "issuedat").
  unfold set_field at 1. rewrite bool_decide_false by done. rewrite bool_decide_true by done.
  unfold set_field. rewrite bool_decide_true by done. cbn [Json.to_string mbind option_bind KeyTicket IssuedAt].
  unfold Json.to_int. rewrite leb_true, ltb_true by lia. cbn. by destruct j.
Qed.

Definition ins (m : gmap bytes (option ssTicketJSON)) (kt : bytes * ssTicket) :=
  <[kt.1 := Some (toJSON kt.2)]> m.
Lemma unmarshal_list l : forall acc, Forall (fun kt => ticket_wf kt.2) l ->
  foldl (fun r kd => m ← r; p ← pointer kd.2; Some (<[kd.1 := p]> m)) (Some acc)
    (map (fun kt : bytes * ssTicket => (kt.1, document_of (toJSON kt.2))) l)
  = Some (foldl ins acc l).
Proof.
  induction l as [|[k t] l IH]; intros acc Hf; [done|]. apply Forall_cons in Hf as [(_ & _ & Hi) Hf].
  cbn [map foldl fst snd mbind option_bind]. rewrite pointer_document by done. cbn [mbind option_bind].
  by apply IH.
Qed.
Lemma foldl_ins l : forall acc k, NoDup l.*1 ->
  foldl ins acc l !! k
  = match (list_to_map l : gmap bytes ssTicket) !! k with
    | Some t => Some (Some (toJSON t))
    | None => acc !! k
    end.
Proof.
  induction l as [|[k' t] l IH]; intros acc k Hn; cbn [foldl].
  - by rewrite list_to_map_nil, lookup_empty.
  - apply NoDup_cons in Hn as [Hk Hn]. rewrite IH by done. unfold ins. cbn [fst snd list_to_map].
    change (list_to_map ((k', t) :: l)) with (<[k' := t]> (list_to_map l : gmap bytes ssTicket)).
    destruct (decide (k' = k)) as [->|Hne].
    + rewrite lookup_insert_eq, not_elem_of_list_to_map_1 by done. by rewrite lookup_insert_eq.
    + by rewrite !lookup_insert_ne by done.
Qed.

Lemma unmarshal_encode m : map_Forall (fun _ => ticket_wf) m ->
  unmarshal (map (fun kt => (kt.1, document_of (toJSON kt.2))) (map_to_list m))
  = Some (Some ∘ toJSON <$> m).
Proof.
  intros Hm. unfold unmarshal. rewrite unmarshal_list.
  - f_equal. apply map_eq. intros k. rewrite foldl_ins by apply NoDup_fst_map_to_list.
    rewrite list_to_map_to_list, lookup_fmap, lookup_empty. by destruct (m !! k).
  - apply Forall_forall. intros [k t] Hin. apply elem_of_map_to_list in Hin. by apply (Hm k).
Qed.

(** The tickets of a map that are still valid. *)
Definition valid_at (now : Z) (m : gmap bytes ssTicket) : gmap bytes ssTicket :=
  omap (fun t => if isValid now t then Some t else None) m.

(** What is written is read back, without the expired tickets. *)
Lemma load_encode now m outs : map_Forall (fun _ => ticket_wf) m ->
  loadTicketStore now (Some (encode m)) outs = Ok (mkStore (valid_at now m) (Some (encode m)) outs).
Proof.
  intros Hm. unfold loadTicketStore, encode. rewrite unmarshal_encode by done.
  unfold load_entries. rewrite decide_True.
  - cbn [mbind result_bind]. do 2 f_equal. apply map_eq. intros k. unfold valid_at.
    rewrite !lookup_omap, lookup_fmap. destruct (m !! k) as [t|] eqn:Ek; [|done]. cbn.
    apply load_toJSON. by apply (Hm k).
  - intros k p. rewrite lookup_fmap. destruct (m !! k); cbn; intros; by simplify_eq.
Qed.

Lemma valid_at_subset now m k t : valid_at now m !! k = Some t -> m !! k = Some t.
Proof.
  unfold valid_at. rewrite lookup_omap. destruct (m !! k) as [t'|]; [|done]. cbn.
  case_match; [|done]. by intros [= ->].
Qed.

Lemma newTicket_wf now raw t : - 2 ^ 63 <= now < 2 ^ 63 -> newTicket now raw = Ok t ->
  ticket_wf t /\ key t ++ ticket t = raw /\ zlen raw = ticketKeyLength + ticketLength.
Proof.
  intros Hn. unfold newTicket. destruct (zlen raw =? _) eqn:E; [|done]. b2p. intros [= <-].
  destruct (fill_raw raw now E) as (Hk & Ht & Hr).
  split; [split; [exact Hk|split; [exact Ht|exact Hn]]|done].
Qed.

(** ** The store over time *)

(** The operations of a process, and its end with the start of the next. *)
Inductive op :=
| StoreTicket (now : Z) (addr raw : bytes)
| GetTicket (now : Z) (addr : bytes)
| Restart (now : Z).

(** The tickets that were handed out, with their addresses. *)
Fixpoint run_ops (ops : list op) (s : ssTicketStore) : result error (list (bytes * bytes) * ssTicketStore) :=
  match ops with
  | [] => Ok ([], s)
  | StoreTicket now addr raw :: ops => run_ops ops (storeTicket now addr raw s)
  | GetTicket now addr :: ops =>
      let '(t, _, s) := getTicket now addr s in
      '(l, s) ← run_ops ops s;
      Ok (match t with Some t => (addr, key t ++ ticket t) :: l | None => l end, s)
  | Restart now :: ops => s ← loadTicketStore now (disk s) (outcomes s); run_ops ops s
  end.

Definition clock_ok (o : op) : Prop :=
  match o with StoreTicket now _ _ => - 2 ^ 63 <= now < 2 ^ 63 | _ => True end.
(** What was stored, and what was handed out, for an address. *)
Definition stored (addr : bytes) (ops : list op) : list bytes :=
  omap (fun o => match o with
                 | StoreTicket _ a raw =>
                     if bool_decide (a = addr /\ zlen raw = ticketKeyLength + ticketLength)
                     then Some raw else None
                 | _ => None
                 end) ops.
Definition handed (addr : bytes) (l : list (bytes * bytes)) : list bytes :=
  omap (fun ar => if bool_decide (ar.1 = addr) then Some ar.2 else None) l.

(** The file holds a map [m] that the store is part of. *)
Definition synced (m : gmap bytes ssTicket) (s : ssTicketStore) : Prop :=
  map_Forall (fun _ => ticket_wf) m /\ outcomes s = []
  /\ (disk s = Some (encode m) \/ (disk s = None /\ m = ∅)) /\ store s ⊆ m.
Definition raw_of (m : gmap bytes ssTicket) (addr : bytes) : list bytes :=
  match m !! addr with Some t => [key t ++ ticket t] | None => [] end.

Lemma subset_wf (m1 m2 : gmap bytes ssTicket) : m1 ⊆ m2 ->
  map_Forall (fun _ => ticket_wf) m2 -> map_Forall (fun _ => ticket_wf) m1.
Proof. intros Hs Hf k t Hk. eapply Hf, lookup_weaken; done. Qed.

Lemma serialize_synced m s : outcomes s = [] -> map_Forall (fun _ => ticket_wf) m ->
  exists s', serialize (set_store m s) = (Ok tt, s') /\ store s' = m /\ synced m s'.
Proof.
  intros Ho Hm. unfold serialize, set_store. cbn. rewrite Ho. eexists. split; [done|].
  split; [done|]. split_and!; [done|done|by left|done].
Qed.

Lemma raw_of_subset m1 m2 addr : m1 ⊆ m2 -> raw_of m1 addr `sublist_of` raw_of m2 addr.
Proof.
  intros Hs. unfold raw_of. destruct (m1 !! addr) as [t|] eqn:E; [|apply sublist_nil_l].
  by rewrite (lookup_weaken _ _ _ _ E Hs).
Qed.

Lemma Restart_synced now m s : synced m s ->
  exists s', loadTicketStore now (disk s) (outcomes s) = Ok s' /\ synced m s'.
Proof.
  intros (Hm & Ho & [Hd|[Hd Hm0]] & Hs); rewrite Hd.
  - rewrite load_encode by done. eexists. split; [done|]. split_and!; [done|done|by left|].
    apply map_subseteq_spec. intros k t. cbn [store]. apply valid_at_subset.
  - eexists. split; [done|]. split_and!; [done|done|by right|]. subst m. done.
Qed.

Lemma Store_synced now addr raw m s : - 2 ^ 63 <= now < 2 ^ 63 -> synced m s ->
  exists m', synced m' (storeTicket now addr raw s)
    /\ forall a, raw_of m' a `sublist_of` raw_of m a ++ stored a [StoreTicket now addr raw].
Proof.
  intros Hn (Hm & Ho & Hd & Hs). unfold storeTicket. destruct (newTicket now raw) as [t| |] eqn:E.
  2, 3: exists m; split; [done|]; intros a; apply sublist_inserts_r; done.
  destruct (newTicket_wf _ _ _ Hn E) as (Ht & Er & Hr).
  destruct (serialize_synced (<[addr := t]> (store s)) s Ho) as (s' & -> & _ & Hs').
  { apply map_Forall_insert_2; [done|]. by eapply subset_wf. }
  eexists. split; [done|]. intros a. unfold stored, raw_of at 1. cbn [omap list_omap].
  destruct (decide (addr = a)) as [->|Hne].
  - rewrite lookup_insert_eq, bool_decide_true by done. rewrite Er. by apply sublist_inserts_l.
  - rewrite lookup_insert_ne, bool_decide_false by (done || tauto). rewrite app_nil_r.
    by apply raw_of_subset.
Qed.

Lemma Get_synced now addr m s t err s' : synced m s -> getTicket now addr s = (t, err, s') ->
  exists m', synced m' s' /\ forall a,
    (match t with Some t => handed a [(addr, key t ++ ticket t)] | None => [] end) ++ raw_of m' a
    `sublist_of` raw_of m a.
Proof.
  intros Hsy. pose proof Hsy as (Hm & Ho & Hd & Hs). unfold getTicket.
  destruct (store s !! addr) as [t0|] eqn:E; [|intros [= <- <- <-]; by exists m].
  destruct (serialize_synced (delete addr (store s)) s Ho) as (s1 & -> & _ & Hs1).
  { apply map_Forall_delete. by eapply subset_wf. }
  intros [= <- <- <-]. eexists. split; [done|]. intros a.
  destruct (decide (addr = a)) as [->|Hne].
  - unfold raw_of. rewrite lookup_delete_eq, (lookup_weaken _ _ _ _ E Hs), app_nil_r.
    destruct (isValid now t0); [|apply sublist_nil_l]. unfold handed. cbn.
    by rewrite bool_decide_true.
  - assert (Hp : (match (if isValid now t0 then Some t0 else None) with
                  | Some t => handed a [(addr, key t ++ ticket t)] | None => [] end) = []).
    { destruct (isValid now t0); [|done]. unfold handed. cbn. by rewrite bool_decide_false. }
    rewrite Hp. cbn [app]. etrans; [|by apply raw_of_subset].
    unfold raw_of. by rewrite lookup_delete_ne.
Qed.

Lemma stored_cons a o ops : stored a (o :: ops) = stored a [o] ++ stored a ops.
Proof. unfold stored. cbn [omap list_omap]. by case_match. Qed.
Lemma handed_cons a x l : handed a (x :: l) = handed a [x] ++ handed a l.
Proof. unfold handed. cbn [omap list_omap]. by case_match. Qed.

Lemma run_ops_synced ops : forall m s, Forall clock_ok ops -> synced m s ->
  exists l s', run_ops ops s = Ok (l, s')
    /\ forall a, handed a l `sublist_of` raw_of m a ++ stored a ops.
Proof.
  induction ops as [|[now addr raw|now addr|now] ops IH]; intros m s Hc Hs; cbn [run_ops].
  - eexists [], s. split; [done|]. intros a. apply sublist_nil_l.
  - apply Forall_cons in Hc as [Hn Hc].
    destruct (Store_synced now addr raw m s Hn Hs) as (m' & Hs' & Hm').
    destruct (IH m' _ Hc Hs') as (l & s' & -> & Hl). exists l, s'. split; [done|]. intros a.
    etrans; [apply Hl|]. rewrite stored_cons, app_assoc. by apply sublist_app.
  - apply Forall_cons in Hc as [_ Hc].
    destruct (getTicket now addr s) as [[t err] s1] eqn:E.
    destruct (Get_synced _ _ _ _ _ _ _ Hs E) as (m' & Hs' & Hm').
    destruct (IH m' _ Hc Hs') as (l & s' & -> & Hl). eexists _, s'. split; [done|]. intros a.
    rewrite stored_cons. change (stored a [GetTicket now addr]) with (@nil bytes). cbn [app].
    specialize (Hm' a). specialize (Hl a).
    assert (Hx : (match t with Some t => handed a [(addr, key t ++ ticket t)] | None => [] end) ++ handed a l
                 `sublist_of` raw_of m a ++ stored a ops).
    { etrans; [by apply sublist_app; [|exact Hl]|]. rewrite app_assoc. by apply sublist_app. }
    destruct t; [|done]. by rewrite handed_cons.
  - apply Forall_cons in Hc as [_ Hc].
    destruct (Restart_synced now m s Hs) as (s1 & -> & Hs1). cbn [mbind result_bind].
    destruct (IH m s1 Hc Hs1) as (l & s' & -> & Hl). exists l, s'. split; [done|]. intros a.
    rewrite stored_cons. apply Hl.
Qed.

(** A [null] in the file is a nil pointer that is dereferenced at start-up. *)
Lemma null_entry_panics now addr outs :
  loadTicketStore now (Some (Tickets [(addr, Json.Other Json.JNull)])) outs
  = Panic "nil pointer dereference".
Proof.
  unfold loadTicketStore, unmarshal, load_entries. cbn [foldl mbind option_bind fst snd pointer].
  rewrite decide_False; [done|]. intros Hm. apply (Hm addr None); [|done]. apply lookup_insert_eq.
Qed.

(** C23: a session ticket is used at most once, also across restarts.  Starting
    without a file, with writes that succeed, any sequence of tickets received,
    tickets asked for and restarts of the process goes through (the file is always
    read back), and for every server the tickets handed out are, in order and
    without repetition, among those that the server sent. *)
Theorem ticket_single_use ops :
  Forall clock_ok ops ->
  exists l s, run_ops ops (mkStore ∅ None []) = Ok (l, s)
    /\ forall addr, handed addr l `sublist_of` stored addr ops.
Proof.
  intros Hc. destruct (run_ops_synced ops ∅ (mkStore ∅ None []) Hc) as (l & s & E & Hl).
  - split_and!; [apply map_Forall_empty|done|by right|done].
  - exists l, s. split; [done|]. intros addr. specialize (Hl addr). unfold raw_of in Hl.
    by rewrite lookup_empty in Hl.
Qed.
End SsTicket.

Section witnesses.
Import SsTicket.
(** A ticket is stored, survives a restart, is handed out once. *)
Definition w_ops : list op :=
  [StoreTicket 1000 (str "192.0.2.1:443") (zrepeat 144 Byte.x61); Restart 1001;
   GetTicket 1002 (str "192.0.2.1:443"); Restart 1003; GetTicket 1004 (str "192.0.2.1:443")].
Lemma ticket_single_use_witness : exists l s, run_ops w_ops (mkStore ∅ None []) = Ok (l, s)
  /\ forall addr, handed addr l `sublist_of` stored addr w_ops.
Proof. apply (ticket_single_use w_ops). repeat constructor; done. Defined.
Example ticket_used : exists s, run_ops w_ops (mkStore ∅ None [])
  = Ok ([(str "192.0.2.1:443", zrepeat 144 Byte.x61)], s).
Proof. eexists. vm_compute. reflexivity. Qed.
End witnesses.
