(* ===== verification/Scramble.v ===== *)
(** * The packets of scramblesuit: [hkdf_expand.go] and [conn.go]

    Key derivation, [makePacket] and [readPackets] with its partial state,
    [Read], [Write] and [padBurst].  The handshakes are in [SsHandshake.v]. *)
From S2P Require Import Prelude GoStd Rand Drbg Framing ProbDist Packet GoNet GoFloat GoText GoCrypto SsTicket.

Module Scramble.

Definition maxSegmentLength : Z := 1448.
Definition maxPayloadLength : Z := 1427.
Definition macLength : Z := 128 / 8.
Definition minLenDistLength : Z := 21.
Definition maxLenDistLength : Z := maxSegmentLength.
Definition keyLength : Z := 32 + 8 + 32.
Definition kdfSecretLength : Z := keyLength * 2.
Definition pktPrngSeedLength : Z := 32.
Definition pktHdrLength : Z := 2 + 2 + 1.
Definition pktOverhead : Z := macLength + pktHdrLength.
Definition pktPayload : Z := 1.
Definition pktNewTicket : Z := Z.shiftl 1 1.
Definition pktPrngSeed : Z := Z.shiftl 1 2.
Definition zeroPadBytes : bytes := zrepeat maxPayloadLength Byte.x00.

(** ** [hkdfExpand] over SHA-256 *)
Fixpoint expand_loop (fuel : nat) (prk info t okm : bytes) (ctr toAppend : Z) : bytes :=
  match fuel with
  | O => okm
  | S fuel =>
      if toAppend >? 0 then
        let t := Hmac.sum prk (t ++ info ++ [z2b ctr]) in
        let aLen := if toAppend <? Sha256.Size then toAppend else Sha256.Size in
        expand_loop fuel prk info t (okm ++ ztake aLen t) (u8 (ctr + 1)) (toAppend - aLen)
      else okm
  end.
(** A round appends at least one byte. *)
Definition hkdfExpand {E} (prk info : bytes) (l : Z) : result E bytes :=
  if l >? 255 * Sha256.Size then Panic "hkdf: requested OKM length > 255*HashLen"
  else Ok (expand_loop (Z.to_nat l) prk info [] [] 1 l).

(** ** The link crypto *)

Inductive error :=
| InvalidPacket
| NotSupported
| NetErr (e : GoNet.error)
| KeySizeError.

(** A cipher stream, and a MAC: its key and the bytes since the last [Reset]. *)
Record ssCryptoState := mkCrypto { s : Ctr.Stream; macKey : bytes; macBuf : bytes }.

Definition initialCtr : bytes := be_encode 8 1.

Section crypto.
Context `{BlockCipher}.

Definition newCryptoState (aesKey ivPrefix macKey : bytes) : result error ssCryptoState :=
  if valid_key aesKey then Ok (mkCrypto (Ctr.NewCTR aesKey (ivPrefix ++ initialCtr)) macKey [])
  else Err KeySizeError.

Definition xor (src : bytes) : M ssCryptoState error bytes := fun k =>
  let '(dst, st) := Ctr.XORKeyStream src (s k) in (Ok dst, mkCrypto st (macKey k) (macBuf k)).
Definition mac_Reset (k : ssCryptoState) : ssCryptoState := mkCrypto (s k) (macKey k) [].
Definition mac_Write (b : bytes) (k : ssCryptoState) : ssCryptoState :=
  mkCrypto (s k) (macKey k) (macBuf k ++ b).
Definition mac_Sum (k : ssCryptoState) : bytes := ztake macLength (Hmac.sum (macKey k) (macBuf k)).

(** [okm] is cut into the keys of both directions. *)
Definition initCrypto (seed : bytes) : result error (ssCryptoState * ssCryptoState) :=
  okm ← hkdfExpand seed [] kdfSecretLength;
  let cut lo hi := ztake (hi - lo) (zdrop lo okm) in
  tx ← newCryptoState (cut 0 32) (cut 32 40) (cut 80 112);
  rx ← newCryptoState (cut 40 72) (cut 72 80) (cut 112 144);
  Ok (tx, rx).

(** ** [makePacket]: the value is what is written to the buffer *)
Definition packet_bytes (pktType : Z) (data : bytes) (padLen : Z) : bytes :=
  be_encode 2 (u16 (zlen data + padLen)) ++ be_encode 2 (u16 (zlen data)) ++ [z2b pktType]
  ++ data ++ ztake padLen zeroPadBytes.
Definition makePacket (pktType : Z) (data : bytes) (padLen : Z) : M ssCryptoState error bytes :=
  if zlen data + padLen >? maxPayloadLength then panic "BUG: makePacket() len(data) + padLen"
  else if padLen <? 0 then panic "slice bounds out of range"
  else
    pkt ← xor (packet_bytes pktType data padLen);
    _ ← modify (fun k => mac_Write pkt (mac_Reset k));
    mac ← gets mac_Sum;
    mret (mac ++ pkt).

(** [padBurst]: the new contents of [burst]. *)
Definition pad_length (burstLen sampleLen : Z) : Z :=
  let dataLen := burstLen mod maxSegmentLength in
  let padLen := if sampleLen >=? dataLen then sampleLen - dataLen
                else (maxSegmentLength - dataLen) + sampleLen in
  if padLen <? pktOverhead then padLen + maxSegmentLength else padLen.
Definition padBurst (burst : bytes) (sampleLen : Z) : M ssCryptoState error bytes :=
  let padLen := pad_length (zlen burst) sampleLen in
  if padLen =? 0 then mret burst
  else if padLen >? maxSegmentLength then
    p1 ← makePacket pktPayload [] (700 - pktOverhead);
    p2 ← makePacket pktPayload [] (padLen - (700 + 2 * pktOverhead));
    mret ((burst ++ p1) ++ p2)
  else
    p ← makePacket pktPayload [] (padLen - pktOverhead);
    mret (burst ++ p).
End crypto.

(** ** The connection *)

Record ssRxState := mkRx { mac : option bytes; hdr : option bytes; totalLen : Z; payloadLen : Z }.
Definition noRx : ssRxState := mkRx None None 0 0.

(** What [readPackets] parses with, and what packets act on.  [addr] is
    [conn.RemoteAddr ().String ()]. *)
Record rxs := mkRxs { receiveBuffer : bytes; receiveState : ssRxState; rxCrypto : ssCryptoState }.
Record ssApp := mkApp {
  isServer : bool;
  lenDist : ProbDist.WeightedDist;
  receiveDecodedBuffer : bytes;
  ticketStore : SsTicket.ssTicketStore;
  addr : bytes
}.
Record conn := mkConn { rx : rxs; ap : ssApp }.

(** How an iteration of the loop ends early: [break] or [return]. *)
Inductive stop := Break | Return (e : error).
Abbreviation R := (M rxs stop).

Section packets.
Context `{SipHash} `{BlockCipher}.
(** The draws [math/rand] may need in [WeightedDist.Reset], and the clock. *)
Context (fuel : nat) (now : Z).

(** Take [n] bytes from the buffer, or [break]. *)
Definition take_bytes (n : Z) : R bytes := fun r =>
  if zlen (receiveBuffer r) <? n then (Err Break, r)
  else (Ok (ztake n (receiveBuffer r)), mkRxs (zdrop n (receiveBuffer r)) (receiveState r) (rxCrypto r)).
Definition set_state (st : ssRxState) : R unit :=
  modify (fun r => mkRxs (receiveBuffer r) st (rxCrypto r)).
(** Digest, then decrypt. *)
Definition digest_xor (first : bool) (b : bytes) : R bytes := fun r =>
  let k := if first then mac_Reset (rxCrypto r) else rxCrypto r in
  match xor b (mac_Write b k) with
  | (Ok p, k) => (Ok p, mkRxs (receiveBuffer r) (receiveState r) k)
  | (Err e, k) => (Err (Return e), mkRxs (receiveBuffer r) (receiveState r) k)
  | (Panic w, k) => (Panic w, mkRxs (receiveBuffer r) (receiveState r) k)
  end.

Definition read_mac : R unit :=
  st ← gets receiveState;
  match mac st with
  | Some _ => mret tt
  | None =>
      m ← take_bytes macLength;
      set_state (mkRx (Some m) (hdr st) (totalLen st) (payloadLen st))
  end.
Definition read_hdr : R unit :=
  st ← gets receiveState;
  match hdr st with
  | Some _ => mret tt
  | None =>
      h ← take_bytes pktHdrLength;
      h ← digest_xor true h;
      let totalLen := be_decode (ztake 2 h) in
      let payloadLen := be_decode (ztake 2 (zdrop 2 h)) in
      if (payloadLen >? totalLen) || (totalLen >? maxPayloadLength) then fail (Return InvalidPacket)
      else set_state (mkRx (mac st) (Some h) totalLen payloadLen)
  end.
Definition read_data : R bytes :=
  st ← gets receiveState;
  data ← (if totalLen st >? 0 then
            d ← take_bytes (totalLen st); digest_xor false d
          else mret []);
  cmpMAC ← gets (fun r => mac_Sum (rxCrypto r));
  if negb (Hmac.Equal cmpMAC (default [] (mac st))) then fail (Return InvalidPacket)
  else slice 0 (payloadLen st) data.

(** The [switch] on the packet's flags. *)
Definition handle (pktType : Z) (data : bytes) : M ssApp error unit := fun a =>
  if pktType =? pktPayload then
    (Ok tt, mkApp (isServer a) (lenDist a) (receiveDecodedBuffer a ++ data) (ticketStore a) (addr a))
  else if pktType =? pktNewTicket then
    if isServer a || negb (zlen data =? SsTicket.ticketKeyLength + SsTicket.ticketLength)
    then (Err InvalidPacket, a)
    else (Ok tt, mkApp (isServer a) (lenDist a) (receiveDecodedBuffer a)
                   (SsTicket.storeTicket now (addr a) data (ticketStore a)) (addr a))
  else if pktType =? pktPrngSeed then
    if isServer a || negb (zlen data =? pktPrngSeedLength) then (Err InvalidPacket, a)
    else
      match Drbg.SeedFromBytes data with
      | Ok seed =>
          match ProbDist.Reset fuel seed (lenDist a) with
          | Ok d => (Ok tt, mkApp (isServer a) d (receiveDecodedBuffer a) (ticketStore a) (addr a))
          | Err _ => (Panic "nil pointer dereference", a)
          | Panic w => (Panic w, a)
          end
      | Err _ => (Err InvalidPacket, a)
      | Panic w => (Panic w, a)
      end
  else (Err InvalidPacket, a).

(** An iteration of the loop. *)
Definition on_rx {A} (m : R A) : M conn stop A := on_part rx (fun r c => mkConn r (ap c)) m.
Definition iteration : M conn stop unit :=
  _ ← on_rx read_mac;
  _ ← on_rx read_hdr;
  data ← on_rx read_data;
  h ← gets (fun c => default [] (hdr (receiveState (rx c))));
  _ ← on_part ap (fun a c => mkConn (rx c) a)
        (map_err Return (handle (be_decode (zdrop 4 h)) data));
  on_rx (set_state noRx).

Fixpoint loop (k : nat) : M conn error unit := fun c =>
  match k with
  | O => (Panic out_of_fuel, c)
  | S k =>
      if zlen (receiveBuffer (rx c)) >? 0 then
        match iteration c with
        | (Ok _, c) => loop k c
        | (Err Break, c) => (Ok tt, c)
        | (Err (Return e), c) => (Err e, c)
        | (Panic w, c) => (Panic w, c)
        end
      else (Ok tt, c)
  end.

(** [readPackets] when the network's [Read] returns [rd] and [rdErr].  A first
    iteration may finish a packet without taking bytes, the others take some. *)
Definition extend (rd : bytes) (c : conn) : conn :=
  mkConn (mkRxs (receiveBuffer (rx c) ++ rd) (receiveState (rx c)) (rxCrypto (rx c))) (ap c).
Definition readPackets (rd : bytes) (rdErr : option GoNet.net_error) : M conn error unit := fun c =>
  let c := extend rd c in
  match loop (S (S (length (receiveBuffer (rx c))))) c with
  | (Ok _, c) => (match rdErr with Some e => Err (NetErr (GoNet.NetError e)) | None => Ok tt end, c)
  | r => r
  end.

(** ** [Read] and [Write] *)

(** The loop of [Read]; [None] when it blocks. *)
Fixpoint fill (k : nat) (net : GoNet.reads) (c : conn)
  : option (result error unit * conn * GoNet.reads) :=
  if zlen (receiveDecodedBuffer (ap c)) =? 0 then
    match k with
    | O => Some (Panic out_of_fuel, c, net)
    | S k =>
        match GoNet.read_net maxSegmentLength net with
        | None => None
        | Some (rd, e, net) =>
            match readPackets rd e c with
            | (Ok _, c) => fill k net c
            | (r, c) => Some (r, c, net)
            end
        end
    end
  else Some (Ok tt, c, net).

(** [Read (b)] with [len (b) = n]: the bytes read, and the error.  Every call of
    the network's [Read] uses up a segment, or a full buffer of one. *)
Definition net_rounds (net : GoNet.reads) : nat :=
  length net + length (concat (map fst net)).
Definition Read (n : Z) (net : GoNet.reads) (c : conn)
  : option (bytes * result error unit * conn * GoNet.reads) :=
  match fill (S (net_rounds net)) net c with
  | None => None
  | Some (r, c, net) =>
      let a := ap c in
      let buf := receiveDecodedBuffer a in
      Some (ztake n buf, r,
            mkConn (rx c) (mkApp (isServer a) (lenDist a) (zdrop n buf) (ticketStore a) (addr a)), net)
  end.

(** What [Write] works on: the cipher of its direction and the socket. *)
Record wstate := mkW { txCrypto : ssCryptoState; net : GoNet.sock }.
Context (netWrite : list bytes -> bytes -> option GoNet.net_error).

Fixpoint chop (k : nat) (p : bytes) : list bytes :=
  match k with
  | O => []
  | S k =>
      match p with
      | [] => []
      | _ => ztake maxPayloadLength p :: chop k (zdrop maxPayloadLength p)
      end
  end.
Fixpoint makePackets (ps : list bytes) : M ssCryptoState error bytes :=
  match ps with
  | [] => mret []
  | p :: ps => f ← makePacket pktPayload p 0; fs ← makePackets ps; mret (f ++ fs)
  end.
Definition with_crypto {A} (m : M ssCryptoState error A) : M wstate error A :=
  on_part txCrypto (fun k w => mkW k (net w)) m.
Definition sample (d : ProbDist.WeightedDist) : M wstate error Z := fun w =>
  match ProbDist.Sample d (GoNet.tape (net w)) with
  | (Ok v, t) => (Ok v, mkW (txCrypto w) (GoNet.mkSock (GoNet.incoming (net w)) (GoNet.sent (net w)) t (GoNet.closed (net w))))
  | (Err _, t) => (Panic "crypto/rand failed", w)
  | (Panic p, t) => (Panic p, w)
  end.
Definition conn_write (b : bytes) : M wstate error unit := fun w =>
  match netWrite (GoNet.sent (net w)) b with
  | Some e => (Err (NetErr (GoNet.NetError e)), w)
  | None => (Ok tt, mkW (txCrypto w) (GoNet.mkSock (GoNet.incoming (net w)) (GoNet.sent (net w) ++ [b])
                                      (GoNet.tape (net w)) (GoNet.closed (net w))))
  end.

(** [Write (b)], [d] being the connection's [lenDist]. *)
Definition Write (d : ProbDist.WeightedDist) (b : bytes) : M wstate error Z :=
  frames ← with_crypto (makePackets (chop (length b) b));
  l ← sample d;
  frameBuf ← with_crypto (padBurst frames l);
  _ ← conn_write frameBuf;
  mret (zlen b).

(** [SetDeadline], [SetReadDeadline] and [SetWriteDeadline]. *)
Definition SetDeadline : result error unit := Err NotSupported.
End packets.

(** ** What the receiver makes of sealed packets *)
Record packet := mkPacket { ptype : Z; pdata : bytes; ppad : Z }.
Definition packet_ok (p : packet) : Prop :=
  0 <= ptype p < 256 /\ 0 <= ppad p /\ zlen (pdata p) + ppad p <= maxPayloadLength.

Section stream.
Context `{SipHash} `{BlockCipher}.
Context (fuel : nat) (now : Z).

(** The two parts of a packet, in the clear. *)
Definition header (p : packet) : bytes :=
  be_encode 2 (u16 (zlen (pdata p) + ppad p)) ++ be_encode 2 (u16 (zlen (pdata p))) ++ [z2b (ptype p)].
Definition body (p : packet) : bytes := pdata p ++ ztake (ppad p) zeroPadBytes.
Definition body_len (p : packet) : Z := zlen (pdata p) + ppad p.

(** The parts enciphered at a position of a key stream, and the MAC. *)
Definition at_pos (k : ssCryptoState) (n : Z) (b : bytes) : bytes :=
  Ctr.xor_from (Ctr.key (s k)) (Ctr.iv (s k)) (Ctr.pos (s k) + n) b.
Definition cipher (k : ssCryptoState) (p : packet) : bytes :=
  at_pos k 0 (header p) ++ at_pos k 5 (body p).
Definition tag (k : ssCryptoState) (p : packet) : bytes :=
  ztake macLength (Hmac.sum (macKey k) (cipher k p)).
Definition skip (k : ssCryptoState) (n : Z) (b : bytes) : ssCryptoState :=
  mkCrypto (Ctr.mkStream (Ctr.key (s k)) (Ctr.iv (s k)) (Ctr.pos (s k) + n)) (macKey k) b.
Definition after (k : ssCryptoState) (p : packet) : ssCryptoState :=
  skip k (5 + body_len p) (cipher k p).
Fixpoint wire (k : ssCryptoState) (ps : list packet) : bytes :=
  match ps with [] => [] | p :: ps => tag k p ++ cipher k p ++ wire (after k p) ps end.

Lemma zlen_zeroPad n : 0 <= n <= maxPayloadLength -> zlen (ztake n zeroPadBytes) = n.
Proof. intros Hn. unfold zeroPadBytes. rewrite zlen_ztake, zlen_zrepeat. unfold maxPayloadLength in *. lia. Qed.
Lemma at_pos_twice k n b :
  Ctr.xor_from (Ctr.key (s k)) (Ctr.iv (s k)) (Ctr.pos (s k) + n) (at_pos k n b) = b.
Proof. apply Ctr.xor_from_twice. Qed.
Lemma at_pos_twice0 k b :
  Ctr.xor_from (Ctr.key (s k)) (Ctr.iv (s k)) (Ctr.pos (s k)) (at_pos k 0 b) = b.
Proof. unfold at_pos. by rewrite Z.add_0_r, Ctr.xor_from_twice. Qed.
Lemma zlen_at_pos k n b : zlen (at_pos k n b) = zlen b.
Proof. apply Ctr.zlen_xor_from. Qed.
Lemma zlen_header p : zlen (header p) = pktHdrLength.
Proof. unfold header. by rewrite !zlen_app, !zlen_be_encode. Qed.
Lemma zlen_body p : packet_ok p -> zlen (body p) = body_len p.
Proof.
  intros (_ & Hp & Hl). pose proof (zlen_nonneg (pdata p)). unfold body, body_len.
  rewrite zlen_app, zlen_zeroPad by lia. done.
Qed.
Lemma zlen_tag k p : zlen (tag k p) = macLength.
Proof. unfold tag. rewrite zlen_ztake, Hmac.zlen_sum. done. Qed.
Lemma zlen_cipher k p : packet_ok p -> zlen (cipher k p) = pktHdrLength + body_len p.
Proof. intros Hp. unfold cipher. by rewrite zlen_app, !zlen_at_pos, zlen_header, zlen_body. Qed.

(** [makePacket] sends exactly that. *)
Lemma makePacket_wire k p : packet_ok p ->
  makePacket (ptype p) (pdata p) (ppad p) k = (Ok (tag k p ++ cipher k p), after k p).
Proof.
  intros Hok. pose proof Hok as (Ht & Hp & Hl). unfold makePacket. rewrite gtb_false, ltb_false by lia.
  mrun. unfold xor, Ctr.XORKeyStream.
  assert (Ec : Ctr.xor_from (Ctr.key (s k)) (Ctr.iv (s k)) (Ctr.pos (s k))
                 (packet_bytes (ptype p) (pdata p) (ppad p)) = cipher k p).
  { unfold cipher, at_pos. rewrite Z.add_0_r. change (5) with (zlen (header p)) at 1.
    rewrite <- Ctr.xor_from_app. unfold header, body, packet_bytes. by rewrite <- !app_assoc. }
  rewrite Ec. unfold mac_Write, mac_Reset, mac_Sum, after, skip. cbn [s macKey macBuf app].
  do 3 f_equal. unfold packet_bytes. rewrite !zlen_app, !zlen_be_encode, zlen_zeroPad
    by (pose proof (zlen_nonneg (pdata p)); lia).
  change (zlen [z2b (ptype p)]) with 1. unfold body_len. lia.
Qed.

(** Packets acting one after the other. *)
Fixpoint deliver (ps : list packet) (a : ssApp) : result error unit * ssApp :=
  match ps with
  | [] => (Ok tt, a)
  | p :: ps =>
      match handle fuel now (ptype p) (pdata p) a with
      | (Ok _, a) => deliver ps a
      | r => r
      end
  end.

(** The header of a packet is read back. *)
Lemma ss_header_fields p : packet_ok p ->
  be_decode (ztake 2 (header p)) = body_len p
  /\ be_decode (ztake 2 (zdrop 2 (header p))) = zlen (pdata p)
  /\ be_decode (zdrop 4 (header p)) = ptype p.
Proof.
  intros (Ht & Hp & Hl). pose proof (zlen_nonneg (pdata p)). unfold maxPayloadLength in Hl. unfold header.
  rewrite ztake_app, zdrop_app by done. rewrite ztake_app by done.
  rewrite app_assoc, (zdrop_app 4) by done. rewrite !be_decode_encode. unfold u16.
  change (256 ^ Z.of_nat 2) with (2 ^ 16). rewrite !Z.mod_mod by done. unfold body_len.
  rewrite !Z.mod_small by lia. split; [done|]. split; [done|].
  unfold be_decode. cbn [foldl]. unfold be_acc. rewrite b2z_z2b, Z.mod_small by lia. lia.
Qed.

(** Where the receiver is, [p] being the next packet: before it, behind its MAC or
    behind its header.  [rest] is still in the network, [w] follows the packet. *)
Definition same (k r : ssCryptoState) : Prop := s r = s k /\ macKey r = macKey k.
Definition at_mac (k : ssCryptoState) (ps : list packet) (r : rxs) (rest : bytes) : Prop :=
  receiveState r = noRx /\ same k (rxCrypto r) /\ receiveBuffer r ++ rest = wire k ps.
Definition at_hdr (k : ssCryptoState) (p : packet) (ps : list packet) (r : rxs) (rest : bytes) : Prop :=
  receiveState r = mkRx (Some (tag k p)) None 0 0 /\ same k (rxCrypto r)
  /\ receiveBuffer r ++ rest = cipher k p ++ wire (after k p) ps.
Definition at_data (k : ssCryptoState) (p : packet) (ps : list packet) (r : rxs) (rest : bytes) : Prop :=
  receiveState r = mkRx (Some (tag k p)) (Some (header p)) (body_len p) (zlen (pdata p))
  /\ rxCrypto r = skip k 5 (at_pos k 0 (header p))
  /\ receiveBuffer r ++ rest = at_pos k 5 (body p) ++ wire (after k p) ps.

(** Taking bytes that are there, or not all there. *)
Lemma take_split n r rest u v : 0 <= n -> zlen u = n -> receiveBuffer r ++ rest = u ++ v ->
  (zlen (receiveBuffer r) < n /\ take_bytes n r = (Err Break, r))
  \/ (n <= zlen (receiveBuffer r)
      /\ take_bytes n r = (Ok u, mkRxs (zdrop n (receiveBuffer r)) (receiveState r) (rxCrypto r))
      /\ zdrop n (receiveBuffer r) ++ rest = v).
Proof.
  intros Hn Hu E. unfold take_bytes. destruct (zlen (receiveBuffer r) <? n) eqn:El; b2p; [by left|right].
  split; [done|]. split.
  - do 2 f_equal. rewrite <- (ztake_app_le n _ rest) by done. rewrite E. by apply ztake_app.
  - rewrite <- zdrop_app_le by done. rewrite E. by apply zdrop_app.
Qed.

Lemma read_mac_at k p ps r rest : at_mac k (p :: ps) r rest ->
  (zlen (receiveBuffer r) < macLength /\ read_mac r = (Err Break, r))
  \/ exists r', read_mac r = (Ok tt, r') /\ at_hdr k p ps r' rest
       /\ zlen (receiveBuffer r') + macLength = zlen (receiveBuffer r).
Proof.
  intros (Hst & Hs & E). cbn [wire] in E.
  unfold read_mac. mrun. rewrite Hst. cbn [mac hdr totalLen payloadLen noRx].
  destruct (take_split macLength r rest _ _ ltac:(done) (zlen_tag k p) E) as [[Hl ->]|(Hl & -> & E')];
    [by left|right].
  eexists. split; [reflexivity|]. cbn [receiveBuffer]. split; [by split_and!|].
  rewrite zlen_zdrop. change macLength with 16 in *. lia.
Qed.

Lemma read_hdr_at k p ps r rest : packet_ok p -> at_hdr k p ps r rest ->
  (zlen (receiveBuffer r) < pktHdrLength /\ read_hdr r = (Err Break, r))
  \/ exists r', read_hdr r = (Ok tt, r') /\ at_data k p ps r' rest
       /\ zlen (receiveBuffer r') + pktHdrLength = zlen (receiveBuffer r).
Proof.
  intros Hok (Hst & (Hs & Hm) & E). destruct (ss_header_fields p Hok) as (E1 & E2 & _).
  pose proof Hok as (_ & Hp & Hl). pose proof (zlen_nonneg (pdata p)).
  unfold cipher in E. rewrite <- app_assoc in E.
  unfold read_hdr. mrun. rewrite Hst. cbn [mac hdr].
  destruct (take_split pktHdrLength r rest _ _ ltac:(done)
    (eq_trans (zlen_at_pos k 0 (header p)) (zlen_header p)) E) as [[Hlt ->]|(Hge & -> & E')]; [by left|right].
  unfold digest_xor, xor, Ctr.XORKeyStream, mac_Write, mac_Reset. cbn [s macKey macBuf rxCrypto app].
  rewrite Hs, Hm, at_pos_twice0, E1, E2.
  rewrite !gtb_false by (unfold body_len; lia). cbn [orb]. unfold set_state. mrun.
  eexists. split; [reflexivity|]. cbn [receiveBuffer]. split.
  - split_and!; [done| |done]. unfold skip. cbn [receiveState rxCrypto].
    rewrite zlen_at_pos, zlen_header. done.
  - rewrite zlen_zdrop. change pktHdrLength with 5 in *. lia.
Qed.

Lemma Equal_refl l : Hmac.Equal l l = true.
Proof. unfold Hmac.Equal. by apply bool_decide_eq_true. Qed.

Lemma read_data_at k p ps r rest : packet_ok p -> at_data k p ps r rest ->
  (zlen (receiveBuffer r) < body_len p /\ read_data r = (Err Break, r))
  \/ exists r', read_data r = (Ok (pdata p), r')
       /\ receiveState r' = receiveState r /\ same (after k p) (rxCrypto r')
       /\ receiveBuffer r' ++ rest = wire (after k p) ps
       /\ zlen (receiveBuffer r') + body_len p = zlen (receiveBuffer r).
Proof.
  intros Hok (Hst & Hc & E). pose proof Hok as (_ & Hp & Hl). pose proof (zlen_nonneg (pdata p)).
  assert (Hb : 0 <= body_len p) by (unfold body_len; lia).
  unfold read_data. mrun. rewrite Hst. cbn [totalLen payloadLen mac].
  assert (Hd : forall l, l = body p -> gslice 0 (zlen (pdata p)) l = Some (pdata p)).
  { intros l ->. apply (gslice_app_mid [] (pdata p)); [done|]. rewrite zlen_nil. lia. }
  destruct (body_len p >? 0) eqn:Eb; b2p.
  - destruct (take_split (body_len p) r rest _ _ Hb (eq_trans (zlen_at_pos k 5 (body p)) (zlen_body p Hok)) E)
      as [[Hlt ->]|(Hge & -> & E')]; [by left|right].
    unfold digest_xor, xor, Ctr.XORKeyStream, mac_Write. cbn [rxCrypto].
    rewrite Hc. unfold skip. cbn [s macKey macBuf Ctr.key Ctr.iv Ctr.pos].
    rewrite at_pos_twice.
    unfold mac_Sum. cbn [macKey macBuf rxCrypto]. fold (cipher k p) (tag k p). cbn [default].
    change (default [] (Some (tag k p))) with (tag k p). rewrite Equal_refl. cbn [negb].
    rewrite Hd by done. eexists. split; [reflexivity|]. cbn [receiveState receiveBuffer rxCrypto].
    split; [by rewrite Hst|]. split; [|split; [done|rewrite zlen_zdrop; lia]].
    unfold same, after, skip. cbn [s macKey]. rewrite zlen_at_pos, zlen_body by done. split; [|done].
    f_equal. lia.
  - right. assert (Hn : body_len p = 0) by lia.
    assert (Hbn : body p = []) by (apply zlen_0; rewrite zlen_body; done).
    rewrite Hbn in E. cbn [at_pos Ctr.xor_from app] in E.
    rewrite Hc. unfold mac_Sum, skip. cbn [macKey macBuf].
    assert (Et : ztake macLength (Hmac.sum (macKey k) (at_pos k 0 (header p))) = tag k p).
    { unfold tag, cipher. rewrite Hbn. cbn [at_pos Ctr.xor_from]. by rewrite app_nil_r. }
    rewrite Et. change (default [] (Some (tag k p))) with (tag k p). rewrite Equal_refl. cbn [negb].
    rewrite Hd by done. exists r. split; [done|]. split; [done|].
    split; [|split; [exact E|lia]]. rewrite Hc. unfold same, after, skip. cbn [s macKey].
    by rewrite Hn.
Qed.

(** Between two calls the receiver waits for one of the three parts. *)
Definition ready (k : ssCryptoState) (ps : list packet) (r : rxs) (rest : bytes) : Prop :=
  at_mac k ps r rest
  \/ exists p ps', ps = p :: ps'
     /\ (at_hdr k p ps' r rest \/ (at_data k p ps' r rest /\ 0 < body_len p)).

(** Some of what the receiver waits for is still in the network. *)
Lemma short_rest (buf rest u v : bytes) : buf ++ rest = u ++ v -> zlen buf < zlen u -> rest <> [].
Proof.
  intros E Hl ->. apply (f_equal zlen) in E. rewrite !zlen_app, zlen_nil in E.
  pose proof (zlen_nonneg v). lia.
Qed.

(** The part of an iteration that takes bytes. *)
Definition parts : R bytes := _ ← read_mac; _ ← read_hdr; read_data.

Lemma parts_data k p ps r rest : packet_ok p -> at_data k p ps r rest ->
  (exists r', read_data r = (Err Break, r') /\ ready k (p :: ps) r' rest /\ rest <> [])
  \/ exists r', read_data r = (Ok (pdata p), r')
       /\ hdr (receiveState r') = Some (header p) /\ same (after k p) (rxCrypto r')
       /\ receiveBuffer r' ++ rest = wire (after k p) ps
       /\ zlen (receiveBuffer r') + body_len p = zlen (receiveBuffer r).
Proof.
  intros Hok Ha. destruct (read_data_at k p ps r rest Hok Ha) as [[Hl ->]|(r' & -> & Hs & Hk & E & Hl)].
  - left. exists r. split; [done|]. pose proof (zlen_nonneg (receiveBuffer r)). split.
    + right. exists p, ps. split; [done|]. right. split; [done|lia].
    + destruct Ha as (_ & _ & E). eapply short_rest; [exact E|]. by rewrite zlen_at_pos, zlen_body.
  - right. exists r'. split; [done|]. split; [|done]. destruct Ha as (Hst & _). by rewrite Hs, Hst.
Qed.

Lemma parts_ready k p ps r rest : packet_ok p -> ready k (p :: ps) r rest ->
  (exists r', parts r = (Err Break, r') /\ ready k (p :: ps) r' rest /\ rest <> [])
  \/ exists r', parts r = (Ok (pdata p), r')
       /\ hdr (receiveState r') = Some (header p) /\ same (after k p) (rxCrypto r')
       /\ receiveBuffer r' ++ rest = wire (after k p) ps
       /\ zlen (receiveBuffer r') < zlen (receiveBuffer r).
Proof.
  intros Hok Hr.
  assert (Hdata : forall r0 r1, at_data k p ps r1 rest ->
    (forall r', zlen (receiveBuffer r') + body_len p = zlen (receiveBuffer r1) ->
       zlen (receiveBuffer r') < zlen (receiveBuffer r0)) ->
    (exists r', read_data r1 = (Err Break, r') /\ ready k (p :: ps) r' rest /\ rest <> [])
    \/ exists r', read_data r1 = (Ok (pdata p), r')
       /\ hdr (receiveState r') = Some (header p) /\ same (after k p) (rxCrypto r')
       /\ receiveBuffer r' ++ rest = wire (after k p) ps
       /\ zlen (receiveBuffer r') < zlen (receiveBuffer r0)).
  { intros r0 r1 Ha Hlt. destruct (parts_data k p ps r1 rest Hok Ha) as [?|(r' & ? & ? & ? & ? & Hl)];
      [by left|right]. exists r'. split_and!; try done. by apply Hlt. }
  assert (Hb : 0 <= body_len p) by (destruct Hok as (_ & ? & _); unfold body_len; pose proof (zlen_nonneg (pdata p)); lia).
  assert (Hhdr : forall r0 r1, at_hdr k p ps r1 rest -> zlen (receiveBuffer r1) <= zlen (receiveBuffer r0) ->
    (exists r', (_ ← read_hdr; read_data) r1 = (Err Break, r') /\ ready k (p :: ps) r' rest /\ rest <> [])
    \/ exists r', (_ ← read_hdr; read_data) r1 = (Ok (pdata p), r')
       /\ hdr (receiveState r') = Some (header p) /\ same (after k p) (rxCrypto r')
       /\ receiveBuffer r' ++ rest = wire (after k p) ps
       /\ zlen (receiveBuffer r') < zlen (receiveBuffer r0)).
  { intros r0 r1 Ha Hle. unfold mbind, M_bind.
    destruct (read_hdr_at k p ps r1 rest Hok Ha) as [[Hl ->]|(r2 & -> & Ha2 & Hl)].
    - left. exists r1. split; [done|]. split; [right; exists p, ps; split; [done|by left]|].
      destruct Ha as (_ & _ & E). unfold cipher in E. rewrite <- app_assoc in E.
      eapply short_rest; [exact E|]. by rewrite zlen_at_pos, zlen_header.
    - apply (Hdata r0 r2 Ha2). change pktHdrLength with 5 in Hl. intros r' Hr'. lia. }
  assert (Hskip : forall r1, read_mac r = (Ok tt, r1) -> parts r = (_ ← read_hdr; read_data) r1)
    by (intros r1 E; unfold parts, mbind, M_bind; by rewrite E).
  destruct Hr as [Ha|(p' & ps' & [= <- <-] & [Ha|[Ha Hp]])].
  - destruct (read_mac_at k p ps r rest Ha) as [[Hl E]|(r1 & E & Ha1 & Hl)].
    + left. exists r. split; [unfold parts, mbind, M_bind; by rewrite E|]. split; [by left|].
      destruct Ha as (_ & _ & Ew). cbn [wire] in Ew. eapply short_rest; [exact Ew|]. by rewrite zlen_tag.
    + rewrite (Hskip _ E). apply (Hhdr r r1 Ha1). change macLength with 16 in Hl. lia.
  - rewrite (Hskip r) by (unfold read_mac; mrun; destruct Ha as (-> & _); done).
    by apply (Hhdr r r Ha).
  - rewrite (Hskip r) by (unfold read_mac; mrun; destruct Ha as (-> & _); done).
    unfold mbind, M_bind. replace (read_hdr r) with (@Ok stop _ tt, r) by
      (unfold read_hdr; mrun; destruct Ha as (-> & _); done).
    apply (Hdata r r Ha). intros r' Hr'. lia.
Qed.

(** An iteration waits, or takes the next packet. *)
Lemma iteration_parts c : iteration fuel now c =
  match parts (rx c) with
  | (Ok data, r) =>
      let h := default [] (hdr (receiveState r)) in
      match handle fuel now (be_decode (zdrop 4 h)) data (ap c) with
      | (Ok _, a) => (Ok tt, mkConn (mkRxs (receiveBuffer r) noRx (rxCrypto r)) a)
      | (Err e, a) => (Err (Return e), mkConn r a)
      | (Panic w, a) => (Panic w, mkConn r a)
      end
  | (Err e, r) => (Err e, mkConn r (ap c))
  | (Panic w, r) => (Panic w, mkConn r (ap c))
  end.
Proof.
  unfold iteration, parts, on_rx, on_part, map_err, set_state. mrun.
  destruct (read_mac (rx c)) as [[[]| |] r1]; cbn [rx ap]; try done.
  destruct (read_hdr r1) as [[[]| |] r2]; cbn [rx ap]; try done.
  destruct (read_data r2) as [[d| |] r3]; cbn [rx ap]; try done.
  cbv zeta. by destruct (handle _ _ _ _ _) as [[[]| |] a].
Qed.

Lemma loop_ready f : forall k ps c rest a,
  Forall packet_ok ps -> ready k ps (rx c) rest -> deliver ps (ap c) = (Ok tt, a) ->
  (length (receiveBuffer (rx c)) < f)%nat ->
  exists k' ps' c', loop fuel now f c = (Ok tt, c') /\ ps' `suffix_of` ps
    /\ ready k' ps' (rx c') rest /\ deliver ps' (ap c') = (Ok tt, a) /\ (rest = [] -> ps' = []).
Proof.
  induction f as [|f IH]; intros k ps c rest a Hok Hr Hd Hf; [lia|]. cbn [loop].
  destruct (zlen (receiveBuffer (rx c)) >? 0) eqn:El; b2p.
  - destruct ps as [|p ps].
    { exfalso. destruct Hr as [(_ & _ & E)|(? & ? & ? & _)]; [|done].
      apply (f_equal zlen) in E. cbn [wire] in E. rewrite zlen_app, zlen_nil in E.
      pose proof (zlen_nonneg rest). lia. }
    pose proof Hok as Hok'. apply Forall_cons in Hok' as [Hp Hps].
    rewrite iteration_parts.
    destruct (parts_ready k p ps (rx c) rest Hp Hr) as [(r' & -> & Hr' & Hne)|(r' & -> & Hh & Hk & E & Hl)].
    + exists k, (p :: ps), (mkConn r' (ap c)). split_and!; try done.
    + cbv zeta. rewrite Hh. change (default [] (Some (header p))) with (header p).
      destruct (ss_header_fields p Hp) as (_ & _ & ->). cbn [deliver] in Hd.
      destruct (handle fuel now (ptype p) (pdata p) (ap c)) as [[[]| |] a1]; try done.
      destruct (IH (after k p) ps (mkConn (mkRxs (receiveBuffer r') noRx (rxCrypto r')) a1) rest a)
        as (k2 & ps2 & c2 & E2 & H2); [done|by left|done|cbn; unfold zlen in Hl; lia|].
      exists k2, ps2, c2. split; [done|]. destruct H2 as [Hs H2]. split; [by apply suffix_cons_r|done].
  - pose proof (zlen_nonneg (receiveBuffer (rx c))).
    assert (Hb : receiveBuffer (rx c) = []) by (apply zlen_0; lia).
    exists k, ps, c. split_and!; try done. intros ->.
    destruct ps as [|p ps]; [done|]. exfalso. apply Forall_cons in Hok as [Hp _].
    assert (Hx : exists u v, receiveBuffer (rx c) ++ [] = u ++ v /\ 0 < zlen u).
    { destruct Hr as [(_ & _ & E)|(p' & ps' & [= <- <-] & [(_ & _ & E)|[(_ & _ & E) Hb']])].
      - cbn [wire] in E. eexists _, _. split; [exact E|]. by rewrite zlen_tag.
      - eexists _, _. split; [exact E|]. rewrite zlen_cipher by done.
        destruct Hp as (_ & ? & _). unfold body_len. pose proof (zlen_nonneg (pdata p)).
        change pktHdrLength with 5. lia.
      - eexists _, _. split; [exact E|]. by rewrite zlen_at_pos, zlen_body. }
    destruct Hx as (u & v & E & Hu). rewrite Hb in E. apply (f_equal zlen) in E.
    rewrite app_nil_r, zlen_app, (zlen_nil (A:=byte)) in E. pose proof (zlen_nonneg v). lia.
Qed.

Lemma ready_extend k ps r rd rest : ready k ps r (rd ++ rest) ->
  ready k ps (mkRxs (receiveBuffer r ++ rd) (receiveState r) (rxCrypto r)) rest.
Proof.
  unfold ready, at_mac, at_hdr, at_data. cbn [receiveBuffer receiveState rxCrypto].
  by setoid_rewrite <- app_assoc.
Qed.

(** A call of [readPackets] on the next bytes of the stream. *)
Lemma readPackets_ready k ps c rd rest a :
  Forall packet_ok ps -> ready k ps (rx c) (rd ++ rest) -> deliver ps (ap c) = (Ok tt, a) ->
  exists k' ps' c', readPackets fuel now rd None c = (Ok tt, c') /\ ps' `suffix_of` ps
    /\ ready k' ps' (rx c') rest /\ deliver ps' (ap c') = (Ok tt, a) /\ (rest = [] -> ps' = []).
Proof.
  intros Hok Hr Hd. unfold readPackets.
  destruct (loop_ready (S (S (length (receiveBuffer (rx (extend rd c)))))) k ps (extend rd c) rest a)
    as (k' & ps' & c' & E & H'); [done|by apply ready_extend|done|lia|].
  exists k', ps', c'. by rewrite E.
Qed.

(** *** Streams of payload *)
Definition payload (p : packet) : Prop := ptype p = pktPayload.
Definition data_of (ps : list packet) : bytes := concat (map pdata ps).
Definition set_decoded (b : bytes) (a : ssApp) : ssApp :=
  mkApp (isServer a) (lenDist a) b (ticketStore a) (addr a).

Lemma deliver_payload ps : forall a, Forall payload ps ->
  deliver ps a = (Ok tt, set_decoded (receiveDecodedBuffer a ++ data_of ps) a).
Proof.
  induction ps as [|p ps IH]; intros a Hp; cbn [deliver].
  - unfold data_of. cbn. rewrite app_nil_r. by destruct a.
  - apply Forall_cons in Hp as [Hp Hps]. unfold handle. rewrite Hp, Z.eqb_refl. rewrite IH by done. unfold data_of, set_decoded. cbn.
    by rewrite app_assoc.
Qed.

(** The receiver of a stream of which the bytes [l] are still to come. *)
Definition live (k : ssCryptoState) (ps : list packet) (c : conn) (l : bytes) : Prop :=
  Forall packet_ok ps /\ Forall payload ps /\ ready k ps (rx c) l /\ (l = [] -> ps = []).

Lemma readPackets_live k ps c rd l : live k ps c (rd ++ l) ->
  exists k' ps' c', readPackets fuel now rd None c = (Ok tt, c') /\ live k' ps' c' l
    /\ receiveDecodedBuffer (ap c') ++ data_of ps' = receiveDecodedBuffer (ap c) ++ data_of ps.
Proof.
  intros (Hok & Hp & Hr & _).
  destruct (readPackets_ready k ps c rd l _ Hok Hr (deliver_payload ps _ Hp))
    as (k' & ps' & c' & E & [qs ->] & Hr' & Hd & Hn).
  apply Forall_app in Hok as [_ Hok]. apply Forall_app in Hp as [_ Hp].
  exists k', ps', c'. split; [done|]. split; [by split_and!|].
  rewrite (deliver_payload ps' _ Hp) in Hd.
  apply (f_equal (fun x => receiveDecodedBuffer x.2)) in Hd. exact Hd.
Qed.

Lemma net_rounds_read n net rd e net' : 0 < n -> GoNet.read_net n net = Some (rd, e, net') ->
  (net_rounds net' < net_rounds net)%nat.
Proof.
  intros Hn. unfold net_rounds. destruct net as [|[d e0] net]; [done|]. cbn [GoNet.read_net].
  destruct (n <? zlen d) eqn:E; b2p; intros [= <- <- <-]; cbn; rewrite !length_app; [|lia].
  unfold zlen in E. unfold zdrop. rewrite length_drop. lia.
Qed.

Lemma fill_live f : forall k ps c net l, (net_rounds net < f)%nat ->
  live k ps c l -> GoNet.stream net l ->
  (fill fuel now f net c = None /\ receiveDecodedBuffer (ap c) ++ data_of ps = [])
  \/ exists k' ps' c' net' l', fill fuel now f net c = Some (Ok tt, c', net')
       /\ live k' ps' c' l' /\ GoNet.stream net' l'
       /\ receiveDecodedBuffer (ap c') ++ data_of ps' = receiveDecodedBuffer (ap c) ++ data_of ps.
Proof.
  induction f as [|f IH]; intros k ps c net l Hf Hl Hs; [lia|]. cbn [fill].
  destruct (zlen (receiveDecodedBuffer (ap c)) =? 0) eqn:E; b2p.
  2:{ right. by exists k, ps, c, net, l. }
  apply zlen_0 in E.
  destruct (GoNet.read_net maxSegmentLength net) as [[[rd e] net']|] eqn:Er.
  - destruct (GoNet.read_net_stream maxSegmentLength _ _ _ _ _ ltac:(done) Hs Er) as (-> & _ & l' & -> & Hs' & _).
    pose proof (net_rounds_read maxSegmentLength _ _ _ _ ltac:(done) Er).
    destruct (readPackets_live k ps c rd l' Hl) as (k1 & ps1 & c1 & -> & Hl1 & Ed).
    rewrite <- Ed. apply (IH k1 ps1 c1 net' l'); [lia|done|done].
  - left. split; [done|]. destruct net as [|[d e] net]; cbn in Er; [|by case_match].
    destruct Hs as [<- _]. destruct Hl as (_ & _ & _ & Hn). by rewrite E, (Hn eq_refl).
Qed.

(** Calls of [Read] in a row until one blocks or fails. *)
Fixpoint Reads (ns : list Z) (net : GoNet.reads) (c : conn) : list bytes * option (result error unit) :=
  match ns with
  | [] => ([], Some (Ok tt))
  | n :: ns =>
      match Read fuel now n net c with
      | None => ([], None)
      | Some (b, Ok _, c, net) => let '(l, r) := Reads ns net c in (b :: l, r)
      | Some (b, r, _, _) => ([b], Some r)
      end
  end.

Lemma Reads_live ns : forall k ps c net l, live k ps c l -> GoNet.stream net l ->
  exists outs r, Reads ns net c = (outs, r)
    /\ ((r = Some (Ok tt) /\ concat outs `prefix_of` receiveDecodedBuffer (ap c) ++ data_of ps)
        \/ (r = None /\ concat outs = receiveDecodedBuffer (ap c) ++ data_of ps)).
Proof.
  induction ns as [|n ns IH]; intros k ps c net l Hl Hs; cbn [Reads].
  - eexists [], _. split; [done|]. left. split; [done|]. apply prefix_nil.
  - unfold Read. destruct (fill_live (S (net_rounds net)) k ps c net l ltac:(lia) Hl Hs)
      as [[-> ->]|(k' & ps' & c' & net' & l' & -> & Hl' & Hs' & <-)].
    + eexists [], _. split; [done|]. by right.
    + match goal with |- context [Reads ns net' ?x] =>
        destruct (IH k' ps' x net' l' Hl' Hs') as (outs & r & -> & Ho) end.
      eexists (_ :: outs), r. split; [done|]. cbn [concat ap receiveDecodedBuffer] in *.
      rewrite <- (ztake_zdrop n (receiveDecodedBuffer (ap c'))) at 2 4. rewrite <- !app_assoc.
      destruct Ho as [[-> Ho]|[-> ->]]; [left|by right]. split; [done|]. by apply prefix_app.
Qed.
End stream.

(** *** The sender *)
Section sender.
Context `{BlockCipher} (netWrite : list bytes -> bytes -> option GoNet.net_error).
Hypothesis writes_ok : forall sent b, netWrite sent b = None.

Definition after_all (k : ssCryptoState) (ps : list packet) : ssCryptoState := foldl after k ps.
Lemma wire_app k ps qs : wire k (ps ++ qs) = wire k ps ++ wire (after_all k ps) qs.
Proof.
  revert k. induction ps as [|p ps IH]; intros k; [done|]. cbn [wire app]. by rewrite IH, <- !app_assoc.
Qed.

(** What a burst looks like: sealed payload packets with the data [b]. *)
Definition burst_of (k : ssCryptoState) (b w : bytes) (k' : ssCryptoState) : Prop :=
  exists ps, Forall packet_ok ps /\ Forall payload ps /\ data_of ps = b
    /\ w = wire k ps /\ k' = after_all k ps.

Lemma burst_nil k : burst_of k [] [] k.
Proof. by exists []. Qed.
Lemma burst_app k b1 w1 k1 b2 w2 k2 :
  burst_of k b1 w1 k1 -> burst_of k1 b2 w2 k2 -> burst_of k (b1 ++ b2) (w1 ++ w2) k2.
Proof.
  intros (ps & ? & ? & <- & -> & ->) (qs & ? & ? & <- & -> & ->). exists (ps ++ qs).
  split_and!; [by apply Forall_app..| | |].
  - unfold data_of. by rewrite map_app, concat_app.
  - by rewrite wire_app.
  - unfold after_all. by rewrite foldl_app.
Qed.

Lemma makePacket_burst k b n w k' : makePacket pktPayload b n k = (Ok w, k') -> burst_of k b w k'.
Proof.
  intros E. assert (Hok : packet_ok (mkPacket pktPayload b n)).
  { unfold makePacket in E. destruct (_ >? _) eqn:E1; [done|]. destruct (n <? 0) eqn:E2; [done|]. b2p.
    split; [done|]. split; [done|]. cbn. lia. }
  pose proof (makePacket_wire k _ Hok) as Ew. cbn [ptype pdata ppad] in Ew. rewrite E in Ew.
  injection Ew as -> ->. exists [mkPacket pktPayload b n].
  split_and!; [by constructor|by constructor|unfold data_of; cbn; apply app_nil_r| |done].
  cbn [wire]. by rewrite app_nil_r.
Qed.

Lemma makePackets_burst bs : forall k w k',
  makePackets bs k = (Ok w, k') -> burst_of k (concat bs) w k'.
Proof.
  induction bs as [|b bs IH]; intros k w k'; cbn [makePackets].
  - mrun. intros [= <- <-]. apply burst_nil.
  - mrun. destruct (makePacket pktPayload b 0 k) as [[f| |] k1] eqn:E1; try done.
    destruct (makePackets bs k1) as [[fs| |] k2] eqn:E2; try done. intros [= <- <-].
    cbn [concat]. eapply burst_app; [by eapply makePacket_burst|by apply IH].
Qed.

Lemma padBurst_burst k0 b burst n k w k' : burst_of k0 b burst k ->
  padBurst burst n k = (Ok w, k') -> burst_of k0 b w k'.
Proof.
  intros Hb. unfold padBurst. destruct (_ =? 0); [|destruct (_ >? _)].
  - mrun. by intros [= <- <-].
  - mrun. destruct (makePacket _ _ _ k) as [[f1| |] k1] eqn:E1; try done.
    destruct (makePacket _ _ _ k1) as [[f2| |] k2] eqn:E2; try done. intros [= <- <-].
    rewrite <- (app_nil_r b). eapply burst_app; [|by eapply makePacket_burst].
    rewrite <- (app_nil_r b). eapply burst_app; [done|by eapply makePacket_burst].
  - mrun. destruct (makePacket _ _ _ k) as [[f1| |] k1] eqn:E1; try done. intros [= <- <-].
    rewrite <- (app_nil_r b). eapply burst_app; [done|by eapply makePacket_burst].
Qed.

Lemma chop_concat f : forall p, (length p <= f)%nat -> concat (chop f p) = p.
Proof.
  induction f as [|f IH]; intros p Hf; cbn [chop]; [by destruct p; [|cbn in Hf; lia]|].
  destruct p as [|c p]; [done|]. cbn [concat]. rewrite IH; [apply ztake_zdrop|].
  unfold zdrop. rewrite length_drop. cbn [length] in *. unfold maxPayloadLength. lia.
Qed.

Lemma ss_Write_burst d b w n w' : Write netWrite d b w = (Ok n, w') ->
  exists x, GoNet.sent (net w') = GoNet.sent (net w) ++ [x]
    /\ burst_of (txCrypto w) b x (txCrypto w').
Proof.
  unfold Write. mrun. unfold with_crypto, on_part.
  destruct (makePackets (chop (length b) b) (txCrypto w)) as [[fr| |] k1] eqn:E1; try done.
  unfold sample. cbn [net txCrypto].
  destruct (ProbDist.Sample d (GoNet.tape (net w))) as [[v| |] t]; try done. cbn [net txCrypto].
  destruct (padBurst fr v k1) as [[fb| |] k2] eqn:E2; try done.
  unfold conn_write. rewrite writes_ok. cbn. intros [= <- <-]. cbn. exists fb. split; [done|].
  eapply padBurst_burst; [|exact E2]. apply makePackets_burst in E1. by rewrite chop_concat in E1.
Qed.

(** Calls of [Write] in a row, each with the distribution of its time. *)
Fixpoint Writes (ms : list (ProbDist.WeightedDist * bytes)) : M wstate error unit :=
  match ms with [] => mret tt | (d, b) :: ms => _ ← Write netWrite d b; Writes ms end.

Lemma Writes_burst ms : forall w w', Writes ms w = (Ok tt, w') ->
  exists l, GoNet.sent (net w') = GoNet.sent (net w) ++ l
    /\ burst_of (txCrypto w) (concat (map snd ms)) (concat l) (txCrypto w').
Proof.
  induction ms as [|[d b] ms IH]; intros w w'; cbn [Writes].
  - mrun. intros [= <-]. exists []. rewrite app_nil_r. split; [done|apply burst_nil].
  - mrun. destruct (Write netWrite d b w) as [[n| |] w1] eqn:E; try done. intros Hr.
    apply ss_Write_burst in E as (x & E1 & Hb1). apply IH in Hr as (l & E2 & Hb2).
    exists (x :: l). rewrite E2, E1, <- app_assoc. split; [done|]. cbn [concat map snd].
    by eapply burst_app.
Qed.
End sender.

Section theorems.
Context `{SipHash} `{BlockCipher} (netWrite : list bytes -> bytes -> option GoNet.net_error).
Context (fuel : nat) (now : Z).

(** A connection that has read nothing yet. *)
Definition fresh (k : ssCryptoState) (a : ssApp) : conn := mkConn (mkRxs [] noRx k) a.

(** C21: scramblesuit delivers what is written.  The bytes of any sequence of
    [Write]s that succeed, whatever lengths the bursts were padded to, are read back
    by a connection that holds the same keys, however the network segments them:
    whatever sizes the calls of [Read] ask for, none fails, what they return is the
    front of the messages, and one blocks only when all of them were read. *)
Theorem scramble_delivers ms k a w w' incoming ns :
  (forall sent b, netWrite sent b = None) ->
  txCrypto w = k -> GoNet.sent (net w) = [] -> receiveDecodedBuffer a = [] ->
  Writes netWrite ms w = (Ok tt, w') ->
  GoNet.stream incoming (concat (GoNet.sent (net w'))) ->
  exists outs r, Reads fuel now ns incoming (fresh k a) = (outs, r)
    /\ ((r = Some (Ok tt) /\ concat outs `prefix_of` concat (map snd ms))
        \/ (r = None /\ concat outs = concat (map snd ms))).
Proof.
  intros Hw <- Hs0 Ha HW Hs. destruct (Writes_burst _ Hw _ _ _ HW) as (l & El & ps & Hok & Hp & Hd & Ew & _).
  rewrite Hs0 in El. cbn [app] in El. rewrite El, Ew in Hs.
  destruct (Reads_live fuel now ns (txCrypto w) ps (fresh (txCrypto w) a) incoming
    (wire (txCrypto w) ps)) as (outs & r & E & Ho);
    [|exact Hs|].
  - split_and!; [done|done|left; by split_and!|]. intros E0. destruct ps as [|p ps]; [done|].
    exfalso. cbn [wire] in E0. apply (f_equal zlen) in E0.
    rewrite !zlen_app, zlen_tag, (zlen_nil (A:=byte)) in E0. change macLength with 16 in E0.
    pose proof (zlen_nonneg (cipher (txCrypto w) p)).
    pose proof (zlen_nonneg (wire (after (txCrypto w) p) ps)). lia.
  - exists outs, r. split; [done|]. cbn [fresh ap] in Ho. rewrite Ha, Hd in Ho. exact Ho.
Qed.

(** How many bytes the last segment lacks. *)
Definition needed (burstLen sampleLen : Z) : Z := (sampleLen - burstLen) mod maxSegmentLength.

Lemma pad_length_needed b n : 0 <= b -> 0 <= n <= maxSegmentLength ->
  pad_length b n = needed b n + (if needed b n <? pktOverhead then maxSegmentLength else 0)
  \/ (n = maxSegmentLength /\ b mod maxSegmentLength = 0 /\ pad_length b n = maxSegmentLength).
Proof.
  intros Hb Hn. unfold pad_length, needed. unfold maxSegmentLength in *.
  pose proof (Z.mod_pos_bound b 1448 ltac:(lia)) as Hm.
  assert (E : (n - b) mod 1448 = (n - b mod 1448) mod 1448) by (rewrite Zminus_mod_idemp_r; done).
  rewrite E. rewrite Z.geb_leb.
  destruct (b mod 1448 <=? n) eqn:El; b2p.
  - destruct (decide (n - b mod 1448 = 1448)).
    + right. assert (b mod 1448 = 0) by lia. assert (n = 1448) by lia. subst n.
      split; [done|]. split; [done|]. by replace (b mod 1448) with 0.
    + left. rewrite (Z.mod_small (n - b mod 1448)) by lia. change pktOverhead with 21. case_match; lia.
  - left. replace (n - b mod 1448) with (1448 - b mod 1448 + n + (-1) * 1448) by lia.
    rewrite Z.mod_add, (Z.mod_small (1448 - b mod 1448 + n)) by lia. change pktOverhead with 21. case_match; lia.
Qed.

Lemma makePacket_pad n k : 0 <= n <= maxPayloadLength ->
  exists f k', makePacket pktPayload [] n k = (Ok f, k') /\ zlen f = pktOverhead + n.
Proof.
  intros Hn. assert (Hok : packet_ok (mkPacket pktPayload [] n)) by (split; [done|]; split; [apply Hn|apply Hn]).
  pose proof (makePacket_wire k _ Hok) as E. cbn [ptype pdata ppad] in E. eexists _, _. split; [exact E|].
  rewrite zlen_app, zlen_tag, zlen_cipher by done. unfold body_len. cbn [pdata ppad].
  rewrite (zlen_nil (A:=byte)). unfold pktOverhead. lia.
Qed.

(** [padBurst] never fails and adds at most one segment; it
    pads the last segment of a burst to the sampled length if at least a packet's
    overhead (21 bytes) is missing, or nothing, and to 21 bytes less if 1 to 20
    bytes are missing: the code then sends two packets and subtracts both
    overheads. *)
Theorem padBurst_tail burst sampleLen k :
  0 <= sampleLen <= maxSegmentLength ->
  exists burst' k', padBurst burst sampleLen k = (Ok burst', k')
    /\ 0 < zlen burst' - zlen burst <= maxSegmentLength
    /\ zlen burst' mod maxSegmentLength
       = (if (0 <? needed (zlen burst) sampleLen) && (needed (zlen burst) sampleLen <? pktOverhead)
          then sampleLen - pktOverhead else sampleLen) mod maxSegmentLength.
Proof.
  intros Hs. pose proof (zlen_nonneg burst) as Hb. unfold padBurst.
  pose proof (pad_length_needed (zlen burst) sampleLen Hb Hs) as Hp.
  pose proof (Z.mod_pos_bound (sampleLen - zlen burst) maxSegmentLength ltac:(done)) as Hr.
  fold (needed (zlen burst) sampleLen) in Hr.
  set (d := needed (zlen burst) sampleLen) in *. set (pl := pad_length (zlen burst) sampleLen) in *.
  change maxSegmentLength with 1448 in *. change pktOverhead with 21 in *.
  assert (Hmod : exists q, sampleLen = zlen burst + d + q * 1448).
  { exists ((sampleLen - zlen burst) / 1448). unfold d, needed. change maxSegmentLength with 1448.
    pose proof (Z.div_mod (sampleLen - zlen burst) 1448). lia. }
  destruct Hmod as [q Hq].
  assert (Hpl : 21 <= pl <= 1468 /\ (pl <= 1448 -> d = 0 \/ 21 <= d) /\ (1448 < pl -> 0 < d < 21 /\ pl = d + 1448)
                /\ (pl <= 1448 -> pl = d \/ (d = 0 /\ pl = 1448))).
  { destruct Hp as [Hp|(-> & Hm & Hp)].
    - destruct (d <? 21) eqn:E; b2p; lia.
    - assert (d = 0); [|lia]. unfold d, needed. change maxSegmentLength with 1448.
      rewrite <- Zminus_mod_idemp_r, Hm. done. }
  destruct Hpl as (Hpl & Hsmall & Hbig & Hval).
  rewrite (eqb_false pl 0) by lia. destruct (pl >? 1448) eqn:E; b2p.
  - destruct (makePacket_pad (700 - 21) k) as (f1 & k1 & E1 & L1); [done|].
    destruct (makePacket_pad (pl - (700 + 2 * 21)) k1) as (f2 & k2 & E2 & L2); [unfold maxPayloadLength; lia|].
    mrun. rewrite E1, E2. eexists _, _. split; [done|]. rewrite !zlen_app, L1, L2.
    destruct (Hbig E) as (Hd & ->). rewrite (ltb_true 0 d), (ltb_true d 21) by lia. cbn [andb].
    change pktOverhead with 21. split; [lia|]. rewrite Hq.
    replace (zlen burst + d + q * 1448 - 21) with (zlen burst + d - 21 + q * 1448) by lia.
    rewrite Z.mod_add by lia.
    replace (zlen burst + _ + _) with (zlen burst + d - 21 + 1 * 1448) by lia. by rewrite Z.mod_add by lia.
  - destruct (makePacket_pad (pl - 21) k) as (f & k1 & E1 & L1); [unfold maxPayloadLength; lia|].
    mrun. rewrite E1. eexists _, _. split; [done|]. rewrite !zlen_app, L1. change pktOverhead with 21.
    split; [lia|]. assert (Hc : (0 <? d) && (d <? 21) = false).
    { destruct (Hsmall E); [by rewrite (ltb_false 0 d) by lia|by rewrite (ltb_false d 21), andb_false_r by lia]. }
    rewrite Hc, Hq, Z.mod_add by lia. destruct (Hval E) as [Hv|[Hv Hv']].
    + f_equal. lia.
    + replace (zlen burst + (21 + (pl - 21))) with (zlen burst + d + 1 * 1448) by lia. by rewrite Z.mod_add by lia.
Qed.

(** RFC 5869: [T(0)] is empty, [T(n)] is the HMAC of [T(n-1) | info | n]. *)
Fixpoint T (prk info : bytes) (n : nat) : bytes :=
  match n with
  | O => []
  | S m => Hmac.sum prk (T prk info m ++ info ++ [z2b (Z.of_nat n)])
  end.

Lemma expand_loop_spec f : forall prk info i okm n n', (0 <= n) -> (Z.to_nat n <= f)%nat ->
  n <= 32 * Z.of_nat n' ->
  expand_loop f prk info (T prk info i) okm (u8 (Z.of_nat (S i))) n
  = okm ++ ztake n (concat (map (T prk info) (seq (S i) n'))).
Proof.
  induction f as [|f IH]; intros prk info i okm n n' Hn Hf Hl; cbn [expand_loop].
  - replace n with 0 by lia. by rewrite ztake_0, app_nil_r.
  - destruct (n >? 0) eqn:E; b2p.
    2:{ replace n with 0 by lia. by rewrite ztake_0, app_nil_r. }
    destruct n' as [|n']; [lia|]. cbn [seq map concat].
    assert (Et : Hmac.sum prk (T prk info i ++ info ++ [z2b (u8 (Z.of_nat (S i)))]) = T prk info (S i)).
    { cbn [T]. do 3 f_equal. unfold z2b, u8. by rewrite Z.mod_mod. }
    rewrite Et. assert (Lt : zlen (T prk info (S i)) = 32) by apply Hmac.zlen_sum.
    assert (Eu : u8 (u8 (Z.of_nat (S i)) + 1) = u8 (Z.of_nat (S (S i)))).
    { unfold u8. rewrite Z.add_mod_idemp_l by done. f_equal. lia. }
    rewrite Eu. change Sha256.Size with 32. destruct (n <? 32) eqn:E2; b2p.
    + rewrite (IH prk info (S i) _ (n - n) O) by lia. rewrite Z.sub_diag, ztake_0, app_nil_r.
      by rewrite ztake_app_le by lia.
    + rewrite (IH prk info (S i) _ (n - 32) n') by lia. rewrite <- app_assoc.
      rewrite (ztake_ge 32) by lia. by rewrite (ztake_app_ge n) by lia; rewrite Lt.
Qed.

Lemma initCrypto_ok `{!BlockCipherLaws} seed : exists k, initCrypto seed = Ok k.
Proof.
  unfold initCrypto, hkdfExpand. change (kdfSecretLength >? 255 * Sha256.Size) with false.
  cbn [mbind result_bind].
  pose proof (expand_loop_spec (Z.to_nat kdfSecretLength) seed [] 0 [] kdfSecretLength 5) as E.
  specialize (E ltac:(done) ltac:(done) ltac:(done)). change (u8 (Z.of_nat 1)) with 1 in E. cbn [T app] in E.
  rewrite E. set (okm := ztake kdfSecretLength _).
  assert (Lo : zlen okm = 144).
  { unfold okm. cbn [seq map concat]. rewrite zlen_ztake, !zlen_app. cbn [T].
    rewrite !Hmac.zlen_sum. done. }
  unfold newCryptoState. rewrite !valid_key_32 by (rewrite zlen_ztake, zlen_zdrop, Lo; lia).
  by eexists.
Qed.

(** [hkdfExpand] is the Expand step of RFC 5869: for every length up to 255
    digests the output is the front of [T(1) | T(2) | ...]; a longer one panics. *)
Theorem hkdfExpand_spec prk info l n :
  0 <= l <= 32 * Z.of_nat n ->
  hkdfExpand (E:=error) prk info l
  = if 255 * 32 <? l then Panic "hkdf: requested OKM length > 255*HashLen"
    else Ok (ztake l (concat (map (T prk info) (seq 1 n)))).
Proof.
  intros Hl. unfold hkdfExpand. rewrite Z.gtb_ltb. change Sha256.Size with 32.
  destruct (255 * 32 <? l); [done|]. f_equal.
  apply (expand_loop_spec (Z.to_nat l) prk info 0 [] l n); lia.
Qed.
End theorems.
End Scramble.

Section witnesses.
Import Scramble ToySip ToyCipher.
Definition ss_write (sent : list bytes) (b : bytes) : option GoNet.net_error := None.
(** A distribution of the one length 60. *)
Definition ss_dist : ProbDist.WeightedDist :=
  ProbDist.mkWDist 60 61 false [0] [ProbDist.fone] [0] [ProbDist.fone].
Definition ss_key : ssCryptoState :=
  mkCrypto (Ctr.NewCTR (zrepeat 32 Byte.x01) (zrepeat 8 Byte.x02 ++ initialCtr)) (str "mac key") [].
Definition ss_app : ssApp :=
  mkApp false ss_dist [] (SsTicket.mkStore ∅ None []) (str "192.0.2.1:443").
Definition ss_w : wstate := mkW ss_key (GoNet.mkSock [] [] (zrepeat 64 Byte.x01) false).
Definition ss_ms : list (ProbDist.WeightedDist * bytes) := [(ss_dist, str "hello"); (ss_dist, str "world")].
Definition ss_w' : wstate := Eval vm_compute in (Writes ss_write ss_ms ss_w).2.
(** The stream is cut inside the first header. *)
Definition ss_net : GoNet.reads := Eval vm_compute in
  let l := concat (GoNet.sent (net ss_w')) in [(ztake 18 l, None); (zdrop 18 l, None)].

Lemma scramble_delivers_witness :
  exists outs r, Reads 9 1000 [3; 9; 9] ss_net (fresh ss_key ss_app) = (outs, r)
    /\ ((r = Some (Ok tt) /\ concat outs `prefix_of` concat (map snd ss_ms))
        \/ (r = None /\ concat outs = concat (map snd ss_ms))).
Proof.
  apply (scramble_delivers ss_write 9 1000 ss_ms ss_key ss_app ss_w ss_w' ss_net [3; 9; 9]).
  - reflexivity.
  - reflexivity.
  - reflexivity.
  - reflexivity.
  - vm_compute. reflexivity.
  - split; [vm_compute; reflexivity|repeat constructor].
Defined.

(** A burst of 60 bytes is padded to 60, one of 50 bytes to 39 in the next segment. *)
Lemma padBurst_tail_witness :
  exists burst' k', padBurst (zrepeat 50 Byte.x00) 60 ss_key = (Ok burst', k')
    /\ 0 < zlen burst' - zlen (zrepeat 50 Byte.x00) <= maxSegmentLength
    /\ zlen burst' mod maxSegmentLength = 39.
Proof.
  destruct (padBurst_tail (zrepeat 50 Byte.x00) 60 ss_key) as (b & k & E & Hl & Hm); [done|].
  exists b, k. split; [exact E|]. split; [exact Hl|]. rewrite Hm. reflexivity.
Defined.

Lemma hkdfExpand_spec_witness :
  hkdfExpand (E:=error) (str "key") [] 144
  = if 255 * 32 <? 144 then Panic "hkdf: requested OKM length > 255*HashLen"
    else Ok (ztake 144 (concat (map (T (str "key") []) (seq 1 5)))).
Proof. apply (hkdfExpand_spec (str "key") [] 144 5). lia. Defined.
End witnesses.
