(* ===== verification/SsHandshake.v ===== *)
(** * The handshakes of scramblesuit

    [handshake_uniformdh.go], the client side of [handshake_ticket.go],
    [clientHandshake], the arguments and the factory: [conn.go], [base.go].  The
    code has no server; what a client expects of one is in [response]. *)
From S2P Require Import Prelude GoStd Rand Drbg Framing ProbDist Packet Args UniformDH GoNet GoFloat GoText GoCrypto ObfsState SsTicket Scramble.

Module SsHandshake.

Definition sharedSecretLength : Z := 160 / 8.
Definition macLength : Z := Scramble.macLength.
Definition minHandshakeLength : Z := UniformDH.Size + macLength * 2.
Definition maxHandshakeLength : Z := 1532.
Definition dhMinPadLength : Z := 0.
Definition dhMaxPadLength : Z := 1308.
Definition ticketMinPadLength : Z := 0.
Definition ticketMaxPadLength : Z := 1388.
Definition passwordArg : bytes := str "password".

Inductive error :=
| MissingArgument
| PasswordDecode
| PasswordLength (n : Z)
| EntropyError
| DHErr (e : UniformDH.error)
| MarkNotFoundYet
| InvalidHandshake
| NetErr (e : GoNet.error)
| StoreErr (e : SsTicket.error)
| CryptoErr (e : Scramble.error)
| WrongSide                (* clientHandshake called on server connection *)
| ServerNotSupported
| InvalidArgsType
| SeedErr (e : Drbg.error).

Definition getEpochHour (now : Z) : Z := Z.quot now 3600.
Definition hour_text (now : Z) : bytes := Strconv.FormatInt (getEpochHour now).
Definition dh_err {A} (r : result UniformDH.error A) : result error A :=
  match r with Ok a => Ok a | Err e => Err (DHErr e) | Panic w => Panic w end.

(** [makePad] and [csrand.IntRange], on the entropy. *)
Definition draw {A} (m : M bytes Csrand.error A) : M bytes error A := map_err (fun _ => EntropyError) m.
Definition makePad (padLen : Z) : M bytes error bytes := draw (Csrand.Bytes padLen).

(** ** Arguments *)
Record ssClientArgs := mkArgs { kB : bytes; sessionKey : UniformDH.PrivateKey }.

Section args.
Context `{PtArgsGet}.
Definition parsePasswordArg (args : Args) : result error bytes :=
  match Get passwordArg args with
  | None => Err MissingArgument
  | Some s =>
      match Base32.DecodeString s with
      | None => Err PasswordDecode
      | Some decoded =>
          if negb (zlen decoded =? sharedSecretLength) then Err (PasswordLength (zlen decoded))
          else Ok (go_copy (zrepeat sharedSecretLength Byte.x00) decoded)
      end
  end.
(** [newClientArgs], which is [ParseArgs]. *)
Definition newClientArgs (args : Args) : M bytes error ssClientArgs :=
  kB ← lift (parsePasswordArg args);
  sessionKey ← map_err DHErr UniformDH.GenerateKey;
  mret (mkArgs kB sessionKey).
Definition ServerFactory : result error unit := Err ServerNotSupported.
(** [ClientFactory]: the ticket store of the state directory. *)
Definition ClientFactory (now : Z) (f : option SsTicket.file) (outs : list SsTicket.outcome)
  : result error SsTicket.ssTicketStore :=
  match SsTicket.loadTicketStore now f outs with
  | Ok s => Ok s
  | Err e => Err (StoreErr e)
  | Panic w => Panic w
  end.
End args.

(** ** The UniformDH handshake: a MAC is its key and the bytes since [Reset] *)
Record ssDHClientHandshake := mkDH {
  mac_key : bytes; mac_buf : bytes;
  keypair : UniformDH.PrivateKey;
  epochHour : bytes;
  padLen : Z;
  serverPublicKey : option UniformDH.PublicKey;
  serverMark : bytes
}.
Definition mac16 (key msg : bytes) : bytes := ztake macLength (Hmac.sum key msg).

Definition newDHClientHandshake (kB : bytes) (sessionKey : UniformDH.PrivateKey)
  : M bytes error ssDHClientHandshake :=
  n ← draw (Csrand.IntRange dhMinPadLength dhMaxPadLength);
  mret (mkDH kB [] sessionKey [] n None []).

(** [X | P_C | M_C | MAC(X | P_C | M_C | E)]. *)
Definition dh_generate (now : Z) (hs : ssDHClientHandshake) : M bytes error (bytes * ssDHClientHandshake) :=
  x ← lift (dh_err (UniformDH.Bytes (UniformDH.public (keypair hs))));
  let mC := mac16 (mac_key hs) x in
  pC ← makePad (padLen hs);
  let e := hour_text now in
  let buf := x ++ pC ++ mC ++ e in
  mret (x ++ pC ++ mC ++ mac16 (mac_key hs) buf,
        mkDH (mac_key hs) buf (keypair hs) e (padLen hs) (serverPublicKey hs) (serverMark hs)).

(** The public key and the mark are taken from the first bytes, once. *)
Definition learn_key (resp : bytes) : M ssDHClientHandshake error unit := fun hs =>
  match serverPublicKey hs with
  | Some _ => (Ok tt, hs)
  | None =>
      let y := ztake UniformDH.Size resp in
      match UniformDH.SetBytes y with
      | Ok pub => (Ok tt, mkDH (mac_key hs) y (keypair hs) (epochHour hs) (padLen hs) (Some pub)
                            (mac16 (mac_key hs) y))
      | Err e => (Err (DHErr e), hs)
      | Panic w => (Panic w, hs)
      end
  end.

(** The MAC behind the mark at [pos] is checked.  [spare] is what follows [resp] in
    its array: a slice expression may go beyond the length, up to the capacity. *)
Definition check_mac (resp spare : bytes) (pos : Z) : M ssDHClientHandshake error (Z * bytes) := fun hs =>
  let buf := mac_buf hs ++ ztake (pos + macLength - UniformDH.Size) (zdrop UniformDH.Size resp)
             ++ epochHour hs in
  let hs := mkDH (mac_key hs) buf (keypair hs) (epochHour hs) (padLen hs) (serverPublicKey hs)
              (serverMark hs) in
  match gslice (pos + macLength) (pos + 2 * macLength) (resp ++ spare) with
  | None => (Panic "slice bounds out of range", hs)
  | Some macRx =>
      if negb (Hmac.Equal (mac16 (mac_key hs) buf) macRx) then (Err InvalidHandshake, hs)
      else
        match serverPublicKey hs with
        | None => (Panic "nil pointer dereference", hs)
        | Some pub =>
            (ss ← dh_err (UniformDH.Handshake (keypair hs) pub);
             Ok (pos + 2 * macLength, Sha256.Sum256 ss), hs)
        end
  end.

(** Where the mark is looked for. *)
Definition window (resp : bytes) : bytes :=
  let endPos := if zlen resp >? maxHandshakeLength - macLength
                then maxHandshakeLength - macLength else zlen resp in
  ztake (endPos - UniformDH.Size) (zdrop UniformDH.Size resp).

(** [parseServerHandshake (resp)]. *)
Definition parseServerHandshake (resp spare : bytes) : M ssDHClientHandshake error (Z * bytes) :=
  if zlen resp <? minHandshakeLength then fail MarkNotFoundYet
  else
    _ ← learn_key resp;
    mark ← gets serverMark;
    let pos := bytes_Index (window resp) mark in
    if pos =? -1 then
      if zlen resp >=? maxHandshakeLength then fail InvalidHandshake else fail MarkNotFoundYet
    else if zlen resp <? pos + 2 * macLength then fail MarkNotFoundYet
    else check_mac resp spare (pos + UniformDH.Size).

(** ** The ticket handshake: [T | P | M | MAC(T | P | M | E)] *)
Definition ticket_generate (now : Z) (t : SsTicket.ssTicket) (n : Z) (k : Scramble.ssCryptoState)
  : M bytes error (bytes * Scramble.ssCryptoState) :=
  let tk := SsTicket.ticket t in
  let m := mac16 (Scramble.macKey k) tk in
  p ← makePad n;
  let e := hour_text now in
  mret (tk ++ p ++ m ++ mac16 (Scramble.macKey k) (tk ++ p ++ m ++ e), Scramble.mac_Reset k).

(** ** [clientHandshake] *)

(** A connection during its handshake. *)
Record conn := mkConn {
  net : GoNet.sock;
  isServer : bool;
  receiveBuffer : bytes;
  txCrypto : option Scramble.ssCryptoState;
  rxCrypto : option Scramble.ssCryptoState;
  ticketStore : SsTicket.ssTicketStore;
  addr : bytes
}.
Definition set_net (n : GoNet.sock) (c : conn) : conn :=
  mkConn n (isServer c) (receiveBuffer c) (txCrypto c) (rxCrypto c) (ticketStore c) (addr c).
Definition set_buffer (b : bytes) (c : conn) : conn :=
  mkConn (net c) (isServer c) b (txCrypto c) (rxCrypto c) (ticketStore c) (addr c).
Definition set_crypto (k : Scramble.ssCryptoState * Scramble.ssCryptoState) (c : conn) : conn :=
  mkConn (net c) (isServer c) (receiveBuffer c) (Some k.1) (Some k.2) (ticketStore c) (addr c).
Definition set_store (s : SsTicket.ssTicketStore) (c : conn) : conn :=
  mkConn (net c) (isServer c) (receiveBuffer c) (txCrypto c) (rxCrypto c) s (addr c).
Definition Close (c : conn) : conn := set_net (GoNet.Close (net c)) c.

Section handshake.
Context `{BlockCipher} (netWrite : list bytes -> bytes -> option GoNet.net_error).
(** The clock when the ticket is looked up and when the handshake is made, and
    what is behind a buffer in its array. *)
Context (nowTicket now : Z) (spare : bytes -> bytes).
Abbreviation C := (IO conn error).

Definition on_net {A} : IO GoNet.sock GoNet.error A -> C A := GoNet.lift_net net set_net NetErr.
Definition random {A} (m : M bytes error A) : C A := fun c =>
  let k := net c in
  let '(r, t) := m (GoNet.tape k) in
  Some (r, set_net (GoNet.mkSock (GoNet.incoming k) (GoNet.sent k) t (GoNet.closed k)) c).
Definition pure {A} (r : result error A) : C A := fun c => Some (r, c).

Definition initCrypto (seed : bytes) : C unit := fun c =>
  match Scramble.initCrypto seed with
  | Ok k => Some (Ok tt, set_crypto k c)
  | Err e => Some (Err (CryptoErr e), c)
  | Panic w => Some (Panic w, c)
  end.

(** The loop that consumes the response; a round that goes on has used up a segment. *)
Fixpoint response_loop (fuel : nat) (hs : ssDHClientHandshake) : C unit :=
  match fuel with
  | O => pure (Panic out_of_fuel)
  | S fuel =>
      '(rd, err) ← on_net (GoNet.Read maxHandshakeLength);
      match err with
      | Some e => pure (Err (NetErr (GoNet.NetError e)))
      | None => fun c =>
          let c := set_buffer (receiveBuffer c ++ rd) c in
          match parseServerHandshake (receiveBuffer c) (spare (receiveBuffer c)) hs with
          | (Err MarkNotFoundYet, hs) => response_loop fuel hs c
          | (Err e, _) => Some (Err e, c)
          | (Panic w, _) => Some (Panic w, c)
          | (Ok (n, seed), _) => initCrypto seed (set_buffer (zdrop n (receiveBuffer c)) c)
          end
      end
  end.

Definition consume_response (hs : ssDHClientHandshake) : C unit := fun c =>
  response_loop (S (length (GoNet.incoming (net c)))) hs c.

(** The first half: the client's handshake is generated and sent. *)
Definition client_hello (kB : bytes) (sessionKey : UniformDH.PrivateKey) : C ssDHClientHandshake :=
  hs ← random (newDHClientHandshake kB sessionKey);
  '(blob, hs) ← random (dh_generate now hs);
  _ ← on_net (GoNet.Write netWrite blob);
  mret hs.
Definition handshakeUDH (kB : bytes) (sessionKey : UniformDH.PrivateKey) : C unit :=
  hs ← client_hello kB sessionKey;
  consume_response hs.

(** The ticket handshake up to the write: errors fall back to UniformDH. *)
Definition set_tx (k : Scramble.ssCryptoState) (c : conn) : conn :=
  mkConn (net c) (isServer c) (receiveBuffer c) (Some k) (rxCrypto c) (ticketStore c) (addr c).
Definition generate_ticket (t : SsTicket.ssTicket) (n : Z) : C bytes := fun c =>
  match txCrypto c with
  | None => Some (Panic "nil pointer dereference", c)
  | Some k =>
      ('(blob, k) ← random (ticket_generate now t n k);
       run (fun c => (Ok blob, set_tx k c))) c
  end.
Definition ticket_blob (t : SsTicket.ssTicket) : C bytes :=
  _ ← initCrypto (SsTicket.key t);
  n ← random (draw (Csrand.IntRange ticketMinPadLength ticketMaxPadLength));
  generate_ticket t n.

Definition clientHandshake (kB : bytes) (sessionKey : UniformDH.PrivateKey) : C unit := fun c =>
  if isServer c then Some (Err WrongSide, c)
  else
    let '(t, err, st) := SsTicket.getTicket nowTicket (addr c) (ticketStore c) in
    let c := set_store st c in
    match err, t with
    | Err e, _ => Some (Err (StoreErr e), c)
    | Panic w, _ => Some (Panic w, c)
    | Ok _, None => handshakeUDH kB sessionKey c
    | Ok _, Some t =>
        match ticket_blob t c with
        | None => None
        | Some (Panic w, c) => Some (Panic w, c)
        | Some (Err _, c) => handshakeUDH kB sessionKey c
        | Some (Ok blob, c) => on_net (GoNet.Write netWrite blob) c
        end
    end.

(** ** [newScrambleSuitClientConn] and [Dial] *)
Context `{SipHash} (rounds : nat).

(** [drbg.NewSeed], and the distribution it gives. *)
Definition newDist : C ProbDist.WeightedDist :=
  seed ← random (map_err SeedErr Drbg.NewSeed);
  pure (match ProbDist.New rounds seed Scramble.minLenDistLength Scramble.maxLenDistLength true with
        | Ok d => Ok d
        | Err e => Err (SeedErr e)
        | Panic w => Panic w
        end).

(** [d1] and [d2] are what the two [SetDeadline]s return. *)
Definition newScrambleSuitClientConn (d1 d2 : option GoNet.net_error) (ca : ssClientArgs)
  : C ProbDist.WeightedDist :=
  dist ← newDist;
  _ ← on_net (GoNet.deadline d1);
  _ ← clientHandshake (kB ca) (sessionKey ca);
  _ ← on_net (GoNet.deadline d2);
  mret dist.

Inductive dial_error := BadArgs | DialFnError (e : GoNet.net_error) | ConnError (e : error).
(** [args] is [None] when it is of another type. *)
Definition Dial (args : option ssClientArgs) (dialed : result GoNet.net_error conn)
    (d1 d2 : option GoNet.net_error) : option (result dial_error ProbDist.WeightedDist * option conn) :=
  match args, dialed with
  | None, _ => Some (Err BadArgs, None)
  | Some _, Err e => Some (Err (DialFnError e), None)
  | Some _, Panic w => Some (Panic w, None)
  | Some ca, Ok c =>
      match newScrambleSuitClientConn d1 d2 ca c with
      | None => None
      | Some (Ok d, c) => Some (Ok d, Some c)
      | Some (Err e, c) => Some (Err (ConnError e), Some (Close c))
      | Some (Panic w, c) => Some (Panic w, Some c)
      end
  end.
End handshake.

(** ** The response of a server *)

(** [Y | P_S | M_S | MAC(Y | P_S | M_S | E)]. *)
Definition response (kB y pad e : bytes) : bytes :=
  let mark := mac16 kB y in y ++ pad ++ mark ++ mac16 kB (y ++ pad ++ mark ++ e).

Section response.
Context (kB y pad e : bytes) (kp : UniformDH.PrivateKey) (pub : UniformDH.PublicKey).
Hypothesis y_size : zlen y = UniformDH.Size.
Hypothesis y_pub : UniformDH.SetBytes y = Ok pub.
Hypothesis pad_size : zlen pad <= dhMaxPadLength.
Hypothesis pad_mark : GoNet.first_mark (mac16 kB y) pad.
Let mark := mac16 kB y.
Let mac := mac16 kB (y ++ pad ++ mark ++ e).
Let full := UniformDH.Size + zlen pad + 2 * macLength.

Lemma zlen_mac16 k m : zlen (mac16 k m) = 16.
Proof. unfold mac16. rewrite zlen_ztake, Hmac.zlen_sum. done. Qed.

Lemma zlen_response : zlen (response kB y pad e) = full.
Proof.
  unfold response. rewrite !zlen_app, !zlen_mac16, y_size. unfold full. change macLength with 16. lia.
Qed.

(** A response that is cut inside its MAC. *)
Lemma response_front buf missing : response kB y pad e = buf ++ missing -> zlen missing <= 16 ->
  exists u, buf = (y ++ pad ++ mark) ++ u /\ u ++ missing = mac.
Proof.
  intros E Hm. pose proof zlen_response as L. rewrite E, zlen_app in L. unfold full in L.
  assert (Lf : zlen (y ++ pad ++ mark) = full - 16).
  { unfold full, mark. rewrite !zlen_app, y_size, zlen_mac16. change macLength with 16. lia. }
  change macLength with 16 in L.
  unfold response in E. fold mark mac in E. rewrite (app_assoc pad), (app_assoc y) in E.
  exists (zdrop (full - 16) buf).
  assert (Ht : ztake (full - 16) buf = y ++ pad ++ mark).
  { rewrite <- (ztake_app_le _ buf missing), <- E by (unfold full; change macLength with 16; lia).
    by apply ztake_app. }
  split; [by rewrite <- Ht, ztake_zdrop|].
  rewrite <- zdrop_app_le, <- E by (unfold full; change macLength with 16; lia). by apply zdrop_app.
Qed.

(** The state of the client's handshake, before and after it has seen [y]. *)
Definition keyed (hs : ssDHClientHandshake) : Prop :=
  mac_key hs = kB /\ keypair hs = kp /\ epochHour hs = e
  /\ serverPublicKey hs = Some pub /\ mac_buf hs = y /\ serverMark hs = mark.
Definition waiting (hs : ssDHClientHandshake) : Prop :=
  mac_key hs = kB /\ keypair hs = kp /\ epochHour hs = e
  /\ (serverPublicKey hs = None \/ keyed hs).

Lemma learn_key_ok buf l rest hs : waiting hs -> buf ++ l = response kB y pad e ++ rest ->
  UniformDH.Size <= zlen buf -> exists hs', learn_key buf hs = (Ok tt, hs') /\ keyed hs'.
Proof.
  intros (Hk & Hp & He & Hs) E Hl. unfold learn_key.
  destruct Hs as [Hs|Hs]; [rewrite Hs|destruct Hs as (? & ? & ? & Hs & ?); rewrite Hs; exists hs; by split_and!].
  assert (Ey : ztake UniformDH.Size buf = y).
  { rewrite <- (ztake_app_le _ buf l) by done. rewrite E. unfold response. rewrite <- !app_assoc.
    by apply ztake_app. }
  rewrite Ey, y_pub. eexists. split; [done|]. rewrite Hk. by split_and!.
Qed.

(** What follows the public key. *)
Lemma behind_key buf l rest : buf ++ l = response kB y pad e ++ rest -> UniformDH.Size <= zlen buf ->
  zdrop UniformDH.Size buf ++ l = pad ++ mark ++ mac ++ rest.
Proof.
  intros E Hl. rewrite <- zdrop_app_le by done. rewrite E. unfold response. rewrite <- !app_assoc.
  by apply zdrop_app.
Qed.

Lemma window_prefix buf l rest : buf ++ l = response kB y pad e ++ rest -> minHandshakeLength <= zlen buf ->
  exists l', window buf ++ l' = pad ++ mark ++ mac ++ rest
    /\ zlen (window buf) = Z.min (zlen buf) 1516 - UniformDH.Size.
Proof.
  intros E Hl. change minHandshakeLength with 224 in Hl. change UniformDH.Size with 192 in *.
  rewrite <- (behind_key buf l rest E) by (change UniformDH.Size with 192; lia).
  unfold window. change (maxHandshakeLength - macLength) with 1516. change UniformDH.Size with 192.
  set (n := (if zlen buf >? 1516 then 1516 else zlen buf) - 192).
  exists (zdrop n (zdrop 192 buf) ++ l). rewrite app_assoc, ztake_zdrop. split; [done|].
  rewrite zlen_ztake, zlen_zdrop. unfold n. destruct (zlen buf >? 1516) eqn:Eb; b2p; lia.
Qed.

(** Too little of the response: the client waits. *)
Lemma parse_short buf spare l rest hs : waiting hs -> buf ++ l = response kB y pad e ++ rest ->
  zlen buf < full - macLength \/ zlen buf < minHandshakeLength ->
  exists hs', parseServerHandshake buf spare hs = (Err MarkNotFoundYet, hs') /\ waiting hs'.
Proof.
  intros Hw E Hl. unfold parseServerHandshake. unfold full in Hl. unfold dhMaxPadLength in pad_size.
  change macLength with 16 in *. change UniformDH.Size with 192 in *.
  destruct (zlen buf <? minHandshakeLength) eqn:E1; [by exists hs|]. b2p.
  destruct Hl as [Hl|Hl]; [|lia]. change minHandshakeLength with 224 in E1.
  destruct (learn_key_ok buf l rest hs Hw E) as (hs' & El & Hk); [change UniformDH.Size with 192; lia|].
  exists hs'. mrun. rewrite El. destruct Hk as (Hmk & Hkp & He & Hpub & Hbuf & Hmark). rewrite Hmark.
  destruct (window_prefix buf l rest E) as (l' & Ew & Lw); [change minHandshakeLength with 224; lia|].
  change UniformDH.Size with 192 in Lw.
  rewrite (GoNet.index_before mark pad (window buf) l' (mac ++ rest));
    [|done|done|unfold mark; rewrite Lw, zlen_mac16; lia].
  change (-1 =? -1) with true. cbv iota. rewrite Z.geb_leb, leb_false by (unfold maxHandshakeLength; lia).
  split; [done|]. split_and!; try done. right. by split_and!.
Qed.

(** All of the mark: the MAC is checked against what follows, also beyond the buffer. *)
Lemma parse_mark buf spare l rest hs : waiting hs -> buf ++ l = response kB y pad e ++ rest ->
  full - macLength <= zlen buf -> minHandshakeLength <= zlen buf ->
  (parseServerHandshake buf spare hs).1
  = match gslice (full - macLength) full (buf ++ spare) with
    | None => Panic "slice bounds out of range"
    | Some macRx =>
        if negb (Hmac.Equal mac macRx) then Err InvalidHandshake
        else ss ← dh_err (UniformDH.Handshake kp pub); Ok (full, Sha256.Sum256 ss)
    end.
Proof.
  intros Hw E Hl Hmin. unfold parseServerHandshake. pose proof (zlen_nonneg pad) as Hp0.
  unfold dhMaxPadLength in pad_size.
  assert (Hf : full = 192 + zlen pad + 32) by done. change macLength with 16 in *.
  change UniformDH.Size with 192 in *. change minHandshakeLength with 224 in *.
  destruct (learn_key_ok buf l rest hs Hw E) as (hs' & El & Hk); [change UniformDH.Size with 192; lia|].
  destruct Hk as (Hmk & Hkp & He & Hpub & Hbuf & Hmark).
  rewrite ltb_false by done. mrun. rewrite El, Hmark.
  destruct (window_prefix buf l rest E) as (l' & Ew & Lw); [change minHandshakeLength with 224; lia|].
  change UniformDH.Size with 192 in Lw.
  assert (Hx : exists x, window buf = pad ++ mark ++ x).
  { exists (zdrop (zlen pad + 16) (window buf)).
    assert (Ht : ztake (zlen pad + 16) (window buf) = pad ++ mark).
    { rewrite <- (ztake_app_le _ (window buf) l') by lia. rewrite Ew, app_assoc.
      apply ztake_app. unfold mark. rewrite zlen_app, zlen_mac16. lia. }
    by rewrite app_assoc, <- Ht, ztake_zdrop. }
  destruct Hx as (x & ->). rewrite (GoNet.index_first mark pad x pad_mark).
  rewrite eqb_false by lia. rewrite ltb_false by lia.
  unfold check_mac. cbn [mac_key mac_buf epochHour keypair serverPublicKey].
  rewrite Hmk, Hbuf, He, Hpub, Hkp. change macLength with 16. change UniformDH.Size with 192.
  assert (Ep : ztake (zlen pad + 192 + 16 - 192) (zdrop 192 buf) = pad ++ mark).
  { rewrite <- (ztake_app_le _ (zdrop 192 buf) l) by (rewrite zlen_zdrop; lia).
    pose proof (behind_key buf l rest E ltac:(change UniformDH.Size with 192; lia)) as Eb.
    change UniformDH.Size with 192 in Eb. rewrite Eb, app_assoc. apply ztake_app. unfold mark. rewrite zlen_app, zlen_mac16. lia. }
  rewrite Ep, <- (app_assoc pad). fold mac.
  replace (zlen pad + 192 + 16) with (full - 16) by lia. replace (zlen pad + 192 + 2 * 16) with full by lia.
  case_match; [|done]. by case_match.
Qed.

(** The points at which a read may end: not in the last sixteen bytes, once there
    are enough bytes for the shortest response. *)
Definition whole (n : Z) : Prop := n < full - macLength \/ n < minHandshakeLength \/ full <= n.
Fixpoint no_cut (have : Z) (inc : GoNet.reads) : Prop :=
  match inc with
  | [] => True
  | (rd, _) :: inc => whole (have + zlen rd) /\ no_cut (have + zlen rd) inc
  end.

Lemma parse_full buf spare l rest hs ss : waiting hs -> buf ++ l = response kB y pad e ++ rest ->
  full <= zlen buf -> UniformDH.Handshake kp pub = Ok ss ->
  (parseServerHandshake buf spare hs).1 = Ok (full, Sha256.Sum256 ss).
Proof.
  intros Hw E Hl Hss. pose proof (zlen_nonneg pad). unfold full in Hl. change macLength with 16 in Hl.
  change UniformDH.Size with 192 in Hl.
  rewrite (parse_mark buf spare l rest hs Hw E)
    by (unfold full; change macLength with 16; change UniformDH.Size with 192; change minHandshakeLength with 224; lia).
  assert (Eb : exists x, buf = response kB y pad e ++ x).
  { exists (zdrop full buf). rewrite <- (ztake_zdrop full buf) at 1. f_equal.
    rewrite <- (ztake_app_le _ buf l) by (unfold full; change macLength with 16; change UniformDH.Size with 192; lia).
    rewrite E. apply ztake_app. symmetry. apply zlen_response. }
  destruct Eb as (x & ->). unfold response. fold mark. fold mac.
  replace (((y ++ pad ++ mark ++ mac) ++ x) ++ spare) with ((y ++ pad ++ mark) ++ mac ++ (x ++ spare))
    by by rewrite <- !app_assoc.
  assert (L1 : full - macLength = zlen (y ++ pad ++ mark)).
  { unfold full, mark. rewrite !zlen_app, y_size, zlen_mac16. change macLength with 16. lia. }
  rewrite (gslice_app_mid (y ++ pad ++ mark) mac); [|done|].
  - rewrite Scramble.Equal_refl. cbn [negb]. by rewrite Hss.
  - unfold mac. rewrite zlen_mac16, <- L1. change macLength with 16. lia.
Qed.

Context `{BlockCipher} (spare : bytes -> bytes) (ss : bytes).
Hypothesis secret : UniformDH.Handshake kp pub = Ok ss.

(** The loop reads the response and leaves what follows it. *)
Lemma response_loop_ok f : forall hs c l rest, waiting hs ->
  GoNet.stream (GoNet.incoming (net c)) l -> receiveBuffer c ++ l = response kB y pad e ++ rest ->
  zlen (receiveBuffer c) < full -> no_cut (zlen (receiveBuffer c)) (GoNet.incoming (net c)) ->
  (length (GoNet.incoming (net c)) < f)%nat ->
  exists k buf l',
    response_loop spare f hs c = initCrypto (Sha256.Sum256 ss) (set_buffer buf (set_net k c))
    /\ GoNet.sent k = GoNet.sent (net c) /\ GoNet.stream (GoNet.incoming k) l' /\ buf ++ l' = rest.
Proof.
  induction f as [|f IH]; intros hs c l rest Hw Hs E Hl Hc Hf; [lia|]. cbn [response_loop].
  assert (Hfull : full <= 1532).
  { unfold full. unfold dhMaxPadLength in pad_size. change UniformDH.Size with 192. change macLength with 16. lia. }
  destruct (GoNet.incoming (net c)) as [|[rd err] inc] eqn:Ei.
  { exfalso. destruct Hs as [<- _]. cbn in E. rewrite app_nil_r in E. apply (f_equal zlen) in E.
    rewrite zlen_app, zlen_response in E. pose proof (zlen_nonneg rest). lia. }
  assert (Hread : exists rd' net' l', GoNet.read_net maxHandshakeLength ((rd, err) :: inc) = Some (rd', None, net')
    /\ l = rd' ++ l' /\ GoNet.stream net' l'
    /\ (zlen (receiveBuffer c ++ rd') < full ->
        net' = inc /\ rd' = rd)).
  { destruct (GoNet.read_net maxHandshakeLength ((rd, err) :: inc)) as [[[rd' e'] net']|] eqn:Er;
      [|cbn in Er; by case_match].
    destruct (GoNet.read_net_stream maxHandshakeLength _ _ _ _ _ ltac:(done) Hs Er) as (-> & _ & l' & -> & Hs' & _).
    exists rd', net', l'. split; [done|]. split; [done|]. split; [done|]. intros Hlt. cbn in Er.
    destruct (maxHandshakeLength <? zlen rd) eqn:E1; [|by injection Er as <- _ <-].
    exfalso. injection Er as <- _. b2p. change maxHandshakeLength with 1532 in *.
    rewrite zlen_app, zlen_ztake in Hlt. pose proof (zlen_nonneg (receiveBuffer c)). lia. }
  destruct Hread as (rd' & net' & l' & Er & -> & Hs' & Hshort). rewrite app_assoc in E.
  erewrite IO_bind_Ok by (unfold on_net, GoNet.lift_net, GoNet.Read; rewrite Ei, Er; reflexivity).
  cbv beta iota zeta. cbn [receiveBuffer set_buffer set_net net].
  destruct (decide (zlen (receiveBuffer c ++ rd') < full)) as [Hlt|Hge].
  - destruct (Hshort Hlt) as [-> ->]. cbn [no_cut] in Hc. destruct Hc as [Hc1 Hc2]. rewrite <- zlen_app in Hc1, Hc2.
    destruct (parse_short (receiveBuffer c ++ rd) (spare (receiveBuffer c ++ rd)) l' rest hs Hw E)
      as (hs' & -> & Hw'); [unfold whole in Hc1; lia|].
    match goal with |- context [response_loop spare f hs' ?x] =>
      destruct (IH hs' x l' rest Hw' Hs' E Hlt Hc2) as (k & buf & l2 & E2 & Hk) end.
    { cbn. cbn in Hf. lia. }
    exists k, buf, l2. split; [exact E2|exact Hk].
  - pose proof (parse_full (receiveBuffer c ++ rd') (spare (receiveBuffer c ++ rd')) l' rest hs ss Hw E
      ltac:(lia) secret) as Ep.
    destruct (parseServerHandshake _ _ hs) as [r hs'] eqn:Eq. cbn [fst] in Ep. subst r.
    exists (GoNet.mkSock net' (GoNet.sent (net c)) (GoNet.tape (net c)) (GoNet.closed (net c))).
    exists (zdrop full (receiveBuffer c ++ rd')), l'. split; [done|]. split; [done|]. split; [done|].
    rewrite <- zdrop_app_le by lia. rewrite E. apply zdrop_app. symmetry. apply zlen_response.
Qed.
End response.

Section theorems.
Context `{BlockCipherLaws} (netWrite : list bytes -> bytes -> option GoNet.net_error).
Context (nowTicket now : Z) (spare : bytes -> bytes).
Hypothesis writes_ok : forall sent b, netWrite sent b = None.

(** A client connection before its handshake. *)
Definition start (inc : GoNet.reads) (tape : bytes) (st : SsTicket.ssTicketStore) (addr : bytes) : conn :=
  mkConn (GoNet.mkSock inc [] tape false) false [] None None st addr.
Definition hello_message (kB x pad e : bytes) : bytes :=
  let mark := mac16 kB x in x ++ pad ++ mark ++ mac16 kB (x ++ pad ++ mark ++ e).

Lemma random_inv {A} (m : M bytes error A) c a c' : random m c = Some (Ok a, c') ->
  exists t, m (GoNet.tape (net c)) = (Ok a, t)
    /\ c' = set_net (GoNet.mkSock (GoNet.incoming (net c)) (GoNet.sent (net c)) t (GoNet.closed (net c))) c.
Proof. unfold random. destruct (m _) as [r t]. intros [= -> <-]. by exists t. Qed.
Lemma draw_Ok {A} (m : M bytes Csrand.error A) t a t' : draw m t = (Ok a, t') -> m t = (Ok a, t').
Proof. unfold draw, map_err. destruct (m t) as [[| |]]; intros; by simplify_eq. Qed.

Lemma client_hello_inv kB ka inc tape st addr hs c0 :
  client_hello netWrite now kB ka (start inc tape st addr) = Some (Ok hs, c0) ->
  exists pad t, 0 <= zlen pad <= dhMaxPadLength
    /\ mac_key hs = kB /\ keypair hs = ka /\ epochHour hs = hour_text now /\ serverPublicKey hs = None
    /\ c0 = set_net (GoNet.mkSock inc
               [hello_message kB (UniformDH.keyBytes (UniformDH.public ka)) pad (hour_text now)] t false)
               (start inc tape st addr).
Proof.
  intros Hc. unfold client_hello in Hc. apply IO_bind_inv in Hc as (h0 & c1 & Hn & Hc).
  apply random_inv in Hn as (t1 & Hn & ->). unfold newDHClientHandshake in Hn. mrun_in Hn.
  destruct (draw _ _) as [[n| |] t0] eqn:En; try done. injection Hn as <- <-.
  apply draw_Ok, Csrand.IntRange_Ok in En.
  apply IO_bind_inv in Hc as ([blob h1] & c2 & Hg & Hc). apply random_inv in Hg as (t2 & Hg & ->).
  unfold dh_generate, UniformDH.Bytes, makePad in Hg. mrun_in Hg. cbn [keypair] in Hg.
  destruct (zlen _ =? UniformDH.Size); [|done]. cbn [dh_err padLen] in Hg.
  destruct (draw (Csrand.Bytes n) _) as [[p| |] t3] eqn:Ep; try done. injection Hg as <- <- <-.
  apply draw_Ok in Ep. unfold Csrand.Bytes in Ep. case_match eqn:El; [|done]. b2p. injection Ep as <- <-.
  apply IO_bind_inv in Hc as ([] & c3 & Hw & Hc). apply GoNet.lift_net_inv in Hw as (k & Hw & ->).
  apply (GoNet.write_out _ writes_ok) in Hw as ->. injection Hc as <- <-.
  eexists (ztake n _), _. split; [|split_and!; try done].
  unfold dhMinPadLength in En. split; [apply zlen_nonneg|rewrite zlen_ztake; lia].
Qed.

(** C22: the UniformDH handshake of scramblesuit agrees on the keys.  A client
    without a ticket sends its public key, at most 1308 bytes of padding, a mark and
    a MAC; when a server answers with a response of the same form under the shared
    password and the client's hour, of which no read ends inside the last sixteen
    bytes, the client completes: its session keys come from the digest of the secret
    that the server computes from the client's key, and what followed the response
    is kept for the packet layer. *)
Theorem ss_agreement kB a b ka kb inc tape st addr hs c0 pad rest :
  UniformDH.generateKey a = Ok ka -> UniformDH.generateKey b = Ok kb ->
  SsTicket.store st !! addr = None ->
  client_hello netWrite now kB ka (start inc tape st addr) = Some (Ok hs, c0) ->
  let x := UniformDH.keyBytes (UniformDH.public ka) in
  let y := UniformDH.keyBytes (UniformDH.public kb) in
  zlen pad <= dhMaxPadLength -> GoNet.first_mark (mac16 kB y) pad ->
  GoNet.stream inc (response kB y pad (hour_text now) ++ rest) -> no_cut pad 0 inc ->
  exists pa ss k c' l p,
    UniformDH.SetBytes x = Ok pa /\ UniformDH.Handshake kb pa = Ok ss
    /\ Scramble.initCrypto (Sha256.Sum256 ss) = Ok k
    /\ clientHandshake netWrite nowTicket now spare kB ka (start inc tape st addr) = Some (Ok tt, c')
    /\ txCrypto c' = Some k.1 /\ rxCrypto c' = Some k.2
    /\ GoNet.stream (GoNet.incoming (net c')) l /\ receiveBuffer c' ++ l = rest
    /\ GoNet.sent (net c') = [hello_message kB x p (hour_text now)] /\ zlen p <= dhMaxPadLength.
Proof.
  intros Ga Gb Hst Hh x y Hpad Hmark Hs Hcut.
  destruct (client_hello_inv _ _ _ _ _ _ _ _ Hh) as (p & t & Hp & Hk & Hkp & He & Hpub & Hc0).
  destruct (UniformDH.exchange _ _ _ _ Ga Gb) as (La & Lb & pa & pb & ss & Hpa & Hpb & Hsa & Hsb & _).
  destruct (Scramble.initCrypto_ok (Sha256.Sum256 ss)) as [k Ek].
  assert (Hc1 : receiveBuffer c0 = [] /\ GoNet.incoming (net c0) = inc) by (by subst c0).
  destruct Hc1 as [Hbuf Hinc].
  destruct (response_loop_ok kB y pad (hour_text now) ka pb Lb Hpb Hpad Hmark spare ss Hsa
    (S (length (GoNet.incoming (net c0)))) hs c0 (response kB y pad (hour_text now) ++ rest) rest)
    as (k' & buf & l & El & Hsent & Hl & Eb).
  - split_and!; try done. by left.
  - by rewrite Hinc.
  - by rewrite Hbuf.
  - rewrite Hbuf, zlen_nil. pose proof (zlen_nonneg pad). change UniformDH.Size with 192.
    change macLength with 16. lia.
  - by rewrite Hbuf, Hinc.
  - lia.
  - exists pa, ss, k, (set_crypto k (set_buffer buf (set_net k' c0))), l, p.
    split; [done|]. split; [done|]. split; [done|]. split.
    + unfold clientHandshake. cbn [isServer start ticketStore SsHandshake.addr].
      unfold SsTicket.getTicket. rewrite Hst. unfold handshakeUDH.
      change (set_store st (start inc tape st addr)) with (start inc tape st addr).
      erewrite IO_bind_Ok by exact Hh. unfold consume_response. rewrite El.
      unfold initCrypto. by rewrite Ek.
    + cbn. rewrite Hsent, Hc0. cbn. split_and!; try done. apply Hp.
Qed.

(** A response of which the last bytes, at most sixteen, have not arrived ends
    the handshake instead of being waited for: the slice with the MAC reaches beyond
    the buffer, which panics when the capacity of the buffer ends before, and
    otherwise compares the MAC with whatever the array holds there. *)
Theorem response_cut kB b kb kp pad e buf missing stale hs rest :
  UniformDH.generateKey b = Ok kb ->
  let y := UniformDH.keyBytes (UniformDH.public kb) in
  zlen pad <= dhMaxPadLength -> GoNet.first_mark (mac16 kB y) pad ->
  mac_key hs = kB -> keypair hs = kp -> epochHour hs = e -> serverPublicKey hs = None ->
  response kB y pad e = buf ++ missing -> minHandshakeLength <= zlen buf ->
  0 < zlen missing <= macLength ->
  (parseServerHandshake buf stale hs).1
  = if zlen stale <? zlen missing then Panic "slice bounds out of range"
    else if decide (ztake (zlen missing) stale = missing)
         then (parseServerHandshake (buf ++ missing) rest hs).1
         else Err InvalidHandshake.
Proof.
  intros Gb y Hpad Hmark Hk Hkp He Hpub E Hmin Hm.
  destruct (UniformDH.exchange _ _ _ _ Gb Gb) as (Lb & _ & pb & _ & ss & Hpb & _ & _ & _ & _).
  assert (Hw : waiting kB y e kp pb hs) by (split_and!; try done; by left).
  fold y in Lb.
  assert (L : zlen buf + zlen missing = UniformDH.Size + zlen pad + 2 * macLength).
  { rewrite <- zlen_app, <- E. by apply zlen_response. }
  change macLength with 16 in *. change UniformDH.Size with 192 in *. change minHandshakeLength with 224 in *.
  pose proof (zlen_nonneg stale) as Hst. pose proof (zlen_nonneg rest) as Hre.
  set (full := 192 + zlen pad + 2 * 16) in *.
  rewrite (parse_mark kB y pad e kp pb Lb Hpb Hpad Hmark buf stale missing [] hs Hw)
    by (rewrite ?app_nil_r; change macLength with 16; change UniformDH.Size with 192;
        change minHandshakeLength with 224; done || lia).
  rewrite (parse_mark kB y pad e kp pb Lb Hpb Hpad Hmark (buf ++ missing) rest [] [] hs Hw)
    by (rewrite ?app_nil_r; change macLength with 16; change UniformDH.Size with 192;
        change minHandshakeLength with 224; rewrite ?zlen_app; done || lia).
  change macLength with 16. change UniformDH.Size with 192. fold full.
  set (mac := mac16 kB (y ++ pad ++ mac16 kB y ++ e)).
  destruct (response_front kB y pad e Lb buf missing E ltac:(lia)) as (u & -> & Eu). fold mac in Eu.
  set (front := y ++ pad ++ mac16 kB y) in *.
  assert (Lf : zlen front = full - 16).
  { unfold front. rewrite !zlen_app, Lb, zlen_mac16. lia. }
  rewrite zlen_app in L.
  replace (((front ++ u) ++ missing) ++ rest) with (front ++ mac ++ rest) by (by rewrite <- Eu, <- !app_assoc).
  rewrite (gslice_app_mid front mac rest); [|done|unfold mac; rewrite zlen_mac16; lia].
  rewrite Scramble.Equal_refl. cbn [negb].
  destruct (zlen stale <? zlen missing) eqn:Es; b2p.
  - unfold gslice. rewrite !zlen_app, (leb_false full) by lia. by rewrite andb_false_r.
  - replace ((front ++ u) ++ stale) with (front ++ (u ++ ztake (zlen missing) stale) ++ zdrop (zlen missing) stale)
      by (by rewrite <- !app_assoc, ztake_zdrop).
    rewrite (gslice_app_mid front); [|done|rewrite zlen_app, zlen_ztake; lia].
    destruct (decide (ztake (zlen missing) stale = missing)) as [->|Hne].
    + by rewrite Eu, Scramble.Equal_refl.
    + unfold Hmac.Equal. rewrite bool_decide_false; [done|]. rewrite <- Eu. intros Ea. apply Hne.
      by apply app_inv_head in Ea.
Qed.
End theorems.
End SsHandshake.

Section witnesses.
Import SsHandshake ToyCipher.
Definition sh_write (sent : list bytes) (b : bytes) : option GoNet.net_error := None.
Definition sh_key_of (k : Z) : UniformDH.PrivateKey :=
  match UniformDH.generateKey (be_encode 192 k) with
  | Ok x => x | _ => UniformDH.mkPrivate (UniformDH.mkPublic [] 0) 0
  end.
(** Private keys 5 and 6, a password of zeros, no padding. *)
Definition sh_ka : UniformDH.PrivateKey := Eval vm_compute in sh_key_of 5.
Definition sh_kb : UniformDH.PrivateKey := Eval vm_compute in sh_key_of 6.
Definition sh_kB : bytes := zrepeat 20 Byte.x00.
Definition sh_y : bytes := Eval vm_compute in UniformDH.keyBytes (UniformDH.public sh_kb).
Definition sh_response : bytes := Eval vm_compute in response sh_kB sh_y [] (hour_text 1700000000).
(** The response comes with the first bytes behind it. *)
Definition sh_net : GoNet.reads := [(ztake 100 sh_response, None); (zdrop 100 sh_response ++ str "packet", None)].
Definition sh_store : SsTicket.ssTicketStore := SsTicket.mkStore ∅ None [].
Definition sh_start : conn := start sh_net (zrepeat 16 Byte.x00) sh_store (str "192.0.2.1:443").
Definition sh_hello := Eval vm_compute in
  match client_hello sh_write 1700000000 sh_kB sh_ka sh_start with
  | Some (Ok hs, c) => (hs, c)
  | _ => (mkDH [] [] sh_ka [] 0 None [], sh_start)
  end.

Lemma sh_mark : GoNet.first_mark (mac16 sh_kB sh_y) [].
Proof.
  apply index_sub_Some. split; [|intros j Hj; cbn in Hj; lia].
  exists [], []. by rewrite app_nil_r.
Qed.

Lemma ss_agreement_witness :
  exists pa ss k c' l p,
    UniformDH.SetBytes (UniformDH.keyBytes (UniformDH.public sh_ka)) = Ok pa
    /\ UniformDH.Handshake sh_kb pa = Ok ss
    /\ Scramble.initCrypto (Sha256.Sum256 ss) = Ok k
    /\ clientHandshake sh_write 1700000000 1700000000 (fun _ => []) sh_kB sh_ka sh_start = Some (Ok tt, c')
    /\ txCrypto c' = Some k.1 /\ rxCrypto c' = Some k.2
    /\ GoNet.stream (GoNet.incoming (net c')) l /\ receiveBuffer c' ++ l = str "packet"
    /\ GoNet.sent (net c')
       = [hello_message sh_kB (UniformDH.keyBytes (UniformDH.public sh_ka)) p (hour_text 1700000000)]
    /\ zlen p <= dhMaxPadLength.
Proof.
  apply (ss_agreement sh_write 1700000000 1700000000 (fun _ => []) (fun _ _ => eq_refl) sh_kB
    (be_encode 192 5) (be_encode 192 6) sh_ka sh_kb sh_net (zrepeat 16 Byte.x00) sh_store
    (str "192.0.2.1:443") sh_hello.1 sh_hello.2 [] (str "packet")).
  - vm_compute. reflexivity.
  - vm_compute. reflexivity.
  - reflexivity.
  - vm_compute. reflexivity.
  - vm_compute. congruence.
  - exact sh_mark.
  - split; [vm_compute; reflexivity|repeat constructor].
  - repeat split; [left; reflexivity|right; right; vm_compute; congruence].
Defined.

(** The last byte of a response is missing, and the buffer is full: a panic. *)
Lemma response_cut_witness :
  let resp := response sh_kB sh_y (zrepeat 10 Byte.x00) (hour_text 1700000000) in
  let cut := zlen resp - 1 in
  GoNet.first_mark (mac16 sh_kB sh_y) (zrepeat 10 Byte.x00)
  /\ (parseServerHandshake (ztake cut resp) [] sh_hello.1).1 = Panic "slice bounds out of range".
Proof.
  intros resp cut.
  assert (Hm : GoNet.first_mark (mac16 sh_kB sh_y) (zrepeat 10 Byte.x00)) by (vm_compute; reflexivity).
  split; [exact Hm|].
  rewrite (response_cut sh_kB (be_encode 192 6) sh_kb sh_ka (zrepeat 10 Byte.x00) (hour_text 1700000000)
    (ztake cut resp) (zdrop cut resp) [] sh_hello.1 []).
  - vm_compute. reflexivity.
  - vm_compute. reflexivity.
  - vm_compute. congruence.
  - exact Hm.
  - reflexivity.
  - reflexivity.
  - reflexivity.
  - reflexivity.
  - symmetry. apply ztake_zdrop.
  - vm_compute. congruence.
  - split; [vm_compute; reflexivity|vm_compute; congruence].
Defined.
End witnesses.
