(* ===== verification/Field25519.v ===== *)
(** * Field arithmetic modulo 2^255 - 19: [internal/edwards25519]

    The field part of [edwards25519.go]: elements of ten int32 limbs of 26 and
    25 bits, with the wrap-around of every int32 and int64 operation, and what
    each operation computes modulo [p]. *)
From S2P Require Import Prelude.

Module Field25519.

(** ** Machine integers *)

Declare Scope int_scope.
Delimit Scope int_scope with int.
Notation "x +! y" := (i64 (x + y)) (at level 50, left associativity) : int_scope.
Notation "x -! y" := (i64 (x - y)) (at level 50, left associativity) : int_scope.
Notation "x *! y" := (i64 (x * y)) (at level 40, left associativity) : int_scope.
Notation "x <<! k" := (i64 (Z.shiftl x k)) (at level 35, right associativity) : int_scope.
Notation "x +' y" := (i32 (x + y)) (at level 50, left associativity) : int_scope.
Notation "x -' y" := (i32 (x - y)) (at level 50, left associativity) : int_scope.
Notation "x *' y" := (i32 (x * y)) (at level 40, left associativity) : int_scope.
Notation "x <<' k" := (i32 (Z.shiftl x k)) (at level 35, right associativity) : int_scope.
#[local] Open Scope int_scope.

(** ** Elements *)

(** [type FieldElement [10]int32]. *)
Record FieldElement := Fe {
  e0 : Z; e1 : Z; e2 : Z; e3 : Z; e4 : Z; e5 : Z; e6 : Z; e7 : Z; e8 : Z; e9 : Z
}.

Definition FeZero : FieldElement := Fe 0 0 0 0 0 0 0 0 0 0.
Definition FeOne : FieldElement := Fe 1 0 0 0 0 0 0 0 0 0.

Definition FeAdd (a b : FieldElement) : FieldElement :=
  Fe (e0 a +' e0 b) (e1 a +' e1 b) (e2 a +' e2 b) (e3 a +' e3 b) (e4 a +' e4 b)
     (e5 a +' e5 b) (e6 a +' e6 b) (e7 a +' e7 b) (e8 a +' e8 b) (e9 a +' e9 b).
Definition FeSub (a b : FieldElement) : FieldElement :=
  Fe (e0 a -' e0 b) (e1 a -' e1 b) (e2 a -' e2 b) (e3 a -' e3 b) (e4 a -' e4 b)
     (e5 a -' e5 b) (e6 a -' e6 b) (e7 a -' e7 b) (e8 a -' e8 b) (e9 a -' e9 b).
Definition FeNeg (f : FieldElement) : FieldElement :=
  Fe (i32 (- e0 f)) (i32 (- e1 f)) (i32 (- e2 f)) (i32 (- e3 f)) (i32 (- e4 f))
     (i32 (- e5 f)) (i32 (- e6 f)) (i32 (- e7 f)) (i32 (- e8 f)) (i32 (- e9 f)).
Definition FeCopy (src : FieldElement) : FieldElement := src.

(** [f[i] ^= b & (f[i] ^ g[i])], with [b] negated. *)
Definition FeCMove (f g : FieldElement) (b : Z) : FieldElement :=
  let b := i32 (- b) in
  let m x y := Z.lxor x (Z.land b (Z.lxor x y)) in
  Fe (m (e0 f) (e0 g)) (m (e1 f) (e1 g)) (m (e2 f) (e2 g)) (m (e3 f) (e3 g))
     (m (e4 f) (e4 g)) (m (e5 f) (e5 g)) (m (e6 f) (e6 g)) (m (e7 f) (e7 g))
     (m (e8 f) (e8 g)) (m (e9 f) (e9 g)).

(** ** Reduction *)

(** One carry of [FeCombine]: [c = (a + (1<<(k-1))) >> k; b += c; a -= c << k]. *)
Definition carry (k a b : Z) : Z * Z :=
  let c := Z.shiftr (a +! Z.shiftl 1 (k - 1)) k in (a -! c <<! k, b +! c).
(** [c9 = (h9 + (1<<24)) >> 25; h0 += c9 * 19; h9 -= c9 << 25]. *)
Definition carry_top (h9 h0 : Z) : Z * Z :=
  let c9 := Z.shiftr (h9 +! Z.shiftl 1 24) 25 in (h9 -! c9 <<! 25, h0 +! c9 *! 19).

Definition FeCombine (h0 h1 h2 h3 h4 h5 h6 h7 h8 h9 : Z) : FieldElement :=
  let '(h0, h1) := carry 26 h0 h1 in
  let '(h4, h5) := carry 26 h4 h5 in
  let '(h1, h2) := carry 25 h1 h2 in
  let '(h5, h6) := carry 25 h5 h6 in
  let '(h2, h3) := carry 26 h2 h3 in
  let '(h6, h7) := carry 26 h6 h7 in
  let '(h3, h4) := carry 25 h3 h4 in
  let '(h7, h8) := carry 25 h7 h8 in
  let '(h4, h5) := carry 26 h4 h5 in
  let '(h8, h9) := carry 26 h8 h9 in
  let '(h9, h0) := carry_top h9 h0 in
  let '(h0, h1) := carry 26 h0 h1 in
  Fe (i32 h0) (i32 h1) (i32 h2) (i32 h3) (i32 h4) (i32 h5) (i32 h6) (i32 h7) (i32 h8) (i32 h9).

(** ** Multiplication

    A sum of int64 products wraps once: wrapping after every addition gives the
    same. *)

Definition FeMul (f g : FieldElement) : FieldElement :=
  let '(Fe f0 f1 f2 f3 f4 f5 f6 f7 f8 f9) := f in
  let '(Fe g0 g1 g2 g3 g4 g5 g6 g7 g8 g9) := g in
  let f1_2 := 2 *' f1 in
  let f3_2 := 2 *' f3 in
  let f5_2 := 2 *' f5 in
  let f7_2 := 2 *' f7 in
  let f9_2 := 2 *' f9 in
  let g1_19 := 19 *' g1 in
  let g2_19 := 19 *' g2 in
  let g3_19 := 19 *' g3 in
  let g4_19 := 19 *' g4 in
  let g5_19 := 19 *' g5 in
  let g6_19 := 19 *' g6 in
  let g7_19 := 19 *' g7 in
  let g8_19 := 19 *' g8 in
  let g9_19 := 19 *' g9 in
  FeCombine
    (i64 (f0*g0 + f1_2*g9_19 + f2*g8_19 + f3_2*g7_19 + f4*g6_19 + f5_2*g5_19 + f6*g4_19 + f7_2*g3_19 + f8*g2_19 + f9_2*g1_19))
    (i64 (f0*g1 + f1*g0 + f2*g9_19 + f3*g8_19 + f4*g7_19 + f5*g6_19 + f6*g5_19 + f7*g4_19 + f8*g3_19 + f9*g2_19))
    (i64 (f0*g2 + f1_2*g1 + f2*g0 + f3_2*g9_19 + f4*g8_19 + f5_2*g7_19 + f6*g6_19 + f7_2*g5_19 + f8*g4_19 + f9_2*g3_19))
    (i64 (f0*g3 + f1*g2 + f2*g1 + f3*g0 + f4*g9_19 + f5*g8_19 + f6*g7_19 + f7*g6_19 + f8*g5_19 + f9*g4_19))
    (i64 (f0*g4 + f1_2*g3 + f2*g2 + f3_2*g1 + f4*g0 + f5_2*g9_19 + f6*g8_19 + f7_2*g7_19 + f8*g6_19 + f9_2*g5_19))
    (i64 (f0*g5 + f1*g4 + f2*g3 + f3*g2 + f4*g1 + f5*g0 + f6*g9_19 + f7*g8_19 + f8*g7_19 + f9*g6_19))
    (i64 (f0*g6 + f1_2*g5 + f2*g4 + f3_2*g3 + f4*g2 + f5_2*g1 + f6*g0 + f7_2*g9_19 + f8*g8_19 + f9_2*g7_19))
    (i64 (f0*g7 + f1*g6 + f2*g5 + f3*g4 + f4*g3 + f5*g2 + f6*g1 + f7*g0 + f8*g9_19 + f9*g8_19))
    (i64 (f0*g8 + f1_2*g7 + f2*g6 + f3_2*g5 + f4*g4 + f5_2*g3 + f6*g2 + f7_2*g1 + f8*g0 + f9_2*g9_19))
    (i64 (f0*g9 + f1*g8 + f2*g7 + f3*g6 + f4*g5 + f5*g4 + f6*g3 + f7*g2 + f8*g1 + f9*g0)).

(** The ten results of [feSquare]. *)
Definition feSquare (f : FieldElement) : Z * Z * Z * Z * Z * Z * Z * Z * Z * Z :=
  let '(Fe f0 f1 f2 f3 f4 f5 f6 f7 f8 f9) := f in
  let f0_2 := 2 *' f0 in
  let f1_2 := 2 *' f1 in
  let f2_2 := 2 *' f2 in
  let f3_2 := 2 *' f3 in
  let f4_2 := 2 *' f4 in
  let f5_2 := 2 *' f5 in
  let f6_2 := 2 *' f6 in
  let f7_2 := 2 *' f7 in
  let f5_38 := 38 *! f5 in
  let f6_19 := 19 *! f6 in
  let f7_38 := 38 *! f7 in
  let f8_19 := 19 *! f8 in
  let f9_38 := 38 *! f9 in
  ( i64 (f0*f0 + f1_2*f9_38 + f2_2*f8_19 + f3_2*f7_38 + f4_2*f6_19 + f5*f5_38),
    i64 (f0_2*f1 + f2*f9_38 + f3_2*f8_19 + f4*f7_38 + f5_2*f6_19),
    i64 (f0_2*f2 + f1_2*f1 + f3_2*f9_38 + f4_2*f8_19 + f5_2*f7_38 + f6*f6_19),
    i64 (f0_2*f3 + f1_2*f2 + f4*f9_38 + f5_2*f8_19 + f6*f7_38),
    i64 (f0_2*f4 + f1_2*f3_2 + f2*f2 + f5_2*f9_38 + f6_2*f8_19 + f7*f7_38),
    i64 (f0_2*f5 + f1_2*f4 + f2_2*f3 + f6*f9_38 + f7_2*f8_19),
    i64 (f0_2*f6 + f1_2*f5_2 + f2_2*f4 + f3_2*f3 + f7_2*f9_38 + f8*f8_19),
    i64 (f0_2*f7 + f1_2*f6 + f2_2*f5 + f3_2*f4 + f8*f9_38),
    i64 (f0_2*f8 + f1_2*f7_2 + f2_2*f6 + f3_2*f5_2 + f4*f4 + f9*f9_38),
    i64 (f0_2*f9 + f1_2*f8 + f2_2*f7 + f3_2*f6 + f4_2*f5) ).

Definition FeSquare (f : FieldElement) : FieldElement :=
  let '(h0, h1, h2, h3, h4, h5, h6, h7, h8, h9) := feSquare f in
  FeCombine h0 h1 h2 h3 h4 h5 h6 h7 h8 h9.
(** [h0 += h0], ... *)
Definition FeSquare2 (f : FieldElement) : FieldElement :=
  let '(h0, h1, h2, h3, h4, h5, h6, h7, h8, h9) := feSquare f in
  FeCombine (h0 +! h0) (h1 +! h1) (h2 +! h2) (h3 +! h3) (h4 +! h4)
            (h5 +! h5) (h6 +! h6) (h7 +! h7) (h8 +! h8) (h9 +! h9).

(** ** Bytes *)

Definition bt (b : bytes) (i : nat) : Z := b2z (nth i b Byte.x00).
Definition load3 (b : bytes) (i : nat) : Z :=
  Z.lor (Z.lor (bt b i) (bt b (i + 1) <<! 8)) (bt b (i + 2) <<! 16).
Definition load4 (b : bytes) (i : nat) : Z :=
  Z.lor (Z.lor (Z.lor (bt b i) (bt b (i + 1) <<! 8)) (bt b (i + 2) <<! 16)) (bt b (i + 3) <<! 24).

(** [FeFromBytes]: [src] has 32 bytes. *)
Definition FeFromBytes (src : bytes) : FieldElement :=
  FeCombine (load4 src 0) (load3 src 4 <<! 6) (load3 src 7 <<! 5) (load3 src 10 <<! 3)
    (load3 src 13 <<! 2) (load4 src 16) (load3 src 20 <<! 7) (load3 src 23 <<! 5)
    (load3 src 26 <<! 4) (Z.land (load3 src 29) 8388607 <<! 2).

(** A carry of [FeToBytes]: [c = a >> k; b += c; a -= c << k]. *)
Definition carry32 (k a b : Z) : Z * Z :=
  let c := Z.shiftr a k in (a -' c <<' k, b +' c).

(** The quotient [q] of [FeToBytes]. *)
Definition toBytes_q (h : FieldElement) : Z :=
  let '(Fe h0 h1 h2 h3 h4 h5 h6 h7 h8 h9) := h in
  let q := Z.shiftr (19 *' h9 +' Z.shiftl 1 24) 25 in
  let q := Z.shiftr (h0 +' q) 26 in
  let q := Z.shiftr (h1 +' q) 25 in
  let q := Z.shiftr (h2 +' q) 26 in
  let q := Z.shiftr (h3 +' q) 25 in
  let q := Z.shiftr (h4 +' q) 26 in
  let q := Z.shiftr (h5 +' q) 25 in
  let q := Z.shiftr (h6 +' q) 26 in
  let q := Z.shiftr (h7 +' q) 25 in
  let q := Z.shiftr (h8 +' q) 26 in
  Z.shiftr (h9 +' q) 25.

(** Its carries, after [h[0] += 19 * q]. *)
Definition toBytes_carries (q : Z) (h : FieldElement) : FieldElement :=
  let '(Fe h0 h1 h2 h3 h4 h5 h6 h7 h8 h9) := h in
  let h0 := h0 +' 19 *' q in
  let '(h0, h1) := carry32 26 h0 h1 in
  let '(h1, h2) := carry32 25 h1 h2 in
  let '(h2, h3) := carry32 26 h2 h3 in
  let '(h3, h4) := carry32 25 h3 h4 in
  let '(h4, h5) := carry32 26 h4 h5 in
  let '(h5, h6) := carry32 25 h5 h6 in
  let '(h6, h7) := carry32 26 h6 h7 in
  let '(h7, h8) := carry32 25 h7 h8 in
  let '(h8, h9) := carry32 26 h8 h9 in
  let h9 := h9 -' Z.shiftr h9 25 <<' 25 in
  Fe h0 h1 h2 h3 h4 h5 h6 h7 h8 h9.

(** Its bytes. *)
Definition toBytes_pack (h : FieldElement) : bytes :=
  let '(Fe h0 h1 h2 h3 h4 h5 h6 h7 h8 h9) := h in
  let b1 x k := z2b (Z.shiftr x k) in
  let b2 x k y m := z2b (Z.lor (Z.shiftr x k) (y <<' m)) in
  [ b1 h0 0; b1 h0 8; b1 h0 16; b2 h0 24 h1 2; b1 h1 6; b1 h1 14; b2 h1 22 h2 3;
    b1 h2 5; b1 h2 13; b2 h2 21 h3 5; b1 h3 3; b1 h3 11; b2 h3 19 h4 6;
    b1 h4 2; b1 h4 10; b1 h4 18;
    b1 h5 0; b1 h5 8; b1 h5 16; b2 h5 24 h6 1; b1 h6 7; b1 h6 15; b2 h6 23 h7 3;
    b1 h7 5; b1 h7 13; b2 h7 21 h8 4; b1 h8 4; b1 h8 12; b2 h8 20 h9 6;
    b1 h9 2; b1 h9 10; b1 h9 18 ].

(** [FeToBytes(s, h)]: what it writes to [s], and the argument [h], which it
    changes in place. *)
Definition FeToBytes (h : FieldElement) : bytes * FieldElement :=
  let h := toBytes_carries (toBytes_q h) h in (toBytes_pack h, h).

Definition FeIsNegative (f : FieldElement) : Z * FieldElement :=
  let '(s, f) := FeToBytes f in (Z.land (bt s 0) 1, f).

(** [x |= b] for every byte, then the bits of [x] folded into the lowest. *)
Definition FeIsNonZero (f : FieldElement) : Z * FieldElement :=
  let '(s, f) := FeToBytes f in
  let x := foldl (fun x b => Z.lor x (b2z b)) 0 s in
  let x := Z.lor x (Z.shiftr x 4) in
  let x := Z.lor x (Z.shiftr x 2) in
  let x := Z.lor x (Z.shiftr x 1) in
  (Z.land x 1, f).

(** ** Exponentiation *)

(** A loop of [n] squarings. *)
Definition squarings (n : nat) (f : FieldElement) : FieldElement := Nat.iter n FeSquare f.

Definition FeInvert (z : FieldElement) : FieldElement :=
  let t0 := FeSquare z in
  let t1 := FeSquare t0 in
  let t1 := squarings 1 t1 in
  let t1 := FeMul z t1 in
  let t0 := FeMul t0 t1 in
  let t2 := FeSquare t0 in
  let t1 := FeMul t1 t2 in
  let t2 := FeSquare t1 in
  let t2 := squarings 4 t2 in
  let t1 := FeMul t2 t1 in
  let t2 := FeSquare t1 in
  let t2 := squarings 9 t2 in
  let t2 := FeMul t2 t1 in
  let t3 := FeSquare t2 in
  let t3 := squarings 19 t3 in
  let t2 := FeMul t3 t2 in
  let t2 := FeSquare t2 in
  let t2 := squarings 9 t2 in
  let t1 := FeMul t2 t1 in
  let t2 := FeSquare t1 in
  let t2 := squarings 49 t2 in
  let t2 := FeMul t2 t1 in
  let t3 := FeSquare t2 in
  let t3 := squarings 99 t3 in
  let t2 := FeMul t3 t2 in
  let t2 := FeSquare t2 in
  let t2 := squarings 49 t2 in
  let t1 := FeMul t2 t1 in
  let t1 := FeSquare t1 in
  let t1 := squarings 4 t1 in
  FeMul t1 t0.

Definition fePow22523 (z : FieldElement) : FieldElement :=
  let t0 := FeSquare z in
  let t0 := squarings 0 t0 in
  let t1 := FeSquare t0 in
  let t1 := squarings 1 t1 in
  let t1 := FeMul z t1 in
  let t0 := FeMul t0 t1 in
  let t0 := FeSquare t0 in
  let t0 := squarings 0 t0 in
  let t0 := FeMul t1 t0 in
  let t1 := FeSquare t0 in
  let t1 := squarings 4 t1 in
  let t0 := FeMul t1 t0 in
  let t1 := FeSquare t0 in
  let t1 := squarings 9 t1 in
  let t1 := FeMul t1 t0 in
  let t2 := FeSquare t1 in
  let t2 := squarings 19 t2 in
  let t1 := FeMul t2 t1 in
  let t1 := FeSquare t1 in
  let t1 := squarings 9 t1 in
  let t0 := FeMul t1 t0 in
  let t1 := FeSquare t0 in
  let t1 := squarings 49 t1 in
  let t1 := FeMul t1 t0 in
  let t2 := FeSquare t1 in
  let t2 := squarings 99 t2 in
  let t1 := FeMul t2 t1 in
  let t1 := FeSquare t1 in
  let t1 := squarings 49 t1 in
  let t0 := FeMul t1 t0 in
  let t0 := FeSquare t0 in
  let t0 := squarings 1 t0 in
  FeMul t0 z.

(** ** Values *)

Definition p : Z := 2 ^ 255 - 19.

Definition eval (f : FieldElement) : Z :=
  e0 f + 2^26 * e1 f + 2^51 * e2 f + 2^77 * e3 f + 2^102 * e4 f
  + 2^128 * e5 f + 2^153 * e6 f + 2^179 * e7 f + 2^204 * e8 f + 2^230 * e9 f.

(** Limbs bounded by [b] (even positions) and [b / 2] (odd positions). *)
Definition bnd (b x : Z) : Prop := - b <= x <= b.
Definition bounded (b : Z) (f : FieldElement) : Prop :=
  bnd (2 * b) (e0 f) /\ bnd b (e1 f) /\ bnd (2 * b) (e2 f) /\ bnd b (e3 f)
  /\ bnd (2 * b) (e4 f) /\ bnd b (e5 f) /\ bnd (2 * b) (e6 f) /\ bnd b (e7 f)
  /\ bnd (2 * b) (e8 f) /\ bnd b (e9 f).

(** What every reduced element satisfies ("1.01*2^24"), and what the operands of
    a multiplication may reach ("1.65*2^25"). *)
Definition tight : Z := 16944988.
Definition loose : Z := 55364812.


Lemma shl_mul x k : 0 <= k -> Z.shiftl x k = x * 2 ^ k.
Proof. apply Z.shiftl_mul_pow2. Qed.

(** The carry out of a limb of [k'+1] bits leaves a centered limb. *)
Lemma carry_amount k' a A :
  k' = 24 \/ k' = 25 -> bnd A a -> A <= 2 ^ 62 + 2 ^ 61 ->
  exists c, Z.shiftr (a +! Z.shiftl 1 k') (k' + 1) = c
    /\ - 2 ^ k' <= a - c * 2 ^ (k' + 1) <= 2 ^ k' - 1
    /\ bnd (A / 2 ^ (k' + 1) + 1) c.
Proof.
  intros Hk Ha HA. unfold bnd in *. eexists. split; [reflexivity|].
  rewrite shl_mul, i64_small, Z.shiftr_div_pow2 by (destruct Hk; subst; lia).
  destruct Hk; subst; cbn [Z.add Pos.add]; Z.div_mod_to_equations; lia.
Qed.

(** A carry moves [c] from one limb to the next. *)
Lemma carry_spec k a b A B :
  k = 25 \/ k = 26 -> bnd A a -> bnd B b -> A <= 2 ^ 62 + 2 ^ 61 -> B <= 2 ^ 62 ->
  exists c, carry k a b = (a - c * 2 ^ k, b + c)
    /\ bnd (2 ^ (k - 1)) (a - c * 2 ^ k) /\ bnd (A / 2 ^ k + 1) c.
Proof.
  intros Hk Ha Hb HA HB. unfold carry.
  destruct (carry_amount (k - 1) a A) as (c & E & Hr & Hc); [lia|done|done|].
  rewrite Z.sub_add in *. rewrite E. exists c. split; [|split; [unfold bnd; lia|done]].
  unfold bnd in *. rewrite shl_mul by lia.
  destruct Hk; subst k; Z.div_mod_to_equations; rewrite (i64_small (c * _)) by lia;
    rewrite !i64_small by lia; done.
Qed.

Lemma carry_top_spec h9 h0 A B :
  bnd A h9 -> bnd B h0 -> A <= 2 ^ 62 + 2 ^ 61 -> B <= 2 ^ 61 ->
  exists c, carry_top h9 h0 = (h9 - c * 2 ^ 25, h0 + 19 * c)
    /\ bnd (2 ^ 24) (h9 - c * 2 ^ 25) /\ bnd (A / 2 ^ 25 + 1) c.
Proof.
  intros Ha Hb HA HB. unfold carry_top.
  destruct (carry_amount 24 h9 A) as (c & E & Hr & Hc); [auto|done|done|].
  change (24 + 1) with 25 in *. rewrite E. exists c.
  split; [|split; [unfold bnd; lia|done]].
  unfold bnd in *. rewrite shl_mul by lia.
  Z.div_mod_to_equations. rewrite (i64_small (c * 2 ^ 25)), (i64_small (c * 19)) by lia.
  rewrite !i64_small by lia. f_equal. lia.
Qed.

Ltac step_carry k a b A B c H1 H2 :=
  let E := fresh in
  destruct (carry_spec k a b A B) as (c & E & H1 & H2);
    [auto|unfold bnd in *; lia|unfold bnd in *; lia|lia|lia|];
  rewrite E; clear E; unfold bnd in H1, H2;
  match type of H2 with context [?x / ?y + 1] =>
    let v := eval vm_compute in (x / y + 1) in change (x / y + 1) with v in H2 end;
  cbv beta iota.

(** The ten partial sums become a tight element of the same value modulo [p]. *)
Lemma FeCombine_spec h0 h1 h2 h3 h4 h5 h6 h7 h8 h9 :
  let M := 2 ^ 62 in
  bnd M h0 -> bnd M h1 -> bnd M h2 -> bnd M h3 -> bnd M h4 ->
  bnd M h5 -> bnd M h6 -> bnd M h7 -> bnd M h8 -> bnd M h9 ->
  let f := FeCombine h0 h1 h2 h3 h4 h5 h6 h7 h8 h9 in
  bounded tight f
  /\ exists q, eval f = h0 + 2^26 * h1 + 2^51 * h2 + 2^77 * h3 + 2^102 * h4
       + 2^128 * h5 + 2^153 * h6 + 2^179 * h7 + 2^204 * h8 + 2^230 * h9 - p * q.
Proof.
  intros M H0 H1 H2 H3 H4 H5 H6 H7 H8 H9 f. unfold f, FeCombine. unfold M in *. clear M f.
  step_carry 26 h0 h1 (2^62) (2^62) c0 R0 C0.
  step_carry 26 h4 h5 (2^62) (2^62) c4 R4 C4.
  step_carry 25 (h1 + c0) h2 (2^62 + 2^40) (2^62) c1 R1 C1.
  step_carry 25 (h5 + c4) h6 (2^62 + 2^40) (2^62) c5 R5 C5.
  step_carry 26 (h2 + c1) h3 (2^62 + 2^40) (2^62) c2 R2 C2.
  step_carry 26 (h6 + c5) h7 (2^62 + 2^40) (2^62) c6 R6 C6.
  step_carry 25 (h3 + c2) (h4 - c4 * 2^26) (2^62 + 2^40) (2^62) c3 R3 C3.
  step_carry 25 (h7 + c6) h8 (2^62 + 2^40) (2^62) c7 R7 C7.
  step_carry 26 (h4 - c4 * 2^26 + c3) (h5 + c4 - c5 * 2^25) (2^38) (2^62) d4 R4' D4.
  step_carry 26 (h8 + c7) h9 (2^62 + 2^40) (2^62) c8 R8 C8.
  destruct (carry_top_spec (h9 + c8) (h0 - c0 * 2^26) (2^62 + 2^40) (2^60)) as (c9 & E & R9 & C9);
    [unfold bnd in *; lia|unfold bnd in *; lia|lia|lia|].
  rewrite E; clear E; unfold bnd in R9, C9.
  change ((2 ^ 62 + 2 ^ 40) / 2 ^ 25 + 1) with 137438986241 in C9. cbv beta iota.
  step_carry 26 (h0 - c0 * 2^26 + 19 * c9) (h1 + c0 - c1 * 2^25) (2^42) (2^62) d0 R0' D0.
  rewrite !i32_small by lia. split.
  - unfold bounded, bnd, tight. cbn [e0 e1 e2 e3 e4 e5 e6 e7 e8 e9]. split_and!; lia.
  - exists c9. unfold eval, p. cbn [e0 e1 e2 e3 e4 e5 e6 e7 e8 e9]. ring.
Qed.

Lemma mul_bnd A B x y : bnd A x -> bnd B y -> bnd (A * B) (x * y).
Proof. unfold bnd. intros. nia. Qed.
Lemma add_bnd A B x y : bnd A x -> bnd B y -> bnd (A + B) (x + y).
Proof. unfold bnd. lia. Qed.
Lemma i32_2 b x : bnd b x -> 2 * b < 2 ^ 31 -> i32 (2 * x) = 2 * x /\ bnd (2 * b) (2 * x).
Proof. unfold bnd. intros. split; [apply i32_small|]; lia. Qed.
Lemma i32_19 b x : bnd b x -> 19 * b < 2 ^ 31 -> i32 (19 * x) = 19 * x /\ bnd (19 * b) (19 * x).
Proof. unfold bnd. intros. split; [apply i32_small|]; lia. Qed.
Lemma i64_k k b x :
  0 <= k -> bnd b x -> k * b < 2 ^ 63 -> i64 (k * x) = k * x /\ bnd (k * b) (k * x).
Proof. unfold bnd. intros. assert (- (k * b) <= k * x <= k * b) by nia. split; [apply i64_small|]; lia. Qed.

(** The bound of a sum of products, from the bounds of the factors in the context. *)
Ltac sum_bnd :=
  match goal with
  | |- bnd _ (_ + _) => apply add_bnd; sum_bnd
  | |- bnd _ (_ * _) => apply mul_bnd; eassumption
  end.
Lemma bnd_small A x : bnd A x -> A < 2 ^ 63 -> - 2 ^ 63 <= x < 2 ^ 63.
Proof. unfold bnd. lia. Qed.
Lemma bnd_mono A B x : bnd A x -> A <= B -> bnd B x.
Proof. unfold bnd. lia. Qed.

Ltac no_wrap := rewrite i64_small by (eapply bnd_small; [sum_bnd|vm_compute; done]).

Ltac use2 H := let E := fresh in let B := fresh in
  destruct (i32_2 _ _ H ltac:(done)) as [E B]; rewrite E; clear E.
Ltac use19 H := let E := fresh in let B := fresh in
  destruct (i32_19 _ _ H ltac:(done)) as [E B]; rewrite E; clear E.

Ltac use_combine Hb q Hq :=
  match goal with
  | |- context [FeCombine ?a0 ?a1 ?a2 ?a3 ?a4 ?a5 ?a6 ?a7 ?a8 ?a9] =>
      destruct (FeCombine_spec a0 a1 a2 a3 a4 a5 a6 a7 a8 a9) as [Hb [q Hq]];
        [eapply bnd_mono; [sum_bnd|vm_compute; done]..|]
  end.

(** [FeMul] multiplies modulo [p], without overflow, and returns a tight element. *)
Lemma FeMul_spec f g :
  bounded loose f -> bounded loose g ->
  bounded tight (FeMul f g) /\ exists q, eval (FeMul f g) = eval f * eval g - p * q.
Proof.
  destruct f as [f0 f1 f2 f3 f4 f5 f6 f7 f8 f9], g as [g0 g1 g2 g3 g4 g5 g6 g7 g8 g9].
  unfold bounded. cbn [e0 e1 e2 e3 e4 e5 e6 e7 e8 e9].
  intros (F0 & F1 & F2 & F3 & F4 & F5 & F6 & F7 & F8 & F9)
         (G0 & G1 & G2 & G3 & G4 & G5 & G6 & G7 & G8 & G9).
  unfold FeMul. cbv zeta.
  use2 F1. use2 F3. use2 F5. use2 F7. use2 F9.
  use19 G1. use19 G2. use19 G3. use19 G4. use19 G5. use19 G6. use19 G7. use19 G8. use19 G9.
  do 10 no_wrap.
  use_combine Hb q Hq.
  split; [exact Hb|]. rewrite Hq. unfold eval. cbn [e0 e1 e2 e3 e4 e5 e6 e7 e8 e9].
  exists (q + ((f1*g9 + f9*g1 + f3*g7 + f7*g3 + f5*g5) * 2 + (f2*g8 + f8*g2 + f4*g6 + f6*g4)
    + 2^26 * (f2*g9 + f3*g8 + f4*g7 + f5*g6 + f6*g5 + f7*g4 + f8*g3 + f9*g2)
    + 2^51 * ((f3*g9 + f5*g7 + f7*g5 + f9*g3) * 2 + (f4*g8 + f6*g6 + f8*g4))
    + 2^77 * (f4*g9 + f5*g8 + f6*g7 + f7*g6 + f8*g5 + f9*g4)
    + 2^102 * ((f5*g9 + f7*g7 + f9*g5) * 2 + (f6*g8 + f8*g6))
    + 2^128 * (f6*g9 + f7*g8 + f8*g7 + f9*g6)
    + 2^153 * ((f7*g9 + f9*g7) * 2 + f8*g8)
    + 2^179 * (f8*g9 + f9*g8)
    + 2^204 * (2 * (f9*g9)))).
  unfold p. ring.
Qed.

Ltac use64 H k := let E := fresh in let B := fresh in
  destruct (i64_k k _ _ ltac:(done) H ltac:(done)) as [E B]; rewrite E; clear E.

(** The value of ten partial sums. *)
Definition eval10 (h : Z * Z * Z * Z * Z * Z * Z * Z * Z * Z) : Z :=
  let '(h0, h1, h2, h3, h4, h5, h6, h7, h8, h9) := h in
  h0 + 2^26 * h1 + 2^51 * h2 + 2^77 * h3 + 2^102 * h4
  + 2^128 * h5 + 2^153 * h6 + 2^179 * h7 + 2^204 * h8 + 2^230 * h9.
Definition bounded10 (b : Z) (h : Z * Z * Z * Z * Z * Z * Z * Z * Z * Z) : Prop :=
  let '(h0, h1, h2, h3, h4, h5, h6, h7, h8, h9) := h in
  bnd b h0 /\ bnd b h1 /\ bnd b h2 /\ bnd b h3 /\ bnd b h4
  /\ bnd b h5 /\ bnd b h6 /\ bnd b h7 /\ bnd b h8 /\ bnd b h9.

Lemma feSquare_spec f :
  bounded loose f ->
  bounded10 (2 ^ 61) (feSquare f)
  /\ exists q, eval10 (feSquare f) = eval f * eval f - p * q.
Proof.
  destruct f as [f0 f1 f2 f3 f4 f5 f6 f7 f8 f9].
  unfold bounded. cbn [e0 e1 e2 e3 e4 e5 e6 e7 e8 e9].
  intros (F0 & F1 & F2 & F3 & F4 & F5 & F6 & F7 & F8 & F9).
  unfold feSquare. cbv zeta.
  use64 F5 38. use64 F6 19. use64 F7 38. use64 F8 19. use64 F9 38.
  use2 F0. use2 F1. use2 F2. use2 F3. use2 F4. use2 F5. use2 F6. use2 F7.
  do 10 no_wrap. split.
  - unfold bounded10. split_and!; (eapply bnd_mono; [sum_bnd|vm_compute; done]).
  - unfold eval10, eval. cbn [e0 e1 e2 e3 e4 e5 e6 e7 e8 e9].
    exists ((2 * (f1*f9) + 2 * (f3*f7)) * 2 + 2 * (f5*f5) + (2 * (f2*f8) + 2 * (f4*f6))
    + 2^26 * (2 * (f2*f9) + 2 * (f3*f8) + 2 * (f4*f7) + 2 * (f5*f6))
    + 2^51 * ((2 * (f3*f9) + 2 * (f5*f7)) * 2 + (2 * (f4*f8) + f6*f6))
    + 2^77 * (2 * (f4*f9) + 2 * (f5*f8) + 2 * (f6*f7))
    + 2^102 * ((2 * (f5*f9) + f7*f7) * 2 + 2 * (f6*f8))
    + 2^128 * (2 * (f6*f9) + 2 * (f7*f8))
    + 2^153 * ((2 * (f7*f9)) * 2 + f8*f8)
    + 2^179 * (2 * (f8*f9))
    + 2^204 * (2 * (f9*f9))).
    unfold p. ring.
Qed.

Lemma FeSquare_spec f :
  bounded loose f ->
  bounded tight (FeSquare f) /\ exists q, eval (FeSquare f) = eval f * eval f - p * q.
Proof.
  intros Hf. destruct (feSquare_spec f Hf) as [Hb [q Hq]]. unfold FeSquare.
  destruct (feSquare f) as [[[[[[[[[h0 h1] h2] h3] h4] h5] h6] h7] h8] h9].
  cbn [bounded10 eval10] in *. destruct_and! Hb.
  destruct (FeCombine_spec h0 h1 h2 h3 h4 h5 h6 h7 h8 h9) as [Ht [q' Hq']];
    try (eapply bnd_mono; [eassumption|done]).
  split; [done|]. exists (q + q'). rewrite Hq', Hq. ring.
Qed.

Lemma FeSquare2_spec f :
  bounded loose f ->
  bounded tight (FeSquare2 f) /\ exists q, eval (FeSquare2 f) = 2 * (eval f * eval f) - p * q.
Proof.
  intros Hf. destruct (feSquare_spec f Hf) as [Hb [q Hq]]. unfold FeSquare2.
  destruct (feSquare f) as [[[[[[[[[h0 h1] h2] h3] h4] h5] h6] h7] h8] h9].
  cbn [bounded10 eval10] in *. unfold bnd in Hb. destruct_and! Hb.
  rewrite !i64_small by lia.
  destruct (FeCombine_spec (h0 + h0) (h1 + h1) (h2 + h2) (h3 + h3) (h4 + h4)
    (h5 + h5) (h6 + h6) (h7 + h7) (h8 + h8) (h9 + h9)) as [Ht [q' Hq']]; try (unfold bnd; lia).
  split; [done|]. exists (2 * q + q'). rewrite Hq'.
  assert (E : 2 * (eval f * eval f) = 2 * (eval f * eval f - p * q) + 2 * p * q) by ring.
  rewrite E, <- Hq. ring.
Qed.

(** ** Congruence modulo [p] *)

Definition eqm (a b : Z) : Prop := (p | a - b).
Infix "==" := eqm (at level 70, no associativity) : int_scope.

#[export] Instance eqm_equiv : Equivalence eqm.
Proof.
  split; unfold eqm.
  - intros a. rewrite Z.sub_diag. apply Z.divide_0_r.
  - intros a b [k E]. exists (- k). lia.
  - intros a b c [k E] [l F]. exists (k + l). lia.
Qed.
#[export] Instance eqm_add : Proper (eqm ==> eqm ==> eqm) Z.add.
Proof. intros a a' [k E] b b' [l F]. exists (k + l). lia. Qed.
#[export] Instance eqm_sub : Proper (eqm ==> eqm ==> eqm) Z.sub.
Proof. intros a a' [k E] b b' [l F]. exists (k - l). lia. Qed.
#[export] Instance eqm_mul : Proper (eqm ==> eqm ==> eqm) Z.mul.
Proof.
  intros a a' [k E] b b' [l F]. exists (k * b + a' * l).
  replace (a * b - a' * b') with ((a - a') * b + a' * (b - b')) by ring. rewrite E, F. ring.
Qed.
#[export] Instance eqm_opp : Proper (eqm ==> eqm) Z.opp.
Proof. intros a a' [k E]. exists (- k). lia. Qed.
#[export] Instance eqm_pow : Proper (eqm ==> eq ==> eqm) Z.pow.
Proof.
  intros a a' E n ? <-. destruct (decide (0 <= n)) as [Hn|Hn].
  - revert n Hn. apply natlike_ind; [done|]. intros n Hn IH.
    rewrite !Z.pow_succ_r by done. by apply eqm_mul.
  - rewrite !Z.pow_neg_r by lia. done.
Qed.
Lemma p_pos : 0 < p.
Proof. done. Qed.
Lemma eqm_iff a b : a == b <-> a mod p = b mod p.
Proof. pose proof p_pos. symmetry. apply Z.cong_iff_ex. Qed.
Lemma eqm_mod a : a mod p == a.
Proof. apply eqm_iff. apply Zmod_mod. Qed.
Lemma eqm_quot a b q : a = b - p * q -> a == b.
Proof. intros ->. exists (- q). ring. Qed.

(** ** Representation: [f], with limbs bounded by [b], stands for [x] modulo [p] *)

Definition repr (b : Z) (f : FieldElement) (x : Z) : Prop := bounded b f /\ eval f == x.

#[export] Instance repr_proper : Proper (eq ==> eq ==> eqm ==> iff) repr.
Proof. intros b ? <- f ? <- x y E. unfold repr. by rewrite E. Qed.

Lemma bounded_mono a b f : bounded a f -> a <= b -> bounded b f.
Proof. unfold bounded, bnd. lia. Qed.
Lemma repr_mono a b f x : repr a f x -> a <= b -> repr b f x.
Proof. intros [? ?] ?. split; [by eapply bounded_mono|done]. Qed.
Lemma repr_loose b f x : repr b f x -> b <= loose -> repr loose f x.
Proof. apply repr_mono. Qed.
Lemma repr_eval b f : bounded b f -> repr b f (eval f).
Proof. done. Qed.

Lemma repr_mul f g x y :
  repr loose f x -> repr loose g y -> repr tight (FeMul f g) (x * y).
Proof.
  intros [Bf Ef] [Bg Eg]. destruct (FeMul_spec f g Bf Bg) as [Hb [q Hq]]. split; [done|].
  by rewrite (eqm_quot _ _ _ Hq), Ef, Eg.
Qed.
Lemma repr_square f x : repr loose f x -> repr tight (FeSquare f) (x * x).
Proof.
  intros [Bf Ef]. destruct (FeSquare_spec f Bf) as [Hb [q Hq]]. split; [done|].
  by rewrite (eqm_quot _ _ _ Hq), Ef.
Qed.
Lemma repr_square2 f x : repr loose f x -> repr tight (FeSquare2 f) (2 * (x * x)).
Proof.
  intros [Bf Ef]. destruct (FeSquare2_spec f Bf) as [Hb [q Hq]]. split; [done|].
  by rewrite (eqm_quot _ _ _ Hq), Ef.
Qed.

Ltac fe_linear :=
  unfold bounded, bnd, eval in *; cbn [e0 e1 e2 e3 e4 e5 e6 e7 e8 e9] in *;
  rewrite !i32_small by lia; lia.

Lemma repr_add a b f g x y :
  repr a f x -> repr b g y -> a + b < 2 ^ 30 -> repr (a + b) (FeAdd f g) (x + y).
Proof.
  intros [Bf Ef] [Bg Eg] Hab. split.
  - unfold FeAdd. fe_linear.
  - assert (eval (FeAdd f g) = eval f + eval g) as -> by (unfold FeAdd; fe_linear).
    by rewrite Ef, Eg.
Qed.
Lemma repr_sub a b f g x y :
  repr a f x -> repr b g y -> a + b < 2 ^ 30 -> repr (a + b) (FeSub f g) (x - y).
Proof.
  intros [Bf Ef] [Bg Eg] Hab. split.
  - unfold FeSub. fe_linear.
  - assert (eval (FeSub f g) = eval f - eval g) as -> by (unfold FeSub; fe_linear).
    by rewrite Ef, Eg.
Qed.
Lemma repr_neg b f x : repr b f x -> b < 2 ^ 30 -> repr b (FeNeg f) (- x).
Proof.
  intros [Bf Ef] Hb. split.
  - unfold FeNeg. fe_linear.
  - assert (eval (FeNeg f) = - eval f) as -> by (unfold FeNeg; fe_linear).
    by rewrite Ef.
Qed.
Lemma repr_one : repr tight FeOne 1.
Proof. split; [|done]. unfold bounded, bnd. cbn. unfold tight. lia. Qed.
Lemma repr_zero : repr tight FeZero 0.
Proof. split; [|done]. unfold bounded, bnd. cbn. unfold tight. lia. Qed.

Lemma cmove_0 x y : Z.lxor x (Z.land 0 (Z.lxor x y)) = x.
Proof. by rewrite Z.land_0_l, Z.lxor_0_r. Qed.
Lemma cmove_1 x y : Z.lxor x (Z.land (-1) (Z.lxor x y)) = y.
Proof. by rewrite Z.land_m1_l, <- Z.lxor_assoc, Z.lxor_nilpotent, Z.lxor_0_l. Qed.

(** [FeCMove] copies [g] when [b] is one and keeps [f] when it is zero. *)
Lemma FeCMove_spec f g b : b = 0 \/ b = 1 -> FeCMove f g b = if b =? 1 then g else f.
Proof.
  intros [-> | ->]; unfold FeCMove; cbn [Z.eqb].
  - change (i32 (- 0)) with 0. rewrite !cmove_0. by destruct f.
  - change (i32 (- (1))) with (-1). rewrite !cmove_1. by destruct g.
Qed.

(** Powers: the exponents of a chain add up. *)
Lemma repr_pow_mul f g z m n e :
  repr loose f (z ^ m) -> repr loose g (z ^ n) -> 0 <= m -> 0 <= n -> e = m + n ->
  repr tight (FeMul f g) (z ^ e).
Proof. intros Hf Hg Hm Hn ->. rewrite Z.pow_add_r by done. by apply repr_mul. Qed.
Lemma repr_pow_square f z m e :
  repr loose f (z ^ m) -> 0 <= m -> e = 2 * m -> repr tight (FeSquare f) (z ^ e).
Proof.
  intros Hf Hm ->. replace (2 * m) with (m + m) by lia. rewrite Z.pow_add_r by done.
  by apply repr_square.
Qed.
Lemma repr_pow_squarings n f z m e :
  repr loose f (z ^ m) -> 0 <= m -> e = 2 ^ Z.of_nat n * m -> repr loose (squarings n f) (z ^ e).
Proof.
  intros Hf Hm ->. induction n as [|n IH].
  - by rewrite Z.mul_1_l.
  - change (squarings (S n) f) with (FeSquare (squarings n f)).
    apply (repr_loose tight); [|done]. eapply repr_pow_square; [exact IH|lia|].
    rewrite Nat2Z.inj_succ, Z.pow_succ_r by lia. ring.
Qed.

(** The steps of an addition chain: every [let] gets a name and its exponent,
    a numeral. *)
Ltac pow_of f :=
  lazymatch f with
  | FeSquare ?g =>
      match goal with H : repr loose g (?z ^ ?m) |- _ =>
        let e := eval vm_compute in (2 * m) in
        constr:(repr_loose _ _ _ (repr_pow_square g z m e H ltac:(done) ltac:(done)) ltac:(done)) end
  | squarings ?n ?g =>
      match goal with H : repr loose g (?z ^ ?m) |- _ =>
        let e := eval vm_compute in (2 ^ Z.of_nat n * m) in
        constr:(repr_pow_squarings n g z m e H ltac:(done) ltac:(done)) end
  | FeMul ?g ?h =>
      match goal with H1 : repr loose g (?z ^ ?m), H2 : repr loose h (_ ^ ?n) |- _ =>
        let e := eval vm_compute in (m + n) in
        constr:(repr_loose _ _ _
          (repr_pow_mul g h z m n e H1 H2 ltac:(done) ltac:(done) ltac:(done)) ltac:(done)) end
  end.
Ltac run_chain :=
  repeat match goal with
  | |- repr ?b (let t := ?f in @?k t) ?x =>
      let H := pow_of f in let P := fresh in pose proof H as P;
      change (repr b (k f) x); cbv beta; revert P; generalize f;
      let t := fresh t in intros t P
  end.

(** [FeInvert] computes [z ^ (p - 2)]. *)
Lemma repr_invert f z : repr loose f z -> repr tight (FeInvert f) (z ^ (p - 2)).
Proof.
  intros Hz. assert (H1 : repr loose f (z ^ 1)) by (by rewrite Z.pow_1_r).
  cbv delta [FeInvert]; cbv beta. run_chain.
  eapply repr_pow_mul; [eassumption|eassumption|done..].
Qed.

(** [fePow22523] computes [z ^ ((p - 5) / 8)]. *)
Lemma repr_pow22523 f z : repr loose f z -> repr tight (fePow22523 f) (z ^ ((p - 5) / 8)).
Proof.
  intros Hz. assert (H1 : repr loose f (z ^ 1)) by (by rewrite Z.pow_1_r).
  cbv delta [fePow22523]; cbv beta. run_chain.
  eapply repr_pow_mul; [eassumption|eassumption|done..].
Qed.

(** ** Little-endian bytes *)

Fixpoint le_decode (l : bytes) : Z :=
  match l with [] => 0 | b :: l => b2z b + 256 * le_decode l end.
Fixpoint le_encode (n : nat) (z : Z) : bytes :=
  match n with O => [] | S n => z2b z :: le_encode n (z / 256) end.

Lemma le_decode_range l : 0 <= le_decode l < 256 ^ zlen l.
Proof.
  induction l as [|b l IH]; cbn [le_decode]; [done|].
  rewrite zlen_cons, Z.pow_add_r by (pose proof (zlen_nonneg l); lia).
  pose proof (b2z_range b). lia.
Qed.
Lemma le_encode_decode n l : length l = n -> le_encode n (le_decode l) = l.
Proof.
  revert l. induction n as [|n IH]; intros [|b l] Hl; try done. cbn [le_decode le_encode].
  pose proof (b2z_range b) as Hb. f_equal.
  - etransitivity; [|apply z2b_b2z]. unfold z2b.
    by rewrite (Z.mul_comm 256), Z_mod_plus_full.
  - rewrite Z.add_comm, Z.mul_comm, Z.div_add_l, (Z.div_small (b2z b)), Z.add_0_r by lia.
    apply IH. by injection Hl.
Qed.
Lemma le_decode_encode n z : le_decode (le_encode n z) = z mod 256 ^ Z.of_nat n.
Proof.
  revert z. induction n as [|n IH]; intros z; cbn [le_decode le_encode].
  - by rewrite Z.mod_1_r.
  - rewrite IH, b2z_z2b, Nat2Z.inj_succ, Z.pow_succ_r by lia.
    rewrite Z.rem_mul_r by lia. lia.
Qed.
Lemma length_le_encode n z : length (le_encode n z) = n.
Proof. revert z. induction n as [|n IH]; intros z; cbn; [done|by rewrite IH]. Qed.

(** ** Canonical output *)

(** A limb cut into the bytes of its middle: [s] low bits, two bytes, the rest. *)
Lemma limb_split s h :
  0 <= s ->
  h = h mod 2 ^ s + 2 ^ s * (Z.shiftr h s mod 256) + 2 ^ (s + 8) * (Z.shiftr h (s + 8) mod 256)
      + 2 ^ (s + 16) * Z.shiftr h (s + 16).
Proof.
  intros Hs. rewrite !Z.shiftr_div_pow2, !Z.pow_add_r by lia.
  rewrite <- !Z.div_div by lia.
  change (2 ^ 16) with (256 * 256). change (2 ^ 8) with 256.
  rewrite <- (Z.div_div (h / 2 ^ s) 256 256) by lia.
  pose proof (Z.div_mod h (2 ^ s) ltac:(lia)) as H1.
  set (h1 := h / 2 ^ s) in *. set (l0 := h mod 2 ^ s) in *.
  pose proof (Z.div_mod h1 256 ltac:(lia)) as H2. set (h2 := h1 / 256) in *.
  pose proof (Z.div_mod h2 256 ltac:(lia)) as H3. set (h3 := h2 / 256) in *.
  rewrite H1, H2, H3 at 1. ring.
Qed.

Lemma lor_high a m b : 0 <= m -> 0 <= a < 2 ^ m -> Z.lor a (b * 2 ^ m) = a + b * 2 ^ m.
Proof.
  intros Hm Ha. rewrite <- Z.add_lor_land.
  replace (Z.land a (b * 2 ^ m)) with 0; [lia|]. symmetry. apply Z.bits_inj'. intros n Hn.
  rewrite Z.land_spec, Z.bits_0, <- Z.shiftl_mul_pow2, Z.shiftl_spec by lia.
  destruct (decide (n < m)).
  - by rewrite (Z.testbit_neg_r b), andb_false_r by lia.
  - rewrite <- (Z.mod_small a (2 ^ m)), Z.mod_pow2_bits_high by lia. done.
Qed.

Lemma lor_mod_byte a b : Z.lor a b mod 256 = Z.lor (a mod 256) (b mod 256).
Proof. change 256 with (2 ^ 8). by rewrite <- !Z.land_ones, Z.land_lor_distr_l by lia. Qed.
Lemma i32_mod_byte a : i32 a mod 256 = a mod 256.
Proof. unfold i32, swrap. change (32 - 1) with 31. Z.div_mod_to_equations. lia. Qed.

Lemma byte_split h : Z.shiftr h 16 = Z.shiftr h 16 mod 256 + 256 * Z.shiftr h 24.
Proof.
  change 24 with (16 + 8). rewrite <- Z.shiftr_shiftr, (Z.shiftr_div_pow2 _ 8) by lia.
  change (2 ^ 8) with 256. pose proof (Z.div_mod (Z.shiftr h 16) 256 ltac:(lia)). lia.
Qed.

(** A byte shared by two limbs. *)
Lemma shared_byte a h m :
  0 <= m <= 8 -> 0 <= a < 2 ^ m ->
  b2z (z2b (Z.lor a (h <<' m))) = a + 2 ^ m * (h mod 2 ^ (8 - m)).
Proof.
  intros Hm Ha.
  assert (E8 : 2 ^ m * 2 ^ (8 - m) = 256)
    by (rewrite <- Z.pow_add_r by lia; by replace (m + (8 - m)) with 8 by lia).
  assert (Ha8 : a < 256) by (pose proof (Z.pow_pos_nonneg 2 (8 - m)); nia).
  rewrite b2z_z2b, lor_mod_byte, i32_mod_byte, (Z.mod_small a) by lia.
  rewrite <- E8 at 1. rewrite Z.shiftl_mul_pow2, (Z.mul_comm h), Zmult_mod_distr_l by lia.
  rewrite (Z.mul_comm (2 ^ m)). by rewrite lor_high by lia.
Qed.

(** The carries of [FeToBytes] leave digits. *)
Lemma carry32_spec k a b A B :
  k = 25 \/ k = 26 -> bnd A a -> bnd B b -> A <= 2 ^ 30 -> B <= 2 ^ 29 ->
  exists c, carry32 k a b = (a - c * 2 ^ k, b + c)
    /\ 0 <= a - c * 2 ^ k < 2 ^ k /\ bnd (A / 2 ^ k + 1) c.
Proof.
  intros Hk Ha Hb HA HB. unfold carry32, bnd in *. exists (Z.shiftr a k).
  rewrite Z.shiftr_div_pow2, shl_mul by lia.
  destruct Hk; subst k; Z.div_mod_to_equations; rewrite (i32_small (_ * _)) by lia;
    rewrite !i32_small by lia; (split; [done|lia]).
Qed.

(** One term of the chain that computes the quotient. *)
Lemma quot_step k h q A :
  k = 25 \/ k = 26 -> bnd A h -> bnd 32 q -> A <= 2 ^ 28 ->
  exists q', Z.shiftr (h +' q) k = q' /\ 0 <= h + q - q' * 2 ^ k < 2 ^ k /\ bnd 32 q'.
Proof.
  intros Hk Hh Hq HA. unfold bnd in *. eexists. split; [reflexivity|].
  rewrite i32_small, Z.shiftr_div_pow2 by lia.
  destruct Hk; subst k; Z.div_mod_to_equations; lia.
Qed.

(** The limbs of [FeToBytes] after its carries: digits, of the least residue. *)
Record digits (f : FieldElement) : Prop := {
  dg0 : 0 <= e0 f < 2 ^ 26; dg1 : 0 <= e1 f < 2 ^ 25; dg2 : 0 <= e2 f < 2 ^ 26;
  dg3 : 0 <= e3 f < 2 ^ 25; dg4 : 0 <= e4 f < 2 ^ 26; dg5 : 0 <= e5 f < 2 ^ 25;
  dg6 : 0 <= e6 f < 2 ^ 26; dg7 : 0 <= e7 f < 2 ^ 25; dg8 : 0 <= e8 f < 2 ^ 26;
  dg9 : 0 <= e9 f < 2 ^ 25
}.

(** Cutting digits into bytes keeps the value. *)
Lemma pack_spec f : digits f -> le_decode (toBytes_pack f) = eval f.
Proof.
  destruct f as [h0 h1 h2 h3 h4 h5 h6 h7 h8 h9].
  intros []; cbn [e0 e1 e2 e3 e4 e5 e6 e7 e8 e9] in *. cbv beta iota zeta delta [toBytes_pack].
  assert (Hs : forall k n x, 0 <= n -> 0 <= k -> 0 <= x < 2 ^ (k + n) -> 0 <= Z.shiftr x k < 2 ^ n).
  { intros k n x Hn Hk Hx. rewrite Z.shiftr_div_pow2 by lia. rewrite Z.pow_add_r in Hx by lia.
    split; [apply Z.div_pos; lia|apply Z.div_lt_upper_bound; lia]. }
  cbn [le_decode].
  rewrite !shared_byte by (try lia; apply Hs; try lia; cbn; lia).
  rewrite !b2z_z2b. unfold eval. cbn [e0 e1 e2 e3 e4 e5 e6 e7 e8 e9].
  pose proof (limb_split 0 h0 ltac:(lia)). pose proof (limb_split 6 h1 ltac:(lia)).
  pose proof (limb_split 5 h2 ltac:(lia)). pose proof (limb_split 3 h3 ltac:(lia)).
  pose proof (limb_split 2 h4 ltac:(lia)). pose proof (limb_split 0 h5 ltac:(lia)).
  pose proof (limb_split 7 h6 ltac:(lia)). pose proof (limb_split 5 h7 ltac:(lia)).
  pose proof (limb_split 4 h8 ltac:(lia)). pose proof (limb_split 2 h9 ltac:(lia)).
  assert (E4 : Z.shiftr h4 18 mod 256 = Z.shiftr h4 18) by (apply Z.mod_small, (Hs 18 8); lia).
  assert (E9 : Z.shiftr h9 18 mod 256 = Z.shiftr h9 18)
    by (apply Z.mod_small; specialize (Hs 18 7 h9); lia).
  rewrite E4, E9.
  repeat match goal with
  | |- context [8 - ?m] => let v := eval vm_compute in (8 - m) in change (8 - m) with v
  | H : context [?s + 8] |- _ => let v := eval vm_compute in (s + 8) in change (s + 8) with v in H
  | H : context [?s + 16] |- _ => let v := eval vm_compute in (s + 16) in change (s + 16) with v in H
  end.
  pose proof (byte_split h0). pose proof (byte_split h5). rewrite !Z.mod_1_r in *.
  clear Hs E4 E9. lia.
Qed.

Ltac step_quot k h q H1 H2 q' :=
  let E := fresh in
  destruct (quot_step k h q (2 ^ 27)) as (q' & E & H1 & H2);
    [auto|unfold bnd, loose in *; lia|assumption|lia|];
  rewrite E; clear E.
Ltac step_carry32 k a b A B c H1 H2 :=
  let E := fresh in
  destruct (carry32_spec k a b A B) as (c & E & H1 & H2);
    [auto|unfold bnd, loose in *; lia|unfold bnd, loose in *; lia|lia|lia|];
  rewrite E; clear E; unfold bnd in H2;
  match type of H2 with context [?x / ?y + 1] =>
    let v := eval vm_compute in (x / y + 1) in change (x / y + 1) with v in H2 end;
  cbv beta iota.

(** The quotient: [q] of the code is the floor of [h / p]. *)
Lemma quotient_spec H h9 q0 L :
  H = L + 2 ^ 230 * h9 -> - 2 ^ 232 <= L <= 2 ^ 232 -> bnd loose h9 ->
  0 <= 19 * h9 + 2 ^ 24 - q0 * 2 ^ 25 < 2 ^ 25 ->
  0 <= H + q0 - 2 ^ 255 * (H / p) < 2 ^ 255.
Proof.
  intros -> HL H9 Hq. pose proof p_pos as Hp.
  pose proof (Z.div_mod (L + 2 ^ 230 * h9) p ltac:(lia)) as Hd.
  pose proof (Z.mod_pos_bound (L + 2 ^ 230 * h9) p Hp) as Hm.
  set (r := (L + 2 ^ 230 * h9) mod p) in *. set (k := (L + 2 ^ 230 * h9) / p) in *.
  unfold bnd, loose, p in *. lia.
Qed.

Lemma toBytes_q_spec f : bounded loose f -> toBytes_q f = eval f / p.
Proof.
  destruct f as [h0 h1 h2 h3 h4 h5 h6 h7 h8 h9]. unfold bounded. cbn [e0 e1 e2 e3 e4 e5 e6 e7 e8 e9].
  intros (F0 & F1 & F2 & F3 & F4 & F5 & F6 & F7 & F8 & F9).
  set (f := Fe h0 h1 h2 h3 h4 h5 h6 h7 h8 h9).
  assert (Hf : eval f = h0 + 2^26 * h1 + 2^51 * h2 + 2^77 * h3 + 2^102 * h4 + 2^128 * h5
    + 2^153 * h6 + 2^179 * h7 + 2^204 * h8 + 2^230 * h9) by done.
  unfold f at 1. cbv beta iota zeta delta [toBytes_q].
  assert (Hq0 : exists q0, Z.shiftr (19 *' h9 +' Z.shiftl 1 24) 25 = q0
     /\ 0 <= 19 * h9 + 2 ^ 24 - q0 * 2 ^ 25 < 2 ^ 25 /\ bnd 32 q0).
  { eexists. split; [reflexivity|]. change (Z.shiftl 1 24) with (2 ^ 24).
    unfold bnd, loose in *. rewrite (i32_small (19 * h9)), i32_small, Z.shiftr_div_pow2 by lia.
    Z.div_mod_to_equations. lia. }
  destruct Hq0 as (q0 & -> & Hq0 & B0).
  pose proof (quotient_spec (eval f) h9 q0 (eval f - 2^230 * h9)) as Hk.
  specialize (Hk ltac:(lia) ltac:(rewrite Hf; unfold bnd, loose in *; lia) F9 Hq0).
  step_quot 26 h0 q0 R0 B1 q1. step_quot 25 h1 q1 R1 B2 q2. step_quot 26 h2 q2 R2 B3 q3.
  step_quot 25 h3 q3 R3 B4 q4. step_quot 26 h4 q4 R4 B5 q5. step_quot 25 h5 q5 R5 B6 q6.
  step_quot 26 h6 q6 R6 B7 q7. step_quot 25 h7 q7 R7 B8 q8. step_quot 26 h8 q8 R8 B9 q9.
  step_quot 25 h9 q9 R9 B10 q.
  rewrite Hf in *. lia.
Qed.

(** The carries leave the digits of [h + 19 q], but for multiples of [2^255]. *)
Lemma toBytes_carries_spec f q :
  bounded loose f -> bnd 32 q ->
  digits (toBytes_carries q f)
  /\ exists c, eval (toBytes_carries q f) + 2 ^ 255 * c = eval f + 19 * q.
Proof.
  destruct f as [h0 h1 h2 h3 h4 h5 h6 h7 h8 h9]. unfold bounded. cbn [e0 e1 e2 e3 e4 e5 e6 e7 e8 e9].
  intros (F0 & F1 & F2 & F3 & F4 & F5 & F6 & F7 & F8 & F9) Bq.
  cbv beta iota zeta delta [toBytes_carries].
  rewrite (i32_small (19 * q)), (i32_small (h0 + 19 * q)) by (unfold bnd, loose in *; lia).
  step_carry32 26 (h0 + 19 * q) h1 (2^28) (2^27) c0 D0 C0.
  step_carry32 25 (h1 + c0) h2 (2^28) (2^27) c1 D1 C1.
  step_carry32 26 (h2 + c1) h3 (2^28) (2^27) c2 D2 C2.
  step_carry32 25 (h3 + c2) h4 (2^28) (2^27) c3 D3 C3.
  step_carry32 26 (h4 + c3) h5 (2^28) (2^27) c4 D4 C4.
  step_carry32 25 (h5 + c4) h6 (2^28) (2^27) c5 D5 C5.
  step_carry32 26 (h6 + c5) h7 (2^28) (2^27) c6 D6 C6.
  step_carry32 25 (h7 + c6) h8 (2^28) (2^27) c7 D7 C7.
  step_carry32 26 (h8 + c7) h9 (2^28) (2^27) c8 D8 C8.
  assert (E9 : exists c9, h9 + c8 -' Z.shiftr (h9 + c8) 25 <<' 25 = h9 + c8 - 2 ^ 25 * c9
                          /\ 0 <= h9 + c8 - 2 ^ 25 * c9 < 2 ^ 25).
  { exists ((h9 + c8) / 2 ^ 25). unfold bnd, loose in *. rewrite shl_mul, Z.shiftr_div_pow2 by lia.
    Z.div_mod_to_equations. rewrite (i32_small (_ * _)), i32_small by lia. lia. }
  destruct E9 as (c9 & -> & D9). split.
  - split; cbn [e0 e1 e2 e3 e4 e5 e6 e7 e8 e9]; assumption.
  - exists c9. unfold eval. cbn [e0 e1 e2 e3 e4 e5 e6 e7 e8 e9]. ring.
Qed.

(** [FeToBytes] writes the least residue in little-endian form, whatever bounded
    element it is given, and leaves its argument reduced. *)
Lemma FeToBytes_spec f :
  bounded loose f ->
  (FeToBytes f).1 = le_encode 32 (eval f mod p)
  /\ digits (FeToBytes f).2 /\ eval (FeToBytes f).2 = eval f mod p.
Proof.
  intros Hf. unfold FeToBytes. cbv zeta. rewrite toBytes_q_spec by done. cbn [fst snd].
  pose proof (Z.div_mod (eval f) p ltac:(done)) as Hd.
  pose proof (Z.mod_pos_bound (eval f) p p_pos) as Hm.
  set (q := eval f / p) in *. set (r := eval f mod p) in *. clearbody r.
  assert (Hq : bnd 32 q).
  { unfold bounded, bnd, loose, eval, p in *. lia. }
  destruct (toBytes_carries_spec f q Hf Hq) as [Hg [c Hc]].
  set (g := toBytes_carries q f) in *. clearbody g.
  assert (Hv : eval g = r).
  { assert (0 <= eval g < 2 ^ 255) by (destruct Hg; unfold eval; lia).
    unfold p in *. lia. }
  split; [|by split]. rewrite <- Hv, <- (pack_spec g Hg). symmetry.
  apply le_encode_decode. by destruct g.
Qed.
Lemma lor_shift a b k n :
  0 <= k -> 0 <= a < 2 ^ k -> 0 <= b < 2 ^ n -> 0 <= n -> k + n < 63 ->
  Z.lor a (b <<! k) = a + b * 2 ^ k /\ 0 <= a + b * 2 ^ k < 2 ^ (k + n).
Proof.
  intros Hk Ha Hb Hn Hkn. rewrite shl_mul by done. rewrite Z.pow_add_r by done.
  assert (b * 2 ^ k <= (2 ^ n - 1) * 2 ^ k) by nia. assert (0 <= b * 2 ^ k) by nia.
  assert (2 ^ k * 2 ^ n <= 2 ^ 62) by (rewrite <- Z.pow_add_r by done; apply Z.pow_le_mono_r; lia).
  rewrite i64_small by nia. rewrite lor_high by done. split; [done|nia].
Qed.

Lemma load3_spec b i :
  load3 b i = bt b i + 2 ^ 8 * bt b (i + 1) + 2 ^ 16 * bt b (i + 2) /\ 0 <= load3 b i < 2 ^ 24.
Proof.
  unfold load3. assert (Hr : forall j, 0 <= bt b j < 2 ^ 8) by (intros; apply b2z_range).
  destruct (lor_shift (bt b i) (bt b (i + 1)) 8 8) as [-> H1]; [done..|].
  destruct (lor_shift (bt b i + bt b (i + 1) * 2 ^ 8) (bt b (i + 2)) 16 8) as [-> H2]; [done..|].
  split; [ring|exact H2].
Qed.
Lemma load4_spec b i :
  load4 b i = bt b i + 2 ^ 8 * bt b (i + 1) + 2 ^ 16 * bt b (i + 2) + 2 ^ 24 * bt b (i + 3)
  /\ 0 <= load4 b i < 2 ^ 32.
Proof.
  change (load4 b i) with (Z.lor (load3 b i) (bt b (i + 3) <<! 24)).
  destruct (load3_spec b i) as [E H]. assert (Hr : 0 <= bt b (i + 3) < 2 ^ 8) by apply b2z_range.
  destruct (lor_shift (load3 b i) (bt b (i + 3)) 24 8) as [-> H2]; [done..|].
  split; [rewrite E; ring|exact H2].
Qed.

Lemma le_decode_32 src :
  length src = 32%nat ->
  le_decode src = foldr (fun i acc => bt src i + 256 * acc) 0 (seq 0 32).
Proof. intros Hl. do 32 (destruct src as [|? src]; [done|]). by destruct src. Qed.

(** [FeFromBytes] reads a little-endian number, without its highest bit. *)
Lemma FeFromBytes_spec src :
  length src = 32%nat -> repr tight (FeFromBytes src) (le_decode src mod 2 ^ 255).
Proof.
  intros Hl. rewrite (le_decode_32 src Hl). cbn [foldr seq]. unfold FeFromBytes.
  destruct (load4_spec src 0) as [E0 R0], (load3_spec src 4) as [E1 R1],
    (load3_spec src 7) as [E2 R2], (load3_spec src 10) as [E3 R3], (load3_spec src 13) as [E4 R4],
    (load4_spec src 16) as [E5 R5], (load3_spec src 20) as [E6 R6], (load3_spec src 23) as [E7 R7],
    (load3_spec src 26) as [E8 R8], (load3_spec src 29) as [E9 R9].
  cbn [Nat.add] in *.
  change 8388607 with (Z.ones 23). rewrite Z.land_ones by done.
  pose proof (Z.mod_pos_bound (load3 src 29) (2 ^ 23) ltac:(done)) as R9'.
  pose proof (Z.div_mod (load3 src 29) (2 ^ 23) ltac:(done)) as Ed.
  set (m := load3 src 29 mod 2 ^ 23) in *.
  rewrite !shl_mul, !i64_small by (try lia).
  match goal with |- repr _ (FeCombine ?a0 ?a1 ?a2 ?a3 ?a4 ?a5 ?a6 ?a7 ?a8 ?a9) _ =>
    destruct (FeCombine_spec a0 a1 a2 a3 a4 a5 a6 a7 a8 a9) as [Hb [q Hq]];
      [unfold bnd; lia..|] end.
  split; [exact Hb|]. rewrite (eqm_quot _ _ _ Hq).
  match goal with |- ?a == _ => assert (Ha : 0 <= a < 2 ^ 255) by lia end.
  match goal with |- ?a == ?x mod _ => assert (Hx : x = a + 2 ^ 255 * (load3 src 29 / 2 ^ 23)) by lia end.
  rewrite Hx, (Z.mul_comm (2 ^ 255)), Z_mod_plus_full, Z.mod_small by done. done.
Qed.

(** ** The two predicates *)

Lemma le_encode_nth0 n z : bt (le_encode (S n) z) 0 = z mod 256.
Proof. unfold bt. cbn. apply b2z_z2b. Qed.

(** [FeIsNegative] is the parity of the least residue. *)
Lemma FeIsNegative_spec f : bounded loose f -> (FeIsNegative f).1 = (eval f mod p) mod 2.
Proof.
  intros Hf. destruct (FeToBytes_spec f Hf) as [Hs _]. unfold FeIsNegative.
  destruct (FeToBytes f) as [s h]. cbn [fst] in *. subst s.
  change 32%nat with (S 31). rewrite le_encode_nth0. change (Z.land ?x 1) with (Z.land x (Z.ones 1)).
  rewrite Z.land_ones by done. apply Z.mod_mod_divide. by exists 128.
Qed.

Lemma lor_byte a b : 0 <= a < 256 -> 0 <= b < 256 -> 0 <= Z.lor a b < 256.
Proof.
  intros Ha Hb. rewrite <- (Z.mod_small a 256), <- (Z.mod_small b 256), <- lor_mod_byte by done.
  by apply Z.mod_pos_bound.
Qed.

Lemma foldl_lor (l : bytes) acc :
  0 <= acc < 256 ->
  let x := foldl (fun x b => Z.lor x (b2z b)) acc l in
  0 <= x < 256 /\ (x = 0 <-> acc = 0 /\ le_decode l = 0).
Proof.
  revert acc. induction l as [|b l IH]; intros acc Ha; cbn [foldl le_decode]; [lia|].
  pose proof (b2z_range b) as Hb. pose proof (le_decode_range l) as Hl.
  destruct (IH (Z.lor acc (b2z b))) as [H1 H2]; [by apply lor_byte|].
  split; [done|]. rewrite H2, Z.lor_eq_0_iff. lia.
Qed.

(** The bits of a byte folded into the lowest. *)
Lemma fold_bits x :
  0 <= x < 256 ->
  let y := Z.lor x (Z.shiftr x 4) in
  let y := Z.lor y (Z.shiftr y 2) in
  let y := Z.lor y (Z.shiftr y 1) in
  Z.land y 1 = if x =? 0 then 0 else 1.
Proof.
  intros Hx.
  assert (Hall : forallb (fun k => let x := Z.of_nat k in
    let y := Z.lor x (Z.shiftr x 4) in
    let y := Z.lor y (Z.shiftr y 2) in
    let y := Z.lor y (Z.shiftr y 1) in
    Z.land y 1 =? if x =? 0 then 0 else 1) (seq 0 256) = true) by (vm_compute; reflexivity).
  rewrite forallb_forall in Hall. specialize (Hall (Z.to_nat x) ltac:(apply in_seq; lia)).
  cbv zeta in *. rewrite Z2Nat.id in Hall by lia. by apply Z.eqb_eq.
Qed.

(** [FeIsNonZero] tells whether an element is zero modulo [p]. *)
Lemma FeIsNonZero_spec f :
  bounded loose f -> (FeIsNonZero f).1 = if eval f mod p =? 0 then 0 else 1.
Proof.
  intros Hf. destruct (FeToBytes_spec f Hf) as [Hs _]. unfold FeIsNonZero.
  destruct (FeToBytes f) as [s h]. cbn [fst] in *. subst s.
  destruct (foldl_lor (le_encode 32 (eval f mod p)) 0 ltac:(done)) as [H1 H2].
  set (x := foldl _ _ _) in *. clearbody x. cbv zeta. cbn [fst]. rewrite (fold_bits x H1).
  rewrite le_decode_encode, (Z.mod_small (_ mod _)) in H2.
  - destruct (Z.eqb_spec x 0), (Z.eqb_spec (eval f mod p) 0); tauto.
  - pose proof (Z.mod_pos_bound (eval f) p p_pos) as Hr. set (r := eval f mod p) in *.
    unfold p in Hr. change (256 ^ Z.of_nat 32) with (2 ^ 256). lia.
Qed.

(** Reading what was written. *)
Lemma FeFromBytes_encode x :
  0 <= x < p -> repr tight (FeFromBytes (le_encode 32 x)) x.
Proof.
  intros Hx. pose proof (FeFromBytes_spec (le_encode 32 x) (length_le_encode _ _)) as H.
  rewrite le_decode_encode, (Z.mod_small x) in H by (unfold p in *; lia).
  by rewrite Z.mod_small in H by (unfold p in *; lia).
Qed.

(** ** The field operations, as the bytes they end in *)

Lemma to_bytes_repr b f x : repr b f x -> b <= loose -> (FeToBytes f).1 = le_encode 32 (x mod p).
Proof.
  intros [Hb He] Hl. destruct (FeToBytes_spec f (bounded_mono _ _ _ Hb Hl)) as [-> _].
  by apply eqm_iff in He as ->.
Qed.

(** C37: what the field operations compute on limbs of machine width. For operands
    whose limbs are bounded by 1.65*2^26 and 1.65*2^25 in turn - the precondition of
    [FeSquare2], and above the 1.1*2^26, 1.1*2^25 of [FeMul] and [FeSquare] - product,
    square, doubled square, inverse and [(p-5)/8]-th power, computed with int32 and
    int64 operations that wrap around, are elements with limbs bounded by 1.01*2^25
    and 1.01*2^24, and what [FeToBytes] writes for them is the canonical encoding of
    the exact value modulo [p]; so is it for sum and difference of operands that are
    bounded by half of that, and their limbs are bounded by the sum of the bounds. *)
Theorem field_operations f g :
  bounded loose f -> bounded loose g ->
  let x := eval f in let y := eval g in
  let computes h v := bounded tight h /\ (FeToBytes h).1 = le_encode 32 (v mod p) in
  computes (FeMul f g) (x * y)
  /\ computes (FeSquare f) (x ^ 2)
  /\ computes (FeSquare2 f) (2 * x ^ 2)
  /\ computes (FeInvert f) (x ^ (p - 2))
  /\ computes (fePow22523 f) (x ^ ((p - 5) / 8))
  /\ (forall b, bounded b f -> bounded b g -> 2 * b <= loose ->
       bounded (2 * b) (FeAdd f g) /\ (FeToBytes (FeAdd f g)).1 = le_encode 32 ((x + y) mod p)
       /\ bounded (2 * b) (FeSub f g) /\ (FeToBytes (FeSub f g)).1 = le_encode 32 ((x - y) mod p)).
Proof.
  intros Hf Hg x y computes.
  assert (Hc : forall h v, repr tight h v -> computes h v)
    by (intros h v Hr; split; [apply Hr|by eapply to_bytes_repr]).
  pose proof (repr_eval _ _ Hf) as Rf. pose proof (repr_eval _ _ Hg) as Rg.
  rewrite !Z.pow_2_r. split_and!; [apply Hc..|].
  1: by apply repr_mul. 1: by apply repr_square. 1: by apply repr_square2.
  1: by apply repr_invert. 1: by apply repr_pow22523.
  intros b Bf Bg Hb. replace (2 * b) with (b + b) in * by lia.
  assert (Hs : b + b < 2 ^ 30) by (unfold loose in Hb; lia).
  pose proof (repr_add b b f g x y (repr_eval _ _ Bf) (repr_eval _ _ Bg) Hs) as Ra.
  pose proof (repr_sub b b f g x y (repr_eval _ _ Bf) (repr_eval _ _ Bg) Hs) as Rs.
  split_and!; [apply Ra|by eapply to_bytes_repr|apply Rs|by eapply to_bytes_repr].
Qed.

(** Decoding then encoding returns the canonical form of the number, so
    exactly the canonical encodings below [p] survive the round trip. *)
Theorem bytes_roundtrip src :
  length src = 32%nat ->
  (FeToBytes (FeFromBytes src)).1 = le_encode 32 (le_decode src mod 2 ^ 255 mod p)
  /\ ((FeToBytes (FeFromBytes src)).1 = src <-> le_decode src < p).
Proof.
  intros Hl. pose proof (FeFromBytes_spec src Hl) as Hr.
  rewrite (to_bytes_repr tight _ _ Hr) by done. split; [done|].
  pose proof (le_decode_range src) as Hd.
  replace (zlen src) with 32 in Hd by (unfold zlen; lia). split.
  - intros E. apply (f_equal le_decode) in E. rewrite le_decode_encode in E.
    pose proof (Z.mod_pos_bound (le_decode src mod 2 ^ 255) p p_pos) as Hm.
    set (m := (_ mod _) mod p) in *. rewrite (Z.mod_small m) in E by (unfold p in Hm; lia). lia.
  - intros Hp. rewrite (Z.mod_small _ (2 ^ 255)), (Z.mod_small _ p) by (unfold p in *; lia).
    rewrite <- Hl. by apply le_encode_decode.
Qed.
End Field25519.

Section witnesses.
Import Field25519.
(** Limbs at the bounds that [FeMul] documents. *)
Definition w_f : FieldElement :=
  Fe (-73819750) 36909875 (-7) 6 (-5) 4 73819750 (-36909875) (-1) 16777216.
Lemma field_operations_witness :
  (FeToBytes (FeMul w_f FeOne)).1 = le_encode 32 ((eval w_f * eval FeOne) mod p)
  /\ (FeToBytes (FeInvert w_f)).1 = le_encode 32 (eval w_f ^ (p - 2) mod p).
Proof.
  destruct (field_operations w_f FeOne) as ((_ & H1) & _ & _ & (_ & H2) & _);
    [unfold bounded, bnd, loose; cbn; lia..|].
  split; [exact H1|exact H2].
Defined.
Lemma bytes_roundtrip_witness :
  (FeToBytes (FeFromBytes (replicate 32 Byte.x07))).1 = replicate 32 Byte.x07.
Proof.
  apply (bytes_roundtrip (replicate 32 Byte.x07)); [reflexivity|]. apply Z.ltb_lt. vm_compute. reflexivity.
Defined.
End witnesses.
