(* ===== verification/Prime25519.v ===== *)
(** * The field of [p = 2^255 - 19] elements

    What the curve code relies on and no test of it can show: [p] is prime, by
    Pocklington's criterion on a factorisation chain of [p - 1], so that
    [z^(p-2)] inverts, [z^((p-1)/2)] decides squareness, and an equation
    between products can be divided out. *)
From Stdlib Require Import Zmod Znumtheory.
From Bignums Require BigN.
From S2P Require Import Prelude Field25519.
Import Field25519.
#[local] Open Scope int_scope.

(** ** Pocklington's criterion *)

(** Trial division, up to the square root. *)
Definition no_divisor (n : Z) : bool :=
  forallb (fun d => negb (n mod Z.of_nat d =? 0)) (seq 2 (Z.to_nat (Z.sqrt n) - 1)).

Lemma prime_divisor n : 1 < n -> exists r, Z.prime r /\ (r | n).
Proof.
  intros Hn. assert (H0 : 0 <= n) by lia. revert n H0 Hn.
  refine (Z_lt_induction _ _). intros n IH Hn.
  destruct (prime_dec n) as [Hp|Hp].
  - exists n. split; [by apply prime_alt|apply Z.divide_refl].
  - destruct (not_prime_divide n Hn Hp) as (d & Hd & Hdn).
    destruct (IH d) as (r & Hr & Hrd); [lia..|]. exists r. split; [done|by etransitivity].
Qed.

(** A number without a prime divisor up to its square root is prime. *)
Lemma prime_by_divisors n :
  1 < n -> (forall r, Z.prime r -> (r | n) -> n < r * r) -> Z.prime n.
Proof.
  intros Hn H. split; [done|]. intros d Hd [e He].
  assert (1 < e) by nia. assert (e < n) by nia.
  destruct (prime_divisor d ltac:(lia)) as (r & Hr & Hrd).
  destruct (prime_divisor e ltac:(lia)) as (s & Hs & Hse).
  pose proof (H r Hr ltac:(by etransitivity; [exact Hrd|exists e])) as Hr1.
  pose proof (H s Hs ltac:(etransitivity; [exact Hse|exists d; lia])) as Hs1.
  pose proof (Z.prime_ge_2 _ Hr). pose proof (Z.prime_ge_2 _ Hs).
  apply Z.divide_pos_le in Hrd, Hse; [|lia..]. assert (r * s <= d * e) by (apply Z.mul_le_mono_nonneg; lia). nia.
Qed.

Lemma prime_trial n : 1 < n -> no_divisor n = true -> Z.prime n.
Proof.
  intros Hn Ht. apply prime_by_divisors; [done|]. intros r Hr Hrn.
  pose proof (Z.prime_ge_2 _ Hr). destruct (Z.lt_ge_cases n (r * r)) as [|Hsq]; [done|].
  unfold no_divisor in Ht. rewrite forallb_forall in Ht.
  assert (r <= Z.sqrt n) by (rewrite <- (Z.sqrt_square r) by lia; by apply Z.sqrt_le_mono).
  specialize (Ht (Z.to_nat r) ltac:(apply in_seq; lia)).
  rewrite Z2Nat.id in Ht by lia. apply Z.mod0_divide in Hrn. by rewrite Hrn in Ht.
Qed.

Lemma mod_divide_cong r n a b : (r | n) -> 0 < r -> 0 < n -> a mod n = b mod n -> a mod r = b mod r.
Proof.
  intros Hr Hr0 Hn E. rewrite <- (Z.mod_mod_divide a n r), E by done. by apply Z.mod_mod_divide.
Qed.

(** [b^q = 1] and [b^(r-1) = 1] force [b = 1] when [q] does not divide [r - 1]. *)
Lemma order_divides r q b :
  Z.prime r -> Z.prime q -> b ^ q mod r = 1 -> (b - 1) mod r <> 0 -> (q | r - 1).
Proof.
  intros Hr Hq Hb Hb1. pose proof (Z.prime_ge_2 _ Hr). pose proof (Z.prime_ge_2 _ Hq).
  destruct (Z.BoolSpec_divide q (r - 1)) as [|Hnd]; [done|]. exfalso. apply Hb1.
  assert (Hbr : b mod r <> 0).
  { intros E. rewrite <- Z.mod_pow_l, E, Z.pow_0_l, Z.mod_0_l in Hb; lia. }
  pose proof (Z.fermat_nz r b Hr Hbr) as Hf.
  destruct (Z.Bezout_coprime q (r - 1) (Z.coprime_prime_l q (r - 1) Hq Hnd)) as (u & v & Huv).
  set (u0 := u mod (r - 1) + (r - 1)).
  assert (Hu : exists k, u0 * q = 1 + (r - 1) * k).
  { exists (q - v - (u / (r - 1)) * q). unfold u0. rewrite Z.mod_eq by lia. lia. }
  destruct Hu as [k Hk]. assert (1 <= u0) by (unfold u0; pose proof (Z.mod_pos_bound u (r - 1)); lia).
  assert (Hk0 : 0 <= k) by nia.
  assert (E : b ^ (q * u0) mod r = b ^ (1 + (r - 1) * k) mod r) by (f_equal; f_equal; lia).
  rewrite Z.pow_mul_r, <- Z.mod_pow_l, Hb, Z.pow_1_l in E by lia.
  rewrite Z.pow_add_r, Z.pow_1_r, Z.pow_mul_r in E by nia.
  rewrite <- Zmult_mod_idemp_r, <- (Z.mod_pow_l (b ^ (r - 1))), Hf, Z.pow_1_l in E by lia.
  rewrite Zmult_mod_idemp_r, Z.mul_1_r in E. rewrite Zminus_mod, <- E, <- Zminus_mod. done.
Qed.

(** Distinct primes that divide [m] divide it together. *)
Lemma primes_divide ls m :
  NoDup ls -> Forall Z.prime ls -> Forall (fun q => (q | m)) ls -> (foldr Z.mul 1 ls | m).
Proof.
  intros Hnd Hp Hm. revert m Hm. induction ls as [|q ls IH]; intros m Hm; [apply Z.divide_1_l|].
  apply NoDup_cons in Hnd as [Hq Hnd]. apply Forall_cons in Hp as [Hqp Hp].
  apply Forall_cons in Hm as [[c ->] Hm]. cbn [foldr]. rewrite (Z.mul_comm c).
  apply Z.mul_divide_mono_l. apply IH; [done..|].
  rewrite Forall_forall in *. intros s Hs. specialize (Hm s Hs).
  apply Z.divide_prime_mul in Hm as [Hm|Hm]; [done| |by apply Hp].
  apply Z.divide_prime_prime in Hm as ->; [done|by apply Hp|done].
Qed.

(** [a^e mod n] on machine words. *)
Fixpoint pow_big (a n : BigN.BigN.t) (e : positive) : BigN.BigN.t :=
  match e with
  | xH => BigN.BigN.modulo a n
  | xO e => let r := pow_big a n e in BigN.BigN.modulo (BigN.BigN.mul r r) n
  | xI e =>
      let r := pow_big a n e in
      BigN.BigN.modulo (BigN.BigN.mul (BigN.BigN.modulo (BigN.BigN.mul r r) n) a) n
  end.
Definition powm (a e n : Z) : Z :=
  BigN.BigN.to_Z (pow_big (BigN.BigN.of_pos (Z.to_pos a)) (BigN.BigN.of_pos (Z.to_pos n)) (Z.to_pos e)).

Lemma pow_big_spec a n e :
  BigN.BigN.to_Z (pow_big a n e) = BigN.BigN.to_Z a ^ Zpos e mod BigN.BigN.to_Z n.
Proof.
  induction e as [e IH|e IH|]; cbn [pow_big];
    rewrite ?BigN.BigN.spec_modulo, ?BigN.BigN.spec_mul, ?BigN.BigN.spec_modulo,
      ?BigN.BigN.spec_mul, ?IH.
  - rewrite Pos2Z.inj_xI, Z.pow_add_r, Z.pow_1_r, <- Zmult_mod, Zmult_mod_idemp_l by done.
    by rewrite <- Z.add_diag, Z.pow_add_r by done.
  - by rewrite Pos2Z.inj_xO, <- Z.add_diag, Z.pow_add_r, <- Zmult_mod by done.
  - by rewrite Z.pow_1_r.
Qed.
Lemma powm_spec a e n : 0 < a -> 0 < e -> 0 < n -> powm a e n = a ^ e mod n.
Proof.
  intros Ha He Hn. unfold powm.
  by rewrite pow_big_spec, !BigN.BigN.spec_of_pos, !Z2Pos.id by done.
Qed.

(** One step of a certificate: the prime factors [ls] of [n - 1] and the base [a]. *)
Definition certifies (n a : Z) (ls : list Z) : bool :=
  (1 <? n) && (0 <? a)
  && forallb (fun q => let b := powm a ((n - 1) / q) n in
                       ((n - 1) mod q =? 0) && (0 <? b) && (powm b q n =? 1)
                       && (Z.gcd (b - 1) n =? 1)) ls
  && (n <? foldr Z.mul 1 ls * foldr Z.mul 1 ls).

Lemma pocklington n a ls :
  certifies n a ls = true -> NoDup ls -> Forall Z.prime ls -> Z.prime n.
Proof.
  unfold certifies. rewrite !andb_true_iff, forallb_forall, !Z.ltb_lt.
  intros (((Hn & Ha) & Hls) & Hsq) Hnd Hp.
  apply prime_by_divisors; [done|]. intros r Hr Hrn. pose proof (Z.prime_ge_2 _ Hr) as Hr2.
  assert (Hdiv : (foldr Z.mul 1 ls | r - 1)).
  { apply primes_divide; [done..|]. rewrite Forall_forall in *. intros q Hq.
    specialize (Hls q ltac:(by apply list_elem_of_In)). cbv zeta in Hls.
    set (b := powm a _ n) in *. clearbody b.
    rewrite !andb_true_iff, !Z.eqb_eq, Z.ltb_lt in Hls. destruct Hls as (((Hd & Hb0) & Hb) & Hg). pose proof (Z.prime_ge_2 _ (Hp q Hq)).
    rewrite powm_spec in Hb by lia.
    apply (order_divides r q b); [done|by apply Hp| |].
    - transitivity (1 mod r); [|apply Z.mod_small; lia].
      apply (mod_divide_cong r n); [done|lia..|]. by rewrite Hb, Z.mod_small by lia.
    - intros E. apply Z.mod_divide in E; [|lia].
      pose proof (Z.gcd_greatest _ _ _ E Hrn) as Hr1.
      rewrite Hg in Hr1. apply Z.divide_1_r_nonneg in Hr1; lia. }
  apply Z.divide_pos_le in Hdiv; [|lia]. assert (0 <= foldr Z.mul 1 ls); [|nia].
  clear -Hp. induction Hp as [|q l Hq Hp IH]; cbn; [lia|]. pose proof (Z.prime_ge_2 _ Hq). nia.
Qed.

Ltac certify ls :=
  apply (pocklington _ 2 ls); [vm_compute; reflexivity|by apply (bool_decide_unpack _)|
    repeat (apply Forall_cons; split); [..|by apply Forall_nil]].
Ltac trial := apply prime_trial; [done|vm_compute; reflexivity].

Lemma q1_prime : Z.prime 1919519569386763.
Proof. certify [127; 8574133]; trial. Qed.
Lemma q2_prime : Z.prime 75445702479781427272750846543864801.
Proof. certify [75707; 1919519569386763]; [trial|exact q1_prime]. Qed.
Lemma q3_prime :
  Z.prime 74058212732561358302231226437062788676166966415465897661863160754340907.
Proof. certify [1923133; 75445702479781427272750846543864801]; [trial|exact q2_prime]. Qed.
Theorem p_prime : Z.prime p.
Proof.
  certify [74058212732561358302231226437062788676166966415465897661863160754340907].
  exact q3_prime.
Qed.

(** ** Equations modulo [p] *)

#[export] Instance eqm_dec a b : Decision (a == b).
Proof. refine (cast_if (decide (a mod p = b mod p))); by rewrite eqm_iff. Defined.

Definition nz (a : Z) : Prop := ~ a == 0.
#[export] Instance nz_proper : Proper (eqm ==> iff) nz.
Proof. intros a b E. unfold nz. by rewrite E. Qed.

Lemma eqm_0_iff a : a == 0 <-> a mod p = 0.
Proof. by rewrite eqm_iff. Qed.

(** Linear combinations of equations. *)
Lemma eqm_lc1 c a b x y : a == b -> x - y = c * (a - b) -> x == y.
Proof. intros [k E] H. exists (c * k). rewrite H, E. ring. Qed.
Lemma eqm_lc2 c d a b a' b' x y :
  a == b -> a' == b' -> x - y = c * (a - b) + d * (a' - b') -> x == y.
Proof. intros [k E] [l F] H. exists (c * k + d * l). rewrite H, E, F. ring. Qed.
Lemma eqm_of_eq a b : a = b -> a == b.
Proof. by intros ->. Qed.

Lemma eqm_mul_0 a b : a * b == 0 -> a == 0 \/ b == 0.
Proof.
  unfold eqm. rewrite !Z.sub_0_r. intros H. by apply Z.divide_prime_mul in H; [|exact p_prime].
Qed.
Lemma nz_mul a b : nz a -> nz b -> nz (a * b).
Proof. intros Ha Hb H. by destruct (eqm_mul_0 a b H). Qed.
Lemma nz_mul_l a b : nz (a * b) -> nz a.
Proof. intros H E. apply H. by rewrite E. Qed.
Lemma nz_mul_r a b : nz (a * b) -> nz b.
Proof. rewrite Z.mul_comm. apply nz_mul_l. Qed.
Lemma eqm_cancel c a b : nz c -> c * a == c * b -> a == b.
Proof.
  intros Hc H. destruct (eqm_mul_0 c (a - b)) as [?|E]; [|done|].
  - apply (eqm_lc1 1 _ _ _ _ H). ring.
  - apply (eqm_lc1 1 _ _ _ _ E). ring.
Qed.
Lemma eqm_square_0 a : a * a == 0 -> a == 0.
Proof. intros H. by destruct (eqm_mul_0 _ _ H). Qed.
Lemma eqm_squares a b : a * a == b * b -> a == b \/ a == - b.
Proof.
  intros H. destruct (eqm_mul_0 (a - b) (a + b)) as [E|E].
  - apply (eqm_lc1 1 _ _ _ _ H). ring.
  - left. apply (eqm_lc1 1 _ _ _ _ E). ring.
  - right. apply (eqm_lc1 1 _ _ _ _ E). ring.
Qed.

Lemma nz_1 : nz 1.
Proof. intros H%eqm_iff. by vm_compute in H. Qed.
Lemma nz_2 : nz 2.
Proof. intros H%eqm_iff. by vm_compute in H. Qed.
Lemma one_neq_minus_one : ~ 1 == -1.
Proof. intros H%eqm_iff. by vm_compute in H. Qed.

(** ** Inverses and squares *)

Lemma fermat a : nz a -> a ^ (p - 1) == 1.
Proof.
  intros Ha. apply eqm_iff. rewrite (Z.fermat_nz p a p_prime); [done|].
  by rewrite <- eqm_0_iff.
Qed.

Definition inv (a : Z) : Z := a ^ (p - 2).
#[export] Instance inv_proper : Proper (eqm ==> eqm) inv.
Proof. intros a b E. unfold inv. by rewrite E. Qed.
Lemma inv_spec a : nz a -> a * inv a == 1.
Proof.
  intros Ha. unfold inv. rewrite <- (fermat a Ha). apply eqm_of_eq.
  rewrite <- Z.pow_succ_r by done. by f_equal.
Qed.
Lemma inv_0 : inv 0 == 0.
Proof. apply eqm_of_eq. by apply Z.pow_0_l. Qed.
Lemma inv_unique a b : nz a -> a * b == 1 -> inv a == b.
Proof.
  intros Ha H. apply (eqm_cancel a); [done|]. by rewrite H, inv_spec.
Qed.

Lemma inv_mul a b : inv (a * b) = inv a * inv b.
Proof. apply Z.pow_mul_l. Qed.

(** [FeInvert] inverts. *)
Lemma repr_inv f z : repr loose f z -> repr tight (FeInvert f) (inv z).
Proof. apply repr_invert. Qed.

(** The quadratic character: [chi] of [extra25519], as a power. *)
Definition chi_spec (a : Z) : Z := a ^ ((p - 1) / 2).
#[export] Instance chi_proper : Proper (eqm ==> eqm) chi_spec.
Proof. intros a b E. unfold chi_spec. by rewrite E. Qed.
Lemma chi_mul a b : chi_spec (a * b) = chi_spec a * chi_spec b.
Proof. apply Z.pow_mul_l. Qed.
Lemma chi_square a : nz a -> chi_spec (a * a) == 1.
Proof.
  intros Ha. rewrite chi_mul, <- (fermat a Ha). unfold chi_spec. apply eqm_of_eq.
  assert (He : 0 <= (p - 1) / 2) by (by apply Z.leb_le).
  change (p - 1) with ((p - 1) / 2 + (p - 1) / 2) at 3.
  generalize dependent ((p - 1) / 2). intros e He. by rewrite Z.pow_add_r.
Qed.
Lemma chi_0 a : a == 0 -> chi_spec a == 0.
Proof. intros ->. apply eqm_of_eq. by apply Z.pow_0_l. Qed.
Lemma chi_cases a : nz a -> chi_spec a == 1 \/ chi_spec a == -1.
Proof.
  intros Ha. apply eqm_squares. rewrite Z.mul_1_l, <- chi_mul. by apply chi_square.
Qed.
Lemma chi_nz a : chi_spec a == 1 \/ chi_spec a == -1 -> nz a.
Proof.
  intros H E. apply chi_0 in E. rewrite E in H.
  destruct H as [H|H]; apply eqm_iff in H; by vm_compute in H.
Qed.

(** A non-square times a square is no square. *)
Lemma nonsquare c a b : chi_spec c == -1 -> a * a == c * (b * b) -> a == 0 /\ b == 0.
Proof.
  intros Hc H. destruct (decide (b == 0)) as [Hb|Hb].
  - split; [|done]. apply eqm_square_0. rewrite H, Hb. by rewrite !Z.mul_0_r.
  - exfalso. assert (Ha : nz a).
    { intros E. rewrite E in H. apply symmetry, eqm_mul_0 in H as [H|H].
      - by apply (chi_nz c (or_intror Hc)).
      - by apply Hb, eqm_square_0. }
    apply one_neq_minus_one. rewrite <- (chi_square a Ha), H, chi_mul, Hc, (chi_square b Hb). done.
Qed.

(** Characters of constants are evaluated. *)
Lemma chi_eval a c : 0 < a -> powm a ((p - 1) / 2) p = c mod p -> chi_spec a == c.
Proof. intros Ha H. rewrite powm_spec in H by done. by apply eqm_iff. Qed.
Lemma chi_minus_1 : chi_spec (-1) == 1.
Proof. rewrite <- (eqm_mod (-1)). apply chi_eval; [done|by vm_compute]. Qed.
Lemma chi_2 : chi_spec 2 == -1.
Proof. apply chi_eval; [done|by vm_compute]. Qed.

(** Powers this large are only ever evaluated through [powm]. *)
#[global] Opaque inv chi_spec.
#[global] Typeclasses Opaque inv chi_spec p eqm.
