(* ===== verification/EdwardsCurve.v ===== *)
(** * The group that [internal/edwards25519] computes in

    Affine points of [-x^2 + y^2 = 1 + d x^2 y^2] modulo [p], with the addition
    law the extended coordinates implement.  It is the abstract specification
    of the group operations of [edwards25519.go]: a group, whose scalar multiples
    [GeScalarMultBase] computes. *)
From S2P Require Import Prelude Field25519 Prime25519 Const25519.
Import Field25519.
#[local] Open Scope int_scope.

(** ** Points *)

Definition dd : Z := eval Const25519.d.
#[global] Arguments dd : simpl never.
Definition point : Type := Z * Z.

Definition on_curve (P : point) : Prop :=
  let '(x, y) := P in y * y - x * x == 1 + dd * (x * x) * (y * y).
Definition peq (P Q : point) : Prop := fst P == fst Q /\ snd P == snd Q.
Infix "≃" := peq (at level 70, no associativity) : int_scope.

#[export] Instance peq_equiv : Equivalence peq.
Proof.
  split.
  - by intros P.
  - by intros P Q [E F].
  - intros P Q R [E1 F1] [E2 F2]. split; by etransitivity.
Qed.
#[export] Instance pair_peq : Proper (eqm ==> eqm ==> peq) (@pair Z Z).
Proof. intros x x' E y y' F. split; assumption. Qed.
#[export] Instance on_curve_proper : Proper (peq ==> iff) on_curve.
Proof. intros [x y] [x' y'] [E F]. cbn [fst snd] in *. unfold on_curve. by rewrite E, F. Qed.

Definition O : point := (0, 1).
Definition neg (P : point) : point := (- fst P, snd P).
(** [x = (x1 y2 + y1 x2) / (1 + d x1 x2 y1 y2)],
    [y = (y1 y2 + x1 x2) / (1 - d x1 x2 y1 y2)]. *)
Definition add (P Q : point) : point :=
  let '(x1, y1) := P in
  let '(x2, y2) := Q in
  let k := dd * x1 * x2 * y1 * y2 in
  ((x1 * y2 + y1 * x2) * inv (1 + k), (y1 * y2 + x1 * x2) * inv (1 - k)).

#[export] Instance neg_proper : Proper (peq ==> peq) neg.
Proof. intros [x y] [x' y'] [E F]. split; cbn [fst snd neg] in *; [by rewrite E|done]. Qed.
#[export] Instance add_proper : Proper (peq ==> peq ==> peq) add.
Proof.
  intros [x y] [x' y'] [E F] [u v] [u' v'] [G H]. cbn [fst snd] in *.
  unfold add. split; cbn [fst snd]; by rewrite E, F, G, H.
Qed.

(** ** The addition law is complete *)

Lemma dd_nonsquare : chi_spec dd == -1.
Proof. rewrite <- (eqm_mod dd). apply chi_eval; [done|by vm_compute]. Qed.
Definition ii : Z := eval Const25519.SqrtM1.
Lemma ii_square : ii * ii == -1.
Proof. apply eqm_iff. by vm_compute. Qed.
Lemma nz_dd : nz dd.
Proof. apply chi_nz. right. exact dd_nonsquare. Qed.

(** If [1 - e k = 0] for [e = 1] or [e = -1] then [(i x1 + e y1)^2] would be [d]
    times a square. *)
Lemma complete_step j e x1 y1 x2 y2 :
  j * j == -1 -> on_curve (x1, y1) -> on_curve (x2, y2) ->
  dd * x1 * x2 * y1 * y2 == e -> e * e == 1 -> x1 * y1 * (j * x2 + y2) == 0.
Proof.
  intros Hj H1 H2 Hk He. unfold on_curve in *.
  apply (nonsquare dd (j * x1 + e * y1) _ dd_nonsquare).
  assert (E1 : (j * x1 + e * y1) * (j * x1 + e * y1)
    == 1 + dd * (x1 * x1) * (y1 * y1) + 2 * j * e * x1 * y1).
  { rewrite <- H1. apply (eqm_lc2 (x1 * x1) (y1 * y1) _ _ _ _ _ _ Hj He). ring. }
  assert (E2 : dd * (x1 * y1 * (j * x2 + y2) * (x1 * y1 * (j * x2 + y2)))
    == dd * (x1 * x1) * (y1 * y1) + e * e + 2 * j * e * x1 * y1).
  { rewrite <- Hk.
    apply (eqm_lc2 (dd * (x1 * x1) * (y1 * y1) * (x2 * x2)) (dd * (x1 * x1) * (y1 * y1))
             _ _ _ _ _ _ Hj H2). ring. }
  rewrite E1, E2, He. apply eqm_of_eq. ring.
Qed.

Lemma complete_neq e x1 y1 x2 y2 :
  on_curve (x1, y1) -> on_curve (x2, y2) -> e * e == 1 -> ~ dd * x1 * x2 * y1 * y2 == e.
Proof.
  intros H1 H2 He Hk.
  pose proof (complete_step ii e _ _ _ _ ii_square H1 H2 Hk He) as E1.
  assert (Hi : - ii * - ii == -1) by (rewrite <- ii_square; apply eqm_of_eq; ring).
  pose proof (complete_step (- ii) e _ _ _ _ Hi H1 H2 Hk He) as E2.
  assert (E : 2 * e == 0).
  { rewrite <- Hk. apply (eqm_lc2 (dd * x2) (dd * x2) _ _ _ _ _ _ E1 E2). ring. }
  apply eqm_mul_0 in E as [E|E]; [by apply nz_2|].
  apply nz_1. rewrite <- He, E. done.
Qed.

Lemma complete P Q :
  on_curve P -> on_curve Q ->
  let k := dd * fst P * fst Q * snd P * snd Q in nz (1 + k) /\ nz (1 - k).
Proof.
  destruct P as [x1 y1], Q as [x2 y2]. intros H1 H2 k. cbn [fst snd] in *. split; intros E.
  - apply (complete_neq (-1) x1 y1 x2 y2); [done..|]. fold k.
    apply (eqm_lc1 1 _ _ _ _ E). ring.
  - apply (complete_neq 1 x1 y1 x2 y2); [done..|]. fold k.
    apply (eqm_lc1 (-1) _ _ _ _ E). ring.
Qed.

(** What a sum satisfies. *)
Lemma add_spec P Q :
  on_curve P -> on_curve Q ->
  let k := dd * fst P * fst Q * snd P * snd Q in
  fst (add P Q) * (1 + k) == fst P * snd Q + snd P * fst Q
  /\ snd (add P Q) * (1 - k) == snd P * snd Q + fst P * fst Q
  /\ nz (1 + k) /\ nz (1 - k).
Proof.
  intros H1 H2 k. destruct (complete P Q H1 H2) as [Hp Hm]. fold k in Hp, Hm.
  destruct P as [x1 y1], Q as [x2 y2]. cbn [fst snd] in *. unfold add. fold k. cbn [fst snd].
  split; [|split; [|done]].
  - apply (eqm_lc1 (x1 * y2 + y1 * x2) _ _ _ _ (inv_spec _ Hp)). ring.
  - apply (eqm_lc1 (y1 * y2 + x1 * x2) _ _ _ _ (inv_spec _ Hm)). ring.
Qed.

(** Fractions that agree when multiplied out. *)
Lemma cross a b n c e m : a * b == n -> c * e == m -> nz b -> nz e -> n * e == m * b -> a == c.
Proof.
  intros Ha Hc Hb He H. apply (eqm_cancel (b * e)); [by apply nz_mul|].
  transitivity (n * e); [apply (eqm_lc1 e _ _ _ _ Ha); ring|].
  rewrite H. symmetry. apply (eqm_lc1 b _ _ _ _ Hc). ring.
Qed.

(** ** The group laws *)

Lemma O_on_curve : on_curve O.
Proof. apply eqm_of_eq. ring. Qed.
Lemma neg_on_curve P : on_curve P -> on_curve (neg P).
Proof.
  destruct P as [x y]. intros H. unfold neg, on_curve in *. cbn [fst snd].
  apply (eqm_lc1 1 _ _ _ _ H). ring.
Qed.

Lemma add_comm P Q : add P Q = add Q P.
Proof. destruct P, Q. unfold add. f_equal; f_equal; [ring|f_equal; ring|ring|f_equal; ring]. Qed.
Lemma inv_1 : inv 1 == 1.
Proof. apply inv_unique; [exact nz_1|reflexivity]. Qed.
Lemma add_O_r P : add P O ≃ P.
Proof.
  destruct P as [x y]. unfold add, O.
  replace (dd * x * 0 * y * 1) with 0 by ring. change (1 + 0) with 1. change (1 - 0) with 1.
  split; cbn [fst snd]; rewrite inv_1; apply eqm_of_eq; ring.
Qed.
Lemma add_O_l P : add O P ≃ P.
Proof. rewrite add_comm. apply add_O_r. Qed.

(** The sum is on the curve: [(H^2 - E^2) (Z^2 + k^2)] expands to the curve
    equation of [E / (1 + k)], [H / (1 - k)]. *)
Lemma add_on_curve P Q : on_curve P -> on_curve Q -> on_curve (add P Q).
Proof.
  intros H1 H2. destruct (add_spec P Q H1 H2) as (Ex & Ey & Hp & Hm).
  destruct P as [x1 y1], Q as [x2 y2]. cbn [fst snd] in *.
  set (k := dd * x1 * x2 * y1 * y2) in *.
  destruct (add (x1, y1) (x2, y2)) as [X Y]. cbn [fst snd] in *. unfold on_curve in *.
  apply (eqm_cancel ((1 + k) * (1 - k) * ((1 + k) * (1 - k)))); [by repeat apply nz_mul|].
  transitivity ((Y * (1 - k)) * (Y * (1 - k)) * ((1 + k) * (1 + k))
    - (X * (1 + k)) * (X * (1 + k)) * ((1 - k) * (1 - k))); [apply eqm_of_eq; ring|].
  transitivity ((1 + k) * (1 - k) * ((1 + k) * (1 - k))
    + dd * ((X * (1 + k)) * (X * (1 + k))) * ((Y * (1 - k)) * (Y * (1 - k))));
    [|apply eqm_of_eq; ring].
  rewrite Ex, Ey. unfold k.
  set (S1 := y1 * y1 - x1 * x1) in *. set (S2 := y2 * y2 - x2 * x2) in *.
  set (T1 := 1 + dd * (x1 * x1) * (y1 * y1)) in *. set (T2 := 1 + dd * (x2 * x2) * (y2 * y2)) in *.
  apply (eqm_lc2 (S2 * (1 + dd * dd * (x1*x1) * (x2*x2) * (y1*y1) * (y2*y2))
                  - dd * (x2*x2) * (y2*y2) * (S1 + T1))
                 (T1 * (1 + dd * dd * (x1*x1) * (x2*x2) * (y1*y1) * (y2*y2))
                  - dd * (x1*x1) * (y1*y1) * (S2 + T2)) _ _ _ _ _ _ H1 H2).
  unfold S1, S2, T1, T2. ring.
Qed.

(** Associativity: cleared of denominators, the two sums differ by a combination
    of the three curve equations. *)
Section associativity.
Context (d x1 y1 x2 y2 x3 y3 : Z).
Let e1 := y1 * y1 - x1 * x1 - (1 + d * (x1 * x1) * (y1 * y1)).
Let e2 := y2 * y2 - x2 * x2 - (1 + d * (x2 * x2) * (y2 * y2)).
Let e3 := y3 * y3 - x3 * x3 - (1 + d * (x3 * x3) * (y3 * y3)).
Let Nx := x1 * y2 + y1 * x2.
Let Ny := y1 * y2 + x1 * x2.
Let k := d * x1 * x2 * y1 * y2.
Let Mx := x2 * y3 + y2 * x3.
Let My := y2 * y3 + x2 * x3.
Let l := d * x2 * x3 * y2 * y3.

Let cof1 u v := d * x2 * y2 *
  (u*y2*y2*y2*x3*y3*y3 - u*x2*y2*y2*y3 + u*x2*y2*y2*y3*y3*y3 - u*x2*x2*y2*x3
   - u*x2*x2*y2*x3*x3*x3 - u*x2*x2*x2*x3*x3*y3 - v*y2*y2*y2*x3*x3*y3 - v*x2*y2*y2*x3
   - v*x2*y2*y2*x3*x3*x3 - v*x2*x2*y2*y3 + v*x2*x2*y2*y3*y3*y3 + v*x2*x2*x2*x3*y3*y3
   - d*u*x2*x2*y2*y2*y2*x3*y3*y3 - d*u*x2*x2*x2*y2*y2*x3*x3*y3
   + d*v*x2*x2*y2*y2*y2*x3*x3*y3 + d*v*x2*x2*x2*y2*y2*x3*y3*y3).
Let S1 := y1 * y1 - x1 * x1.
Let cof2 s u v :=
  (1 - S1) * ((1 - (y3 * y3 - x3 * x3) + d * x3*x3*y3*y3) * (u * My + v * Mx)
              + d * x2*y2*x3*y3 * (u*y2*y3 + u*x2*x3 - v*y2*x3 - v*x2*y3))
  + s * (d * d * x1*y1*x2*y2*x3*x3*y3*y3 * (u*y2*y3 - u*x2*x3 - v*y2*x3 + v*x2*y3)).
Let cof3 s u v :=
  (1 - S1) * (y2 * y2 - x2 * x2 - 1) * (u * My + v * Mx)
  + s * (d * x1*y1*x2*y2 * (- (u*y2*y3) + u*x2*x3 + v*y2*x3 - v*x2*y3)).

Lemma assoc_x :
  (Nx * (1 - k) * y3 + Ny * (1 + k) * x3) * ((1 + l) * (1 - l) + d * x1 * y1 * Mx * My)
  - (x1 * My * (1 + l) + y1 * Mx * (1 - l)) * ((1 + k) * (1 - k) + d * Nx * Ny * x3 * y3)
  = cof1 x1 y1 * e1 + cof2 (-1) x1 y1 * e2 + cof3 (-1) x1 y1 * e3.
Proof. subst Nx Ny Mx My k l e1 e2 e3 cof1 cof2 cof3 S1. cbv beta. ring. Qed.
Lemma assoc_y :
  (Ny * (1 + k) * y3 + Nx * (1 - k) * x3) * ((1 + l) * (1 - l) - d * x1 * y1 * Mx * My)
  - (y1 * My * (1 + l) + x1 * Mx * (1 - l)) * ((1 + k) * (1 - k) - d * Nx * Ny * x3 * y3)
  = cof1 y1 x1 * e1 + cof2 1 y1 x1 * e2 + cof3 1 y1 x1 * e3.
Proof. subst Nx Ny Mx My k l e1 e2 e3 cof1 cof2 cof3 S1. cbv beta. ring. Qed.
End associativity.

(** A sum whose left operand is given by fractions. *)
Lemma add_fraction X Y Nx Ny a b x3 y3 :
  on_curve (X, Y) -> on_curve (x3, y3) -> X * a == Nx -> Y * b == Ny -> nz a -> nz b ->
  let S := add (X, Y) (x3, y3) in
  fst S * (a * b + dd * Nx * Ny * x3 * y3) == Nx * b * y3 + Ny * a * x3
  /\ snd S * (a * b - dd * Nx * Ny * x3 * y3) == Ny * a * y3 + Nx * b * x3
  /\ nz (a * b + dd * Nx * Ny * x3 * y3) /\ nz (a * b - dd * Nx * Ny * x3 * y3).
Proof.
  intros H1 H2 Ex Ey Ha Hb S. destruct (add_spec _ _ H1 H2) as (Fx & Fy & Hp & Hm).
  fold S in Fx, Fy. cbn [fst snd] in Fx, Fy, Hp, Hm. destruct S as [s t]. cbn [fst snd] in *.
  assert (Kp : a * b + dd * Nx * Ny * x3 * y3 == a * b * (1 + dd * X * x3 * Y * y3))
    by (rewrite <- Ex, <- Ey; apply eqm_of_eq; ring).
  assert (Km : a * b - dd * Nx * Ny * x3 * y3 == a * b * (1 - dd * X * x3 * Y * y3))
    by (rewrite <- Ex, <- Ey; apply eqm_of_eq; ring).
  split; [|split; [|split]].
  - rewrite Kp, <- Ex, <- Ey. apply (eqm_lc1 (a * b) _ _ _ _ Fx). ring.
  - rewrite Km, <- Ex, <- Ey. apply (eqm_lc1 (a * b) _ _ _ _ Fy). ring.
  - rewrite Kp. by repeat apply nz_mul.
  - rewrite Km. by repeat apply nz_mul.
Qed.

Lemma eqm_lc3 c1 c2 c3 a1 b1 a2 b2 a3 b3 x y :
  a1 == b1 -> a2 == b2 -> a3 == b3 ->
  x - y = c1 * (a1 - b1) + c2 * (a2 - b2) + c3 * (a3 - b3) -> x == y.
Proof.
  intros [k1 E1] [k2 E2] [k3 E3] H. exists (c1 * k1 + c2 * k2 + c3 * k3).
  rewrite H, E1, E2, E3. ring.
Qed.

Lemma add_assoc P Q R :
  on_curve P -> on_curve Q -> on_curve R -> add (add P Q) R ≃ add P (add Q R).
Proof.
  intros HP HQ HR.
  pose proof (add_on_curve P Q HP HQ) as HPQ. pose proof (add_on_curve Q R HQ HR) as HQR.
  destruct (add_spec P Q HP HQ) as (Ex & Ey & Hp & Hm).
  destruct (add_spec Q R HQ HR) as (Fx & Fy & Gp & Gm).
  rewrite (add_comm P (add Q R)).
  destruct P as [x1 y1], Q as [x2 y2], R as [x3 y3].
  destruct (add (x1, y1) (x2, y2)) as [X Y], (add (x2, y2) (x3, y3)) as [U V].
  cbn [fst snd] in *.
  destruct (add_fraction _ _ _ _ _ _ x3 y3 HPQ HR Ex Ey Hp Hm) as (Ax & Ay & Np & Nm).
  destruct (add_fraction _ _ _ _ _ _ x1 y1 HQR HP Fx Fy Gp Gm) as (Bx & By & Mp & Mm).
  pose proof (assoc_x dd x1 y1 x2 y2 x3 y3) as Cx. pose proof (assoc_y dd x1 y1 x2 y2 x3 y3) as Cy.
  split.
  - apply (cross _ _ _ _ _ _ Ax Bx Np Mp).
    refine (eqm_lc3 _ _ _ _ _ _ _ _ _ _ _ HP HQ HR _). rewrite <- Cx. ring.
  - apply (cross _ _ _ _ _ _ Ay By Nm Mm).
    refine (eqm_lc3 _ _ _ _ _ _ _ _ _ _ _ HP HQ HR _). rewrite <- Cy. ring.
Qed.

Lemma add_neg_r P : on_curve P -> add P (neg P) ≃ O.
Proof.
  intros H. destruct (add_spec P (neg P) H (neg_on_curve P H)) as (Ex & Ey & Hp & Hm).
  destruct P as [x y]. unfold neg in *. cbn [fst snd] in *. unfold on_curve in H.
  destruct (add (x, y) (- x, y)) as [X Y]. cbn [fst snd] in *.
  set (k := dd * x * - x * y * y) in *. split; cbn [fst snd O].
  - apply (eqm_cancel (1 + k)); [done|]. rewrite Z.mul_comm, Ex. apply eqm_of_eq. ring.
  - apply (eqm_cancel (1 - k)); [done|]. rewrite Z.mul_comm, Ey. unfold k.
    apply (eqm_lc1 1 _ _ _ _ H). ring.
Qed.
Lemma neg_add P Q : neg (add P Q) ≃ add (neg P) (neg Q).
Proof.
  destruct P as [x1 y1], Q as [x2 y2]. unfold neg, add. cbn [fst snd].
  replace (dd * - x1 * - x2 * y1 * y2) with (dd * x1 * x2 * y1 * y2) by ring.
  split; cbn [fst snd]; apply eqm_of_eq; ring.
Qed.

(** ** Scalar multiples *)

Definition nmul (n : nat) (P : point) : point := Nat.iter n (add P) O.
Definition zmul (z : Z) (P : point) : point :=
  if z <? 0 then neg (nmul (Z.to_nat (- z)) P) else nmul (Z.to_nat z) P.

Create HintDb curve.
#[export] Hint Resolve O_on_curve neg_on_curve add_on_curve : curve.
Lemma nmul_on_curve n P : on_curve P -> on_curve (nmul n P).
Proof.
  intros H. induction n as [|n IH]; [exact O_on_curve|exact (add_on_curve P (nmul n P) H IH)].
Qed.
#[export] Hint Resolve nmul_on_curve : curve.
Lemma zmul_on_curve z P : on_curve P -> on_curve (zmul z P).
Proof. intros H. unfold zmul. case_match; auto with curve. Qed.
#[export] Hint Resolve zmul_on_curve : curve.

#[export] Instance nmul_proper n : Proper (peq ==> peq) (nmul n).
Proof.
  intros P Q E. induction n as [|n IH]; [reflexivity|].
  exact (add_proper P Q E (nmul n P) (nmul n Q) IH).
Qed.
#[export] Instance zmul_proper z : Proper (peq ==> peq) (zmul z).
Proof. intros P Q E. unfold zmul. case_match; [apply neg_proper|]; by apply nmul_proper. Qed.

(** Moving a summand across. *)
Lemma add_cancel_l P Q : on_curve P -> on_curve Q -> add P (add (neg P) Q) ≃ Q.
Proof.
  intros HP HQ. rewrite <- add_assoc by auto with curve.
  rewrite (add_neg_r P HP). apply add_O_l.
Qed.

Lemma nmul_succ n P : nmul (S n) P = add P (nmul n P).
Proof. reflexivity. Qed.
Lemma zmul_succ z P : on_curve P -> zmul (z + 1) P ≃ add P (zmul z P).
Proof.
  intros HP. unfold zmul. destruct (Z.ltb_spec z 0).
  - replace (Z.to_nat (- z)) with (S (Z.to_nat (- z - 1))) by lia.
    rewrite nmul_succ, neg_add, add_cancel_l by auto with curve.
    destruct (Z.ltb_spec (z + 1) 0).
    + by replace (- (z + 1)) with (- z - 1) by lia.
    + replace z with (-1) by lia. cbn. split; cbn; reflexivity.
  - rewrite (proj2 (Z.ltb_ge (z + 1) 0)) by lia.
    by replace (Z.to_nat (z + 1)) with (S (Z.to_nat z)) by lia.
Qed.

Lemma zmul_0 P : zmul 0 P = O.
Proof. reflexivity. Qed.
Lemma zmul_1 P : zmul 1 P ≃ P.
Proof. apply add_O_r. Qed.

(** A statement true at 0 and stable under successor and predecessor. *)
Lemma Z_both_ways (Q : Z -> Prop) : Q 0 -> (forall z, Q z <-> Q (z + 1)) -> forall z, Q z.
Proof.
  intros H0 Hs z. destruct (Z.le_ge_cases 0 z) as [Hz|Hz].
  - revert z Hz. apply natlike_ind; [done|]. intros z _ H. exact (proj1 (Hs z) H).
  - replace z with (- (- z)) by lia. assert (H : 0 <= - z) by lia. revert H.
    generalize (- z). apply natlike_ind; [done|]. intros n _ H. apply (proj2 (Hs _)).
    by replace (- Z.succ n + 1) with (- n) by lia.
Qed.

Lemma add_cancel P Q R :
  on_curve P -> on_curve Q -> on_curve R -> add P Q ≃ add P R <-> Q ≃ R.
Proof.
  intros HP HQ HR. split; [|by intros ->]. intros E.
  assert (HN : on_curve (neg P)) by auto with curve.
  assert (H : forall S, on_curve S -> add (neg P) (add P S) ≃ S).
  { intros S HS. rewrite <- add_assoc by done. rewrite (add_comm (neg P)), (add_neg_r P HP).
    apply add_O_l. }
  rewrite <- (H Q HQ), <- (H R HR). by rewrite E.
Qed.

Lemma zmul_add a b P : on_curve P -> zmul (a + b) P ≃ add (zmul a P) (zmul b P).
Proof.
  intros HP. revert a. apply Z_both_ways.
  - by rewrite zmul_0, add_O_l.
  - intros a. replace (a + 1 + b) with (a + b + 1) by ring.
    rewrite !zmul_succ, add_assoc by auto with curve.
    rewrite add_cancel by auto with curve. done.
Qed.
Lemma zmul_mul a b P : on_curve P -> zmul a (zmul b P) ≃ zmul (a * b) P.
Proof.
  intros HP. revert a. apply Z_both_ways.
  - done.
  - intros a. replace ((a + 1) * b) with (b + a * b) by ring.
    rewrite zmul_succ, zmul_add by auto with curve.
    rewrite add_cancel by auto with curve. done.
Qed.
Lemma zmul_opp a P : on_curve P -> zmul (- a) P ≃ neg (zmul a P).
Proof.
  intros HP. apply (add_cancel (zmul a P)); [auto with curve..|].
  rewrite <- zmul_add, add_neg_r by auto with curve. by rewrite Z.add_opp_diag_r.
Qed.
Lemma zmul_double P : on_curve P -> zmul 2 P ≃ add P P.
Proof. intros HP. change 2 with (1 + 1). by rewrite zmul_add, zmul_1 by done. Qed.

(** What the doubling formulas compute, for [x = X/Z], [y = Y/Z]. *)
Lemma double_spec P z :
  on_curve P -> nz z ->
  let g := (snd P * snd P - fst P * fst P) * (z * z) in
  let f := 2 * (z * z) - g in
  fst (add P P) * g == 2 * fst P * snd P * (z * z)
  /\ snd (add P P) * f == (snd P * snd P + fst P * fst P) * (z * z)
  /\ nz g /\ nz f.
Proof.
  intros HP Hz g f. destruct (add_spec P P HP HP) as (Ex & Ey & Hp & Hm).
  destruct (add P P) as [x3 y3], P as [x y]. cbn [fst snd on_curve] in *.
  set (k := dd * x * x * y * y) in *.
  assert (Eg : g == z * z * (1 + k)) by (apply (eqm_lc1 (z * z) _ _ _ _ HP); unfold g, k; ring).
  assert (Ef : f == z * z * (1 - k))
    by (unfold f; rewrite Eg; apply eqm_of_eq; ring).
  rewrite Ef, Eg. split_and!.
  - apply (eqm_lc1 (z * z) _ _ _ _ Ex). ring.
  - apply (eqm_lc1 (z * z) _ _ _ _ Ey). ring.
  - by repeat apply nz_mul.
  - by repeat apply nz_mul.
Qed.
