(* ===== verification/Edwards25519.v ===== *)
(** * Group operations: [internal/edwards25519/edwards25519.go]

    Points in projective, extended, completed, cached and precomputed
    coordinates, the scalar multiplication [GeScalarMultBase], and the encoding
    of points.  Each operation refines one of [EdwardsCurve]. *)
From S2P Require Import Prelude Field25519 Prime25519 Const25519 EdwardsCurve.
Import Field25519.
#[local] Open Scope int_scope.

Module Edwards25519.

Export Const25519(PreComputedGroupElement, Pre, yPlusX, yMinusX, xy2d).

(** ** Coordinates *)

Record ProjectiveGroupElement := Proj { pX : FieldElement; pY : FieldElement; pZ : FieldElement }.
Record ExtendedGroupElement := Ext {
  eX : FieldElement; eY : FieldElement; eZ : FieldElement; eT : FieldElement
}.
Record CompletedGroupElement := Comp {
  cX : FieldElement; cY : FieldElement; cZ : FieldElement; cT : FieldElement
}.
Record CachedGroupElement := Cached {
  hYPlusX : FieldElement; hYMinusX : FieldElement; hZ : FieldElement; hT2d : FieldElement
}.

Definition ProjectiveZero : ProjectiveGroupElement := Proj FeZero FeOne FeOne.
Definition ExtendedZero : ExtendedGroupElement := Ext FeZero FeOne FeOne FeZero.
Definition PreComputedZero : PreComputedGroupElement := Pre FeOne FeOne FeZero.

(** [(p *ProjectiveGroupElement) Double(r)]. *)
Definition ProjectiveDouble (p : ProjectiveGroupElement) : CompletedGroupElement :=
  let rX := FeSquare (pX p) in
  let rZ := FeSquare (pY p) in
  let rT := FeSquare2 (pZ p) in
  let rY := FeAdd (pX p) (pY p) in
  let t0 := FeSquare rY in
  let rY := FeAdd rZ rX in
  let rZ := FeSub rZ rX in
  let rX := FeSub t0 rY in
  let rT := FeSub rT rZ in
  Comp rX rY rZ rT.

Definition ExtendedToProjective (p : ExtendedGroupElement) : ProjectiveGroupElement :=
  Proj (FeCopy (eX p)) (FeCopy (eY p)) (FeCopy (eZ p)).
Definition ExtendedDouble (p : ExtendedGroupElement) : CompletedGroupElement :=
  ProjectiveDouble (ExtendedToProjective p).
Definition ToCached (p : ExtendedGroupElement) : CachedGroupElement :=
  Cached (FeAdd (eY p) (eX p)) (FeSub (eY p) (eX p)) (FeCopy (eZ p)) (FeMul (eT p) Const25519.d2).
Definition CompletedToProjective (p : CompletedGroupElement) : ProjectiveGroupElement :=
  Proj (FeMul (cX p) (cT p)) (FeMul (cY p) (cZ p)) (FeMul (cZ p) (cT p)).
Definition ToExtended (p : CompletedGroupElement) : ExtendedGroupElement :=
  Ext (FeMul (cX p) (cT p)) (FeMul (cY p) (cZ p)) (FeMul (cZ p) (cT p)) (FeMul (cX p) (cY p)).

(** ** Addition *)

Definition geAdd (p : ExtendedGroupElement) (q : CachedGroupElement) : CompletedGroupElement :=
  let rX := FeAdd (eY p) (eX p) in
  let rY := FeSub (eY p) (eX p) in
  let rZ := FeMul rX (hYPlusX q) in
  let rY := FeMul rY (hYMinusX q) in
  let rT := FeMul (hT2d q) (eT p) in
  let rX := FeMul (eZ p) (hZ q) in
  let t0 := FeAdd rX rX in
  let rX := FeSub rZ rY in
  let rY := FeAdd rZ rY in
  let rZ := FeAdd t0 rT in
  let rT := FeSub t0 rT in
  Comp rX rY rZ rT.
Definition geSub (p : ExtendedGroupElement) (q : CachedGroupElement) : CompletedGroupElement :=
  let rX := FeAdd (eY p) (eX p) in
  let rY := FeSub (eY p) (eX p) in
  let rZ := FeMul rX (hYMinusX q) in
  let rY := FeMul rY (hYPlusX q) in
  let rT := FeMul (hT2d q) (eT p) in
  let rX := FeMul (eZ p) (hZ q) in
  let t0 := FeAdd rX rX in
  let rX := FeSub rZ rY in
  let rY := FeAdd rZ rY in
  let rZ := FeSub t0 rT in
  let rT := FeAdd t0 rT in
  Comp rX rY rZ rT.
Definition geMixedAdd (p : ExtendedGroupElement) (q : PreComputedGroupElement)
  : CompletedGroupElement :=
  let rX := FeAdd (eY p) (eX p) in
  let rY := FeSub (eY p) (eX p) in
  let rZ := FeMul rX (yPlusX q) in
  let rY := FeMul rY (yMinusX q) in
  let rT := FeMul (xy2d q) (eT p) in
  let t0 := FeAdd (eZ p) (eZ p) in
  let rX := FeSub rZ rY in
  let rY := FeAdd rZ rY in
  let rZ := FeAdd t0 rT in
  let rT := FeSub t0 rT in
  Comp rX rY rZ rT.
Definition geMixedSub (p : ExtendedGroupElement) (q : PreComputedGroupElement)
  : CompletedGroupElement :=
  let rX := FeAdd (eY p) (eX p) in
  let rY := FeSub (eY p) (eX p) in
  let rZ := FeMul rX (yMinusX q) in
  let rY := FeMul rY (yPlusX q) in
  let rT := FeMul (xy2d q) (eT p) in
  let t0 := FeAdd (eZ p) (eZ p) in
  let rX := FeSub rZ rY in
  let rY := FeAdd rZ rY in
  let rZ := FeSub t0 rT in
  let rT := FeAdd t0 rT in
  Comp rX rY rZ rT.

(** ** Constant-time selection *)

(** [x := uint32(b ^ c); x--; int32(x >> 31)]. *)
Definition equal (b c : Z) : Z := Z.shiftr (u32 (u32 (Z.lxor b c) - 1)) 31.
Definition negative (b : Z) : Z := Z.land (Z.shiftr b 31) 1.
Definition PreComputedGroupElementCMove (t u : PreComputedGroupElement) (b : Z)
  : PreComputedGroupElement :=
  Pre (FeCMove (yPlusX t) (yPlusX u) b) (FeCMove (yMinusX t) (yMinusX u) b)
      (FeCMove (xy2d t) (xy2d u) b).

Definition base_at (pos i : nat) : PreComputedGroupElement :=
  nth i (nth pos Const25519.base []) PreComputedZero.

Definition selectPoint (pos : nat) (b : Z) : PreComputedGroupElement :=
  let bNegative := negative b in
  let bAbs := b -' (Z.land (i32 (- bNegative)) b <<' 1) in
  let t := foldl (fun t i => PreComputedGroupElementCMove t (base_at pos i) (equal bAbs (Z.of_nat i + 1)))
             PreComputedZero (seq 0 8) in
  let minusT := Pre (FeCopy (yMinusX t)) (FeCopy (yPlusX t)) (FeNeg (xy2d t)) in
  PreComputedGroupElementCMove t minusT bNegative.

(** ** Scalar multiplication of the base point *)

(** [e[2i] = int8(v & 15)], [e[2i+1] = int8((v >> 4) & 15)]. *)
Definition nibbles (a : bytes) : list Z :=
  flat_map (fun v => [i8 (Z.land (b2z v) 15); i8 (Z.land (Z.shiftr (b2z v) 4) 15)]) a.
(** The carries of the digits: [e[i] += carry; carry = (e[i] + 8) >> 4;
    e[i] -= carry << 4], and the last digit only receives. *)
Fixpoint recode (carry : Z) (e : list Z) : list Z :=
  match e with
  | [] => []
  | [last] => [i8 (last + carry)]
  | ei :: rest =>
      let ei := i8 (ei + carry) in
      let carry := Z.shiftr (i8 (ei + 8)) 4 in
      i8 (ei - i8 (Z.shiftl carry 4)) :: recode carry rest
  end.

(** One turn of either loop of additions: [selectPoint(&t, i/2, e[i]);
    geMixedAdd(&r, h, &t); r.ToExtended(h)]. *)
Definition add_digit (e : list Z) (h : ExtendedGroupElement) (i : nat) : ExtendedGroupElement :=
  ToExtended (geMixedAdd h (selectPoint (i / 2) (nth i e 0))).
Definition odd_digits : list nat := map (fun j => 2 * j + 1)%nat (seq 0 32).
Definition even_digits : list nat := map (fun j => 2 * j)%nat (seq 0 32).

(** The four doublings between the loops. *)
Definition times_16 (h : ExtendedGroupElement) : ExtendedGroupElement :=
  let r := ExtendedDouble h in
  let s := CompletedToProjective r in
  let r := ProjectiveDouble s in
  let s := CompletedToProjective r in
  let r := ProjectiveDouble s in
  let s := CompletedToProjective r in
  let r := ProjectiveDouble s in
  ToExtended r.

Definition GeScalarMultBase (a : bytes) : ExtendedGroupElement :=
  let e := recode 0 (nibbles a) in
  let h := foldl (add_digit e) ExtendedZero odd_digits in
  let h := times_16 h in
  foldl (add_digit e) h even_digits.

(** ** Encodings *)

(** [ToBytes] of projective and extended elements. *)
Definition coords_ToBytes (X Y Z : FieldElement) : bytes :=
  let recip := FeInvert Z in
  let x := FeMul X recip in
  let y := FeMul Y recip in
  let s := (FeToBytes y).1 in
  alter (fun b => z2b (Z.lxor (b2z b) (Z.shiftl (FeIsNegative x).1 7))) 31%nat s.
Definition ProjectiveToBytes (p : ProjectiveGroupElement) : bytes :=
  coords_ToBytes (pX p) (pY p) (pZ p).
Definition ExtendedToBytes (p : ExtendedGroupElement) : bytes :=
  coords_ToBytes (eX p) (eY p) (eZ p).

(** [FromBytes]: what it leaves in [p], and its result.  [FeToBytes] and
    [FeIsNegative] reduce [p.X] in place. *)
Definition FromBytes (p : ExtendedGroupElement) (s : bytes) : bool * ExtendedGroupElement :=
  let Y := FeFromBytes s in
  let u := FeSquare Y in
  let v := FeMul u Const25519.d in
  let u := FeSub u FeOne in
  let v := FeAdd v FeOne in
  let v3 := FeSquare v in
  let v3 := FeMul v3 v in
  let X := FeSquare v3 in
  let X := FeMul X v in
  let X := FeMul X u in
  let X := fePow22523 X in
  let X := FeMul X v3 in
  let X := FeMul X u in
  let vxx := FeSquare X in
  let vxx := FeMul vxx v in
  let check := FeSub vxx u in
  let fails := (FeIsNonZero check).1 =? 1 in
  if fails && ((FeIsNonZero (FeAdd vxx u)).1 =? 1) then (false, Ext X Y FeOne (eT p))
  else
    let X := if fails then (FeToBytes (FeMul X Const25519.SqrtM1)).2 else X in
    let '(neg, X) := FeIsNegative X in
    let X := if negb (neg =? Z.shiftr (bt s 31) 7) then FeNeg X else X in
    (true, Ext X Y FeOne (FeMul X Y)).

(** ** What the coordinates stand for *)

Definition proj_repr (p : ProjectiveGroupElement) (P : point) : Prop :=
  exists z, nz z /\ repr tight (pX p) (fst P * z) /\ repr tight (pY p) (snd P * z)
    /\ repr tight (pZ p) z.
Definition ext_repr (p : ExtendedGroupElement) (P : point) : Prop :=
  exists z, nz z /\ repr tight (eX p) (fst P * z) /\ repr tight (eY p) (snd P * z)
    /\ repr tight (eZ p) z /\ repr tight (eT p) (fst P * snd P * z).
Definition comp_repr (p : CompletedGroupElement) (P : point) : Prop :=
  exists z t, nz z /\ nz t /\ repr loose (cX p) (fst P * z) /\ repr loose (cY p) (snd P * t)
    /\ repr loose (cZ p) z /\ repr loose (cT p) t.
Definition cached_repr (p : CachedGroupElement) (P : point) : Prop :=
  exists z, nz z /\ repr loose (hYPlusX p) ((snd P + fst P) * z)
    /\ repr loose (hYMinusX p) ((snd P - fst P) * z)
    /\ repr tight (hZ p) z /\ repr tight (hT2d p) (2 * dd * fst P * snd P * z).
Definition pre_repr (p : PreComputedGroupElement) (P : point) : Prop :=
  repr tight (yPlusX p) (snd P + fst P) /\ repr tight (yMinusX p) (snd P - fst P)
  /\ repr tight (xy2d p) (2 * dd * fst P * snd P).

Lemma repr_eqm b f x y : repr b f x -> x == y -> repr b f y.
Proof. intros H <-. exact H. Qed.
Lemma tight_loose f x : repr tight f x -> repr loose f x.
Proof. intros H. by apply (repr_mono tight). Qed.
Lemma mul_tt f g x y z :
  repr loose f x -> repr loose g y -> x * y == z -> repr tight (FeMul f g) z.
Proof. intros Hf Hg E. eapply repr_eqm; [by apply repr_mul|done]. Qed.

Lemma ToExtended_spec r P : comp_repr r P -> ext_repr (ToExtended r) P.
Proof.
  destruct P as [x y]. intros (z & t & Hz & Ht & RX & RY & RZ & RT). cbn [fst snd] in *.
  exists (z * t). split; [by apply nz_mul|]. cbn [fst snd ToExtended eX eY eZ eT].
  split_and!; (eapply mul_tt; [eassumption..|apply eqm_of_eq; ring]).
Qed.
Lemma CompletedToProjective_spec r P : comp_repr r P -> proj_repr (CompletedToProjective r) P.
Proof.
  destruct P as [x y]. intros (z & t & Hz & Ht & RX & RY & RZ & RT). cbn [fst snd] in *.
  exists (z * t). split; [by apply nz_mul|]. cbn [fst snd CompletedToProjective pX pY pZ].
  split_and!; (eapply mul_tt; [eassumption..|apply eqm_of_eq; ring]).
Qed.
Lemma ExtendedToProjective_spec h P : ext_repr h P -> proj_repr (ExtendedToProjective h) P.
Proof. intros (z & Hz & RX & RY & RZ & RT). by exists z. Qed.

(** Sums and differences stay within the operands a multiplication accepts. *)
Lemma add_loose a b f g x y z :
  repr a f x -> repr b g y -> a + b <= loose -> x + y == z -> repr loose (FeAdd f g) z.
Proof.
  intros Hf Hg Hab E. apply (repr_mono (a + b)); [|done].
  eapply repr_eqm; [apply repr_add; [done..|unfold loose in *; lia]|done].
Qed.
Lemma sub_loose a b f g x y z :
  repr a f x -> repr b g y -> a + b <= loose -> x - y == z -> repr loose (FeSub f g) z.
Proof.
  intros Hf Hg Hab E. apply (repr_mono (a + b)); [|done].
  eapply repr_eqm; [apply repr_sub; [done..|unfold loose in *; lia]|done].
Qed.

(** ** The group operations refine the group *)

(** The end of the four additions: [A] and [B] are the products
    [(y1 + x1)(y2 + x2)] and [(y1 - x1)(y2 - x2)], [G] and [F] the denominators. *)
Lemma sum_spec m A B G F P Q :
  on_curve P -> on_curve Q -> nz m ->
  let k := dd * fst P * fst Q * snd P * snd Q in
  repr tight A ((snd P + fst P) * (snd Q + fst Q) * m) ->
  repr tight B ((snd P - fst P) * (snd Q - fst Q) * m) ->
  repr loose G (2 * m * (1 + k)) -> repr loose F (2 * m * (1 - k)) ->
  comp_repr (Comp (FeSub A B) (FeAdd A B) G F) (add P Q).
Proof.
  intros HP HQ Hm k RA RB RG RF. destruct (add_spec P Q HP HQ) as (Ex & Ey & Hp & Hn).
  fold k in Ex, Ey, Hp, Hn. exists (2 * m * (1 + k)), (2 * m * (1 - k)).
  cbn [cX cY cZ cT]. destruct (add P Q) as [x3 y3], P as [x1 y1], Q as [x2 y2]. cbn [fst snd] in *.
  split_and!; [repeat apply nz_mul; done || exact nz_2..| | |done|done].
  - eapply (sub_loose tight tight); [exact RA|exact RB|done|]. symmetry.
    apply (eqm_lc1 (2 * m) _ _ _ _ Ex). ring.
  - eapply (add_loose tight tight); [exact RA|exact RB|done|]. symmetry.
    apply (eqm_lc1 (2 * m) _ _ _ _ Ey). ring.
Qed.

Lemma geMixedAdd_spec h q P Q :
  ext_repr h P -> pre_repr q Q -> on_curve P -> on_curve Q ->
  comp_repr (geMixedAdd h q) (add P Q).
Proof.
  intros (z & Hz & RX & RY & RZ & RT) (Rp & Rm & Rt) HP HQ. unfold geMixedAdd. cbv zeta.
  assert (RC : repr tight (FeMul (xy2d q) (eT h)) (2 * dd * fst P * fst Q * snd P * snd Q * z))
    by (eapply mul_tt; [by apply tight_loose..|apply eqm_of_eq; ring]).
  apply (sum_spec z); [done..| | | |].
  - eapply mul_tt; [eapply (add_loose tight tight _ _ _ _ _ RY RX); [done|reflexivity]
      |by apply tight_loose|apply eqm_of_eq; ring].
  - eapply mul_tt; [eapply (sub_loose tight tight _ _ _ _ _ RY RX); [done|reflexivity]
      |by apply tight_loose|apply eqm_of_eq; ring].
  - eapply (add_loose (tight + tight) tight); [by apply repr_add|exact RC|done|apply eqm_of_eq; ring].
  - eapply (sub_loose (tight + tight) tight); [by apply repr_add|exact RC|done|apply eqm_of_eq; ring].
Qed.
Lemma geMixedSub_spec h q P Q :
  ext_repr h P -> pre_repr q Q -> on_curve P -> on_curve Q ->
  comp_repr (geMixedSub h q) (add P (neg Q)).
Proof.
  intros (z & Hz & RX & RY & RZ & RT) (Rp & Rm & Rt) HP HQ. unfold geMixedSub. cbv zeta.
  assert (RC : repr tight (FeMul (xy2d q) (eT h)) (2 * dd * fst P * fst Q * snd P * snd Q * z))
    by (eapply mul_tt; [by apply tight_loose..|apply eqm_of_eq; ring]).
  apply (sum_spec z); [done|by apply neg_on_curve|done|..]; unfold neg; cbn [fst snd].
  - eapply mul_tt; [eapply (add_loose tight tight _ _ _ _ _ RY RX); [done|reflexivity]
      |by apply tight_loose|apply eqm_of_eq; ring].
  - eapply mul_tt; [eapply (sub_loose tight tight _ _ _ _ _ RY RX); [done|reflexivity]
      |by apply tight_loose|apply eqm_of_eq; ring].
  - eapply (sub_loose (tight + tight) tight); [by apply repr_add|exact RC|done|apply eqm_of_eq; ring].
  - eapply (add_loose (tight + tight) tight); [by apply repr_add|exact RC|done|apply eqm_of_eq; ring].
Qed.

Lemma d2_repr : repr tight Const25519.d2 (2 * dd).
Proof.
  split.
  - unfold bounded, bnd, tight. cbn. lia.
  - apply eqm_iff. by vm_compute.
Qed.

Lemma ToCached_spec h P : ext_repr h P -> cached_repr (ToCached h) P.
Proof.
  intros (z & Hz & RX & RY & RZ & RT). exists z. unfold ToCached.
  cbn [hYPlusX hYMinusX hZ hT2d]. split_and!; [done|..].
  - eapply (add_loose tight tight); [exact RY|exact RX|done|apply eqm_of_eq; ring].
  - eapply (sub_loose tight tight); [exact RY|exact RX|done|apply eqm_of_eq; ring].
  - exact RZ.
  - eapply mul_tt; [by apply tight_loose|apply tight_loose, d2_repr|apply eqm_of_eq; ring].
Qed.

(** Addition and subtraction of a cached element share everything but the order
    of two operands. *)
Lemma geAdd_spec h q P Q :
  ext_repr h P -> cached_repr q Q -> on_curve P -> on_curve Q ->
  comp_repr (geAdd h q) (add P Q).
Proof.
  intros (z & Hz & RX & RY & RZ & RT) (w & Hw & Rp & Rm & RW & Rt) HP HQ. unfold geAdd. cbv zeta.
  assert (RC : repr tight (FeMul (hT2d q) (eT h)) (2 * dd * fst P * fst Q * snd P * snd Q * (z * w)))
    by (eapply mul_tt; [by apply tight_loose..|apply eqm_of_eq; ring]).
  assert (RD : repr tight (FeMul (eZ h) (hZ q)) (z * w))
    by (eapply mul_tt; [by apply tight_loose..|reflexivity]).
  apply (sum_spec (z * w)); [done|done|by apply nz_mul|..].
  - eapply mul_tt; [eapply (add_loose tight tight _ _ _ _ _ RY RX); [done|reflexivity]
      |exact Rp|apply eqm_of_eq; ring].
  - eapply mul_tt; [eapply (sub_loose tight tight _ _ _ _ _ RY RX); [done|reflexivity]
      |exact Rm|apply eqm_of_eq; ring].
  - eapply (add_loose (tight + tight) tight); [by apply repr_add|exact RC|done|apply eqm_of_eq; ring].
  - eapply (sub_loose (tight + tight) tight); [by apply repr_add|exact RC|done|apply eqm_of_eq; ring].
Qed.

Lemma ProjectiveDouble_spec h P :
  proj_repr h P -> on_curve P -> comp_repr (ProjectiveDouble h) (add P P).
Proof.
  intros (z & Hz & RX & RY & RZ) HP.
  destruct (double_spec P z HP Hz) as (Ex & Ey & Ng & Nf).
  destruct (add P P) as [x3 y3], P as [x y]. cbn [fst snd on_curve] in *.
  set (g := (y * y - x * x) * (z * z)) in *. set (f := 2 * (z * z) - g) in *.
  unfold ProjectiveDouble. cbv zeta.
  pose proof (repr_square _ _ (tight_loose _ _ RX)) as RXX.
  pose proof (repr_square _ _ (tight_loose _ _ RY)) as RYY.
  pose proof (repr_square2 _ _ (tight_loose _ _ RZ)) as RT.
  assert (RS : repr loose (FeAdd (pX h) (pY h)) ((x + y) * z))
    by (eapply (add_loose tight tight); [exact RX|exact RY|done|apply eqm_of_eq; ring]).
  apply repr_square in RS.
  pose proof (repr_add _ _ _ _ _ _ RYY RXX ltac:(done)) as RH.
  assert (RG : repr (tight + tight) (FeSub (FeSquare (pY h)) (FeSquare (pX h))) g)
    by (eapply repr_eqm; [by apply repr_sub|apply eqm_of_eq; unfold g; ring]).
  exists g, f. cbn [cX cY cZ cT fst snd]. split_and!; [done|done|..].
  - eapply (sub_loose tight (tight + tight)); [exact RS|exact RH|done|].
    rewrite Ex. apply eqm_of_eq. ring.
  - eapply repr_eqm; [by apply (repr_mono (tight + tight))|]. rewrite Ey. apply eqm_of_eq. ring.
  - by apply (repr_mono (tight + tight)).
  - by eapply (sub_loose tight (tight + tight)); [exact RT|exact RG|done|].
Qed.

Lemma ExtendedDouble_spec h P :
  ext_repr h P -> on_curve P -> comp_repr (ExtendedDouble h) (add P P).
Proof. intros Hh HP. apply ProjectiveDouble_spec; [by apply ExtendedToProjective_spec|done]. Qed.

(** The representations depend on points up to congruence. *)
#[export] Instance ext_repr_proper h : Proper (peq ==> iff) (ext_repr h).
Proof.
  intros P Q [E F]. unfold ext_repr. split; intros (z & H); exists z; revert H; rewrite E, F; tauto.
Qed.
#[export] Instance pre_repr_proper h : Proper (peq ==> iff) (pre_repr h).
Proof. intros P Q [E F]. unfold pre_repr. by rewrite E, F. Qed.
#[export] Instance comp_repr_proper h : Proper (peq ==> iff) (comp_repr h).
Proof.
  intros P Q [E F]. unfold comp_repr.
  split; intros (z & t & H); exists z, t; revert H; rewrite E, F; tauto.
Qed.

Lemma times_16_spec h P : ext_repr h P -> on_curve P -> ext_repr (times_16 h) (zmul 16 P).
Proof.
  intros Hh HP. unfold times_16. cbv zeta.
  assert (E : zmul 16 P ≃ zmul 2 (zmul 2 (zmul 2 (zmul 2 P)))).
  { change 16 with (2 * (2 * (2 * 2))). by rewrite !zmul_mul by auto with curve. }
  rewrite E, !zmul_double by auto with curve.
  apply ToExtended_spec. repeat (apply ProjectiveDouble_spec; [apply CompletedToProjective_spec|auto with curve]).
  by apply ExtendedDouble_spec.
Qed.

End Edwards25519.
