(* ===== verification/Scalar25519.v ===== *)
(** * Scalars modulo the group order: [ScMulAdd] and [ScReduce]

    The two functions of [edwards25519.go] load their arguments into limbs of 21
    bits and then run the same long sequence of carries and folds on the local
    variables [s0] to [s23].  The sequence is data here, one [op] for each group of
    statements, run with the wrap-around of int64; an interval analysis of it shows
    that nothing wraps, and the arithmetic of the operations that the result is the
    canonical residue. *)
From S2P Require Import Prelude Field25519.

Module Scalar25519.
Import Field25519.
#[local] Open Scope int_scope.

(** The order of the base point. *)
Definition ell : Z := 2 ^ 252 + 27742317777372353535851937790883648493.

(** ** The local variables *)
Abbreviation limbs := (list Z).
Definition limb (s : limbs) (i : nat) : Z := nth i s 0.
Definition mask (x : Z) : Z := Z.land 2097151 x.

Definition load_low (b : bytes) : limbs :=
  [ mask (load3 b 0); mask (Z.shiftr (load4 b 2) 5); mask (Z.shiftr (load3 b 5) 2);
    mask (Z.shiftr (load4 b 7) 7); mask (Z.shiftr (load4 b 10) 4); mask (Z.shiftr (load3 b 13) 1);
    mask (Z.shiftr (load4 b 15) 6); mask (Z.shiftr (load3 b 18) 3); mask (load3 b 21);
    mask (Z.shiftr (load4 b 23) 5); mask (Z.shiftr (load3 b 26) 2) ].
(** The limbs of 32 bytes, the last one with all the bits that are left. *)
Definition load12 (b : bytes) : limbs := load_low b ++ [Z.shiftr (load4 b 28) 7].
(** Those of 64 bytes. *)
Definition load24 (b : bytes) : limbs :=
  load_low b ++
  [ mask (Z.shiftr (load4 b 28) 7); mask (Z.shiftr (load4 b 31) 4); mask (Z.shiftr (load3 b 34) 1);
    mask (Z.shiftr (load4 b 36) 6); mask (Z.shiftr (load3 b 39) 3); mask (load3 b 42);
    mask (Z.shiftr (load4 b 44) 5); mask (Z.shiftr (load3 b 47) 2); mask (Z.shiftr (load4 b 49) 7);
    mask (Z.shiftr (load4 b 52) 4); mask (Z.shiftr (load3 b 55) 1); mask (Z.shiftr (load4 b 57) 6);
    Z.shiftr (load4 b 60) 3 ].

(** The product: [s_k = c_k + a_0 * b_k + ... + a_k * b_0], from left to right. *)
Definition product (a b c : limbs) (k : nat) : Z :=
  foldl (fun acc i => acc +! limb a i *! limb b (k - i)) (limb c k) (seq (k - 11) (min k 11 + 1 - (k - 11))).
Definition mul_add (a b c : limbs) : limbs := map (product a b c) (seq 0 23) ++ [0].

(** ** The operations *)
Inductive op :=
| R (i : nat)       (* carry, rounded: c = (s_i + (1 << 20)) >> 21; s_i+1 += c; s_i -= c << 21 *)
| F (i : nat)       (* carry: c = s_i >> 21 *)
| X (i : nat).      (* s_i-12 += s_i * 666643; ...; s_i = 0 *)

Definition carry_by (c : Z) (i : nat) (s : limbs) : limbs :=
  let s := <[S i := limb s (S i) +! c]> s in <[i := limb s i -! c <<! 21]> s.
(** What is folded: the limbs of [2^252] modulo the order. *)
Definition factors : list Z := [666643; 470296; 654183; -997805; 136657; -683901].
Definition fold_limb (i : nat) (s : limbs) : limbs :=
  let x := limb s i in
  let add j k s := <[j := limb s j +! x *! k]> s in
  let sub j k s := <[j := limb s j -! x *! k]> s in
  let s := add (i - 12)%nat 666643 s in
  let s := add (i - 11)%nat 470296 s in
  let s := add (i - 10)%nat 654183 s in
  let s := sub (i - 9)%nat 997805 s in
  let s := add (i - 8)%nat 136657 s in
  let s := sub (i - 7)%nat 683901 s in
  <[i := 0]> s.

Definition step (o : op) (s : limbs) : limbs :=
  match o with
  | R i => carry_by (Z.shiftr (limb s i +! Z.shiftl 1 20) 21) i s
  | F i => carry_by (Z.shiftr (limb s i) 21) i s
  | X i => fold_limb i s
  end.
Definition run (ops : list op) (s : limbs) : limbs := foldl (fun s o => step o s) s ops.

(** The carries of [ScMulAdd] after the product, and the sequence that both share. *)
Definition first_carries : list op :=
  [R 0; R 2; R 4; R 6; R 8; R 10; R 12; R 14; R 16; R 18; R 20; R 22;
   R 1; R 3; R 5; R 7; R 9; R 11; R 13; R 15; R 17; R 19; R 21].
Definition fold_high : list op := [X 23; X 22; X 21; X 20; X 19; X 18].
Definition middle_carries : list op := [R 6; R 8; R 10; R 12; R 14; R 16; R 7; R 9; R 11; R 13; R 15].
Definition fold_low : list op := [X 17; X 16; X 15; X 14; X 13; X 12].
Definition low_carries : list op := [R 0; R 2; R 4; R 6; R 8; R 10; R 1; R 3; R 5; R 7; R 9; R 11].
Definition to_twelve : list op := fold_high ++ middle_carries ++ fold_low ++ low_carries ++ [X 12].
Definition floor_carries : list op :=
  [F 0; F 1; F 2; F 3; F 4; F 5; F 6; F 7; F 8; F 9; F 10].
Definition reduce_ops : list op :=
  to_twelve ++ floor_carries ++ [F 11; X 12] ++ floor_carries.

(** The bytes of the twelve limbs. *)
Definition pack (s : limbs) : bytes :=
  let b1 i k := z2b (Z.shiftr (limb s i) k) in
  let b2 i k m := z2b (Z.lor (Z.shiftr (limb s i) k) (limb s (S i) <<! m)) in
  [ b1 0%nat 0; b1 0%nat 8; b2 0%nat 16 5; b1 1%nat 3; b1 1%nat 11; b2 1%nat 19 2; b1 2%nat 6; b2 2%nat 14 7;
    b1 3%nat 1; b1 3%nat 9; b2 3%nat 17 4; b1 4%nat 4; b1 4%nat 12; b2 4%nat 20 1; b1 5%nat 7; b2 5%nat 15 6;
    b1 6%nat 2; b1 6%nat 10; b2 6%nat 18 3; b1 7%nat 5; b1 7%nat 13; b1 8%nat 0; b1 8%nat 8; b2 8%nat 16 5;
    b1 9%nat 3; b1 9%nat 11; b2 9%nat 19 2; b1 10%nat 6; b2 10%nat 14 7; b1 11%nat 1; b1 11%nat 9; b1 11%nat 17 ].

(** [ScMulAdd]: [a * b + c]; [ScReduce]: 64 bytes. *)
Definition ScMulAdd (a b c : bytes) : bytes :=
  pack (run (first_carries ++ reduce_ops) (mul_add (load12 a) (load12 b) (load12 c))).
Definition ScReduce (s : bytes) : bytes := pack (run reduce_ops (load24 s)).

Example ScReduce_order : ScReduce (le_encode 64 (5 * ell + 7)) = le_encode 32 7.
Proof. vm_compute. reflexivity. Qed.
Example ScMulAdd_order : ScMulAdd (le_encode 32 (2 ^ 256 - 1)) (le_encode 32 (2 ^ 256 - 1)) (le_encode 32 (2 ^ 256 - 1))
  = le_encode 32 (((2 ^ 256 - 1) * 2 ^ 256) mod ell).
Proof. vm_compute. reflexivity. Qed.

(** ** The value of the limbs *)
Definition eval (s : limbs) : Z := foldr (fun x acc => x + 2 ^ 21 * acc) 0 s.

Lemma limb_insert s i j v : limb (<[i := v]> s) j = if decide (i = j /\ (i < length s)%nat) then v else limb s j.
Proof.
  unfold limb. rewrite !nth_lookup. destruct (decide _) as [[-> Hl]|Hn].
  - by rewrite list_lookup_insert_eq.
  - destruct (decide (i = j)) as [->|Hne]; [|by rewrite list_lookup_insert_ne].
    rewrite list_insert_ge; [done|]. lia.
Qed.

Lemma eval_insert s : forall i v, (i < length s)%nat ->
  eval (<[i := v]> s) = eval s + (v - limb s i) * 2 ^ (21 * Z.of_nat i).
Proof.
  induction s as [|x s IH]; intros [|i] v Hi; cbn in Hi; try lia.
  - unfold limb. cbn. lia.
  - cbn [eval insert list_insert foldr]. change (foldr _ 0 s) with (eval s).
    change (<[S i := v]> (x :: s)) with (x :: <[i := v]> s). cbn [foldr]. change (foldr _ 0 (<[i := v]> s)) with (eval (<[i := v]> s)).
    rewrite IH by lia. change (limb (x :: s) (S i)) with (limb s i).
    replace (21 * Z.of_nat (S i)) with (21 + 21 * Z.of_nat i) by lia. rewrite (Z.pow_add_r 2 21) by lia. ring.
Qed.

(** The factors are the limbs of [2 ^ 252 - ell]. *)
Lemma factors_value : eval factors = 2 ^ 252 - ell.
Proof. vm_compute. reflexivity. Qed.

(** ** Intervals *)
Definition interval : Type := Z * Z.
Definition within (b : interval) (x : Z) : Prop := b.1 <= x <= b.2.
Definition fits (b : interval) : bool := (- 2 ^ 63 <=? b.1) && (b.2 <? 2 ^ 63).
Definition iadd (a b : interval) : interval := (a.1 + b.1, a.2 + b.2).
Definition iscale (k : Z) (b : interval) : interval := if 0 <=? k then (k * b.1, k * b.2) else (k * b.2, k * b.1).
Definition ishift (b : interval) : interval := (Z.shiftr b.1 21, Z.shiftr b.2 21).
Definition ilimb (B : list interval) (i : nat) : interval := nth i B (0, 0).

(** What is known after an operation; [None] if an intermediate result may not fit. *)
Definition icarry (round : Z) (i : nat) (B : list interval) : option (list interval) :=
  let b := iadd (ilimb B i) (round, round) in
  let c := ishift b in
  let up := iadd (ilimb B (S i)) c in
  if fits b && fits (iscale (2 ^ 21) c) && fits up && (S i <? length B)%nat
  then Some (<[i := (- round, 2 ^ 21 - 1 - round)]> (<[S i := up]> B)) else None.
Definition iaccum (x : interval) (k : Z) (j : nat) (B : list interval) : option (list interval) :=
  let r := iadd (ilimb B j) (iscale k x) in
  if fits (iscale (Z.abs k) x) && fits r && (j <? length B)%nat then Some (<[j := r]> B) else None.
Definition ifold (i : nat) (B : list interval) : option (list interval) :=
  let x := ilimb B i in
  if (i <? 12)%nat || negb (i <? length B)%nat then None else
  B ← iaccum x 666643 (i - 12) B; B ← iaccum x 470296 (i - 11) B; B ← iaccum x 654183 (i - 10) B;
  B ← iaccum x (-997805) (i - 9) B; B ← iaccum x 136657 (i - 8) B; B ← iaccum x (-683901) (i - 7) B;
  Some (<[i := (0, 0)]> B).
Definition istep (o : op) (B : list interval) : option (list interval) :=
  match o with
  | R i => icarry (2 ^ 20) i B
  | F i => icarry 0 i B
  | X i => ifold i B
  end.
Fixpoint irun (ops : list op) (B : list interval) : option (list interval) :=
  match ops with [] => Some B | o :: ops => B ← istep o B; irun ops B end.

Abbreviation bounds := (Forall2 within).

Lemma fits_small b x : fits b = true -> within b x -> i64 x = x.
Proof. unfold fits, within. intros [H1 H2]%andb_true_iff Hx. b2p. apply i64_small. lia. Qed.
Lemma within_add a b x y : within a x -> within b y -> within (iadd a b) (x + y).
Proof. unfold within. cbn. lia. Qed.
Lemma within_scale k b x : within b x -> within (iscale k b) (x * k).
Proof. unfold within, iscale. destruct (0 <=? k) eqn:E; b2p; cbn; nia. Qed.
Lemma within_shift b x : within b x -> within (ishift b) (Z.shiftr x 21).
Proof. unfold within. cbn. rewrite !Z.shiftr_div_pow2 by lia. intros []. split; apply Z.div_le_mono; lia. Qed.
Lemma bounds_limb B s i : bounds B s -> within (ilimb B i) (limb s i).
Proof.
  intros H. unfold ilimb, limb. rewrite !nth_lookup.
  destruct (s !! i) as [x|] eqn:E; [|].
  - destruct (Forall2_lookup_r _ _ _ _ _ H E) as (b & -> & Hb). done.
  - apply Forall2_length in H. apply lookup_ge_None in E. rewrite lookup_ge_None_2 by lia. done.
Qed.
Lemma bounds_insert B s i b x : bounds B s -> within b x -> bounds (<[i := b]> B) (<[i := x]> s).
Proof. intros. by apply Forall2_insert. Qed.

(** ** The operations do what they say, and nothing wraps *)

Lemma limb_carry_spec round i B B' s :
  round = 0 \/ round = 2 ^ 20 -> bounds B s -> icarry round i B = Some B' ->
  exists c, Z.shiftr (limb s i +! round) 21 = c /\ bounds B' (carry_by c i s)
    /\ eval (carry_by c i s) = eval s.
Proof.
  intros Hr Hb E. unfold icarry in E.
  pose proof (bounds_limb B s i Hb) as Hi. pose proof (bounds_limb B s (S i) Hb) as Hsi.
  destruct (fits (iadd (ilimb B i) (round, round))) eqn:F1; [|done].
  destruct (fits (iscale (2 ^ 21) _)) eqn:F2; [|done].
  destruct (fits (iadd (ilimb B (S i)) _)) eqn:F3; [|done].
  destruct (S i <? length B)%nat eqn:El; [|done]. cbn [andb] in E. injection E as <-.
  apply Nat.ltb_lt in El. pose proof (Forall2_length _ _ _ Hb) as Hlen.
  assert (Hrr : within (round, round) round) by (unfold within; cbn; lia).
  pose proof (within_add _ _ _ _ Hi Hrr) as H1. rewrite (fits_small _ _ F1 H1).
  set (c := Z.shiftr (limb s i + round) 21). exists c. split; [done|].
  pose proof (within_shift _ _ H1) as Hc. fold c in Hc.
  pose proof (within_add _ _ _ _ Hsi Hc) as Hup. unfold carry_by.
  rewrite (fits_small _ _ F3 Hup), limb_insert, decide_False by lia.
  rewrite shl_mul by lia. rewrite (fits_small _ _ F2 (within_scale (2 ^ 21) _ _ Hc)).
  assert (Hrem : - round <= limb s i - c * 2 ^ 21 <= 2 ^ 21 - 1 - round).
  { unfold c. rewrite Z.shiftr_div_pow2 by lia.
    pose proof (Z.div_mod (limb s i + round) (2 ^ 21) ltac:(lia)).
    pose proof (Z.mod_pos_bound (limb s i + round) (2 ^ 21) ltac:(lia)). lia. }
  rewrite i64_small by (destruct Hr; subst round; lia). split.
  - apply bounds_insert; [by apply bounds_insert|]. done.
  - rewrite !eval_insert by (rewrite ?length_insert; lia).
    rewrite limb_insert, decide_False by lia.
    replace (21 * Z.of_nat (S i)) with (21 + 21 * Z.of_nat i) by lia. rewrite (Z.pow_add_r 2 21) by lia. ring.
Qed.

(** One statement of a fold. *)
Lemma accum_add x k j B B' s v : 0 <= k -> bounds B s -> within x v -> iaccum x k j B = Some B' ->
  bounds B' (<[j := limb s j +! v *! k]> s)
  /\ eval (<[j := limb s j +! v *! k]> s) = eval s + v * k * 2 ^ (21 * Z.of_nat j).
Proof.
  intros Hk Hb Hv E. unfold iaccum in E. rewrite Z.abs_eq in E by done.
  destruct (fits (iscale k x)) eqn:F1; [|done]. destruct (fits (iadd _ _)) eqn:F2; [|done].
  destruct (j <? length B)%nat eqn:El; [|done]. cbn [andb] in E. injection E as <-.
  apply Nat.ltb_lt in El. pose proof (Forall2_length _ _ _ Hb) as Hlen.
  rewrite (fits_small _ _ F1 (within_scale k _ _ Hv)).
  pose proof (within_add _ _ _ _ (bounds_limb B s j Hb) (within_scale k _ _ Hv)) as Hr.
  rewrite (fits_small _ _ F2 Hr). split; [by apply bounds_insert|].
  rewrite eval_insert by lia. ring.
Qed.
Lemma accum_sub x k j B B' s v : 0 < k -> bounds B s -> within x v -> iaccum x (- k) j B = Some B' ->
  bounds B' (<[j := limb s j -! v *! k]> s)
  /\ eval (<[j := limb s j -! v *! k]> s) = eval s + v * (- k) * 2 ^ (21 * Z.of_nat j).
Proof.
  intros Hk Hb Hv E. unfold iaccum in E. rewrite Z.abs_neq, Z.opp_involutive in E by lia.
  destruct (fits (iscale k x)) eqn:F1; [|done]. destruct (fits (iadd _ _)) eqn:F2; [|done].
  destruct (j <? length B)%nat eqn:El; [|done]. cbn [andb] in E. injection E as <-.
  apply Nat.ltb_lt in El. pose proof (Forall2_length _ _ _ Hb) as Hlen.
  rewrite (fits_small _ _ F1 (within_scale k _ _ Hv)).
  pose proof (within_add _ _ _ _ (bounds_limb B s j Hb) (within_scale (- k) _ _ Hv)) as Hr.
  replace (limb s j + v * - k) with (limb s j - v * k) in Hr by ring.
  rewrite (fits_small _ _ F2 Hr). split; [by apply bounds_insert|].
  rewrite eval_insert by lia. ring.
Qed.
Lemma length_bounds B s : bounds B s -> length s = length B.
Proof. intros H. symmetry. by eapply Forall2_length. Qed.

Lemma fold_spec i B B' s : bounds B s -> ifold i B = Some B' ->
  bounds B' (fold_limb i s)
  /\ eval (fold_limb i s) = eval s - limb s i * ell * 2 ^ (21 * (Z.of_nat i - 12)).
Proof.
  intros Hb E. unfold ifold in E.
  destruct ((i <? 12)%nat || negb (i <? length B)%nat) eqn:Ei; [done|].
  apply orb_false_iff in Ei as [Ei El%negb_false_iff]. apply Nat.ltb_ge in Ei. apply Nat.ltb_lt in El.
  pose proof (bounds_limb B s i Hb) as Hx. set (x := limb s i) in *.
  destruct (iaccum (ilimb B i) 666643 (i - 12) B) as [B1|] eqn:E1; [|done]. cbn [mbind option_bind] in E.
  destruct (accum_add _ 666643 _ _ _ s x ltac:(lia) Hb Hx E1) as [Hb1 V1].
  set (s1 := <[(i - 12)%nat := _]> s) in *.
  destruct (iaccum (ilimb B i) 470296 (i - 11) B1) as [B2|] eqn:E2; [|done]. cbn [mbind option_bind] in E.
  destruct (accum_add _ 470296 _ _ _ s1 x ltac:(lia) Hb1 Hx E2) as [Hb2 V2].
  set (s2 := <[(i - 11)%nat := _]> s1) in *.
  destruct (iaccum (ilimb B i) 654183 (i - 10) B2) as [B3|] eqn:E3; [|done]. cbn [mbind option_bind] in E.
  destruct (accum_add _ 654183 _ _ _ s2 x ltac:(lia) Hb2 Hx E3) as [Hb3 V3].
  set (s3 := <[(i - 10)%nat := _]> s2) in *.
  destruct (iaccum (ilimb B i) (-997805) (i - 9) B3) as [B4|] eqn:E4; [|done]. cbn [mbind option_bind] in E.
  destruct (accum_sub _ 997805 _ _ _ s3 x ltac:(lia) Hb3 Hx E4) as [Hb4 V4].
  set (s4 := <[(i - 9)%nat := _]> s3) in *.
  destruct (iaccum (ilimb B i) 136657 (i - 8) B4) as [B5|] eqn:E5; [|done]. cbn [mbind option_bind] in E.
  destruct (accum_add _ 136657 _ _ _ s4 x ltac:(lia) Hb4 Hx E5) as [Hb5 V5].
  set (s5 := <[(i - 8)%nat := _]> s4) in *.
  destruct (iaccum (ilimb B i) (-683901) (i - 7) B5) as [B6|] eqn:E6; [|done]. cbn [mbind option_bind] in E.
  destruct (accum_sub _ 683901 _ _ _ s5 x ltac:(lia) Hb5 Hx E6) as [Hb6 V6].
  set (s6 := <[(i - 7)%nat := _]> s5) in *. injection E as <-.
  change (fold_limb i s) with (<[i := 0]> s6). split.
  - apply bounds_insert; [done|]. unfold within. cbn. lia.
  - assert (Hi : limb s6 i = x).
    { unfold s6, s5, s4, s3, s2, s1. rewrite !limb_insert, !decide_False by lia. done. }
    pose proof (length_bounds _ _ Hb). pose proof (length_bounds _ _ Hb6).
    assert (length B6 = length B).
    { rewrite <- (length_bounds _ _ Hb6). unfold s6, s5, s4, s3, s2, s1. rewrite !length_insert. lia. }
    rewrite eval_insert, Hi, V6, V5, V4, V3, V2, V1 by lia.
    set (m := 2 ^ (21 * (Z.of_nat i - 12))).
    assert (Hm : forall d, (d <= 12)%nat -> 2 ^ (21 * Z.of_nat (i - d)) = 2 ^ (21 * (12 - Z.of_nat d)) * m).
    { intros d Hd. unfold m. rewrite <- Z.pow_add_r by lia. f_equal. lia. }
    rewrite !Hm by lia. replace (2 ^ (21 * Z.of_nat i)) with (2 ^ 252 * m)
      by (unfold m; rewrite <- Z.pow_add_r by lia; f_equal; lia).
    pose proof factors_value as Hf. unfold factors, eval in Hf. cbn [foldr] in Hf.
    replace ell with (2 ^ 252 - (2 ^ 252 - ell)) by ring. rewrite <- Hf. clearbody m x. clear.
    repeat match goal with |- context [2 ^ ?e] =>
      match e with context [m] => fail 1 | _ => let v := eval vm_compute in (2 ^ e) in change (2 ^ e) with v end
    end. ring.
Qed.

Lemma step_spec o B B' s : bounds B s -> istep o B = Some B' ->
  bounds B' (step o s) /\ exists q, eval (step o s) = eval s - q * ell.
Proof.
  intros Hb E. destruct o as [i|i|i]; cbn [istep step] in *.
  - destruct (limb_carry_spec (2 ^ 20) i B B' s (or_intror eq_refl) Hb E) as (c & Ec & Hb' & Hv).
    change (Z.shiftl 1 20) with (2 ^ 20). rewrite Ec. split; [done|]. exists 0. lia.
  - destruct (limb_carry_spec 0 i B B' s (or_introl eq_refl) Hb E) as (c & Ec & Hb' & Hv).
    rewrite Z.add_0_r in Ec. unfold icarry in E.
    pose proof (bounds_limb B s i Hb) as Hi. destruct (fits (iadd (ilimb B i) (0, 0))) eqn:F; [|done].
    assert (Hf : i64 (limb s i) = limb s i).
    { apply (fits_small _ _ F). unfold within in *. cbn. lia. }
    rewrite Hf in Ec. rewrite Ec. split; [done|]. exists 0. lia.
  - destruct (fold_spec i B B' s Hb E) as [Hb' Hv]. split; [done|].
    exists (limb s i * 2 ^ (21 * (Z.of_nat i - 12))). rewrite Hv. ring.
Qed.

Lemma run_app ops1 ops2 s : run (ops1 ++ ops2) s = run ops2 (run ops1 s).
Proof. apply foldl_app. Qed.

(** A sequence of operations keeps the value modulo the order ... *)
Lemma run_spec ops : forall B B' s, bounds B s -> irun ops B = Some B' ->
  bounds B' (run ops s) /\ exists q, eval (run ops s) = eval s - q * ell.
Proof.
  induction ops as [|o ops IH]; intros B B' s Hb; cbn [irun run foldl].
  - intros [= <-]. split; [done|]. exists 0. cbn. lia.
  - destruct (istep o B) as [B1|] eqn:E; [|done]. cbn [mbind option_bind]. intros Hr.
    destruct (step_spec o B B1 s Hb E) as [Hb1 [q1 V1]].
    destruct (IH B1 B' (step o s) Hb1 Hr) as [Hb' [q2 V2]]. split; [done|].
    exists (q1 + q2). fold (run ops (step o s)). rewrite V2, V1. ring.
Qed.
(** ... and carries keep the value itself. *)
Definition is_carry (o : op) : bool := match o with X _ => false | _ => true end.
Lemma carries_spec ops : forall B B' s, forallb is_carry ops = true -> bounds B s -> irun ops B = Some B' ->
  eval (run ops s) = eval s.
Proof.
  induction ops as [|o ops IH]; intros B B' s Hc Hb; cbn [irun run foldl]; [done|].
  destruct (istep o B) as [B1|] eqn:E; [|done]. cbn [mbind option_bind]. intros Hr.
  cbn in Hc. apply andb_true_iff in Hc as [Ho Hc]. fold (run ops (step o s)).
  destruct (step_spec o B B1 s Hb E) as [Hb1 _]. rewrite (IH B1 B' (step o s) Hc Hb1 Hr).
  destruct o as [i|i|i]; [| |done]; cbn [istep step] in *.
  - destruct (limb_carry_spec (2 ^ 20) i B B1 s (or_intror eq_refl) Hb E) as (c & Ec & _ & Hv).
    change (Z.shiftl 1 20) with (2 ^ 20). by rewrite Ec.
  - destruct (limb_carry_spec 0 i B B1 s (or_introl eq_refl) Hb E) as (c & Ec & _ & Hv).
    rewrite Z.add_0_r in Ec. unfold icarry in E.
    pose proof (bounds_limb B s i Hb) as Hi. destruct (fits (iadd (ilimb B i) (0, 0))) eqn:F; [|done].
    assert (Hf : i64 (limb s i) = limb s i).
    { apply (fits_small _ _ F). unfold within in *. cbn. lia. }
    rewrite Hf in Ec. by rewrite Ec.
Qed.

(** ** The intervals of both functions *)
Definition loaded24 : list interval := replicate 23 (0, 2 ^ 21 - 1) ++ [(0, 2 ^ 29 - 1)].
Definition products : list interval := replicate 23 (0, 2 ^ 54) ++ [(0, 0)].
(** One interval for what both hand to [floor_carries]. *)
Definition reduced12 : list interval := Eval vm_compute in default [] (irun to_twelve loaded24).
Definition reduced12' : list interval := Eval vm_compute in default [] (irun (first_carries ++ to_twelve) products).

(** ** The bytes *)
Lemma i64_mod_byte a : i64 a mod 256 = a mod 256.
Proof. unfold i64, swrap. change (64 - 1) with 63. Z.div_mod_to_equations. lia. Qed.

(** A byte shared by two limbs. *)
Lemma shared_byte64 a h m :
  0 <= m <= 8 -> 0 <= a < 2 ^ m ->
  b2z (z2b (Z.lor a (h <<! m))) = a + 2 ^ m * (h mod 2 ^ (8 - m)).
Proof.
  intros Hm Ha. rewrite <- (shared_byte a h m Hm Ha). rewrite !b2z_z2b, !lor_mod_byte.
  by rewrite i64_mod_byte, i32_mod_byte.
Qed.

Lemma shr_range k n x : 0 <= n -> 0 <= k -> 0 <= x < 2 ^ (k + n) -> 0 <= Z.shiftr x k < 2 ^ n.
Proof.
  intros Hn Hk Hx. rewrite Z.shiftr_div_pow2 by lia. rewrite Z.pow_add_r in Hx by lia.
  split; [apply Z.div_pos; lia|apply Z.div_lt_upper_bound; lia].
Qed.
(** A limb whose middle is a single byte. *)
Lemma limb_split1 s h : 0 <= s ->
  h = h mod 2 ^ s + 2 ^ s * (Z.shiftr h s mod 256) + 2 ^ (s + 8) * Z.shiftr h (s + 8).
Proof.
  intros Hs. rewrite !Z.shiftr_div_pow2, !Z.pow_add_r by lia. rewrite <- !Z.div_div by lia.
  change (2 ^ 8) with 256. pose proof (Z.div_mod h (2 ^ s) ltac:(lia)) as H1.
  pose proof (Z.div_mod (h / 2 ^ s) 256 ltac:(lia)) as H2. nia.
Qed.

(** What a limb is in the end. *)
Definition digit (x : Z) : Prop := 0 <= x < 2 ^ 21.

Lemma pack_spec12 s0 s1 s2 s3 s4 s5 s6 s7 s8 s9 s10 s11 t :
  Forall digit [s0; s1; s2; s3; s4; s5; s6; s7; s8; s9; s10] -> 0 <= s11 < 2 ^ 25 ->
  le_decode (pack ([s0; s1; s2; s3; s4; s5; s6; s7; s8; s9; s10; s11] ++ t))
  = eval [s0; s1; s2; s3; s4; s5; s6; s7; s8; s9; s10; s11].
Proof.
  intros HF H11. repeat (apply Forall_cons in HF as [? HF]). clear HF. unfold digit in *.
  cbv beta iota zeta delta [pack]. cbn [limb nth app le_decode].
  rewrite !shared_byte64 by (try lia; apply shr_range; try lia; cbn; lia).
  rewrite !b2z_z2b. unfold eval. cbn [foldr].
  pose proof (limb_split 0 s0 ltac:(lia)). pose proof (limb_split 3 s1 ltac:(lia)).
  pose proof (limb_split1 6 s2 ltac:(lia)). pose proof (limb_split 1 s3 ltac:(lia)).
  pose proof (limb_split 4 s4 ltac:(lia)). pose proof (limb_split1 7 s5 ltac:(lia)).
  pose proof (limb_split 2 s6 ltac:(lia)). pose proof (limb_split1 5 s7 ltac:(lia)).
  pose proof (limb_split 0 s8 ltac:(lia)). pose proof (limb_split 3 s9 ltac:(lia)).
  pose proof (limb_split1 6 s10 ltac:(lia)). pose proof (limb_split 1 s11 ltac:(lia)).
  assert (E7 : Z.shiftr s7 13 mod 256 = Z.shiftr s7 13) by (apply Z.mod_small, (shr_range 13 8); lia).
  assert (E11 : Z.shiftr s11 17 mod 256 = Z.shiftr s11 17) by (apply Z.mod_small, (shr_range 17 8); lia).
  rewrite E7, E11.
  repeat match goal with
  | |- context [8 - ?m] => let v := eval vm_compute in (8 - m) in change (8 - m) with v
  | H : context [?s + 8] |- _ => let v := eval vm_compute in (s + 8) in change (s + 8) with v in H
  | H : context [?s + 16] |- _ => let v := eval vm_compute in (s + 16) in change (s + 16) with v in H
  end.
  rewrite !Z.mod_1_r in *. clear E7 E11. lia.
Qed.

(** ** The result of the reduction *)
Lemma eval_cons x s : eval (x :: s) = x + 2 ^ 21 * eval s.
Proof. reflexivity. Qed.
Lemma eval_app s t : eval (s ++ t) = eval s + 2 ^ (21 * Z.of_nat (length s)) * eval t.
Proof.
  induction s as [|x s IH]; [change (eval t = 0 + 1 * eval t); lia|]. cbn [app length].
  rewrite !eval_cons, IH. replace (21 * Z.of_nat (S (length s))) with (21 + 21 * Z.of_nat (length s)) by lia.
  rewrite (Z.pow_add_r 2 21) by lia. ring.
Qed.
Lemma eval_bounds B s : bounds B s -> eval (map fst B) <= eval s <= eval (map snd B).
Proof.
  induction 1 as [|b x B s [H1 H2] _ IH]; [done|]. cbn [map]. rewrite !eval_cons. lia.
Qed.
Lemma bounds_weaken B B' s :
  bounds B s -> forallb (fun bb => (bb.2.1 <=? bb.1.1) && (bb.1.2 <=? bb.2.2)) (zip B B') = true ->
  length B' = length B -> bounds B' s.
Proof.
  intros H. revert B'. induction H as [|b x B s [H1 H2] _ IH]; intros [|b' B'] Hz Hl; try done.
  cbn in Hz. apply andb_true_iff in Hz as [[]%andb_true_iff Hz]. b2p. constructor; [unfold within; lia|].
  apply IH; [done|cbn in Hl; lia].
Qed.

(** A list of 24 limbs in two halves. *)
Lemma bounds_halves B s : length B = 24%nat -> bounds B s ->
  exists lo hi, s = lo ++ hi /\ length lo = 12%nat /\ length hi = 12%nat
    /\ bounds (take 12 B) lo /\ bounds (drop 12 B) hi /\ eval s = eval lo + 2 ^ 252 * eval hi.
Proof.
  intros Hl Hb. pose proof (length_bounds _ _ Hb) as Hs.
  exists (take 12 s), (drop 12 s). rewrite length_take, length_drop. repeat split; try lia.
  - by rewrite take_drop.
  - by apply Forall2_take.
  - by apply Forall2_drop.
  - rewrite <- (take_drop 12 s) at 1. rewrite eval_app, length_take. by rewrite Hs, Hl.
Qed.
Lemma eval_zeros s : bounds (replicate (length s) (0, 0)) s -> eval s = 0.
Proof.
  intros H%eval_bounds. revert H. generalize (length s). intros n H.
  assert (E : forall f : interval -> Z, f (0, 0) = 0 -> eval (map f (replicate n (0, 0))) = 0).
  { intros f Hf. clear H. induction n as [|n IH]; [done|]. cbn [replicate map]. rewrite eval_cons, IH, Hf. done. }
  rewrite !E in H by done. lia.
Qed.

(** The rest of both functions, once twelve limbs are left. *)
Definition last_ops : list op := floor_carries ++ [F 11; X 12] ++ floor_carries.

Lemma ell_range : 2 ^ 252 < ell < 2 ^ 253.
Proof. split; reflexivity. Qed.
Lemma reduced_abs s : bounds reduced12' s -> - 2 ^ 252 < eval s < 2 ^ 252.
Proof.
  intros H%eval_bounds. assert (E : (- 2 ^ 252 <? eval (map fst reduced12')) && (eval (map snd reduced12') <? 2 ^ 252) = true)
    by (vm_compute; reflexivity). apply andb_true_iff in E as []. b2p. lia.
Qed.

(** The carries that leave digits, then the fold of what is above them, then carries
    again. *)
Definition digits12 : list interval := Eval vm_compute in default [] (irun (floor_carries ++ [F 11]) reduced12').
Definition folded12 : list interval := Eval vm_compute in default [] (irun [X 12] digits12).
Definition final12 : list interval := Eval vm_compute in default [] (irun floor_carries folded12).

Lemma fold_12_range s : bounds reduced12' s ->
  exists m, m = run [X 12] (run (floor_carries ++ [F 11]) s)
    /\ bounds folded12 m /\ 0 <= eval m < ell /\ exists q, eval m = eval s - q * ell.
Proof.
  intros Hb. eexists. split; [reflexivity|]. set (d := run (floor_carries ++ [F 11]) s).
  assert (Ed : irun (floor_carries ++ [F 11]) reduced12' = Some digits12) by (vm_compute; reflexivity).
  destruct (run_spec _ _ _ _ Hb Ed) as [Hd _]. fold d in Hd.
  pose proof (carries_spec (floor_carries ++ [F 11]) _ _ _ eq_refl Hb Ed) as Vd. fold d in Vd.
  assert (Em : ifold 12 digits12 = Some folded12) by (vm_compute; reflexivity).
  destruct (fold_spec 12 _ _ d Hd Em) as [Hm Vm]. change (run [X 12] d) with (fold_limb 12 d). split; [done|].
  change (2 ^ (21 * (Z.of_nat 12 - 12))) with 1 in Vm. rewrite Z.mul_1_r, Vd in Vm.
  split; [|by exists (limb d 12)].
  destruct (bounds_halves digits12 d eq_refl Hd) as (lo & hi & -> & Hlo & Hhi & Blo & Bhi & Ve).
  destruct hi as [|h hi]; [done|].
  assert (Hz : eval hi = 0).
  { apply eval_zeros. inversion Bhi as [|? ? ? ? _ Bz]; subst. cbn in Hhi. by replace (length hi) with 11%nat by lia. }
  assert (Eh : limb (lo ++ h :: hi) 12 = h) by (unfold limb; rewrite app_nth2, Hlo by lia; done).
  rewrite Eh in Vm. rewrite eval_cons, Hz, Z.mul_0_r, Z.add_0_r in Ve.
  assert (Hl : 0 <= eval lo < 2 ^ 252).
  { pose proof (eval_bounds _ _ Blo) as Hev.
    assert (E : (0 <=? eval (map fst (take 12 digits12))) && (eval (map snd (take 12 digits12)) <? 2 ^ 252) = true)
      by (vm_compute; reflexivity). apply andb_true_iff in E as []. b2p. lia. }
  pose proof (reduced_abs s Hb) as Ha. rewrite <- Vd, Ve in Ha.
  pose proof ell_range as Hell. assert (Hh : h = 0 \/ h = -1) by (clear - Ha Hl; lia). rewrite Vm, <- Vd, Ve. clear - Hh Hl Ha Hell. destruct Hh; subst h; lia.
Qed.

Lemma pack_final lo hi : length lo = 12%nat -> bounds (take 12 final12) lo -> 0 <= eval lo < 2 ^ 253 ->
  le_decode (pack (lo ++ hi)) = eval lo.
Proof.
  intros Hlo Hb Hv. unfold final12 in Hb. cbn [take] in Hb.
  repeat match goal with H : bounds _ _ |- _ => inversion H; clear H; subst end.
  assert (Hd : forall x, within (0, 2097151) x -> digit x) by (intros x []; cbn in *; unfold digit; lia).
  rewrite pack_spec12; [done| |].
  - repeat apply List.Forall_cons; try (apply Hd; assumption). constructor.
  - unfold eval in Hv. cbn [foldr] in Hv. unfold within in *. cbn [fst snd] in *. lia.
Qed.

Lemma reduce_pack s : bounds reduced12' s ->
  le_decode (pack (run last_ops s)) = eval s mod ell.
Proof.
  intros Hb. destruct (fold_12_range s Hb) as (m & Em & Hm & Hr & q & Hq).
  replace last_ops with ((floor_carries ++ [F 11]) ++ [X 12] ++ floor_carries) by reflexivity.
  rewrite (run_app (floor_carries ++ [F 11])), (run_app [X 12]), <- Em.
  assert (Ef : irun floor_carries folded12 = Some final12) by (vm_compute; reflexivity).
  destruct (run_spec _ _ _ _ Hm Ef) as [Hf _].
  pose proof (carries_spec floor_carries _ _ _ eq_refl Hm Ef) as Vf. set (f := run floor_carries m) in *.
  destruct (bounds_halves final12 f eq_refl Hf) as (lo & hi & -> & Hlo & Hhi & Blo & Bhi & Ve).
  assert (Hz : eval hi = 0) by (apply eval_zeros; rewrite Hhi; exact Bhi).
  rewrite Hz, Z.mul_0_r, Z.add_0_r, Vf in Ve.
  transitivity (eval lo); [|rewrite <- Ve; symmetry; rewrite Z.mod_eq by (vm_compute; done)].
  2:{ rewrite <- Z.mod_eq by (vm_compute; done). replace (eval s) with (eval m + q * ell) by lia.
      rewrite Z_mod_plus_full. by apply Z.mod_small. }
  apply (pack_final lo hi Hlo Blo). rewrite <- Ve. pose proof ell_range. lia.
Qed.

(** ** Loading *)
Lemma bt_decode b : forall i, bt b i = (le_decode b / 2 ^ (8 * Z.of_nat i)) mod 2 ^ 8.
Proof.
  induction b as [|x b IH]; intros i; [by destruct i; rewrite Z.div_0_l by lia|].
  cbn [le_decode]. pose proof (b2z_range x) as Hx. destruct i as [|i].
  - unfold bt. cbn [nth]. change (8 * Z.of_nat 0) with 0. rewrite Z.div_1_r. Z.div_mod_to_equations. lia.
  - change (bt (x :: b) (S i)) with (bt b i). rewrite IH.
    replace (8 * Z.of_nat (S i)) with (8 + 8 * Z.of_nat i) by lia. rewrite Z.pow_add_r by lia.
    rewrite <- (Z.div_div _ (2 ^ 8)) by lia. do 2 f_equal. Z.div_mod_to_equations. lia.
Qed.

(** A number cut at a place. *)
Lemma mod_mul_split v m k n : m = k + n -> 0 <= k -> 0 <= n -> v mod 2 ^ m = v mod 2 ^ k + 2 ^ k * ((v / 2 ^ k) mod 2 ^ n).
Proof. intros -> Hk Hn. rewrite Z.pow_add_r by lia. apply Z.rem_mul_r; lia. Qed.
Lemma div_shift v i k : v / 2 ^ (8 * Z.of_nat i) / 2 ^ (8 * Z.of_nat k) = v / 2 ^ (8 * Z.of_nat (i + k)).
Proof. rewrite Z.div_div, <- Z.pow_add_r by lia. do 2 f_equal. lia. Qed.

Lemma load3_decode b i : load3 b i = (le_decode b / 2 ^ (8 * Z.of_nat i)) mod 2 ^ 24.
Proof.
  destruct (load3_spec b i) as [-> _]. rewrite !bt_decode, <- !div_shift.
  set (v := le_decode b / _). rewrite (mod_mul_split v 24 8 16) by lia.
  rewrite (mod_mul_split (v / 2 ^ 8) 16 8 8), (Z.div_div v (2 ^ 8)) by lia.
  change (2 ^ (8 * Z.of_nat 2)) with (2 ^ 8 * 2 ^ 8). change (2 ^ (8 * Z.of_nat 1)) with (2 ^ 8).
  change (2 ^ 16) with (2 ^ 8 * 2 ^ 8). ring.
Qed.
Lemma load4_decode b i : load4 b i = (le_decode b / 2 ^ (8 * Z.of_nat i)) mod 2 ^ 32.
Proof.
  destruct (load4_spec b i) as [E4 _]. destruct (load3_spec b i) as [E3 _].
  rewrite E4, <- E3, load3_decode, bt_decode, <- div_shift.
  set (v := le_decode b / _). rewrite (mod_mul_split v 32 24 8) by lia. reflexivity.
Qed.

(** The limb at place [j] of a number. *)
Definition place (v : Z) (j : nat) : Z := (v / 2 ^ (21 * Z.of_nat j)) mod 2 ^ 21.

Lemma shiftr_mod v n k : 0 <= k <= n -> Z.shiftr (v mod 2 ^ n) k = (v / 2 ^ k) mod 2 ^ (n - k).
Proof.
  intros H. rewrite Z.shiftr_div_pow2 by lia. rewrite (mod_mul_split v n k (n - k)) by lia. rewrite (Z.mul_comm (2 ^ k)), Z.div_add by lia.
  rewrite (Z.div_small (v mod 2 ^ k)); [lia|]. apply Z.mod_pos_bound. lia.
Qed.
Lemma mask_mod v n : 21 <= n -> mask (v mod 2 ^ n) = v mod 2 ^ 21.
Proof.
  intros H. unfold mask. change 2097151 with (Z.ones 21). rewrite Z.land_comm, Z.land_ones by lia.
  replace n with (21 + (n - 21)) by lia. rewrite Z.pow_add_r, (Z.rem_mul_r v) by lia.
  rewrite (Z.mul_comm (2 ^ 21)), Z_mod_plus_full. apply Z.mod_mod. lia.
Qed.
Lemma mask_load3 b i k j : 0 <= k <= 3 -> 8 * Z.of_nat i + k = 21 * Z.of_nat j ->
  mask (Z.shiftr (load3 b i) k) = place (le_decode b) j.
Proof.
  intros Hk Hj. rewrite load3_decode, shiftr_mod, mask_mod, Z.div_div, <- Z.pow_add_r, Hj by lia. done.
Qed.
Lemma mask_load3_0 b i j : 8 * Z.of_nat i = 21 * Z.of_nat j -> mask (load3 b i) = place (le_decode b) j.
Proof. intros Hj. rewrite load3_decode, mask_mod, Hj by lia. done. Qed.
Lemma mask_load4 b i k j : 0 <= k <= 11 -> 8 * Z.of_nat i + k = 21 * Z.of_nat j ->
  mask (Z.shiftr (load4 b i) k) = place (le_decode b) j.
Proof.
  intros Hk Hj. rewrite load4_decode, shiftr_mod, mask_mod, Z.div_div, <- Z.pow_add_r, Hj by lia. done.
Qed.
Lemma top_load4 b i k j n : 0 <= k <= 32 -> 8 * Z.of_nat i + k = 21 * Z.of_nat j -> length b = (i + 4)%nat ->
  n = 32 - k -> Z.shiftr (load4 b i) k = le_decode b / 2 ^ (21 * Z.of_nat j) /\ 0 <= Z.shiftr (load4 b i) k < 2 ^ n.
Proof.
  intros Hk Hj Hl ->. rewrite load4_decode, shiftr_mod, Z.div_div, <- Z.pow_add_r, Hj by lia.
  pose proof (le_decode_range b) as Hr. unfold zlen in Hr. rewrite Hl in Hr.
  assert (E : 256 ^ Z.of_nat (i + 4) = 2 ^ (21 * Z.of_nat j) * 2 ^ (32 - k)).
  { change 256 with (2 ^ 8). rewrite <- Z.pow_mul_r, <- Z.pow_add_r by lia. f_equal. lia. }
  rewrite E in Hr. split; [|apply Z.mod_pos_bound; lia].
  apply Z.mod_small. split; [apply Z.div_pos; lia|]. apply Z.div_lt_upper_bound; lia.
Qed.

Lemma places_eval v n : eval (map (place v) (seq 0 n)) = v mod 2 ^ (21 * Z.of_nat n).
Proof.
  induction n as [|n IH]; [cbn; by rewrite Z.mod_1_r|].
  rewrite seq_S, map_app, eval_app, IH, length_map, length_seq. cbn [map Nat.add]. rewrite eval_cons.
  rewrite (mod_mul_split v (21 * Z.of_nat (S n)) (21 * Z.of_nat n) 21) by lia.
  unfold place. change (eval []) with 0. ring.
Qed.
Lemma load_low_places b : load_low b = map (place (le_decode b)) (seq 0 11).
Proof.
  unfold load_low. cbn [map seq].
  by rewrite !(mask_load3_0 b 0 0), !(mask_load3_0 b 21 8), !(mask_load4 b 2 5 1), !(mask_load3 b 5 2 2), !(mask_load4 b 7 7 3),
    !(mask_load4 b 10 4 4), !(mask_load3 b 13 1 5), !(mask_load4 b 15 6 6), !(mask_load3 b 18 3 7),
    !(mask_load4 b 23 5 9), !(mask_load3 b 26 2 10) by lia.
Qed.
Lemma top_eval v n : eval (map (place v) (seq 0 n) ++ [v / 2 ^ (21 * Z.of_nat n)]) = v.
Proof.
  rewrite eval_app, places_eval, length_map, length_seq, eval_cons. change (eval []) with 0.
  pose proof (Z.div_mod v (2 ^ (21 * Z.of_nat n)) ltac:(lia)). lia.
Qed.
Lemma place_digit v j : digit (place v j).
Proof. apply Z.mod_pos_bound. lia. Qed.
Lemma bounds_places v l (t : Z) n : 0 <= t < 2 ^ n ->
  bounds (replicate (length l) (0, 2 ^ 21 - 1) ++ [(0, 2 ^ n - 1)]) (map (place v) l ++ [t]).
Proof.
  intros Ht. induction l as [|j l IH]; cbn [length replicate map app].
  - constructor; [unfold within; cbn; lia|constructor].
  - constructor; [|exact IH]. pose proof (place_digit v j) as Hd. unfold digit in Hd. unfold within. cbn. lia.
Qed.

(** ** The limbs of 32 and of 64 bytes. *)
Definition loaded12 : list interval := replicate 11 (0, 2 ^ 21 - 1) ++ [(0, 2 ^ 25 - 1)].
Lemma load12_spec b : length b = 32%nat -> bounds loaded12 (load12 b) /\ eval (load12 b) = le_decode b.
Proof.
  intros Hl. unfold load12. destruct (top_load4 b 28 7 11 25 ltac:(lia) ltac:(lia) Hl eq_refl) as [E Hr].
  rewrite load_low_places. split; [exact (bounds_places _ (seq 0 11) _ 25 Hr)|]. rewrite E. exact (top_eval _ 11).
Qed.
Lemma load24_spec b : length b = 64%nat -> bounds loaded24 (load24 b) /\ eval (load24 b) = le_decode b.
Proof.
  intros Hl. destruct (top_load4 b 60 3 23 29 ltac:(lia) ltac:(lia) Hl eq_refl) as [E Hr].
  assert (El : load24 b = map (place (le_decode b)) (seq 0 23) ++ [Z.shiftr (load4 b 60) 3]).
  { unfold load24. rewrite load_low_places. change (seq 0 23) with (seq 0 11 ++ seq 11 12).
    rewrite map_app, <- app_assoc. f_equal. cbn [map seq app].
    by rewrite !(mask_load3_0 b 42 16), !(mask_load4 b 28 7 11), !(mask_load4 b 31 4 12), !(mask_load3 b 34 1 13), !(mask_load4 b 36 6 14),
      !(mask_load3 b 39 3 15), !(mask_load4 b 44 5 17), !(mask_load3 b 47 2 18), !(mask_load4 b 49 7 19),
      !(mask_load4 b 52 4 20), !(mask_load3 b 55 1 21), !(mask_load4 b 57 6 22) by lia. }
  rewrite El. split; [exact (bounds_places _ (seq 0 23) _ 29 Hr)|]. rewrite E. exact (top_eval _ 23).
Qed.

(** ** The product *)
Lemma product_foldl a b l k : forall acc,
  (forall i, 0 <= limb a i < 2 ^ 25) -> (forall i, 0 <= limb b i < 2 ^ 25) ->
  (length l <= 12)%nat -> 0 <= acc <= 2 ^ 54 - 2 ^ 50 * zlen l ->
  let r := foldl (fun acc i => acc +! limb a i *! limb b (k - i)) acc l in
  r = foldl (fun acc i => acc + limb a i * limb b (k - i)) acc l /\ 0 <= r <= 2 ^ 54.
Proof.
  induction l as [|i l IH]; intros acc Ha Hb Hl Hacc; cbn [foldl]; unfold zlen in Hacc; cbn [length] in *; [split; [done|lia]|].
  assert (Hp : 0 <= limb a i * limb b (k - i) <= 2 ^ 50) by (specialize (Ha i); specialize (Hb (k - i)%nat); nia).
  rewrite (i64_small (limb a i * _)), i64_small by lia. apply IH; [done..|lia|unfold zlen; lia].
Qed.
Lemma limb12_range b : length b = 32%nat -> forall i, 0 <= limb (load12 b) i < 2 ^ 25.
Proof.
  intros Hl i. destruct (load12_spec b Hl) as [Hb _]. pose proof (bounds_limb _ _ i Hb) as Hw.
  do 12 (destruct i as [|i]; [unfold within in Hw; cbn [ilimb nth loaded12 replicate app fst snd] in Hw; lia|]).
  unfold within, ilimb in Hw. cbn [loaded12 replicate app nth] in Hw.
  destruct i; cbn [fst snd] in Hw; lia.
Qed.
Lemma length12 b : length b = 32%nat -> length (load12 b) = 12%nat.
Proof. intros Hl. by destruct (load12_spec b Hl) as [?%length_bounds _]. Qed.

Definition exact_product (a b c : limbs) (k : nat) : Z :=
  foldl (fun acc i => acc + limb a i * limb b (k - i)) (limb c k) (seq (k - 11) (min k 11 + 1 - (k - 11))).
Lemma product_exact a b c k :
  (forall i, 0 <= limb a i < 2 ^ 25) -> (forall i, 0 <= limb b i < 2 ^ 25) -> (forall i, 0 <= limb c i < 2 ^ 25) ->
  (k < 23)%nat -> product a b c k = exact_product a b c k /\ 0 <= product a b c k <= 2 ^ 54.
Proof.
  intros Ha Hb Hc Hk. unfold product, exact_product. specialize (Hc k).
  destruct (product_foldl a b (seq (k - 11) (min k 11 + 1 - (k - 11))) k (limb c k) Ha Hb) as [E Hr];
    rewrite ?length_seq; unfold zlen; rewrite ?length_seq; by try lia.
Qed.

(** The convolution is the product of the values. *)
Lemma convolution a b c : length a = 12%nat -> length b = 12%nat -> length c = 12%nat ->
  eval (map (exact_product a b c) (seq 0 23)) = eval a * eval b + eval c.
Proof.
  intros Ha Hb Hc.
  do 12 (destruct a as [|? a]; [done|]). destruct a; [|done].
  do 12 (destruct b as [|? b]; [done|]). destruct b; [|done].
  do 12 (destruct c as [|? c]; [done|]). destruct c; [|done]. clear.
  cbn [map seq]. unfold exact_product, eval.
  cbn [Nat.sub Nat.min Nat.add seq foldl foldr limb nth]. ring.
Qed.

Lemma mul_add_spec a b c : length a = 32%nat -> length b = 32%nat -> length c = 32%nat ->
  bounds products (mul_add (load12 a) (load12 b) (load12 c))
  /\ eval (mul_add (load12 a) (load12 b) (load12 c)) = le_decode a * le_decode b + le_decode c.
Proof.
  intros Ha Hb Hc. unfold mul_add. split.
  - apply Forall2_app; [|constructor; [done|constructor]].
    apply Forall2_replicate_l; [by rewrite length_map, length_seq|]. apply Forall_forall. intros x Hx.
    apply list_elem_of_fmap in Hx as (k & -> & Hk%elem_of_seq).
    destruct (product_exact (load12 a) (load12 b) (load12 c) k) as [_ H]; [by apply limb12_range..|lia|].
    unfold within. cbn [fst snd]. lia.
  - rewrite eval_app. change (eval [0]) with 0. rewrite Z.mul_0_r, Z.add_0_r.
    destruct (load12_spec a Ha) as [_ <-], (load12_spec b Hb) as [_ <-], (load12_spec c Hc) as [_ <-].
    rewrite <- convolution by (by apply length12). f_equal. apply map_ext_in. intros k Hk%in_seq.
    apply product_exact; [by apply limb12_range..|lia].
Qed.

(** ** Both functions *)
Lemma irun_app o1 o2 B : irun (o1 ++ o2) B = irun o1 B ≫= irun o2.
Proof.
  revert B. induction o1 as [|o o1 IH]; intros B; [done|]. cbn [app irun].
  destruct (istep o B); [|done]. cbn [mbind option_bind]. apply IH.
Qed.
Lemma length_pack s : length (pack s) = 32%nat.
Proof. reflexivity. Qed.

(** Any sequence that leaves the twelve limbs in their intervals, and then the end. *)
Lemma reduced_bytes ops B s : bounds B s ->
  irun ops B = Some reduced12 \/ irun ops B = Some reduced12' ->
  pack (run (ops ++ last_ops) s) = le_encode 32 (eval s mod ell).
Proof.
  intros Hb Hr.
  assert (H : bounds reduced12' (run ops s) /\ exists q, eval (run ops s) = eval s - q * ell).
  { destruct Hr as [Hr|Hr]; destruct (run_spec _ _ _ _ Hb Hr) as [Hb' Hq]; (split; [|done]); [|done].
    by apply (bounds_weaken reduced12). }
  destruct H as [Hb' [q Hq]]. rewrite run_app.
  rewrite <- (le_encode_decode 32 (pack _) (length_pack _)). f_equal.
  rewrite (reduce_pack _ Hb'), Hq. replace (eval s - q * ell) with (eval s + (- q) * ell) by ring.
  apply Z_mod_plus_full.
Qed.

(** C35: [ScMulAdd] computes [a * b + c] and [ScReduce] a number of 64 bytes modulo the
    order of the base point, in canonical form: no limb of the long sequence of
    carries wraps around, and the result is the least residue. *)
Theorem scalar_arithmetic a b c s :
  length a = 32%nat -> length b = 32%nat -> length c = 32%nat -> length s = 64%nat ->
  ScMulAdd a b c = le_encode 32 ((le_decode a * le_decode b + le_decode c) mod ell)
  /\ ScReduce s = le_encode 32 (le_decode s mod ell).
Proof.
  intros Ha Hb Hc Hs. split.
  - destruct (mul_add_spec a b c Ha Hb Hc) as [Hbd <-]. unfold ScMulAdd.
    replace (first_carries ++ reduce_ops) with ((first_carries ++ to_twelve) ++ last_ops) by reflexivity.
    apply (reduced_bytes _ products _ Hbd). right. vm_compute. reflexivity.
  - destruct (load24_spec s Hs) as [Hbd <-]. unfold ScReduce, reduce_ops.
    apply (reduced_bytes _ loaded24 _ Hbd). left. vm_compute. reflexivity.
Qed.
End Scalar25519.

Lemma scalar_arithmetic_witness :
  let a := replicate 32 Byte.x07 in let s := replicate 64 Byte.xff in
  Scalar25519.ScMulAdd a a a
    = Field25519.le_encode 32 ((Field25519.le_decode a * Field25519.le_decode a + Field25519.le_decode a) mod Scalar25519.ell)%Z
  /\ Scalar25519.ScReduce s = Field25519.le_encode 32 (Field25519.le_decode s mod Scalar25519.ell)%Z.
Proof. apply (Scalar25519.scalar_arithmetic _ _ _ (replicate 64 Byte.xff)); reflexivity. Defined.
