(* ===== verification/ScalarMult25519.v ===== *)
(** * Scalar multiplication: [GeScalarMultBase] of [internal/edwards25519]

    The table [base] is checked against the group, entry by entry, on machine
    words; the selection and the signed digits are the number they were made
    of; so [GeScalarMultBase] computes the multiple of the base point. *)
From Bignums Require BigZ.
From S2P Require Import Prelude Field25519 Prime25519 Const25519 EdwardsCurve Edwards25519.
Import Field25519 Edwards25519.
#[local] Open Scope int_scope.

Module ScalarMult25519.

(** ** The table of precomputed points *)

(** Numbers modulo [p] on machine words. *)
Abbreviation num := BigZ.BigZ.t.
Abbreviation val := BigZ.BigZ.to_Z.
Definition of_Z (z : Z) : num := BigZ.BigZ.of_Z z.
Definition p_num : num := Eval vm_compute in BigZ.BigZ.of_Z p.
Definition d_num : num := Eval vm_compute in BigZ.BigZ.of_Z (eval Const25519.d).
Definition half_num : num := Eval vm_compute in BigZ.BigZ.of_Z ((p + 1) / 2).
Definition plus (a b : num) : num := BigZ.BigZ.add a b.
Definition minus (a b : num) : num := BigZ.BigZ.sub a b.
Definition mulm (a b : num) : num := BigZ.BigZ.modulo (BigZ.BigZ.mul a b) p_num.
Definition eqmb (a b : num) : bool := BigZ.BigZ.eqb (mulm (minus a b) BigZ.BigZ.one) BigZ.BigZ.zero.

Lemma val_plus a b : val (plus a b) = val a + val b.
Proof. apply BigZ.BigZ.spec_add. Qed.
Lemma val_minus a b : val (minus a b) = val a - val b.
Proof. apply BigZ.BigZ.spec_sub. Qed.
Lemma val_of_Z z : val (of_Z z) = z.
Proof. apply BigZ.BigZ.spec_of_Z. Qed.
Lemma val_mulm a b : val (mulm a b) == val a * val b.
Proof.
  unfold mulm. rewrite BigZ.BigZ.spec_modulo, BigZ.BigZ.spec_mul.
  replace (val p_num) with p by (by vm_compute). apply eqm_mod.
Qed.
Lemma val_d : val d_num = dd.
Proof. by vm_compute. Qed.
Lemma eqmb_true a b : eqmb a b = true -> val a == val b.
Proof.
  unfold eqmb. rewrite BigZ.BigZ.spec_eqb, Z.eqb_eq. intros H.
  pose proof (val_mulm (minus a b) BigZ.BigZ.one) as E. rewrite H, val_minus in E.
  change (val BigZ.BigZ.zero) with 0 in E. change (val BigZ.BigZ.one) with 1 in E.
  apply (eqm_lc1 (-1) _ _ _ _ E). ring.
Qed.

Definition evalm (f : FieldElement) : num :=
  let step k x acc := plus (of_Z x) (BigZ.BigZ.mul (of_Z (2 ^ k)) acc) in
  step 26 (e0 f) (step 25 (e1 f) (step 26 (e2 f) (step 25 (e3 f) (step 26 (e4 f)
  (step 25 (e5 f) (step 26 (e6 f) (step 25 (e7 f) (step 26 (e8 f) (of_Z (e9 f)))))))))).
Lemma val_evalm f : val (evalm f) = eval f.
Proof.
  unfold evalm, plus, of_Z. rewrite !BigZ.BigZ.spec_add, !BigZ.BigZ.spec_mul, !BigZ.BigZ.spec_of_Z.
  repeat (rewrite ?BigZ.BigZ.spec_add, ?BigZ.BigZ.spec_mul, ?BigZ.BigZ.spec_of_Z).
  unfold eval. ring.
Qed.

(** Points of such numbers. *)
Definition npoint : Type := num * num.
Definition pt (P : npoint) : point := (val (fst P), val (snd P)).

(** The affine point of a precomputed element. *)
Definition affine (q : PreComputedGroupElement) : npoint :=
  let a := evalm (yPlusX q) in let b := evalm (yMinusX q) in
  (mulm (minus a b) half_num, mulm (plus a b) half_num).

Definition boundedb (b : Z) (f : FieldElement) : bool :=
  forallb (fun '(c, x) => (- (c * b) <=? x) && (x <=? c * b))
    [(2, e0 f); (1, e1 f); (2, e2 f); (1, e3 f); (2, e4 f);
     (1, e5 f); (2, e6 f); (1, e7 f); (2, e8 f); (1, e9 f)].
Lemma boundedb_true b f : boundedb b f = true -> bounded b f.
Proof.
  unfold boundedb, bounded, bnd. cbn [forallb]. rewrite !andb_true_iff, !Z.leb_le. lia.
Qed.

(** Its three coordinates belong together. *)
Definition entry_ok (q : PreComputedGroupElement) : bool :=
  let '(x, y) := affine q in
  boundedb tight (yPlusX q) && boundedb tight (yMinusX q) && boundedb tight (xy2d q)
  && eqmb (evalm (yPlusX q)) (plus y x) && eqmb (evalm (yMinusX q)) (minus y x)
  && eqmb (evalm (xy2d q)) (mulm (plus d_num d_num) (mulm x y)).
Lemma entry_ok_spec q : entry_ok q = true -> pre_repr q (pt (affine q)).
Proof.
  unfold entry_ok, pt. destruct (affine q) as [x y] eqn:E. rewrite !andb_true_iff.
  intros (((((B1 & B2) & B3) & E1) & E2) & E3).
  apply eqmb_true in E1, E2, E3. rewrite val_evalm, val_plus in E1. rewrite val_evalm, val_minus in E2.
  rewrite val_evalm in E3.
  unfold pre_repr, repr. cbn [fst snd].
  split_and!; try by apply boundedb_true.
  - exact E1.
  - exact E2.
  - rewrite E3, val_mulm, val_mulm, val_plus, val_d. apply eqm_of_eq. ring.
Qed.

(** [R] is the sum of [P] and [Q]. *)
Definition is_sum (P Q R : npoint) : bool :=
  let '(x1, y1) := P in let '(x2, y2) := Q in let '(x3, y3) := R in
  let k := mulm (mulm d_num (mulm x1 x2)) (mulm y1 y2) in
  eqmb (mulm x3 (plus BigZ.BigZ.one k)) (plus (mulm x1 y2) (mulm y1 x2))
  && eqmb (mulm y3 (minus BigZ.BigZ.one k)) (plus (mulm y1 y2) (mulm x1 x2)).
Lemma is_sum_spec P Q R :
  on_curve (pt P) -> on_curve (pt Q) -> is_sum P Q R = true -> pt R ≃ add (pt P) (pt Q).
Proof.
  intros HP HQ H. destruct (add_spec _ _ HP HQ) as (Ex & Ey & Hp & Hm).
  destruct P as [x1 y1], Q as [x2 y2], R as [x3 y3]. unfold is_sum in H. cbv zeta in H.
  apply andb_true_iff in H as [H1 H2]. apply eqmb_true in H1, H2.
  set (kn := mulm (mulm d_num (mulm x1 x2)) (mulm y1 y2)) in *. unfold pt in *. cbn [fst snd] in *.
  set (k := dd * val x1 * val x2 * val y1 * val y2) in *.
  assert (Ek : val kn == k)
    by (unfold kn, k; rewrite !val_mulm, val_d; apply eqm_of_eq; ring).
  rewrite val_plus, val_mulm, val_plus, Ek, !val_mulm in H1.
  rewrite val_plus, val_mulm, val_minus, Ek, !val_mulm in H2.
  change (val BigZ.BigZ.one) with 1 in H1, H2.
  destruct (add _ _) as [X Y]. cbn [fst snd] in *. split; cbn [fst snd].
  - apply (eqm_cancel (1 + k)); [done|].
    apply (eqm_lc2 1 (-1) _ _ _ _ _ _ H1 Ex). ring.
  - apply (eqm_cancel (1 - k)); [done|].
    apply (eqm_lc2 1 (-1) _ _ _ _ _ _ H2 Ey). ring.
Qed.

(** Doubling in projective coordinates. *)
Definition triple : Type := num * num * num.
Definition triple_repr (t : triple) (P : point) : Prop :=
  let '(X, Y, Z) := t in
  exists z, nz z /\ val X == fst P * z /\ val Y == snd P * z /\ val Z == z.
Definition dbl (t : triple) : triple :=
  let '(X, Y, Z) := t in
  let XX := mulm X X in let YY := mulm Y Y in let ZZ := mulm Z Z in
  let XY := mulm X Y in
  let E := plus XY XY in
  let H := plus YY XX in
  let G := minus YY XX in
  let F := minus (plus ZZ ZZ) G in
  (mulm E F, mulm H G, mulm G F).
#[export] Instance triple_repr_proper t : Proper (peq ==> iff) (triple_repr t).
Proof.
  intros P Q [E F]. destruct t as [[X Y] W]. unfold triple_repr.
  split; intros (z & H); exists z; revert H; rewrite E, F; tauto.
Qed.
Lemma dbl_spec t P : triple_repr t P -> on_curve P -> triple_repr (dbl t) (add P P).
Proof.
  destruct t as [[X Y] Z]. intros (z & Hz & HX & HY & HZ) HP.
  destruct (double_spec P z HP Hz) as (Ex & Ey & Ng & Nf).
  unfold dbl. cbv zeta. set (g := (snd P * snd P - fst P * fst P) * (z * z)) in *.
  set (f := 2 * (z * z) - g) in *. set (G := minus (mulm Y Y) (mulm X X)).
  assert (EG : val G == g)
    by (unfold G; rewrite val_minus, !val_mulm, HX, HY; apply eqm_of_eq; unfold g; ring).
  assert (EF : val (minus (plus (mulm Z Z) (mulm Z Z)) G) == f)
    by (rewrite val_minus, val_plus, EG, val_mulm, HZ; apply eqm_of_eq; unfold f; ring).
  exists (g * f). split; [by apply nz_mul|]. rewrite !val_mulm, EF, EG, !val_plus, !val_mulm, HX, HY.
  split_and!.
  - apply (eqm_lc1 (- f) _ _ _ _ Ex). ring.
  - apply (eqm_lc1 (- g) _ _ _ _ Ey). ring.
  - done.
Qed.
Definition is_point (R : npoint) (t : triple) : bool :=
  let '(X, Y, Z) := t in eqmb (mulm (fst R) Z) X && eqmb (mulm (snd R) Z) Y.
Lemma is_point_spec R t P : triple_repr t P -> is_point R t = true -> pt R ≃ P.
Proof.
  destruct t as [[X Y] Z]. intros (z & Hz & RX & RY & RZ) H.
  apply andb_true_iff in H as [Hx Hy]. apply eqmb_true in Hx, Hy.
  rewrite val_mulm, RZ, RX in Hx. rewrite val_mulm, RZ, RY in Hy.
  split; (apply (eqm_cancel z); [done|]); [apply (eqm_lc1 1 _ _ _ _ Hx)|apply (eqm_lc1 1 _ _ _ _ Hy)];
    unfold pt; cbn [fst snd]; ring.
Qed.
Definition times_32 (P : npoint) : triple := Nat.iter 5 dbl (fst P, snd P, BigZ.BigZ.one).
Lemma iter_dbl_spec n t P :
  triple_repr t P -> on_curve P -> triple_repr (Nat.iter n dbl t) (zmul (2 ^ Z.of_nat n) P).
Proof.
  intros Ht HP. induction n as [|n IH].
  - change (2 ^ Z.of_nat 0) with 1. by rewrite zmul_1.
  - change (Nat.iter (S n) dbl t) with (dbl (Nat.iter n dbl t)).
    assert (E : zmul (2 ^ Z.of_nat (S n)) P ≃ add (zmul (2 ^ Z.of_nat n) P) (zmul (2 ^ Z.of_nat n) P)).
    { rewrite <- zmul_double, zmul_mul by auto with curve.
      by rewrite Nat2Z.inj_succ, Z.pow_succ_r by lia. }
    rewrite E. apply dbl_spec; auto with curve.
Qed.
Lemma affine_triple P : triple_repr (fst P, snd P, BigZ.BigZ.one) (pt P).
Proof.
  exists 1. split; [exact nz_1|]. unfold pt. cbn [fst snd].
  split_and!; apply eqm_of_eq; [ring|ring|reflexivity].
Qed.
Lemma times_32_spec P : on_curve (pt P) -> triple_repr (times_32 P) (zmul 32 (pt P)).
Proof. intros HP. apply (iter_dbl_spec 5); [apply affine_triple|done]. Qed.

(** Each point of a row is the sum of the one before and the first. *)
Fixpoint chain_ok (P0 P : npoint) (row : list PreComputedGroupElement) : bool :=
  match row with
  | [] => true
  | q :: row => entry_ok q && is_sum P P0 (affine q) && chain_ok P0 (affine q) row
  end.
(** The first point of a row is [h0]; that of the next row is [32] times the
    last of the eight. *)
Fixpoint table_ok (h0 : triple) (rows : list (list PreComputedGroupElement)) : bool :=
  match rows with
  | [] => true
  | [] :: _ => false
  | (q :: rest) :: rows =>
      entry_ok q && is_point (affine q) h0 && chain_ok (affine q) (affine q) rest
      && Nat.eqb (length rest) 7 && table_ok (times_32 (affine (nth 6 rest q))) rows
  end.

(** The base point: [y = 4/5], [x] even. *)
Definition B : point :=
  (15112221349535400772501151409588531511454012693041857206046113283949847762202,
   46316835694926478169428394003475163141307993866256225615783033603165251855960).

Lemma chain_ok_spec P0 n P row :
  on_curve (pt P0) -> pt P ≃ zmul (Z.of_nat n) (pt P0) -> chain_ok P0 P row = true ->
  forall i q, row !! i = Some q ->
  pre_repr q (pt (affine q)) /\ pt (affine q) ≃ zmul (Z.of_nat (n + i + 1)) (pt P0).
Proof.
  intros H0. revert n P. induction row as [|r row IH]; intros n P HP Hc i q Hi; [done|].
  cbn [chain_ok] in Hc. apply andb_true_iff in Hc as [Hc Hrow]. apply andb_true_iff in Hc as [He Hs].
  assert (HPc : on_curve (pt P)) by (rewrite HP; auto with curve).
  apply is_sum_spec in Hs; [|done..].
  assert (Hr : pt (affine r) ≃ zmul (Z.of_nat (n + 1)) (pt P0)).
  { rewrite Hs, HP, Nat2Z.inj_add, zmul_add by done. change (Z.of_nat 1) with 1. by rewrite zmul_1. }
  destruct i as [|i].
  - injection Hi as <-. rewrite Nat.add_0_r. split; [by apply entry_ok_spec|done].
  - replace (n + S i + 1)%nat with (n + 1 + i + 1)%nat by lia. by eapply IH.
Qed.

Lemma row_spec h0 P0 q rest :
  on_curve P0 -> triple_repr h0 P0 -> entry_ok q = true -> is_point (affine q) h0 = true ->
  chain_ok (affine q) (affine q) rest = true ->
  forall i r, (q :: rest) !! i = Some r ->
  pre_repr r (pt (affine r)) /\ pt (affine r) ≃ zmul (Z.of_nat i + 1) P0.
Proof.
  intros HP Hh He Hp Hc i r Hi. pose proof (is_point_spec _ _ _ Hh Hp) as Eq.
  destruct i as [|i].
  - injection Hi as <-. split; [by apply entry_ok_spec|]. by rewrite zmul_1.
  - assert (Hq : on_curve (pt (affine q))) by (by rewrite Eq).
    assert (E1 : pt (affine q) ≃ zmul (Z.of_nat 1) (pt (affine q))) by (by rewrite zmul_1).
    destruct (chain_ok_spec _ _ _ _ Hq E1 Hc i r Hi) as [Hr Er]. split; [done|].
    rewrite Er, Eq. by replace (Z.of_nat (1 + i + 1)) with (Z.of_nat (S i) + 1) by lia.
Qed.

Lemma table_ok_spec h0 P0 rows :
  on_curve P0 -> triple_repr h0 P0 -> table_ok h0 rows = true ->
  forall pos row i q, rows !! pos = Some row -> row !! i = Some q ->
  pre_repr q (zmul ((Z.of_nat i + 1) * 256 ^ Z.of_nat pos) P0).
Proof.
  revert h0 P0. induction rows as [|row rows IH]; intros h0 P0 HP Hh Ht pos row' i q Hrow Hi; [done|].
  destruct row as [|r rest]; [done|]. cbn [table_ok] in Ht.
  rewrite !andb_true_iff in Ht. destruct Ht as ((((He & Hp) & Hc) & Hl) & Ht).
  apply Nat.eqb_eq in Hl. pose proof (row_spec h0 P0 r rest HP Hh He Hp Hc) as Hr.
  destruct pos as [|pos].
  - injection Hrow as <-. change (256 ^ Z.of_nat 0) with 1. rewrite Z.mul_1_r.
    destruct (Hr i q Hi) as [Hq E]. by rewrite <- E.
  - destruct (lookup_lt_is_Some_2 rest 6 ltac:(lia)) as [l Hl6].
    destruct (Hr 7%nat l Hl6) as [_ El]. change (Z.of_nat 7 + 1) with 8 in El.
    assert (Hnl : nth 6 rest r = l) by (by apply nth_lookup_Some).
    rewrite Hnl in Ht. assert (HL : on_curve (pt (affine l))) by (rewrite El; auto with curve).
    pose proof (IH _ _ (zmul_on_curve 32 _ HL) (times_32_spec _ HL) Ht pos row' i q Hrow Hi) as H.
    rewrite El, !zmul_mul in H by auto with curve.
    rewrite Nat2Z.inj_succ, Z.pow_succ_r by lia.
    by replace ((Z.of_nat i + 1) * (256 * 256 ^ Z.of_nat pos))
      with ((Z.of_nat i + 1) * 256 ^ Z.of_nat pos * 32 * 8) by ring.
Qed.

Lemma B_on_curve : on_curve B.
Proof. apply eqm_iff. by vm_compute. Qed.
#[export] Hint Resolve B_on_curve : curve.

Lemma table_base : table_ok (of_Z (fst B), of_Z (snd B), BigZ.BigZ.one) Const25519.base = true.
Proof. vm_compute. reflexivity. Qed.

(** The table [base] holds in row [pos] and column [i] the point
    [(i + 1) * 256^pos * B], in the form [(y + x, y - x, 2 d x y)] with limbs a
    multiplication accepts. *)
Lemma base_at_spec pos i :
  (pos < 32)%nat -> (i < 8)%nat ->
  pre_repr (base_at pos i) (zmul ((Z.of_nat i + 1) * 256 ^ Z.of_nat pos) B).
Proof.
  intros Hp Hi. pose proof table_base as Ht.
  assert (HB : triple_repr (of_Z (fst B), of_Z (snd B), BigZ.BigZ.one) B).
  { exists 1. split; [exact nz_1|]. rewrite !val_of_Z. split_and!; apply eqm_of_eq; [ring..|reflexivity]. }
  destruct (lookup_lt_is_Some_2 Const25519.base pos ltac:(done)) as [row Hrow].
  assert (Hlen : Forall (fun r => length r = 8%nat) Const25519.base) by (by repeat constructor).
  pose proof (Forall_lookup_1 _ _ _ _ Hlen Hrow : length row = 8%nat) as Hl.
  destruct (lookup_lt_is_Some_2 row i ltac:(rewrite Hl; done)) as [q Hq].
  assert (E : base_at pos i = q).
  { unfold base_at. rewrite (nth_lookup_Some _ _ _ _ Hrow). by apply nth_lookup_Some. }
  rewrite E. by eapply table_ok_spec; [auto with curve|..].
Qed.

(** ** Selection *)

Lemma CMove_0 t u : PreComputedGroupElementCMove t u 0 = t.
Proof. unfold PreComputedGroupElementCMove. rewrite !FeCMove_spec by auto. by destruct t. Qed.
Lemma CMove_1 t u : PreComputedGroupElementCMove t u 1 = u.
Proof. unfold PreComputedGroupElementCMove. rewrite !FeCMove_spec by auto. by destruct u. Qed.

(** The digit picks an entry of the row, its negation, or the neutral element. *)
Definition selected (pos : nat) (b : Z) : PreComputedGroupElement :=
  if b =? 0 then Pre FeOne FeOne FeZero
  else if 0 <? b then base_at pos (Z.to_nat (b - 1))
  else let t := base_at pos (Z.to_nat (- b - 1)) in Pre (yMinusX t) (yPlusX t) (FeNeg (xy2d t)).

Ltac eval_select :=
  repeat match goal with
  | |- context [equal ?a ?b] => let v := eval vm_compute in (equal a b) in change (equal a b) with v
  | |- context [negative ?a] => let v := eval vm_compute in (negative a) in change (negative a) with v
  end; rewrite ?CMove_0, ?CMove_1.
Lemma selectPoint_eq pos b : -8 <= b <= 8 -> selectPoint pos b = selected pos b.
Proof.
  intros Hb. assert (Hk : exists k, (k < 17)%nat /\ b = Z.of_nat k - 8)
    by (exists (Z.to_nat (b + 8)); lia).
  destruct Hk as (k & Hk & E).
  do 17 (destruct k as [|k];
    [vm_compute in E; subst b; unfold selectPoint; cbv zeta; cbn [foldl seq]; eval_select; reflexivity|]).
  lia.
Qed.

Lemma PreZero_repr : pre_repr (Pre FeOne FeOne FeZero) O.
Proof.
  unfold pre_repr. cbn [yPlusX yMinusX xy2d fst snd O].
  split_and!; (eapply repr_eqm; [apply repr_one || apply repr_zero|apply eqm_of_eq; ring]).
Qed.
Lemma pre_neg q Q :
  pre_repr q Q -> pre_repr (Pre (yMinusX q) (yPlusX q) (FeNeg (xy2d q))) (neg Q).
Proof.
  intros (Hp & Hm & Ht). unfold pre_repr. cbn [yPlusX yMinusX xy2d neg fst snd]. split_and!.
  - eapply repr_eqm; [exact Hm|apply eqm_of_eq; ring].
  - eapply repr_eqm; [exact Hp|apply eqm_of_eq; ring].
  - eapply repr_eqm; [by apply repr_neg|apply eqm_of_eq; ring].
Qed.

Lemma selectPoint_spec pos b :
  (pos < 32)%nat -> -8 <= b <= 8 -> pre_repr (selectPoint pos b) (zmul (b * 256 ^ Z.of_nat pos) B).
Proof.
  intros Hp Hb. rewrite selectPoint_eq by done. unfold selected.
  destruct (Z.eqb_spec b 0) as [->|Hb0]; [exact PreZero_repr|].
  destruct (Z.ltb_spec 0 b).
  - pose proof (base_at_spec pos (Z.to_nat (b - 1)) Hp ltac:(lia)) as H1.
    by replace (Z.of_nat (Z.to_nat (b - 1)) + 1) with b in H1 by lia.
  - pose proof (base_at_spec pos (Z.to_nat (- b - 1)) Hp ltac:(lia)) as H1.
    apply pre_neg in H1. rewrite <- zmul_opp in H1 by auto with curve.
    rewrite Z2Nat.id in H1 by lia.
    by replace (- ((- b - 1 + 1) * 256 ^ Z.of_nat pos)) with (b * 256 ^ Z.of_nat pos) in H1 by ring.
Qed.

(** ** Digits *)

(** A list of digits in base 16, least significant first. *)
Definition digits_value (e : list Z) : Z := foldr (fun d acc => d + 16 * acc) 0 e.

Lemma digits_cons d e : digits_value (d :: e) = d + 16 * digits_value e.
Proof. reflexivity. Qed.

Lemma nibbles_spec a :
  digits_value (nibbles a) = le_decode a /\ length (nibbles a) = (2 * length a)%nat
  /\ Forall (fun d => 0 <= d <= 15) (nibbles a).
Proof.
  induction a as [|v a (IHv & IHl & IHd)]; [done|]. cbn [nibbles flat_map app].
  fold (nibbles a). pose proof (b2z_range v) as Hv.
  assert (Hl : forall x, Z.land x 15 = x mod 16) by (intros x; exact (Z.land_ones x 4 ltac:(done))).
  rewrite !Hl, Z.shiftr_div_pow2 by done. change (2 ^ 4) with 16.
  rewrite !i8_small by (Z.div_mod_to_equations; lia).
  split; [|split].
  - cbn [digits_value foldr le_decode]. fold (digits_value (nibbles a)). rewrite IHv.
    Z.div_mod_to_equations; lia.
  - cbn [length]. lia.
  - constructor; [|constructor; [|exact IHd]]; Z.div_mod_to_equations; lia.
Qed.

Lemma recode_cons c d e :
  e <> [] ->
  recode c (d :: e) = i8 (i8 (d + c) - i8 (Z.shiftl (Z.shiftr (i8 (i8 (d + c) + 8)) 4) 4))
                      :: recode (Z.shiftr (i8 (i8 (d + c) + 8)) 4) e.
Proof. by destruct e. Qed.
(** The carries keep the value and leave digits between -8 and 8. *)
Lemma recode_spec e c :
  e <> [] -> 0 <= c <= 1 -> Forall (fun d => 0 <= d <= 15) e -> List.last e 0 <= 7 ->
  digits_value (recode c e) = digits_value e + c /\ length (recode c e) = length e
  /\ Forall (fun d => -8 <= d <= 8) (recode c e).
Proof.
  revert c. induction e as [|d e IH]; intros c Hne Hc Hd Hl; [done|].
  apply Forall_cons in Hd as [Hd He]. destruct e as [|d' e].
  - cbn [recode List.last digits_value foldr length] in *. rewrite i8_small by lia.
    split; [lia|split; [done|]]. constructor; [lia|constructor].
  - rewrite recode_cons by done. rewrite (i8_small (d + c)), (i8_small (d + c + 8)) by lia.
    rewrite Z.shiftr_div_pow2, Z.shiftl_mul_pow2 by done. change (2 ^ 4) with 16.
    set (c' := (d + c + 8) / 16). assert (Hc' : 0 <= c' <= 1) by (unfold c'; Z.div_mod_to_equations; lia).
    assert (Hr : -8 <= d + c - c' * 16 <= 7) by (unfold c'; Z.div_mod_to_equations; lia).
    rewrite (i8_small (c' * 16)), i8_small by lia.
    destruct (IH c' ltac:(done) Hc' He Hl) as (Hv & Hlen & Hf).
    split; [|split].
    + rewrite digits_cons, (digits_cons d), Hv. lia.
    + cbn [length]. by f_equal.
    + constructor; [lia|exact Hf].
Qed.

(** ** The scalar multiple *)

(** [sum f l]: the digits at the positions [l], each times its weight. *)
Lemma add_digit_spec e h P i :
  ext_repr h P -> on_curve P -> (i < 64)%nat -> -8 <= nth i e 0 <= 8 ->
  ext_repr (add_digit e h i) (add P (zmul (nth i e 0 * 256 ^ Z.of_nat (i / 2)) B)).
Proof.
  intros Hh HP Hi Hd. unfold add_digit. apply ToExtended_spec, geMixedAdd_spec; auto with curve.
  apply selectPoint_spec; [|done]. apply Nat.Div0.div_lt_upper_bound; lia.
Qed.

Definition weight (e : list Z) (l : list nat) : Z :=
  foldr (fun i acc => nth i e 0 * 256 ^ Z.of_nat (i / 2) + acc) 0 l.
Lemma add_digits_spec e l h k :
  ext_repr h (zmul k B) -> Forall (fun d => -8 <= d <= 8) e ->
  Forall (fun i => (i < 64)%nat) l ->
  ext_repr (foldl (add_digit e) h l) (zmul (k + weight e l) B).
Proof.
  intros Hh He Hl. revert h k Hh. induction Hl as [|i l Hi Hl IH]; intros h k Hh; cbn [foldl weight foldr].
  - by rewrite Z.add_0_r.
  - rewrite Z.add_assoc. apply IH. rewrite zmul_add by auto with curve.
    apply add_digit_spec; auto with curve.
    rewrite Forall_forall in He. destruct (nth_in_or_default i e 0) as [H| ->]; [|lia].
    apply He. by apply list_elem_of_In.
Qed.

(** The odd positions, times 16, and the even ones make up the number. *)
Lemma weight_digits e :
  length e = 64%nat -> 16 * weight e odd_digits + weight e even_digits = digits_value e.
Proof.
  intros Hl. do 64 (destruct e as [|? e]; [done|]). destruct e; [|done].
  unfold odd_digits, even_digits. cbn [map seq weight foldr].
  repeat match goal with |- context [256 ^ Z.of_nat ?x] =>
    let v := eval vm_compute in (256 ^ Z.of_nat x) in change (256 ^ Z.of_nat x) with v end.
  cbn [nth Nat.mul Nat.add digits_value foldr]. ring.
Qed.

Lemma nibbles_last a v : List.last (nibbles (a ++ [v])) 0 = b2z v / 16.
Proof.
  unfold nibbles. rewrite flat_map_app. cbn [flat_map app].
  pose proof (b2z_range v).
  match goal with |- context [?l ++ [?x; ?y]] => change (l ++ [x; y]) with (l ++ [x] ++ [y]) end.
  rewrite app_assoc, last_last.
  change 15 with (Z.ones 4). rewrite Z.land_ones, Z.shiftr_div_pow2 by done. change (2 ^ 4) with 16.
  rewrite i8_small; Z.div_mod_to_equations; lia.
Qed.

(** The scalar as its signed digits. *)
Lemma recode_nibbles a v :
  length a = 31%nat -> b2z v <= 127 ->
  let e := recode 0 (nibbles (a ++ [v])) in
  digits_value e = le_decode (a ++ [v]) /\ length e = 64%nat /\ Forall (fun d => -8 <= d <= 8) e.
Proof.
  intros Hl Hv e. destruct (nibbles_spec (a ++ [v])) as (Nv & Nl & Nd).
  assert (Hlen : length (nibbles (a ++ [v])) = 64%nat) by (rewrite Nl, length_app; cbn; lia).
  destruct (recode_spec (nibbles (a ++ [v])) 0) as (Rv & Rl & Rd); [|lia|done| |].
  - intros E. by rewrite E in Hlen.
  - rewrite nibbles_last. pose proof (b2z_range v). Z.div_mod_to_equations. lia.
  - unfold e. by rewrite Rv, Rl, Nv, Z.add_0_r.
Qed.

Lemma GeScalarMultBase_repr a v :
  length a = 31%nat -> b2z v <= 127 ->
  ext_repr (GeScalarMultBase (a ++ [v])) (zmul (le_decode (a ++ [v])) B).
Proof.
  intros Hl Hv. destruct (recode_nibbles a v Hl Hv) as (Ev & El & Ed).
  unfold GeScalarMultBase. cbv zeta. set (e := recode 0 _) in *.
  assert (H0 : ext_repr ExtendedZero (zmul 0 B)).
  { exists 1. split; [exact nz_1|]. split_and!; apply repr_zero || apply repr_one. }
  apply (add_digits_spec e odd_digits) in H0; [|done|by apply (bool_decide_unpack _)].
  apply times_16_spec in H0; [|auto with curve]. rewrite zmul_mul in H0 by auto with curve.
  apply (add_digits_spec e even_digits) in H0; [|done|by apply (bool_decide_unpack _)].
  by rewrite Z.add_0_l, weight_digits, Ev in H0.
Qed.

(** ** Encodings of points *)

(** The little-endian [y], with the sign of [x] in the highest bit. *)
Definition encode_point (P : point) : bytes :=
  alter (fun b => z2b (Z.lxor (b2z b) (Z.shiftl ((fst P mod p) mod 2) 7))) 31%nat
    (le_encode 32 (snd P mod p)).

Lemma coords_ToBytes_spec X Y W P z :
  nz z -> repr tight X (fst P * z) -> repr tight Y (snd P * z) -> repr tight W z ->
  coords_ToBytes X Y W = encode_point P.
Proof.
  intros Hz RX RY RW. unfold coords_ToBytes, encode_point. cbv zeta.
  pose proof (repr_inv _ _ (tight_loose _ _ RW)) as RI.
  assert (RX' : repr tight (FeMul X (FeInvert W)) (fst P)).
  { eapply mul_tt; [by apply tight_loose..|]. apply (eqm_lc1 (fst P) _ _ _ _ (inv_spec z Hz)). ring. }
  assert (RY' : repr tight (FeMul Y (FeInvert W)) (snd P)).
  { eapply mul_tt; [by apply tight_loose..|]. apply (eqm_lc1 (snd P) _ _ _ _ (inv_spec z Hz)). ring. }
  destruct RX' as [BX EX]. apply eqm_iff in EX.
  by rewrite (to_bytes_repr _ _ _ RY'), FeIsNegative_spec, EX by (done || by apply (bounded_mono tight)).
Qed.

(** C5: [GeScalarMultBase] computes [a * B] in the group of the curve, for
    every scalar of 32 bytes whose highest bit is clear, and [ToBytes] writes
    the result as the canonical [y] and the sign of [x]. *)
Theorem scalar_mult_base a :
  length a = 32%nat -> b2z (List.last a Byte.x00) <= 127 ->
  let P := zmul (le_decode a) B in
  on_curve P /\ ext_repr (GeScalarMultBase a) P
  /\ ExtendedToBytes (GeScalarMultBase a) = encode_point P.
Proof.
  intros Hl Hv P. assert (H : ext_repr (GeScalarMultBase a) P).
  { unfold P. destruct (exists_last (l := a)) as (a' & v & ->); [by intros ->|].
    rewrite last_last in Hv. rewrite length_app in Hl. cbn in Hl.
    apply GeScalarMultBase_repr; [lia|done]. }
  split; [unfold P; auto with curve|split; [done|]].
  destruct H as (z & Hz & RX & RY & RZ & _). exact (coords_ToBytes_spec _ _ _ _ z Hz RX RY RZ).
Qed.

End ScalarMult25519.

Section witnesses.
Import ScalarMult25519.
Lemma scalar_mult_base_witness :
  let P := zmul (le_decode (replicate 32 Byte.x07)) B in
  on_curve P /\ ext_repr (GeScalarMultBase (replicate 32 Byte.x07)) P
  /\ ExtendedToBytes (GeScalarMultBase (replicate 32 Byte.x07)) = encode_point P.
Proof.
  apply (scalar_mult_base (replicate 32 Byte.x07)); [reflexivity|apply Z.leb_le; reflexivity].
Defined.
End witnesses.
