(* ===== verification/DoubleScalar25519.v ===== *)
(** * [a * A + b * B]: [slide] and [GeDoubleScalarMultVartime]

    The sliding window of [internal/edwards25519/edwards25519.go]: [slide] turns the
    bits of a scalar into signed odd digits below 16, in place; the digits are the
    number; so the sum of the two multiples comes out. *)
From S2P Require Import Prelude Field25519 Prime25519 Const25519 EdwardsCurve Edwards25519 Scalar25519 ScalarMult25519.
Import Field25519 Edwards25519 ScalarMult25519.
#[local] Open Scope int_scope.

Module DoubleScalar25519.

(** ** [slide] *)

(** [r[i] = int8(1 & (a[i>>3] >> uint(i&7)))]. *)
Definition bits (a : bytes) : list Z :=
  map (fun i => i8 (Z.land 1 (Z.shiftr (bt a (i / 8)) (Z.of_nat (i mod 8))))) (seq 0 256).

(** [for k := i + b; k < 256; k++]: the carry into the bits from [k] on; [n] is what is
    left of them. *)
Fixpoint carry_up (n : nat) (r : list Z) (k : nat) : list Z :=
  match n with
  | 0%nat => r
  | S n => if nth k r 0 =? 0 then <[k := 1]> r else carry_up n (<[k := 0]> r) (S k)
  end.

(** [for b := ...; b <= 6 && i+b < 256; b++], with [n] values of [b] left. *)
Fixpoint combine (n : nat) (r : list Z) (i b : nat) : list Z :=
  match n with
  | 0%nat => r
  | S n =>
    if negb (i + b <? 256)%nat then r else
    if nth (i + b) r 0 =? 0 then combine n r i (S b) else
    let t := i8 (Z.shiftl (nth (i + b) r 0) (Z.of_nat b)) in
    if i8 (nth i r 0 + t) <=? 15 then
      combine n (<[(i + b)%nat := 0]> (<[i := i8 (nth i r 0 + t)]> r)) i (S b)
    else if -15 <=? i8 (nth i r 0 - t) then
      combine n (carry_up (256 - (i + b)) (<[i := i8 (nth i r 0 - t)]> r) (i + b)) i (S b)
    else r
  end.
Definition slide_at (r : list Z) (i : nat) : list Z :=
  if negb (nth i r 0 =? 0) then combine 6 r i 1 else r.
Definition slide (a : bytes) : list Z := foldl slide_at (bits a) (seq 0 256).

(** ** [GeDoubleScalarMultVartime] *)

(** [Ai]: [A, 3A, 5A, ...], each from the one before. *)
Fixpoint odd_cached (n : nat) (A2 : ExtendedGroupElement) (c : CachedGroupElement) : list CachedGroupElement :=
  match n with
  | 0%nat => [c]
  | S n => c :: odd_cached n A2 (ToCached (ToExtended (geAdd A2 c)))
  end.
Definition odd_multiples (A : ExtendedGroupElement) : list CachedGroupElement :=
  odd_cached 7 (ToExtended (ExtendedDouble A)) (ToCached A).

Definition CachedZero : CachedGroupElement := Cached FeZero FeZero FeZero FeZero.
(** [&Ai[d/2]], [&bi[d/2]] for a positive digit. *)
Definition cached_at (Ai : list CachedGroupElement) (d : Z) : CachedGroupElement :=
  nth (Z.to_nat (Z.quot d 2)) Ai CachedZero.
Definition bi_at (d : Z) : PreComputedGroupElement :=
  nth (Z.to_nat (Z.quot d 2)) Const25519.bi PreComputedZero.

(** One turn of the loop. *)
Definition turn (aSlide bSlide : list Z) (Ai : list CachedGroupElement) (r : ProjectiveGroupElement) (i : nat)
    : ProjectiveGroupElement :=
  let t := ProjectiveDouble r in
  let da := nth i aSlide 0 in
  let t := if 0 <? da then geAdd (ToExtended t) (cached_at Ai da)
           else if da <? 0 then geSub (ToExtended t) (cached_at Ai (i8 (- da))) else t in
  let db := nth i bSlide 0 in
  let t := if 0 <? db then geMixedAdd (ToExtended t) (bi_at db)
           else if db <? 0 then geMixedSub (ToExtended t) (bi_at (i8 (- db))) else t in
  CompletedToProjective t.

(** The first loop: below the highest digit that is not zero; the second: [i] goes down to 0. *)
Fixpoint highest (aSlide bSlide : list Z) (n : nat) : nat :=
  match n with
  | 0%nat => 0%nat
  | S i => if negb (nth i aSlide 0 =? 0) || negb (nth i bSlide 0 =? 0) then S i else highest aSlide bSlide i
  end.
Fixpoint turns (aSlide bSlide : list Z) (Ai : list CachedGroupElement) (r : ProjectiveGroupElement) (n : nat)
    : ProjectiveGroupElement :=
  match n with
  | 0%nat => r
  | S i => turns aSlide bSlide Ai (turn aSlide bSlide Ai r i) i
  end.
Definition GeDoubleScalarMultVartime (a : bytes) (A : ExtendedGroupElement) (b : bytes) : ProjectiveGroupElement :=
  let aSlide := slide a in
  let bSlide := slide b in
  turns aSlide bSlide (odd_multiples A) ProjectiveZero (highest aSlide bSlide 256).

Example slide_87 : take 9 (slide (le_encode 32 87)) = [-9; 0; 0; 0; 0; 3; 0; 0; 0].
Proof. vm_compute. reflexivity. Qed.
Example slide_31 : take 7 (slide (le_encode 32 31)) = [-1; 0; 0; 0; 0; 1; 0].
Proof. vm_compute. reflexivity. Qed.

(** ** The digits are the number *)
Definition value (l : list Z) : Z := foldr (fun d acc => d + 2 * acc) 0 l.
Lemma value_cons d l : value (d :: l) = d + 2 * value l.
Proof. reflexivity. Qed.
Lemma value_app l m : value (l ++ m) = value l + 2 ^ zlen l * value m.
Proof.
  induction l as [|d l IH]; [change (value m = 0 + 1 * value m); lia|].
  cbn [app]. rewrite !value_cons, IH, zlen_cons, Z.pow_add_r by (unfold zlen; lia). ring.
Qed.

Definition bit (x : Z) : Prop := x = 0 \/ x = 1.
Definition final (x : Z) : Prop := x = 0 \/ (-15 <= x <= 15 /\ x mod 2 = 1).

Lemma bits_value l : Forall bit l -> 0 <= value l < 2 ^ zlen l.
Proof.
  induction 1 as [|x l Hx _ IH]; [done|]. rewrite value_cons, zlen_cons, Z.pow_add_r by (unfold zlen; lia).
  destruct Hx; subst x; lia.
Qed.

Lemma bits_spec a : length a = 32%nat -> Forall bit (bits a) /\ value (bits a) = le_decode a.
Proof.
  intros Hl.
  assert (E : forall i, i8 (Z.land 1 (Z.shiftr (bt a (i / 8)) (Z.of_nat (i mod 8))))
              = (le_decode a / 2 ^ Z.of_nat i) mod 2).
  { intros i. rewrite Scalar25519.bt_decode, Scalar25519.shiftr_mod
      by (pose proof (Nat.mod_upper_bound i 8); lia).
    rewrite Z.div_div, <- Z.pow_add_r by lia.
    replace (8 * Z.of_nat (i / 8) + Z.of_nat (i mod 8)) with (Z.of_nat i)
      by (pose proof (Nat.div_mod_eq i 8); lia).
    set (v := le_decode a / _). rewrite Z.land_comm. change 1 with (Z.ones 1). rewrite Z.land_ones by lia.
    pose proof (Nat.mod_upper_bound i 8).
    rewrite (Scalar25519.mod_mul_split v (8 - Z.of_nat (i mod 8)) 1 (7 - Z.of_nat (i mod 8))) by lia.
    rewrite (Z.mul_comm (2 ^ 1)), Z_mod_plus_full, Z.mod_mod by lia.
    change (2 ^ 1) with 2. pose proof (Z.mod_pos_bound v 2). unfold i8, swrap. change (2 ^ (8 - 1)) with 128.
    change (2 ^ 8) with 256. rewrite Z.mod_small; lia. }
  unfold bits. rewrite (map_ext _ _ E). split.
  - apply Forall_forall. intros x (i & -> & _)%list_elem_of_fmap. unfold bit.
    pose proof (Z.mod_pos_bound (le_decode a / 2 ^ Z.of_nat i) 2). lia.
  - assert (Hv : forall n, value (map (fun i => (le_decode a / 2 ^ Z.of_nat i) mod 2) (seq 0 n)) = le_decode a mod 2 ^ Z.of_nat n).
    { induction n as [|n IH]; [cbn; by rewrite Z.mod_1_r|].
      rewrite seq_S, map_app, value_app, IH. unfold zlen. rewrite length_map, length_seq. cbn [map Nat.add].
      rewrite value_cons. change (value []) with 0.
      rewrite (Scalar25519.mod_mul_split _ (Z.of_nat (S n)) (Z.of_nat n) 1) by lia. change (2 ^ 1) with 2. ring. }
    rewrite Hv. apply Z.mod_small. pose proof (le_decode_range a) as Hr. unfold zlen in Hr. rewrite Hl in Hr. exact Hr.
Qed.

(** ** The window *)

(** The carry on a list of bits. *)
Fixpoint inc (l : list Z) : list Z :=
  match l with
  | [] => []
  | x :: l => if x =? 0 then 1 :: l else 0 :: inc l
  end.
Lemma nth_shift (lo l : list Z) b : nth (length lo + b) (lo ++ l) 0 = nth b l 0.
Proof. rewrite app_nth2_plus. done. Qed.
Lemma insert_shift (lo l : list Z) b v : <[(length lo + b)%nat := v]> (lo ++ l) = lo ++ <[b := v]> l.
Proof. apply insert_app_r. Qed.
Lemma insert_front (lo l : list Z) v : <[length lo := v]> (lo ++ l) = lo ++ <[0%nat := v]> l.
Proof. rewrite <- (insert_shift lo l 0 v). by rewrite Nat.add_0_r. Qed.
Lemma nth_front (lo l : list Z) : nth (length lo) (lo ++ l) 0 = nth 0 l 0.
Proof. rewrite <- (nth_shift lo l 0). by rewrite Nat.add_0_r. Qed.
Lemma carry_up_inc l : forall lo, carry_up (length l) (lo ++ l) (length lo) = lo ++ inc l.
Proof.
  induction l as [|x l IH]; intros lo; [done|]. cbn [length carry_up inc].
  rewrite nth_front. cbn [nth]. destruct (x =? 0); rewrite insert_front; cbn [insert list_insert]; [done|].
  change (<[0%nat := 0]> (x :: l)) with (0 :: l).
  specialize (IH (lo ++ [0])). rewrite length_app, <- app_assoc, Nat.add_1_r in IH. rewrite <- app_assoc in IH.
  exact IH.
Qed.

(** [combine] at the head of what is left of the digits. *)
Fixpoint combine_head (n : nat) (l : list Z) (b : nat) : list Z :=
  match n with
  | 0%nat => l
  | S n =>
    if negb (b <? length l)%nat then l else
    if nth b l 0 =? 0 then combine_head n l (S b) else
    let t := i8 (Z.shiftl (nth b l 0) (Z.of_nat b)) in
    if i8 (nth 0 l 0 + t) <=? 15 then combine_head n (<[b := 0]> (<[0%nat := i8 (nth 0 l 0 + t)]> l)) (S b)
    else if -15 <=? i8 (nth 0 l 0 - t) then
      let l := <[0%nat := i8 (nth 0 l 0 - t)]> l in combine_head n (take b l ++ inc (drop b l)) (S b)
    else l
  end.
Lemma length_inc l : length (inc l) = length l.
Proof. induction l as [|x l IH]; [done|]. cbn. destruct (x =? 0); cbn; by rewrite ?IH. Qed.

Lemma combine_shift n : forall lo l b, (length lo + length l)%nat = 256%nat ->
  combine n (lo ++ l) (length lo) b = lo ++ combine_head n l b.
Proof.
  induction n as [|n IH]; intros lo l b Hl; [done|]. cbn [combine combine_head]. cbv zeta.
  rewrite nth_shift, nth_front, !insert_front.
  replace (length lo + b <? 256)%nat with (b <? length l)%nat
    by (destruct (Nat.ltb_spec b (length l)), (Nat.ltb_spec (length lo + b) 256); lia || done).
  destruct (b <? length l)%nat eqn:Eb; cbn [negb]; [|done]. apply Nat.ltb_lt in Eb.
  destruct (nth b l 0 =? 0); [by apply IH|].
  set (t := i8 (Z.shiftl _ _)). destruct (i8 (nth 0 l 0 + t) <=? 15).
  - rewrite insert_shift. apply IH. by rewrite !length_insert.
  - destruct (-15 <=? i8 (nth 0 l 0 - t)); [|done]. set (l1 := <[0%nat := i8 (nth 0 l 0 - t)]> l).
    assert (Hl1 : length l1 = length l) by apply length_insert.
    rewrite <- (take_drop b l1) at 1. rewrite app_assoc.
    replace (256 - (length lo + b))%nat with (length (drop b l1)) by (rewrite length_drop; lia).
    replace (length lo + b)%nat with (length (lo ++ take b l1)) by (rewrite length_app, length_take; lia).
    rewrite carry_up_inc, <- app_assoc. apply IH. rewrite length_app, length_inc, length_take, length_drop. lia.
Qed.

(** A digit between -15 and 15 takes no bit beyond the fourth. *)
Lemma combine_stop n : forall x l b, (5 <= b)%nat -> (n + b <= 7)%nat -> x <> 0 -> -15 <= x <= 15 -> Forall bit l ->
  combine_head n (x :: l) b = x :: l.
Proof.
  induction n as [|n IH]; intros x l b Hb Hn H0 Hx Hl; [done|]. cbn [combine_head length]. cbv zeta.
  destruct (b <? S (length l))%nat; cbn [negb]; [|done]. destruct b as [|b]; [lia|]. cbn [nth].
  destruct (Z.eqb_spec (nth b l 0) 0) as [|Hne]; [by apply IH; try lia|].
  assert (H1 : nth b l 0 = 1).
  { destruct (nth_in_or_default b l 0) as [Hin|]; [|done]. apply list_elem_of_In in Hin.
    rewrite Forall_forall in Hl. by destruct (Hl _ Hin). }
  rewrite H1. assert (Hbb : b = 4%nat \/ b = 5%nat) by lia.
  assert (Hs : forall z, -128 <= z < 128 -> i8 z = z) by (intros; by apply i8_small).
  destruct Hbb; subst b.
  - change (i8 (Z.shiftl 1 (Z.of_nat 5))) with 32. rewrite !Hs by lia.
    rewrite (proj2 (Z.leb_gt _ _)) by lia. rewrite (proj2 (Z.leb_gt _ _)) by lia. done.
  - change (i8 (Z.shiftl 1 (Z.of_nat 6))) with 64. rewrite !Hs by lia.
    rewrite (proj2 (Z.leb_gt _ _)) by lia. rewrite (proj2 (Z.leb_gt _ _)) by lia. done.
Qed.

(** Four bits are taken in, the last one as a carry. *)
Lemma combine_window n b1 b2 b3 b4 l : bit b1 -> bit b2 -> bit b3 -> bit b4 ->
  combine_head (4 + n) (1 :: b1 :: b2 :: b3 :: b4 :: l) 1
  = combine_head n (1 + 2 * b1 + 4 * b2 + 8 * b3 - 16 * b4 :: 0 :: 0 :: 0 :: 0 :: if b4 =? 0 then l else inc l) 5.
Proof. intros [-> | ->] [-> | ->] [-> | ->] [-> | ->]; reflexivity. Qed.

(** What is left stays below half its range, so that a carry finds a place. *)
Definition room (l : list Z) : Prop := 2 * value l <= 2 ^ zlen l.
Lemma inc_spec l : Forall bit l -> value l + 1 < 2 ^ zlen l -> Forall bit (inc l) /\ value (inc l) = value l + 1.
Proof.
  induction 1 as [|x l Hx Hl IH]; [intros H; vm_compute in H; discriminate|].
  rewrite zlen_cons, Z.pow_add_r, value_cons by (unfold zlen; lia). intros Hv. cbn [inc].
  destruct Hx; subst x; cbn [Z.eqb].
  - split; [constructor; [by right|done]|]. rewrite !value_cons. lia.
  - destruct IH as [Hb Hi]; [lia|]. split; [constructor; [by left|done]|]. rewrite !value_cons, Hi. lia.
Qed.

Record windowed (l l' : list Z) : Prop := {
  wd_digit : exists x hi, l' = x :: hi /\ final x /\ Forall bit hi /\ room hi;
  wd_length : length l' = length l;
  wd_value : value l' = value l
}.

(** The last digits: no window reaches beyond the end, and few cases are left. *)
Definition windowedb (l l' : list Z) : bool :=
  match l' with
  | [] => false
  | x :: hi =>
    (-15 <=? x) && (x <=? 15) && (x mod 2 =? 1) && forallb (fun y => (y =? 0) || (y =? 1)) hi
    && (2 * value hi <=? 2 ^ zlen hi) && (length l' =? length l)%nat && (value l' =? value l)
  end.
Lemma windowedb_true l l' : windowedb l l' = true -> windowed l l'.
Proof.
  destruct l' as [|x hi]; [done|]. unfold windowedb. rewrite !andb_true_iff. intros ((((((H1 & H2) & H3) & Hb) & Hr) & Hl) & Hv).
  apply Nat.eqb_eq in Hl. b2p. split; [|done|done]. exists x, hi. split; [done|split; [by right|split; [|done]]].
  apply Forall_forall. intros y Hy%list_elem_of_In. rewrite forallb_forall in Hb.
  apply Hb, orb_true_iff in Hy as [Hy|Hy]; b2p; [by left|by right].
Qed.
Lemma window_short hi : Forall bit hi -> (length hi <= 3)%nat ->
  windowed (1 :: hi) (combine_head 6 (1 :: hi) 1).
Proof.
  intros Hb Hl. apply windowedb_true.
  destruct hi as [|b1 [|b2 [|b3 [|b4 hi]]]]; [| | | |cbn in Hl; lia];
    repeat match goal with H : Forall bit (_ :: _) |- _ => apply Forall_cons in H as [[-> | ->] H] end; reflexivity.
Qed.

Lemma zlen_pow (x : Z) l : 2 ^ zlen (x :: l) = 2 * 2 ^ zlen l.
Proof. rewrite zlen_cons, Z.pow_add_r by (unfold zlen; lia). done. Qed.

Lemma window_spec hi : Forall bit hi -> room (1 :: hi) -> windowed (1 :: hi) (combine_head 6 (1 :: hi) 1).
Proof.
  intros Hb Hr. destruct (decide (length hi <= 3)%nat); [by apply window_short|].
  destruct hi as [|b1 [|b2 [|b3 [|b4 l]]]]; [cbn in *; lia..|].
  repeat (apply Forall_cons in Hb as [? Hb]). rewrite (combine_window 2) by done.
  unfold room in Hr. rewrite !zlen_pow, !value_cons in Hr. pose proof (bits_value l Hb) as Hv.
  assert (Hi : b4 <> 0 -> Forall bit (inc l) /\ value (inc l) = value l + 1 /\ 2 * (value l + 1) <= 2 ^ zlen l).
  { intros H4. assert (Hlt : 2 * value l + 1 < 2 ^ zlen l) by (unfold bit in *; lia).
    destruct l as [|x l]; [vm_compute in Hlt; discriminate|]. rewrite zlen_pow in Hlt.
    destruct (inc_spec (x :: l) Hb) as [H5 H6]; [rewrite zlen_pow; lia|]. rewrite zlen_pow. repeat split; try done; lia. }
  set (x := 1 + 2 * b1 + 4 * b2 + 8 * b3 - 16 * b4). set (tl := if b4 =? 0 then l else inc l).
  assert (Hx : x <> 0 /\ -15 <= x <= 15 /\ x mod 2 = 1).
  { unfold x, bit in *. split; [lia|split; [lia|]]. Z.div_mod_to_equations. lia. }
  assert (Ht : Forall bit tl /\ length tl = length l /\ value tl = value l + b4 /\ 2 * value tl <= 2 ^ zlen l).
  { unfold tl. destruct (Z.eqb_spec b4 0) as [->|H4]; [repeat split; [done|lia|unfold bit in *; lia]|].
    destruct (Hi H4) as (H5 & H6 & H7). rewrite length_inc. unfold bit in *. repeat split; [done|lia|lia]. }
  destruct Ht as (Htb & Htl & Htv & Htr).
  assert (Hz : Forall bit (0 :: 0 :: 0 :: 0 :: tl)) by (repeat (constructor; [by left|]); done).
  rewrite (combine_stop 2 x) by (try lia; apply Hx || done). split.
  - exists x, (0 :: 0 :: 0 :: 0 :: tl). split; [done|split; [right; apply Hx|split; [done|]]].
    unfold room. rewrite !zlen_pow, !value_cons. unfold zlen in *. rewrite Htl. lia.
  - cbn [length]. by rewrite Htl.
  - rewrite !value_cons, Htv. unfold x. lia.
Qed.

(** ** The whole of [slide] *)
Lemma slide_step lo x l : (length lo + S (length l))%nat = 256%nat -> bit x -> Forall bit l -> room (x :: l) ->
  exists y hi, slide_at (lo ++ x :: l) (length lo) = (lo ++ [y]) ++ hi /\ final y /\ Forall bit hi /\ room hi
    /\ length hi = length l /\ value (y :: hi) = value (x :: l).
Proof.
  intros Hl Hx Hb Hr. unfold slide_at. rewrite nth_front. cbn [nth]. destruct Hx; subst x; cbn [Z.eqb negb].
  - exists 0, l. rewrite <- app_assoc. unfold room in *. rewrite zlen_pow, value_cons in Hr.
    repeat split; try done; [by left|lia].
  - rewrite combine_shift by done. destruct (window_spec l Hb Hr) as [(y & hi & E & Hy & Hhi & Hroom) Hlen Hv].
    rewrite E in *. exists y, hi. rewrite <- app_assoc. cbn in Hlen. repeat split; try done. lia.
Qed.

Lemma slide_from l : forall lo, (length lo + length l)%nat = 256%nat -> Forall final lo -> Forall bit l -> room l ->
  let r := foldl slide_at (lo ++ l) (seq (length lo) (length l)) in
  Forall final r /\ length r = 256%nat /\ value r = value (lo ++ l).
Proof.
  remember (length l) as n eqn:En. revert l En. induction n as [|n IH]; intros l En lo Hl Hlo Hb Hr.
  - destruct l; [|done]. cbn [seq foldl]. rewrite app_nil_r. repeat split; [done|lia].
  - destruct l as [|x l]; [done|]. apply Forall_cons in Hb as [Hx Hb]. cbn [length] in *. cbn [seq foldl].
    destruct (slide_step lo x l ltac:(lia) Hx Hb Hr) as (y & hi & E & Hy & Hhi & Hroom & Hlen & Hv). rewrite E.
    destruct (IH hi ltac:(lia) (lo ++ [y])) as (F1 & F2 & F3); [rewrite length_app; cbn; lia|apply Forall_app; split; [done|by constructor]|done|done|].
    rewrite length_app, Nat.add_1_r in F1, F2, F3. split; [done|split; [done|]]. rewrite F3, <- app_assoc. cbn [app].
    by rewrite (value_app lo (y :: hi)), Hv, (value_app lo (x :: l)).
Qed.

Lemma slide_spec a : length a = 32%nat -> le_decode a < 2 ^ 255 ->
  Forall final (slide a) /\ length (slide a) = 256%nat /\ value (slide a) = le_decode a.
Proof.
  intros Hl Ha. destruct (bits_spec a Hl) as [Hb Hv].
  assert (Hlen : length (bits a) = 256%nat) by reflexivity.
  destruct (slide_from (bits a) [] ltac:(done) ltac:(constructor) Hb) as (F1 & F2 & F3).
  - unfold room, zlen. rewrite Hlen, Hv. change (Z.of_nat 256) with 256. lia.
  - unfold slide. rewrite Hlen in *. cbn [app length] in *. by rewrite <- Hv.
Qed.

(** ** The group operations *)
Lemma geSub_spec h q P Q :
  ext_repr h P -> cached_repr q Q -> on_curve P -> on_curve Q ->
  comp_repr (geSub h q) (add P (neg Q)).
Proof.
  intros (z & Hz & RX & RY & RZ & RT) (w & Hw & Rp & Rm & RW & Rt) HP HQ. unfold geSub. cbv zeta.
  assert (RC : repr tight (FeMul (hT2d q) (eT h)) (2 * dd * fst P * fst Q * snd P * snd Q * (z * w)))
    by (eapply mul_tt; [by apply tight_loose..|apply eqm_of_eq; ring]).
  assert (RD : repr tight (FeMul (eZ h) (hZ q)) (z * w))
    by (eapply mul_tt; [by apply tight_loose..|reflexivity]).
  apply (sum_spec (z * w)); [done|by apply neg_on_curve|by apply nz_mul|..]; unfold neg; cbn [fst snd].
  - eapply mul_tt; [eapply (add_loose tight tight _ _ _ _ _ RY RX); [done|reflexivity]
      |exact Rm|apply eqm_of_eq; ring].
  - eapply mul_tt; [eapply (sub_loose tight tight _ _ _ _ _ RY RX); [done|reflexivity]
      |exact Rp|apply eqm_of_eq; ring].
  - eapply (sub_loose (tight + tight) tight); [by apply repr_add|exact RC|done|apply eqm_of_eq; ring].
  - eapply (add_loose (tight + tight) tight); [by apply repr_add|exact RC|done|apply eqm_of_eq; ring].
Qed.
#[export] Instance cached_repr_proper h : Proper (peq ==> iff) (cached_repr h).
Proof.
  intros P Q [E F]. unfold cached_repr. split; intros (z & H); exists z; revert H; rewrite E, F; tauto.
Qed.
#[export] Instance proj_repr_proper h : Proper (peq ==> iff) (proj_repr h).
Proof.
  intros P Q [E F]. unfold proj_repr. split; intros (z & H); exists z; revert H; rewrite E, F; tauto.
Qed.

(** Sums of sums. *)
Lemma add_swap P Q R S : on_curve P -> on_curve Q -> on_curve R -> on_curve S ->
  add (add P Q) (add R S) ≃ add (add P R) (add Q S).
Proof.
  intros HP HQ HR HS. rewrite !add_assoc by auto with curve.
  rewrite <- (add_assoc Q R S), (add_comm Q R), add_assoc by auto with curve. reflexivity.
Qed.
Lemma double_and_add u v da db P Q : on_curve P -> on_curve Q ->
  let S := add (zmul u P) (zmul v Q) in
  add (add (add S S) (zmul da P)) (zmul db Q) ≃ add (zmul (da + 2 * u) P) (zmul (db + 2 * v) Q).
Proof.
  intros HP HQ S. unfold S. rewrite (add_swap (zmul u P)), <- !zmul_double by auto with curve.
  rewrite add_assoc, add_swap, !zmul_mul by auto with curve.
  rewrite (Z.add_comm da), (Z.add_comm db), <- !zmul_add by auto with curve. reflexivity.
Qed.

(** *** The odd multiples *)
Lemma odd_cached_spec P A2 n : forall c k i, on_curve P -> ext_repr A2 (zmul 2 P) -> cached_repr c (zmul k P) ->
  (i <= n)%nat -> cached_repr (nth i (odd_cached n A2 c) CachedZero) (zmul (k + 2 * Z.of_nat i) P).
Proof.
  induction n as [|n IH]; intros c k i HP H2 Hc Hi; destruct i as [|i]; cbn [odd_cached nth]; try lia;
    [by rewrite Z.add_0_r..|].
  replace (k + 2 * Z.of_nat (S i)) with (2 + k + 2 * Z.of_nat i) by lia. apply IH; [done|done| |lia].
  apply ToCached_spec, ToExtended_spec. rewrite zmul_add by done. apply geAdd_spec; auto with curve.
Qed.
Lemma odd_index d : 0 < d <= 15 -> d mod 2 = 1 -> Z.to_nat (Z.quot d 2) = Z.to_nat (d / 2) /\ (Z.to_nat (d / 2) <= 7)%nat
  /\ 1 + 2 * Z.of_nat (Z.to_nat (d / 2)) = d.
Proof. intros H1 H2. rewrite Z.quot_div_nonneg by lia. Z.div_mod_to_equations. lia. Qed.
Lemma cached_at_spec A P d : ext_repr A P -> on_curve P -> 0 < d <= 15 -> d mod 2 = 1 ->
  cached_repr (cached_at (odd_multiples A) d) (zmul d P).
Proof.
  intros HA HP Hd Ho. destruct (odd_index d Hd Ho) as (Ei & Hi & Ed). unfold cached_at. rewrite Ei. clear Ei.
  revert Hi Ed. generalize (Z.to_nat (d / 2)). intros j Hj <-. apply odd_cached_spec; [done| | |done].
  - apply ToExtended_spec. rewrite zmul_double by done. by apply ExtendedDouble_spec.
  - rewrite zmul_1. by apply ToCached_spec.
Qed.

(** The table [bi]. *)
Lemma chain_odd Q P0 row : on_curve Q -> forall P k, pt P0 ≃ zmul 2 Q -> pt P ≃ zmul k Q -> chain_ok P0 P row = true ->
  forall i q, row !! i = Some q -> pre_repr q (zmul (k + 2 * (Z.of_nat i + 1)) Q).
Proof.
  intros HQ. induction row as [|r row IH]; intros P k H0 HP Hc i q Hi; [done|].
  cbn [chain_ok] in Hc. apply andb_true_iff in Hc as [[He Hs]%andb_true_iff Hrow].
  apply is_sum_spec in Hs; [|rewrite HP; auto with curve|rewrite H0; auto with curve].
  assert (Hr : pt (affine r) ≃ zmul (k + 2) Q) by (rewrite Hs, HP, H0, zmul_add; auto with curve; reflexivity).
  destruct i as [|i].
  - injection Hi as <-. change (k + 2 * (Z.of_nat 0 + 1)) with (k + 2). rewrite <- Hr. by apply entry_ok_spec.
  - replace (k + 2 * (Z.of_nat (S i) + 1)) with (k + 2 + 2 * (Z.of_nat i + 1)) by lia. by eapply IH.
Qed.
Definition bi_0 : PreComputedGroupElement := nth 0 Const25519.bi PreComputedZero.
Lemma bi_checks :
  (is_point (affine bi_0) (of_Z (fst B), of_Z (snd B), BigZ.BigZ.one)
   && is_sum (affine bi_0) (affine bi_0) (affine (base_at 0 1))
   && entry_ok bi_0 && chain_ok (affine (base_at 0 1)) (affine bi_0) (tail Const25519.bi))%bool = true.
Proof. vm_compute. reflexivity. Qed.
Lemma bi_at_spec d : 0 < d <= 15 -> d mod 2 = 1 -> pre_repr (bi_at d) (zmul d B).
Proof.
  intros Hd Ho. destruct (odd_index d Hd Ho) as (Ei & Hi & Ed). unfold bi_at. rewrite Ei. clear Ei.
  revert Hi Ed. generalize (Z.to_nat (d / 2)). intros j Hj <-. pose proof bi_checks as Hc.
  apply andb_true_iff in Hc as [[[Hp Hs]%andb_true_iff He]%andb_true_iff Hc].
  assert (HB : triple_repr (of_Z (fst B), of_Z (snd B), BigZ.BigZ.one) B).
  { exists 1. split; [exact nz_1|]. rewrite !val_of_Z. split_and!; apply eqm_of_eq; [ring..|reflexivity]. }
  pose proof (is_point_spec _ _ _ HB Hp) as Hp0.
  apply is_sum_spec in Hs; [|rewrite Hp0; auto with curve..]. rewrite Hp0, <- zmul_double in Hs by auto with curve.
  destruct j as [|i].
  - change (1 + 2 * Z.of_nat 0) with 1. rewrite zmul_1, <- Hp0. by apply entry_ok_spec.
  - destruct (lookup_lt_is_Some_2 (tail Const25519.bi) i ltac:(cbn; lia)) as [q Hq].
    assert (Hp1 : pt (affine bi_0) ≃ zmul 1 B) by (by rewrite Hp0, zmul_1).
    pose proof (chain_odd B _ _ B_on_curve _ 1 Hs Hp1 Hc i q Hq) as H.
    change (nth (S i) Const25519.bi PreComputedZero) with (nth i (tail Const25519.bi) PreComputedZero).
    rewrite (nth_lookup_Some _ _ _ _ Hq). by replace (1 + 2 * Z.of_nat (S i)) with (1 + 2 * (Z.of_nat i + 1)) by lia.
Qed.

(** ** The loop *)
Lemma final_range d : final d -> d <> 0 -> -15 <= d <= 15 /\ d mod 2 = 1.
Proof. intros [|]; [done|done]. Qed.
Lemma final_neg d : final d -> d < 0 -> i8 (- d) = - d /\ 0 < - d <= 15 /\ (- d) mod 2 = 1.
Proof.
  intros Hf Hd. destruct (final_range d Hf ltac:(lia)) as [H1 H2]. rewrite i8_small by lia.
  repeat split; try lia. Z.div_mod_to_equations. lia.
Qed.
Lemma add_neg_zmul S d P : on_curve P -> add S (neg (zmul (- d) P)) ≃ add S (zmul d P).
Proof. intros HP. rewrite <- zmul_opp by done. by rewrite Z.opp_involutive. Qed.

(** One digit, of a cached multiple and of the table. *)
Lemma add_cached_spec A P t S d : ext_repr A P -> on_curve P -> comp_repr t S -> on_curve S -> final d ->
  let Ai := odd_multiples A in
  comp_repr (if 0 <? d then geAdd (ToExtended t) (cached_at Ai d)
             else if d <? 0 then geSub (ToExtended t) (cached_at Ai (i8 (- d))) else t) (add S (zmul d P)).
Proof.
  intros HA HP Ht HS Hd Ai. apply ToExtended_spec in Ht as He. destruct (Z.ltb_spec 0 d).
  - destruct (final_range d Hd ltac:(lia)). apply geAdd_spec; auto with curve. apply cached_at_spec; done || lia.
  - destruct (Z.ltb_spec d 0) as [Hn|].
    + destruct (final_neg d Hd Hn) as (-> & H1 & H2). rewrite <- add_neg_zmul by done.
      apply geSub_spec; auto with curve. by apply cached_at_spec.
    + replace d with 0 by lia. rewrite zmul_0. by rewrite add_O_r.
Qed.
Lemma add_mixed_spec t S d : comp_repr t S -> on_curve S -> final d ->
  comp_repr (if 0 <? d then geMixedAdd (ToExtended t) (bi_at d)
             else if d <? 0 then geMixedSub (ToExtended t) (bi_at (i8 (- d))) else t) (add S (zmul d B)).
Proof.
  intros Ht HS Hd. apply ToExtended_spec in Ht as He. destruct (Z.ltb_spec 0 d).
  - destruct (final_range d Hd ltac:(lia)). apply geMixedAdd_spec; auto with curve. apply bi_at_spec; done || lia.
  - destruct (Z.ltb_spec d 0) as [Hn|].
    + destruct (final_neg d Hd Hn) as (-> & H1 & H2). rewrite <- add_neg_zmul by auto with curve.
      apply geMixedSub_spec; auto with curve. by apply bi_at_spec.
    + replace d with 0 by lia. rewrite zmul_0. by rewrite add_O_r.
Qed.

Lemma final_nth l i : Forall final l -> final (nth i l 0).
Proof.
  intros H. destruct (nth_in_or_default i l 0) as [Hin| ->]; [|by left].
  rewrite Forall_forall in H. apply H. by apply list_elem_of_In.
Qed.
Lemma value_drop l i : (i < length l)%nat -> value (drop i l) = nth i l 0 + 2 * value (drop (S i) l).
Proof.
  revert i. induction l as [|x l IH]; intros [|i] Hi; cbn [length] in Hi; try lia.
  - rewrite drop_0. cbn [drop nth]. by rewrite drop_0.
  - cbn [drop nth]. apply IH. lia.
Qed.

Section Digits.
Context (P : point) (A : ExtendedGroupElement) (aS bS : list Z).
Context (HP : on_curve P) (HA : ext_repr A P).
Context (Fa : Forall final aS) (La : length aS = 256%nat) (Fb : Forall final bS) (Lb : length bS = 256%nat).
(** The sum the digits from [n] on stand for. *)
Definition upper (n : nat) : point := add (zmul (value (drop n aS)) P) (zmul (value (drop n bS)) B).

Lemma upper_on_curve n : on_curve (upper n).
Proof. unfold upper. auto with curve. Qed.

Lemma turn_spec r i : (i < 256)%nat -> proj_repr r (upper (S i)) ->
  proj_repr (turn aS bS (odd_multiples A) r i) (upper i).
Proof.
  intros Hi Hr. pose proof (upper_on_curve (S i)) as HU. unfold turn. cbv zeta.
  apply CompletedToProjective_spec. unfold upper. rewrite (value_drop aS i), (value_drop bS i) by lia.
  rewrite <- (double_and_add _ _ _ _ P B HP B_on_curve). cbv zeta. fold (upper (S i)).
  apply add_mixed_spec; [|auto with curve|by apply final_nth].
  apply add_cached_spec; [done|done| |auto with curve|by apply final_nth].
  by apply ProjectiveDouble_spec.
Qed.
Lemma turns_spec n : forall r, (n <= 256)%nat -> proj_repr r (upper n) ->
  proj_repr (turns aS bS (odd_multiples A) r n) (upper 0).
Proof.
  induction n as [|n IH]; intros r Hn Hr; [done|]. cbn [turns]. apply IH; [lia|]. apply turn_spec; [lia|done].
Qed.

(** Above the highest digit there is nothing. *)
Lemma highest_spec n : (n <= 256)%nat -> value (drop n aS) = 0 -> value (drop n bS) = 0 ->
  let h := highest aS bS n in (h <= n)%nat /\ value (drop h aS) = 0 /\ value (drop h bS) = 0.
Proof.
  induction n as [|n IH]; intros Hn Ha Hb; [done|]. cbn [highest].
  destruct (negb (nth n aS 0 =? 0) || negb (nth n bS 0 =? 0)) eqn:E; [done|].
  apply orb_false_iff in E as [Ea%negb_false_iff Eb%negb_false_iff]. b2p.
  destruct IH as (H1 & H2 & H3); [lia|rewrite value_drop, Ha by lia; lia|rewrite value_drop, Hb by lia; lia|].
  split; [lia|done].
Qed.
Lemma whole_loop : proj_repr (turns aS bS (odd_multiples A) ProjectiveZero (highest aS bS 256))
  (add (zmul (value aS) P) (zmul (value bS) B)).
Proof.
  assert (E : forall l : list Z, length l = 256%nat -> value (drop 256 l) = 0) by (intros l <-; by rewrite drop_all).
  destruct (highest_spec 256 ltac:(lia) (E aS La) (E bS Lb)) as (Hh & Ha & Hb).
  replace (add (zmul (value aS) P) (zmul (value bS) B)) with (upper 0) by (unfold upper; by rewrite !drop_0).
  apply turns_spec; [done|]. unfold upper. rewrite Ha, Hb, !zmul_0, add_O_r.
  exists 1. split; [exact nz_1|]. split_and!; apply repr_zero || apply repr_one.
Qed.
End Digits.

Lemma ProjectiveToBytes_spec h P : proj_repr h P -> ProjectiveToBytes h = encode_point P.
Proof. intros (z & Hz & RX & RY & RZ). exact (coords_ToBytes_spec _ _ _ _ z Hz RX RY RZ). Qed.

(** [GeDoubleScalarMultVartime] computes [a * A + b * B] for every point [A] of the curve and all
    scalars below [2 ^ 255], and [ToBytes] writes the sum: [slide] keeps the numbers, the two
    tables hold the odd multiples its digits select, and the loop starts above the highest digit
    of either. *)
Theorem double_scalar_mult a A P b :
  length a = 32%nat -> length b = 32%nat -> le_decode a < 2 ^ 255 -> le_decode b < 2 ^ 255 ->
  on_curve P -> ext_repr A P ->
  let S := add (zmul (le_decode a) P) (zmul (le_decode b) B) in
  on_curve S /\ proj_repr (GeDoubleScalarMultVartime a A b) S
  /\ ProjectiveToBytes (GeDoubleScalarMultVartime a A b) = encode_point S.
Proof.
  intros La Lb Ha Hb HP HA S.
  destruct (slide_spec a La Ha) as (Fa & Na & Va), (slide_spec b Lb Hb) as (Fb & Nb & Vb).
  assert (H : proj_repr (GeDoubleScalarMultVartime a A b) S).
  { unfold S, GeDoubleScalarMultVartime. cbv zeta. clear S. revert Fa Na Va Fb Nb Vb.
    generalize (slide a) (slide b). intros aS bS Fa Na <- Fb Nb <-.
    exact (whole_loop P A aS bS HP HA Fa Na Fb Nb). }
  split; [unfold S; auto with curve|split; [exact H|by apply ProjectiveToBytes_spec]].
Qed.
End DoubleScalar25519.

Section witnesses.
Import ScalarMult25519 DoubleScalar25519.
Lemma double_scalar_mult_witness :
  let a := replicate 32 Byte.x07 in
  let S := add (zmul (le_decode a) O) (zmul (le_decode a) B) in
  on_curve S /\ proj_repr (GeDoubleScalarMultVartime a ExtendedZero a) S
  /\ ProjectiveToBytes (GeDoubleScalarMultVartime a ExtendedZero a) = encode_point S.
Proof.
  apply (double_scalar_mult (replicate 32 Byte.x07) ExtendedZero O); try reflexivity.
  - apply O_on_curve.
  - exists 1. split; [exact nz_1|]. split_and!; apply repr_zero || apply repr_one.
Defined.
End witnesses.
