(* ===== verification/Elligator25519.v ===== *)
(** * Elligator 2: [internal/extra25519]

    [UnsafeBrokenScalarBaseMult] makes a curve25519 key pair with a uniform
    representative, [UnsafeBrokenRepresentativeToPublicKey] maps a
    representative back.  The second undoes the first, for every private key. *)
From S2P Require Import Prelude Field25519 Prime25519 Const25519 EdwardsCurve.
From S2P Require Import Edwards25519 ScalarMult25519.
From S2P Require Import Ntor.
Import Field25519 Edwards25519.
#[local] Open Scope int_scope.

Module Elligator25519.

(** ** Constants *)

Definition sqrtMinusAPlus2 : FieldElement :=
  Fe (-12222970) (-8312128) (-11511410) 9067497 (-15300785) (-241793) 25456130 14121551
     (-12187136) 3972024.
Definition sqrtMinusHalf : FieldElement :=
  Fe (-17256545) 3971863 28865457 (-1750208) 27359696 (-16640980) 12573105 1002827 (-163343)
     11073975.
Definition halfQMinus1Bytes : bytes :=
  z2b 0xf6 :: replicate 30 (z2b 0xff) ++ [z2b 0x3f].

(** ** Comparison of byte strings *)

(** One turn of the loop of [feBytesLE], on [int32] values. *)
Definition le_turn (a b : bytes) (st : Z * Z) (i : nat) : Z * Z :=
  let '(equalSoFar, greater) := st in
  let x := bt a i in
  let y := bt b i in
  let greater := Z.lor (Z.land (Z.lnot equalSoFar) greater)
                       (Z.land equalSoFar (Z.shiftr (x -' y) 31)) in
  (Z.land equalSoFar (Z.shiftr (Z.lxor x y -' 1) 31), greater).
Definition feBytesLE (a b : bytes) : Z :=
  let '(equalSoFar, greater) := foldl (le_turn a b) (-1, 0) (rev (seq 0 32)) in
  Z.land (Z.land (Z.lnot equalSoFar) 1) greater.

(** ** Powers *)

(** [q58(out, z)]: [out = z^((p-5)/8)]. *)
Definition q58 (z : FieldElement) : FieldElement :=
  let t1 := FeSquare z in
  let t1 := FeMul t1 z in
  let t1 := FeSquare t1 in
  let t2 := FeSquare t1 in
  let t2 := FeSquare t2 in
  let t2 := FeMul t2 t1 in
  let t1 := FeMul t2 z in
  let t2 := FeSquare t1 in
  let t2 := squarings 4 t2 in
  let t1 := FeMul t2 t1 in
  let t2 := FeSquare t1 in
  let t2 := squarings 9 t2 in
  let t2 := FeMul t2 t1 in
  let t3 := FeSquare t2 in
  let t3 := squarings 19 t3 in
  let t2 := FeMul t3 t2 in
  let t2 := FeSquare t2 in
  let t2 := squarings 9 t2 in
  let t1 := FeMul t2 t1 in
  let t2 := FeSquare t1 in
  let t2 := squarings 49 t2 in
  let t2 := FeMul t2 t1 in
  let t3 := FeSquare t2 in
  let t3 := squarings 99 t3 in
  let t2 := FeMul t3 t2 in
  let t2 := FeSquare t2 in
  let t2 := squarings 49 t2 in
  let t1 := FeMul t2 t1 in
  let t1 := FeSquare t1 in
  let t1 := FeSquare t1 in
  FeMul t1 z.

(** [chi(out, z)]: [out = z^((p-1)/2)]. *)
Definition chi (z : FieldElement) : FieldElement :=
  let t0 := FeSquare z in
  let t1 := FeMul t0 z in
  let t0 := FeSquare t1 in
  let t2 := FeSquare t0 in
  let t2 := FeSquare t2 in
  let t2 := FeMul t2 t0 in
  let t1 := FeMul t2 z in
  let t2 := FeSquare t1 in
  let t2 := squarings 4 t2 in
  let t1 := FeMul t2 t1 in
  let t2 := FeSquare t1 in
  let t2 := squarings 9 t2 in
  let t2 := FeMul t2 t1 in
  let t3 := FeSquare t2 in
  let t3 := squarings 19 t3 in
  let t2 := FeMul t3 t2 in
  let t2 := FeSquare t2 in
  let t2 := squarings 9 t2 in
  let t1 := FeMul t2 t1 in
  let t2 := FeSquare t1 in
  let t2 := squarings 49 t2 in
  let t2 := FeMul t2 t1 in
  let t3 := FeSquare t2 in
  let t3 := squarings 99 t3 in
  let t2 := FeMul t3 t2 in
  let t2 := FeSquare t2 in
  let t2 := squarings 49 t2 in
  let t1 := FeMul t2 t1 in
  let t1 := FeSquare t1 in
  let t1 := squarings 3 t1 in
  FeMul t1 t0.

(** ** A representative as a public key *)

(** [rr2[0]++]. *)
Definition incr0 (f : FieldElement) : FieldElement :=
  Fe (e0 f +' 1) (e1 f) (e2 f) (e3 f) (e4 f) (e5 f) (e6 f) (e7 f) (e8 f) (e9 f).

Definition UnsafeBrokenRepresentativeToPublicKey (representative : bytes) : bytes :=
  let rr2 := FeFromBytes representative in
  let rr2 := FeSquare2 rr2 in
  let rr2 := incr0 rr2 in
  let rr2 := FeInvert rr2 in
  let v := FeMul Const25519.A rr2 in
  let v := FeNeg v in
  let v2 := FeSquare v in
  let v3 := FeMul v v2 in
  let e := FeAdd v3 v in
  let v2 := FeMul v2 Const25519.A in
  let e := FeAdd v2 e in
  let e := chi e in
  let eBytes := (FeToBytes e).1 in
  let eIsMinus1 := Z.land (bt eBytes 1) 1 in
  let negV := FeNeg v in
  let v := FeCMove v negV eIsMinus1 in
  let v2 := FeCMove FeZero Const25519.A eIsMinus1 in
  let v := FeSub v v2 in
  (FeToBytes v).1.

(** ** A private key as a public key and a representative *)

Definition maskPrivateKey (k : bytes) : bytes :=
  alter (fun b => z2b (Z.lor (Z.land (b2z b) 127) 64)) 31%nat
    (alter (fun b => z2b (Z.land (b2z b) 248)) 0%nat k).

(** The coordinates [u], [v] on the Montgomery curve. *)
Definition toMontgomery (A : ExtendedGroupElement) : FieldElement * FieldElement :=
  let inv1 := FeSub (eZ A) (eY A) in
  let inv1 := FeMul inv1 (eX A) in
  let inv1 := FeInvert inv1 in
  let u := FeMul inv1 (eX A) in
  let t0 := FeAdd (eY A) (eZ A) in
  let u := FeMul u t0 in
  let v := FeMul t0 inv1 in
  let v := FeMul v (eZ A) in
  let v := FeMul v sqrtMinusAPlus2 in
  (u, v).

(** The end of both root computations: with [t0 = 2 r^2 m + n], [r] is
    multiplied by the square root of minus one unless [t0] is zero. *)
Definition correctRoot (r m n : FieldElement) : FieldElement :=
  let t0 := FeSquare r in
  let t0 := FeMul t0 m in
  let t0 := FeAdd t0 t0 in
  let t0 := FeAdd t0 n in
  let maybeSqrtM1 := FeCMove FeOne Const25519.SqrtM1 (FeIsNonZero t0).1 in
  FeMul r maybeSqrtM1.

(** The representative of [(u, v)], unless [-2u(u+A)] is no square. *)
Definition representativeOf (u v : FieldElement) : option FieldElement :=
  let b := FeAdd u Const25519.A in
  let b3 := FeSquare b in
  let b3 := FeMul b3 b in
  let c := FeSquare b3 in
  let b7 := FeMul c b in
  let b8 := FeMul b7 b in
  let c := FeMul b7 u in
  let c := q58 c in
  let chi := FeSquare c in
  let chi := FeSquare chi in
  let t0 := FeSquare u in
  let chi := FeMul chi t0 in
  let t0 := FeSquare b7 in
  let chi := FeMul chi t0 in
  let chi := FeNeg chi in
  let chiBytes := (FeToBytes chi).1 in
  if bt chiBytes 1 =? 255 then None
  else
    let r1 := FeMul c u in
    let r1 := FeMul r1 b3 in
    let r1 := FeMul r1 sqrtMinusHalf in
    let r1 := correctRoot r1 b u in
    let t0 := FeSquare c in
    let t0 := FeMul t0 c in
    let t0 := FeSquare t0 in
    let r := FeMul t0 c in
    let t0 := FeSquare u in
    let t0 := FeMul t0 u in
    let r := FeMul r t0 in
    let t0 := FeSquare b8 in
    let t0 := FeMul t0 b8 in
    let t0 := FeMul t0 b in
    let r := FeMul r t0 in
    let r := FeMul r sqrtMinusHalf in
    let r := correctRoot r u b in
    let vBytes := (FeToBytes v).1 in
    let vInSquareRootImage := feBytesLE vBytes halfQMinus1Bytes in
    Some (FeCMove r r1 vInSquareRootImage).

Definition UnsafeBrokenScalarBaseMult (privateKey : bytes) : option (bytes * bytes) :=
  let A := GeScalarMultBase (maskPrivateKey privateKey) in
  let '(u, v) := toMontgomery A in
  match representativeOf u v with
  | None => None
  | Some r => Some ((FeToBytes u).1, (FeToBytes r).1)
  end.

Lemma repr_q58 f z : repr loose f z -> repr tight (q58 f) (z ^ ((p - 5) / 8)).
Proof.
  intros Hz. assert (H1 : repr loose f (z ^ 1)) by (by rewrite Z.pow_1_r).
  cbv delta [q58]; cbv beta. run_chain.
  eapply repr_pow_mul; [eassumption|eassumption|done..].
Qed.
Lemma repr_chi f z : repr loose f z -> repr tight (chi f) (chi_spec z).
Proof.
  intros Hz. assert (H1 : repr loose f (z ^ 1)) by (by rewrite Z.pow_1_r).
  change (chi_spec z) with (z ^ ((p - 1) / 2)).
  cbv delta [chi]; cbv beta. run_chain.
  eapply repr_pow_mul; [eassumption|eassumption|done..].
Qed.

Lemma AA_repr : repr 243331 Const25519.A 486662.
Proof. split; [unfold bounded, bnd; cbn; lia|apply eqm_iff; by vm_compute]. Qed.
Definition ss : Z := eval sqrtMinusAPlus2.
Definition hh : Z := eval sqrtMinusHalf.
Lemma ss_repr : repr tight sqrtMinusAPlus2 ss.
Proof. apply repr_eval. unfold bounded, bnd, tight. cbn. lia. Qed.
Lemma hh_repr : repr tight sqrtMinusHalf hh.
Proof. apply repr_eval. unfold bounded, bnd, tight. cbn. lia. Qed.
Lemma ii_repr : repr tight Const25519.SqrtM1 ii.
Proof. apply repr_eval. unfold bounded, bnd, tight. cbn. lia. Qed.
(** [sqrtMinusAPlus2] is a square root of [-(486662 + 2)]; [sqrtMinusHalf] is
    none of [-1/2], which has none: it is one of [-SqrtM1/2]. *)
Lemma ss_square : ss * ss == - 486664.
Proof. apply eqm_iff. by vm_compute. Qed.
Lemma hh_square : 2 * (hh * hh) == - ii.
Proof. apply eqm_iff. by vm_compute. Qed.
Lemma dd_montgomery : dd * 486664 == - 486660.
Proof. apply eqm_iff. by vm_compute. Qed.
Lemma chi_A : chi_spec 486662 == -1.
Proof. apply chi_eval; [done|by vm_compute]. Qed.
#[global] Arguments ss : simpl never.
#[global] Arguments hh : simpl never.

(** ** The Montgomery curve [v^2 = u^3 + 486662 u^2 + u] *)

Definition mont_u (P : point) : Z := inv ((1 - snd P) * fst P) * fst P * (snd P + 1).
Definition mont_v (P : point) : Z := (snd P + 1) * inv ((1 - snd P) * fst P) * ss.

Lemma toMontgomery_spec A P :
  ext_repr A P -> repr tight (toMontgomery A).1 (mont_u P) /\ repr tight (toMontgomery A).2 (mont_v P).
Proof.
  intros (z & Hz & RX & RY & RZ & _). unfold toMontgomery. cbv zeta. cbn [fst snd].
  destruct P as [x y]. unfold mont_u, mont_v. cbn [fst snd] in *.
  assert (RI : repr tight (FeInvert (FeMul (FeSub (eZ A) (eY A)) (eX A)))
    (inv ((1 - y) * x) * (inv z * inv z))).
  { rewrite <- !inv_mul. eapply repr_eqm; [apply repr_inv, tight_loose, repr_mul|].
    - eapply (sub_loose tight tight); [exact RZ|exact RY|done|reflexivity].
    - apply tight_loose, RX.
    - apply inv_proper. apply eqm_of_eq. ring. }
  assert (RS : repr loose (FeAdd (eY A) (eZ A)) ((y + 1) * z))
    by (eapply (add_loose tight tight); [exact RY|exact RZ|done|apply eqm_of_eq; ring]).
  pose proof (inv_spec z Hz) as Ei. split.
  - eapply mul_tt; [apply tight_loose, repr_mul; apply tight_loose; [exact RI|exact RX]|exact RS|].
    transitivity (inv ((1 - y) * x) * x * (y + 1) * ((z * inv z) * (z * inv z)));
      [apply eqm_of_eq; ring|]. rewrite Ei. apply eqm_of_eq. ring.
  - eapply mul_tt; [apply tight_loose, repr_mul; apply tight_loose; [|exact RZ]|apply tight_loose, ss_repr|].
    + apply repr_mul; [exact RS|apply tight_loose, RI].
    + transitivity ((y + 1) * inv ((1 - y) * x) * ss * ((z * inv z) * (z * inv z)));
        [apply eqm_of_eq; ring|]. rewrite Ei. apply eqm_of_eq. ring.
Qed.

Lemma mont_u_0 P : fst P == 0 -> mont_u P == 0.
Proof. intros E. unfold mont_u. rewrite E, !Z.mul_0_r. done. Qed.

Lemma nz_1_dd : nz (1 + dd).
Proof. intros E%eqm_iff. by vm_compute in E. Qed.
Lemma nz_ss : nz ss.
Proof. intros E%eqm_iff. by vm_compute in E. Qed.
Lemma nz_1_minus_y x y : on_curve (x, y) -> nz x -> nz (1 - y).
Proof.
  unfold on_curve. intros H Hx E. assert (Ey : y == 1) by (apply (eqm_lc1 (-1) _ _ _ _ E); ring).
  rewrite Ey in H. apply Hx. apply eqm_square_0. apply (eqm_cancel (1 + dd)); [exact nz_1_dd|].
  apply (eqm_lc1 (-1) _ _ _ _ H). ring.
Qed.

(** A point with [x] not zero becomes one with [u], [v] not zero. *)
Lemma mont_curve P :
  on_curve P -> nz (fst P) ->
  let u := mont_u P in let v := mont_v P in
  v * v == u * (u * (u + 486662) + 1) /\ nz u /\ nz v.
Proof.
  intros H Hx. cbv zeta. destruct P as [x y]. cbn [fst snd] in Hx. pose proof (nz_1_minus_y x y H Hx) as Hy.
  pose proof (inv_spec ((1 - y) * x) ltac:(by apply nz_mul)) as Ei.
  unfold on_curve in H. unfold mont_u, mont_v. cbn [fst snd]. set (i := inv ((1 - y) * x)) in *.
  assert (Eu : i * x * (y + 1) * (1 - y) == y + 1) by (apply (eqm_lc1 (y + 1) _ _ _ _ Ei); ring).
  assert (Ev : (y + 1) * i * ss * (x * (1 - y)) == (y + 1) * ss)
    by (apply (eqm_lc1 ((y + 1) * ss) _ _ _ _ Ei); ring).
  assert (Hy1 : nz (y + 1)).
  { replace (y + 1) with (1 - - y) by ring. apply (nz_1_minus_y x); [|exact Hx].
    unfold on_curve. apply (eqm_lc1 1 _ _ _ _ H). ring. }
  assert (Hi : nz i) by (apply (nz_mul_r ((1 - y) * x)); rewrite Ei; exact nz_1).
  clearbody i. split; [|split; [apply nz_mul; [by apply nz_mul|done]|
    apply nz_mul; [by apply nz_mul|exact nz_ss]]].
  set (a := i * x * (y + 1)) in *. set (b := (y + 1) * i * ss) in *. clearbody a b.
  apply (eqm_cancel (x * x * ((1 - y) * (1 - y) * (1 - y)))); [by repeat apply nz_mul|].
  transitivity (b * (x * (1 - y)) * (b * (x * (1 - y))) * (1 - y)); [apply eqm_of_eq; ring|].
  transitivity (x * x * (a * (1 - y)) * (a * (1 - y) * (a * (1 - y) + 486662 * (1 - y))
    + (1 - y) * (1 - y))); [|apply eqm_of_eq; ring].
  rewrite Ev, Eu.
  transitivity ((y + 1) * (y + 1) * (1 - y) * (ss * ss)); [apply eqm_of_eq; ring|]. rewrite ss_square.
  apply (eqm_lc2 (486664 * (1 + y)) (x * x * (y * y) * (1 + y)) _ _ _ _ _ _ H dd_montgomery). ring.
Qed.


(** ** The two roots *)

(** The multiplier of [correctRoot]: one or the square root of minus one. *)
Lemma correctRoot_spec R r M m N n b :
  repr tight R r -> repr loose M m -> repr b N n -> 2 * tight + b <= loose ->
  repr tight (correctRoot R M N) (r * if (2 * (r * r * m) + n) mod p =? 0 then 1 else ii).
Proof.
  intros RR RM RN Hb. unfold correctRoot. cbv zeta.
  assert (RT : repr tight (FeMul (FeSquare R) M) (r * r * m))
    by (apply repr_mul; [apply tight_loose, repr_square, tight_loose, RR|exact RM]).
  assert (R0 : repr loose (FeAdd (FeAdd (FeMul (FeSquare R) M) (FeMul (FeSquare R) M)) N)
                 (2 * (r * r * m) + n)).
  { eapply (add_loose (tight + tight) b); [by apply repr_add|exact RN|lia|apply eqm_of_eq; ring]. }
  destruct R0 as [B0 E0]. apply eqm_iff in E0.
  rewrite (FeIsNonZero_spec _ B0), E0, FeCMove_spec by (case_match; auto).
  apply repr_mul; [by apply tight_loose|].
  destruct (_ =? 0); apply tight_loose; [apply repr_one|apply ii_repr].
Qed.

(** When [2 r^2 m] is [n] or [-n], the corrected root satisfies [2 r^2 m = -n]. *)
Lemma corrected_root r m n :
  (2 * (r * r * m)) * (2 * (r * r * m)) == n * n ->
  let s := r * if (2 * (r * r * m) + n) mod p =? 0 then 1 else ii in 2 * (s * s * m) + n == 0.
Proof.
  intros H. cbv zeta. destruct (Z.eqb_spec ((2 * (r * r * m) + n) mod p) 0) as [E|E].
  - apply eqm_0_iff in E. apply (eqm_lc1 1 _ _ _ _ E). ring.
  - apply eqm_squares in H as [H|H].
    + apply (eqm_lc2 (2 * (r * r * m)) (-1) _ _ _ _ _ _ ii_square H). ring.
    + exfalso. apply E, eqm_0_iff. apply (eqm_lc1 1 _ _ _ _ H). ring.
Qed.

(** ** Comparison *)

(** The signs that the shifts by 31 extract. *)
Lemma sign_byte d : -256 < d < 256 -> Z.shiftr d 31 = if d <? 0 then -1 else 0.
Proof.
  intros Hd. rewrite Z.shiftr_div_pow2 by done.
  destruct (Z.ltb_spec d 0); Z.div_mod_to_equations; lia.
Qed.

(** The state of the loop: still equal, or decided. *)
Lemma le_turn_equal a b i :
  le_turn a b (-1, 0) i =
    if bt a i <? bt b i then (0, -1) else if bt a i =? bt b i then (-1, 0) else (0, 0).
Proof.
  pose proof (b2z_range (nth i a Byte.x00)) as Ha. pose proof (b2z_range (nth i b Byte.x00)) as Hb.
  unfold le_turn. fold (bt a i) (bt b i) in Ha, Hb. cbv zeta.
  pose proof (lxor_range 8 _ _ ltac:(done) Ha Hb) as Hx. change (2 ^ 8) with 256 in Hx.
  pose proof (Z.lxor_eq_0_iff (bt a i) (bt b i)) as H0.
  rewrite (i32_small (bt a i - bt b i)), (i32_small (Z.lxor _ _ - 1)), !sign_byte by lia.
  rewrite !Z.land_m1_l. change (Z.land (Z.lnot (-1)) 0) with 0. rewrite Z.lor_0_l.
  destruct (Z.ltb_spec (bt a i - bt b i) 0), (Z.ltb_spec (bt a i) (bt b i)),
    (Z.eqb_spec (bt a i) (bt b i)), (Z.ltb_spec (Z.lxor (bt a i) (bt b i) - 1) 0); lia || done || f_equal; lia.
Qed.
Lemma le_turn_decided a b g i : le_turn a b (0, g) i = (0, g).
Proof. unfold le_turn. rewrite !Z.land_0_l, Z.lor_0_r. by rewrite Z.land_m1_l. Qed.
Lemma le_loop_decided a b g l : foldl (le_turn a b) (0, g) l = (0, g).
Proof. induction l as [|i l IH]; [done|]. cbn [foldl]. by rewrite le_turn_decided. Qed.

Lemma le_decode_snoc l b : le_decode (l ++ [b]) = le_decode l + 256 ^ zlen l * b2z b.
Proof.
  induction l as [|c l IH]; cbn [app le_decode]; [change (zlen []) with 0; lia|].
  rewrite IH, zlen_cons, Z.pow_add_r by (pose proof (zlen_nonneg l); lia). lia.
Qed.
Lemma le_decode_take a n :
  (n < length a)%nat ->
  le_decode (take (S n) a) = le_decode (take n a) + 256 ^ Z.of_nat n * bt a n
  /\ 0 <= le_decode (take n a) < 256 ^ Z.of_nat n /\ 0 <= bt a n < 256.
Proof.
  intros Hn. destruct (lookup_lt_is_Some_2 a n Hn) as [x Hx].
  assert (Hz : zlen (take n a) = Z.of_nat n) by (unfold zlen; rewrite length_take; lia).
  pose proof (le_decode_range (take n a)) as Hr. rewrite Hz in Hr.
  assert (E : bt a n = b2z x) by (unfold bt; by rewrite (nth_lookup_Some _ _ _ _ Hx)).
  rewrite E, (take_S_r _ _ x Hx), le_decode_snoc, Hz. pose proof (b2z_range x). lia.
Qed.

Lemma le_loop_spec a b n :
  (n <= length a)%nat -> (n <= length b)%nat ->
  foldl (le_turn a b) (-1, 0) (rev (seq 0 n)) =
    if le_decode (take n a) <? le_decode (take n b) then (0, -1)
    else if le_decode (take n a) =? le_decode (take n b) then (-1, 0) else (0, 0).
Proof.
  induction n as [|n IH]; intros Ha Hb; [done|].
  rewrite seq_S, rev_app_distr. cbn [rev app foldl Nat.add].
  destruct (le_decode_take a n ltac:(lia)) as (Ea & Ra & Xa).
  destruct (le_decode_take b n ltac:(lia)) as (Eb & Rb & Xb).
  rewrite le_turn_equal, Ea, Eb. specialize (IH ltac:(lia) ltac:(lia)).
  set (u := le_decode (take n a)) in *. set (v := le_decode (take n b)) in *.
  set (x := bt a n) in *. set (y := bt b n) in *. set (w := 256 ^ Z.of_nat n) in *. clearbody u v x y w.
  destruct (Z.ltb_spec x y); [|destruct (Z.eqb_spec x y) as [->|Hne]].
  - rewrite le_loop_decided, ltb_true by nia. done.
  - rewrite IH. by destruct (Z.ltb_spec u v), (Z.ltb_spec (u + w * y) (v + w * y)),
      (Z.eqb_spec u v), (Z.eqb_spec (u + w * y) (v + w * y)); try lia.
  - rewrite le_loop_decided, ltb_false, eqb_false by nia. done.
Qed.

(** [feBytesLE] compares strictly: it is one when [a < b] as little-endian
    numbers. *)
Lemma feBytesLE_spec a b :
  length a = 32%nat -> length b = 32%nat ->
  feBytesLE a b = if le_decode a <? le_decode b then 1 else 0.
Proof.
  intros Ha Hb. unfold feBytesLE. rewrite (le_loop_spec a b 32), !take_ge by lia.
  destruct (_ <? _); [done|]. by destruct (_ =? _).
Qed.

(** ** The representative of a point *)

(** The byte the code looks at tells minus one from zero and one. *)
Lemma second_byte x :
  x == 0 \/ x == 1 \/ x == -1 ->
  bt (le_encode 32 (x mod p)) 1 = if decide (x == -1) then 255 else 0.
Proof.
  intros H. assert (E : forall y, x == y -> x mod p = y mod p) by (intros y; apply eqm_iff).
  destruct (decide (x == -1)) as [Hm|Hm].
  - rewrite (E _ Hm). by vm_compute.
  - destruct H as [H|[H|H]]; [| |done]; rewrite (E _ H); by vm_compute.
Qed.

Lemma chi_values x : chi_spec x == 0 \/ chi_spec x == 1 \/ chi_spec x == -1.
Proof.
  destruct (decide (x == 0)) as [H|H]; [left; by apply chi_0|right; by apply chi_cases].
Qed.

Definition q58_spec (w : Z) : Z := w ^ ((p - 5) / 8).
Lemma repr_q58_spec f z : repr loose f z -> repr tight (q58 f) (q58_spec z).
Proof. apply repr_q58. Qed.
Lemma q58_0 w : w == 0 -> q58_spec w == 0.
Proof. intros E. unfold q58_spec. rewrite E. apply eqm_of_eq. by apply Z.pow_0_l. Qed.
Lemma q58_chi w : let c := q58_spec w in c * c * (c * c) * (w * w) = chi_spec w.
Proof.
  cbv zeta. change (chi_spec w) with (w ^ ((p - 1) / 2)). unfold q58_spec.
  assert (He : 0 <= (p - 5) / 8) by (by apply Z.leb_le).
  change ((p - 1) / 2) with ((p - 5) / 8 + (p - 5) / 8 + ((p - 5) / 8 + (p - 5) / 8) + 2).
  generalize dependent ((p - 5) / 8). intros e He.
  by rewrite !Z.pow_add_r, Z.pow_2_r by lia.
Qed.
#[global] Opaque q58_spec.
#[global] Typeclasses Opaque q58_spec.

(** The seventh power of [b] counts once in the character. *)
Lemma chi_b7 b u : chi_spec (b * b * b * (b * b * b) * b * u) == chi_spec (u * b).
Proof.
  destruct (decide (b == 0)) as [E|E].
  - assert (E0 : b * b * b * (b * b * b) * b * u == u * b)
      by (rewrite E; apply eqm_of_eq; ring).
    by rewrite E0.
  - replace (b * b * b * (b * b * b) * b * u) with (b * b * b * (b * b * b) * (u * b)) by ring.
    rewrite chi_mul, (chi_square (b * b * b)) by (repeat apply nz_mul; exact E).
    apply eqm_of_eq. ring.
Qed.

(** With [c^4 w^2 = -1] for [w = b^7 u], the two candidates are roots up to sign. *)
Section candidates.
Context (b u c : Z).
Hypothesis Hc : c * c * (c * c) * ((b * b * b * (b * b * b) * b * u) * (b * b * b * (b * b * b) * b * u)) == -1.
Let r1 := c * u * (b * b * b) * hh.
Let c7 := c * c * c * (c * c * c) * c.
Let b25 := let b8 := b * b * b * (b * b * b) * b * b in b8 * b8 * b8 * b.
Let r := c7 * (u * u * u) * b25 * hh.

Lemma hh_fourth : 2 * (hh * hh) * (2 * (hh * hh)) == -1.
Proof. rewrite hh_square, <- ii_square. apply eqm_of_eq. ring. Qed.
Lemma candidate_r1 : 2 * (r1 * r1 * b) * (2 * (r1 * r1 * b)) == u * u.
Proof.
  transitivity (c * c * (c * c) * (u * u * (b * b * b * b * b * b * b * (b * b * b * b * b * b * b)))
    * (u * u) * (2 * (hh * hh) * (2 * (hh * hh)))); [apply eqm_of_eq; unfold r1; ring|].
  rewrite hh_fourth. apply (eqm_lc1 (- (u * u)) _ _ _ _ Hc). ring.
Qed.
Lemma candidate_r : 2 * (r * r * u) * (2 * (r * r * u)) == b * b.
Proof.
  set (k := c * c * (c * c) * ((b * b * b * (b * b * b) * b * u) * (b * b * b * (b * b * b) * b * u))) in *.
  transitivity (k * k * k * (k * k * k) * k * (b * b) * (2 * (hh * hh) * (2 * (hh * hh))));
    [apply eqm_of_eq; unfold r, k, c7, b25; ring|].
  rewrite hh_fourth, Hc. apply eqm_of_eq. ring.
Qed.
End candidates.

Lemma halfQ : le_decode halfQMinus1Bytes = (p - 1) / 2.
Proof. by vm_compute. Qed.
Lemma repr_mul_tight f g x y : repr tight f x -> repr tight g y -> repr tight (FeMul f g) (x * y).
Proof. intros Hf Hg. apply repr_mul; by apply tight_loose. Qed.
Lemma repr_square_tight f x : repr tight f x -> repr tight (FeSquare f) (x * x).
Proof. intros Hf. by apply repr_square, tight_loose. Qed.
Ltac fe_repr := repeat first [eassumption | exact hh_repr | apply repr_mul_tight | apply repr_square_tight].

Lemma zero_factor x y : x == 0 -> x * y == 0.
Proof. intros ->. apply eqm_of_eq. ring. Qed.

(** The byte [chiBytes[1]] the code tests: of minus the character of [u b]. *)
Lemma chi_byte C U B7 b u :
  let w := b * b * b * (b * b * b) * b * u in
  repr tight C (q58_spec w) -> repr tight U u -> repr tight B7 (b * b * b * (b * b * b) * b) ->
  bt (FeToBytes (FeNeg (FeMul (FeMul (FeSquare (FeSquare C)) (FeSquare U)) (FeSquare B7)))).1 1
  = if decide (- chi_spec (u * b) == -1) then 255 else 0.
Proof.
  intros w RC RU R7.
  assert (RX : repr tight (FeNeg (FeMul (FeMul (FeSquare (FeSquare C)) (FeSquare U)) (FeSquare B7)))
                 (- chi_spec (u * b))).
  { apply repr_neg; [|done]. rewrite <- chi_b7. fold w. rewrite <- (q58_chi w). cbv zeta.
    eapply repr_eqm; [fe_repr|]. apply eqm_of_eq. unfold w. ring. }
  assert (Hv : - chi_spec (u * b) == 0 \/ - chi_spec (u * b) == 1 \/ - chi_spec (u * b) == -1).
  { destruct (chi_values (u * b)) as [E|[E|E]]; rewrite E; [by left|by right; right|by right; left]. }
  by rewrite (to_bytes_repr _ _ _ RX), (second_byte _ Hv).
Qed.
(** [vInSquareRootImage]. *)
Lemma in_root_image V v :
  repr tight V v ->
  feBytesLE (FeToBytes V).1 halfQMinus1Bytes = if v mod p <? (p - 1) / 2 then 1 else 0.
Proof.
  intros RV. rewrite (to_bytes_repr _ _ _ RV), feBytesLE_spec, halfQ, le_decode_encode by done.
  rewrite (Z.mod_small (v mod p)); [done|]. pose proof (Z.mod_pos_bound v p p_pos) as Hr.
  set (x := v mod p) in *. unfold p in Hr. change (256 ^ Z.of_nat 32) with (2 ^ 256). lia.
Qed.

Lemma representativeOf_spec U u V v :
  repr tight U u -> repr tight V v ->
  let b := u + 486662 in
  match representativeOf U V with
  | None => chi_spec (u * b) == 1
  | Some R =>
      ~ chi_spec (u * b) == 1
      /\ exists r, repr tight R r /\ (u == 0 -> r == 0)
         /\ (chi_spec (u * b) == -1 ->
             if v mod p <? (p - 1) / 2 then 2 * (r * r * b) + u == 0 else 2 * (r * r * u) + b == 0)
  end.
Proof.
  intros RU RV b. unfold representativeOf. cbv zeta.
  assert (RB : repr (tight + 243331) (FeAdd U Const25519.A) b)
    by (apply repr_add; [exact RU|exact AA_repr|done]).
  assert (RBl : repr loose (FeAdd U Const25519.A) b) by (by apply (repr_mono (tight + 243331))).
  set (B := FeAdd U Const25519.A) in *. clearbody B b.
  set (B3 := FeMul (FeSquare B) B). assert (R3 : repr tight B3 (b * b * b))
    by (unfold B3; apply repr_mul; [by apply tight_loose, repr_square|done]).
  set (B7 := FeMul (FeSquare B3) B). assert (R7 : repr tight B7 (b * b * b * (b * b * b) * b))
    by (unfold B7; apply repr_mul; [by apply tight_loose, repr_square_tight|done]).
  set (B8 := FeMul B7 B). assert (R8 : repr tight B8 (b * b * b * (b * b * b) * b * b))
    by (unfold B8; apply repr_mul; [by apply tight_loose|done]).
  clearbody B3 B7 B8. set (w := b * b * b * (b * b * b) * b * u).
  set (C := q58 (FeMul B7 U)). assert (RC : repr tight C (q58_spec w))
    by (apply repr_q58_spec, tight_loose; by apply repr_mul_tight).
  clearbody C. rewrite (chi_byte C U B7 b u RC RU R7).
  destruct (decide (- chi_spec (u * b) == -1)) as [Hm|Hm]; cbn [Z.eqb Pos.eqb].
  { apply (eqm_lc1 (-1) _ _ _ _ Hm). ring. }
  split; [intros E; apply Hm; by rewrite E|].
  assert (Hc : chi_spec (u * b) == -1 -> q58_spec w * q58_spec w * (q58_spec w * q58_spec w) * (w * w) == -1)
    by (intros E; by rewrite (q58_chi w), <- E, <- chi_b7).
  set (c := q58_spec w) in *. clearbody c.
  assert (R25 : repr tight (FeMul (FeMul (FeSquare B8) B8) B)
    ((b * b * b * (b * b * b) * b * b) * (b * b * b * (b * b * b) * b * b)
       * (b * b * b * (b * b * b) * b * b) * b))
    by (apply repr_mul; [apply tight_loose; fe_repr|exact RBl]).
  rewrite FeCMove_spec, (in_root_image V v RV) by (rewrite (in_root_image V v RV); case_match; auto).
  destruct (v mod p <? (p - 1) / 2); cbn [Z.eqb Pos.eqb].
  - eexists. split; [eapply correctRoot_spec; [fe_repr|exact RBl|exact RU|done]|]. split.
    + intros E. apply zero_factor. rewrite E. apply eqm_of_eq. ring.
    + intros E. exact (corrected_root _ _ _ (candidate_r1 b u c (Hc E))).
  - eexists. split; [eapply correctRoot_spec; [fe_repr|by apply tight_loose|exact RB|done]|]. split.
    + intros E. apply zero_factor. rewrite E. apply eqm_of_eq. ring.
    + intros E. exact (corrected_root _ _ _ (candidate_r b u c (Hc E))).
Qed.

(** ** The map *)

(** Elligator 2 for [v^2 = u^3 + 486662 u^2 + u] and the non-square 2. *)
Definition elligator_map (r : Z) : Z :=
  let v := - (486662 * inv (1 + 2 * (r * r))) in
  if decide (chi_spec (v * (v * (v + 486662) + 1)) == -1) then - v - 486662 else v.

Lemma elligator_map_of r v :
  486662 * inv (1 + 2 * (r * r)) == - v ->
  elligator_map r == if decide (chi_spec (v * (v * (v + 486662) + 1)) == -1) then - v - 486662 else v.
Proof.
  intros E. unfold elligator_map. cbv zeta.
  assert (Ev : - (486662 * inv (1 + 2 * (r * r))) == v) by (rewrite E; apply eqm_of_eq; ring).
  assert (Ec : chi_spec (- (486662 * inv (1 + 2 * (r * r))) * (- (486662 * inv (1 + 2 * (r * r)))
    * (- (486662 * inv (1 + 2 * (r * r))) + 486662) + 1)) == chi_spec (v * (v * (v + 486662) + 1)))
    by (by rewrite Ev).
  destruct (decide _) as [H1|H1], (decide _) as [H2|H2]; rewrite Ec in H1; (contradiction || by rewrite Ev).
Qed.
#[export] Instance elligator_map_proper : Proper (eqm ==> eqm) elligator_map.
Proof.
  intros r s E. rewrite (elligator_map_of r (- (486662 * inv (1 + 2 * (s * s))))).
  - done.
  - rewrite E. apply eqm_of_eq. ring.
Qed.

Lemma incr0_repr f x : repr tight f x -> repr loose (incr0 f) (1 + x).
Proof.
  intros [B E]. unfold incr0. split.
  - unfold bounded, bnd, tight, loose in *. cbn [e0 e1 e2 e3 e4 e5 e6 e7 e8 e9].
    rewrite i32_small by lia. lia.
  - rewrite <- E. apply eqm_of_eq. unfold bounded, bnd, tight, eval in *.
    cbn [e0 e1 e2 e3 e4 e5 e6 e7 e8 e9]. rewrite i32_small by lia. ring.
Qed.

Lemma RepresentativeToPublicKey_spec rep :
  length rep = 32%nat ->
  UnsafeBrokenRepresentativeToPublicKey rep =
  le_encode 32 (elligator_map (le_decode rep mod 2 ^ 255) mod p).
Proof.
  intros Hl. pose proof (FeFromBytes_spec rep Hl) as RR.
  unfold UnsafeBrokenRepresentativeToPublicKey, elligator_map. cbv zeta.
  set (r := le_decode rep mod 2 ^ 255) in *. clearbody r.
  set (V := FeNeg _). set (v := - (486662 * inv (1 + 2 * (r * r)))).
  assert (RV : repr tight V v).
  { unfold V, v. apply repr_neg; [|done]. apply repr_mul; [by apply (repr_mono 243331); [exact AA_repr|]|].
    by apply tight_loose, repr_inv, incr0_repr, repr_square2, tight_loose. }
  clearbody V v.
  set (E := chi _). assert (RE : repr tight E (chi_spec (v * (v * (v + 486662) + 1)))).
  { unfold E. apply repr_chi. eapply (add_loose tight (tight + tight)).
    - apply repr_mul; [by apply tight_loose, repr_square_tight|by apply (repr_mono 243331); [exact AA_repr|]].
    - apply repr_add; [by apply repr_mul_tight; [|apply repr_square_tight]|exact RV|done].
    - done.
    - apply eqm_of_eq. ring. }
  clearbody E. rewrite (to_bytes_repr _ _ _ RE), second_byte by (done || apply chi_values).
  destruct (decide _) as [Hm|Hm]; rewrite !FeCMove_spec by auto.
  - change (Z.land 255 1 =? 1) with true. cbv iota.
    apply (to_bytes_repr (tight + 243331)); [|done].
    apply repr_sub; [by apply repr_neg|exact AA_repr|done].
  - change (Z.land 0 1 =? 1) with false. cbv iota.
    apply (to_bytes_repr (tight + tight)); [|done].
    eapply repr_eqm; [by apply repr_sub; [exact RV|exact repr_zero|]|apply eqm_of_eq; ring].
Qed.

(** ** The round trip *)

Lemma chi_minus_A : chi_spec (- 486662) == -1.
Proof.
  replace (- 486662) with (-1 * 486662) by ring. rewrite chi_mul, chi_minus_1, chi_A. done.
Qed.
Lemma nz_A : nz 486662.
Proof. apply chi_nz. right. exact chi_A. Qed.

(** A fraction that [inv] computes. *)
Lemma inv_fraction a b c : nz c -> b * a == c -> c * inv a == b.
Proof.
  intros Hc E. assert (Ha : nz a) by (apply (nz_mul_r b); by rewrite E).
  rewrite <- E. apply (eqm_lc1 b _ _ _ _ (inv_spec a Ha)). ring.
Qed.

Lemma elligator_map_0 : elligator_map 0 == 0.
Proof.
  rewrite (elligator_map_of 0 (- 486662)).
  - rewrite decide_True.
    + apply eqm_of_eq. ring.
    + replace (- 486662 * (- 486662 * (- 486662 + 486662) + 1)) with (- 486662) by ring.
      exact chi_minus_A.
  - apply inv_fraction; [exact nz_A|apply eqm_of_eq; ring].
Qed.

(** Both roots map back to [u], when [u] is on the curve and [2 u (u + A)] is
    a square. *)
Lemma elligator_inverse u v r :
  v * v == u * (u * (u + 486662) + 1) -> nz u -> nz v ->
  chi_spec (u * (u + 486662)) == -1 ->
  2 * (r * r * (u + 486662)) + u == 0 \/ 2 * (r * r * u) + (u + 486662) == 0 ->
  elligator_map r == u.
Proof.
  intros Hv Hu Hnv Hc [Hr|Hr].
  - set (b := u + 486662) in *.
    assert (Hcu : chi_spec u * chi_spec (u * b + 1) == 1) by (rewrite <- chi_mul; rewrite <- Hv; exact (chi_square v Hnv)).
    rewrite (elligator_map_of r (- b)).
    + rewrite decide_True; [apply eqm_of_eq; unfold b; ring|].
      assert (E : - b * (- b * (- b + 486662) + 1) == -1 * (b * (u * b + 1)))
        by (apply eqm_of_eq; unfold b; ring).
      rewrite E, (chi_mul (-1)), (chi_mul b (u * b + 1)), chi_minus_1. rewrite (chi_mul u b) in Hc.
      assert (Hcb : chi_spec b * (chi_spec u * chi_spec u) == - chi_spec u)
        by (apply (eqm_lc1 (chi_spec u) _ _ _ _ Hc); ring).
      rewrite <- (chi_mul u u), (chi_square u Hu) in Hcb.
      apply (eqm_lc2 (chi_spec (u * b + 1)) (-1) _ _ _ _ _ _ Hcb Hcu). ring.
    + rewrite Z.opp_involutive. apply inv_fraction; [exact nz_A|].
      apply (eqm_lc1 1 _ _ _ _ Hr). unfold b. ring.
  - rewrite (elligator_map_of r u).
    + rewrite decide_False; [done|]. rewrite <- Hv, (chi_square v Hnv). exact one_neq_minus_one.
    + apply inv_fraction; [exact nz_A|]. apply (eqm_lc1 (-1) _ _ _ _ Hr). ring.
Qed.

(** ** Key pairs *)

Lemma maskPrivateKey_shape k :
  length k = 32%nat ->
  length (maskPrivateKey k) = 32%nat /\ b2z (List.last (maskPrivateKey k) Byte.x00) <= 127.
Proof.
  intros Hl. assert (Hlen : length (maskPrivateKey k) = 32%nat)
    by (unfold maskPrivateKey; by rewrite !length_alter).
  split; [done|]. destruct (exists_last (l := maskPrivateKey k)) as (l & x & E).
  { intros E. by rewrite E in Hlen. }
  assert (Hx : maskPrivateKey k !! 31%nat = Some x).
  { rewrite E. rewrite E, length_app in Hlen. cbn in Hlen.
    rewrite lookup_app_r by lia. by replace (31 - length l)%nat with 0%nat by lia. }
  rewrite E, last_last. unfold maskPrivateKey in Hx. rewrite list_lookup_alter_eq in Hx.
  apply fmap_Some in Hx as (y & _ & ->). rewrite b2z_z2b.
  pose proof (Ntor.Ntor.lor_64 _ (b2z_range y)). rewrite Z.mod_small by lia. lia.
Qed.

(** What [UnsafeBrokenScalarBaseMult] returns. *)
Lemma ScalarBaseMult_spec k :
  length k = 32%nat ->
  let P := zmul (le_decode (maskPrivateKey k)) ScalarMult25519.B in
  let u := mont_u P in
  match UnsafeBrokenScalarBaseMult k with
  | None => chi_spec (u * (u + 486662)) == 1
  | Some (pub, rep) =>
      ~ chi_spec (u * (u + 486662)) == 1 /\ pub = le_encode 32 (u mod p)
      /\ exists r, rep = le_encode 32 (r mod p) /\ elligator_map r == u
  end.
Proof.
  intros Hl P u. destruct (maskPrivateKey_shape k Hl) as [Ml Mb].
  destruct (exists_last (l := maskPrivateKey k)) as (a & x & E); [intros E; by rewrite E in Ml|].
  rewrite E, last_last in Mb. assert (Ha : length a = 31%nat).
  { rewrite E, length_app in Ml. cbn in Ml. lia. }
  pose proof (ScalarMult25519.GeScalarMultBase_repr a x Ha Mb) as HP. rewrite <- E in HP. fold P in HP.
  assert (Hon : on_curve P) by (apply zmul_on_curve, ScalarMult25519.B_on_curve). clearbody P.
  destruct (toMontgomery_spec _ P HP) as [RU RV]. fold u in RU.
  unfold UnsafeBrokenScalarBaseMult. destruct (toMontgomery _) as [U V]. cbn [fst snd] in RU, RV.
  pose proof (representativeOf_spec U u V (mont_v P) RU RV) as HR. cbv zeta in HR.
  destruct (representativeOf U V) as [R|]; [|exact HR].
  destruct HR as (Hc & r & RR & H0 & H1). split; [done|].
  split; [apply (to_bytes_repr tight _ _ RU); done|].
  exists r. split; [apply (to_bytes_repr tight _ _ RR); done|].
  destruct (decide (fst P == 0)) as [Hx|Hx].
  - pose proof (mont_u_0 P Hx) as Hu. fold u in Hu. rewrite (H0 Hu), Hu. exact elligator_map_0.
  - destruct (mont_curve P Hon Hx) as (Hv & Hnu & Hnv). cbv zeta in Hv. fold u in Hv, Hnu.
    assert (Hb : nz (u + 486662)).
    { intros Eb. rewrite Eb, Z.mul_0_r in Hv. apply one_neq_minus_one.
      rewrite <- (chi_square _ Hnv), Hv, <- chi_minus_A. apply chi_proper.
      apply (eqm_lc1 1 _ _ _ _ Eb). ring. }
    assert (Hm : chi_spec (u * (u + 486662)) == -1).
    { destruct (chi_cases (u * (u + 486662))) as [?|?]; [by apply nz_mul|contradiction|done]. }
    apply (elligator_inverse u (mont_v P)); [done..|]. specialize (H1 Hm).
    case_match; [by left|by right].
Qed.

Lemma map_of_encoded r :
  UnsafeBrokenRepresentativeToPublicKey (le_encode 32 (r mod p)) = le_encode 32 (elligator_map r mod p).
Proof.
  rewrite RepresentativeToPublicKey_spec by apply length_le_encode.
  pose proof (Z.mod_pos_bound r p p_pos) as Hr. rewrite le_decode_encode.
  set (x := r mod p) in *. assert (Ex : x == r) by apply eqm_mod. clearbody x.
  change (256 ^ Z.of_nat 32) with (2 ^ 256).
  rewrite (Z.mod_small x), (Z.mod_small x) by (unfold p in Hr; lia).
  f_equal. apply eqm_iff. by rewrite Ex.
Qed.

(** C4: whatever private key [UnsafeBrokenScalarBaseMult] is given, it either
    fails, exactly when [u (u + A)] is a non-zero square for the Montgomery
    coordinate [u] of the public point (so that no representative exists), or
    returns the canonical encoding of [u] and a representative of 32 bytes that
    [UnsafeBrokenRepresentativeToPublicKey] maps back to that public key. *)
Theorem elligator_roundtrip k :
  length k = 32%nat ->
  let u := mont_u (zmul (le_decode (maskPrivateKey k)) ScalarMult25519.B) in
  match UnsafeBrokenScalarBaseMult k with
  | None => chi_spec (u * (u + 486662)) == 1
  | Some (pub, rep) =>
      ~ chi_spec (u * (u + 486662)) == 1 /\ pub = le_encode 32 (u mod p) /\ length rep = 32%nat
      /\ UnsafeBrokenRepresentativeToPublicKey rep = pub
  end.
Proof.
  intros Hl u. pose proof (ScalarBaseMult_spec k Hl) as H. cbv zeta in H. fold u in H.
  destruct (UnsafeBrokenScalarBaseMult k) as [[pub rep]|]; [|exact H].
  destruct H as (Hc & -> & r & -> & Hr). split_and!; [exact Hc|reflexivity|apply length_le_encode|].
  rewrite map_of_encoded. apply eqm_iff in Hr. by rewrite Hr.
Qed.

Lemma chi_minus_2 : chi_spec (-2) == -1.
Proof. change (-2) with (-1 * 2). rewrite (chi_mul (-1) 2), chi_minus_1, chi_2. done. Qed.
(** The other value of the map is on the curve when the first is not. *)
Lemma other_on_curve r v :
  v * (1 + 2 * (r * r)) == - 486662 -> nz (1 + 2 * (r * r)) ->
  chi_spec (v * (v * (v + 486662) + 1)) == -1 ->
  let u := - v - 486662 in
  chi_spec (u * (u * (u + 486662) + 1)) == 0 \/ chi_spec (u * (u * (u + 486662) + 1)) == 1.
Proof.
  intros Hv Hn He u. set (m := 1 + 2 * (r * r)) in *.
  set (t := v * (v + 486662) + 1) in *.
  assert (Eu : u * (u * (u + 486662) + 1) == u * t) by (apply eqm_of_eq; unfold u, t; ring).
  rewrite Eu. destruct (decide (r == 0)) as [Hr|Hr].
  - left. apply chi_0. assert (Ev : u == 0).
    { unfold m in Hv. rewrite Hr in Hv. apply (eqm_lc1 (-1) _ _ _ _ Hv). unfold u. ring. }
    rewrite Ev. apply eqm_of_eq. ring.
  - right. assert (Euv : u * v * (m * m) == 2 * (486662 * r * (486662 * r))).
    { apply (eqm_lc1 (- (v * m) - 486662 * m + 486662) _ _ _ _ Hv). unfold u, m. ring. }
    assert (Hu : chi_spec (u * v) == -1).
    { pose proof (chi_proper _ _ Euv) as Hc.
      rewrite (chi_mul (u * v) (m * m)), (chi_mul 2 (486662 * r * (486662 * r))) in Hc.
      rewrite (chi_square m Hn), (chi_square (486662 * r)), chi_2 in Hc by (apply nz_mul; [exact nz_A|exact Hr]).
      apply (eqm_lc1 1 _ _ _ _ Hc). ring. }
    assert (Hnv : nz v) by (intros E; rewrite E, Z.mul_0_r in Hu; apply (chi_nz 0); [by right|done]).
    assert (Hx : chi_spec (u * v) * chi_spec (v * t) == chi_spec (u * t)).
    { rewrite <- (chi_mul (u * v) (v * t)). replace (u * v * (v * t)) with (v * v * (u * t)) by ring.
      rewrite (chi_mul (v * v) (u * t)), (chi_square v Hnv). apply eqm_of_eq. ring. }
    rewrite <- Hx, Hu, He. apply eqm_of_eq. ring.
Qed.

(** [UnsafeBrokenRepresentativeToPublicKey] is the Elligator 2 map: for every
    32 bytes it writes the canonical encoding of the map's value at their number
    (bit 255 ignored), and that value is the coordinate of a point of the curve
    [v^2 = u^3 + 486662 u^2 + u]. *)
Theorem representative_map rep :
  length rep = 32%nat ->
  let u := elligator_map (le_decode rep mod 2 ^ 255) in
  UnsafeBrokenRepresentativeToPublicKey rep = le_encode 32 (u mod p)
  /\ (chi_spec (u * (u * (u + 486662) + 1)) == 0 \/ chi_spec (u * (u * (u + 486662) + 1)) == 1).
Proof.
  intros Hl u. split; [by apply RepresentativeToPublicKey_spec|].
  unfold u, elligator_map. generalize (le_decode rep mod 2 ^ 255). clear u rep Hl. intros r. cbv zeta.
  assert (Hn : nz (1 + 2 * (r * r))).
  { intros E. destruct (nonsquare (-2) (2 * r) 1) as [_ H1]; [| |by apply nz_1].
    - exact chi_minus_2.
    - apply (eqm_lc1 2 _ _ _ _ E). ring. }
  pose proof (inv_spec _ Hn) as Ei. set (v := - (486662 * inv (1 + 2 * (r * r)))).
  assert (Hv : v * (1 + 2 * (r * r)) == - 486662)
    by (apply (eqm_lc1 (- 486662) _ _ _ _ Ei); unfold v; ring).
  clearbody v. destruct (decide _) as [He|He].
  - by apply (other_on_curve r v).
  - destruct (chi_values (v * (v * (v + 486662) + 1))) as [H|[H|H]]; [by left|by right|contradiction].
Qed.

(** What the comments of the constants and of [feBytesLE] say does not hold:
    [-1/2] has no square root modulo [p], and the comparison is strict. *)
Theorem sqrtMinusHalf_comment :
  (forall x, ~ 2 * (x * x) == -1) /\ ~ 2 * (eval sqrtMinusHalf * eval sqrtMinusHalf) == -1
  /\ 2 * (eval sqrtMinusHalf * eval sqrtMinusHalf) == - eval Const25519.SqrtM1.
Proof.
  assert (H : forall x, ~ 2 * (x * x) == -1).
  { intros x E. destruct (nonsquare (-2) (2 * x) 1) as [_ H1]; [| |by apply nz_1].
    - exact chi_minus_2.
    - apply (eqm_lc1 2 _ _ _ _ E). ring. }
  split; [exact H|split; [apply H|exact hh_square]].
Qed.
Theorem feBytesLE_strict a : length a = 32%nat -> feBytesLE a a = 0.
Proof. intros Hl. by rewrite feBytesLE_spec, Z.ltb_irrefl. Qed.

(** ** The interface of [common/ntor] *)

#[global] Opaque UnsafeBrokenScalarBaseMult UnsafeBrokenRepresentativeToPublicKey.

#[export] Instance extra25519 : Elligator := {|
  EllScalarBaseMult := UnsafeBrokenScalarBaseMult;
  RepresentativeToPublicKey := UnsafeBrokenRepresentativeToPublicKey
|}.

Lemma extra25519_pair k pub rep :
  zlen k = 32 -> UnsafeBrokenScalarBaseMult k = Some (pub, rep) ->
  zlen rep = 32 /\ UnsafeBrokenRepresentativeToPublicKey rep = pub.
Proof.
  intros Hl E. pose proof (ScalarBaseMult_spec k ltac:(unfold zlen in Hl; lia)) as H. cbv zeta in H.
  rewrite E in H. destruct H as (_ & -> & r & -> & Hr). split.
  - unfold zlen. by rewrite length_le_encode.
  - rewrite map_of_encoded. apply eqm_iff in Hr. by rewrite Hr.
Qed.

(** The interface [Elligator] that [common/ntor] is proved against is kept by
    [internal/extra25519]: sizes and the round trip hold of the code, and what
    remains to be assumed is only that X25519 and Edwards multiplication of the
    base point agree on the public key. *)
Theorem extra25519_laws `{Curve25519} :
  (forall k pub rep, zlen k = 32 -> UnsafeBrokenScalarBaseMult k = Some (pub, rep) ->
     pub = ScalarBaseMult k) ->
  @ElligatorLaws _ extra25519.
Proof.
  intros Hpub. split; [exact Hpub|..]; intros k pub rep Hl E.
  - exact (proj1 (extra25519_pair k pub rep Hl E)).
  - exact (proj2 (extra25519_pair k pub rep Hl E)).
Qed.

End Elligator25519.

Section witnesses.
Import Elligator25519.
(** A curve25519 whose base point multiplication is the Montgomery coordinate of
    the Edwards multiple. *)
Definition edwards_curve25519 : Curve25519 := {|
  ScalarMult k u := u;
  ScalarBaseMult k := le_encode 32 (mont_u (zmul (le_decode (maskPrivateKey k)) ScalarMult25519.B) mod p)
|}.
Lemma extra25519_laws_witness : @ElligatorLaws edwards_curve25519 extra25519.
Proof.
  apply (@extra25519_laws edwards_curve25519). intros k pub rep Hl E.
  pose proof (ScalarBaseMult_spec k ltac:(unfold zlen in Hl; lia)) as H. cbv zeta in H.
  rewrite E in H. exact (proj1 (proj2 H)).
Defined.
Lemma elligator_roundtrip_witness :
  let k := replicate 32 Byte.x07 in
  let u := mont_u (zmul (le_decode (maskPrivateKey k)) ScalarMult25519.B) in
  match UnsafeBrokenScalarBaseMult k with
  | None => chi_spec (u * (u + 486662)) == 1
  | Some (pub, rep) =>
      ~ chi_spec (u * (u + 486662)) == 1 /\ pub = le_encode 32 (u mod p) /\ length rep = 32%nat
      /\ UnsafeBrokenRepresentativeToPublicKey rep = pub
  end.
Proof. exact (elligator_roundtrip (replicate 32 Byte.x07) eq_refl). Defined.
Lemma representative_map_witness :
  let u := elligator_map (le_decode (replicate 32 Byte.x11) mod 2 ^ 255) in
  UnsafeBrokenRepresentativeToPublicKey (replicate 32 Byte.x11) = le_encode 32 (u mod p)
  /\ (chi_spec (u * (u * (u + 486662) + 1)) == 0 \/ chi_spec (u * (u * (u + 486662) + 1)) == 1).
Proof. exact (representative_map (replicate 32 Byte.x11) eq_refl). Defined.
End witnesses.
